(* ===== verification/_CoqProject ===== *)
-Q . S2P
Prelude.v
GoStrings.v
Domain.v
Threads.v
Crypto.v
Strconv.v
Password.v
MlsChain.v
MlsWire.v
Nodelist.v
Ident.v
Otp.v
Calls.v
Federation.v
Blob.v
StoreState.v
StoreUsers.v
StoreChannels.v
StoreInvites.v
StoreDevices.v
StoreMessages.v
StoreConversations.v
StoreMls.v
StoreBackup.v
StoreSystem.v
Auth.v
Tokens.v
AuthHandler.v
Registration.v
Lockout.v
Resets.v
Push.v
Live.v
PushNotify.v
Peers.v
ChannelViews.v
ChatWorld.v
ChatPush.v
ConvFed.v
ChatConversations.v
ChatMessages.v
ChatMls.v
ChatKeys.v
ChatCalls.v
ChatFrame.v
ChatServe.v
ChatSample.v
ChatQuiet.v
ChatElsewhere.v
ChatAuthority.v
ChannelAccess.v
ChannelMembers.v
Uploads.v
ChannelContent.v
ChannelProfile.v
ChannelAdmin.v
Dispatch.v
FedServe.v
ChannelFrame.v
ChannelServe.v
ChannelSample.v
ChatBystander.v
ChannelAuthority.v
PeerIsolation.v
IngestSafety.v
StreamPrivacy.v
Standing.v
FedClient.v
RateLimit.v
ClientIP.v
Config.v
Bootstrap.v
Throttle.v
Replication.v
Bson.v
MongoStore.v
MongoRace.v
MongoDirectory.v
Redis.v
Coordinator.v
