(* ===== verification/Prelude.v ===== *)
(** * Pheme backend: a verification development

    Pheme is a messenger whose server is written in Go, under
    [src/api/internal]. Clients register by e-mail (on a closed server, by
    invitation), publish and subscribe to channels, and hold conversations
    encrypted end to end with MLS, for which the server keeps the groups'
    epochs, the members' key packages and encrypted key backups. Servers
    federate: they call each other with signed requests, and a signed list of
    nodes says which key each of them has. This development models the
    server's state and the operations on it as Coq functions translated from
    the Go code, and proves that they do what the code sets out to do.

    ** Parts and files

    Shared ground:
    - [Prelude]: notations of [go_scope] ([==], [!=], [let?], record update
      [r <| f := v |>] through the class [Eta]), machine integers with their
      wrap-around, times, Go maps with their unspecified [range] order (class
      [RangeOrder]), sorting, and the hint database [keyed] for tables whose
      rows are kept under their ids;
    - [GoStrings], [Strconv]: strings, strconv, the JSON of strings and objects
      and the parts of package [strings] the code uses, on bytes; Unicode tables are the class
      [Unicode];
    - [Crypto]: SHA-256 and unpadded base64url in full, Ed25519 as a class
      with its laws (and a toy instance for the witnesses);
    - [Threads]: a handler as a program of atomic calls on shared state, its
      run on its own, pools of programs that interleave, and the
      rely-guarantee rule.

    The program, from the data up:
    - [Domain]: domain/domain.go: the records, enumerations and rules;
    - [Ident]: ident/ident.go: identifiers, the key of a pair of
      accounts, and reading an identifier;
    - [MlsChain]: mlschain/mlschain.go: the hash chain over commits;
    - [MlsWire]: mlswire/mlswire.go: the parser of MLS handshake messages;
    - [Nodelist]: nodelist/nodelist.go, store.go: the signed list of nodes;
      [Coordinator]: cmd/nodelist/main.go: the tool that edits and signs it;
    - [Otp]: otp/, invite/invite.go: pending codes and invitation codes;
    - [Calls]: calls/mailbox.go, idempotency/: call signals, idempotency keys;
    - [Blob]: blob/: the interface of the blob store and its two drivers, in
      memory and over GridFS;
    - [StoreState] to [StoreBackup]: store/store_memory*.go and
      store/mlschain.go: the in-memory store. [StoreState.Memory.t] is the
      struct [Memory]; each operation that takes the lock is one function,
      [memory_op] when it changes state, by area: users ([StoreUsers]),
      channels, members and account deletion ([StoreChannels]), invitations
      ([StoreInvites]), push devices ([StoreDevices]), channel messages
      ([StoreMessages]), conversations ([StoreConversations]), MLS groups and
      key packages ([StoreMls]), key backups, MLS devices and revocations
      ([StoreBackup]). [StoreSystem] puts all of them into one step relation;
    - [Bson], [MongoStore], [MongoDirectory]: store/store_mongo*.go: the store
      over MongoDB. [Bson] has documents, queries, updates and commands as the
      code writes them, and the driver as the class [Mongo]: what it may answer
      to each command, in the words of its manual, with a database in memory as
      an instance. Every method is a [Threads.prog] of commands, each of which
      may fail before or after the server has run it ([Threads.fault]).
      [MongoRace] has commits and claims that race;
    - [Redis]: otp/otp_redis.go, calls/mailbox_redis.go, idempotency_redis.go,
      ratelimit_redis.go: what [Otp], [Calls] and [RateLimit] keep in memory,
      kept in Redis, as programs of commands, transactions and scripts over the
      class [Redis], with faults as over MongoDB.

    Accounts and sessions:
    - [Password]: auth/password.go, password_policy.go;
    - [Auth]: auth/revoker.go, channel/session_revocation.go: revocation of
      sessions, against the interface [SessionRevocationStore] which the
      memory store implements ([memory_revocation_laws]);
    - [Tokens]: auth/token.go, middleware.go: tokens and the middleware that
      guards every request, over a [Jwt] interface;
    - [Federation]: federation/signing.go: signing and checking requests
      between servers;
    - [AuthHandler]: channel/auth_handler.go: the credential endpoints, each a
      [Threads.prog] of its calls on the store, the code store and the
      revoker ([World.t] is that shared state, [Env.t] what a call meets);
    - [Registration], [Lockout], [Resets]: what those endpoints guarantee.

    Start-up and limits:
    - [Config]: config/config.go: the environment, read into a record, with
      time.ParseDuration; [Bootstrap]: bootstrap/bootstrap.go, with the keys of
      auth/token.go and auth.go: what is built of that record;
    - [ClientIP]: httpx/clientip.go, with net.ParseIP and net.SplitHostPort;
    - [RateLimit]: ratelimit/ratelimit.go: the token bucket and its sweep,
      over binary64 arithmetic by exact rounding of rationals;
      [Throttle]: the budgets the credential endpoints ask of it.

    Queues and live delivery:
    - [Push]: chat/pushqueue.go, storm.go, pushdrops.go;
    - [Live]: live/: the registry of streams and its Redis bus;
    - [PushNotify]: push/: payloads, routing, and the transports over Firebase,
      Web Push and Apple's VoIP pushes.

    Conversations (package chat), over one shared state [ChatWorld.World.t] and
    the calls on it ([ChatWorld.op]), each of which may fail before or after
    it has done its work:
    - [Peers], [ConvFed]: what hosts say to each other about a conversation
      (federation/conversations.go, chat/convfed.go), with the TURN
      credentials of ice.go;
    - [ChatPush]: notifications of messages and calls;
    - [ChatConversations] (chat.go, list.go), [ChatMessages] (messages.go,
      attachments.go), [ChatMls] (mlsgroup.go, mlshistory.go), [ChatKeys]
      (keypackages.go), [ChatCalls] (calls.go, ice.go): every handler, a
      [Threads.prog]; [ChatServe] gathers them as one request type;
    - [ChatFrame] (a rule per call and per helper), [ChatQuiet],
      [ChatElsewhere] (requests that leave a conversation alone, by route),
      [ChatAuthority]: what requests cannot do;
    - [ChatSample]: the instances the witnesses evaluate on.

    Channels (package channel), administration and publishing, over the same
    shared state:
    - [ChannelViews], [ChannelAccess], [ChannelMembers], [Uploads],
      [ChannelContent], [ChannelProfile], [ChannelAdmin]: every handler, the
      last with the pages of its listings;
    - [Dispatch]: channel/ingest.go and package message: from the publisher's
      request to devices and peers, and what peers may do to a mirror;
    - [FedServe]: federation/handler.go: the host-to-host API behind its
      signatures, over [ConvFed] and [Dispatch];
    - [FedClient]: federation/client.go: the client that calls another host,
      and that a call by it is the call of the service at the other end;
      [Replication]: a conversation's mirror follows its hub;
    - [ChannelServe]: the app API behind its tokens, and the live stream;
    - [ChannelFrame], [ChatBystander], [ChannelAuthority], [PeerIsolation],
      [IngestSafety], [StreamPrivacy], [Standing]: what they guarantee
      together; [ChannelSample] the instances of the witnesses.

    ** How code is modelled

    A Go call that returns a value and an error is a [result]; a panic or a
    read out of range is [None]. Operations that hold the store's lock from
    beginning to end are functions of the state; those that release it are
    several functions, put together as a program of atomic calls
    ([StoreSystem.deleting]; [Auth.Revoker.looking_up]; the handlers).
    A handler is a program of atomic calls: [Threads.schedule] runs any number
    of them in any order, [Threads.run] one on its own. The clock, what other
    hosts and services answer, and which calls fail are chosen anew at every
    call, by whatever the theorem quantifies over. What a body draws at random
    (ids, codes, salts) and the clock are arguments. [range] over a map is
    [go_range], for any order. Integers wrap where the code's would.

    Recursion is on lists and strings, with few exceptions that take fuel:
    [Crypto.blocks] (as many rounds as words of the message; each takes
    sixteen), [Strconv.format_digits] (nineteen digits, those of an int64),
    [Config.duration_terms] (a term of a duration takes at least a byte, and
    there are as many as the text has bytes), [ClientIP.v6_fields] (an address
    has at most eight fields),
    [ChatPush.offer_from] (an offer ends in at most four steps), and the loops
    of a client, [StoreConversations.scroll] and [StoreMessages.walk], whose
    theorems say how many pages are enough. The witnesses take toy instances
    of the interfaces and run the definitions on concrete inputs.

    ** Theorems

    - The whole app API: nobody but an administrator changes what an account
      may do ([Standing.no_escalation]), and nobody but a channel's owner and
      its active admins changes the channel, its keys, its feed or another's
      membership ([Standing.channel_governed]); a stream shows its user only
      what is theirs when it is written ([StreamPrivacy.stream_private]).
    - Conversations under interference: requests of people outside a
      conversation leave all its records alone
      ([ChatElsewhere.outsiders_confined]; not the content of its photos, see
      [history_fetch_takes_photo]),
      people who are not a group's admins cannot change who is in it
      ([ChatAuthority]), and hosts that take no part in a conversation cannot
      reach it ([PeerIsolation.peers_confined], [unsigned_turned_away]).
    - Publishing: a notification needs a key of its channel and is queued once
      for an idempotency key ([IngestSafety]).
    - MLS groups: the store's commits and resets refine an append-only log per
      group with one commit per epoch ([StoreMls.commits_refine_log],
      [one_winner_per_epoch]); a commit and its messages are one step
      ([CommitMLSGroup_atomic]); key packages are handed out once
      ([claims_single_use]); the same over MongoDB, under any interleaving of
      commands and any failures of them ([MongoRace.mongo_one_winner],
      [mongo_claims_single_use]), with what lost answers and undone commits
      leave behind ([lost_answer_strands], [head_of_undone_commit]); the hash
      chain pins the history
      ([MlsChain.Link_binding], [chain_fork_evident]); the parser accepts
      exactly the messages of the wire format ([MlsWire.ParseHandshake_exact]).
    - Conversations: sequence numbers without gaps
      ([StoreConversations.append_gapless]), paging that ends and shows every
      message once ([scroll_complete]), receipts that only move forward,
      members that are unique.
    - The store as a whole: what holds of every reachable state
      ([StoreSystem.reachable_invariants]), and what deleting an account leaves,
      alone and among other calls ([DeleteUser_complete]; it stops short when a
      channel of its list goes meanwhile, see [deletion_stops]); backups ([StoreBackup.backup_tail_retry],
      [ArchiveKeyBackup_prunes_oldest], [revocation_survives_upsert]).
    - Accounts: on an invite-only server every account spends an invitation of
      its own, in every interleaving ([Registration.invite_only_accounts], with
      [StoreInvites.invite_spent_at_most_once]); what racing requests make of
      the invitations in MongoDB is what the in-memory store makes of some of
      their calls in turn ([MongoDirectory.mongo_invites_refine],
      [mongo_invite_once]); three tries at a code when
      requests do not overlap ([Lockout.three_tries]; [overlapping_guesses]
      shows that requests that do are not held to it); what a password reset
      has done when it answers ([Resets.reset_takes_effect]); hashes that
      verify, with bounded parameters ([Password]).
    - Sessions: terminated sessions stay out across restarts, for any
      interleaving of calls on the revoker, unless an entry that is about to
      expire was there before ([Auth.terminated_session_stays_out],
      [stale_drop_loses_revocation]), and a reset signs every older session out;
      tokens are accepted only under a key of this host, what is issued is
      accepted until it expires ([Tokens.issued_tokens_accepted]), and the
      middleware lets through only live accounts ([Tokens]).
    - Federation: the signed string binds every part of a request
      ([Federation.canonical_binds]), an accepted request was signed for this
      host by the key the node list vouches for ([Verify_authentic]), it is
      accepted once ([accepted_once], by the two clocks that are read for it;
      [edge_replay] and [held_up_replay] are the two ways to be accepted twice),
      honest requests are accepted ([Verify_Sign]); node
      lists are sound and never go back ([Nodelist]), and what the coordinator
      edits reaches the hosts that get its last list, in whatever order
      ([Coordinator.edits_reach_hosts]). A call by the client to
      an honest host is the service's answer, and an error otherwise
      ([FedClient.call_is_service]); a mirror that takes its hub's relays in
      order has the hub's log and the head of its chain
      ([Replication.mirror_in_step]), which a reset or a lost relay of a commit
      ends ([reset_strands_mirror], [lost_commit_strands]).
    - Start-up: tokens are never signed or accepted under one of the
      placeholder secrets the program knows ([Bootstrap.started_tokens]; others
      the repository prints are accepted, see [printed_secret_accepted]);
      written keys are read back ([host_key_roundtrip]). The limiter in memory holds an account to its burst and
      its refill over any stretch of time, whatever else arrives
      ([Throttle.credential_budget]), but for the buckets its sweep forgets
      ([RateLimit.idle_refill]).
    - Queues: the push queue drains, keeps its budget and loses nothing it has
      accepted ([Push]); the live registry delivers to whom it should ([Live]).
      Every transport reports once on every device and calls dead only those
      its service does ([PushNotify.fcm_gone], [web_gone]); [fcm_over_500] is a
      batch that reaches nobody.
    - Over Redis: codes reply as the in-memory store does, as long as no code
      expires between the two commands of a call ([Redis.redis_codes],
      [expiry_between_requests]), and of the devices that answer a call one wins, however their requests
      interleave or fail ([redis_one_answer]); [wrong_answer_revives] and
      [skewed_clocks_refill] show what a read and a write in two requests, and
      the clocks of two instances, let through.

    ** Not modelled

    The message brokers: what a queue does is RabbitMQ's, or a Go channel's; a
    task put on it is in the state of the requests, and what consumes it is
    [Dispatch.Handle]. Of MongoDB, GridFS, Redis and the push services, the
    server and its client are interfaces: a command is one step, and indexes
    other than the unique ones are left out. Opening connections to them, and
    mail. HTTP itself, JSON decoding of bodies, image codecs, JWT, Argon2id
    and Ed25519: interfaces, with the laws used stated as hypotheses or class
    fields. Handlers take the decoded body of a request. Of the processes, the
    command-line programs other than the coordinator's, and how main.go mounts
    what is modelled. *)

From stdpp Require Export base tactics sorting gmap strings numbers list.
(** [Forall_forall] and its like are those of stdpp. *)
From stdpp Require Export list_basics list_relations list_monad list_misc.

#[export] Set Warnings "-clear-no-such-hyp".
#[global] Open Scope Z_scope.

Declare Scope go_scope.
Delimit Scope go_scope with go.
#[global] Open Scope go_scope.

(** ** Equality tests

    [==] and [!=] of Go on comparable values, as booleans. *)

Notation "a == b" := (bool_decide (a = b)) (at level 70, no associativity) : go_scope.
Notation "a != b" := (negb (bool_decide (a = b))) (at level 70, no associativity) : go_scope.

(** ** Errors

    A Go call that returns [(T, error)] with the zero value of [T] beside a
    non-nil error is a [result]. *)

Inductive result (E A : Type) : Type :=
| Ok (a : A)
| Err (e : E).
Arguments Ok {E A} a.
Arguments Err {E A} e.

Definition result_bind {E A B} (r : result E A) (k : A → result E B) : result E B :=
  match r with Ok a => k a | Err e => Err e end.

Notation "'let?' x := e 'in' k" := (result_bind e (fun x => k))
  (at level 10, x pattern, e at level 200, k at level 200) : go_scope.

Definition is_ok {E A} (r : result E A) : bool :=
  match r with Ok _ => true | Err _ => false end.

(** ** Record update

    [r <| f := v |>] is the assignment [r.f = v] on a copy of [r]. A record
    makes itself updatable by an instance of [Eta], which names its fields
    once; the setter of each field is computed from it. *)

Class Eta (R : Type) := eta_of : R → R.
Class Setter {R T : Type} (proj : R → T) := upd : (T → T) → R → R.
Arguments upd {R T} proj {_} f r /.

Ltac solve_setter :=
  lazymatch goal with
  | |- @Setter ?R ?T ?proj =>
      let f := fresh "f" in
      let r := fresh "r" in
      intros f r;
      let b := eval cbv beta delta [eta_of] in (@eta_of R _ r) in
      let b := lazymatch b with
               | ?h r => let h' := eval hnf in h in eval cbv beta in (h' r)
               end in
      let p := eval pattern (proj r) in b in
      lazymatch p with
      | ?g _ => let b' := eval cbv beta in (g (f (proj r))) in exact b'
      end
  end.
#[global] Hint Extern 1 (Setter _) => solve_setter : typeclass_instances.

Notation "r <| p := v |>" := (upd p (fun _ => v) r)
  (at level 1, left associativity, p at level 9, v at level 200,
   format "r  <| p  :=  v |>") : go_scope.

(** ** Machine integers

    [int] and [int64] are 64-bit two's complement; [uint64] is modulo 2^64. *)

Definition two63 : Z := 2 ^ 63.
Definition two64 : Z := 2 ^ 64.
Definition wrap64 (z : Z) : Z := (z + two63) mod two64 - two63.
Definition uint64 (z : Z) : Z := z mod two64.

Lemma wrap64_id (z : Z) : - two63 ≤ z < two63 → wrap64 z = z.
Proof. unfold wrap64, two63, two64. intros. rewrite Z.mod_small; lia. Qed.

Lemma wrap64_range (z : Z) : - two63 ≤ wrap64 z < two63.
Proof.
  unfold wrap64, two63, two64.
  pose proof (Z.mod_pos_bound (z + 2 ^ 63) (2 ^ 64)). lia.
Qed.

Lemma uint64_id (z : Z) : 0 ≤ z < two64 → uint64 z = z.
Proof. apply Z.mod_small. Qed.

(** ** Time

    A [time.Time] is an instant, in nanoseconds from Go's zero time
    (January 1 of year 1, UTC); location and monotonic reading are not part
    of an instant. A [time.Duration] is a number of nanoseconds. *)

Definition time : Type := Z.
Definition zero_time : time := 0.
Definition IsZero (t : time) : bool := t == zero_time.
Definition After (t u : time) : bool := u <? t.
Definition Before (t u : time) : bool := t <? u.
Definition Second : Z := 1000000000.
Definition Minute : Z := 60 * Second.
Definition Hour : Z := 60 * Minute.
(** Seconds from the zero time to the Unix epoch. *)
Definition unixEpoch : time := 62135596800 * Second.
(** [t.Unix()] and [time.Unix(sec, 0)]; [t.Sub(u)] saturates. *)
Definition Unix (t : time) : Z := (t - unixEpoch) / Second.
Definition unixTime (sec : Z) : time := unixEpoch + sec * Second.
Definition Sub (t u : time) : Z := Z.max (- two63) (Z.min (two63 - 1) (t - u)).
Definition UnixNano (t : time) : Z := wrap64 (t - unixEpoch).

(** ** Fresh identifiers

    [newID] draws random bytes: an operation that calls it takes the ids it
    draws as an argument, the i-th call of one operation drawing [fresh i]. *)

Definition or_fresh (id nid : string) : string := if id == "" then nid else id.

(** ** Go maps

    A Go [map[string]A] is a [gmap string A]. [range] visits every entry once
    in an order the language leaves unspecified and varies between loops: an
    operation that ranges takes that order as an argument, an instance of
    [RangeOrder], so that every theorem holds of every order. *)

Class RangeOrder := {
  go_range : ∀ {A : Type}, gmap string A → list (string * A);
  go_range_perm : ∀ {A : Type} (m : gmap string A), go_range m ≡ₚ map_to_list m
}.

(** Two concrete orders, on which the witnesses evaluate. *)
Definition order_fwd : RangeOrder :=
  {| go_range := fun A m => map_to_list m; go_range_perm := fun A m => reflexivity _ |}.
Lemma order_bwd_perm {A} (m : gmap string A) : reverse (map_to_list m) ≡ₚ map_to_list m.
Proof. apply reverse_Permutation. Qed.
Definition order_bwd : RangeOrder :=
  {| go_range := fun A m => reverse (map_to_list m); go_range_perm := @order_bwd_perm |}.

Section Range.
Context {RO : RangeOrder} {A : Type}.
Implicit Types (m : gmap string A) (p : A → bool) (k : string) (x : A).

(** [for k, x := range m { if p(x) { return k, x } }] *)
Definition range_find (p : A → bool) (m : gmap string A) : option (string * A) :=
  snd <$> list_find (fun kx => Is_true (p kx.2)) (go_range m).

(** [for _, x := range m { if p(x) { out = append(out, x) } }] *)
Definition range_filter (p : A → bool) (m : gmap string A) : list A :=
  filter (fun x => Is_true (p x)) (go_range m).*2.

(** [for k, x := range m { if p(x) { delete(m, k) } }] *)
Definition range_delete (p : A → bool) (m : gmap string A) : gmap string A :=
  foldl (fun acc kx => if p kx.2 then delete kx.1 acc else acc) m (go_range m).

(** [for k, x := range m { if p(x) { m[k] = f(x) } }] *)
Definition range_update (p : A → bool) (f : A → A) (m : gmap string A) : gmap string A :=
  foldl (fun acc kx => if p kx.2 then <[kx.1 := f kx.2]> acc else acc) m (go_range m).

(** [for k, x := range m { if p(k, x) { return true } }] *)
Definition range_exists (p : string → A → bool) (m : gmap string A) : bool :=
  existsb (fun kx => p kx.1 kx.2) (go_range m).

(** [for _, x := range m { acc = f(acc, x) }] *)
Definition range_fold {C : Type} (f : C → A → C) (acc : C) (m : gmap string A) : C :=
  foldl f acc (go_range m).*2.

Lemma elem_of_go_range k x m : (k, x) ∈ go_range m ↔ m !! k = Some x.
Proof. rewrite go_range_perm. apply elem_of_map_to_list. Qed.

Lemma elem_of_go_range_snd x m : x ∈ (go_range m).*2 ↔ ∃ k, m !! k = Some x.
Proof.
  rewrite list_elem_of_fmap. split.
  - intros [[k y] [-> Hk]]. exists k. by apply elem_of_go_range.
  - intros [k Hk]. exists (k, x). by rewrite elem_of_go_range.
Qed.

Lemma NoDup_go_range_fst m : NoDup (go_range m).*1.
Proof. rewrite (go_range_perm m). apply NoDup_fst_map_to_list. Qed.

Lemma range_find_Some p m k x :
  range_find p m = Some (k, x) → m !! k = Some x ∧ p x = true.
Proof.
  unfold range_find. intros Hf.
  destruct (list_find _ _) as [[i kx]|] eqn:E; simplify_eq/=.
  apply list_find_Some in E as (Hi & Hp & _). split.
  - apply elem_of_go_range. eapply list_elem_of_lookup_2; eauto.
  - by apply Is_true_true.
Qed.

Lemma range_find_None p m :
  range_find p m = None ↔ ∀ k x, m !! k = Some x → p x = false.
Proof.
  unfold range_find. rewrite fmap_None, list_find_None, Forall_forall. split.
  - intros H k x Hk. apply elem_of_go_range in Hk. specialize (H _ Hk).
    simpl in H. by destruct (p x).
  - intros H [k x] Hk. apply elem_of_go_range in Hk. simpl. rewrite (H k x Hk). by intros [].
Qed.

Lemma range_find_is_Some p m k x :
  m !! k = Some x → p x = true → ∃ k' x', range_find p m = Some (k', x').
Proof.
  intros Hk Hp. destruct (range_find p m) as [[k' x']|] eqn:E; [eauto|].
  rewrite range_find_None in E. rewrite (E _ _ Hk) in Hp. done.
Qed.

(** When one entry at most satisfies the test, every order finds it. *)
Lemma range_find_unique p m k x :
  m !! k = Some x → p x = true →
  (∀ k' x', m !! k' = Some x' → p x' = true → k' = k) →
  range_find p m = Some (k, x).
Proof.
  intros Hk Hp Hu. destruct (range_find_is_Some p m k x Hk Hp) as (k' & x' & E).
  rewrite E. apply range_find_Some in E as [Hk' Hp'].
  assert (k' = k) as -> by eauto. by simplify_eq.
Qed.

Lemma range_exists_true (q : string → A → bool) m :
  range_exists q m = true ↔ ∃ k x, m !! k = Some x ∧ q k x = true.
Proof.
  unfold range_exists. rewrite existsb_exists. split.
  - intros ([k x] & Hin%list_elem_of_In & Hq). exists k, x. by rewrite <- elem_of_go_range.
  - intros (k & x & Hk & Hq). exists (k, x). rewrite <- list_elem_of_In, elem_of_go_range. done.
Qed.

Lemma range_exists_false (q : string → A → bool) m :
  range_exists q m = false ↔ ∀ k x, m !! k = Some x → q k x = false.
Proof.
  rewrite <- not_true_iff_false, range_exists_true. split.
  - intros H k x Hk. apply not_true_iff_false. intros Hq. apply H. eauto.
  - intros H (k & x & Hk & Hq). rewrite (H _ _ Hk) in Hq. done.
Qed.

Lemma elem_of_range_filter p m x :
  x ∈ range_filter p m ↔ p x = true ∧ ∃ k, m !! k = Some x.
Proof.
  unfold range_filter. rewrite list_elem_of_filter, elem_of_go_range_snd.
  by rewrite Is_true_true.
Qed.

Lemma range_filter_length p m : (length (range_filter p m) ≤ size m)%nat.
Proof.
  unfold range_filter. rewrite length_filter, length_fmap.
  by rewrite (go_range_perm m), length_map_to_list.
Qed.

Lemma foldl_delete_lookup p (l : list (string * A)) (acc : gmap string A) k :
  foldl (fun acc kx => if p kx.2 then delete kx.1 acc else acc) acc l !! k =
  if existsb (fun kx => (kx.1 == k) && p kx.2) l then None else acc !! k.
Proof.
  revert acc. induction l as [|[k' x'] l IH]; intros acc; simpl; [done|].
  rewrite IH. destruct (existsb _ l); simpl; [by rewrite orb_true_r|].
  rewrite orb_false_r. case_bool_decide; subst; simpl; destruct (p x'); try done.
  - apply lookup_delete_eq.
  - by rewrite lookup_delete_ne.
Qed.

Lemma lookup_range_delete p m k :
  range_delete p m !! k =
  match m !! k with Some x => if p x then None else Some x | None => None end.
Proof.
  unfold range_delete. rewrite foldl_delete_lookup.
  destruct (existsb _ _) eqn:E.
  - apply existsb_exists in E as ([k' x] & Hin%list_elem_of_In & Hb); simpl in *.
    apply andb_true_iff in Hb as [Hk Hp]. apply bool_decide_eq_true in Hk as ->.
    apply elem_of_go_range in Hin. by rewrite Hin, Hp.
  - destruct (m !! k) as [x|] eqn:Hk; [|done]. destruct (p x) eqn:Hp; [|done].
    apply elem_of_go_range in Hk. apply not_true_iff_false in E. destruct E.
    apply existsb_exists. exists (k, x). rewrite <- list_elem_of_In; simpl.
    split; [done|]. by rewrite bool_decide_true, Hp.
Qed.

Lemma range_delete_Some p m k x :
  range_delete p m !! k = Some x ↔ m !! k = Some x ∧ p x = false.
Proof.
  rewrite lookup_range_delete. destruct (m !! k) as [y|]; [|by split; [|intros []]].
  destruct (p y) eqn:E; split.
  - done.
  - intros [[= ->] ?]. congruence.
  - by intros [= ->].
  - by intros [[= ->] _].
Qed.

Lemma range_delete_subseteq p m : range_delete p m ⊆ m.
Proof. apply map_subseteq_spec. by intros k x [Hk _]%range_delete_Some. Qed.

Lemma foldl_update_lookup p f (l : list (string * A)) (acc : gmap string A) k :
  NoDup l.*1 →
  foldl (fun acc kx => if p kx.2 then <[kx.1 := f kx.2]> acc else acc) acc l !! k =
  match list_find (fun kx => kx.1 = k) l with
  | Some (_, (_, x)) => if p x then Some (f x) else acc !! k
  | None => acc !! k
  end.
Proof.
  revert acc. induction l as [|[k' x'] l IH]; intros acc Hnd; simpl; [done|].
  apply NoDup_cons in Hnd as [Hn Hnd]. rewrite IH by done.
  case_decide as Hd; simpl in *; subst.
  - destruct (list_find (fun kx => kx.1 = k) l) as [[i [k2 x2]]|] eqn:E.
    + apply list_find_Some in E as (Hl & Hk2 & _); simpl in *; subst.
      destruct Hn. apply list_elem_of_fmap. exists (k, x2). split; [done|].
      by eapply list_elem_of_lookup_2.
    + destruct (p x'); [apply lookup_insert_eq | done].
  - assert ((if p x' then <[k':=f x']> acc else acc) !! k = acc !! k) as Hacc.
    { destruct (p x'); [by rewrite lookup_insert_ne | done]. }
    destruct (list_find (fun kx => kx.1 = k) l) as [[i [k2 x2]]|]; simpl;
      by rewrite Hacc.
Qed.

Lemma lookup_range_update p f m k :
  range_update p f m !! k = (fun x => if p x then f x else x) <$> m !! k.
Proof.
  unfold range_update. rewrite foldl_update_lookup by apply NoDup_go_range_fst.
  destruct (list_find _ _) as [[i [k2 x2]]|] eqn:E.
  - apply list_find_Some in E as (Hl & Hk & _); simpl in *; subst.
    assert (m !! k = Some x2) as Hm.
    { apply elem_of_go_range. by eapply list_elem_of_lookup_2. }
    rewrite Hm; simpl. by destruct (p x2).
  - destruct (m !! k) as [x|] eqn:Hm; simpl; [|done].
    apply elem_of_go_range in Hm. apply list_find_None in E.
    rewrite Forall_forall in E. by destruct (E _ Hm).
Qed.
End Range.

Lemma range_filter_perm (RO1 RO2 : RangeOrder) {A} (p : A → bool) (m : gmap string A) :
  @range_filter RO1 A p m ≡ₚ @range_filter RO2 A p m.
Proof. unfold range_filter. by rewrite !go_range_perm. Qed.

Lemma foldl_delete_subseteq {A} (ks : list string) (m : gmap string A) :
  foldl (fun acc k => delete k acc) m ks ⊆ m.
Proof.
  revert m. induction ks as [|k ks IH]; intros m; [done|]. cbn [foldl].
  etransitivity; [apply IH | apply delete_subseteq].
Qed.

Create HintDb gomap.
Create Rewrite HintDb gomap.
#[export] Hint Rewrite @lookup_range_delete @lookup_range_update : gomap.

(** ** Tables

    A table of the store is a map whose keys are the ids of its rows. *)

Definition keyed {A : Type} (id : A → string) (m : gmap string A) : Prop :=
  ∀ k x, m !! k = Some x → id x = k.

Section Keyed.
Context {RO : RangeOrder} {A : Type} (id : A → string).
Implicit Types (m : gmap string A) (k : string) (x : A).

Lemma keyed_empty : keyed id ∅.
Proof. intros k x. by rewrite lookup_empty. Qed.

Lemma keyed_insert m x : keyed id m → keyed id (<[id x := x]> m).
Proof.
  intros Hm k y. rewrite lookup_insert. case_decide; [by intros [= <-] | apply Hm].
Qed.

Lemma keyed_insert_at m k y : keyed id m → id y = k → keyed id (<[k := y]> m).
Proof. intros Hm <-. by apply keyed_insert. Qed.

Lemma keyed_insert_same m k x y :
  keyed id m → m !! k = Some x → id y = id x → keyed id (<[k := y]> m).
Proof.
  intros Hm Hk Hid. rewrite <- (Hm _ _ Hk), <- Hid. by apply keyed_insert.
Qed.

Lemma keyed_delete m k : keyed id m → keyed id (delete k m).
Proof.
  intros Hm k' x. rewrite lookup_delete. case_decide; [done | apply Hm].
Qed.

Lemma keyed_range_delete m p : keyed id m → keyed id (range_delete p m).
Proof. intros Hm k x [Hk _]%range_delete_Some. by apply Hm. Qed.

Lemma keyed_range_update m p f :
  (∀ x, id (f x) = id x) → keyed id m → keyed id (range_update p f m).
Proof.
  intros Hf Hm k x. rewrite lookup_range_update.
  destruct (m !! k) as [y|] eqn:E; simpl; [|done]. intros [= <-].
  destruct (p y); rewrite ?Hf; by apply Hm.
Qed.
End Keyed.

Lemma range_filter_NoDup {RO : RangeOrder} {A} (id : A → string) (p : A → bool) (m : gmap string A) :
  keyed id m → NoDup (id <$> range_filter p m).
Proof.
  intros Hk. apply (sublist_NoDup _ (id <$> (go_range m).*2)).
  - rewrite <- list_fmap_compose.
    rewrite (list_fmap_ext _ fst); [apply NoDup_go_range_fst|].
    intros i [k x] Hi. simpl. apply Hk, elem_of_go_range. by eapply list_elem_of_lookup_2.
  - apply fmap_sublist, sublist_filter.
Qed.

Create HintDb keyed.
#[export] Hint Resolve keyed_empty keyed_insert keyed_insert_same keyed_delete
  keyed_range_delete keyed_range_update : keyed.
#[export] Hint Extern 3 (keyed _ (<[_ := _]> _)) => apply keyed_insert_at; [|reflexivity] : keyed.

(** ** Sorting

    [sort.Slice(s, less)]: some permutation of [s] without inversions. The
    sorted slices of this program are collected by a [range], in an arbitrary
    order, so a stable sort reaches every outcome an unstable one may have. *)

Definition sort_slice {A} (less : A → A → bool) (l : list A) : list A :=
  merge_sort (fun x y => Is_true (negb (less y x))) l.

Lemma sort_slice_perm {A} (less : A → A → bool) (l : list A) : sort_slice less l ≡ₚ l.
Proof. apply merge_sort_Permutation. Qed.

Lemma elem_of_sort_slice {A} (less : A → A → bool) (l : list A) x :
  x ∈ sort_slice less l ↔ x ∈ l.
Proof. by rewrite sort_slice_perm. Qed.

(** A sort by [After] on a key leaves the keys newest first. *)
Definition newest {A} (at_ : A → time) (x y : A) : bool := After (at_ x) (at_ y).
Definition oldest {A} (at_ : A → time) (x y : A) : bool := Before (at_ x) (at_ y).

Lemma StronglySorted_weaken {A} (R S : A → A → Prop) (l : list A) :
  (∀ x y, R x y → S x y) → StronglySorted R l → StronglySorted S l.
Proof.
  intros HRS. induction 1 as [|x l _ IH Hx]; constructor; [done|].
  eapply Forall_impl; eauto.
Qed.

(** When [less] is a strict weak order, no element of the result is less than
    an earlier one. *)
Lemma sort_slice_sorted {A} (less : A → A → bool) (l : list A) :
  (∀ x y, less x y = true → less y x = false) →
  (∀ x y z, less y x = false → less z y = false → less z x = false) →
  StronglySorted (fun x y => less y x = false) (sort_slice less l).
Proof.
  intros Hasym Htrans. unfold sort_slice.
  apply (StronglySorted_weaken (fun x y => Is_true (negb (less y x)))).
  { intros x y. by rewrite Is_true_true, negb_true_iff. }
  apply Sorted_StronglySorted.
  - intros x y z. rewrite !Is_true_true, !negb_true_iff. apply Htrans.
  - apply Sorted_merge_sort. intros x y. rewrite !Is_true_true, !negb_true_iff.
    destruct (less y x) eqn:E; [right; by apply Hasym | by left].
Qed.

Lemma sort_newest_sorted {A} (at_ : A → time) (l : list A) :
  StronglySorted (fun x y => at_ y ≤ at_ x) (sort_slice (newest at_) l).
Proof.
  eapply StronglySorted_weaken; [|apply sort_slice_sorted];
    unfold newest, After; intros *; rewrite ?Z.ltb_lt, ?Z.ltb_ge; lia.
Qed.

Lemma sort_oldest_sorted {A} (at_ : A → time) (l : list A) :
  StronglySorted (fun x y => at_ x ≤ at_ y) (sort_slice (oldest at_) l).
Proof.
  eapply StronglySorted_weaken; [|apply sort_slice_sorted];
    unfold oldest, Before; intros *; rewrite ?Z.ltb_lt, ?Z.ltb_ge; lia.
Qed.

(** ** Pages

    The slice expressions by which lists are cut into pages. *)

Definition truncate {A} (limit : Z) (l : list A) : list A :=
  if (0 <? limit) && (limit <? Z.of_nat (length l)) then take (Z.to_nat limit) l else l.

(** The part of [l] strictly after the first element with id [cursor]: what
    the [seen] loop of every feed keeps. *)
Fixpoint after_cursor {A} (id : A → string) (cursor : string) (l : list A) : list A :=
  match l with
  | [] => []
  | x :: l' => if id x == cursor then l' else after_cursor id cursor l'
  end.

(** [l[lo:hi]]; [None] is the run-time panic of an index out of range. *)
Definition go_slice {A} (l : list A) (lo hi : Z) : option (list A) :=
  if (0 <=? lo) && (lo <=? hi) && (hi <=? Z.of_nat (length l))
  then Some (take (Z.to_nat (hi - lo)) (drop (Z.to_nat lo) l)) else None.

Lemma truncate_length {A} (limit : Z) (l : list A) :
  0 < limit → Z.of_nat (length (truncate limit l)) ≤ limit.
Proof.
  intros Hl. unfold truncate. destruct (Z.ltb_spec limit (Z.of_nat (length l))).
  - rewrite (proj2 (Z.ltb_lt 0 limit)) by done. simpl. rewrite length_take. lia.
  - rewrite andb_false_r. lia.
Qed.

Lemma truncate_prefix {A} (limit : Z) (l : list A) : truncate limit l `prefix_of` l.
Proof.
  unfold truncate. case_match; [|done]. exists (drop (Z.to_nat limit) l). by rewrite take_drop.
Qed.

(** ** Tactics *)

(** Decides a goal about the [==] tests of a definition: unfolds the boolean
    connectives and splits on each equality. *)
Ltac go_cases :=
  repeat (case_bool_decide || case_match); simplify_eq/=; try done.

(** Splits the boolean hypotheses of a context. *)
Ltac bool_hyps :=
  repeat match goal with
    | H : (_ && _) = true |- _ => apply andb_true_iff in H as [? ?]
    | H : (_ || _) = false |- _ => apply orb_false_iff in H as [? ?]
    | H : negb _ = true |- _ => apply negb_true_iff in H
    | H : negb _ = false |- _ => apply negb_false_iff in H
    | H : bool_decide _ = true |- _ => apply bool_decide_eq_true in H
    | H : bool_decide _ = false |- _ => apply bool_decide_eq_false in H
    | H : (_ <? _) = true |- _ => apply Z.ltb_lt in H
    | H : (_ <? _) = false |- _ => apply Z.ltb_ge in H
    | H : (_ <=? _) = true |- _ => apply Z.leb_le in H
    | H : (_ <=? _) = false |- _ => apply Z.leb_gt in H
    end.
