(* ===== verification/GoStrings.v ===== *)
(** * Go strings

    A Go string is a sequence of bytes, here a [string] (a list of 8-bit
    characters). This file models what the backend uses of package [strings]
    and of [for i := 0; i < len(s); i++] byte loops, with the lemmas the
    components share. The parts of Unicode that package [strings] defers to for
    strings with a byte above 127 are the fields of a class [Unicode]. *)

From Stdlib Require Export Ascii.
From S2P Require Import Prelude.

#[global] Arguments String.append !_ _ : simpl nomatch.

Definition byte_of (c : ascii) : Z := Z.of_N (N_of_ascii c).
Definition slen (s : string) : Z := Z.of_nat (String.length s).

(** ** Byte classes *)

Definition is_upper (c : ascii) : bool := (65 <=? byte_of c) && (byte_of c <=? 90).
Definition is_lower (c : ascii) : bool := (97 <=? byte_of c) && (byte_of c <=? 122).
Definition is_digit (c : ascii) : bool := (48 <=? byte_of c) && (byte_of c <=? 57).
Definition is_letter (c : ascii) : bool := is_upper c || is_lower c.
(** [asciiSpace]: \t \n \v \f \r and the blank. *)
Definition is_space (c : ascii) : bool :=
  ((9 <=? byte_of c) && (byte_of c <=? 13)) || (byte_of c =? 32).
Definition is_ascii (c : ascii) : bool := byte_of c <? 128.

Fixpoint all_bytes (p : ascii → bool) (s : string) : bool :=
  match s with
  | EmptyString => true
  | String c s' => p c && all_bytes p s'
  end.

Fixpoint map_bytes (f : ascii → ascii) (s : string) : string :=
  match s with
  | EmptyString => EmptyString
  | String c s' => String (f c) (map_bytes f s')
  end.

Definition lower_byte (c : ascii) : ascii :=
  if is_upper c then ascii_of_N (Z.to_N (byte_of c + 32)) else c.
Definition upper_byte (c : ascii) : ascii :=
  if is_lower c then ascii_of_N (Z.to_N (byte_of c - 32)) else c.

Fixpoint rev_string (s : string) : string :=
  match s with
  | EmptyString => EmptyString
  | String c s' => String.append (rev_string s') (String c EmptyString)
  end.

(** [strings.TrimPrefix] of a prefix that is there; [None] when it is not. *)
Fixpoint strip_prefix (prefix s : string) : option string :=
  match prefix, s with
  | EmptyString, _ => Some s
  | String a prefix, String b s => if a == b then strip_prefix prefix s else None
  | String _ _, EmptyString => None
  end.

(** ** Unicode

    [strings.ToLower] maps byte by byte a string that is all ASCII, and
    [strings.TrimSpace] scans ASCII bytes; past the first byte above 127 both
    hand over to the Unicode tables, which are these functions. *)

Class Unicode := {
  (** [strings.Map(unicode.ToLower, s)] *)
  map_lower : string → string;
  (** [strings.Map(unicode.ToUpper, s)] *)
  map_upper : string → string;
  (** [strings.TrimFunc(s, unicode.IsSpace)] *)
  trim_func : string → string;
  (** [strings.TrimRightFunc(s, unicode.IsSpace)] *)
  trim_right_func : string → string;
  (** the rune loop of [strings.EqualFold] *)
  fold_runes : string → string → bool
}.

(** The tables restricted to ASCII, on which the witnesses evaluate. *)
Definition ascii_only : Unicode :=
  {| map_lower := fun s => s; map_upper := fun s => s; trim_func := fun s => s; trim_right_func := fun s => s;
     fold_runes := fun s t => s == t |}.

Section Strings.
Context {U : Unicode}.

Definition ToLower (s : string) : string :=
  if all_bytes is_ascii s then map_bytes lower_byte s else map_lower s.

Definition ToUpper (s : string) : string :=
  if all_bytes is_ascii s then map_bytes upper_byte s else map_upper s.

(** [strings.EqualFold]: byte by byte while both strings are ASCII. *)
Fixpoint EqualFold (s t : string) : bool :=
  match s, t with
  | String c s', String d t' =>
      if negb (is_ascii c) || negb (is_ascii d) then fold_runes s t
      else if lower_byte c == lower_byte d then EqualFold s' t' else false
  | EmptyString, EmptyString => true
  | _, _ => false
  end.

(** The scan from the front: what is left, and whether it stopped at a byte
    above 127. *)
Fixpoint skip_space (s : string) : string * bool :=
  match s with
  | EmptyString => (EmptyString, false)
  | String c s' =>
      if negb (is_ascii c) then (s, true)
      else if is_space c then skip_space s' else (s, false)
  end.

Definition TrimSpace (s : string) : string :=
  match skip_space s with
  | (s1, true) => trim_func s1
  | (s1, false) =>
      match skip_space (rev_string s1) with
      | (s2, true) => trim_right_func (rev_string s2)
      | (s2, false) => rev_string s2
      end
  end.
End Strings.

(** ** Package [strings] *)

Fixpoint HasPrefix (s p : string) : bool :=
  match p, s with
  | EmptyString, _ => true
  | String d p', String c s' => (c == d) && HasPrefix s' p'
  | String _ _, EmptyString => false
  end.

Fixpoint Contains (s sub : string) : bool :=
  HasPrefix s sub ||
  match s with EmptyString => false | String _ s' => Contains s' sub end.

(** [strings.Cut(s, sep)] for a one-byte separator. *)
Fixpoint Cut (s : string) (sep : ascii) : string * string * bool :=
  match s with
  | EmptyString => (EmptyString, EmptyString, false)
  | String c s' =>
      if c == sep then (EmptyString, s', true)
      else let '(b, a, f) := Cut s' sep in (String c b, a, f)
  end.

(** [s[:i], s[i+1:]] for [i := strings.LastIndex(s, sep)], a one-byte
    separator; [None] when it does not occur. *)
Fixpoint CutLast (s : string) (sep : ascii) : option (string * string) :=
  match s with
  | EmptyString => None
  | String c s' =>
      match CutLast s' sep with
      | Some (b, a) => Some (String c b, a)
      | None => if c == sep then Some (EmptyString, s') else None
      end
  end.

(** ** Runes

    How many bytes the rune at the head of a string takes: [utf8.DecodeRune]
    with its table of first bytes and the range of the second; a byte that
    starts no valid encoding counts for one. *)
Definition within (lo hi : Z) (c : ascii) : bool := (lo <=? byte_of c) && (byte_of c <=? hi).
Definition continuation (c : ascii) : bool := within 128 191 c.
Definition rune_size (s : string) : nat :=
  match s with
  | String b (String c (String d (String e _))) =>
      if within 194 223 b && continuation c then 2
      else if (within 224 224 b && within 160 191 c || within 225 236 b && continuation c
               || within 237 237 b && within 128 159 c || within 238 239 b && continuation c) && continuation d then 3
      else if (within 240 240 b && within 144 191 c || within 241 243 b && continuation c
               || within 244 244 b && within 128 143 c) && continuation d && continuation e then 4 else 1
  | String b (String c (String d EmptyString)) =>
      if within 194 223 b && continuation c then 2
      else if (within 224 224 b && within 160 191 c || within 225 236 b && continuation c
               || within 237 237 b && within 128 159 c || within 238 239 b && continuation c) && continuation d then 3
      else 1
  | String b (String c EmptyString) => if within 194 223 b && continuation c then 2 else 1
  | _ => 1
  end%nat.

(** [len([]rune(s))]; [skip] bytes belong to a rune already counted. *)
Fixpoint runes_from (skip : nat) (s : string) : Z :=
  match s with
  | EmptyString => 0
  | String _ s' => match skip with
                   | O => 1 + runes_from (pred (rune_size s)) s'
                   | S skip => runes_from skip s'
                   end
  end.
Definition rune_count (s : string) : Z := runes_from 0 s.

Example rune_count_mixed : rune_count (String "a" (String "195" (String "169" "b"))) = 3.
Proof. reflexivity. Qed.

(** [strings.Split(s, sep)] for a one-byte separator. *)
Fixpoint Split (s : string) (sep : ascii) : list string :=
  match s with
  | EmptyString => [EmptyString]
  | String c s' =>
      if c == sep then EmptyString :: Split s' sep
      else match Split s' sep with
           | w :: ws => String c w :: ws
           | [] => [String c EmptyString]
           end
  end.

Fixpoint Join (l : list string) (sep : string) : string :=
  match l with
  | [] => EmptyString
  | [s] => s
  | s :: l' => String.append s (String.append sep (Join l' sep))
  end.

Fixpoint mem_byte (c : ascii) (cutset : string) : bool :=
  match cutset with
  | EmptyString => false
  | String d cs => (c == d) || mem_byte c cs
  end.

Fixpoint TrimLeft (s cutset : string) : string :=
  match s with
  | EmptyString => EmptyString
  | String c s' => if mem_byte c cutset then TrimLeft s' cutset else s
  end.

(** [strings.TrimRight] and [strings.Trim] for a cutset of ASCII bytes. *)
Definition TrimRight (s cutset : string) : string :=
  rev_string (TrimLeft (rev_string s) cutset).
Definition Trim (s cutset : string) : string := TrimRight (TrimLeft s cutset) cutset.

Fixpoint string_take (n : nat) (s : string) : string :=
  match n, s with
  | S n', String c s' => String c (string_take n' s')
  | _, _ => EmptyString
  end.

(** Go compares strings bytewise. *)
Fixpoint str_lt (a b : string) : bool :=
  match a, b with
  | _, EmptyString => false
  | EmptyString, String _ _ => true
  | String c a', String d b' =>
      if byte_of c <? byte_of d then true
      else if byte_of d <? byte_of c then false
      else str_lt a' b'
  end.

(** ** Lemmas *)

Lemma byte_of_range c : 0 ≤ byte_of c < 256.
Proof. unfold byte_of. pose proof (N_ascii_bounded c). lia. Qed.

Lemma byte_of_inj c d : byte_of c = byte_of d → c = d.
Proof.
  unfold byte_of. intros H%N2Z.inj. rewrite <- (ascii_N_embedding c), <- (ascii_N_embedding d).
  by rewrite H.
Qed.

Lemma str_lt_irrefl a : str_lt a a = false.
Proof. induction a as [|c a IH]; simpl; [done|]. by rewrite Z.ltb_irrefl. Qed.

Lemma str_lt_asym a b : str_lt a b = true → str_lt b a = false.
Proof.
  revert b. induction a as [|c a IH]; intros [|d b]; simpl; try done.
  destruct (Z.ltb_spec (byte_of c) (byte_of d)), (Z.ltb_spec (byte_of d) (byte_of c)); try done; try lia.
  apply IH.
Qed.

Lemma str_lt_total a b : str_lt a b = false → str_lt b a = false → a = b.
Proof.
  revert b. induction a as [|c a IH]; intros [|d b]; simpl; try done.
  destruct (Z.ltb_spec (byte_of c) (byte_of d)), (Z.ltb_spec (byte_of d) (byte_of c)); try done.
  intros ??. f_equal; [apply byte_of_inj; lia | by apply IH].
Qed.

Lemma str_lt_trans_neg a b c : str_lt b a = false → str_lt c b = false → str_lt c a = false.
Proof.
  revert a c. induction b as [|x b IH]; intros [|y a] [|z c]; simpl; try done.
  destruct (Z.ltb_spec (byte_of x) (byte_of y)); [done|].
  destruct (Z.ltb_spec (byte_of z) (byte_of x)); [done|].
  destruct (Z.ltb_spec (byte_of z) (byte_of y)); [lia|].
  destruct (Z.ltb_spec (byte_of y) (byte_of z)); [done|].
  destruct (Z.ltb_spec (byte_of y) (byte_of x)); [lia|].
  destruct (Z.ltb_spec (byte_of x) (byte_of z)); [lia|]. apply IH.
Qed.

Lemma append_nil_r s : String.append s "" = s.
Proof. induction s as [|c s IH]; simpl; [done|]. by rewrite IH. Qed.

Lemma append_assoc a b c : String.append (String.append a b) c = String.append a (String.append b c).
Proof. induction a as [|x a IH]; simpl; [done|]. by rewrite IH. Qed.

Lemma length_append a b : String.length (String.append a b) = (String.length a + String.length b)%nat.
Proof. induction a as [|x a IH]; simpl; [done|]. by rewrite IH. Qed.

Lemma rev_string_append a b :
  rev_string (String.append a b) = String.append (rev_string b) (rev_string a).
Proof.
  induction a as [|c a IH]; simpl; [by rewrite append_nil_r|]. by rewrite IH, append_assoc.
Qed.

Lemma rev_string_involutive s : rev_string (rev_string s) = s.
Proof. induction s as [|c s IH]; simpl; [done|]. by rewrite rev_string_append, IH. Qed.

Lemma length_rev_string s : String.length (rev_string s) = String.length s.
Proof. induction s as [|c s IH]; simpl; [done|]. rewrite length_append, IH. simpl. lia. Qed.

Lemma all_bytes_append p a b : all_bytes p (String.append a b) = all_bytes p a && all_bytes p b.
Proof. induction a as [|c a IH]; simpl; [done|]. by rewrite IH, andb_assoc. Qed.

Lemma all_bytes_rev p s : all_bytes p (rev_string s) = all_bytes p s.
Proof.
  induction s as [|c s IH]; simpl; [done|].
  rewrite all_bytes_append, IH; simpl. by rewrite andb_true_r, andb_comm.
Qed.

Lemma append_inj_same_length a b c d :
  String.length a = String.length c →
  String.append a b = String.append c d → a = c ∧ b = d.
Proof.
  revert c. induction a as [|x a IH]; intros [|y c] Hl; simpl in *; try done.
  intros [= -> H]. destruct (IH c) as [-> ->]; auto.
Qed.

Lemma lower_byte_idem c : lower_byte (lower_byte c) = lower_byte c.
Proof. destruct c as [[] [] [] [] [] [] [] []]; vm_compute; reflexivity. Qed.

Lemma lower_byte_ascii c : is_ascii c = true → is_ascii (lower_byte c) = true.
Proof. destruct c as [[] [] [] [] [] [] [] []]; vm_compute; done. Qed.

(** Lower-casing twice is lower-casing once, on ASCII strings. *)
Lemma ToLower_idem {U : Unicode} s :
  all_bytes is_ascii s = true → ToLower (ToLower s) = ToLower s.
Proof.
  intros Hs. unfold ToLower. rewrite Hs.
  assert (all_bytes is_ascii (map_bytes lower_byte s) = true) as ->.
  { induction s as [|c s IH]; simpl in *; [done|]. apply andb_true_iff in Hs as [Hc Hs].
    by rewrite lower_byte_ascii, IH. }
  clear Hs. induction s as [|c s IH]; simpl; [done|]. by rewrite lower_byte_idem, IH.
Qed.

(** ** Separators *)

(** [s] has no byte [sep]. *)
Definition free_of (sep : ascii) (s : string) : bool := all_bytes (fun c => c != sep) s.

(** A separator that occurs in neither first part parses back. *)
Lemma append_sep_inj sep a b c d :
  free_of sep a = true → free_of sep c = true →
  String.append a (String sep b) = String.append c (String sep d) → a = c ∧ b = d.
Proof.
  unfold free_of. revert c. induction a as [|x a IH]; intros [|y c] Ha Hc H; simpl in *.
  - by injection H as ->.
  - injection H as -> _. by rewrite bool_decide_true in Hc.
  - injection H as -> _. by rewrite bool_decide_true in Ha.
  - apply andb_true_iff in Ha as [_ Ha]. apply andb_true_iff in Hc as [_ Hc].
    injection H as -> H. destruct (IH c Ha Hc H) as [-> ->]. done.
Qed.

(** The number of times [sep] occurs. *)
Fixpoint count_byte (sep : ascii) (s : string) : nat :=
  match s with
  | EmptyString => 0
  | String c s' => (if c == sep then 1 else 0) + count_byte sep s'
  end.

Lemma count_byte_append sep a b :
  count_byte sep (String.append a b) = (count_byte sep a + count_byte sep b)%nat.
Proof. induction a as [|c a IH]; cbn [count_byte String.append]; [done|]. rewrite IH. lia. Qed.

Lemma Cut_free a b sep : free_of sep a = true → Cut (String.append a (String sep b)) sep = (a, b, true).
Proof.
  unfold free_of. induction a as [|c a IH]; cbn [all_bytes String.append Cut]; [by rewrite bool_decide_true|].
  intros [Hc Ha]%andb_true_iff. apply negb_true_iff in Hc. rewrite Hc. by rewrite IH.
Qed.

Lemma count_byte_free sep s : free_of sep s = true → count_byte sep s = 0%nat.
Proof.
  unfold free_of. induction s as [|c s IH]; cbn [count_byte all_bytes]; [done|].
  intros [Hc Hs]%andb_true_iff. destruct (c == sep); [done|]. by apply IH.
Qed.

(** Two texts with as many separators after a first part, whatever is in it. *)
Lemma append_count_inj sep a b c d :
  count_byte sep b = count_byte sep d →
  String.append a (String sep b) = String.append c (String sep d) → a = c ∧ b = d.
Proof.
  intros Hn. revert c. induction a as [|x a IH]; intros [|y c]; cbn [String.append].
  - by intros [= ->].
  - intros [= <- ->]. rewrite count_byte_append in Hn. cbn [count_byte] in Hn.
    rewrite bool_decide_true in Hn by done. lia.
  - intros [= -> <-]. rewrite count_byte_append in Hn. cbn [count_byte] in Hn.
    rewrite bool_decide_true in Hn by done. lia.
  - intros [= -> H]. destruct (IH c H) as [-> ->]. done.
Qed.

(** ** Slices *)

Fixpoint string_drop (n : nat) (s : string) : string :=
  match n, s with
  | S n', String _ s' => string_drop n' s'
  | _, _ => s
  end.

(** [s[lo:hi]]; [None] is the run-time panic of an index out of range. *)
Definition string_slice (s : string) (lo hi : Z) : option string :=
  if (0 <=? lo) && (lo <=? hi) && (hi <=? slen s)
  then Some (string_take (Z.to_nat (hi - lo)) (string_drop (Z.to_nat lo) s)) else None.

Lemma slen_nonneg s : 0 ≤ slen s.
Proof. unfold slen. lia. Qed.

Lemma slen_app a b : slen (String.append a b) = slen a + slen b.
Proof. unfold slen. rewrite length_append. lia. Qed.

Lemma string_take_whole n s : (String.length s ≤ n)%nat → string_take n s = s.
Proof.
  revert s. induction n as [|n IH]; intros [|c s] H; cbn in *; try done; [lia|]. rewrite IH; [done|lia].
Qed.
Lemma string_take_append a b : string_take (String.length a) (String.append a b) = a.
Proof. induction a as [|c a IH]; simpl; [by destruct b|]. by rewrite IH. Qed.

Lemma string_drop_append a b : string_drop (String.length a) (String.append a b) = b.
Proof. induction a as [|c a IH]; simpl; [by destruct b|]. exact IH. Qed.

Lemma string_take_drop n s : String.append (string_take n s) (string_drop n s) = s.
Proof.
  revert s. induction n as [|n IH]; intros [|c s]; simpl; try done. by rewrite IH.
Qed.

Lemma length_string_take n s : (n ≤ String.length s)%nat → String.length (string_take n s) = n.
Proof. revert s. induction n as [|n IH]; intros [|c s]; simpl; try lia. intros H. rewrite IH; lia. Qed.

(** The middle of a string of three parts. *)
Lemma string_slice_middle a b c :
  string_slice (String.append a (String.append b c)) (slen a) (slen a + slen b) = Some b.
Proof.
  unfold string_slice. rewrite !slen_app.
  pose proof (slen_nonneg a). pose proof (slen_nonneg b). pose proof (slen_nonneg c).
  rewrite !(proj2 (Z.leb_le _ _)) by lia. cbn [andb].
  replace (Z.to_nat (slen a)) with (String.length a) by (unfold slen; lia).
  replace (Z.to_nat (slen a + slen b - slen a)) with (String.length b) by (unfold slen; lia).
  by rewrite string_drop_append, string_take_append.
Qed.
