(* ===== verification/Domain.v ===== *)
(** * Package domain: the entities of the backend

    One record per struct of [api/internal/domain/domain.go], field for field,
    with its zero value, and the functions and methods of the package. Byte
    slices are strings of bytes; a nil pointer is [None]; string-typed
    constants stay strings, because a stored value may be any string. *)

From Stdlib Require Import Ascii.
From S2P Require Import Prelude.
From S2P Require Import GoStrings.

(** [[]byte] *)
Definition bytes : Type := string.

(** ** The structs *)

Module User.
Record t := mk {
  ID : string; Email : string; PasswordHash : string; Role : string; Status : string;
  Domain : string; Username : string; UsernameLower : string; DisplayName : string;
  Bio : string; Phone : string; Website : string; AvatarID : string;
  NotificationPrivacy : string; CreatedAt : time
}.
Definition zero : t :=
  mk "" "" "" "" "" "" "" "" "" "" "" "" "" "" zero_time.
#[global] Instance eta : Eta t := fun r =>
  mk (ID r) (Email r) (PasswordHash r) (Role r) (Status r) (Domain r) (Username r)
  (UsernameLower r) (DisplayName r) (Bio r) (Phone r) (Website r) (AvatarID r)
  (NotificationPrivacy r) (CreatedAt r).
End User.

Module UserProfileUpdate.
Record t := mk {
  Username : option string; DisplayName : option string; Bio : option string;
  Phone : option string; Website : option string; NotificationPrivacy : option string
}.
Definition zero : t :=
  mk None None None None None None.
#[global] Instance eta : Eta t := fun r =>
  mk (Username r) (DisplayName r) (Bio r) (Phone r) (Website r) (NotificationPrivacy r).
End UserProfileUpdate.

Module PublicUser.
Record t := mk {
  ID : string; Username : string; DisplayName : string; AvatarID : string
}.
Definition zero : t :=
  mk "" "" "" "".
#[global] Instance eta : Eta t := fun r =>
  mk (ID r) (Username r) (DisplayName r) (AvatarID r).
End PublicUser.

Module PublicProfile.
Record t := mk {
  ID : string; Username : string; DisplayName : string; AvatarID : string; Bio : string;
  Website : string
}.
Definition zero : t :=
  mk "" "" "" "" "" "".
#[global] Instance eta : Eta t := fun r =>
  mk (ID r) (Username r) (DisplayName r) (AvatarID r) (Bio r) (Website r).
End PublicProfile.

Module Channel.
Record t := mk {
  ID : string; PublicID : string; OwnerID : string; Name : string; Alias : string;
  AliasLower : string; AvatarID : string; SubscriptionMode : string; Status : string;
  CreatedAt : time; OriginDomain : string; OriginPublicID : string
}.
Definition zero : t :=
  mk "" "" "" "" "" "" "" "" "" zero_time "" "".
#[global] Instance eta : Eta t := fun r =>
  mk (ID r) (PublicID r) (OwnerID r) (Name r) (Alias r) (AliasLower r) (AvatarID r)
  (SubscriptionMode r) (Status r) (CreatedAt r) (OriginDomain r) (OriginPublicID r).
End Channel.

Module RemoteSubscription.
Record t := mk {
  ID : string; ChannelID : string; PeerDomain : string; CreatedAt : time
}.
Definition zero : t :=
  mk "" "" "" zero_time.
#[global] Instance eta : Eta t := fun r =>
  mk (ID r) (ChannelID r) (PeerDomain r) (CreatedAt r).
End RemoteSubscription.

Module ChannelMember.
Record t := mk {
  ID : string; ChannelID : string; UserID : string; Role : string; Status : string;
  CreatedAt : time
}.
Definition zero : t :=
  mk "" "" "" "" "" zero_time.
#[global] Instance eta : Eta t := fun r =>
  mk (ID r) (ChannelID r) (UserID r) (Role r) (Status r) (CreatedAt r).
End ChannelMember.

Module APIKey.
Record t := mk {
  ID : string; ChannelID : string; HashedKey : string; Prefix : string; Label : string;
  CreatedAt : time; RevokedAt : option time
}.
Definition zero : t :=
  mk "" "" "" "" "" zero_time None.
#[global] Instance eta : Eta t := fun r =>
  mk (ID r) (ChannelID r) (HashedKey r) (Prefix r) (Label r) (CreatedAt r) (RevokedAt r).
End APIKey.

Module Invite.
Record t := mk {
  ID : string; CodeHash : string; Prefix : string; Note : string; CreatedBy : string;
  CreatedAt : time; ExpiresAt : option time; UsedAt : option time; UsedBy : string;
  RevokedAt : option time
}.
Definition zero : t :=
  mk "" "" "" "" "" zero_time None None "" None.
#[global] Instance eta : Eta t := fun r =>
  mk (ID r) (CodeHash r) (Prefix r) (Note r) (CreatedBy r) (CreatedAt r) (ExpiresAt r)
  (UsedAt r) (UsedBy r) (RevokedAt r).
End Invite.

Module Device.
Record t := mk {
  ID : string; UserID : string; Platform : string; FCMToken : string; WebPushSub : string;
  VoIPToken : string; WebPushEndpoint : string; CanRenderPreview : bool; MLSDeviceID : string;
  CreatedAt : time; LastSeenAt : time
}.
Definition zero : t :=
  mk "" "" "" "" "" "" "" false "" zero_time zero_time.
#[global] Instance eta : Eta t := fun r =>
  mk (ID r) (UserID r) (Platform r) (FCMToken r) (WebPushSub r) (VoIPToken r)
  (WebPushEndpoint r) (CanRenderPreview r) (MLSDeviceID r) (CreatedAt r) (LastSeenAt r).
End Device.

Module Subscription.
Record t := mk {
  ID : string; ChannelID : string; DeviceID : string; Status : string; CreatedAt : time
}.
Definition zero : t :=
  mk "" "" "" "" zero_time.
#[global] Instance eta : Eta t := fun r =>
  mk (ID r) (ChannelID r) (DeviceID r) (Status r) (CreatedAt r).
End Subscription.

Module MessageImage.
Record t := mk {
  ID : string; Width : Z; Height : Z
}.
Definition zero : t :=
  mk "" 0 0.
#[global] Instance eta : Eta t := fun r =>
  mk (ID r) (Width r) (Height r).
End MessageImage.

Module Message.
Record t := mk {
  ID : string; ChannelID : string; Title : string; Body : string; Images : list MessageImage.t;
  Data : gmap string string; CommentsAllowed : bool; CreatedAt : time
}.
Definition zero : t :=
  mk "" "" "" "" [] ∅ false zero_time.
#[global] Instance eta : Eta t := fun r =>
  mk (ID r) (ChannelID r) (Title r) (Body r) (Images r) (Data r) (CommentsAllowed r)
  (CreatedAt r).
End Message.

Module Comment.
Record t := mk {
  ID : string; MessageID : string; ChannelID : string; UserID : string; Body : string;
  CreatedAt : time
}.
Definition zero : t :=
  mk "" "" "" "" "" zero_time.
#[global] Instance eta : Eta t := fun r =>
  mk (ID r) (MessageID r) (ChannelID r) (UserID r) (Body r) (CreatedAt r).
End Comment.

Module Delivery.
Record t := mk {
  ID : string; MessageID : string; DeviceID : string; Status : string; Error : string;
  SentAt : time
}.
Definition zero : t :=
  mk "" "" "" "" "" zero_time.
#[global] Instance eta : Eta t := fun r =>
  mk (ID r) (MessageID r) (DeviceID r) (Status r) (Error r) (SentAt r).
End Delivery.

Module NotifyTask.
Record t := mk {
  ChannelID : string; Title : string; Body : string; Images : list MessageImage.t;
  Data : gmap string string; CommentsAllowed : bool; IdempotencyKey : string; EnqueuedAt : time
}.
Definition zero : t :=
  mk "" "" "" [] ∅ false "" zero_time.
#[global] Instance eta : Eta t := fun r =>
  mk (ChannelID r) (Title r) (Body r) (Images r) (Data r) (CommentsAllowed r)
  (IdempotencyKey r) (EnqueuedAt r).
End NotifyTask.

Module ChannelVolume.
Record t := mk {
  ChannelID : string; Name : string; Count : Z
}.
Definition zero : t :=
  mk "" "" 0.
#[global] Instance eta : Eta t := fun r =>
  mk (ChannelID r) (Name r) (Count r).
End ChannelVolume.

Module AdminStats.
Record t := mk {
  Users : Z; Channels : Z; Messages : Z; Deliveries : Z; Devices : Z;
  TopChannels : list ChannelVolume.t; RecentMessages : list Message.t
}.
Definition zero : t :=
  mk 0 0 0 0 0 [] [].
#[global] Instance eta : Eta t := fun r =>
  mk (Users r) (Channels r) (Messages r) (Deliveries r) (Devices r) (TopChannels r)
  (RecentMessages r).
End AdminStats.

Module MLSGroupState.
Record t := mk {
  GroupID : string; Epoch : Z; PriorGroupIDs : list string; ChainHash : bytes
}.
Definition zero : t :=
  mk "" 0 [] "".
#[global] Instance eta : Eta t := fun r =>
  mk (GroupID r) (Epoch r) (PriorGroupIDs r) (ChainHash r).
End MLSGroupState.

Module Conversation.
Record t := mk {
  ID : string; Kind : string; Title : string; AvatarID : string; CreatedBy : string;
  DirectKey : string; CreatedAt : time; HubDomain : string; MLS : MLSGroupState.t
}.
Definition zero : t :=
  mk "" "" "" "" "" "" zero_time "" MLSGroupState.zero.
#[global] Instance eta : Eta t := fun r =>
  mk (ID r) (Kind r) (Title r) (AvatarID r) (CreatedBy r) (DirectKey r) (CreatedAt r)
  (HubDomain r) (MLS r).
End Conversation.

Module ConversationMember.
Record t := mk {
  ID : string; ConversationID : string; UserID : string; Domain : string; DisplayName : string;
  Username : string; Role : string; JoinedAt : time; ClearedAt : time; DeliveredSeq : Z;
  ReadSeq : Z; JoinSeq : Z
}.
Definition zero : t :=
  mk "" "" "" "" "" "" "" zero_time zero_time 0 0 0.
#[global] Instance eta : Eta t := fun r =>
  mk (ID r) (ConversationID r) (UserID r) (Domain r) (DisplayName r) (Username r) (Role r)
  (JoinedAt r) (ClearedAt r) (DeliveredSeq r) (ReadSeq r) (JoinSeq r).
End ConversationMember.

Module ConversationReceipt.
Record t := mk {
  UserID : string; DeliveredSeq : Z; ReadSeq : Z
}.
Definition zero : t :=
  mk "" 0 0.
#[global] Instance eta : Eta t := fun r =>
  mk (UserID r) (DeliveredSeq r) (ReadSeq r).
End ConversationReceipt.

Module Attachment.
Record t := mk {
  ID : string; ConversationID : string; Size : Z; CreatedAt : time
}.
Definition zero : t :=
  mk "" "" 0 zero_time.
#[global] Instance eta : Eta t := fun r =>
  mk (ID r) (ConversationID r) (Size r) (CreatedAt r).
End Attachment.

Module ChatMessage.
Record t := mk {
  ID : string; ConversationID : string; SenderID : string; Ciphertext : bytes;
  ContentType : string; CreatedAt : time; MLSEpoch : Z; MLSGroupID : string; Seq : Z;
  MLSChainHash : bytes
}.
Definition zero : t :=
  mk "" "" "" "" "" zero_time 0 "" 0 "".
#[global] Instance eta : Eta t := fun r =>
  mk (ID r) (ConversationID r) (SenderID r) (Ciphertext r) (ContentType r) (CreatedAt r)
  (MLSEpoch r) (MLSGroupID r) (Seq r) (MLSChainHash r).
End ChatMessage.

Module MLSGroupInfo.
Record t := mk {
  GroupID : string; Epoch : Z; GroupInfo : bytes
}.
Definition zero : t :=
  mk "" 0 "".
#[global] Instance eta : Eta t := fun r =>
  mk (GroupID r) (Epoch r) (GroupInfo r).
End MLSGroupInfo.

Module MLSKeyPackage.
Record t := mk {
  ID : string; UserID : string; DeviceID : string; KeyPackage : bytes; CreatedAt : time;
  LastResort : bool
}.
Definition zero : t :=
  mk "" "" "" "" zero_time false.
#[global] Instance eta : Eta t := fun r =>
  mk (ID r) (UserID r) (DeviceID r) (KeyPackage r) (CreatedAt r) (LastResort r).
End MLSKeyPackage.

Module MLSDevice.
Record t := mk {
  ID : string; UserID : string; DeviceID : string; Label : string; SessionID : string;
  CreatedAt : time; LastSeenAt : time; RevokedAt : option time
}.
Definition zero : t :=
  mk "" "" "" "" "" zero_time zero_time None.
#[global] Instance eta : Eta t := fun r =>
  mk (ID r) (UserID r) (DeviceID r) (Label r) (SessionID r) (CreatedAt r) (LastSeenAt r)
  (RevokedAt r).
End MLSDevice.

Module RevokedSession.
Record t := mk {
  ID : string; SessionID : string; ExpiresAt : time
}.
Definition zero : t :=
  mk "" "" zero_time.
#[global] Instance eta : Eta t := fun r =>
  mk (ID r) (SessionID r) (ExpiresAt r).
End RevokedSession.

Module MLSKeyBackup.
Record t := mk {
  ID : string; UserID : string; DeviceID : string; Salt : bytes; Nonce : bytes;
  CiphertextBlobID : string; TranscriptSalt : bytes; TranscriptNonce : bytes;
  TranscriptBlobID : string; TranscriptMessages : Z; UpdatedAt : time
}.
Definition zero : t :=
  mk "" "" "" "" "" "" "" "" "" 0 zero_time.
#[global] Instance eta : Eta t := fun r =>
  mk (ID r) (UserID r) (DeviceID r) (Salt r) (Nonce r) (CiphertextBlobID r) (TranscriptSalt r)
  (TranscriptNonce r) (TranscriptBlobID r) (TranscriptMessages r) (UpdatedAt r).
End MLSKeyBackup.

Module MLSKeyBackupTailEntry.
Record t := mk {
  ID : string; UserID : string; DeviceID : string; ConversationID : string; MessageID : string;
  Salt : bytes; Nonce : bytes; Ciphertext : bytes; CreatedAt : time
}.
Definition zero : t :=
  mk "" "" "" "" "" "" "" "" zero_time.
#[global] Instance eta : Eta t := fun r =>
  mk (ID r) (UserID r) (DeviceID r) (ConversationID r) (MessageID r) (Salt r) (Nonce r)
  (Ciphertext r) (CreatedAt r).
End MLSKeyBackupTailEntry.
(** ** Constants *)

Definition ModeOpen : string := "open".
Definition ModeApproval : string := "approval".
Definition SubActive : string := "active".
Definition SubPending : string := "pending".
Definition SubBlocked : string := "blocked".
Definition DeliverySent : string := "sent".
Definition DeliveryFailed : string := "failed".
Definition DeliverySkipped : string := "skipped".
Definition RoleUser : string := "user".
Definition RoleAdmin : string := "admin".
Definition UserActive : string := "active".
Definition UserBlocked : string := "blocked".
Definition NotificationPrivacyPreview : string := "preview".
Definition NotificationPrivacySender : string := "sender".
Definition NotificationPrivacyGeneric : string := "generic".
Definition ChannelActive : string := "active".
Definition ChannelDisabled : string := "disabled".
Definition MemberActive : string := "active".
Definition MemberPending : string := "pending".
Definition MemberBlocked : string := "blocked".
Definition ConversationDirect : string := "direct".
Definition ConversationGroup : string := "group".
Definition ContentTypeMLSApplication : string := "application/mls".
Definition ContentTypeMLSWelcome : string := "application/mls-welcome".
Definition ContentTypeMLSCommit : string := "application/mls-commit".
Definition ContentTypeMLSDevice : string := "application/mls-device".
Definition ContentTypeMLSHistoryRequest : string := "application/mls-history-request".
Definition ContentTypeMLSHistoryOffer : string := "application/mls-history-offer".
Definition ContentTypeMembership : string := "application/pheme-membership".
Definition ContentTypeCallEvent : string := "application/pheme-call-event".
Definition maxDisplayNameLen : nat := 64.

(** ** Users *)

(** [NotificationPrivacy.Effective] *)
Definition Effective (p : string) : string :=
  if p == "" then NotificationPrivacySender else p.

(** [NotificationPrivacy.Valid] *)
Definition Valid (p : string) : bool :=
  (p == NotificationPrivacyPreview) || (p == NotificationPrivacySender)
  || (p == NotificationPrivacyGeneric).

Definition ShowsSender (p : string) : bool := Effective p != NotificationPrivacyGeneric.
Definition ShowsPreview (p : string) : bool := Effective p == NotificationPrivacyPreview.

Definition WithNewUserDefaults (u : User.t) : User.t :=
  if User.NotificationPrivacy u == ""
  then u <| User.NotificationPrivacy := NotificationPrivacyPreview |> else u.

(** [User.Public] *)
Definition Public (u : User.t) : PublicUser.t :=
  PublicUser.mk (User.ID u) (User.Username u) (User.DisplayName u) (User.AvatarID u).

Definition PublicProfileOf (u : User.t) : PublicProfile.t :=
  PublicProfile.mk (User.ID u) (User.Username u) (User.DisplayName u) (User.AvatarID u)
    (User.Bio u) (User.Website u).

Definition DefaultDisplayName `{Unicode} (email : string) : string :=
  let '(local, _, found) := Cut (TrimSpace email) "@" in
  if negb found then ""
  else
    let local := Trim local ".-_+" in
    let '(base, _, ok) := Cut local "+" in
    let local := if ok then base else local in
    if (maxDisplayNameLen <? String.length local)%nat
    then string_take maxDisplayNameLen local else local.

(** ** Mirrors *)

(** [Channel.IsMirror] *)
Definition Channel_IsMirror (c : Channel.t) : bool := Channel.OriginDomain c != "".
(** [Conversation.IsMirror] *)
Definition IsMirror (c : Conversation.t) : bool := Conversation.HubDomain c != "".

(** ** Invites *)

Inductive InviteStatus : Type :=
| InvitePending
| InviteUsed
| InviteRevoked
| InviteExpired.

#[global] Instance InviteStatus_eq_dec : EqDecision InviteStatus.
Proof. solve_decision. Defined.

(** [Invite.Status]: the cases of the switch in order. *)
Definition Status (i : Invite.t) (now : time) : InviteStatus :=
  if bool_decide (is_Some (Invite.UsedAt i)) then InviteUsed
  else if bool_decide (is_Some (Invite.RevokedAt i)) then InviteRevoked
  else match Invite.ExpiresAt i with
       | Some e => if negb (Before now e) then InviteExpired else InvitePending
       | None => InvitePending
       end.

Definition Redeemable (i : Invite.t) (now : time) : bool := Status i now == InvitePending.

(** ** Content types *)

Definition MLSProtocolContentTypes : list string :=
  [ContentTypeMLSWelcome; ContentTypeMLSCommit; ContentTypeMLSDevice;
   ContentTypeMLSHistoryRequest; ContentTypeMLSHistoryOffer].

(** The switch of [IsMLSProtocol], written separately from the list in the
    source; [IsMLSProtocol_list] shows the two agree. *)
Definition IsMLSProtocol (contentType : string) : bool :=
  (contentType == ContentTypeMLSWelcome) || (contentType == ContentTypeMLSCommit)
  || (contentType == ContentTypeMLSDevice) || (contentType == ContentTypeMLSHistoryRequest)
  || (contentType == ContentTypeMLSHistoryOffer).

(** ** Names *)

Definition DirectKey (userA userB : string) : string :=
  let '(a, b) := if str_lt userB userA then (userB, userA) else (userA, userB) in
  String.append a (String.append ":" b).

(** [aliasPattern]: [^[a-zA-Z_][a-zA-Z0-9._-]{1,23}$]. *)
Definition alias_start (c : ascii) : bool := is_letter c || (c == "_"%char).
Definition alias_rest (c : ascii) : bool :=
  is_letter c || is_digit c || (c == "."%char) || (c == "_"%char) || (c == "-"%char).
Definition aliasPattern (s : string) : bool :=
  match s with
  | EmptyString => false
  | String c s' =>
      alias_start c && all_bytes alias_rest s' && (1 <=? slen s') && (slen s' <=? 23)
  end.

Definition ValidateAlias `{Unicode} (alias : string) : bool :=
  if (slen alias <? 2) || (24 <? slen alias) || negb (aliasPattern alias) then false
  else if HasPrefix (ToLower alias) "ch_" then false
  else true.

(** [usernamePattern]: [^[a-zA-Z_][a-zA-Z0-9_.]{2,29}$]. *)
Definition username_rest (c : ascii) : bool :=
  is_letter c || is_digit c || (c == "_"%char) || (c == "."%char).
Definition usernamePattern (s : string) : bool :=
  match s with
  | EmptyString => false
  | String c s' =>
      alias_start c && all_bytes username_rest s' && (2 <=? slen s') && (slen s' <=? 29)
  end.

Definition ValidateUsername (username : string) : bool :=
  if (slen username <? 3) || (30 <? slen username) || negb (usernamePattern username) then false
  else true.

(** ** Lemmas *)

Lemma Effective_idem p : Effective (Effective p) = Effective p.
Proof. unfold Effective. go_cases. Qed.

Lemma ShowsPreview_ShowsSender p : ShowsPreview p = true → ShowsSender p = true.
Proof.
  unfold ShowsPreview, ShowsSender. rewrite bool_decide_eq_true. by intros ->.
Qed.

Lemma WithNewUserDefaults_privacy u : User.NotificationPrivacy (WithNewUserDefaults u) ≠ "".
Proof. unfold WithNewUserDefaults. by case_bool_decide. Qed.

Lemma WithNewUserDefaults_ID u : User.ID (WithNewUserDefaults u) = User.ID u.
Proof. unfold WithNewUserDefaults. by case_bool_decide. Qed.

Lemma IsMLSProtocol_list ct : IsMLSProtocol ct = bool_decide (ct ∈ MLSProtocolContentTypes).
Proof.
  unfold IsMLSProtocol, MLSProtocolContentTypes. apply eq_true_iff_eq.
  rewrite !orb_true_iff, !bool_decide_eq_true, !elem_of_cons, elem_of_nil. tauto.
Qed.

Lemma Redeemable_spec i now :
  Redeemable i now = true ↔
  Invite.UsedAt i = None ∧ Invite.RevokedAt i = None ∧
  (∀ e, Invite.ExpiresAt i = Some e → now < e).
Proof.
  unfold Redeemable, Status, Before. rewrite bool_decide_eq_true.
  destruct (Invite.UsedAt i); simpl; [by split; [|intros (?&_)]|].
  destruct (Invite.RevokedAt i); simpl; [by split; [|intros (_&?&_)]|].
  destruct (Invite.ExpiresAt i) as [e|]; simpl; [|by split].
  destruct (Z.ltb_spec now e); simpl; split; try done.
  - intros _. repeat split; try done. by intros ? [= <-].
  - intros (_&_&H'). specialize (H' e eq_refl). lia.
Qed.

Lemma DirectKey_comm a b : DirectKey a b = DirectKey b a.
Proof.
  unfold DirectKey. destruct (str_lt b a) eqn:E1, (str_lt a b) eqn:E2; try done.
  - apply str_lt_asym in E1. congruence.
  - by rewrite (str_lt_total a b).
Qed.
