(* ===== verification/Threads.v ===== *)
(** * Handlers as threads

    A handler is a program of atomic calls on shared state: every call to a
    store takes that store's lock, and between two calls of one handler the
    others run. A call sees the state and what the environment decides at that
    moment (the clock, whether the backend answers). This file has the
    programs, their sequential run, the steps of a pool of them, and the
    rely-guarantee rule that proves an invariant of a pool from its threads. *)

From S2P Require Import Prelude.

Section Threads.
Context {W Env R : Type}.

(** [Act op k]: do [op] atomically, go on as [k] says of its answer. *)
Inductive prog : Type :=
| Done (r : R)
| Act {A : Type} (op : W → Env → W * A) (k : A → prog).

(** A program on its own, under the environments it meets; the last one
    repeats. *)
Fixpoint run (p : prog) (w : W) (envs : list Env) (last : Env) : W * R :=
  match p with
  | Done r => (w, r)
  | Act op k =>
      let env := match envs with e :: _ => e | [] => last end in
      let '(w, a) := op w env in run (k a) w (tail envs) last
  end.

(** What holds after a program that runs alone, whatever it meets among the
    environments that are [ok]. *)
Fixpoint wp (ok : Env → Prop) (p : prog) (w : W) (Q : W → R → Prop) : Prop :=
  match p with
  | Done r => Q w r
  | Act op k => ∀ env, ok env → wp ok (k (op w env).2) (op w env).1 Q
  end.

Lemma wp_run ok p Q : ∀ w envs last,
  Forall ok (last :: envs) → wp ok p w Q → Q (run p w envs last).1 (run p w envs last).2.
Proof.
  induction p as [r|A op k IH]; intros w envs last Hok Hp; cbn [run]; [done|].
  set (env := match envs with e :: _ => e | [] => last end).
  apply Forall_cons in Hok as [Hl Hes].
  specialize (Hp env ltac:(destruct Hes; done)). cbn beta. destruct (op w env) as [w' a] eqn:E.
  apply IH; [|done]. constructor; [done|]. by destruct Hes.
Qed.

Lemma wp_mono ok p (Q Q' : W → R → Prop) : (∀ w r, Q w r → Q' w r) → ∀ w, wp ok p w Q → wp ok p w Q'.
Proof.
  intros HQ. induction p as [r|A op k IH]; intros w Hp; cbn [wp] in *; [by apply HQ|].
  intros env Henv. apply IH, Hp, Henv.
Qed.

(** One thread of a pool does one call. *)
Inductive pool_step : W * list prog → W * list prog → Prop :=
| pool_act w ps i A (op : W → Env → W * A) (k : A → prog) env w' a :
    ps !! i = Some (Act op k) → op w env = (w', a) →
    pool_step (w, ps) (w', <[i := k a]> ps).

(** A pool among other parties, that change the state by [rely]. *)
Inductive system_step (rely : W → W → Prop) : W * list prog → W * list prog → Prop :=
| system_pool s s' : pool_step s s' → system_step rely s s'
| system_rely w w' ps : rely w w' → system_step rely (w, ps) (w', ps).

(** A schedule: which thread goes next, and what it meets. *)
Fixpoint schedule (w : W) (ps : list prog) (turns : list (nat * Env)) : W * list prog :=
  match turns with
  | [] => (w, ps)
  | (i, env) :: turns =>
      match ps !! i with
      | Some (Act op k) => let '(w, a) := op w env in schedule w (<[i := k a]> ps) turns
      | _ => schedule w ps turns
      end
  end.

Lemma schedule_steps rely w ps turns : rtc (system_step rely) (w, ps) (schedule w ps turns).
Proof.
  revert w ps. induction turns as [|[i env] turns IH]; intros w ps; cbn [schedule]; [done|].
  destruct (ps !! i) as [[r|A op k]|] eqn:Hi; [apply IH| |apply IH].
  destruct (op w env) as [w' a] eqn:E. eapply rtc_l; [|apply IH].
  apply system_pool. by eapply pool_act.
Qed.

(** ** Invariants

    Every call of the program keeps [Inv], whatever it meets among the
    environments that are [ok]. *)
Fixpoint preserves (ok : Env → Prop) (Inv : W → Prop) (p : prog) : Prop :=
  match p with
  | Done _ => True
  | Act op k => ∀ w env, ok env → Inv w → Inv (op w env).1 ∧ preserves ok Inv (k (op w env).2)
  end.

Lemma preserves_schedule ok Inv turns : ∀ w ps,
  Forall (fun t => ok t.2) turns → Inv w → Forall (preserves ok Inv) ps → Inv (schedule w ps turns).1.
Proof.
  induction turns as [|[i env] turns IH]; intros w ps Ht Hw Hps; cbn [schedule]; [done|].
  apply Forall_cons in Ht as [Henv Ht].
  destruct (ps !! i) as [[r|A op k]|] eqn:Hi; [by apply IH| |by apply IH].
  pose proof (proj1 (Forall_lookup _ _) Hps _ _ Hi) as Hk. cbn [preserves] in Hk.
  destruct (Hk w env Henv Hw) as [Hw' Hk']. destruct (op w env) as [w' a].
  apply IH; [done..|]. by apply Forall_insert.
Qed.

Lemma preserves_and ok ok' Inv Inv' p : preserves ok Inv p → preserves ok' Inv' p →
  preserves (fun env => ok env ∧ ok' env) (fun w => Inv w ∧ Inv' w) p.
Proof.
  induction p as [r|A op k IH]; intros H1 H2; [done|]. intros w env [Ho Ho'] [Hw Hw'].
  destruct (H1 w env Ho Hw) as [H3 H4]. destruct (H2 w env Ho' Hw') as [H5 H6]. auto.
Qed.
Lemma preserves_weaken ok ok' Inv Inv' p : (∀ env, ok' env → ok env) → (∀ w, Inv w ↔ Inv' w) →
  preserves ok Inv p → preserves ok' Inv' p.
Proof.
  intros Hok HI. induction p as [r|A op k IH]; intros H; [done|]. intros w env Ho Hw%HI.
  destruct (H w env (Hok _ Ho) Hw) as [H1%HI H2]. auto.
Qed.

(** The same, and what is known of the answer. *)
Fixpoint yields (ok : Env → Prop) (Inv : W → Prop) (Post : R → Prop) (p : prog) : Prop :=
  match p with
  | Done r => Post r
  | Act op k => ∀ w env, ok env → Inv w → Inv (op w env).1 ∧ yields ok Inv Post (k (op w env).2)
  end.

Lemma yields_schedule ok Inv Post turns : ∀ w ps,
  Forall (fun t => ok t.2) turns → Inv w → Forall (yields ok Inv Post) ps →
  Inv (schedule w ps turns).1 ∧ Forall (yields ok Inv Post) (schedule w ps turns).2.
Proof.
  induction turns as [|[i env] turns IH]; intros w ps Ht Hw Hps; cbn [schedule]; [done|].
  apply Forall_cons in Ht as [Henv Ht].
  destruct (ps !! i) as [[r|A op k]|] eqn:Hi; [by apply IH| |by apply IH].
  pose proof (proj1 (Forall_lookup _ _) Hps _ _ Hi) as Hk. cbn [yields] in Hk.
  destruct (Hk w env Henv Hw) as [Hw' Hk']. destruct (op w env) as [w' a].
  apply IH; [done..|]. by apply Forall_insert.
Qed.

(** Each thread with what is known of its own answer. *)
Lemma yields_schedule_each ok Inv turns : ∀ w ps Posts,
  Forall (fun t => ok t.2) turns → Inv w → Forall2 (yields ok Inv) Posts ps →
  Inv (schedule w ps turns).1 ∧ Forall2 (yields ok Inv) Posts (schedule w ps turns).2.
Proof.
  induction turns as [|[i env] turns IH]; intros w ps Posts Ht Hw Hps; cbn [schedule]; [done|].
  apply Forall_cons in Ht as [Henv Ht].
  destruct (ps !! i) as [[r|A op k]|] eqn:Hi; [by apply IH| |by apply IH].
  destruct (Forall2_lookup_r _ _ _ _ _ Hps Hi) as (Post & HP & Hk). cbn [yields] in Hk.
  destruct (Hk w env Henv Hw) as [Hw' Hk']. destruct (op w env) as [w' a].
  apply IH; [done..|]. rewrite <- (list_insert_id Posts i Post HP). by apply Forall2_insert.
Qed.

(** ** Potentials

    [Phi] is a debt that the state bears, and every thread holds an allowance:
    a call may raise the one by what it lowers the other. *)
Fixpoint pays (ok : Env → Prop) (Phi : W → nat) (allowance : nat) (p : prog) : Prop :=
  match p with
  | Done _ => True
  | Act op k => ∀ w env, ok env → ∃ left_, (Phi (op w env).1 + left_ ≤ Phi w + allowance)%nat ∧ pays ok Phi left_ (k (op w env).2)
  end.

Lemma sum_list_insert (l : list nat) i x y :
  l !! i = Some x → (sum_list (<[i := y]> l) + x = sum_list l + y)%nat.
Proof.
  revert i. induction l as [|z l IH]; intros [|i] Hi; simplify_list_eq; [lia|]. specialize (IH i Hi). lia.
Qed.

Lemma pays_schedule ok Phi turns : ∀ w ps gs,
  Forall (fun t => ok t.2) turns → Forall2 (pays ok Phi) gs ps →
  (Phi (schedule w ps turns).1 ≤ Phi w + sum_list gs)%nat.
Proof.
  induction turns as [|[i env] turns IH]; intros w ps gs Ht Hps; cbn [schedule]; [cbn; lia|].
  apply Forall_cons in Ht as [Henv Ht].
  destruct (ps !! i) as [[r|A op k]|] eqn:Hi; [by apply IH| |by apply IH].
  destruct (Forall2_lookup_r _ _ _ _ _ Hps Hi) as (g & Hg & Hk). cbn [pays] in Hk.
  destruct (Hk w env Henv) as (g' & Hle & Hk'). destruct (op w env) as [w' a].
  specialize (IH w' (<[i := k a]> ps) (<[i := g']> gs) Ht (Forall2_insert _ _ _ _ _ _ Hps Hk')).
  pose proof (sum_list_insert gs i g g' Hg). cbn [fst snd] in *. lia.
Qed.

(** What holds at every point of the run of a program on its own. *)
Fixpoint always (ok : Env → Prop) (p : prog) (w : W) (Q : W → Prop) : Prop :=
  Q w ∧ match p with
        | Done _ => True
        | Act op k => ∀ env, ok env → always ok (k (op w env).2) (op w env).1 Q
        end.

(** ** Rely and guarantee

    Every thread has a ghost state; [local] is what a thread may assume of the
    shared state by virtue of its ghost state, [trans] what a call may do to
    both, and [post] what an answer tells of the ghost state. *)

Section RelyGuarantee.
Context {G : Type} (J : W → list G → Prop) (local : W → G → Prop)
  (trans : W → G → W → G → Prop) (post : G → R → Prop) (rely : W → W → Prop).

Fixpoint keeps (g : G) (p : prog) : Prop :=
  match p with
  | Done r => post g r
  | Act op k => ∀ w env w' a, local w g → op w env = (w', a) →
      ∃ g', trans w g w' g' ∧ keeps g' (k a)
  end.

Hypothesis J_local : ∀ w gs i g, J w gs → gs !! i = Some g → local w g.
Hypothesis J_trans : ∀ w gs i g w' g',
  J w gs → gs !! i = Some g → trans w g w' g' → J w' (<[i := g']> gs).
Hypothesis J_rely : ∀ w gs w', J w gs → rely w w' → J w' gs.

Lemma rely_guarantee s s' gs :
  rtc (system_step rely) s s' → J s.1 gs → Forall2 keeps gs s.2 →
  ∃ gs', J s'.1 gs' ∧ Forall2 keeps gs' s'.2.
Proof.
  intros Hr. revert gs. induction Hr as [s|s1 s2 s3 Hstep _ IH]; intros gs HJ HF; [by exists gs|].
  destruct Hstep as [s s' [w ps i A op k env w' a Hi Hop]|w w' ps Hrely]; cbn [fst snd] in *.
  - destruct (Forall2_lookup_r _ _ _ _ _ HF Hi) as (g & Hg & Hk). cbn [keeps] in Hk.
    destruct (Hk w env w' a (J_local _ _ _ _ HJ Hg) Hop) as (g' & Ht & Hk').
    apply (IH (<[i := g']> gs)); [by eapply J_trans | by apply Forall2_insert].
  - apply (IH gs); [by eapply J_rely | done].
Qed.
End RelyGuarantee.
End Threads.
Arguments prog : clear implicits.

(** ** What calls answer

    A call's own error, or that the backend did not answer. *)
Inductive failure (E : Type) : Type := Known (e : E) | Unavailable.
Arguments Known {E}. Arguments Unavailable {E}.

Definition lift {X Y} (r : result X Y) : result (failure X) Y :=
  match r with Ok y => Ok y | Err e => Err (Known e) end.

(** A backend may fail a call without doing it, or do it and lose the answer. *)
Inductive fault : Type := Works | NotDone | AnswerLost.

(** Sequencing of calls in continuation-passing style. *)
Notation "'do!' x := c 'in' k" := (c (fun x => k))
  (at level 10, x pattern, k at level 200) : go_scope.
