(* ===== verification/Crypto.v ===== *)
(** * Bytes, SHA-256 and Ed25519

    Big-endian integers ([encoding/binary]), hexadecimal, base64url and the
    SHA-256 digest of [crypto/sha256], computed on byte strings, for the hashes
    the backend derives: chain links, pair keys, invite and verification codes,
    key ids. Ed25519 ([crypto/ed25519]) is a class: its operations, and what the
    package documents of them. *)

From Stdlib Require Import Ascii.
From S2P Require Import Prelude.
From S2P Require Import GoStrings.
From S2P Require Import Domain.

Definition byte (z : Z) : ascii := ascii_of_N (Z.to_N (z mod 256)).

(** [binary.BigEndian]: [n] bytes, most significant first. *)
Fixpoint be_bytes (n : nat) (z : Z) : bytes :=
  match n with
  | O => EmptyString
  | S n' => String (byte (z / 256 ^ Z.of_nat n')) (be_bytes n' z)
  end.

(** The value of a big-endian string. *)
Fixpoint be_value_from (acc : Z) (s : bytes) : Z :=
  match s with
  | EmptyString => acc
  | String c s' => be_value_from (acc * 256 + byte_of c) s'
  end.
Definition be_value (s : bytes) : Z := be_value_from 0 s.

(** ** SHA-256 *)

Definition sha_h0 : list Z :=
  [1779033703; 3144134277; 1013904242; 2773480762; 1359893119; 2600822924; 528734635;
   1541459225].
Definition sha_k : list Z :=
  [1116352408; 1899447441; 3049323471; 3921009573; 961987163; 1508970993; 2453635748;
   2870763221; 3624381080; 310598401; 607225278; 1426881987; 1925078388; 2162078206;
   2614888103; 3248222580; 3835390401; 4022224774; 264347078; 604807628; 770255983;
   1249150122; 1555081692; 1996064986; 2554220882; 2821834349; 2952996808; 3210313671;
   3336571891; 3584528711; 113926993; 338241895; 666307205; 773529912; 1294757372;
   1396182291; 1695183700; 1986661051; 2177026350; 2456956037; 2730485921; 2820302411;
   3259730800; 3345764771; 3516065817; 3600352804; 4094571909; 275423344; 430227734;
   506948616; 659060556; 883997877; 958139571; 1322822218; 1537002063; 1747873779;
   1955562222; 2024104815; 2227730452; 2361852424; 2428436474; 2756734187; 3204031479;
   3329325298].

Definition w32 (z : Z) : Z := z mod 2 ^ 32.
Definition rotr (n x : Z) : Z := Z.lor (Z.shiftr x n) (w32 (Z.shiftl x (32 - n))).
Definition big0 x := Z.lxor (Z.lxor (rotr 2 x) (rotr 13 x)) (rotr 22 x).
Definition big1 x := Z.lxor (Z.lxor (rotr 6 x) (rotr 11 x)) (rotr 25 x).
Definition small0 x := Z.lxor (Z.lxor (rotr 7 x) (rotr 18 x)) (Z.shiftr x 3).
Definition small1 x := Z.lxor (Z.lxor (rotr 17 x) (rotr 19 x)) (Z.shiftr x 10).
Definition choose x y z := Z.lxor (Z.land x y) (Z.land (Z.lnot x) z).
Definition majority x y z := Z.lxor (Z.lxor (Z.land x y) (Z.land x z)) (Z.land y z).

(** The message schedule, newest word first. *)
Fixpoint schedule (n : nat) (ws : list Z) : list Z :=
  match n with
  | O => ws
  | S n' =>
      let at_ i := nth i ws 0 in
      schedule n' (w32 (small1 (at_ 1%nat) + at_ 6%nat + small0 (at_ 14%nat) + at_ 15%nat) :: ws)
  end.

Definition sha_round (st : list Z) (kw : Z * Z) : list Z :=
  match st with
  | [a; b; c; d; e; f; g; h] =>
      let t1 := h + big1 e + choose e f g + kw.1 + kw.2 in
      let t2 := big0 a + majority a b c in
      [w32 (t1 + t2); a; b; c; w32 (d + t1); e; f; g]
  | _ => st
  end.

Definition sha_block (st : list Z) (ws : list Z) : list Z :=
  let w := reverse (schedule 48 (reverse ws)) in
  zip_with (fun x y => w32 (x + y)) st (foldl sha_round st (zip sha_k w)).

Fixpoint words (s : bytes) : list Z :=
  match s with
  | String a (String b (String c (String d s'))) =>
      (byte_of a * 16777216 + byte_of b * 65536 + byte_of c * 256 + byte_of d) :: words s'
  | _ => []
  end.

Fixpoint blocks (fuel : nat) (st : list Z) (ws : list Z) : list Z :=
  match fuel, ws with
  | S fuel', _ :: _ => blocks fuel' (sha_block st (take 16 ws)) (drop 16 ws)
  | _, _ => st
  end.

Definition zeros (n : nat) : bytes := Nat.iter n (String (byte 0)) EmptyString.

(** Padding: a one bit, zeros up to 56 modulo 64, the length in bits. *)
Definition sha_pad (s : bytes) : bytes :=
  let k := (55 - slen s) mod 64 in
  String.append s (String (byte 128) (String.append (zeros (Z.to_nat k)) (be_bytes 8 (8 * slen s)))).

Definition sha256 (s : bytes) : bytes :=
  let ws := words (sha_pad s) in
  foldr (fun w acc => String.append (be_bytes 4 w) acc) EmptyString (blocks (length ws) sha_h0 ws).

(** ** Base64 and hexadecimal *)

Definition hex_digit (z : Z) : ascii := byte (if z <? 10 then 48 + z else 87 + z).

(** [hex.EncodeToString] *)
Fixpoint hex (s : bytes) : string :=
  match s with
  | EmptyString => EmptyString
  | String c s' => String (hex_digit (byte_of c / 16)) (String (hex_digit (byte_of c mod 16)) (hex s'))
  end.

Definition b64_char (z : Z) : ascii :=
  byte (if z <? 26 then 65 + z else if z <? 52 then 71 + z else if z <? 62 then z - 4
        else if z =? 62 then 45 else 95).

(** [base64.RawURLEncoding.EncodeToString] *)
Fixpoint base64url (s : bytes) : string :=
  match s with
  | EmptyString => EmptyString
  | String a EmptyString =>
      let n := byte_of a * 16 in
      String (b64_char (n / 64)) (String (b64_char (n mod 64)) EmptyString)
  | String a (String b EmptyString) =>
      let n := (byte_of a * 256 + byte_of b) * 4 in
      String (b64_char (n / 4096))
        (String (b64_char (n / 64 mod 64)) (String (b64_char (n mod 64)) EmptyString))
  | String a (String b (String c s')) =>
      let n := byte_of a * 65536 + byte_of b * 256 + byte_of c in
      String (b64_char (n / 262144)) (String (b64_char (n / 4096 mod 64))
        (String (b64_char (n / 64 mod 64)) (String (b64_char (n mod 64)) (base64url s'))))
  end.

(** The value of a character of the alphabet. *)
Definition b64_value (c : ascii) : Z :=
  let b := byte_of c in
  if b =? 45 then 62 else if b =? 95 then 63 else if b <? 58 then b + 4
  else if b <? 91 then b - 65 else b - 71.
Definition b64_digit (c : ascii) : option Z :=
  if is_letter c || is_digit c || (c == "-"%char) || (c == "_"%char) then Some (b64_value c) else None.

(** Four digits to three bytes; two or three left over to one or two bytes,
    the spare bits dropped; one left over is an error. *)
Fixpoint b64_groups (ds : list Z) : option bytes :=
  match ds with
  | [] => Some EmptyString
  | [_] => None
  | [a; b] => Some (String (byte ((a * 64 + b) / 16)) EmptyString)
  | [a; b; c] =>
      let n := (a * 4096 + b * 64 + c) / 4 in
      Some (String (byte (n / 256)) (String (byte n) EmptyString))
  | a :: b :: c :: d :: ds' =>
      let n := a * 262144 + b * 4096 + c * 64 + d in
      (fun s => String (byte (n / 65536)) (String (byte (n / 256)) (String (byte n) s)))
        <$> b64_groups ds'
  end.

Fixpoint b64_digits (s : string) : option (list Z) :=
  match s with
  | EmptyString => Some []
  | String c s' =>
      if (byte_of c =? 10) || (byte_of c =? 13) then b64_digits s'
      else match b64_digit c, b64_digits s' with
           | Some d, Some ds => Some (d :: ds)
           | _, _ => None
           end
  end.

(** [base64.RawURLEncoding.DecodeString]; line breaks are skipped. *)
Definition base64url_decode (s : string) : option bytes :=
  match b64_digits s with Some ds => b64_groups ds | None => None end.

(** The digests of the standard's two short messages. *)
Example sha256_abc :
  hex (sha256 "abc") = "ba7816bf8f01cfea414140de5dae2223b00361a396177a9cb410ff61f20015ad".
Proof. vm_compute. reflexivity. Qed.
Example sha256_two_blocks :
  hex (sha256 "abcdbcdecdefdefgefghfghighijhijkijkljklmklmnlmnomnopnopq") =
  "248d6a61d20638b8e5c026930c3e6039a33ce45964ff2167f6ecedd419db06c1".
Proof. vm_compute. reflexivity. Qed.
Example base64url_decode_vector : base64url_decode "Zm9vYmFyPw" = Some "foobar?".
Proof. vm_compute. reflexivity. Qed.
Example base64url_vector : base64url "foobar?" = "Zm9vYmFyPw".
Proof. vm_compute. reflexivity. Qed.

(** ** Lemmas *)

Lemma byte_of_byte z : byte_of (byte z) = z mod 256.
Proof.
  unfold byte_of, byte. pose proof (Z.mod_pos_bound z 256).
  rewrite N_ascii_embedding; lia.
Qed.

Lemma be_bytes_length n z : String.length (be_bytes n z) = n.
Proof. induction n as [|n IH]; simpl; congruence. Qed.

Lemma be_bytes_mod n z : ∀ k, (k ≤ n)%nat → be_bytes k (z mod 256 ^ Z.of_nat n) = be_bytes k z.
Proof.
  intros k. induction k as [|k IH]; intros Hk; simpl; [done|]. rewrite IH by lia. f_equal.
  unfold byte. do 2 f_equal.
  replace (Z.of_nat n) with (Z.of_nat k + (1 + (Z.of_nat n - Z.of_nat k - 1))) by lia.
  rewrite !Z.pow_add_r by lia. pose proof (Z.pow_pos_nonneg 256 (Z.of_nat k)).
  pose proof (Z.pow_pos_nonneg 256 (Z.of_nat n - Z.of_nat k - 1)).
  rewrite Z.rem_mul_r by lia. rewrite (Z.mul_comm (256 ^ Z.of_nat k)), Z.div_add by lia.
  rewrite Z.div_small by (apply Z.mod_pos_bound; lia). rewrite Z.add_0_l, Z.pow_1_r.
  rewrite Z.rem_mul_r by lia. by rewrite (Z.mul_comm 256), Z.mod_add, Z.mod_mod by lia.
Qed.

Lemma be_value_from_bytes n : ∀ acc z,
  0 ≤ z < 256 ^ Z.of_nat n → be_value_from acc (be_bytes n z) = acc * 256 ^ Z.of_nat n + z.
Proof.
  induction n as [|n IH]; intros acc z Hz; simpl.
  - rewrite Z.pow_0_r in *. lia.
  - rewrite byte_of_byte. rewrite Nat2Z.inj_succ, Z.pow_succ_r in Hz |- * by lia.
    pose proof (Z.pow_pos_nonneg 256 (Z.of_nat n)) as Hp.
    rewrite Z.mod_small by (split; [apply Z.div_pos; lia | apply Z.div_lt_upper_bound; lia]).
    rewrite <- (be_bytes_mod n z n), IH by (done || apply Z.mod_pos_bound; lia).
    pose proof (Z.div_mod z (256 ^ Z.of_nat n)). lia.
Qed.

(** Encoding then reading back. *)
Lemma be_value_bytes n z : 0 ≤ z < 256 ^ Z.of_nat n → be_value (be_bytes n z) = z.
Proof. intros H. unfold be_value. rewrite be_value_from_bytes by done. lia. Qed.

Lemma be_bytes_inj n x y :
  0 ≤ x < 256 ^ Z.of_nat n → 0 ≤ y < 256 ^ Z.of_nat n → be_bytes n x = be_bytes n y → x = y.
Proof.
  intros Hx Hy H. rewrite <- (be_value_bytes n x), <- (be_value_bytes n y) by done. by rewrite H.
Qed.

(** ** Base64 reads back *)

Lemma b64_digit_char z : 0 ≤ z < 64 → b64_digit (b64_char z) = Some z.
Proof.
  intros H. assert (∃ n : nat, (n < 64)%nat ∧ z = Z.of_nat n) as (n & Hn & ->).
  { exists (Z.to_nat z). lia. }
  do 64 (destruct n as [|n]; [vm_compute; reflexivity|]). lia.
Qed.

(** An encoded string is made of letters, digits, hyphens and underscores. *)
Definition b64_alphabet (c : ascii) : bool :=
  is_letter c || is_digit c || (c == "-"%char) || (c == "_"%char).

Lemma b64_char_alphabet z : 0 ≤ z < 64 → b64_alphabet (b64_char z) = true.
Proof.
  intros H. pose proof (b64_digit_char z H) as Hd. unfold b64_digit in Hd. unfold b64_alphabet.
  by destruct (_ || _ || _ || _).
Qed.

Lemma b64_digits_cons z s ds :
  0 ≤ z < 64 → b64_digits s = Some ds → b64_digits (String (b64_char z) s) = Some (z :: ds).
Proof.
  intros Hz Hs. pose proof (b64_char_alphabet z Hz) as Ha. cbn [b64_digits].
  destruct ((byte_of (b64_char z) =? 10) || (byte_of (b64_char z) =? 13)) eqn:E.
  - exfalso. apply orb_true_iff in E. revert Ha E.
    generalize (b64_char z). intros [[] [] [] [] [] [] [] []]; vm_compute; intuition discriminate.
  - by rewrite b64_digit_char, Hs.
Qed.

Lemma byte_byte_of c : byte (byte_of c) = c.
Proof. apply byte_of_inj. rewrite byte_of_byte. pose proof (byte_of_range c). apply Z.mod_small. lia. Qed.

(** A number of [k] base-64 digits is the sum of its digits. *)
Lemma b64_sum2 n : n = n / 64 * 64 + n mod 64.
Proof. pose proof (Z.div_mod n 64). lia. Qed.
Lemma b64_sum3 n : n = n / 4096 * 4096 + n / 64 mod 64 * 64 + n mod 64.
Proof.
  replace (n / 4096) with (n / 64 / 64) by (rewrite Z.div_div by lia; f_equal; lia).
  pose proof (b64_sum2 n). pose proof (b64_sum2 (n / 64)). lia.
Qed.
Lemma b64_sum4 n : n = n / 262144 * 262144 + n / 4096 mod 64 * 4096 + n / 64 mod 64 * 64 + n mod 64.
Proof.
  replace (n / 262144) with (n / 64 / 4096) by (rewrite Z.div_div by lia; f_equal; lia).
  replace (n / 4096) with (n / 64 / 64) by (rewrite Z.div_div by lia; f_equal; lia).
  pose proof (b64_sum2 n). pose proof (b64_sum3 (n / 64)). lia.
Qed.

Lemma byte_eq z c : z mod 256 = byte_of c → byte z = c.
Proof. intros H. apply byte_of_inj. by rewrite byte_of_byte. Qed.

Ltac b64_bounds :=
  repeat match goal with c : ascii |- _ =>
    lazymatch goal with H : 0 ≤ byte_of c < 256 |- _ => fail | _ => pose proof (byte_of_range c) end end;
  split; [first [apply Z.mod_pos_bound | apply Z.div_pos]
         | first [apply Z.mod_pos_bound | apply Z.div_lt_upper_bound]]; lia.

(** [base64.RawURLEncoding]: decoding what was encoded. *)
Lemma base64url_roundtrip s : base64url_decode (base64url s) = Some s.
Proof.
  unfold base64url_decode.
  enough (∃ ds, b64_digits (base64url s) = Some ds ∧ b64_groups ds = Some s) as (ds & -> & ?) by done.
  remember (String.length s) as k eqn:Hk. assert (String.length s ≤ k)%nat as Hle by lia. clear Hk.
  revert s Hle. induction k as [|k IH]; intros s Hle.
  { destruct s; [by exists [] | cbn in Hle; lia]. }
  destruct s as [|a [|b [|c s]]]; [by exists []|..]; cbn [base64url String.length] in *.
  - eexists. split; [do 2 (apply b64_digits_cons; [b64_bounds|]); done|].
    cbn [b64_groups]. rewrite <- b64_sum2. do 2 f_equal.
    rewrite Z.div_mul by done. apply byte_byte_of.
  - eexists. split; [do 3 (apply b64_digits_cons; [b64_bounds|]); done|].
    cbn [b64_groups]. rewrite <- b64_sum3. rewrite Z.div_mul by done. do 3 f_equal; apply byte_eq.
    + rewrite Z.div_add_l, (Z.div_small (byte_of b)), Z.add_0_r by (done || apply byte_of_range).
      apply Z.mod_small, byte_of_range.
    + rewrite Z.add_comm, Z.mod_add by done. apply Z.mod_small, byte_of_range.
  - destruct (IH s) as (ds & Hd & Hg); [lia|].
    eexists. split; [do 4 (apply b64_digits_cons; [b64_bounds|]); exact Hd|].
    cbn [b64_groups]. rewrite Hg, <- b64_sum4. cbn [fmap option_fmap option_map].
    pose proof (byte_of_range a). pose proof (byte_of_range b). pose proof (byte_of_range c).
    repeat f_equal; apply byte_eq.
    + rewrite <- Z.add_assoc, Z.div_add_l, (Z.div_small (_ + _)), Z.add_0_r by lia.
      apply Z.mod_small. lia.
    + replace (byte_of a * 65536 + byte_of b * 256 + byte_of c)
        with ((byte_of a * 256 + byte_of b) * 256 + byte_of c) by lia.
      rewrite Z.div_add_l, (Z.div_small (byte_of c)), Z.add_0_r, Z.add_comm, Z.mod_add by lia.
      apply Z.mod_small. lia.
    + replace (byte_of a * 65536 + byte_of b * 256 + byte_of c)
        with (byte_of c + (byte_of a * 256 + byte_of b) * 256) by lia.
      rewrite Z.mod_add by done. apply Z.mod_small. lia.
Qed.

Lemma base64url_inj s s' : base64url s = base64url s' → s = s'.
Proof.
  intros H. assert (Some s = Some s') as [= ->]; [|done].
  by rewrite <- (base64url_roundtrip s), <- (base64url_roundtrip s'), H.
Qed.

Lemma base64url_alphabet s : all_bytes b64_alphabet (base64url s) = true.
Proof.
  remember (String.length s) as k eqn:Hk. assert (String.length s ≤ k)%nat as Hle by lia. clear Hk.
  revert s Hle. induction k as [|k IH]; intros s Hle.
  { destruct s; [done | cbn in Hle; lia]. }
  destruct s as [|a [|b [|c s]]]; [done|..]; cbn [base64url String.length all_bytes] in *;
    rewrite ?b64_char_alphabet by b64_bounds; cbn [andb]; [done..|]. apply IH. lia.
Qed.

Lemma all_bytes_impl (p q : ascii → bool) s :
  (∀ c, p c = true → q c = true) → all_bytes p s = true → all_bytes q s = true.
Proof.
  intros Hpq. induction s as [|c s IH]; cbn [all_bytes]; [done|].
  intros [Hc Hs]%andb_true_iff. by rewrite (Hpq c Hc), (IH Hs).
Qed.

(** It holds no byte outside the alphabet: no separator, padding or blank. *)
Lemma base64url_free_of sep s : b64_alphabet sep = false → free_of sep (base64url s) = true.
Proof.
  intros Hs. eapply all_bytes_impl, base64url_alphabet. intros c Hc.
  apply negb_true_iff, bool_decide_eq_false. by intros ->; congruence.
Qed.

#[global] Opaque sha256.

(** ** Ed25519

    [PublicKeySize] and [SignatureSize] are those of the package; a signature
    made with a private key verifies under its public half, for the message
    that was signed. *)

Definition PublicKeySize : Z := 32.
Definition SignatureSize : Z := 64.
Definition SeedSize : Z := 32.

Class Ed25519 := {
  (** [key.Public()] *)
  ed_public : bytes → bytes;
  ed_sign : bytes → bytes → bytes;
  ed_verify : bytes → bytes → bytes → bool;
  ed_sign_size k msg : slen (ed_sign k msg) = SignatureSize;
  ed_public_size k : slen (ed_public k) = PublicKeySize;
  ed_verify_sign k msg : ed_verify (ed_public k) msg (ed_sign k msg) = true
}.

(** [ed25519.Verify]; [None] is its panic on a key of the wrong size. *)
Definition ed25519_Verify `{Ed25519} (pub msg sig : bytes) : option bool :=
  if slen pub =? PublicKeySize then Some (ed_verify pub msg sig) else None.

(** A toy instance, on which the witnesses evaluate: the signature repeats the
    digest of the message under the key. *)
Definition toy_public (k : bytes) : bytes := sha256 k.
Definition toy_sign (k msg : bytes) : bytes :=
  let d := sha256 (String.append (toy_public k) msg) in String.append d d.
Definition toy_verify (p msg sig : bytes) : bool :=
  let d := sha256 (String.append p msg) in sig == String.append d d.

Lemma append_block_length st s : String.length
  (foldr (fun w acc => String.append (be_bytes 4 w) acc) s st) = (4 * length st + String.length s)%nat.
Proof.
  induction st as [|w st IH]; [done|]. cbn [foldr length].
  rewrite length_append, be_bytes_length, IH. lia.
Qed.

Lemma sha_round_length st kw : length st = 8%nat → length (sha_round st kw) = 8%nat.
Proof. intros H. do 9 (destruct st as [|? st]; simpl in *; try lia). Qed.

Lemma sha_block_length st ws : length st = 8%nat → length (sha_block st ws) = 8%nat.
Proof.
  intros H. unfold sha_block. rewrite length_zip_with, H.
  enough (∀ l st, length st = 8%nat → length (foldl sha_round st l) = 8%nat) as -> by done.
  intros l. induction l; simpl; auto using sha_round_length.
Qed.

Lemma sha256_length s : slen (sha256 s) = 32.
Proof.
  Transparent sha256. unfold slen, sha256. rewrite append_block_length.
  enough (∀ fuel st ws, length st = 8%nat → length (blocks fuel st ws) = 8%nat) as -> by done.
  induction fuel as [|fuel IH]; intros st [|w ws] Hst; simpl; auto using sha_block_length.
Qed.
#[global] Opaque sha256.

Lemma toy_sign_size k msg : slen (toy_sign k msg) = SignatureSize.
Proof. unfold toy_sign. by rewrite slen_app, !sha256_length. Qed.

Lemma toy_verify_sign k msg : toy_verify (toy_public k) msg (toy_sign k msg) = true.
Proof. unfold toy_verify, toy_sign. by apply bool_decide_eq_true. Qed.

Definition toy_ed25519 : Ed25519 := {|
  ed_public := toy_public; ed_sign := toy_sign; ed_verify := toy_verify;
  ed_sign_size := toy_sign_size; ed_public_size := fun k => sha256_length k;
  ed_verify_sign := toy_verify_sign
|}.
