(* ===== verification/Strconv.v ===== *)
(** * Packages [strconv] and [encoding/json]

    [FormatInt] and [ParseInt] in base 10 with 64 bits, that what is formatted
    reads back; strings and objects as [json.Marshal] writes them. *)

From Stdlib Require Import Ascii.
From S2P Require Import Prelude.
From S2P Require Import GoStrings.
From S2P Require Import Domain.
From S2P Require Import Crypto.

Definition decimal_digit (n : Z) : ascii := byte (48 + n mod 10).

(** The digits of [n] in front of [acc], at most [fuel] of them. *)
Fixpoint format_digits (fuel : nat) (n : Z) (acc : string) : string :=
  match fuel with
  | O => acc
  | S fuel' =>
      let acc := String (decimal_digit n) acc in
      if n <? 10 then acc else format_digits fuel' (n / 10) acc
  end.

(** [strconv.FormatInt(n, 10)]; an int64 has at most nineteen digits. *)
Definition FormatInt (n : Z) : string :=
  if n <? 0 then String "-" (format_digits 19 (- n) "") else format_digits 19 n "".

Fixpoint parse_digits (acc : Z) (s : string) : option Z :=
  match s with
  | EmptyString => Some acc
  | String c s' => if is_digit c then parse_digits (acc * 10 + (byte_of c - 48)) s' else None
  end.

(** [strconv.ParseInt(s, 10, 64)]; [None] for its two errors, a malformed
    number and one out of range. *)
Definition ParseInt (s : string) : option Z :=
  let '(neg, ds) := match s with
                    | String c s' => if c == "-"%char then (true, s')
                                     else if c == "+"%char then (false, s') else (false, s)
                    | EmptyString => (false, s)
                    end in
  if ds == "" then None
  else match parse_digits 0 ds with
       | Some n => let n := if (neg : bool) then - n else n in
                   if (- two63 <=? n) && (n <? two63) then Some n else None
       | None => None
       end.

(** ** Lemmas *)

Lemma byte_of_decimal_digit n : byte_of (decimal_digit n) = 48 + n mod 10.
Proof.
  unfold decimal_digit. rewrite byte_of_byte. pose proof (Z.mod_pos_bound n 10). apply Z.mod_small. lia.
Qed.

Lemma decimal_digit_is_digit n : is_digit (decimal_digit n) = true.
Proof.
  unfold is_digit. rewrite byte_of_decimal_digit. pose proof (Z.mod_pos_bound n 10).
  apply andb_true_iff. split; apply Z.leb_le; lia.
Qed.

Lemma format_digits_digits fuel n acc :
  all_bytes is_digit acc = true → all_bytes is_digit (format_digits fuel n acc) = true.
Proof.
  revert n acc. induction fuel as [|fuel IH]; intros n acc Ha; [done|]. cbn [format_digits].
  destruct (n <? 10); [|apply IH]; cbn [all_bytes]; by rewrite decimal_digit_is_digit.
Qed.

Lemma format_digits_nonempty fuel n acc : format_digits (S fuel) n acc ≠ "".
Proof.
  cbn [format_digits]. destruct (n <? 10); [done|]. generalize (n / 10) as m, (decimal_digit n) as c.
  revert acc. induction fuel as [|fuel IH]; intros acc m c; [done|]. cbn [format_digits].
  destruct (m <? 10); [done|]. apply IH.
Qed.

(** The value of the digits, with those that follow. *)
Lemma parse_format_digits fuel n acc : 0 ≤ n < 10 ^ Z.of_nat fuel →
  parse_digits 0 (format_digits fuel n acc) = parse_digits n acc.
Proof.
  revert n acc. induction fuel as [|fuel IH]; intros n acc Hn.
  { rewrite Z.pow_0_r in Hn. by replace n with 0 by lia. }
  cbn [format_digits]. destruct (Z.ltb_spec n 10).
  - cbn [parse_digits]. rewrite decimal_digit_is_digit, byte_of_decimal_digit, Z.mod_small by lia.
    f_equal. lia.
  - rewrite Nat2Z.inj_succ, Z.pow_succ_r in Hn by lia.
    rewrite IH by (split; [apply Z.div_pos | apply Z.div_lt_upper_bound]; lia).
    cbn [parse_digits]. rewrite decimal_digit_is_digit, byte_of_decimal_digit.
    f_equal. pose proof (Z.div_mod n 10). lia.
Qed.

(** No digit is a sign. *)
Lemma digits_unsigned c s : all_bytes is_digit (String c s) = true → c ≠ "-"%char ∧ c ≠ "+"%char.
Proof. cbn [all_bytes]. intros [Hc _]%andb_true_iff. split; intros ->; discriminate. Qed.

Lemma ParseInt_FormatInt n : - two63 < n < two63 → ParseInt (FormatInt n) = Some n.
Proof.
  intros Hn. unfold two63 in Hn. unfold ParseInt, FormatInt.
  destruct (Z.ltb_spec n 0).
  - cbn [bool_decide decide_rel]. rewrite bool_decide_true by done.
    rewrite bool_decide_false by apply format_digits_nonempty.
    rewrite parse_format_digits by (change (10 ^ Z.of_nat 19) with 10000000000000000000; lia).
    cbn [parse_digits]. rewrite Z.opp_involutive.
    rewrite (proj2 (Z.leb_le _ _)), (proj2 (Z.ltb_lt _ _)) by (unfold two63; lia). done.
  - pose proof (format_digits_digits 19 n "" eq_refl) as Hd.
    pose proof (format_digits_nonempty 18 n "") as Hne.
    pose proof (parse_format_digits 19 n "") as Hp.
    destruct (format_digits 19 n "") as [|c s]; [done|].
    destruct (digits_unsigned _ _ Hd) as [H1 H2].
    rewrite !bool_decide_false by done.
    rewrite Hp by (change (10 ^ Z.of_nat 19) with 10000000000000000000; lia).
    cbn [parse_digits]. rewrite (proj2 (Z.leb_le _ _)), (proj2 (Z.ltb_lt _ _)) by (unfold two63; lia).
    done.
Qed.

Lemma FormatInt_free_of sep n : is_digit sep = false → sep ≠ "-"%char → free_of sep (FormatInt n) = true.
Proof.
  intros Hs Hm. assert (∀ m, free_of sep (format_digits 19 m "") = true) as Hf.
  { intros m. eapply all_bytes_impl, (format_digits_digits 19 m "" eq_refl).
    intros c Hc. apply negb_true_iff, bool_decide_eq_false. intros ->. congruence. }
  unfold FormatInt. destruct (n <? 0); [|apply Hf]. unfold free_of. cbn [all_bytes].
  apply andb_true_iff. split; [|apply Hf]. apply negb_true_iff, bool_decide_eq_false. congruence.
Qed.

Example FormatInt_min : FormatInt (- two63) = "-9223372036854775808".
Proof. vm_compute. reflexivity. Qed.
Example ParseInt_edges :
  ParseInt "9223372036854775807" = Some 9223372036854775807 ∧ ParseInt "9223372036854775808" = None ∧
  ParseInt "+7" = Some 7 ∧ ParseInt "-" = None ∧ ParseInt "1_0" = None.
Proof. vm_compute. done. Qed.

(** * Package [encoding/json]: strings and objects

    What [json.Marshal] makes of a string, and of a [map[string]string], whose
    keys it sorts. *)

Definition dquote : ascii := "034"%char.
Definition backslash : ascii := "092"%char.

Definition lower_hex (z : Z) : ascii := ascii_of_N (Z.to_N (if z <? 10 then 48 + z else 87 + z)).

(** [\u00xx] *)
Definition u_escape (c : ascii) : string :=
  String backslash (String.append "u00" (String (lower_hex (byte_of c / 16)) (String (lower_hex (byte_of c mod 16)) ""))).

(** A byte of ASCII, with [EscapeHTML] on. *)
Definition json_byte (c : ascii) : string :=
  if (c == dquote) || (c == backslash) then String backslash (String c "")
  else if byte_of c =? 8 then String backslash "b"
  else if byte_of c =? 12 then String backslash "f"
  else if byte_of c =? 10 then String backslash "n"
  else if byte_of c =? 13 then String backslash "r"
  else if byte_of c =? 9 then String backslash "t"
  else if (byte_of c <? 32) || (c == "<"%char) || (c == ">"%char) || (c == "&"%char) then u_escape c
  else String c "".

(** The line separators U+2028 and U+2029. *)
Definition line_separator (s : string) : option ascii :=
  match s with
  | String a (String b (String c _)) =>
      if (byte_of a =? 226) && (byte_of b =? 128) && ((byte_of c =? 168) || (byte_of c =? 169))
      then Some (lower_hex (byte_of c - 160)) else None
  | _ => None
  end.

(** The rune at the head of a string; [skip] bytes belong to one that is
    written already, verbatim or not. *)
Fixpoint json_runes (skip : nat) (verbatim : bool) (s : string) : string :=
  match s with
  | EmptyString => EmptyString
  | String c s' =>
      match skip with
      | S skip => String.append (if verbatim then String c "" else "") (json_runes skip verbatim s')
      | O =>
          if is_ascii c then String.append (json_byte c) (json_runes 0 true s')
          else match line_separator s with
          | Some d => String backslash (String.append "u202" (String d (json_runes 2 false s')))
          | None =>
              if (rune_size s =? 1)%nat
              then String backslash (String.append "ufffd" (json_runes 0 true s'))
              else String c (json_runes (pred (rune_size s)) true s')
          end
      end
  end.

Definition json_string (s : string) : string :=
  String dquote (String.append (json_runes 0 true s) (String dquote "")).

(** The entries of an object. *)
Fixpoint json_entries (kvs : list (string * string)) : string :=
  match kvs with
  | [] => ""
  | [(k, v)] => String.append (json_string k) (String ":" (json_string v))
  | (k, v) :: kvs => String.append (json_string k) (String ":" (String.append (json_string v) (String "," (json_entries kvs))))
  end.

(** [json.Marshal] of a map of strings. *)
Definition marshal_map (m : gmap string string) : bytes :=
  String "{" (String.append (json_entries (sort_slice (fun x y => str_lt x.1 y.1) (map_to_list m))) "}").

Example json_string_escapes :
  json_string (String "a" (String "<" (String dquote (String "010" (String "226" (String "128" (String "168" (String "255" ""))))))))
  = String dquote (String.append "a\u003c\" (String dquote (String.append "\n\u2028\ufffd" (String dquote "")))).
Proof. reflexivity. Qed.
