(* ===== verification/Password.v ===== *)
(** * Package auth: passwords

    [api/internal/auth/password.go]: Argon2id hashes in PHC format, written by
    [HashPassword] and read back by [VerifyPassword]; and
    [password_policy.go]. The derivation itself, [argon2.IDKey] of
    golang.org/x/crypto, is the interface [Argon2]. The bound on concurrent
    derivations ([withHashSlot]) is not modelled. *)

From Stdlib Require Import Ascii.
From S2P Require Import Prelude.
From S2P Require Import GoStrings.
From S2P Require Import Domain.
From S2P Require Import Crypto.
From S2P Require Import Strconv.

Definition argonTime : Z := 1.
Definition argonMemory : Z := 64 * 1024.
Definition argonThreads : Z := 4.
Definition argonKeyLen : Z := 32.
Definition argonSaltLen : Z := 16.
Definition argonVersion : Z := 19.
Definition maxArgonMemory : Z := 256 * 1024.

Inductive password_err : Type := ErrInvalidHash.

(** [argon2.IDKey(password, salt, time, memory, threads, keyLen)] *)
Class Argon2 := {
  IDKey : bytes → bytes → Z → Z → Z → Z → bytes;
  IDKey_length pw salt t m p n : 0 ≤ n → slen (IDKey pw salt t m p n) = n
}.

(** ** [base64.RawStdEncoding]: the other alphabet *)

Definition to_std (c : ascii) : ascii :=
  if c == "-"%char then "+"%char else if c == "_"%char then "/"%char else c.
Definition of_std (c : ascii) : ascii :=
  if c == "+"%char then "-"%char else if c == "/"%char then "_"%char else c.
Definition base64std (s : bytes) : string := map_bytes to_std (base64url s).
Definition base64std_decode (s : string) : option bytes :=
  if free_of "-" s && free_of "_" s then base64url_decode (map_bytes of_std s) else None.

(** ** [fmt.Sscanf]

    What is left of the input after a literal; after the number of a [%d], with
    its value. Blanks before a number are skipped (the ASCII ones; [Sscanf]
    knows others), a line break is an error, and only a signed integer takes a
    sign. *)

Fixpoint scan_literal (lit s : string) : option string :=
  match lit, s with
  | EmptyString, _ => Some s
  | String c lit', String d s' => if c == d then scan_literal lit' s' else None
  | _, _ => None
  end.

Fixpoint skip_blanks (s : string) : option string :=
  match s with
  | String c s' =>
      if byte_of c =? 10 then None
      else if is_space c then skip_blanks s' else Some s
  | EmptyString => Some EmptyString
  end.

(** The longest run of digits, and the rest. *)
Fixpoint span_digits (s : string) : string * string :=
  match s with
  | String c s' => if is_digit c then let '(ds, rest) := span_digits s' in (String c ds, rest)
                   else (EmptyString, s)
  | EmptyString => (EmptyString, EmptyString)
  end.

(** A signed number, of an [int]; the digits after an optional sign. *)
Definition scan_int (s : string) : option (Z * string) :=
  match skip_blanks s with
  | None => None
  | Some s =>
      let '(sign, s) := match s with
                        | String c s' => if (c == "-"%char) || (c == "+"%char)
                                         then (String c EmptyString, s') else (EmptyString, s)
                        | EmptyString => (EmptyString, s)
                        end in
      let '(ds, rest) := span_digits s in
      if ds == "" then None
      else (fun n => (n, rest)) <$> ParseInt (String.append sign ds)
  end.

(** An unsigned number of so many bits. *)
Definition scan_uint (bits : Z) (s : string) : option (Z * string) :=
  match skip_blanks s with
  | None => None
  | Some s =>
      let '(ds, rest) := span_digits s in
      if ds == "" then None
      else match parse_digits 0 ds with
           | Some n => if n <? 2 ^ bits then Some (n, rest) else None
           | None => None
           end
  end.

(** [Sscanf(s, "v=%d", &version)] and [Sscanf(s, "m=%d,t=%d,p=%d", ...)] *)
Definition scan_version (s : string) : option Z :=
  match scan_literal "v=" s with
  | Some s => fst <$> scan_int s
  | None => None
  end.
Definition scan_params (s : string) : option (Z * Z * Z) :=
  match scan_literal "m=" s with None => None | Some s =>
  match scan_uint 32 s with None => None | Some (mem, s) =>
  match scan_literal ",t=" s with None => None | Some s =>
  match scan_uint 32 s with None => None | Some (time, s) =>
  match scan_literal ",p=" s with None => None | Some s =>
  match scan_uint 8 s with None => None | Some (threads, _) =>
  Some (mem, time, threads)
  end end end end end end.

(** ** Hashing *)

(** What a stored hash asks of a derivation. *)
Module Derivation.
Record t := mk { mem : Z; time : Z; threads : Z; salt : bytes; want : bytes }.
End Derivation.

Definition parse_hash (encoded : string) : result password_err Derivation.t :=
  match Split encoded "$" with
  | [_; alg; version; params; salt; want] =>
      if alg != "argon2id" then Err ErrInvalidHash
      else match scan_version version with
      | None => Err ErrInvalidHash
      | Some _ =>
      match scan_params params with
      | None => Err ErrInvalidHash
      | Some (mem, time, threads) =>
          if (maxArgonMemory <? mem) || (mem =? 0) || (threads =? 0) || (time =? 0)
          then Err ErrInvalidHash
          else match base64std_decode salt with
          | None => Err ErrInvalidHash
          | Some salt =>
          match base64std_decode want with
          | None => Err ErrInvalidHash
          | Some want => Ok (Derivation.mk mem time threads salt want)
          end end
      end end
  | _ => Err ErrInvalidHash
  end.

Section Hashing.
Context {A : Argon2}.

(** [salt] is what [rand.Read] fills in. *)
Definition HashPassword (password : string) (salt : bytes) : string :=
  let key := IDKey password salt argonTime argonMemory argonThreads argonKeyLen in
  Join [""; "argon2id"; String.append "v=" (FormatInt argonVersion);
        Join [String.append "m=" (FormatInt argonMemory); String.append "t=" (FormatInt argonTime);
              String.append "p=" (FormatInt argonThreads)] ",";
        base64std salt; base64std key] "$".

Definition VerifyPassword (password encoded : string) : result password_err bool :=
  let? d := parse_hash encoded in
  Ok (IDKey password (Derivation.salt d) (Derivation.time d) (Derivation.mem d)
        (Derivation.threads d) (slen (Derivation.want d)) == Derivation.want d).
End Hashing.

(** ** The policy *)

Definition MinPasswordLength : Z := 8.
Definition MaxPasswordLength : Z := 200.
Definition minCharacterClasses : Z := 2.

Inductive policy_err : Type := TooShort | TooLong | TooCommon | TooUniform.

(** The text of the error. *)
Definition policy_message (e : policy_err) : string :=
  String.append "weak password: "
    match e with
    | TooShort => Join ["use at least"; FormatInt MinPasswordLength; "characters"] " "
    | TooLong => Join ["must be at most"; FormatInt MaxPasswordLength; "characters"] " "
    | TooCommon => "this password is too common"
    | TooUniform => "mix letters with numbers or symbols"
    end.

Definition commonPasswords : list string :=
  ["password"; "password1"; "password123"; "passw0rd"; "12345678"; "123456789"; "1234567890";
   "12341234"; "qwerty123"; "qwertyuiop"; "1q2w3e4r"; "1qaz2wsx"; "iloveyou"; "admin123"; "welcome1";
   "welcome123"; "letmein1"; "abc12345"; "football"; "baseball"; "sunshine"; "princess"; "dragon123";
   "monkey123"; "trustno1"; "starwars"; "whatever"; "changeme"; "superman"; "michael1"; "11111111";
   "00000000"].

(** The classes of the runes of a string that is not all ASCII: [unicode.IsLower],
    [IsUpper], [IsDigit], none of them. *)
Class RuneClasses := { rune_classes : string → bool * bool * bool * bool }.
Definition ascii_classes : RuneClasses := {| rune_classes := fun _ => (false, false, false, true) |}.

Definition is_symbol (c : ascii) : bool := negb (is_lower c || is_upper c || is_digit c).
Fixpoint any_byte (p : ascii → bool) (s : string) : bool :=
  match s with String c s' => p c || any_byte p s' | EmptyString => false end.

Definition characterClasses {RC : RuneClasses} (pw : string) : Z :=
  let '(lower, upper, digit, symbol) :=
    if all_bytes is_ascii pw
    then (any_byte is_lower pw, any_byte is_upper pw, any_byte is_digit pw, any_byte is_symbol pw)
    else rune_classes pw in
  Z.b2z lower + Z.b2z upper + Z.b2z digit + Z.b2z symbol.

Definition ValidatePassword {U : Unicode} {RC : RuneClasses} (pw : string) : result policy_err unit :=
  if slen pw <? MinPasswordLength then Err TooShort
  else if MaxPasswordLength <? slen pw then Err TooLong
  else if bool_decide (ToLower pw ∈ commonPasswords) then Err TooCommon
  else if characterClasses pw <? minCharacterClasses then Err TooUniform
  else Ok tt.

(** ** Lemmas: the parts of a hash *)

Lemma Split_free sep s : free_of sep s = true → Split s sep = [s].
Proof.
  unfold free_of. induction s as [|c s IH]; cbn [Split all_bytes]; [done|].
  intros [Hc%negb_true_iff Hs]%andb_true_iff. by rewrite Hc, (IH Hs).
Qed.

Lemma Split_append sep s t :
  free_of sep s = true → Split (String.append s (String sep t)) sep = s :: Split t sep.
Proof.
  unfold free_of. induction s as [|c s IH]; cbn [Split all_bytes String.append].
  { intros _. by rewrite bool_decide_true. }
  intros [Hc%negb_true_iff Hs]%andb_true_iff. by rewrite Hc, (IH Hs).
Qed.

(** Parts without the separator come back from their join. *)
Lemma Split_Join sep l :
  l ≠ [] → Forall (fun s => free_of sep s = true) l → Split (Join l (String sep "")) sep = l.
Proof.
  induction l as [|s [|s' l] IH]; [done|..]; intros _ Hl; apply Forall_cons in Hl as [Hs Hl].
  - by apply Split_free.
  - change (Join (s :: s' :: l) (String sep "")) with
      (String.append s (String sep (Join (s' :: l) (String sep "")))).
    rewrite Split_append by done. f_equal. by apply IH.
Qed.

Lemma std_alphabet c : b64_alphabet c = true → of_std (to_std c) = c.
Proof. destruct c as [[] [] [] [] [] [] [] []]; vm_compute; done. Qed.

Lemma std_no_url c : b64_alphabet c = true → to_std c ≠ "-"%char ∧ to_std c ≠ "_"%char ∧ to_std c ≠ "$"%char.
Proof. destruct c as [[] [] [] [] [] [] [] []]; vm_compute; done. Qed.

Lemma map_std_back s : all_bytes b64_alphabet s = true → map_bytes of_std (map_bytes to_std s) = s.
Proof.
  induction s as [|c s IH]; cbn [all_bytes map_bytes]; [done|]. intros [Hc Hs]%andb_true_iff.
  by rewrite (std_alphabet c Hc), (IH Hs).
Qed.

Lemma base64std_free_of sep s :
  sep = "-"%char ∨ sep = "_"%char ∨ sep = "$"%char → free_of sep (base64std s) = true.
Proof.
  intros Hsep. unfold base64std, free_of. pose proof (base64url_alphabet s) as Ha. revert Ha.
  generalize (base64url s). induction s0 as [|c s' IH]; cbn [map_bytes all_bytes]; [done|].
  intros [Hc Hs]%andb_true_iff. apply andb_true_iff. split; [|by apply IH].
  apply negb_true_iff, bool_decide_eq_false. destruct (std_no_url c Hc) as (?&?&?). naive_solver.
Qed.

Lemma base64std_roundtrip s : base64std_decode (base64std s) = Some s.
Proof.
  unfold base64std_decode. rewrite !base64std_free_of by auto. cbn [andb].
  unfold base64std. rewrite map_std_back by apply base64url_alphabet. apply base64url_roundtrip.
Qed.

(** C39. A password verifies against its own hash, whatever the salt; and
    another password verifies against it only if it derives the same key. *)
Theorem VerifyPassword_HashPassword {A : Argon2} pw pw' salt :
  VerifyPassword pw (HashPassword pw salt) = Ok true ∧
  (VerifyPassword pw' (HashPassword pw salt) = Ok true ↔
   IDKey pw' salt argonTime argonMemory argonThreads argonKeyLen =
   IDKey pw salt argonTime argonMemory argonThreads argonKeyLen).
Proof.
  assert (∀ pw0, VerifyPassword pw0 (HashPassword pw salt) =
    Ok (IDKey pw0 salt argonTime argonMemory argonThreads argonKeyLen ==
        IDKey pw salt argonTime argonMemory argonThreads argonKeyLen)) as H.
  { intros pw0. unfold VerifyPassword, parse_hash, HashPassword. rewrite Split_Join; [|done|].
    - change ("argon2id" != "argon2id") with false.
      change (scan_version (String.append "v=" (FormatInt argonVersion))) with (Some 19).
      change (scan_params (Join [String.append "m=" (FormatInt argonMemory);
        String.append "t=" (FormatInt argonTime); String.append "p=" (FormatInt argonThreads)] ","))
        with (Some (65536, 1, 4)).
      rewrite !base64std_roundtrip. change (maxArgonMemory <? 65536) with false. cbn -[slen IDKey]. by rewrite IDKey_length.
    - repeat constructor; try (apply base64std_free_of; auto). }
  rewrite !H. split; [by rewrite bool_decide_true|].
  split; [by intros [= ?%bool_decide_eq_true] | intros ->; by rewrite bool_decide_true].
Qed.

Lemma scan_uint_range bits s n rest : scan_uint bits s = Some (n, rest) → n < 2 ^ bits.
Proof.
  unfold scan_uint. destruct (skip_blanks s) as [s'|]; [|done]. destruct (span_digits s') as [ds r].
  destruct (ds == ""); [done|]. destruct (parse_digits 0 ds) as [k|]; [|done].
  destruct (Z.ltb_spec k (2 ^ bits)); [|done]. by intros [= <- <-].
Qed.

Lemma parse_digits_nonneg acc s n : 0 ≤ acc → parse_digits acc s = Some n → 0 ≤ n.
Proof.
  revert acc. induction s as [|c s IH]; intros acc Ha; cbn [parse_digits]; [by intros [= <-]|].
  destruct (is_digit c) eqn:Hc; [|done]. apply IH. unfold is_digit in Hc.
  apply andb_true_iff in Hc as [Hc%Z.leb_le _]. lia.
Qed.

Lemma scan_uint_nonneg bits s n rest : scan_uint bits s = Some (n, rest) → 0 ≤ n.
Proof.
  unfold scan_uint. destruct (skip_blanks s) as [s'|]; [|done]. destruct (span_digits s') as [ds r].
  destruct (ds == ""); [done|]. destruct (parse_digits 0 ds) as [k|] eqn:E; [|done].
  destruct (k <? 2 ^ bits); [|done]. intros [= <- <-]. by eapply parse_digits_nonneg.
Qed.

(** No stored hash makes a login allocate without bound: whatever the
    stored string is, a derivation it asks for uses at most [maxArgonMemory]
    KiB, and parameters the derivation accepts. *)
Theorem parse_hash_bounded encoded d :
  parse_hash encoded = Ok d →
  0 < Derivation.mem d ≤ maxArgonMemory ∧ 0 < Derivation.time d < 2 ^ 32 ∧
  0 < Derivation.threads d < 2 ^ 8.
Proof.
  unfold parse_hash. destruct (Split encoded "$") as [|a [|b [|c [|p [|s [|w [|]]]]]]]; try done.
  destruct (b != "argon2id"); [done|]. destruct (scan_version c); [|done].
  destruct (scan_params p) as [[[mem t] th]|] eqn:Ep; [|done].
  destruct (_ || _ || _ || _) eqn:Eb; [done|].
  destruct (base64std_decode s); [|done]. destruct (base64std_decode w); [|done]. intros [= <-]. cbn.
  repeat rewrite orb_false_iff in Eb. destruct Eb as [[[H1%Z.ltb_ge H2%Z.eqb_neq] H3%Z.eqb_neq] H4%Z.eqb_neq].
  unfold scan_params in Ep. repeat case_match; try done. injection Ep as -> -> ->.
  repeat match goal with H : scan_uint _ _ = Some _ |- _ =>
    pose proof (scan_uint_range _ _ _ _ H); apply scan_uint_nonneg in H end.
  lia.
Qed.

(** ** Witnesses *)

Lemma parse_hash_bounded_witness :
  ∃ d, parse_hash "$argon2id$v=19$m=65536,t=1,p=4$c2FsdA$a2V5" = Ok d ∧ Derivation.mem d ≤ maxArgonMemory.
Proof.
  eexists. match goal with |- ?P ∧ _ => assert P as H by (vm_compute; reflexivity) end. split; [exact H|].
  exact (proj2 (proj1 (parse_hash_bounded _ _ H))).
Defined.

Example parse_hash_refuses_16_TiB : parse_hash "$argon2id$v=19$m=17179869184,t=1,p=4$c2FsdA$a2V5" = Err ErrInvalidHash.
Proof. vm_compute. reflexivity. Qed.
