(* ===== verification/MlsChain.v ===== *)
(** * Package mlschain: the signed ordering chain of a federated group

    [api/internal/mlschain/mlschain.go]: each accepted commit of a
    conversation gets a link that binds its position to its content, so that a
    follower notices a hub that reorders, drops or forks the log. *)

From Stdlib Require Import Ascii.
From S2P Require Import Prelude.
From S2P Require Import GoStrings.
From S2P Require Import Domain.
From S2P Require Import Crypto.

Definition scheme : bytes := "pheme-mlschain-v1".

(** What [writeField] writes: the length in eight bytes, then the field. *)
Definition writeField (b : bytes) : bytes := String.append (be_bytes 8 (slen b)) b.

(** The bytes [Link] feeds to the hash, in order. *)
Definition link_input (prevHash : bytes) (seq : Z) (groupID : string) (commit : bytes) : bytes :=
  String.append (writeField scheme)
    (String.append (writeField prevHash)
      (String.append (be_bytes 8 (uint64 seq))
        (String.append (writeField groupID) (writeField commit)))).

Definition Link (prevHash : bytes) (seq : Z) (groupID : string) (commit : bytes) : bytes :=
  sha256 (link_input prevHash seq groupID commit).

Section Signing.
Context {E : Ed25519}.

Definition Sign (key hash : bytes) : bytes := ed_sign key hash.

Definition Verify (hubKey hash sig : bytes) : bool :=
  if negb (slen hubKey =? PublicKeySize) || negb (slen sig =? SignatureSize) then false
  else ed_verify hubKey hash sig.

(** A hub's own signature over a link verifies. *)
Lemma chain_Verify_Sign key hash : Verify (ed_public key) hash (Sign key hash) = true.
Proof. unfold Verify, Sign. rewrite ed_public_size, ed_sign_size; simpl. apply ed_verify_sign. Qed.

(** A missing or short signature is never valid. *)
Lemma Verify_size hubKey hash sig :
  Verify hubKey hash sig = true → slen hubKey = 32 ∧ slen sig = 64.
Proof. unfold Verify. case_match eqn:H; [done|]. bool_hyps. by rewrite !Z.eqb_eq in *. Qed.
End Signing.

(** ** The encoding is unambiguous *)

(** Go lengths are below 2^63. *)
Definition go_len (b : bytes) : Prop := slen b < two63.

Lemma be8_range : 256 ^ Z.of_nat 8 = 18446744073709551616.
Proof. reflexivity. Qed.

Lemma go_len_range b : go_len b → 0 ≤ slen b < 256 ^ Z.of_nat 8.
Proof. rewrite be8_range. unfold go_len, two63, slen. lia. Qed.

Lemma writeField_inj a b c d :
  go_len a → go_len c →
  String.append (writeField a) b = String.append (writeField c) d → a = c ∧ b = d.
Proof.
  intros Ha Hc. unfold writeField. rewrite !append_assoc. intros H.
  apply append_inj_same_length in H as [Hl H]; [|by rewrite !be_bytes_length].
  assert (slen a = slen c) as Hlen.
  { apply (be_bytes_inj 8); [by apply go_len_range..|exact Hl]. }
  apply append_inj_same_length in H; [done|]. unfold slen in Hlen. lia.
Qed.

Lemma uint64_inj x y : - two63 ≤ x < two63 → - two63 ≤ y < two63 → uint64 x = uint64 y → x = y.
Proof.
  unfold uint64, two63, two64. intros Hx Hy H.
  pose proof (Z.div_mod x (2 ^ 64)). pose proof (Z.div_mod y (2 ^ 64)).
  assert (2 ^ 64 = 2 * 2 ^ 63) by done. nia.
Qed.

Lemma link_input_inj p1 s1 g1 c1 p2 s2 g2 c2 :
  go_len p1 → go_len p2 → go_len g1 → go_len g2 → go_len c1 → go_len c2 →
  - two63 ≤ s1 < two63 → - two63 ≤ s2 < two63 →
  link_input p1 s1 g1 c1 = link_input p2 s2 g2 c2 →
  p1 = p2 ∧ s1 = s2 ∧ g1 = g2 ∧ c1 = c2.
Proof.
  intros Hp1 Hp2 Hg1 Hg2 Hc1 Hc2 Hs1 Hs2. unfold link_input. intros H.
  apply writeField_inj in H as [_ H]; [|by vm_compute..].
  apply writeField_inj in H as [-> H]; [|done..].
  apply append_inj_same_length in H as [Hs H]; [|by rewrite !be_bytes_length].
  apply writeField_inj in H as [-> H]; [|done..].
  split; [done|]. split.
  - apply uint64_inj; [done..|]. apply (be_bytes_inj 8); [| |exact Hs];
      rewrite be8_range; by apply (Z.mod_pos_bound _ two64).
  - split; [done|]. rewrite <- (append_nil_r (writeField c1)), <- (append_nil_r (writeField c2)) in H.
    by apply writeField_inj in H as [-> _].
Qed.

(** Two commits get the same link only if they agree on the previous
    link, the position, the group and the content, or the two hash inputs are
    a collision of SHA-256, exhibited. *)
Theorem Link_binding p1 s1 g1 c1 p2 s2 g2 c2 :
  go_len p1 → go_len p2 → go_len g1 → go_len g2 → go_len c1 → go_len c2 →
  - two63 ≤ s1 < two63 → - two63 ≤ s2 < two63 →
  Link p1 s1 g1 c1 = Link p2 s2 g2 c2 →
  (p1 = p2 ∧ s1 = s2 ∧ g1 = g2 ∧ c1 = c2) ∨
  (link_input p1 s1 g1 c1 ≠ link_input p2 s2 g2 c2 ∧
   sha256 (link_input p1 s1 g1 c1) = sha256 (link_input p2 s2 g2 c2)).
Proof.
  intros ???????? H.
  destruct (decide (link_input p1 s1 g1 c1 = link_input p2 s2 g2 c2)) as [Heq|Hne]; [left|by right].
  by apply link_input_inj in Heq.
Qed.

(** ** The chain

    The head of a log of commits, each at the epoch after the one before. *)

Record entry := mk_entry { en_group : string; en_commit : bytes }.

Fixpoint chain (prev : bytes) (epoch : Z) (log : list entry) : bytes :=
  match log with
  | [] => prev
  | e :: log' => chain (Link prev (epoch + 1) (en_group e) (en_commit e)) (epoch + 1) log'
  end.

(** Every link of the two logs, as hash inputs. *)
Fixpoint inputs (prev : bytes) (epoch : Z) (log : list entry) : list bytes :=
  match log with
  | [] => []
  | e :: log' =>
      link_input prev (epoch + 1) (en_group e) (en_commit e)
      :: inputs (Link prev (epoch + 1) (en_group e) (en_commit e)) (epoch + 1) log'
  end.

Definition entry_ok (e : entry) : Prop := go_len (en_group e) ∧ go_len (en_commit e).

Lemma chain_snoc prev epoch log e :
  chain prev epoch (log ++ [e]) =
  Link (chain prev epoch log) (epoch + Z.of_nat (length log) + 1) (en_group e) (en_commit e).
Proof.
  revert prev epoch. induction log as [|x log IH]; intros prev epoch; simpl; [by rewrite Z.add_0_r|].
  rewrite IH. f_equal. lia.
Qed.

Lemma inputs_snoc prev epoch log e :
  inputs prev epoch (log ++ [e]) =
  inputs prev epoch log ++
    [link_input (chain prev epoch log) (epoch + Z.of_nat (length log) + 1) (en_group e) (en_commit e)].
Proof.
  revert prev epoch. induction log as [|x log IH]; intros prev epoch; simpl; [by rewrite Z.add_0_r|].
  rewrite IH. do 4 f_equal. lia.
Qed.

Lemma Link_length p s g c : slen (Link p s g c) = 32.
Proof. apply sha256_length. Qed.

Lemma chain_go_len prev epoch log : go_len prev → go_len (chain prev epoch log).
Proof.
  intros Hp. destruct log as [|e log] using rev_ind; [done|].
  rewrite chain_snoc. unfold go_len. by rewrite Link_length.
Qed.

(** Fork detection: two logs of the same length that start from the same
    head and epoch and end in the same head are the same log, or among their
    links there is a collision of SHA-256. *)
Theorem chain_fork_evident prev epoch log1 log2 :
  go_len prev → 0 ≤ epoch → epoch + Z.of_nat (length log1) < two63 →
  Forall entry_ok log1 → Forall entry_ok log2 →
  length log1 = length log2 →
  chain prev epoch log1 = chain prev epoch log2 →
  log1 = log2 ∨
  ∃ x y, x ∈ inputs prev epoch log1 ∧ y ∈ inputs prev epoch log2 ∧ x ≠ y ∧ sha256 x = sha256 y.
Proof.
  intros Hp He Hb H1 H2 Hlen. revert log2 H1 H2 Hlen Hb.
  induction log1 as [|e1 log1 IH] using rev_ind; intros log2 H1 H2 Hlen Hb Hc.
  { left. by destruct log2. }
  destruct log2 as [|e2 log2 _] using rev_ind; [rewrite length_app in Hlen; simpl in Hlen; lia|].
  rewrite !length_app in *. simpl in *.
  apply Forall_app in H1 as [H1 [[Hg1 Hc1] _]%Forall_cons].
  apply Forall_app in H2 as [H2 [[Hg2 Hc2] _]%Forall_cons].
  rewrite !chain_snoc in Hc. rewrite !inputs_snoc.
  assert (length log2 = length log1) as Hl by lia. rewrite Hl in Hc |- *.
  apply Link_binding in Hc; auto using chain_go_len; try (unfold two63 in *; lia).
  destruct Hc as [(Hch & _ & Hg & Hcm) | [Hne Hsha]].
  - destruct (IH log2 H1 H2 ltac:(lia) ltac:(lia) Hch) as [-> | (x & y & Hx & Hy & Hxy)].
    + left. do 2 f_equal. destruct e1, e2; simpl in *; congruence.
    + right. exists x, y. rewrite !elem_of_app. auto.
  - right. do 2 eexists. rewrite !elem_of_app, !list_elem_of_singleton. split_and!; eauto.
Qed.

Lemma short_len (b : bytes) : (slen b <? 100) = true → go_len b.
Proof. rewrite Z.ltb_lt. unfold go_len, two63. lia. Qed.

Lemma Link_binding_witness :
  Link "" 1 "g" "c" = Link "" 1 "g" "c" ∧
  (("" : bytes) = "" ∧ 1 = 1 ∧ "g" = "g" ∧ ("c" : bytes) = "c" ∨
   link_input "" 1 "g" "c" ≠ link_input "" 1 "g" "c" ∧
   sha256 (link_input "" 1 "g" "c") = sha256 (link_input "" 1 "g" "c")).
Proof.
  split; [reflexivity|].
  apply (Link_binding "" 1 "g" "c" "" 1 "g" "c");
    [apply short_len; reflexivity.. | unfold two63; lia | unfold two63; lia | reflexivity].
Defined.

Lemma chain_fork_evident_witness :
  let log := [mk_entry "g" "c1"; mk_entry "g" "c2"] in
  log = log ∨
  ∃ x y, x ∈ inputs "" 0 log ∧ y ∈ inputs "" 0 log ∧ x ≠ y ∧ sha256 x = sha256 y.
Proof.
  intros log.
  assert (Forall entry_ok log) as H by (repeat constructor; apply short_len; reflexivity).
  exact (chain_fork_evident "" 0 log log (short_len "" eq_refl) (Z.le_refl 0) eq_refl
           H H eq_refl eq_refl).
Defined.
