(* ===== verification/MlsWire.v ===== *)
(** * Package mlswire: the clear part of a handshake

    [api/internal/mlswire/mlswire.go]: a cursor over the bytes of an MLS
    message, and the decoder that reaches the group id, the epoch and the
    content type of a PublicMessage. The bytes come from a client: the theorem
    says what the decoder accepts, exactly, and that no input makes it index
    out of range. *)

From Stdlib Require Import Ascii.
From S2P Require Import Prelude.
From S2P Require Import GoStrings.
From S2P Require Import Domain.
From S2P Require Import Crypto.

Definition wireFormatPublicMessage : Z := 1.
Definition wireFormatPrivateMessage : Z := 2.
Definition ContentTypeApplication : Z := 1.
Definition ContentTypeProposal : Z := 2.
Definition ContentTypeCommit : Z := 3.

Inductive wire_err : Type :=
| ErrNotPublic
| ErrTruncated
| ErrMalformed.

Module Handshake.
Record t := mk { GroupID : bytes; Epoch : Z; ContentType : Z }.
End Handshake.

(** [reader] *)
Record reader := mk_reader { rd_b : bytes; rd_i : Z }.

(** What a method of the cursor does: return and move, fail, or panic on an
    index out of range. *)
Inductive outcome (A : Type) : Type :=
| Ret (a : A) (r : reader)
| Fail_ (e : wire_err)
| Panic.
Arguments Ret {A} a r.
Arguments Fail_ {A} e.
Arguments Panic {A}.

Definition decoder (A : Type) : Type := reader → outcome A.
Definition ret {A} (a : A) : decoder A := fun r => Ret a r.
Definition fail {A} (e : wire_err) : decoder A := fun _ => Fail_ e.
Definition bind {A C} (d : decoder A) (k : A → decoder C) : decoder C := fun r =>
  match d r with Ret a r => k a r | Fail_ e => Fail_ e | Panic => Panic end.
Notation "'let!' x := d 'in' k" := (bind d (fun x => k))
  (at level 10, x pattern, d at level 200, k at level 200) : go_scope.

(** ** The cursor *)

Definition need (r : reader) (n : Z) : option wire_err :=
  if slen (rd_b r) <? wrap64 (rd_i r + n) then Some ErrTruncated else None.

(** The next [n] bytes: the check, the slice expression, the advance. *)
Definition next (n : Z) : decoder bytes := fun r =>
  match need r n with
  | Some e => Fail_ e
  | None =>
      match string_slice (rd_b r) (rd_i r) (wrap64 (rd_i r + n)) with
      | None => Panic
      | Some out => Ret out (mk_reader (rd_b r) (wrap64 (rd_i r + n)))
      end
  end.

Definition u8 : decoder Z := let! b := next 1 in ret (be_value b).
Definition u16 : decoder Z := let! b := next 2 in ret (be_value b).
Definition u32 : decoder Z := let! b := next 4 in ret (be_value b).
Definition u64 : decoder Z := let! b := next 8 in ret (be_value b).

(** The loop of [varint] over the [extra] bytes. *)
Fixpoint varint_loop (extra : nat) (value : Z) : decoder Z :=
  match extra with
  | O => ret value
  | S extra =>
      let! b := u8 in varint_loop extra (uint64 (Z.lor (Z.shiftl value 8) b))
  end.

Definition varint_extra (prefix : Z) : nat :=
  if prefix =? 1 then 1 else if prefix =? 2 then 3 else if prefix =? 3 then 7 else 0.

Definition varint : decoder Z :=
  let! first := u8 in
  varint_loop (varint_extra (Z.shiftr first 6)) (Z.land first 63).

Definition vec : decoder bytes :=
  let! n := varint in next (wrap64 n).

Definition skipSender : decoder unit :=
  let! st := u8 in
  if (st =? 1) || (st =? 2) then (let! _ := u32 in ret tt)
  else if (st =? 3) || (st =? 4) then ret tt
  else fail ErrMalformed.

(** The switch on the wire format. *)
Definition check_format (wf : Z) : decoder unit :=
  if wf =? wireFormatPublicMessage then ret tt
  else if wf =? wireFormatPrivateMessage then fail ErrNotPublic
  else fail ErrMalformed.

Definition parse_handshake : decoder Handshake.t :=
  let! _ := u16 in
  let! wf := u16 in
  let! _ := check_format wf in
  let! groupID := vec in
  let! epoch := u64 in
  let! _ := skipSender in
  let! _ := vec in
  let! ct := u8 in
  ret (Handshake.mk groupID epoch ct).

Definition ParseHandshake (msg : bytes) : outcome Handshake.t := parse_handshake (mk_reader msg 0).

(** ** The grammar

    The layout of RFC 9420 the package comments quote, as relations between a
    value and the bytes that carry it. *)

(** A number in [k] bytes, most significant first. *)
Definition uint_bytes (k : nat) (n : Z) (p : bytes) : Prop := String.length p = k ∧ be_value p = n.

(** A length: the two top bits of its first byte give the number of bytes. *)
Definition varint_bytes (n : Z) (p : bytes) : Prop :=
  ∃ prefix extra : nat, (prefix, extra) ∈ [(0, 0); (1, 1); (2, 3); (3, 7)]%nat ∧
    String.length p = S extra ∧
    0 ≤ n < 64 * 256 ^ Z.of_nat extra ∧
    be_value p = Z.of_nat prefix * (64 * 256 ^ Z.of_nat extra) + n.

Definition vec_bytes (v : bytes) (p : bytes) : Prop :=
  ∃ len, varint_bytes (slen v) len ∧ p = String.append len v.

Definition sender_bytes (p : bytes) : Prop :=
  (∃ c idx, (byte_of c = 1 ∨ byte_of c = 2) ∧ String.length idx = 4%nat ∧ p = String c idx) ∨
  (∃ c, (byte_of c = 3 ∨ byte_of c = 4) ∧ p = String c "").

(** A PublicMessage that frames the handshake [h], and whatever follows. *)
Definition handshake_bytes (h : Handshake.t) (msg : bytes) : Prop :=
  ∃ version format gid epoch sender aad ct rest,
    String.length version = 2%nat ∧ uint_bytes 2 wireFormatPublicMessage format ∧
    vec_bytes (Handshake.GroupID h) gid ∧ uint_bytes 8 (Handshake.Epoch h) epoch ∧
    sender_bytes sender ∧ (∃ a, vec_bytes a aad) ∧ uint_bytes 1 (Handshake.ContentType h) ct ∧
    msg = String.append version (String.append format (String.append gid (String.append epoch
            (String.append sender (String.append aad (String.append ct rest)))))).

(** ** Decoding, compositionally

    [decodes d G]: on every position of every message short of 2^62 bytes, the
    decoder [d] never panics, reads what the grammar [G] describes whenever it
    is there, and returns only what [G] describes. *)

Definition short (b : bytes) : Prop := slen b < 2 ^ 62.

Definition at_ (r : reader) (rest : bytes) : Prop :=
  short (rd_b r) ∧ ∃ pre, rd_b r = String.append pre rest ∧ rd_i r = slen pre.

Record decodes {A} (d : decoder A) (G : A → bytes → Prop) : Prop := {
  dec_safe r rest : at_ r rest → d r ≠ Panic;
  dec_complete r a p s : at_ r (String.append p s) → G a p → ∃ r', d r = Ret a r' ∧ at_ r' s;
  dec_sound r rest a r' : at_ r rest → d r = Ret a r' →
    ∃ p s, rest = String.append p s ∧ G a p ∧ at_ r' s
}.

Lemma decodes_ret {A} (a : A) : decodes (ret a) (fun x p => x = a ∧ p = "").
Proof.
  split; unfold ret; [done | |].
  - intros r x p s Hr [-> ->]. by exists r.
  - intros r rest x r' Hr [= <- <-]. by exists "", rest.
Qed.

Lemma decodes_fail {A} e : decodes (A := A) (fail e) (fun _ _ => False).
Proof. by split. Qed.

Lemma decodes_bind {A C} (d : decoder A) (k : A → decoder C) G H :
  decodes d G → (∀ a p, G a p → decodes (k a) (H a)) →
  decodes (bind d k) (fun c p => ∃ a p1 p2, p = String.append p1 p2 ∧ G a p1 ∧ H a c p2).
Proof.
  intros Hd Hk. split; unfold bind.
  - intros r rest Hr. pose proof (dec_safe _ _ Hd r rest Hr) as Hs.
    destruct (d r) as [a r'|e|] eqn:E; [|done..].
    destruct (dec_sound _ _ Hd _ _ _ _ Hr E) as (p & s & _ & HG & Hr').
    exact (dec_safe _ _ (Hk a p HG) r' s Hr').
  - intros r c p s Hr (a & p1 & p2 & -> & HG & HH). rewrite append_assoc in Hr.
    destruct (dec_complete _ _ Hd _ _ _ _ Hr HG) as (r1 & -> & Hr1).
    exact (dec_complete _ _ (Hk a p1 HG) _ _ _ _ Hr1 HH).
  - intros r rest c r' Hr. destruct (d r) as [a r1|e|] eqn:E; [|done..]. intros Ek.
    destruct (dec_sound _ _ Hd _ _ _ _ Hr E) as (p1 & s1 & -> & HG & Hr1).
    destruct (dec_sound _ _ (Hk a p1 HG) _ _ _ _ Hr1 Ek) as (p2 & s2 & -> & HH & Hr2).
    exists (String.append p1 p2), s2. rewrite append_assoc. split; [done|]. split; [|done].
    by exists a, p1, p2.
Qed.

Lemma decodes_iff {A} (d : decoder A) G H :
  (∀ a p, G a p ↔ H a p) → decodes d G → decodes d H.
Proof.
  intros HGH [Hs Hc Hd]. split; [exact Hs | |].
  - intros r a p s Hr Hp%HGH. by eapply Hc.
  - intros r rest a r' Hr E. destruct (Hd _ _ _ _ Hr E) as (p & s & -> & Hp%HGH & Hr').
    by exists p, s.
Qed.

(** [bind] of a decoder with a fixed continuation value. *)
Lemma decodes_map {A C} (d : decoder A) (f : A → C) G :
  decodes d G → decodes (let! a := d in ret (f a)) (fun c p => ∃ a, c = f a ∧ G a p).
Proof.
  intros Hd. eapply decodes_iff; [|apply (decodes_bind d (fun a => ret (f a)) G
    (fun a c p => c = f a ∧ p = "") Hd); intros a p _; apply decodes_ret].
  intros c p. cbn. split.
  - intros (a & p1 & p2 & -> & HG & -> & ->). rewrite append_nil_r. by exists a.
  - intros (a & -> & HG). exists a, p, "". rewrite append_nil_r. done.
Qed.

Lemma slen_length p n : slen p = Z.of_nat n ↔ String.length p = n.
Proof. unfold slen. lia. Qed.

Lemma at_advance r p s :
  at_ r (String.append p s) → at_ (mk_reader (rd_b r) (rd_i r + slen p)) s.
Proof.
  intros (Hs & pre & Hb & Hi). split; [exact Hs|]. exists (String.append pre p). cbn.
  rewrite append_assoc, slen_app, Hi. done.
Qed.

Lemma at_bounds r rest : at_ r rest → 0 ≤ rd_i r ∧ rd_i r + slen rest = slen (rd_b r) ∧ slen (rd_b r) < 2 ^ 62.
Proof.
  intros (Hs & pre & Hb & Hi). rewrite Hb, slen_app, Hi. rewrite Hb in Hs.
  unfold short in Hs. rewrite slen_app in Hs. pose proof (slen_nonneg pre). lia.
Qed.

(** Reading [n] bytes: the length check is exactly what keeps the slice in
    range, for any length a varint can announce. *)
Lemma decodes_next (n : Z) : 0 ≤ n < 2 ^ 62 → decodes (next n) (fun v p => v = p ∧ slen p = n).
Proof.
  intros Hn.
  assert (∀ r rest, at_ r rest → wrap64 (rd_i r + n) = rd_i r + n) as Hw.
  { intros r rest Hr%at_bounds. pose proof (slen_nonneg rest). apply wrap64_id. unfold two63. lia. }
  assert (∀ r p s, at_ r (String.append p s) → slen p = n →
    next n r = Ret p (mk_reader (rd_b r) (rd_i r + slen p))) as Hok.
  { intros r p s Hr Hp. unfold next, need. rewrite (Hw _ _ Hr).
    pose proof (at_bounds _ _ Hr) as (Hi & Hl & _). rewrite slen_app in Hl.
    pose proof (slen_nonneg s). rewrite (proj2 (Z.ltb_ge _ _)) by lia.
    destruct Hr as (_ & pre & Hb & Hpre). rewrite Hb, Hpre, <- Hp, string_slice_middle. done. }
  assert (∀ r rest, at_ r rest → slen rest < n → next n r = Fail_ ErrTruncated) as Hbad.
  { intros r rest Hr Hlt. unfold next, need. rewrite (Hw _ _ Hr).
    pose proof (at_bounds _ _ Hr) as (Hi & Hl & _). by rewrite (proj2 (Z.ltb_lt _ _)) by lia. }
  assert (∀ rest, n ≤ slen rest → ∃ p s, rest = String.append p s ∧ slen p = n) as Hsplit.
  { intros rest Hle. exists (string_take (Z.to_nat n) rest), (string_drop (Z.to_nat n) rest).
    rewrite string_take_drop. split; [done|]. unfold slen in *. rewrite length_string_take; lia. }
  split.
  - intros r rest Hr. destruct (Z.le_gt_cases n (slen rest)) as [Hle|Hlt].
    + destruct (Hsplit rest Hle) as (p & s & -> & Hp). by rewrite (Hok r p s).
    + by rewrite (Hbad r rest) by (done || lia).
  - intros r a p s Hr [-> Hp]. rewrite (Hok r p s) by done. eexists. split; [done|].
    by apply at_advance.
  - intros r rest a r' Hr. destruct (Z.le_gt_cases n (slen rest)) as [Hle|Hlt].
    + destruct (Hsplit rest Hle) as (p & s & -> & Hp). rewrite (Hok r p s) by done.
      intros [= <- <-]. exists p, s. split_and!; try done. by apply at_advance.
    + by rewrite (Hbad r rest) by (done || lia).
Qed.

Lemma decodes_uint (k : nat) :
  Z.of_nat k < 2 ^ 62 →
  decodes (let! b := next (Z.of_nat k) in ret (be_value b)) (uint_bytes k).
Proof.
  intros Hk. eapply decodes_iff; [|apply decodes_map, decodes_next; lia].
  intros n p. unfold uint_bytes. cbn. split.
  - intros (a & -> & -> & Hl%slen_length). done.
  - intros [Hl%slen_length <-]. by exists p.
Qed.

Lemma decodes_u8 : decodes u8 (uint_bytes 1).
Proof. by apply (decodes_uint 1). Qed.

Lemma be_value_from_app acc s t : be_value_from acc (String.append s t) = be_value_from (be_value_from acc s) t.
Proof. revert acc. induction s as [|c s IH]; intros acc; cbn; [done|]. apply IH. Qed.

Lemma be_value_from_acc acc s : be_value_from acc s = acc * 256 ^ slen s + be_value s.
Proof.
  unfold be_value. revert acc. induction s as [|c s IH]; intros acc.
  { change (slen "") with 0. cbn [be_value_from]. lia. }
  cbn [be_value_from]. rewrite IH, (IH (0 * 256 + byte_of c)).
  replace (slen (String c s)) with (slen s + 1) by (unfold slen; cbn [String.length]; lia).
  rewrite Z.pow_add_r by (apply slen_nonneg || lia). lia.
Qed.

Lemma be_value_range s : 0 ≤ be_value s < 256 ^ slen s.
Proof.
  induction s as [|c s IH]; [change (slen "") with 0; change (be_value "") with 0; lia|].
  unfold be_value. cbn [be_value_from]. rewrite be_value_from_acc.
  replace (slen (String c s)) with (slen s + 1) by (unfold slen; cbn [String.length]; lia).
  rewrite Z.pow_add_r by (apply slen_nonneg || lia). pose proof (byte_of_range c). nia.
Qed.

(** One byte of the loop: shifting in a byte is base 256. *)
Lemma shift_in v b : 0 ≤ v → v * 256 < two64 - 256 → 0 ≤ b < 256 →
  uint64 (Z.lor (Z.shiftl v 8) b) = v * 256 + b.
Proof.
  intros Hv Hm Hb. rewrite Z.shiftl_mul_pow2 by lia.
  assert (Z.lor (v * 2 ^ 8) b = v * 2 ^ 8 + b) as ->.
  { assert (Z.land (v * 2 ^ 8) b = 0) as Hl.
    { apply Z.bits_inj'. intros n Hn. rewrite Z.land_spec, Z.bits_0.
      destruct (Z.lt_ge_cases n 8) as [H8|H8]; [by rewrite Z.mul_pow2_bits_low|].
      rewrite <- (Z.mod_small b (2 ^ 8)) by lia. rewrite Z.mod_pow2_bits_high by lia.
      apply andb_false_r. }
    rewrite <- Z.lxor_lor, <- Z.add_nocarry_lxor by done. done. }
  rewrite uint64_id; lia.
Qed.

Lemma decodes_varint_loop (extra : nat) v :
  0 ≤ v → (v + 1) * 256 ^ Z.of_nat extra ≤ 2 ^ 62 →
  decodes (varint_loop extra v) (fun n p => String.length p = extra ∧ n = be_value_from v p).
Proof.
  revert v. induction extra as [|extra IH]; intros v Hv Hb.
  - eapply decodes_iff; [|apply decodes_ret]. intros n p. cbn. split.
    + by intros [-> ->].
    + intros [Hl ->]. by destruct p.
  - cbn [varint_loop]. rewrite Nat2Z.inj_succ, Z.pow_succ_r in Hb by lia.
    assert (1 ≤ 256 ^ Z.of_nat extra) as Hpow by (apply (Z.pow_le_mono_r 256 0); lia).
    eapply decodes_iff; [|eapply (decodes_bind u8 _ _
      (fun b n p => String.length p = extra ∧ n = be_value_from (v * 256 + b) p) decodes_u8)].
    + intros n p. split.
      * intros (b & p1 & p2 & -> & [Hl1 Hb1] & Hl2 & ->). rewrite length_append, be_value_from_app. split; [lia|].
        destruct p1 as [|c [|c2 p1]]; try done. unfold be_value in Hb1. cbn in Hb1 |- *. by rewrite <- Hb1.
      * intros [Hl ->]. destruct p as [|c p]; [done|]. injection Hl as Hl.
        exists (byte_of c), (String c ""), p. split_and!; try done.
    + intros b p [Hl <-]. pose proof (be_value_range p) as Hr. unfold slen in Hr. rewrite Hl in Hr.
      change (256 ^ Z.of_nat 1) with 256 in Hr.
      rewrite shift_in; [apply IH; [lia|]|done|unfold two64; nia|done]. nia.
Qed.

Lemma varint_first c :
  Z.land (byte_of c) 63 = byte_of c mod 64 ∧ Z.shiftr (byte_of c) 6 = byte_of c / 64.
Proof. split; [apply (Z.land_ones _ 6); lia | by rewrite Z.shiftr_div_pow2 by lia]. Qed.

Lemma varint_extra_spec q : 0 ≤ q < 4 →
  (Z.to_nat q, varint_extra q) ∈ [(0, 0); (1, 1); (2, 3); (3, 7)]%nat ∧ (varint_extra q ≤ 7)%nat.
Proof.
  intros Hq. assert (q = 0 ∨ q = 1 ∨ q = 2 ∨ q = 3) as [->|[->|[->| ->]]] by lia;
    (split; [apply (bool_decide_unpack _); vm_compute; exact I | cbn; lia]).
Qed.

Lemma varint_extra_fn (prefix extra : nat) :
  (prefix, extra) ∈ [(0, 0); (1, 1); (2, 3); (3, 7)]%nat →
  extra = varint_extra (Z.of_nat prefix) ∧ (prefix < 4)%nat.
Proof.
  rewrite !elem_of_cons, elem_of_nil.
  intros [[= -> ->]|[[= -> ->]|[[= -> ->]|[[= -> ->]|[]]]]]; split; done || lia.
Qed.

Lemma decodes_varint : decodes varint varint_bytes.
Proof.
  eapply decodes_iff; [|eapply (decodes_bind u8 _ _ (fun first n p =>
    String.length p = varint_extra (first / 64) ∧ n = be_value_from (first mod 64) p) decodes_u8)].
  - intros n p. unfold varint_bytes. split.
    + intros (first & p1 & p2 & -> & [Hl1 Hf] & Hl2 & ->).
      destruct p1 as [|c [|c2 p1]]; try done. unfold be_value in Hf. cbn [be_value_from] in Hf.
      replace (0 * 256 + byte_of c) with (byte_of c) in Hf by lia. subst first.
      pose proof (byte_of_range c) as Hc.
      assert (0 ≤ byte_of c / 64 < 4) as Hq by (split; [apply Z.div_pos; lia|apply Z.div_lt_upper_bound; lia]).
      destruct (varint_extra_spec _ Hq) as [Hin _].
      exists (Z.to_nat (byte_of c / 64)), (varint_extra (byte_of c / 64)).
      pose proof (be_value_range p2) as Hr. rewrite <- (proj2 (slen_length _ _) Hl2).
      pose proof (Z.mod_pos_bound (byte_of c) 64 eq_refl) as Hm.
      split_and!; [done | cbn; by rewrite Hl2 | | |].
      * rewrite be_value_from_acc. nia.
      * rewrite be_value_from_acc. nia.
      * cbn [String.append]. unfold be_value. cbn [be_value_from]. rewrite !be_value_from_acc.
        rewrite Z2Nat.id by lia. pose proof (Z.div_mod (byte_of c) 64). nia.
    + intros (prefix & extra & Hin & Hl & Hn & Hv).
      destruct (varint_extra_fn _ _ Hin) as [He Hp4]. destruct p as [|c p]; [done|]. injection Hl as Hl.
      pose proof (be_value_range p) as Hr. rewrite (proj2 (slen_length p extra) Hl) in Hr.
      assert (be_value (String c p) = byte_of c * 256 ^ Z.of_nat extra + be_value p) as Hcp.
      { unfold be_value. cbn [be_value_from]. rewrite be_value_from_acc.
        rewrite (proj2 (slen_length p extra) Hl). unfold be_value. lia. }
      rewrite Hcp in Hv.
      assert (0 ≤ byte_of c - 64 * Z.of_nat prefix < 64) as Hd by nia.
      assert (byte_of c / 64 = Z.of_nat prefix ∧ byte_of c mod 64 = byte_of c - 64 * Z.of_nat prefix) as [Eq Em].
      { split; symmetry; [apply (Z.div_unique_pos _ _ _ (byte_of c - 64 * Z.of_nat prefix))
                         | apply (Z.mod_unique_pos _ _ (Z.of_nat prefix))]; lia. }
      exists (byte_of c), (String c ""), p. rewrite Eq, Em, be_value_from_acc.
      rewrite (proj2 (slen_length p extra) Hl).
      split_and!; [done | done | congruence | nia].
  - intros first p [Hl <-]. destruct p as [|c [|c2 p]]; try done.
    assert (be_value (String c "") = byte_of c) as -> by (unfold be_value; cbn [be_value_from]; lia).
    destruct (varint_first c) as [-> ->]. pose proof (byte_of_range c) as Hc.
    assert (0 ≤ byte_of c / 64 < 4) as Hq by (split; [apply Z.div_pos; lia|apply Z.div_lt_upper_bound; lia]).
    destruct (varint_extra_spec _ Hq) as [_ He].
    pose proof (Z.mod_pos_bound (byte_of c) 64 eq_refl) as Hm.
    apply decodes_varint_loop; [lia|].
    assert (256 ^ Z.of_nat (varint_extra (byte_of c / 64)) ≤ 256 ^ 7) by (apply Z.pow_le_mono_r; lia).
    assert (0 < 256 ^ Z.of_nat (varint_extra (byte_of c / 64))) by (apply Z.pow_pos_nonneg; lia). nia.
Qed.

Lemma decodes_vec : decodes vec vec_bytes.
Proof.
  eapply decodes_iff; [|eapply (decodes_bind varint _ _ (fun n v p => v = p ∧ slen p = n) decodes_varint)].
  - intros v p. unfold vec_bytes. cbn. split.
    + intros (n & p1 & p2 & -> & Hn & -> & <-). by exists p1.
    + intros (len & Hl & ->). by exists (slen v), len, v.
  - intros n p (prefix & extra & Hin & _ & Hn & _). destruct (varint_extra_fn _ _ Hin) as [-> Hp].
    assert (0 ≤ Z.of_nat prefix < 4) as Hq by lia. destruct (varint_extra_spec _ Hq) as [_ He].
    assert (256 ^ Z.of_nat (varint_extra (Z.of_nat prefix)) ≤ 256 ^ 7) by (apply Z.pow_le_mono_r; lia).
    assert (0 ≤ n < 2 ^ 62) as H62 by (change (2 ^ 62) with (64 * 256 ^ 7); lia).
    rewrite wrap64_id by (unfold two63; lia). by apply decodes_next.
Qed.

Lemma decodes_skipSender : decodes skipSender (fun _ p => sender_bytes p).
Proof.
  eapply decodes_iff; [|eapply (decodes_bind u8 _ _ (fun st _ p =>
    (st = 1 ∨ st = 2) ∧ String.length p = 4%nat ∨ (st = 3 ∨ st = 4) ∧ p = "") decodes_u8)].
  - intros [] p. unfold sender_bytes. split.
    + intros (st & p1 & p2 & -> & [Hl Hst] & Hc). destruct p1 as [|c [|c2 p1]]; try done.
      unfold be_value in Hst. cbn [be_value_from] in Hst.
      replace (0 * 256 + byte_of c) with (byte_of c) in Hst by lia. subst st. cbn [String.append].
      destruct Hc as [[Hc Hl2]|[Hc ->]]; [left; by exists c, p2 | right; by exists c].
    + intros [(c & idx & Hc & Hl & ->)|(c & Hc & ->)]; exists (byte_of c), (String c "");
        [exists idx | exists ""]; (split; [done|]);
        (split; [split; [done | unfold be_value; cbn [be_value_from]; lia]|]); auto.
  - intros st p _.
    destruct (Z.eqb_spec st 1) as [->|H1]; [|destruct (Z.eqb_spec st 2) as [->|H2]]; cbn [orb].
    1,2: eapply decodes_iff; [|apply (decodes_map u32 (fun _ => tt) _ (decodes_uint 4 eq_refl))];
      intros [] q; unfold uint_bytes; split; [intros (n & _ & Hl & _); left; auto
        | intros [[_ Hl]|[[|] _]]; [by exists (be_value q) | lia | lia]].
    destruct (Z.eqb_spec st 3) as [->|H3]; [|destruct (Z.eqb_spec st 4) as [->|H4]]; cbn [orb].
    1,2: eapply decodes_iff; [|apply (decodes_ret tt)]; intros [] q; split;
      [intros [_ ->]; auto | intros [[[|] _]|[_ ->]]; done || lia].
    eapply decodes_iff; [|apply (decodes_fail ErrMalformed)]. intros [] q. split; [done|]. lia.
Qed.

Lemma decodes_format : ∀ wf, decodes (check_format wf) (fun _ p => wf = wireFormatPublicMessage ∧ p = "").
Proof.
  intros wf. unfold check_format. destruct (Z.eqb_spec wf wireFormatPublicMessage) as [->|H1].
  - eapply decodes_iff; [|apply (decodes_ret tt)]. intros [] q. intuition.
  - destruct (wf =? wireFormatPrivateMessage);
      (eapply decodes_iff; [|apply decodes_fail]; intros [] q; intuition).
Qed.

(** What [parse_handshake] consumes: the layout without what follows it. *)
Definition handshake_prefix (h : Handshake.t) (p : bytes) : Prop :=
  ∃ version format gid epoch sender aad ct,
    String.length version = 2%nat ∧ uint_bytes 2 wireFormatPublicMessage format ∧
    vec_bytes (Handshake.GroupID h) gid ∧ uint_bytes 8 (Handshake.Epoch h) epoch ∧
    sender_bytes sender ∧ (∃ a, vec_bytes a aad) ∧ uint_bytes 1 (Handshake.ContentType h) ct ∧
    p = String.append version (String.append format (String.append gid (String.append epoch
          (String.append sender (String.append aad ct))))).

Lemma decodes_handshake : decodes parse_handshake handshake_prefix.
Proof.
  eapply decodes_iff; [|unfold parse_handshake;
    eapply decodes_bind; [apply (decodes_uint 2 eq_refl)|intros version _ _];
    eapply decodes_bind; [apply (decodes_uint 2 eq_refl)|intros wf _ _];
    eapply decodes_bind; [apply decodes_format|intros u ? _];
    eapply decodes_bind; [apply decodes_vec|intros gid _ _];
    eapply decodes_bind; [apply (decodes_uint 8 eq_refl)|intros epoch _ _];
    eapply decodes_bind; [apply decodes_skipSender|intros u' ? _];
    eapply decodes_bind; [apply decodes_vec|intros aad _ _];
    eapply decodes_map; apply decodes_u8].
  intros h p. unfold handshake_prefix. cbn. split.
  - intros (v & p1 & ? & -> & [Hv _] & wf & p2 & ? & -> & Hf & _ & ? & ? & -> & [-> ->] &
      gid & p3 & ? & -> & Hg & epoch & p4 & ? & -> & He & _ & p5 & ? & -> & Hs &
      aad & p6 & p7 & -> & Ha & ct & -> & Hc).
    exists p1, p2, p3, p4, p5, p6, p7. split_and!; eauto.
  - intros (v & f & g & e & s & a & ct & Hv & Hf & Hg & He & Hs & [aad Ha] & Hct & ->).
    exists (be_value v), v. eexists. split; [done|]. split; [done|].
    exists wireFormatPublicMessage, f. eexists. split; [done|]. split; [done|].
    exists tt, "". eexists. split; [done|]. split; [done|].
    exists (Handshake.GroupID h), g. eexists. split; [done|]. split; [done|].
    exists (Handshake.Epoch h), e. eexists. split; [done|]. split; [done|].
    exists tt, s. eexists. split; [done|]. split; [done|].
    exists aad, a, ct. split; [done|]. split; [done|].
    exists (Handshake.ContentType h). split; [by destruct h | done].
Qed.

(** C40. [ParseHandshake] accepts exactly the messages laid out as a
    PublicMessage and returns exactly the group id, epoch and content type
    they frame; on no input short of 2^62 bytes does it index out of range. *)
Theorem ParseHandshake_exact (msg : bytes) :
  short msg →
  ParseHandshake msg ≠ Panic ∧
  ∀ h, (∃ r, ParseHandshake msg = Ret h r) ↔ handshake_bytes h msg.
Proof.
  intros Hs. assert (at_ (mk_reader msg 0) msg) as Ha by (split; [done | by exists ""]).
  unfold ParseHandshake. split; [exact (dec_safe _ _ decodes_handshake _ _ Ha)|].
  intros h. split.
  - intros [r Hr]. destruct (dec_sound _ _ decodes_handshake _ _ _ _ Ha Hr) as (p & s & -> & Hp & _).
    destruct Hp as (v & f & g & e & sd & a & ct & ? & ? & ? & ? & ? & ? & ? & ->).
    exists v, f, g, e, sd, a, ct, s. rewrite !append_assoc. split_and!; done.
  - intros (v & f & g & e & sd & a & ct & s & ? & ? & ? & ? & ? & ? & ? & ->).
    set (pfx := String.append v (String.append f (String.append g (String.append e (String.append sd
      (String.append a ct)))))).
    assert (String.append v (String.append f (String.append g (String.append e (String.append sd
      (String.append a (String.append ct s)))))) = String.append pfx s) as Heq
      by (unfold pfx; by rewrite !append_assoc).
    rewrite Heq in *. assert (handshake_prefix h pfx) as Hp by (exists v, f, g, e, sd, a, ct; split_and!; done).
    destruct (dec_complete _ _ decodes_handshake _ h pfx s Ha Hp) as (r' & Hr' & _). by exists r'.
Qed.

(** The first bytes of the commit of [mlswire_test.go]. *)
Definition sample_commit_bytes : bytes :=
  String.append (be_bytes 2 1) (String.append (be_bytes 2 1)
    (String.append (String (byte 20) "grp-0123456789abcdef")
      (String.append (be_bytes 8 0) (String.append (be_bytes 5 (256 ^ 4))
        (String.append (be_bytes 1 0) (be_bytes 1 3)))))).

Lemma ParseHandshake_exact_witness :
  ParseHandshake sample_commit_bytes =
    Ret (Handshake.mk "grp-0123456789abcdef" 0 ContentTypeCommit) (mk_reader sample_commit_bytes 40) ∧
  handshake_bytes (Handshake.mk "grp-0123456789abcdef" 0 ContentTypeCommit) sample_commit_bytes.
Proof.
  split; [reflexivity|].
  apply (ParseHandshake_exact sample_commit_bytes); [reflexivity|].
  exists (mk_reader sample_commit_bytes 40). reflexivity.
Defined.
