(* ===== verification/Nodelist.v ===== *)
(** * Package nodelist: who is in the network

    [api/internal/nodelist/nodelist.go] and [store.go]: the signed list of
    hosts, its verification, the lookups by domain and by alias, and the store
    that holds the list a host trusts and never moves backwards. The JSON of a
    document is decoded by [encoding/json], a class here. *)

From Stdlib Require Import Ascii.
From S2P Require Import Prelude.
From S2P Require Import GoStrings.
From S2P Require Import Domain.
From S2P Require Import Crypto.

Inductive node_err : Type :=
| ErrSignature
| ErrExpired
| ErrNotYet
| ErrMalformed
| ErrNoList
| ErrNotNewer.

Module Node.
Record t := mk { Domain : string; PublicKey : bytes; Alias : string }.
End Node.

Module NodeList.
Record t := mk { Serial : Z; Issued : time; Expires : time; Nodes : list Node.t }.
Definition zero : t := mk 0 zero_time zero_time [].
End NodeList.

(** [json.Unmarshal] into the wire document and into a list. The key of a node
    is decoded by [decodeKey], called back from [Node.UnmarshalJSON]. *)
Class ListJSON := {
  unmarshal_doc : string → option (bytes * string);
  unmarshal_list : bytes → (string → option bytes) → option NodeList.t
}.

(** ** Names *)

Definition is_lower_digit (c : ascii) : bool := is_lower c || is_digit c.
Definition label_byte (c : ascii) : bool := is_lower_digit c || (c == "-"%char).

Fixpoint last_byte (d : ascii) (s : string) : ascii :=
  match s with EmptyString => d | String c s' => last_byte c s' end.

Definition validAlias (a : string) : bool :=
  match a with
  | EmptyString => false
  | String c s =>
      (2 <=? slen a) && (slen a <=? 32) && all_bytes label_byte a
      && is_lower_digit c && is_lower_digit (last_byte c s)
  end.

(** One label of a host name. *)
Definition valid_label (l : string) : bool :=
  match l with
  | EmptyString => false
  | String c s =>
      (slen l <=? 63) && (c != "-"%char) && (last_byte c s != "-"%char) && all_bytes label_byte l
  end.

(** An octet of a dotted address: digits, no leading zero, at most 255. *)
Fixpoint decimal (acc : Z) (s : string) : Z :=
  match s with EmptyString => acc | String c s' => decimal (acc * 10 + (byte_of c - 48)) s' end.
Definition octet (s : string) : bool :=
  match s with
  | EmptyString => false
  | String c s' =>
      all_bytes is_digit s && (slen s <=? 3) && (decimal 0 s <=? 255)
      && ((c != "0"%char) || (s' == ""))
  end.

(** [net.ParseIP(d) != nil] for an address without a colon; one with a colon is
    no host name either, since a label has none. *)
Definition dotted_address (d : string) : bool :=
  (Z.of_nat (length (Split d ".")) =? 4) && forallb octet (Split d ".").

Definition validDomain (d : string) : bool :=
  if (d == "") || (253 <? slen d) || negb (Contains d ".") then false
  else if dotted_address d then false
  else forallb valid_label (Split d ".").

Section Nodelist.
Context {U : Unicode}.

(** ** The list *)

Definition fold_name (s : string) : string := ToLower (TrimSpace s).

(** The loop of [validate]: the domains and aliases seen so far. *)
Fixpoint validate_nodes (domains aliases : gset string) (nodes : list Node.t)
  : result node_err (gset string * gset string) :=
  match nodes with
  | [] => Ok (domains, aliases)
  | n :: rest =>
      let d := fold_name (Node.Domain n) in
      if negb (validDomain d) then Err ErrMalformed
      else if slen (Node.PublicKey n) != PublicKeySize then Err ErrMalformed
      else if bool_decide (d ∈ domains) then Err ErrMalformed
      else
        let domains := {[d]} ∪ domains in
        if Node.Alias n == "" then validate_nodes domains aliases rest
        else
          let a := fold_name (Node.Alias n) in
          if negb (validAlias a) then Err ErrMalformed
          else if bool_decide (a ∈ aliases) then Err ErrMalformed
          else validate_nodes domains ({[a]} ∪ aliases) rest
  end.

Definition validate (l : NodeList.t) : result node_err unit :=
  if Before (NodeList.Expires l) (NodeList.Issued l) || (NodeList.Expires l =? NodeList.Issued l)
  then Err ErrMalformed
  else
    let? (domains, aliases) := validate_nodes ∅ ∅ (NodeList.Nodes l) in
    if bool_decide (aliases ∩ domains = ∅) then Ok tt else Err ErrMalformed.

Definition decodeKey (s : string) : option bytes := base64url_decode (TrimRight s "=").

(** [VerifyAt]; [None] is the panic of [ed25519.Verify] on a coordinator key
    of the wrong size. *)
Definition VerifyAt {J : ListJSON} {E : Ed25519} (doc : string) (coord : bytes) (now : time)
  : option (result node_err NodeList.t) :=
  match unmarshal_doc doc with
  | None => Some (Err ErrMalformed)
  | Some (payload, signature) =>
      match decodeKey signature with
      | None => Some (Err ErrMalformed)
      | Some sig =>
          match ed25519_Verify coord payload sig with
          | None => None
          | Some false => Some (Err ErrSignature)
          | Some true =>
              Some match unmarshal_list payload decodeKey with
              | None => Err ErrMalformed
              | Some l =>
                  let? _ := validate l in
                  if After now (NodeList.Expires l) then Err ErrExpired
                  else if Before now (NodeList.Issued l) then Err ErrNotYet
                  else Ok l
              end
          end
      end
  end.

Fixpoint lookup_node (domain : string) (nodes : list Node.t) : option bytes :=
  match nodes with
  | [] => None
  | n :: rest =>
      if ToLower (Node.Domain n) == domain then Some (Node.PublicKey n) else lookup_node domain rest
  end.
Definition Lookup (l : NodeList.t) (domain : string) : option bytes :=
  lookup_node (fold_name domain) (NodeList.Nodes l).

Fixpoint domain_of_alias (alias : string) (nodes : list Node.t) : option string :=
  match nodes with
  | [] => None
  | n :: rest =>
      if ToLower (Node.Alias n) == alias then Some (Node.Domain n) else domain_of_alias alias rest
  end.
Definition DomainForAlias (l : NodeList.t) (alias : string) : option string :=
  let alias := fold_name alias in
  if alias == "" then None else domain_of_alias alias (NodeList.Nodes l).

Fixpoint alias_of_domain (domain : string) (nodes : list Node.t) : option string :=
  match nodes with
  | [] => None
  | n :: rest =>
      if (ToLower (Node.Domain n) == domain) && (Node.Alias n != "") then Some (Node.Alias n)
      else alias_of_domain domain rest
  end.
Definition AliasForDomain (l : NodeList.t) (domain : string) : option string :=
  alias_of_domain (fold_name domain) (NodeList.Nodes l).
End Nodelist.

(** ** The store *)

Module NodeStore.
Record t := mk { coord : bytes; held : NodeList.t; loaded : bool }.
Definition NewStore (coord : bytes) : t := mk coord NodeList.zero false.

Section Store.
Context {U : Unicode}.

Definition Replace {J : ListJSON} {E : Ed25519} (s : t) (doc : string) (now : time)
  : option (t * result node_err unit) :=
  match VerifyAt doc (coord s) now with
  | None => None
  | Some (Err e) => Some (s, Err e)
  | Some (Ok l) =>
      Some (if loaded s && (NodeList.Serial l <=? NodeList.Serial (held s)) then (s, Err ErrNotNewer)
            else (mk (coord s) l true, Ok tt))
  end.

(** [Ok None] is the nil key beside a nil error. *)
Definition KeyFor (s : t) (domain : string) (now : time) : result node_err (option bytes) :=
  if negb (loaded s) then Err ErrNoList
  else if After now (NodeList.Expires (held s)) then Err ErrExpired
  else Ok (Lookup (held s) domain).

Definition IsPeer (s : t) (domain : string) (now : time) : bool :=
  match KeyFor s domain now with Ok (Some _) => true | _ => false end.

Definition live (s : t) (now : time) : bool :=
  negb (negb (loaded s) || After now (NodeList.Expires (held s))).

Definition DomainForAlias (s : t) (alias : string) (now : time) : option string :=
  if live s now then Nodelist.DomainForAlias (held s) alias else None.
Definition AliasForDomain (s : t) (domain : string) (now : time) : option string :=
  if live s now then Nodelist.AliasForDomain (held s) domain else None.
Definition Hosts (s : t) (now : time) : list (string * string) :=
  if live s now then (fun n => (Node.Domain n, Node.Alias n)) <$> NodeList.Nodes (held s) else [].
Definition Serial (s : t) : Z := NodeList.Serial (held s).
End Store.
End NodeStore.

(** ** Lemmas: a validated list *)

Section Lemmas.
Context {U : Unicode}.

Definition node_domain (n : Node.t) : string := fold_name (Node.Domain n).
(** The folded aliases of the nodes that have one. *)
Definition node_aliases (nodes : list Node.t) : list string :=
  (fun n => fold_name (Node.Alias n)) <$> filter (fun n => Is_true (Node.Alias n != "")) nodes.

Lemma node_aliases_cons n nodes :
  node_aliases (n :: nodes) =
  if Node.Alias n == "" then node_aliases nodes else fold_name (Node.Alias n) :: node_aliases nodes.
Proof.
  unfold node_aliases. rewrite filter_cons. destruct (Node.Alias n == ""); cbn [negb].
  - by rewrite decide_False by (by intros []).
  - by rewrite decide_True by done.
Qed.

Lemma validate_nodes_spec D A nodes D' A' :
  validate_nodes D A nodes = Ok (D', A') →
  Forall (fun n => validDomain (node_domain n) = true ∧ slen (Node.PublicKey n) = PublicKeySize) nodes ∧
  NoDup (node_domain <$> nodes) ∧ (∀ n, n ∈ nodes → node_domain n ∉ D) ∧
  NoDup (node_aliases nodes) ∧ (∀ a, a ∈ node_aliases nodes → (a ∉ A) ∧ validAlias a = true) ∧
  (∀ d, d ∈ D' ↔ d ∈ D ∨ d ∈ node_domain <$> nodes) ∧ (∀ a, a ∈ A' ↔ a ∈ A ∨ a ∈ node_aliases nodes).
Proof.
  revert D A. induction nodes as [|n nodes IH]; intros D A.
  { intros [= <- <-]. cbn. split_and!; try constructor; try done; intros;
      repeat match goal with H : _ ∈ [] |- _ => by apply elem_of_nil in H end; try by left.
    all: match goal with H : _ ∨ _ |- _ => destruct H as [?|H]; [done|by apply elem_of_nil in H] end. }
  cbn [validate_nodes]. fold (node_domain n).
  destruct (validDomain (node_domain n)) eqn:Hv; cbn [negb]; [|done].
  destruct (bool_decide_reflect (slen (Node.PublicKey n) = PublicKeySize)) as [Hk|]; cbn [negb]; [|done].
  destruct (bool_decide_reflect (node_domain n ∈ D)) as [|Hd]; [done|].
  rewrite node_aliases_cons.
  assert (∀ A0 aliases, validate_nodes ({[node_domain n]} ∪ D) A0 nodes = Ok (D', A') →
    node_aliases nodes = aliases →
    Forall (fun n => validDomain (node_domain n) = true ∧ slen (Node.PublicKey n) = PublicKeySize) (n :: nodes) ∧
    NoDup (node_domain <$> (n :: nodes)) ∧ (∀ n', n' ∈ (n :: nodes) → node_domain n' ∉ D) ∧
    NoDup aliases ∧ (∀ a, a ∈ aliases → (a ∉ A0) ∧ validAlias a = true) ∧
    (∀ d, d ∈ D' ↔ d ∈ D ∨ d ∈ node_domain <$> (n :: nodes)) ∧
    (∀ a, a ∈ A' ↔ a ∈ A0 ∨ a ∈ aliases)) as Hstep.
  { intros A0 aliases H <-. destruct (IH _ _ H) as (Hf & Hnd & HnD & Hna & HnA & HD & HA).
    split_and!; try done.
    - by constructor.
    - rewrite fmap_cons. constructor; [|done]. intros (x & Hx & Hin)%list_elem_of_fmap.
      apply (HnD x Hin), elem_of_union. left. by apply elem_of_singleton.
    - intros x [->|Hx]%elem_of_cons; [done|]. specialize (HnD x Hx).
      apply not_elem_of_union in HnD. tauto.
    - intros d. rewrite HD, fmap_cons, elem_of_union, elem_of_singleton, elem_of_cons. tauto. }
  destruct (Node.Alias n == ""); [intros H; exact (Hstep _ _ H eq_refl)|].
  destruct (validAlias (fold_name (Node.Alias n))) eqn:Hva; cbn [negb]; [|done].
  destruct (bool_decide_reflect (fold_name (Node.Alias n) ∈ A)) as [|Ha]; [done|].
  intros H. destruct (Hstep _ _ H eq_refl) as (Hf & Hnd & HnD & Hna & HnA & HD & HA).
  split_and!; try done.
  - constructor; [|done]. intros Hin. destruct (HnA _ Hin) as [Hn _].
    apply Hn, elem_of_union. left. by apply elem_of_singleton.
  - intros a [->|Hin]%elem_of_cons; [done|]. destruct (HnA a Hin) as [Hn ?].
    apply not_elem_of_union in Hn. tauto.
  - intros a. rewrite HA, elem_of_union, elem_of_singleton, elem_of_cons. tauto.
Qed.

(** What is true of a list a host may hold. *)
Record sound_list (l : NodeList.t) : Prop := {
  sl_keys : Forall (fun n => slen (Node.PublicKey n) = PublicKeySize) (NodeList.Nodes l);
  sl_domains : NoDup (node_domain <$> NodeList.Nodes l);
  sl_valid : Forall (fun n => validDomain (node_domain n) = true) (NodeList.Nodes l);
  sl_aliases : NoDup (node_aliases (NodeList.Nodes l));
  sl_apart : ∀ a, a ∈ node_aliases (NodeList.Nodes l) → a ∉ node_domain <$> NodeList.Nodes l;
  sl_window : NodeList.Issued l < NodeList.Expires l
}.

Lemma validate_sound l : validate l = Ok tt → sound_list l.
Proof.
  unfold validate, Before. destruct (Z.ltb_spec (NodeList.Expires l) (NodeList.Issued l)); [done|].
  destruct (Z.eqb_spec (NodeList.Expires l) (NodeList.Issued l)) as [|Hne]; [done|]. cbn [orb].
  destruct (validate_nodes ∅ ∅ (NodeList.Nodes l)) as [[D A]|e] eqn:E; cbn [result_bind]; [|done].
  destruct (bool_decide_reflect (A ∩ D = ∅)) as [Hdis|]; [|done]. intros _.
  destruct (validate_nodes_spec _ _ _ _ _ E) as (Hf & Hnd & _ & Hna & _ & HD & HA).
  split; try done; try lia.
  - eapply Forall_impl; [exact Hf|]. by intros x [_ ?].
  - eapply Forall_impl; [exact Hf|]. by intros x [? _].
  - intros a Ha Hd. assert (a ∈ A ∩ D) as Hin; [|rewrite Hdis in Hin; by apply elem_of_empty in Hin].
    apply elem_of_intersection. rewrite HA, HD. auto.
Qed.

Lemma VerifyAt_ok {J : ListJSON} {E : Ed25519} doc coord now l :
  VerifyAt doc coord now = Some (Ok l) →
  ∃ payload signature sig,
    unmarshal_doc doc = Some (payload, signature) ∧ decodeKey signature = Some sig ∧
    ed_verify coord payload sig = true ∧ unmarshal_list payload decodeKey = Some l ∧
    sound_list l ∧ NodeList.Issued l ≤ now ≤ NodeList.Expires l.
Proof.
  unfold VerifyAt. destruct (unmarshal_doc doc) as [[payload signature]|] eqn:E1; [|done].
  destruct (decodeKey signature) as [sig|] eqn:E2; [|done].
  unfold ed25519_Verify. destruct (slen coord =? PublicKeySize); [|done].
  destruct (ed_verify coord payload sig) eqn:Ev; [|done].
  destruct (unmarshal_list payload decodeKey) as [l'|] eqn:E3; [|done].
  destruct (validate l') as [[]|e] eqn:Eval; cbn [result_bind]; [|done].
  unfold After, Before.
  destruct (Z.ltb_spec (NodeList.Expires l') now); [done|].
  destruct (Z.ltb_spec now (NodeList.Issued l')); [done|]. intros [= <-].
  exists payload, signature, sig. split_and!; try done. by apply validate_sound.
Qed.

Lemma lookup_node_Some d nodes k :
  lookup_node d nodes = Some k → ∃ n, n ∈ nodes ∧ ToLower (Node.Domain n) = d ∧ Node.PublicKey n = k.
Proof.
  induction nodes as [|n nodes IH]; [done|]. cbn [lookup_node].
  destruct (bool_decide_reflect (ToLower (Node.Domain n) = d)) as [Hd|].
  - intros [= <-]. exists n. split; [by left | done].
  - intros (x & Hx & ?)%IH. exists x. split; [by right | done].
Qed.
End Lemmas.

(** What [VerifyAt] accepts: a document whose payload the coordinator
    signed, decoded from those very bytes, inside its window, in which every
    key has the size Ed25519 takes (so that checking a peer's signature cannot
    panic), no host and no alias appears twice and no alias reads as a host. *)
Theorem VerifyAt_sound {U : Unicode} {J : ListJSON} {E : Ed25519} doc coord now l :
  VerifyAt doc coord now = Some (Ok l) →
  (∃ payload signature sig,
     unmarshal_doc doc = Some (payload, signature) ∧ decodeKey signature = Some sig ∧
     ed_verify coord payload sig = true ∧ unmarshal_list payload decodeKey = Some l) ∧
  sound_list l ∧ NodeList.Issued l ≤ now ≤ NodeList.Expires l ∧
  ∀ domain key msg sig, Lookup l domain = Some key → is_Some (ed25519_Verify key msg sig).
Proof.
  intros (payload & signature & sig & H1 & H2 & H3 & H4 & Hs & Hw)%VerifyAt_ok.
  split; [by exists payload, signature, sig|]. split; [done|]. split; [done|].
  intros domain key msg sg (n & Hn & _ & <-)%lookup_node_Some.
  pose proof (proj1 (Forall_forall _ _) (sl_keys l Hs) n Hn) as Hk. cbn in Hk.
  unfold ed25519_Verify. rewrite Hk. cbn. by eexists.
Qed.

(** ** Lemmas: the store *)

Section StoreLemmas.
Context {U : Unicode} {J : ListJSON} {E : Ed25519}.
Implicit Types (s : NodeStore.t).

(** A run of attempts to replace the list, each at its time; [None] when one
    panics. *)
Fixpoint replace_all s (docs : list (string * time)) : option NodeStore.t :=
  match docs with
  | [] => Some s
  | (doc, now) :: rest =>
      match NodeStore.Replace s doc now with Some (s', _) => replace_all s' rest | None => None end
  end.

(** The list held was verified under the coordinator's key by one of the
    attempts. *)
Definition vouched (coord : bytes) (docs : list (string * time)) (l : NodeList.t) : Prop :=
  ∃ doc now, (doc, now) ∈ docs ∧ VerifyAt doc coord now = Some (Ok l).

Lemma Replace_spec s doc now s' r :
  NodeStore.Replace s doc now = Some (s', r) →
  (s' = s ∧ ∃ e, r = Err e) ∨
  (r = Ok tt ∧ ∃ l, VerifyAt doc (NodeStore.coord s) now = Some (Ok l) ∧
    s' = NodeStore.mk (NodeStore.coord s) l true ∧
    (NodeStore.loaded s = true → NodeStore.Serial s < NodeList.Serial l)).
Proof.
  unfold NodeStore.Replace. destruct (VerifyAt _ _ _) as [[l|e]|]; [| |done].
  - destruct (NodeStore.loaded s) eqn:El; cbn [andb].
    + destruct (Z.leb_spec (NodeList.Serial l) (NodeList.Serial (NodeStore.held s))).
      * intros [= <- <-]. left. eauto.
      * intros [= <- <-]. right. split; [done|]. exists l. split_and!; try done.
    + intros [= <- <-]. right. split; [done|]. by exists l.
  - intros [= <- <-]. left. eauto.
Qed.

Lemma replace_all_spec s docs s' :
  replace_all s docs = Some s' →
  NodeStore.coord s' = NodeStore.coord s ∧
  (NodeStore.loaded s = true → NodeStore.loaded s' = true ∧ NodeStore.Serial s ≤ NodeStore.Serial s') ∧
  (NodeStore.held s' = NodeStore.held s ∧ NodeStore.loaded s' = NodeStore.loaded s ∨
   NodeStore.loaded s' = true ∧ vouched (NodeStore.coord s) docs (NodeStore.held s')) ∧
  (∀ l, vouched (NodeStore.coord s) docs l → NodeList.Serial l ≤ NodeStore.Serial s' ∧ NodeStore.loaded s' = true).
Proof.
  revert s. induction docs as [|[doc now] docs IH]; intros s.
  { intros [= <-]. split_and!; [done | by split | by left |].
    by intros l (? & ? & ?%elem_of_nil & _). }
  cbn [replace_all]. destruct (NodeStore.Replace s doc now) as [[s1 r]|] eqn:Er; [|done].
  intros H. destruct (IH _ H) as (Hc & Hm & Hh & Hv). clear IH.
  destruct (Replace_spec _ _ _ _ _ Er) as [[-> [e ->]]|[-> (l & Hl & -> & Hs)]].
  - assert (∀ l, VerifyAt doc (NodeStore.coord s) now = Some (Ok l) →
      NodeStore.loaded s = true ∧ NodeList.Serial l ≤ NodeStore.Serial s) as Hrej.
    { intros l Hl. unfold NodeStore.Replace in Er. rewrite Hl in Er.
      destruct (NodeStore.loaded s); [|done]. cbn [andb] in Er. split; [done|].
      destruct (Z.leb_spec (NodeList.Serial l) (NodeList.Serial (NodeStore.held s))); done. }
    split_and!; try done.
    + destruct Hh as [?|[? (d & t & Hin & ?)]]; [by left|]. right. split; [done|].
      exists d, t. split; [by right | done].
    + intros l (d & t & [[= -> ->]|Hin]%elem_of_cons & Hl).
      * destruct (Hrej l Hl) as [Hld Hle]. destruct (Hm Hld). split; [lia | done].
      * apply Hv. by exists d, t.
  - cbn [NodeStore.coord NodeStore.loaded NodeStore.Serial NodeStore.held] in *.
    destruct (Hm eq_refl) as [Hld Hle]. unfold NodeStore.Serial at 1 in Hle. cbn in Hle.
    split_and!; try done.
    + intros Hl0. specialize (Hs Hl0). split; [done | lia].
    + right. split; [done|]. destruct Hh as [[-> _]|[_ (d & t & Hin & ?)]].
      * exists doc, now. split; [by left | done].
      * exists d, t. split; [by right | done].
    + intros l' (d & t & [[= -> ->]|Hin]%elem_of_cons & Hl').
      * rewrite Hl in Hl'. injection Hl' as <-. done.
      * apply Hv. by exists d, t.
Qed.
End StoreLemmas.

(** No rollback: whatever documents a host is fed, in whatever order and
    however often, it ends up holding, of all the validly signed ones it saw,
    one with the highest serial, and a key it answers for a domain is the key
    of that domain in that list, before the list expires. A host removed from
    the list is not brought back by an older one. *)
Theorem nodelist_no_rollback {U : Unicode} {J : ListJSON} {E : Ed25519} coord docs s domain key now :
  replace_all (NodeStore.NewStore coord) docs = Some s →
  NodeStore.KeyFor s domain now = Ok (Some key) →
  vouched coord docs (NodeStore.held s) ∧
  (∀ l, vouched coord docs l → NodeList.Serial l ≤ NodeList.Serial (NodeStore.held s)) ∧
  now ≤ NodeList.Expires (NodeStore.held s) ∧
  ∃ n, n ∈ NodeList.Nodes (NodeStore.held s) ∧ ToLower (Node.Domain n) = fold_name domain ∧
    Node.PublicKey n = key ∧ slen key = PublicKeySize.
Proof.
  intros Hr Hk. destruct (replace_all_spec _ _ _ Hr) as (_ & _ & Hh & Hv). cbn in Hh, Hv.
  unfold NodeStore.KeyFor in Hk. destruct (NodeStore.loaded s) eqn:El; cbn [negb] in Hk; [|done].
  unfold After in Hk. destruct (Z.ltb_spec (NodeList.Expires (NodeStore.held s)) now) as [|Hx]; [done|].
  injection Hk as (n & Hn & Hd & Hp)%lookup_node_Some.
  destruct Hh as [[_ ?]|[_ Hvch]]; [done|].
  split; [done|]. split; [intros l Hl; apply (Hv l Hl)|]. split; [done|].
  destruct Hvch as (doc & t & _ & HV). destruct (VerifyAt_ok _ _ _ _ HV) as (_ & _ & _ & _ & _ & _ & _ & Hs & _).
  exists n. split_and!; try done. rewrite <- Hp.
  exact (proj1 (Forall_forall _ _) (sl_keys _ Hs) n Hn).
Qed.

(** ** Witnesses *)

(** A codec of two documents, each its own payload, signed with one key. *)
Definition sample_node (d : string) : Node.t := Node.mk d (toy_public d) "".
Definition sample_json : ListJSON := {|
  unmarshal_doc := fun doc => Some (doc, base64url (toy_sign "coordinator" doc));
  unmarshal_list := fun payload _ =>
    if payload == "first"
    then Some (NodeList.mk 1 10 20 [sample_node "a.example"; sample_node "b.example"])
    else Some (NodeList.mk 2 10 20 [sample_node "a.example"])
|}.
Definition sample_coord : bytes := toy_public "coordinator".

Lemma VerifyAt_sound_witness :
  ∃ l, VerifyAt (U := ascii_only) (J := sample_json) (E := toy_ed25519) "first" sample_coord 15 = Some (Ok l) ∧
    sound_list (U := ascii_only) l.
Proof.
  eexists. match goal with |- ?P ∧ _ => assert P as H by (vm_compute; reflexivity) end.
  split; [exact H|].
  exact (proj1 (proj2 (VerifyAt_sound (U := ascii_only) (J := sample_json) (E := toy_ed25519) _ _ _ _ H))).
Defined.

Lemma nodelist_no_rollback_witness :
  let docs := [("first", 15); ("second", 15); ("first", 15)] in
  ∃ s, replace_all (U := ascii_only) (J := sample_json) (E := toy_ed25519)
         (NodeStore.NewStore sample_coord) docs = Some s ∧
    NodeStore.IsPeer (U := ascii_only) s "b.example" 15 = false ∧
    vouched (U := ascii_only) (J := sample_json) (E := toy_ed25519) sample_coord docs (NodeStore.held s).
Proof.
  intros docs. eexists.
  match goal with |- ?P ∧ _ => assert P as H by (vm_compute; reflexivity) end.
  split; [exact H|]. split; [vm_compute; reflexivity|].
  eapply (nodelist_no_rollback (U := ascii_only) (J := sample_json) (E := toy_ed25519)
    sample_coord docs _ "a.example" _ 15 H). vm_compute. reflexivity.
Defined.
