(* ===== verification/Ident.v ===== *)
(** * Package ident: qualified identifiers

    [api/internal/ident/ident.go]: the identifiers that name a user, a device,
    a room or a group of a host, how they are written, [PairKey], the key
    under which the conversation of two users is unique, and [Parse]. *)

From Stdlib Require Import Ascii.
From S2P Require Import Prelude.
From S2P Require Import GoStrings.
From S2P Require Import Domain.
From S2P Require Import Crypto.
From S2P Require Import Nodelist.

Definition Scheme : string := "mimi".
Definition KindUser : string := "u".
Definition KindDevice : string := "d".
Definition KindRoom : string := "r".
Definition KindGroup : string := "g".

(** [Kind.valid] *)
Definition valid (k : string) : bool :=
  (k == KindUser) || (k == KindDevice) || (k == KindRoom) || (k == KindGroup).

Module IdentID.
Record t := mk { Domain : string; Kind : string; Local : string }.
End IdentID.

(** ** [net/url]: path segments *)

(** [shouldEscape(c, encodePathSegment)] *)
Definition should_escape (c : ascii) : bool :=
  negb (is_letter c || is_digit c
        || bool_decide (c ∈ ["-"; "_"; "."; "~"; "$"; "&"; "+"; ":"; "="; "@"]%char)).

(** [upperhex[z]] *)
Definition upper_hex (z : Z) : ascii := byte (if z <? 10 then 48 + z else 55 + z).

(** [url.PathEscape] *)
Fixpoint PathEscape (s : string) : string :=
  match s with
  | EmptyString => EmptyString
  | String c s' =>
      if should_escape c
      then String "%" (String (upper_hex (byte_of c / 16)) (String (upper_hex (byte_of c mod 16))
             (PathEscape s')))
      else String c (PathEscape s')
  end.

(** [ishex] and [unhex] *)
Definition unhex (c : ascii) : option Z :=
  let b := byte_of c in
  if (48 <=? b) && (b <=? 57) then Some (b - 48)
  else if (97 <=? b) && (b <=? 102) then Some (b - 87)
  else if (65 <=? b) && (b <=? 70) then Some (b - 55)
  else None.

(** [url.PathUnescape]; [None] is an [EscapeError]. *)
Fixpoint PathUnescape (s : string) : option string :=
  match s with
  | EmptyString => Some EmptyString
  | String c s' =>
      if c == "%"%char then
        match s' with
        | String h (String l rest) =>
            match unhex h, unhex l with
            | Some x, Some y => String (byte (x * 16 + y)) <$> PathUnescape rest
            | _, _ => None
            end
        | _ => None
        end
      else String c <$> PathUnescape s'
  end.

(** [strings.ReplaceAll(s, "/", "%2F")] *)
Fixpoint replace_slash (s : string) : string :=
  match s with
  | EmptyString => EmptyString
  | String c s' =>
      if c == "/"%char then String.append "%2F" (replace_slash s') else String c (replace_slash s')
  end.

Definition encodeLocal (s : string) : string := replace_slash (PathEscape s).

Section Ident.
Context {U : Unicode}.

Definition lower (s : string) : string := ToLower (TrimSpace s).

Definition User_ (domain local : string) : IdentID.t := IdentID.mk (lower domain) KindUser local.
Definition Device_ (domain local : string) : IdentID.t := IdentID.mk (lower domain) KindDevice local.
Definition Room (domain local : string) : IdentID.t := IdentID.mk (lower domain) KindRoom local.
Definition Group (domain local : string) : IdentID.t := IdentID.mk (lower domain) KindGroup local.

Definition IsLocal (id : IdentID.t) (domain : string) : bool := IdentID.Domain id == lower domain.
End Ident.

(** [ID.String]: the scheme, then the three parts. *)
Definition parts (id : IdentID.t) : string :=
  String.append (IdentID.Domain id)
    (String "/" (String.append (IdentID.Kind id) (String "/" (encodeLocal (IdentID.Local id))))).
Definition String_ (id : IdentID.t) : string := String.append Scheme (String.append "://" (parts id)).

(** What [PairKey] feeds to the hash. *)
Definition framed (s : string) : bytes := String.append (be_bytes 8 (uint64 (slen s))) s.
Definition pair_input (x y : string) : bytes := String.append (framed x) (framed y).
Definition PairKey (a b : IdentID.t) : string :=
  let '(x, y) := if str_lt (String_ b) (String_ a) then (String_ b, String_ a)
                 else (String_ a, String_ b) in
  base64url (sha256 (pair_input x y)).

(** ** Lemmas: escaping *)

Lemma replace_slash_id s : free_of "/" s = true → replace_slash s = s.
Proof.
  unfold free_of. induction s as [|c s IH]; [done|]. cbn [all_bytes replace_slash]. intros H.
  apply andb_true_iff in H as [Hc Hs]. apply negb_true_iff in Hc. rewrite Hc. by rewrite IH.
Qed.

Lemma escape_byte c :
  (if should_escape c
   then match unhex (upper_hex (byte_of c / 16)), unhex (upper_hex (byte_of c mod 16)) with
        | Some x, Some y => byte (x * 16 + y) = c ∧ upper_hex (byte_of c / 16) ≠ "/"%char
                            ∧ upper_hex (byte_of c mod 16) ≠ "/"%char
        | _, _ => False
        end
   else c ≠ "%"%char ∧ c ≠ "/"%char).
Proof. destruct c as [[] [] [] [] [] [] [] []]; vm_compute; repeat split; discriminate. Qed.

Lemma PathEscape_free s : free_of "/" (PathEscape s) = true.
Proof.
  unfold free_of. induction s as [|c s IH]; [done|]. cbn [PathEscape].
  pose proof (escape_byte c) as H. destruct (should_escape c).
  - destruct (unhex (upper_hex (byte_of c / 16))), (unhex (upper_hex (byte_of c mod 16))); try done.
    destruct H as (_ & Hx & Hy). cbn [all_bytes].
    rewrite IH, (bool_decide_false _ Hx), (bool_decide_false _ Hy). done.
  - cbn [all_bytes]. by rewrite IH, (bool_decide_false _ (proj2 H)).
Qed.

(** [url.PathEscape] escapes the slash already. *)
Lemma encodeLocal_PathEscape s : encodeLocal s = PathEscape s.
Proof. apply replace_slash_id, PathEscape_free. Qed.

Lemma PathUnescape_PathEscape s : PathUnescape (PathEscape s) = Some s.
Proof.
  induction s as [|c s IH]; [done|]. cbn [PathEscape]. pose proof (escape_byte c) as H.
  destruct (should_escape c).
  - cbn [PathUnescape]. rewrite bool_decide_true by done.
    destruct (unhex (upper_hex (byte_of c / 16))), (unhex (upper_hex (byte_of c mod 16))); try done.
    rewrite IH. cbn. by destruct H as (-> & _).
  - cbn [PathUnescape]. by rewrite (bool_decide_false _ (proj1 H)), IH.
Qed.

(** The local part survives its encoding: it is one path segment,
    whatever bytes it has, and unescaping the segment gives it back. *)
Theorem encodeLocal_roundtrip s :
  free_of "/" (encodeLocal s) = true ∧ PathUnescape (encodeLocal s) = Some s.
Proof. rewrite encodeLocal_PathEscape. split; [apply PathEscape_free | apply PathUnescape_PathEscape]. Qed.

Lemma encodeLocal_inj s t : encodeLocal s = encodeLocal t → s = t.
Proof.
  rewrite !encodeLocal_PathEscape. intros H.
  assert (Some s = Some t) as [= ->]; [|done]. by rewrite <- !PathUnescape_PathEscape, H.
Qed.

(** ** Lemmas: one spelling per identifier *)

Definition well_formed (id : IdentID.t) : Prop :=
  free_of "/" (IdentID.Domain id) = true ∧ valid (IdentID.Kind id) = true.

Lemma valid_free k : valid k = true → free_of "/" k = true.
Proof.
  unfold valid. rewrite !orb_true_iff, !bool_decide_eq_true. intros [[[->| ->]| ->]| ->]; reflexivity.
Qed.

Lemma String_inj a b : well_formed a → well_formed b → String_ a = String_ b → a = b.
Proof.
  intros [Ha Ka] [Hb Kb]. unfold String_. intros H.
  apply append_inj_same_length in H as [_ H]; [|done].
  apply append_inj_same_length in H as [_ H]; [|done]. unfold parts in H.
  apply append_sep_inj in H as [Hd H]; [|done..].
  apply append_sep_inj in H as [Hk H]; [|by apply valid_free..].
  apply encodeLocal_inj in H. destruct a, b; simpl in *; congruence.
Qed.

(** ** The key of a pair *)

Lemma framed_inj a b c d :
  slen a < two63 → slen c < two63 →
  String.append (framed a) b = String.append (framed c) d → a = c ∧ b = d.
Proof.
  intros Ha Hc. unfold framed. rewrite !append_assoc. intros H.
  pose proof (slen_nonneg a). pose proof (slen_nonneg c).
  assert (256 ^ Z.of_nat 8 = two64) as Hp by reflexivity.
  apply append_inj_same_length in H as [Hl H]; [|by rewrite !be_bytes_length].
  rewrite !uint64_id in Hl by (unfold two63, two64 in *; lia).
  apply be_bytes_inj in Hl; [|rewrite Hp; unfold two63, two64 in *; lia..].
  apply append_inj_same_length in H; [done|]. unfold slen in Hl. lia.
Qed.

Lemma pair_input_inj x y x' y' :
  slen x < two63 → slen y < two63 → slen x' < two63 → slen y' < two63 →
  pair_input x y = pair_input x' y' → x = x' ∧ y = y'.
Proof.
  intros Hx Hy Hx' Hy'. unfold pair_input. intros H. apply framed_inj in H as [-> H]; [|done..].
  rewrite <- (append_nil_r (framed y)), <- (append_nil_r (framed y')) in H.
  by apply framed_inj in H as [-> _].
Qed.

(** The two written identifiers in the order [PairKey] hashes them. *)
Definition ordered_pair (a b : IdentID.t) : string * string :=
  if str_lt (String_ b) (String_ a) then (String_ b, String_ a) else (String_ a, String_ b).

Lemma PairKey_eq a b :
  PairKey a b = base64url (sha256 (pair_input (ordered_pair a b).1 (ordered_pair a b).2)).
Proof. unfold PairKey, ordered_pair. by destruct (str_lt _ _). Qed.

Definition writable (id : IdentID.t) : Prop := well_formed id ∧ slen (String_ id) < two63.

(** A pair of users has one key however it is ordered, and two pairs get
    the same key only if they are the same pair, or their hash inputs are a
    collision of SHA-256, exhibited. *)
Theorem PairKey_separates a b c d :
  writable a → writable b → writable c → writable d →
  PairKey a b = PairKey b a ∧
  (PairKey a b = PairKey c d →
   (a = c ∧ b = d) ∨ (a = d ∧ b = c) ∨
   ∃ x y, x ≠ y ∧ sha256 x = sha256 y ∧
     x = pair_input (ordered_pair a b).1 (ordered_pair a b).2 ∧
     y = pair_input (ordered_pair c d).1 (ordered_pair c d).2).
Proof.
  intros [Ha La] [Hb Lb] [Hc Lc] [Hd Ld]. split.
  - unfold PairKey. destruct (str_lt (String_ b) (String_ a)) eqn:E1, (str_lt (String_ a) (String_ b)) eqn:E2;
      try done; [apply str_lt_asym in E1; congruence|]. by rewrite (str_lt_total _ _ E2 E1).
  - rewrite !PairKey_eq. intros H. apply base64url_inj in H.
    destruct (decide (pair_input (ordered_pair a b).1 (ordered_pair a b).2 =
                      pair_input (ordered_pair c d).1 (ordered_pair c d).2)) as [Heq|Hne];
      [|right; right; by eexists _, _].
    unfold ordered_pair in Heq.
    destruct (str_lt (String_ b) (String_ a)), (str_lt (String_ d) (String_ c)); cbn [fst snd] in Heq;
      apply pair_input_inj in Heq as [H1 H2]; try done;
      apply String_inj in H1; apply String_inj in H2; auto.
Qed.

Lemma PairKey_separates_witness :
  let a := IdentID.mk "a.example" KindUser "x" in
  let b := IdentID.mk "b.example" KindUser "y:z" in
  PairKey a b = PairKey b a.
Proof.
  intros a b.
  assert (writable a) as Ha by (split; [split; reflexivity | reflexivity]).
  assert (writable b) as Hb by (split; [split; reflexivity | reflexivity]).
  exact (proj1 (PairKey_separates a b a b Ha Hb Ha Hb)).
Defined.

(** The joined key it replaces does confuse two pairs. *)
Example DirectKey_collides : DirectKey "x" "y:z" = DirectKey "x:y" "z".
Proof. reflexivity. Qed.

(** * Package ident: reading an identifier

    [Parse] of [api/internal/ident/ident.go]. The URL parser of [net/url] and
    [net.ParseIP] are interfaces. *)

Inductive ident_err : Type :=
| ErrEmpty
| ErrScheme
| ErrDomain
| ErrKind
| ErrLocal
| ErrExtraneous
| ErrNotCanonical
| ErrUrl.

(** ** [net/url] and [net] *)

(** What [Parse] asks of a [url.URL]: the fields and the results of its methods
    [Port], [Hostname] and [EscapedPath]; [User] is whether it is not nil. *)
Module URL.
Record t := mk {
  Scheme : string; Port : string; User : bool; RawQuery : string; Fragment : string;
  Hostname : string; EscapedPath : string
}.
End URL.

Class NetUrl := {
  url_Parse : string → option URL.t;
  (** [net.ParseIP(s) != nil] *)
  ParseIP_ok : string → bool
}.

Section Parse.
Context {U : Unicode} {NU : NetUrl}.
Implicit Types (raw d : string).

Definition validDomain d : bool :=
  if (d == "") || (253 <? slen d) then false
  else if ParseIP_ok d then true
  else forallb valid_label (Split d ".") && Contains d ".".

(** [strings.TrimPrefix(s, "/")] *)
Definition trim_slash (s : string) : string :=
  match s with String c s' => if c == "/"%char then s' else s | EmptyString => s end.

Definition printable (c : ascii) : bool := (32 <? byte_of c) && (byte_of c <? 127).

Definition Parse raw : result ident_err IdentID.t :=
  if TrimSpace raw == "" then Err ErrEmpty
  else if negb (all_bytes printable raw) then Err ErrNotCanonical
  else match url_Parse raw with
  | None => Err ErrUrl
  | Some u =>
    if URL.Scheme u != Scheme then Err ErrScheme
    else if (URL.Port u != "") || URL.User u || (URL.RawQuery u != "") || (URL.Fragment u != "") then Err ErrExtraneous
    else
      let domain := lower (URL.Hostname u) in
      if negb (validDomain domain) then Err ErrDomain
      else
        let '(kind, localRaw, found) := Cut (trim_slash (URL.EscapedPath u)) "/" in
        if negb found then Err ErrKind
        else if negb (valid kind) then Err ErrKind
        else if Contains localRaw "/" then Err ErrLocal
        else match PathUnescape localRaw with
             | None => Err ErrUrl
             | Some local => if local == "" then Err ErrLocal else Ok (IdentID.mk domain kind local)
             end
  end.
End Parse.

(** ** What is read is what was written *)

(** The bytes of a host name. *)
Definition host_byte (c : ascii) : bool := label_byte c || (c == "."%char).

(** What [net/url] documents of the identifiers [String_] writes: the host and
    the escaped path of a URL without user, port, query and fragment are the
    texts between the slashes. *)
Class NetUrlLaws {NU : NetUrl} : Prop := {
  url_Parse_plain host kind local :
    host ≠ "" → all_bytes host_byte host = true → valid kind = true →
    url_Parse (String_ (IdentID.mk host kind local)) =
      Some (URL.mk Scheme "" false "" "" host (String "/" (String.append kind (String "/" (encodeLocal local)))))
}.

Lemma host_byte_plain c :
  host_byte c = true → is_ascii c = true ∧ is_space c = false ∧ lower_byte c = c ∧ printable c = true ∧ c ≠ "/"%char.
Proof. destruct c as [[] [] [] [] [] [] [] []]; vm_compute; repeat split; try done; discriminate. Qed.

Lemma printable_plain c : printable c = true → is_ascii c = true ∧ is_space c = false.
Proof. destruct c as [[] [] [] [] [] [] [] []]; vm_compute; done. Qed.

Lemma skip_space_printable {U : Unicode} s : all_bytes printable s = true → skip_space s = (s, false).
Proof.
  destruct s as [|c s]; cbn [all_bytes skip_space]; [done|]. intros [Hc _]%andb_true_iff.
  by apply printable_plain in Hc as [-> ->].
Qed.

Lemma TrimSpace_printable {U : Unicode} s : all_bytes printable s = true → TrimSpace s = s.
Proof.
  intros Hs. unfold TrimSpace. rewrite skip_space_printable by done.
  rewrite skip_space_printable by (by rewrite all_bytes_rev). apply rev_string_involutive.
Qed.

Lemma host_printable s : all_bytes host_byte s = true → all_bytes printable s = true.
Proof. apply all_bytes_impl. intros c Hc. by apply host_byte_plain in Hc as (_ & _ & _ & ? & _). Qed.

Lemma lower_plain {U : Unicode} s : all_bytes host_byte s = true → lower s = s.
Proof.
  intros Hs. unfold lower. rewrite TrimSpace_printable by (by apply host_printable). unfold ToLower.
  rewrite (all_bytes_impl host_byte is_ascii) by (try done; intros c Hc; by apply host_byte_plain in Hc as [? _]).
  induction s as [|c s IH]; cbn [map_bytes all_bytes] in *; [done|]. apply andb_true_iff in Hs as [Hc Hs].
  apply host_byte_plain in Hc as (_ & _ & -> & _). by rewrite IH.
Qed.

Lemma Contains_free s (c : ascii) : free_of c s = true → Contains s (String c "") = false.
Proof.
  unfold free_of. induction s as [|d s IH]; [done|]. cbn [all_bytes Contains HasPrefix].
  intros [Hd Hs]%andb_true_iff. apply negb_true_iff in Hd. rewrite Hd. cbn [andb orb]. by apply IH.
Qed.

Lemma Contains_free_inv s (c : ascii) : Contains s (String c "") = false → free_of c s = true.
Proof.
  unfold free_of. induction s as [|d s IH]; [done|]. cbn [all_bytes Contains HasPrefix].
  intros [Hd Hs]%orb_false_iff. rewrite IH by done.
  assert (Hp : HasPrefix s "" = true) by (by destruct s). rewrite Hp, andb_true_r in Hd. by rewrite Hd.
Qed.

Lemma Split_cons s sep : ∃ w ws, Split s sep = w :: ws.
Proof. destruct s as [|c s]; cbn [Split]; [eauto|]. destruct (_ == _); [eauto|]. destruct (Split s sep); eauto. Qed.

Lemma all_bytes_Split (p : ascii → bool) s sep :
  p sep = true → Forall (fun w => all_bytes p w = true) (Split s sep) → all_bytes p s = true.
Proof.
  intros Hp. induction s as [|c s IH]; [done|]. cbn [Split all_bytes]. case_bool_decide as Hc.
  - subst c. intros [_ Hs]%Forall_cons. by rewrite Hp, IH.
  - destruct (Split_cons s sep) as (w & ws & Hw). rewrite Hw. intros [Hcw Hws]%Forall_cons.
    cbn [all_bytes] in Hcw. apply andb_true_iff in Hcw as [-> Hw']. apply IH. rewrite Hw. by constructor.
Qed.

Lemma labels_plain d : forallb valid_label (Split d ".") = true → all_bytes host_byte d = true.
Proof.
  intros H. apply (all_bytes_Split _ _ "."%char); [done|]. rewrite forallb_forall in H. apply Forall_forall.
  intros w Hw. assert (Hl : valid_label w = true) by (apply H; by apply list_elem_of_In).
  destruct w as [|c w]; [done|]. unfold valid_label in Hl. apply andb_true_iff in Hl as [_ Hl].
  revert Hl. apply all_bytes_impl. intros a Ha. unfold host_byte. by rewrite Ha.
Qed.

Lemma PathEscape_printable s : all_bytes printable (PathEscape s) = true.
Proof.
  induction s as [|c s IH]; [done|]. cbn [PathEscape]. destruct (should_escape c) eqn:E; cbn [all_bytes]; rewrite IH.
  - clear. destruct c as [[] [] [] [] [] [] [] []]; vm_compute; done.
  - revert E. clear. destruct c as [[] [] [] [] [] [] [] []]; vm_compute; done.
Qed.

Lemma valid_printable k : valid k = true → all_bytes printable k = true.
Proof. unfold valid. rewrite !orb_true_iff, !bool_decide_eq_true. intros [[[->| ->]| ->]| ->]; reflexivity. Qed.

Lemma String_printable d k l :
  all_bytes host_byte d = true → valid k = true → all_bytes printable (String_ (IdentID.mk d k l)) = true.
Proof.
  intros Hd Hk. unfold String_, parts. cbn [IdentID.Domain IdentID.Kind IdentID.Local]. rewrite encodeLocal_PathEscape.
  repeat (rewrite !all_bytes_append; cbn [all_bytes]).
  by rewrite PathEscape_printable, (valid_printable k), (host_printable d) by done.
Qed.

(** An identifier whose host is a name with a dot. *)
Definition named (id : IdentID.t) : Prop :=
  forallb valid_label (Split (IdentID.Domain id) ".") = true ∧ Contains (IdentID.Domain id) "." = true ∧
  slen (IdentID.Domain id) ≤ 253 ∧ valid (IdentID.Kind id) = true ∧ IdentID.Local id ≠ "".

(** Whatever [Parse] accepts has a valid kind and a local part, so two
    identifiers it accepts are equal when they are written the same; and it
    reads back every identifier of a named host from its written form. *)
Theorem Parse_String {U : Unicode} {NU : NetUrl} {L : NetUrlLaws} raw id :
  (Parse raw = Ok id → valid (IdentID.Kind id) = true ∧ IdentID.Local id ≠ "" ∧
     validDomain (IdentID.Domain id) = true) ∧
  (named id → Parse (String_ id) = Ok id).
Proof.
  split.
  - unfold Parse. destruct (_ == _); [done|]. destruct (negb _); [done|]. destruct (url_Parse raw) as [u|]; [|done].
    destruct (_ != _); [done|]. destruct (_ || _); [done|]. destruct (negb (validDomain _)) eqn:Hd; [done|].
    destruct (Cut _ _) as [[kind localRaw] found]. destruct (negb found); [done|].
    destruct (negb (valid kind)) eqn:Hk; [done|]. destruct (Contains localRaw "/"); [done|].
    destruct (PathUnescape localRaw) as [local|]; [|done]. case_bool_decide; [done|]. intros [= <-].
    apply negb_false_iff in Hd, Hk. done.
  - intros (Hl & Hdot & Hlen & Hk & Hloc). destruct id as [d k l].
    cbn [IdentID.Domain IdentID.Kind IdentID.Local] in *. pose proof (labels_plain d Hl) as Hp.
    assert (Hne : d ≠ "") by (intros ->; done).
    pose proof (String_printable d k l Hp Hk) as Hprint. unfold Parse. rewrite (TrimSpace_printable _ Hprint), Hprint.
    cbn [negb].
    rewrite (bool_decide_eq_false_2 (_ = "")) by done.
    rewrite (url_Parse_plain d k l) by done. cbn [URL.Scheme URL.Port URL.User URL.RawQuery URL.Fragment URL.Hostname
      URL.EscapedPath]. change (Scheme != Scheme) with false. cbn [orb negb]. rewrite lower_plain by done.
    unfold validDomain. rewrite (bool_decide_eq_false_2 (d = "")) by done.
    rewrite (proj2 (Z.ltb_ge 253 (slen d))) by done. cbn [orb].
    replace (if ParseIP_ok d then true else _) with true by (by rewrite Hl, Hdot; destruct (ParseIP_ok d)). cbn [negb].
    cbn [trim_slash]. rewrite (bool_decide_eq_true_2 ("/"%char = "/"%char)) by done. rewrite Cut_free by (by apply valid_free). cbn [negb].
    rewrite Hk. cbn [negb]. rewrite encodeLocal_PathEscape, Contains_free by apply PathEscape_free.
    rewrite PathUnescape_PathEscape. by rewrite (bool_decide_eq_false_2 (l = "")).
Qed.

(** A stand-in for [url.Parse] on plain URLs, on which the witness evaluates. *)
Definition host_or_upper (c : ascii) : bool := host_byte c || is_upper c.
Definition simple_url : NetUrl := {|
  url_Parse raw :=
    rest ← strip_prefix "mimi://" raw;
    let '(host, path, _) := Cut rest "/" in
    if negb (all_bytes host_or_upper host) || Contains path "?" || Contains path "#" then None
    else Some (URL.mk "mimi" "" false "" "" host (String "/" path));
  ParseIP_ok d := false
|}.

Lemma PathEscape_no c s : should_escape c = true → c ≠ "%"%char → is_upper c = false → is_digit c = false →
  free_of c (PathEscape s) = true.
Proof.
  intros Hc Hp Hu Hd. unfold free_of. induction s as [|d s IH]; [done|]. cbn [PathEscape].
  destruct (should_escape d) eqn:E; cbn [all_bytes]; rewrite IH.
  - rewrite (bool_decide_eq_false_2 ("%"%char = c)) by congruence. cbn [negb andb].
    assert (∀ z, 0 ≤ z < 16 → (upper_hex z != c) = true) as H.
    { intros z Hz. apply negb_true_iff, bool_decide_eq_false_2. intros <-. revert Hu Hd.
      assert (z = 0 ∨ z = 1 ∨ z = 2 ∨ z = 3 ∨ z = 4 ∨ z = 5 ∨ z = 6 ∨ z = 7 ∨ z = 8 ∨ z = 9 ∨ z = 10 ∨ z = 11 ∨ z = 12
        ∨ z = 13 ∨ z = 14 ∨ z = 15) as Hcases by lia.
      repeat destruct Hcases as [->|Hcases]; try (subst; vm_compute; done). }
    pose proof (byte_of_range d). rewrite !H; [done| |].
    + apply Z.mod_pos_bound. lia.
    + split; [apply Z.div_pos; lia|]. apply Z.div_lt_upper_bound; lia.
  - rewrite andb_true_r. apply negb_true_iff, bool_decide_eq_false_2. congruence.
Qed.

Lemma free_of_append c a b : free_of c (String.append a b) = free_of c a && free_of c b.
Proof. apply all_bytes_append. Qed.

#[local] Instance simple_url_laws : NetUrlLaws (NU := simple_url).
Proof.
  constructor. intros host kind local Hne Hh Hk. cbn [url_Parse simple_url]. unfold String_, parts.
  cbn [IdentID.Domain IdentID.Kind IdentID.Local]. unfold Scheme. cbn [String.append strip_prefix].
  rewrite !bool_decide_eq_true_2 by done. cbn [mbind option_bind]. rewrite Cut_free.
  2:{ revert Hh. apply all_bytes_impl. intros c Hc. apply negb_true_iff, bool_decide_eq_false_2.
      by apply host_byte_plain in Hc as (_ & _ & _ & _ & ?). }
  rewrite (all_bytes_impl host_byte host_or_upper) by (try done; intros c Hc; unfold host_or_upper; by rewrite Hc).
  rewrite encodeLocal_PathEscape.
  assert (∀ c, c = "?"%char ∨ c = "#"%char → free_of c (String.append kind (String "/" (PathEscape local))) = true) as Hf.
  { intros c Hc. rewrite free_of_append. unfold valid in Hk. rewrite !orb_true_iff, !bool_decide_eq_true in Hk.
    change (String "/" (PathEscape local)) with (String.append "/" (PathEscape local)). rewrite free_of_append.
    rewrite PathEscape_no by (destruct Hc as [->| ->]; done).
    destruct Hk as [[[->| ->]| ->]| ->], Hc as [->| ->]; reflexivity. }
  by rewrite !Contains_free by auto.
Qed.

Lemma Parse_String_witness :
  Parse (U := ascii_only) (NU := simple_url) "mimi://b.example/u/y%2Fz" = Ok (IdentID.mk "b.example" KindUser "y/z").
Proof.
  apply (proj2 (Parse_String (U := ascii_only) (NU := simple_url) "" (IdentID.mk "b.example" KindUser "y/z"))).
  split_and!; [vm_compute; reflexivity.. | | done | done]. vm_compute. discriminate.
Defined.

(** An identifier has more than one spelling that [Parse] accepts: the host is
    folded to lower case, and escapes that need not be there are removed. *)
Example Parse_not_canonical :
  let r := Parse (U := ascii_only) (NU := simple_url) "mimi://A.example/u/%61lice" in
  r = Ok (IdentID.mk "a.example" KindUser "alice") ∧
  String_ (IdentID.mk "a.example" KindUser "alice") = "mimi://a.example/u/alice".
Proof. vm_compute. done. Qed.
