(* ===== verification/Otp.v ===== *)
(** * Packages otp and invite: one-time codes

    [api/internal/otp/otp.go] and [otp_memory.go]: pending signups, password
    resets and send cooldowns, each with its lazy expiry; and the codes
    themselves, here and in [api/internal/invite/invite.go], which are kept
    only as hashes. [now] is what the store's clock reads. *)

From S2P Require Import Prelude.
From S2P Require Import GoStrings.
From S2P Require Import Domain.
From S2P Require Import Crypto.

Definition MaxAttempts : Z := 3.

Inductive otp_err : Type := OtpNotFound.

Module Signup.
Record t := mk {
  Email : string; PasswordHash : string; CodeHash : string; Attempts : Z; InviteID : string
}.
Definition zero : t := mk "" "" "" 0 "".
#[global] Instance eta : Eta t := fun r =>
  mk (Email r) (PasswordHash r) (CodeHash r) (Attempts r) (InviteID r).
End Signup.

Module Reset_.
Record t := mk { Email : string; UserID : string; CodeHash : string; Attempts : Z }.
Definition zero : t := mk "" "" "" 0.
#[global] Instance eta : Eta t := fun r => mk (Email r) (UserID r) (CodeHash r) (Attempts r).
End Reset_.

Module signupEntry.
Record t := mk { signup : Signup.t; expires : time }.
End signupEntry.

Module resetEntry.
Record t := mk { reset : Reset_.t; expires : time }.
End resetEntry.

Module OtpMemory.
Record t := mk {
  signups : gmap string signupEntry.t;
  resets : gmap string resetEntry.t;
  cooldowns : gmap string time
}.
#[global] Instance eta : Eta t := fun r => mk (signups r) (resets r) (cooldowns r).
Definition NewMemory : t := mk ∅ ∅ ∅.

Definition PutSignup (m : t) (now : time) (s : Signup.t) (ttl : Z) : t :=
  m <| signups := <[Signup.Email s := signupEntry.mk s (now + ttl)]> (signups m) |>.

(** The entry under an email that has not expired. *)
Definition live_signup (m : t) (now : time) (email : string) : option signupEntry.t :=
  match signups m !! email with
  | Some e => if After now (signupEntry.expires e) then None else Some e
  | None => None
  end.

Definition GetSignup (m : t) (now : time) (email : string) : t * result otp_err Signup.t :=
  match live_signup m now email with
  | Some e => (m, Ok (signupEntry.signup e))
  | None => (m <| signups := delete email (signups m) |>, Err OtpNotFound)
  end.

Definition IncrSignupAttempts (m : t) (now : time) (email : string) : t * result otp_err Z :=
  match live_signup m now email with
  | Some e =>
      let n := wrap64 (Signup.Attempts (signupEntry.signup e) + 1) in
      let s := (signupEntry.signup e) <| Signup.Attempts := n |> in
      (m <| signups := <[email := signupEntry.mk s (signupEntry.expires e)]> (signups m) |>, Ok n)
  | None => (m <| signups := delete email (signups m) |>, Err OtpNotFound)
  end.

Definition DelSignup (m : t) (email : string) : t := m <| signups := delete email (signups m) |>.

Definition PutReset (m : t) (now : time) (r : Reset_.t) (ttl : Z) : t :=
  m <| resets := <[Reset_.Email r := resetEntry.mk r (now + ttl)]> (resets m) |>.

Definition live_reset (m : t) (now : time) (email : string) : option resetEntry.t :=
  match resets m !! email with
  | Some e => if After now (resetEntry.expires e) then None else Some e
  | None => None
  end.

Definition GetReset (m : t) (now : time) (email : string) : t * result otp_err Reset_.t :=
  match live_reset m now email with
  | Some e => (m, Ok (resetEntry.reset e))
  | None => (m <| resets := delete email (resets m) |>, Err OtpNotFound)
  end.

Definition IncrResetAttempts (m : t) (now : time) (email : string) : t * result otp_err Z :=
  match live_reset m now email with
  | Some e =>
      let n := wrap64 (Reset_.Attempts (resetEntry.reset e) + 1) in
      let r := (resetEntry.reset e) <| Reset_.Attempts := n |> in
      (m <| resets := <[email := resetEntry.mk r (resetEntry.expires e)]> (resets m) |>, Ok n)
  | None => (m <| resets := delete email (resets m) |>, Err OtpNotFound)
  end.

Definition DelReset (m : t) (email : string) : t := m <| resets := delete email (resets m) |>.

Definition CooldownOK (m : t) (now : time) (key : string) (ttl : Z) : t * bool :=
  let held := match cooldowns m !! key with Some until => Before now until | None => false end in
  if held then (m, false)
  else (m <| cooldowns := <[key := now + ttl]> (cooldowns m) |>, true).
End OtpMemory.

(** ** Codes *)

(** [fmt.Sprintf("%06d", n)] for a number below a million, what [GenerateCode]
    makes of the number it draws. *)
Definition digit (n : Z) : ascii := byte (48 + n mod 10).
Definition GenerateCode_of (n : Z) : string :=
  String (digit (n / 100000)) (String (digit (n / 10000)) (String (digit (n / 1000))
    (String (digit (n / 100)) (String (digit (n / 10)) (String (digit n) EmptyString))))).

Definition HashCode (code : string) : string := hex (sha256 code).
(** [subtle.ConstantTimeCompare(a, b) == 1] is equality. *)
Definition EqualCode (code hash : string) : bool := HashCode code == hash.

Module InviteCode.
Definition PrefixLen : Z := 6.
Section Invite.
Context {U : Unicode}.
Definition Normalize (code : string) : string := TrimSpace code.
Definition HashCode (code : string) : string := hex (sha256 (Normalize code)).
Definition EqualCode (code hash : string) : bool := HashCode code == hash.
Definition Prefix (code : string) : string :=
  let c := Normalize code in
  if slen c <=? PrefixLen then c else string_take 6 c.
End Invite.
(** What [GenerateCode] makes of the sixteen bytes it draws. *)
Definition GenerateCode_of (b : bytes) : string := base64url b.
End InviteCode.

(** ** Lemmas *)

Lemma live_signup_PutSignup m now s ttl now' :
  OtpMemory.live_signup (OtpMemory.PutSignup m now s ttl) now' (Signup.Email s) =
  if After now' (now + ttl) then None else Some (signupEntry.mk s (now + ttl)).
Proof. unfold OtpMemory.live_signup, OtpMemory.PutSignup. cbn. by rewrite lookup_insert_eq. Qed.

(** ** Send cooldowns *)

(** A run of [CooldownOK] calls for one key, at their times; the times at which
    a code was sent. *)
Fixpoint sends (m : OtpMemory.t) (key : string) (ttl : Z) (at_ : list time) : list time :=
  match at_ with
  | [] => []
  | now :: rest =>
      let '(m, ok) := OtpMemory.CooldownOK m now key ttl in
      (if ok then [now] else []) ++ sends m key ttl rest
  end.

Lemma sends_after m key ttl at_ (until : time) :
  OtpMemory.cooldowns m !! key = Some until → 0 ≤ ttl →
  Forall (fun t => until ≤ t) (sends m key ttl at_) ∧
  StronglySorted (fun t u => t + ttl ≤ u) (sends m key ttl at_).
Proof.
  revert m until. induction at_ as [|now at_ IH]; intros m until Hm Ht; [split; constructor|].
  cbn [sends]. unfold OtpMemory.CooldownOK. rewrite Hm. unfold Before.
  destruct (Z.ltb_spec now until); cbn [app]; [by apply IH|].
  destruct (IH (m <| OtpMemory.cooldowns := <[key := now + ttl]> (OtpMemory.cooldowns m) |>) (now + ttl))
    as [Hf Hs]; [cbn; by rewrite lookup_insert_eq | done |].
  split; constructor; try done. eapply Forall_impl; [exact Hf|]. cbn. lia.
Qed.

(** However often a code is asked for, two sends for one key are at least
    the cooldown apart, even if the clock is stepped back in between. *)
Theorem cooldown_spaces_sends m key ttl at_ :
  0 ≤ ttl → StronglySorted (fun t u => t + ttl ≤ u) (sends m key ttl at_).
Proof.
  revert m. induction at_ as [|now at_ IH]; intros m Ht; [constructor|].
  destruct (OtpMemory.cooldowns m !! key) as [until|] eqn:E; [by eapply sends_after|].
  cbn [sends]. unfold OtpMemory.CooldownOK. rewrite E. cbn [app].
  destruct (sends_after (m <| OtpMemory.cooldowns := <[key := now + ttl]> (OtpMemory.cooldowns m) |>)
    key ttl at_ (now + ttl)) as [Hf Hs]; [cbn; by rewrite lookup_insert_eq | done |].
  by constructor.
Qed.

Lemma cooldown_spaces_sends_witness :
  sends OtpMemory.NewMemory "k" 10 [5; 7; 3; 15; 16] = [5; 15] ∧
  StronglySorted (fun t u => t + 10 ≤ u) (sends OtpMemory.NewMemory "k" 10 [5; 7; 3; 15; 16]).
Proof. split; [reflexivity|]. apply (cooldown_spaces_sends OtpMemory.NewMemory "k" 10). discriminate. Defined.
