(* ===== verification/Calls.v ===== *)
(** * Packages calls and idempotency: short-lived agreements

    [api/internal/calls/mailbox.go]: the ordered mailbox of a call's signals and
    the lock that decides which device answered; and
    [api/internal/idempotency/idempotency.go]: the keys already taken. Both
    expire lazily; [now] is the clock at the call. *)

From S2P Require Import Prelude.
From S2P Require Import Domain.

(** ** The mailbox *)

Definition TTL : Z := 2 * Minute.

Module Signal.
Record t := mk { Seq : Z; Ciphertext : bytes }.
End Signal.

Module memCall.
Record t := mk { signals : list Signal.t; winner : string; expires : time }.
#[global] Instance eta : Eta t := fun r => mk (signals r) (winner r) (expires r).
End memCall.

(** The map of pointers: a method reads the call, changes it and writes it
    back under the lock. *)
Abbreviation mailbox := (gmap string memCall.t).

Definition liveCall (m : mailbox) (now : time) (callID : string) : memCall.t :=
  match m !! callID with
  | Some c => if After now (memCall.expires c) then memCall.mk [] "" (now + TTL) else c
  | None => memCall.mk [] "" (now + TTL)
  end.

Definition Append (m : mailbox) (now : time) (callID : string) (ciphertext : bytes)
  : mailbox * Signal.t :=
  let c := liveCall m now callID in
  let s := Signal.mk (Z.of_nat (length (memCall.signals c)) + 1) ciphertext in
  (<[callID := c <| memCall.signals := memCall.signals c ++ [s] |>]> m, s).

Definition Since (m : mailbox) (now : time) (callID : string) (seq : Z) : list Signal.t :=
  match m !! callID with
  | None => []
  | Some c =>
      if After now (memCall.expires c) then []
      else
        let seq := if seq <? 0 then 0 else seq in
        if Z.of_nat (length (memCall.signals c)) <=? seq then []
        else drop (Z.to_nat seq) (memCall.signals c)
  end.

Definition Claim (m : mailbox) (now : time) (callID deviceID : string) : mailbox * (string * bool) :=
  let c := liveCall m now callID in
  if memCall.winner c == ""
  then (<[callID := c <| memCall.winner := deviceID |>]> m, (deviceID, true))
  else (<[callID := c]> m, (memCall.winner c, memCall.winner c == deviceID)).

(** ** Idempotency keys *)

Definition Window : Z := 24 * Hour.
Definition sweepThreshold : Z := 1024.

Section Seen.
Context {RO : RangeOrder}.

Definition Seen (seen : gmap string time) (now : time) (key : string) (window : Z)
  : gmap string time * bool :=
  let held := match seen !! key with Some expires => Before now expires | None => false end in
  if held then (seen, true)
  else
    let seen := if sweepThreshold <? Z.of_nat (size seen)
                then range_delete (fun expires => After now expires) seen else seen in
    (<[key := now + window]> seen, false).
End Seen.

(** ** Lemmas: one answer per call *)

(** The calls on a mailbox, by any devices, about any calls. *)
Inductive mail_call : Type :=
| MailAppend (callID : string) (ciphertext : bytes)
| MailClaim (callID deviceID : string).

Definition mail_step (m : mailbox) (now : time) (c : mail_call) : mailbox * option (string * bool) :=
  match c with
  | MailAppend id ct => ((Append m now id ct).1, None)
  | MailClaim id dev => let '(m, r) := Claim m now id dev in (m, Some r)
  end.

(** The answers to the claims of one call over a run, with their devices. *)
Fixpoint claim_answers (callID : string) (m : mailbox) (run : list (time * mail_call))
  : list (string * (string * bool)) :=
  match run with
  | [] => []
  | (now, c) :: rest =>
      let '(m, o) := mail_step m now c in
      (match c, o with
       | MailClaim id dev, Some r => if id == callID then [(dev, r)] else []
       | _, _ => []
       end) ++ claim_answers callID m rest
  end.

Definition names_device (c : mail_call) : Prop :=
  match c with MailClaim _ dev => dev ≠ "" | MailAppend _ _ => True end.

Lemma liveCall_live m now callID c :
  m !! callID = Some c → now ≤ memCall.expires c → liveCall m now callID = c.
Proof.
  intros Hc Hn. unfold liveCall, After. rewrite Hc. by rewrite (proj2 (Z.ltb_ge _ _)).
Qed.

(** While a call that has a winner lives, every claim of it is answered with
    that winner. *)
Lemma claims_settled callID m run c w :
  m !! callID = Some c → memCall.winner c = w → w ≠ "" →
  Forall (fun tc => tc.1 ≤ memCall.expires c) run →
  Forall (fun a => a.2 = (w, w == a.1)) (claim_answers callID m run).
Proof.
  revert m c. induction run as [|[now [id ct|id dev]] run IH]; intros m c Hc Hw Hne Hr; [constructor|..];
    apply Forall_cons in Hr as [Hn Hr]; cbn [fst] in Hn; cbn [claim_answers mail_step].
  - unfold Append. cbn [fst app]. destruct (decide (id = callID)) as [->|Hid].
    + rewrite (liveCall_live _ _ _ _ Hc Hn). eapply IH; [by rewrite lookup_insert_eq | done..].
    + eapply IH; [by rewrite lookup_insert_ne | done..].
  - unfold Claim. destruct (bool_decide_reflect (id = callID)) as [->|Hid].
    + rewrite (liveCall_live _ _ _ _ Hc Hn), Hw, bool_decide_false by done.
      constructor; [done|]. eapply IH; [by rewrite lookup_insert_eq | done..].
    + destruct (_ == ""); (eapply IH; [by rewrite lookup_insert_ne | done..]).
Qed.

(** A call that lives and has no winner takes the first device that claims it. *)
Lemma claims_open callID m c t0 run dev r rest :
  m !! callID = Some c → memCall.winner c = "" → t0 + TTL ≤ memCall.expires c →
  Forall (fun tc => names_device tc.2) run → Forall (fun tc => t0 ≤ tc.1 ≤ t0 + TTL) run →
  claim_answers callID m run = (dev, r) :: rest →
  r = (dev, true) ∧ Forall (fun a => a.2 = (dev, dev == a.1)) rest.
Proof.
  revert m c. induction run as [|[now [id ct|id d]] run IH]; intros m c Hc Hw Hx Hn Ht; [done|..];
    apply Forall_cons in Hn as [Hd Hn]; apply Forall_cons in Ht as [Hnow Ht]; cbn [fst snd] in *;
    cbn [claim_answers mail_step].
  - unfold Append. cbn [fst app]. destruct (decide (id = callID)) as [->|Hne].
    + rewrite (liveCall_live m now callID c Hc) by lia.
      eapply IH; [by rewrite lookup_insert_eq | done..].
    + eapply IH; [by rewrite lookup_insert_ne | done..].
  - unfold Claim. destruct (bool_decide_reflect (id = callID)) as [->|Hne].
    + rewrite (liveCall_live m now callID c Hc) by lia. rewrite Hw. cbn [app].
      intros [= -> <- <-]. split; [done|].
      eapply (claims_settled callID _ run (c <| memCall.winner := dev |>));
        [by rewrite lookup_insert_eq | done | done |].
      eapply Forall_impl; [exact Ht|]. cbn. lia.
    + destruct (_ == ""); (eapply IH; [by rewrite lookup_insert_ne | done..]).
Qed.

(** Exactly one device answers: of all the claims of a call made within
    its life, in whatever order they reach the mailbox and whatever signals
    arrive in between, the first device wins, every claim is told that same
    winner, and a claim is told it won exactly when it comes from that device,
    so that a retry of the winner does not lose to itself. *)
Theorem one_device_answers callID m run t0 dev r rest :
  m !! callID = None →
  Forall (fun tc => names_device tc.2) run →
  Forall (fun tc => t0 ≤ tc.1 ≤ t0 + TTL) run →
  claim_answers callID m run = (dev, r) :: rest →
  r = (dev, true) ∧ Forall (fun a => a.2 = (dev, dev == a.1)) rest.
Proof.
  revert m. induction run as [|[now [id ct|id d]] run IH]; intros m Hm Hn Ht; [done|..];
    apply Forall_cons in Hn as [Hd Hn]; apply Forall_cons in Ht as [Hnow Ht]; cbn [fst snd] in *;
    cbn [claim_answers mail_step].
  - unfold Append. cbn [fst app]. destruct (decide (id = callID)) as [->|Hne].
    + unfold liveCall. rewrite Hm.
      eapply (claims_open _ _ _ t0); [by rewrite lookup_insert_eq | done | cbn; lia | done..].
    + apply IH; [by rewrite lookup_insert_ne | done..].
  - unfold Claim. destruct (bool_decide_reflect (id = callID)) as [->|Hne].
    + unfold liveCall. rewrite Hm. cbn. intros [= -> <- <-]. split; [done|].
      eapply (claims_settled callID _ run (memCall.mk [] dev (now + TTL)));
        [by rewrite lookup_insert_eq | done | done |].
      eapply Forall_impl; [exact Ht|]. cbn. lia.
    + destruct (_ == ""); (apply IH; [by rewrite lookup_insert_ne | done..]).
Qed.

Lemma one_device_answers_witness :
  let run := [(5, MailAppend "call" ""); (7, MailClaim "call" "d1"); (8, MailClaim "other" "d3");
              (9, MailClaim "call" "d2"); (10, MailClaim "call" "d1")] in
  claim_answers "call" ∅ run =
    [("d1", ("d1", true)); ("d2", ("d1", false)); ("d1", ("d1", true))] ∧
  Forall (fun a => a.2 = ("d1", "d1" == a.1)) [("d2", ("d1", false)); ("d1", ("d1", true))].
Proof.
  cbn zeta. split; [by vm_compute|].
  refine (proj2 (one_device_answers "call" ∅ [(5, MailAppend "call" ""); (7, MailClaim "call" "d1");
    (8, MailClaim "other" "d3"); (9, MailClaim "call" "d2"); (10, MailClaim "call" "d1")] 0
    "d1" ("d1", true) _ _ _ _ _)).
  - apply lookup_empty.
  - by repeat constructor.
  - repeat constructor; vm_compute; discriminate.
  - by vm_compute.
Defined.

(** ** Lemmas: one request per key *)

(** A run of requests, each under its key; which of them were told "new". *)
Section SeenRun.
Context {RO : RangeOrder}.

Fixpoint fresh (seen : gmap string time) (window : Z) (key : string) (run : list (time * string))
  : list time :=
  match run with
  | [] => []
  | (now, k) :: rest =>
      let '(seen, dup) := Seen seen now k window in
      (if (k == key) && negb dup then [now] else []) ++ fresh seen window key rest
  end.

Lemma fresh_after seen window key run (until : time) :
  seen !! key = Some until → Forall (fun tk => tk.1 < until) run →
  fresh seen window key run = [].
Proof.
  revert seen. induction run as [|[now k] run IH]; intros seen Hs Hr; [done|].
  apply Forall_cons in Hr as [Hn Hr]; cbn [fst] in Hn. cbn [fresh].
  destruct (Seen seen now k window) as [seen' dup] eqn:E. unfold Seen in E.
  destruct (bool_decide_reflect (k = key)) as [->|Hk].
  - rewrite Hs in E. unfold Before in E. rewrite (proj2 (Z.ltb_lt _ _)) in E by done.
    injection E as <- <-. cbn. by apply IH.
  - cbn [andb app]. apply IH; [|done].
    destruct (match seen !! k with Some _ => _ | None => _ end); injection E as <- _; [done|].
    rewrite lookup_insert_ne by done. destruct (_ <? _); [|done].
    apply range_delete_Some. split; [done|]. unfold After. apply Z.ltb_ge. lia.
Qed.

(** A request sent again is taken once: of all the requests under one key
    that arrive within the window of the first, whatever other keys arrive in
    between and however often the expired keys are swept, only the first is
    told it is new. *)
Theorem Seen_takes_once seen window key now run :
  seen !! key = None → Forall (fun tk => tk.1 < now + window) run →
  fresh seen window key ((now, key) :: run) = [now].
Proof.
  intros Hs Hr. cbn [fresh]. unfold Seen at 1. rewrite Hs.
  rewrite bool_decide_true by done. cbn.
  erewrite fresh_after; [done | by rewrite lookup_insert_eq | done].
Qed.
End SeenRun.

Lemma Seen_takes_once_witness :
  fresh (RO := order_fwd) ∅ Window "k" [(5, "k"); (6, "j"); (7, "k"); (6 + Hour, "k")] = [5].
Proof.
  apply (Seen_takes_once (RO := order_fwd) ∅ Window "k" 5 [(6, "j"); (7, "k"); (6 + Hour, "k")]).
  - apply lookup_empty.
  - repeat constructor; by vm_compute.
Defined.
