(* ===== verification/Federation.v ===== *)
(** * Package federation: signed requests between hosts

    [api/internal/federation/signing.go]: the canonical string, [Sign] and
    [Verify]. A host looks the sender's key up in its node list
    ([Nodelist.NodeStore.KeyFor], the [lookup] argument) and marks each nonce in
    a replay guard, an interface that [Calls.Seen] implements. *)

From Stdlib Require Import Ascii.
From S2P Require Import Prelude.
From S2P Require Import GoStrings.
From S2P Require Import Domain.
From S2P Require Import Crypto.
From S2P Require Import Strconv.
From S2P Require Import Nodelist.
From S2P Require Import Calls.

Definition HeaderOrigin : string := "Pheme-Origin".
Definition HeaderKeyID : string := "Pheme-Key-Id".
Definition HeaderTimestamp : string := "Pheme-Timestamp".
Definition HeaderNonce : string := "Pheme-Nonce".
Definition HeaderSignature : string := "Pheme-Signature".
Definition scheme : string := "pheme-s2s-v2".
Definition MaxSkew : Z := 5 * Minute.

Inductive fed_err : Type :=
| ErrMissingHeaders | ErrBadTimestamp | ErrStale | ErrBadSignature | ErrReplayed
| ErrLookup (e : node_err) | ErrGuard.

(** The parts of an [http.Request] that are signed. The path is the decoded
    [URL.Path]; a header has one value, and an absent one reads as empty. *)
Module Request.
Record t := mk { Method : string; Path : string; Header : gmap string string }.
#[global] Instance eta : Eta t := fun r => mk (Method r) (Path r) (Header r).
Definition Get (r : t) (name : string) : string := default "" (Header r !! name).
Definition Set_ (r : t) (name value : string) : t := r <| Header := <[name := value]> (Header r) |>.
End Request.

Module Verified.
Record t := mk { Origin : string; KeyID : string }.
End Verified.

(** What [Verify] asks of a replay guard: whether the key was seen, after which
    it is; [None] when the guard is unavailable. *)
Class ReplayGuard (G : Type) := {
  guard_Seen : G → time → string → Z → G * option bool
}.

#[global] Instance memory_guard {RO : RangeOrder} : ReplayGuard (gmap string time) := {|
  guard_Seen g now key window := let '(g, seen) := Seen g now key window in (g, Some seen)
|}.

Section Federation.
Context {U : Unicode} {E : Ed25519} {G : Type} {RG : ReplayGuard G}.
Implicit Types (req : Request.t) (origin destination keyID : string) (now : time).

Definition canonicalString (method path origin destination keyID timestamp nonce : string)
  (body : bytes) : string :=
  Join [scheme; ToUpper method; path; origin; ToLower (TrimSpace destination); keyID; timestamp;
        nonce; base64url (sha256 body)] (String "010" "").

Definition encodeSig (sig : bytes) : string := base64url sig.

(** [random] is what [newNonce] draws. *)
Definition Sign req origin destination keyID (key body : bytes) now (random : bytes) : Request.t :=
  let nonce := base64url random in
  let ts := FormatInt (Unix now) in
  let canon := canonicalString (Request.Method req) (Request.Path req) origin destination keyID ts
                 nonce body in
  let sig := ed_sign key canon in
  let req := Request.Set_ req HeaderOrigin origin in
  let req := Request.Set_ req HeaderKeyID keyID in
  let req := Request.Set_ req HeaderTimestamp ts in
  let req := Request.Set_ req HeaderNonce nonce in
  Request.Set_ req HeaderSignature (encodeSig sig).

(** A timestamp so far off that [time.Unix] wraps is as far from [now] as the
    [Z] it would have been, so that both are stale. *)
Definition stale now (ts : Z) : bool :=
  let d := Sub now (unixTime ts) in (MaxSkew <? d) || (d <? - MaxSkew).

Definition replay_key origin (nonce : string) : string :=
  String.append scheme (String.append ":" (String.append origin (String.append ":" nonce))).

(** The guard is asked last; [clock] is its own clock by then. *)
Definition check_replay (replay : option G) (clock : time) origin nonce
  : option G * option fed_err :=
  match replay with
  | None => (None, None)
  | Some g =>
      let '(g, seen) := guard_Seen g clock (replay_key origin nonce) (2 * MaxSkew) in
      (Some g, match seen with
               | None => Some ErrGuard
               | Some true => Some ErrReplayed
               | Some false => None
               end)
  end.

(** [None] is a panic of [ed25519.Verify]. *)
Definition Verify (lookup : string → result node_err (option bytes)) req (body : bytes) now
  destination (replay : option G) (clock : time) : option (option G * result fed_err Verified.t) :=
  let origin := Request.Get req HeaderOrigin in
  let keyID := Request.Get req HeaderKeyID in
  let tsStr := Request.Get req HeaderTimestamp in
  let nonce := Request.Get req HeaderNonce in
  let sigStr := Request.Get req HeaderSignature in
  if (origin == "") || (keyID == "") || (tsStr == "") || (nonce == "") || (sigStr == "")
  then Some (replay, Err ErrMissingHeaders)
  else match ParseInt tsStr with
  | None => Some (replay, Err ErrBadTimestamp)
  | Some ts =>
  if stale now ts then Some (replay, Err ErrStale)
  else match base64url_decode (TrimRight sigStr "=") with
  | None => Some (replay, Err ErrBadSignature)
  | Some sig =>
  if slen sig != SignatureSize then Some (replay, Err ErrBadSignature)
  else match lookup origin with
  | Err e => Some (replay, Err (ErrLookup e))
  | Ok key =>
  let key := default "" key in
  if slen key != PublicKeySize then Some (replay, Err ErrBadSignature)
  else
    let canon := canonicalString (Request.Method req) (Request.Path req) origin destination keyID
                   tsStr nonce body in
    match ed25519_Verify key canon sig with
    | None => None
    | Some false => Some (replay, Err ErrBadSignature)
    | Some true =>
        match check_replay replay clock origin nonce with
        | (replay, Some e) => Some (replay, Err e)
        | (replay, None) => Some (replay, Ok (Verified.mk origin keyID))
        end
    end
  end end end.
End Federation.

(** ** Lemmas: the canonical string *)

(** What a header value or a method can be: no line break in it. *)
Definition one_line (s : string) : bool := free_of "010" s.

Lemma canonical_tail {U : Unicode} o d k t n h :
  one_line o = true → one_line d = true → one_line k = true → one_line t = true →
  one_line n = true → one_line h = true →
  count_byte "010" (Join [o; d; k; t; n; h] (String "010" "")) = 5%nat.
Proof.
  intros. cbn [Join]. rewrite !count_byte_append.
  change (count_byte "010" (String "010" "")) with 1%nat. by rewrite !count_byte_free.
Qed.

Lemma hash_one_line body : one_line (base64url (sha256 body)) = true.
Proof. by apply base64url_free_of. Qed.

(** What a signature covers: two requests have the same canonical string
    only if they agree on the method (up to case), the path, the sender, the
    destination (up to case and blanks around it), the key, the timestamp, the
    nonce and the digest of the body. The path may hold any bytes, line breaks
    too. *)
Theorem canonical_binds {U : Unicode} m p o d k t n b m' p' o' d' k' t' n' b' :
  Forall (fun s => one_line s = true)
    [ToUpper m; o; ToLower (TrimSpace d); k; t; n; ToUpper m'; o'; ToLower (TrimSpace d'); k'; t'; n'] →
  canonicalString m p o d k t n b = canonicalString m' p' o' d' k' t' n' b' →
  ToUpper m = ToUpper m' ∧ p = p' ∧ o = o' ∧ ToLower (TrimSpace d) = ToLower (TrimSpace d') ∧
  k = k' ∧ t = t' ∧ n = n' ∧ sha256 b = sha256 b'.
Proof.
  intros Hl Hc. rewrite !Forall_cons, Forall_nil in Hl.
  destruct Hl as (Hm & Ho & Hd & Hk & Ht & Hn & Hm' & Ho' & Hd' & Hk' & Ht' & Hn' & _).
  pose proof (hash_one_line b) as Hh. pose proof (hash_one_line b') as Hh'.
  unfold canonicalString in Hc.
  apply (append_sep_inj "010") in Hc as [_ Hc]; [|done..].
  apply (append_sep_inj "010") in Hc as [-> Hc]; [|done..].
  apply (append_count_inj "010") in Hc as [-> Hc].
  2:{ etransitivity; [|symmetry]; by apply canonical_tail. }
  apply (append_sep_inj "010") in Hc as [-> Hc]; [|done..].
  apply (append_sep_inj "010") in Hc as [-> Hc]; [|done..].
  apply (append_sep_inj "010") in Hc as [-> Hc]; [|done..].
  apply (append_sep_inj "010") in Hc as [-> Hc]; [|done..].
  apply (append_sep_inj "010") in Hc as [-> Hc]; [|done..].
  by apply base64url_inj in Hc as ->.
Qed.

Lemma canonical_binds_witness :
  let U := ascii_only in
  canonicalString "post" "/a" "a.example" " B.example" "k" "1" "n" "body" =
  canonicalString "POST" "/a" "a.example" "b.example" "k" "1" "n" "body" ∧ sha256 "body" = sha256 "body".
Proof.
  intros U. match goal with |- ?P ∧ _ => assert P as H by (vm_compute; reflexivity) end.
  split; [exact H|].
  refine (proj2 (proj2 (proj2 (proj2 (proj2 (proj2 (proj2 (canonical_binds (U := ascii_only)
    _ _ _ _ _ _ _ _ _ _ _ _ _ _ _ _ _ H)))))))).
  repeat constructor.
Defined.

(** ** Lemmas: what is accepted *)

Lemma stale_false now ts : stale now ts = false → unixTime ts - MaxSkew ≤ now ≤ unixTime ts + MaxSkew.
Proof.
  unfold stale, Sub. intros [H1%Z.ltb_ge H2%Z.ltb_ge]%orb_false_iff.
  unfold MaxSkew, Minute, Second, two63 in *. lia.
Qed.

Section Accepts.
Context {U : Unicode} {E : Ed25519} {G : Type} {RG : ReplayGuard G}.
Implicit Types (req : Request.t) (origin destination : string) (now : time).

(** The string [Verify] checks the signature against. *)
Definition signed_string req (body : bytes) destination : string :=
  canonicalString (Request.Method req) (Request.Path req) (Request.Get req HeaderOrigin) destination
    (Request.Get req HeaderKeyID) (Request.Get req HeaderTimestamp) (Request.Get req HeaderNonce) body.

(** The facts behind an acceptance. *)
Record acceptance (lookup : string → result node_err (option bytes)) req body now destination
  (replay : option G) clock (replay' : option G) (v : Verified.t) (ts : Z) (sig key : bytes) : Prop := {
  acc_origin : Request.Get req HeaderOrigin ≠ "";
  acc_ts : ParseInt (Request.Get req HeaderTimestamp) = Some ts;
  acc_fresh : stale now ts = false;
  acc_sig : base64url_decode (TrimRight (Request.Get req HeaderSignature) "=") = Some sig;
  acc_key : lookup (Request.Get req HeaderOrigin) = Ok (Some key);
  acc_size : slen key = PublicKeySize;
  acc_verified : ed_verify key (signed_string req body destination) sig = true;
  acc_replay : check_replay replay clock (Request.Get req HeaderOrigin) (Request.Get req HeaderNonce)
               = (replay', None);
  acc_result : v = Verified.mk (Request.Get req HeaderOrigin) (Request.Get req HeaderKeyID)
}.

Lemma Verify_accepts lookup req body now destination replay clock replay' v :
  Verify lookup req body now destination replay clock = Some (replay', Ok v) →
  ∃ ts sig key, acceptance lookup req body now destination replay clock replay' v ts sig key.
Proof.
  unfold Verify.
  destruct ((Request.Get req HeaderOrigin == "") || _ || _ || _ || _) eqn:E0; [done|].
  destruct (ParseInt _) as [ts|] eqn:Ets; [|done]. destruct (stale now ts) eqn:Es; [done|].
  destruct (base64url_decode _) as [sig|] eqn:Esig; [|done].
  destruct (slen sig != _); [done|]. destruct (lookup _) as [key|e] eqn:Ek; [|done].
  destruct (slen (default "" key) != _) eqn:Ez; [done|].
  unfold ed25519_Verify. destruct (Z.eqb_spec (slen (default "" key)) PublicKeySize) as [Hz|]; [|done].
  destruct (ed_verify _ _ _) eqn:Ev; [|done].
  destruct (check_replay _ _ _ _) as [r [e|]] eqn:Er; [done|]. intros [= <- <-].
  destruct key as [key|]; [|done]. exists ts, sig, key. split; try done.
  intros H. rewrite H in E0. by rewrite bool_decide_true in E0.
Qed.

(** Whatever is sent, whatever the node list holds, [Verify] returns. *)
Lemma Verify_returns lookup req body now destination replay clock :
  is_Some (Verify lookup req body now destination replay clock).
Proof.
  unfold Verify. repeat case_match; subst; try by eexists.
  exfalso. unfold ed25519_Verify in *. repeat match goal with
  | H : (if ?b then _ else _) = None |- _ => destruct b eqn:?; [done|]
  | H : (_ != _) = false |- _ => apply negb_false_iff, bool_decide_eq_true in H
  | H : (_ =? _) = false |- _ => apply Z.eqb_neq in H
  end. congruence.
Qed.

(** The replay guard is asked at most once, last. *)
Lemma Verify_shape lookup req body now destination replay clock replay' r :
  Verify lookup req body now destination replay clock = Some (replay', r) →
  (replay' = replay ∧ ∃ e, r = Err e) ∨
  ∃ o, check_replay replay clock (Request.Get req HeaderOrigin) (Request.Get req HeaderNonce)
       = (replay', o) ∧ (o = None ∨ ∃ e, r = Err e).
Proof.
  unfold Verify. destruct (check_replay _ _ _ _) as [r0 o] eqn:Er. intros H. revert H.
  repeat case_match; try done; intros [= <- <-];
    first [by left; eauto | by right; eexists; split; [reflexivity | eauto]].
Qed.
End Accepts.

(** ** Authentication *)

Section Authentic.
Context {U : Unicode} {E : Ed25519} {G : Type} {RG : ReplayGuard G}.

(** The values HTTP can carry: no line break in the method or a header; nor in
    the domain. *)
Definition wire_request (req : Request.t) (destination : string) : Prop :=
  one_line (ToUpper (Request.Method req)) = true ∧ one_line (ToLower (TrimSpace destination)) = true ∧
  ∀ name, one_line (Request.Get req name) = true.

(** Nobody but the holder of the key makes signatures: what this signature
    verifies for is a request the host has signed. *)
Definition unforged (lookup : string → result node_err (option bytes)) (req : Request.t)
  (signed : list (Request.t * bytes * string)) : Prop :=
  ∀ key sig msg,
    lookup (Request.Get req HeaderOrigin) = Ok (Some key) →
    base64url_decode (TrimRight (Request.Get req HeaderSignature) "=") = Some sig →
    ed_verify key msg sig = true →
    ∃ q b d, (q, b, d) ∈ signed ∧ msg = signed_string q b d.

(** C21. Authentication: unless the sender's key is compromised, a request that
    is accepted was signed by the host it names, for this destination, with
    this method, path, sender, timestamp and nonce, over a body with this
    digest; and it is no more than the allowed skew old, or ahead. A request
    captured at one host is not accepted at another, nor at another path. *)
Theorem Verify_authentic lookup req body now destination replay clock replay' v signed :
  Verify lookup req body now destination replay clock = Some (replay', Ok v) →
  unforged lookup req signed →
  wire_request req destination → (∀ q b d, (q, b, d) ∈ signed → wire_request q d) →
  ∃ q b d ts, (q, b, d) ∈ signed ∧
    ToLower (TrimSpace d) = ToLower (TrimSpace destination) ∧
    ToUpper (Request.Method q) = ToUpper (Request.Method req) ∧ Request.Path q = Request.Path req ∧
    sha256 b = sha256 body ∧
    Verified.Origin v = Request.Get q HeaderOrigin ∧ Verified.KeyID v = Request.Get q HeaderKeyID ∧
    Request.Get q HeaderNonce = Request.Get req HeaderNonce ∧
    ParseInt (Request.Get q HeaderTimestamp) = Some ts ∧
    unixTime ts - MaxSkew ≤ now ≤ unixTime ts + MaxSkew.
Proof.
  intros (ts & sig & key & A)%Verify_accepts Hu (Hm & Hd & Hh) Hs.
  destruct (Hu key sig _ (acc_key _ _ _ _ _ _ _ _ _ _ _ _ A) (acc_sig _ _ _ _ _ _ _ _ _ _ _ _ A)
    (acc_verified _ _ _ _ _ _ _ _ _ _ _ _ A)) as (q & b & d & Hq & Hstr).
  destruct (Hs q b d Hq) as (Hm' & Hd' & Hh').
  unfold signed_string in Hstr. apply canonical_binds in Hstr as (H1 & H2 & H3 & H4 & H5 & H6 & H7 & H8);
    [|repeat constructor; auto].
  pose proof (acc_result _ _ _ _ _ _ _ _ _ _ _ _ A) as ->. cbn [Verified.Origin Verified.KeyID].
  exists q, b, d, ts. split_and!; try done; [by rewrite <- H6; apply A|..]; apply stale_false, A.
Qed.
End Authentic.

(** ** Single use *)

(** A request as it is served: the handler's clock when it comes in, what the
    node list answers about its sender, the guard's clock when it marks the
    nonce. *)
Module Arrival.
Record t := mk {
  Now : time; Lookup : string → result node_err (option bytes); Clock : time; Req : Request.t; Body : bytes
}.
End Arrival.

Section SingleUse.
Context {U : Unicode} {E : Ed25519} {RO : RangeOrder}.
Implicit Types (a b : Arrival.t) (calls : list Arrival.t) (now t u : time).

Abbreviation guard := (gmap string time).

(** The requests a host receives, in the order in which they get to the guard,
    and its answers. *)
Fixpoint serve (destination : string) (g : guard) (calls : list Arrival.t)
  : list (option (result fed_err Verified.t)) :=
  match calls with
  | [] => []
  | a :: rest =>
      match Verify (Arrival.Lookup a) (Arrival.Req a) (Arrival.Body a) (Arrival.Now a) destination (Some g)
              (Arrival.Clock a) with
      | Some (Some g, r) => Some r :: serve destination g rest
      | _ => [None]
      end
  end.

Definition nonce_key (req : Request.t) : string :=
  replay_key (Request.Get req HeaderOrigin) (Request.Get req HeaderNonce).

(** The guard forgets a key only once its time is over. *)
Lemma Seen_keeps (g g' : guard) now key window dup key' (until : time) :
  Seen g now key window = (g', dup) → g !! key' = Some until → now < until → g' !! key' = Some until.
Proof.
  unfold Seen, Before, After. intros H Hg Hn.
  destruct (decide (key = key')) as [->|Hk].
  { rewrite Hg, (proj2 (Z.ltb_lt _ _)) in H by done. by injection H as <- _. }
  destruct (match g !! key with Some _ => _ | None => _ end); injection H as <- _; [done|].
  rewrite lookup_insert_ne by done. destruct (_ <? _); [|done].
  apply range_delete_Some. split; [done|]. apply Z.ltb_ge. lia.
Qed.

(** One call of [Verify] on the guard. *)
Lemma Verify_guard lookup req body now destination (g : guard) clock r' r :
  Verify lookup req body now destination (Some g) clock = Some (r', r) →
  ∃ g', r' = Some g' ∧
    ((g' = g ∧ ∃ e, r = Err e) ∨
     ∃ dup, Seen g clock (nonce_key req) (2 * MaxSkew) = (g', dup) ∧
       (dup = false ∨ ∃ e, r = Err e)).
Proof.
  intros [[-> He]|(o & Hc & Ho)]%Verify_shape; [by exists g; eauto|].
  unfold check_replay in Hc. fold (nonce_key req) in Hc. cbn [guard_Seen memory_guard] in Hc.
  destruct (Seen g clock (nonce_key req) (2 * MaxSkew)) as [g' dup] eqn:Es.
  injection Hc as <- <-. exists g'. split; [done|]. right. exists dup. split; [done|].
  destruct dup; [|by left]. right. by destruct Ho.
Qed.

Lemma Seen_dup (g g' : guard) now key window (until : time) :
  Seen g now key window = (g', false) → g !! key = Some until → until ≤ now.
Proof.
  unfold Seen, Before. intros H Hg. rewrite Hg in H.
  destruct (Z.ltb_spec now until); [done | lia].
Qed.

Lemma Seen_marks (g g' : guard) now key window :
  Seen g now key window = (g', false) → g' !! key = Some (now + window).
Proof.
  unfold Seen. intros H.
  destruct (match g !! key with Some _ => _ | None => _ end); injection H as <-; [done|].
  by rewrite lookup_insert_eq.
Qed.

(** The first answer of a run, and the run that follows. *)
Lemma serve_cons destination (g : guard) a calls :
  ∃ g' r, serve destination g (a :: calls) = Some r :: serve destination g' calls ∧
    Verify (Arrival.Lookup a) (Arrival.Req a) (Arrival.Body a) (Arrival.Now a) destination (Some g) (Arrival.Clock a)
      = Some (Some g', r).
Proof.
  destruct (Verify_returns (Arrival.Lookup a) (Arrival.Req a) (Arrival.Body a) (Arrival.Now a) destination (Some g)
    (Arrival.Clock a)) as [[r' r] Hv].
  destruct (Verify_guard _ _ _ _ _ _ _ _ _ Hv) as (g' & -> & _).
  exists g', r. cbn [serve]. by rewrite Hv.
Qed.

(** A request is not accepted while its nonce is remembered. *)
Lemma serve_after destination (g : guard) calls key (until : time) :
  g !! key = Some until → StronglySorted Z.le (Arrival.Clock <$> calls) →
  ∀ j b v, calls !! j = Some b → nonce_key (Arrival.Req b) = key →
    serve destination g calls !! j = Some (Some (Ok v)) → until ≤ Arrival.Clock b.
Proof.
  revert g. induction calls as [|a calls IH]; intros g Hg Hs j b v Hj Hk; [done|].
  rewrite fmap_cons in Hs. apply StronglySorted_inv in Hs as [Hs Hall].
  destruct (serve_cons destination g a calls) as (g' & r & -> & Hv).
  destruct (Verify_guard _ _ _ _ _ _ _ _ _ Hv) as (g1 & [= <-] & Hg1).
  destruct j as [|j]; cbn [lookup list_lookup] in *.
  - injection Hj as ->. intros [= ->]. destruct Hg1 as [[_ [e [=]]]|(dup & Hsn & [->|[e [=]]])].
    rewrite Hk in Hsn. by eapply Seen_dup.
  - destruct (Z.le_gt_cases until (Arrival.Clock a)) as [Hle|Hlt].
    + intros _. rewrite Forall_fmap, Forall_lookup in Hall. specialize (Hall _ _ Hj). cbn in Hall. lia.
    + eapply IH; try done. destruct Hg1 as [[-> _]|(dup & Hsn & _)]; [done|]. by eapply Seen_keeps.
Qed.

(** An accepted request came in within the skew. *)
Lemma serve_fresh destination (g : guard) calls i a v :
  calls !! i = Some a → serve destination g calls !! i = Some (Some (Ok v)) →
  ∃ ts, ParseInt (Request.Get (Arrival.Req a) HeaderTimestamp) = Some ts ∧
    unixTime ts - MaxSkew ≤ Arrival.Now a ≤ unixTime ts + MaxSkew.
Proof.
  revert g i. induction calls as [|a0 calls IH]; intros g i; [done|].
  destruct (serve_cons destination g a0 calls) as (g' & r & -> & Hv).
  destruct i as [|i]; cbn [lookup list_lookup]; [|apply IH].
  intros [= ->] [= ->]. apply Verify_accepts in Hv as (ts & sig & key & A).
  exists ts. split; [apply A | eapply stale_false, A].
Qed.

(** Two acceptances under one nonce are marked at least twice the skew apart. *)
Lemma serve_spaced destination (g : guard) calls :
  StronglySorted Z.le (Arrival.Clock <$> calls) →
  ∀ i j a b v v', (i < j)%nat → calls !! i = Some a → calls !! j = Some b →
    nonce_key (Arrival.Req a) = nonce_key (Arrival.Req b) →
    serve destination g calls !! i = Some (Some (Ok v)) →
    serve destination g calls !! j = Some (Some (Ok v')) → Arrival.Clock a + 2 * MaxSkew ≤ Arrival.Clock b.
Proof.
  revert g. induction calls as [|a0 calls IH]; intros g Hs i j a b v v' Hij Hi Hj Hk; [done|].
  rewrite fmap_cons in Hs. apply StronglySorted_inv in Hs as [Hs Hall].
  destruct (serve_cons destination g a0 calls) as (g' & r & -> & Hv).
  destruct j as [|j]; [lia|]. destruct i as [|i]; cbn [lookup list_lookup] in *; intros Hri Hrj.
  - injection Hi as ->. injection Hri as ->.
    destruct (Verify_guard _ _ _ _ _ _ _ _ _ Hv) as (g1 & [= <-] & [[_ [e [=]]]|(dup & Hsn & [->|[e [=]]])]).
    eapply serve_after; [by eapply Seen_marks | done | exact Hj | done | exact Hrj].
  - eapply (IH _ Hs i j); try done. lia.
Qed.

(** C22. Single use: a signed request that a host has accepted is not accepted
    again. Of two requests with the same sender, nonce and timestamp that reach
    the replay guard of a host in this order, with any others in between, both are
    accepted only if the second was held up, between the host's reading its own
    clock for it and the guard's reading its clock, for at least as long as the
    first was marked after the skew window opened and the second came in before the
    window closes: for five minutes at least, where the first was not marked before
    the time it is stamped with. One that is not held up at all is refused, save
    where the first is marked at the very first instant of the window and the second
    comes in at the very last. *)
Theorem accepted_once destination (g : guard) calls i j a b v v' ts :
  StronglySorted Z.le (Arrival.Clock <$> calls) → (i < j)%nat →
  calls !! i = Some a → calls !! j = Some b →
  nonce_key (Arrival.Req a) = nonce_key (Arrival.Req b) →
  ParseInt (Request.Get (Arrival.Req a) HeaderTimestamp) = Some ts →
  Request.Get (Arrival.Req b) HeaderTimestamp = Request.Get (Arrival.Req a) HeaderTimestamp →
  serve destination g calls !! i = Some (Some (Ok v)) →
  serve destination g calls !! j = Some (Some (Ok v')) →
  let opens := unixTime ts - MaxSkew in
  let closes := unixTime ts + MaxSkew in
  opens ≤ Arrival.Now a ∧ Arrival.Now b ≤ closes ∧
  (Arrival.Clock a - opens) + (closes - Arrival.Now b) ≤ Arrival.Clock b - Arrival.Now b ∧
  (unixTime ts ≤ Arrival.Clock a → MaxSkew ≤ Arrival.Clock b - Arrival.Now b) ∧
  (Arrival.Now a ≤ Arrival.Clock a → Arrival.Clock b = Arrival.Now b → Arrival.Clock a = opens ∧ Arrival.Now b = closes).
Proof.
  intros Hs Hij Hi Hj Hk Hts Heq Hri Hrj.
  pose proof (serve_spaced _ _ _ Hs _ _ _ _ _ _ Hij Hi Hj Hk Hri Hrj) as Hsp.
  pose proof (serve_fresh _ _ _ _ _ _ Hi Hri) as (ts1 & H1 & Hf1).
  pose proof (serve_fresh _ _ _ _ _ _ Hj Hrj) as (ts2 & H2 & Hf2).
  rewrite Heq in H2. rewrite Hts in H1, H2. injection H1 as <-. injection H2 as <-. cbn. lia.
Qed.
End SingleUse.

(** ** Round trip *)

Lemma TrimLeft_id s cutset : all_bytes (fun c => negb (mem_byte c cutset)) s = true → TrimLeft s cutset = s.
Proof.
  destruct s as [|c s]; [done|]. cbn [all_bytes TrimLeft]. intros [Hc%negb_true_iff _]%andb_true_iff.
  by rewrite Hc.
Qed.

(** An encoded string has no padding to trim. *)
Lemma TrimRight_base64url b : TrimRight (base64url b) "=" = base64url b.
Proof.
  unfold TrimRight. rewrite TrimLeft_id; [apply rev_string_involutive|].
  rewrite all_bytes_rev. eapply all_bytes_impl, base64url_alphabet. intros c Hc. cbn [mem_byte].
  rewrite orb_false_r. apply negb_true_iff, bool_decide_eq_false. intros ->. discriminate.
Qed.

Lemma base64url_nonempty b : b ≠ "" → base64url b ≠ "".
Proof. by destruct b as [|a [|b [|c s]]]. Qed.

Lemma Get_Set req name value name' :
  Request.Get (Request.Set_ req name value) name' =
  if bool_decide (name = name') then value else Request.Get req name'.
Proof.
  unfold Request.Get, Request.Set_. cbn. case_bool_decide as H.
  - subst. by rewrite lookup_insert_eq.
  - by rewrite lookup_insert_ne.
Qed.

Section RoundTrip.
Context {U : Unicode} {E : Ed25519} {G : Type} {RG : ReplayGuard G}.

Lemma Sign_headers req origin destination keyID key body now random :
  let r := Sign req origin destination keyID key body now random in
  Request.Method r = Request.Method req ∧ Request.Path r = Request.Path req ∧
  Request.Get r HeaderOrigin = origin ∧ Request.Get r HeaderKeyID = keyID ∧
  Request.Get r HeaderTimestamp = FormatInt (Unix now) ∧
  Request.Get r HeaderNonce = base64url random ∧
  Request.Get r HeaderSignature = encodeSig (ed_sign key
    (canonicalString (Request.Method req) (Request.Path req) origin destination keyID
       (FormatInt (Unix now)) (base64url random) body)).
Proof. cbn zeta. unfold Sign. rewrite !Get_Set. by split_and!. Qed.

Lemma FormatInt_nonempty n : FormatInt n ≠ "".
Proof. unfold FormatInt. destruct (n <? 0); [done | apply (format_digits_nonempty 18)]. Qed.

(** A host can talk to its peers: what [Sign] makes for a destination,
    [Verify] at that destination accepts as coming from the sender, when its
    node list vouches for the sender's key, the clocks differ by no more than
    the allowed skew, and the nonce is not one it remembers. *)
Theorem Verify_Sign req origin destination keyID key body now random keyFor now' destination' replay
  clock replay' :
  origin ≠ "" → keyID ≠ "" → random ≠ "" → - two63 < Unix now < two63 →
  keyFor origin = Ok (Some (ed_public key)) →
  ToLower (TrimSpace destination') = ToLower (TrimSpace destination) →
  unixTime (Unix now) - MaxSkew ≤ now' ≤ unixTime (Unix now) + MaxSkew →
  check_replay replay clock origin (base64url random) = (replay', None) →
  Verify keyFor (Sign req origin destination keyID key body now random) body now' destination'
    replay clock = Some (replay', Ok (Verified.mk origin keyID)).
Proof.
  intros Ho Hk Hr Hn Hkey Hd Hs Hg.
  destruct (Sign_headers req origin destination keyID key body now random)
    as (H1 & H2 & H3 & H4 & H5 & H6 & H7).
  unfold Verify. rewrite H1, H2, H3, H4, H5, H6, H7. clear H1 H2 H3 H4 H5 H6 H7.
  assert (canonicalString (Request.Method req) (Request.Path req) origin destination' keyID
    (FormatInt (Unix now)) (base64url random) body = canonicalString (Request.Method req)
    (Request.Path req) origin destination keyID (FormatInt (Unix now)) (base64url random) body) as ->
    by (unfold canonicalString; by rewrite Hd).
  generalize (canonicalString (Request.Method req) (Request.Path req) origin destination keyID
    (FormatInt (Unix now)) (base64url random) body) as canon. intros canon.
  pose proof (ed_sign_size key canon) as Hsz. unfold encodeSig.
  rewrite !bool_decide_false by first [done | apply FormatInt_nonempty | by apply base64url_nonempty |
    apply base64url_nonempty; intros He; rewrite He in Hsz; discriminate].
  cbn [orb]. rewrite ParseInt_FormatInt by done.
  assert (stale now' (Unix now) = false) as ->.
  { unfold stale, Sub. apply orb_false_iff. unfold MaxSkew, Minute, Second, two63 in *.
    split; apply Z.ltb_ge; lia. }
  rewrite TrimRight_base64url, base64url_roundtrip, Hsz, bool_decide_true, Hkey by done. cbn [negb from_option id].
  rewrite ed_public_size, bool_decide_true by done. cbn [negb]. unfold ed25519_Verify.
  rewrite ed_public_size, Z.eqb_refl, ed_verify_sign, Hg. done.
Qed.
End RoundTrip.

(** ** Witnesses *)

(** A request from [a.example] to [b.example], signed at the epoch plus 1000
    seconds; its host's key is the toy key of its name. *)
Definition sample_request : Request.t := Request.mk "POST" "/federation/v1/user-exists" ∅.
Definition sample_now : time := unixTime 1000.
Definition sample_signed {E : Ed25519} : Request.t :=
  Sign (U := ascii_only) sample_request "a.example" "b.example" "k1" "a" "{}" sample_now "nonce".
Definition sample_keys {E : Ed25519} (domain : string) : result node_err (option bytes) :=
  Ok (if domain == "a.example" then Some (ed_public "a") else None).

Lemma Verify_Sign_witness :
  Verify (U := ascii_only) (E := toy_ed25519) (RG := memory_guard (RO := order_fwd))
    (sample_keys (E := toy_ed25519)) (sample_signed (E := toy_ed25519)) "{}" (unixTime 1030)
    "B.example" None (unixTime 1030) = Some (None, Ok (Verified.mk "a.example" "k1")).
Proof.
  apply (Verify_Sign (U := ascii_only) (E := toy_ed25519) (RG := memory_guard (RO := order_fwd))
    sample_request "a.example" "b.example" "k1" "a" "{}" sample_now "nonce" (sample_keys (E := toy_ed25519))
    (unixTime 1030) "B.example" None (unixTime 1030) None); try discriminate; try reflexivity.
  all: vm_compute; split; (reflexivity || discriminate).
Defined.

(** That request, come in at one time and marked at another. *)
Definition sample_arrival (now clock : time) : Arrival.t :=
  Arrival.mk now (sample_keys (E := toy_ed25519)) clock (sample_signed (E := toy_ed25519)) "{}".
Definition sample_serve : list Arrival.t → list (option (result fed_err Verified.t)) :=
  serve (U := ascii_only) (E := toy_ed25519) (RO := order_fwd) "b.example" ∅.

(** At the two ends of the window, and to the nanosecond, a request is accepted
    twice: the guard's memory ends at the instant the skew still allows. *)
Example edge_replay :
  sample_serve [sample_arrival (sample_now - MaxSkew) (sample_now - MaxSkew); sample_arrival sample_now sample_now;
                sample_arrival (sample_now + MaxSkew) (sample_now + MaxSkew)] =
  [Some (Ok (Verified.mk "a.example" "k1")); Some (Err ErrReplayed);
   Some (Ok (Verified.mk "a.example" "k1"))].
Proof. vm_compute. reflexivity. Qed.

(** And where the second is held up for long enough after its skew was looked at. *)
Definition held_up_arrivals : list Arrival.t :=
  [sample_arrival sample_now sample_now; sample_arrival (sample_now + Second) (sample_now + MaxSkew);
   sample_arrival (sample_now + 3 * Minute) (sample_now + 2 * MaxSkew)].
Example held_up_replay :
  sample_serve held_up_arrivals =
  [Some (Ok (Verified.mk "a.example" "k1")); Some (Err ErrReplayed); Some (Ok (Verified.mk "a.example" "k1"))].
Proof. vm_compute. reflexivity. Qed.

Lemma accepted_once_witness :
  let answers := sample_serve held_up_arrivals in
  answers !! 0%nat = Some (Some (Ok (Verified.mk "a.example" "k1"))) ∧
  answers !! 2%nat = Some (Some (Ok (Verified.mk "a.example" "k1"))) ∧
  ∀ b, held_up_arrivals !! 2%nat = Some b → MaxSkew ≤ Arrival.Clock b - Arrival.Now b.
Proof.
  intros answers.
  pose proof (f_equal (fun l => l !! 0%nat) held_up_replay) as H0. pose proof (f_equal (fun l => l !! 2%nat) held_up_replay) as H2.
  split; [exact H0|]. split; [exact H2|]. intros b Hb.
  assert (ParseInt (Request.Get (sample_signed (E := toy_ed25519)) HeaderTimestamp) = Some 1000) as Hts
    by (vm_compute; reflexivity).
  injection Hb as <-.
  refine (proj1 (proj2 (proj2 (proj2 (accepted_once (U := ascii_only) (E := toy_ed25519) (RO := order_fwd) "b.example" ∅
    held_up_arrivals 0 2 (sample_arrival sample_now sample_now) (sample_arrival (sample_now + 3 * Minute) (sample_now + 2 * MaxSkew))
    (Verified.mk "a.example" "k1") (Verified.mk "a.example" "k1") 1000 _ _ _ _ _ _ _ _ _)))) _).
  - unfold held_up_arrivals. cbn [fmap list_fmap Arrival.Clock sample_arrival]. repeat constructor; vm_compute; discriminate.
  - auto with arith.
  - reflexivity.
  - reflexivity.
  - reflexivity.
  - exact Hts.
  - reflexivity.
  - exact H0.
  - exact H2.
  - vm_compute. discriminate.
Defined.

(** A signature scheme that signs one request, as a host whose key signed only
    that: every other message gets the other signature. *)
Definition sixty_four (c : ascii) : bytes := foldr String "" (repeat c 64).
Definition one_message (msg : bytes) : Ed25519.
Proof.
  refine {| ed_public := sha256;
            ed_sign := fun _ m => if m == msg then sixty_four "A" else sixty_four "B";
            ed_verify := fun _ m sig => sig == (if m == msg then sixty_four "A" else sixty_four "B") |}.
  - intros _ m. destruct (m == msg); reflexivity.
  - intros k. apply sha256_length.
  - intros _ m. by apply bool_decide_eq_true.
Defined.
Definition sample_message : bytes :=
  canonicalString (U := ascii_only) "POST" "/federation/v1/user-exists" "a.example" "b.example" "k1" "1000"
    (base64url "nonce") "{}".

Lemma one_message_verified msg key m :
  ed_verify (Ed25519 := one_message msg) key m (sixty_four "A") = true → m = msg.
Proof. cbn [ed_verify one_message]. intros H%bool_decide_eq_true. by case_bool_decide. Qed.

Lemma Verify_authentic_witness :
  let E := one_message sample_message in
  let s := sample_signed (E := E) in
  Verify (U := ascii_only) (E := E) (RG := memory_guard (RO := order_fwd)) (sample_keys (E := E)) s "{}"
    (unixTime 1030) "B.example" None (unixTime 1030) = Some (None, Ok (Verified.mk "a.example" "k1")) ∧
  unixTime 1030 ≤ unixTime 1000 + MaxSkew.
Proof.
  intros E s. match goal with |- ?P ∧ _ => assert P as H by (vm_compute; reflexivity) end.
  split; [exact H|].
  assert (wire_request (U := ascii_only) s "b.example") as Hw.
  { split; [reflexivity|]. split; [reflexivity|]. intros name. unfold s, sample_signed, Sign.
    rewrite !Get_Set. repeat (case_bool_decide; [vm_compute; reflexivity|]). reflexivity. }
  destruct (Verify_authentic (U := ascii_only) (E := E) (RG := memory_guard (RO := order_fwd))
    _ _ _ _ _ _ _ _ _ [(s, "{}", "b.example")] H) as (q & b & d & ts & Hq & _ & _ & _ & _ & _ & _ & _ & Ht & _ & Hle).
  - intros key sig msg _ Hsig Hv. exists s, "{}", "b.example". split; [by left|].
    assert (base64url_decode (TrimRight (Request.Get s HeaderSignature) "=") = Some (sixty_four "A"))
      as Ha by (vm_compute; reflexivity).
    pose proof (eq_trans (eq_sym Hsig) Ha) as [= ->]. clear Hsig Ha H Hw.
    apply one_message_verified in Hv as ->. vm_compute. reflexivity.
  - destruct Hw as (H1 & _ & H3). split; [exact H1|]. split; [reflexivity | exact H3].
  - intros q b d [= -> -> ->]%list_elem_of_singleton. exact Hw.
  - apply list_elem_of_singleton in Hq. injection Hq as -> -> ->.
    assert (ParseInt (Request.Get s HeaderTimestamp) = Some 1000) as Ha by (vm_compute; reflexivity).
    pose proof (eq_trans (eq_sym Ht) Ha) as [= ->]. exact Hle.
Defined.
