(* ===== verification/Blob.v ===== *)
(** * Package blob: opaque binary objects

    [api/internal/blob]: the driver interface the store removes images
    through, as a class of operations and a class of their laws, and the two
    drivers, in memory and over GridFS, which satisfy them. *)

From S2P Require Import Prelude.
From S2P Require Import GoStrings.
From S2P Require Import Domain.

Inductive blob_err : Type :=
| ErrBlobNotFound
| ErrRand (msg : string)
| ErrDriver (msg : string).

(** ** The driver interface

    [blob.Store]. [Put] draws its id from [newID], whose outcome, an id or a
    failure of the random source, is an argument. A driver may fail to delete;
    GridFS does I/O. What is put is read back when it has a content type and is
    no longer than a driver reads. *)

Definition maxBlobRead : Z := 200 * 1024 * 1024.

Class BlobStore (B : Type) := {
  bs_put : B → result blob_err string → bytes → string → B * result blob_err string;
  bs_get : B → string → result blob_err (bytes * string);
  bs_delete : B → string → B * result blob_err unit
}.

Class BlobStoreLaws (B : Type) {BS : BlobStore B} : Prop := {
  bs_put_id b nid data ct b' id : bs_put b nid data ct = (b', Ok id) → nid = Ok id;
  bs_get_put b nid data ct b' id :
    ct ≠ "" → slen data ≤ maxBlobRead → bs_put b nid data ct = (b', Ok id) → bs_get b' id = Ok (data, ct);
  bs_get_put_ne b nid data ct b' id id' :
    bs_put b nid data ct = (b', Ok id) → id ≠ id' → bs_get b' id' = bs_get b id';
  bs_get_delete b id b' :
    bs_delete b id = (b', Ok tt) → bs_get b' id = Err ErrBlobNotFound;
  bs_get_delete_ne b id id' :
    id ≠ id' → bs_get (bs_delete b id).1 id' = bs_get b id';
  bs_delete_missing b id :
    bs_get b id = Err ErrBlobNotFound → bs_get (bs_delete b id).1 id = Err ErrBlobNotFound
}.

(** ** The in-memory driver *)

Module memItem.
Record t := mk { data : bytes; contentType : string }.
End memItem.

Module BlobMemory.
Record t := mk { items : gmap string memItem.t }.

Definition NewMemory : t := mk ∅.

Definition Put (m : t) (newID : result blob_err string) (data : bytes) (contentType : string)
  : t * result blob_err string :=
  match newID with
  | Err e => (m, Err e)
  | Ok id => (mk (<[id := memItem.mk data contentType]> (items m)), Ok id)
  end.

Definition Get (m : t) (id : string) : result blob_err (bytes * string) :=
  match items m !! id with
  | None => Err ErrBlobNotFound
  | Some it => Ok (memItem.data it, memItem.contentType it)
  end.

Definition Delete (m : t) (id : string) : t * result blob_err unit :=
  (mk (delete id (items m)), Ok tt).

Definition Len (m : t) : Z := Z.of_nat (size (items m)).
End BlobMemory.

#[export] Instance BlobMemory_store : BlobStore BlobMemory.t := {|
  bs_put := BlobMemory.Put;
  bs_get := BlobMemory.Get;
  bs_delete := BlobMemory.Delete
|}.

#[export] Instance BlobMemory_laws : BlobStoreLaws BlobMemory.t.
Proof.
  split; simpl; unfold BlobMemory.Put, BlobMemory.Get, BlobMemory.Delete; simpl.
  - intros b [i|e] data ct b' id; [|done]. by intros [= _ ->].
  - intros b [i|e] data ct b' id _ _; [|done]. intros [= <- ->]; simpl. by simplify_map_eq.
  - intros b [i|e] data ct b' id id'; [|done]. intros [= <- ->] Hne; simpl. by simplify_map_eq.
  - intros b id b' [= <-]; simpl. by simplify_map_eq.
  - intros b id id' Hne; simpl. by simplify_map_eq.
  - intros b id _; simpl. by simplify_map_eq.
Qed.

(** ** The driver over GridFS

    The bucket of the MongoDB driver is an interface: a file is uploaded under an id
    with its metadata, opened (what it holds, and the content type its metadata has),
    and deleted. *)

Inductive gridfs_err : Type := ErrFileNotFound | GridFSFailed (msg : string).

Class Bucket (G : Type) := {
  UploadFromStreamWithID : G → string → bytes → string → G * result gridfs_err unit;
  OpenDownloadStream : G → string → result gridfs_err (bytes * option string);
  BucketDelete : G → string → G * result gridfs_err unit
}.
(** As GridFS is documented, of a server that can be reached: a file is there as it was
    uploaded until it is deleted, and no operation touches another. *)
Class BucketLaws (G : Type) {GB : Bucket G} : Prop := {
  upload_open g id data ct g' : UploadFromStreamWithID g id data ct = (g', Ok tt) → OpenDownloadStream g' id = Ok (data, Some ct);
  upload_open_ne g id data ct id' : id ≠ id' → OpenDownloadStream (UploadFromStreamWithID g id data ct).1 id' = OpenDownloadStream g id';
  remove_open g id g' r : BucketDelete g id = (g', r) → r = Ok tt ∨ r = Err ErrFileNotFound → OpenDownloadStream g' id = Err ErrFileNotFound;
  remove_open_ne g id id' : id ≠ id' → OpenDownloadStream (BucketDelete g id).1 id' = OpenDownloadStream g id';
  remove_missing g id : OpenDownloadStream g id = Err ErrFileNotFound → OpenDownloadStream (BucketDelete g id).1 id = Err ErrFileNotFound
}.

Module GridFS.
Section Driver.
Context {G : Type} {GB : Bucket G}.

Definition driver_err (e : gridfs_err) : blob_err :=
  match e with ErrFileNotFound => ErrDriver "file not found" | GridFSFailed msg => ErrDriver msg end.

Definition Put (g : G) (newID : result blob_err string) (data : bytes) (contentType : string) : G * result blob_err string :=
  match newID with
  | Err e => (g, Err e)
  | Ok id =>
      match UploadFromStreamWithID g id data contentType with
      | (g, Err e) => (g, Err (driver_err e))
      | (g, Ok _) => (g, Ok id)
      end
  end.

(** The reader stops one byte past the limit, which is enough to tell. *)
Definition Get (g : G) (id : string) : result blob_err (bytes * string) :=
  match OpenDownloadStream g id with
  | Err ErrFileNotFound => Err ErrBlobNotFound
  | Err e => Err (driver_err e)
  | Ok (stream, metadata) =>
      let contentType :=
        match metadata with
        | Some ct => if ct != "" then ct else "application/octet-stream"
        | None => "application/octet-stream"
        end in
      if maxBlobRead <? slen stream then Err (ErrDriver "blob exceeds maximum size") else Ok (stream, contentType)
  end.

(** A missing id is success. *)
Definition Delete (g : G) (id : string) : G * result blob_err unit :=
  match BucketDelete g id with
  | (g, Ok _) | (g, Err ErrFileNotFound) => (g, Ok tt)
  | (g, Err e) => (g, Err (driver_err e))
  end.
End Driver.
End GridFS.

Definition GridFS_store {G} {GB : Bucket G} : BlobStore G := {|
  bs_put := GridFS.Put;
  bs_get := GridFS.Get;
  bs_delete := GridFS.Delete
|}.

Lemma gridfs_put {G} {GB : Bucket G} g nid data ct g' id : GridFS.Put g nid data ct = (g', Ok id) →
  nid = Ok id ∧ UploadFromStreamWithID g id data ct = (g', Ok tt).
Proof.
  unfold GridFS.Put. destruct nid as [i|e]; [|done].
  destruct (UploadFromStreamWithID g i data ct) as [g2 [[]|e]] eqn:E; [|done]. by intros [= -> ->].
Qed.
Lemma gridfs_delete_state {G} {GB : Bucket G} g id : (GridFS.Delete g id).1 = (BucketDelete g id).1.
Proof. unfold GridFS.Delete. by destruct (BucketDelete g id) as [g' [?|[]]]. Qed.
Lemma gridfs_get_missing {G} {GB : Bucket G} g id :
  GridFS.Get g id = Err ErrBlobNotFound ↔ OpenDownloadStream g id = Err ErrFileNotFound.
Proof.
  unfold GridFS.Get. destruct (OpenDownloadStream g id) as [[stream md]|[]]; cbn; [|done..].
  by destruct (maxBlobRead <? slen stream).
Qed.

Lemma GridFS_laws {G} {GB : Bucket G} {GL : BucketLaws G} : BlobStoreLaws G (BS := GridFS_store).
Proof.
  split; cbn.
  - by intros b nid data ct b' id [? _]%gridfs_put.
  - intros b nid data ct b' id Hct Hlen [_ Hup]%gridfs_put. unfold GridFS.Get. rewrite (upload_open _ _ _ _ _ Hup).
    rewrite (proj2 (Z.ltb_ge _ _)) by done. by rewrite bool_decide_false.
  - intros b nid data ct b' id id' [_ Hup]%gridfs_put Hne. unfold GridFS.Get.
    pose proof (upload_open_ne b id data ct id' Hne) as H. rewrite Hup in H. cbn in H. by rewrite H.
  - intros b id b' Hd. apply gridfs_get_missing. unfold GridFS.Delete in Hd.
    destruct (BucketDelete b id) as [g' r] eqn:E.
    apply (remove_open b id b' r); destruct r as [[]|[]]; try discriminate Hd; try injection Hd as <-; auto.
  - intros b id id' Hne. unfold GridFS.Get. by rewrite gridfs_delete_state, remove_open_ne.
  - intros b id Hg%gridfs_get_missing. apply gridfs_get_missing. rewrite gridfs_delete_state. by apply remove_missing.
Qed.

(** A bucket in memory, that refuses an id it has. *)
Definition memory_bucket : Bucket (gmap string (bytes * option string)) := {|
  UploadFromStreamWithID g id data ct :=
    match g !! id with Some _ => (g, Err (GridFSFailed "duplicate key")) | None => (<[id := (data, Some ct)]> g, Ok tt) end;
  OpenDownloadStream g id := match g !! id with Some f => Ok f | None => Err ErrFileNotFound end;
  BucketDelete g id := match g !! id with Some _ => (delete id g, Ok tt) | None => (g, Err ErrFileNotFound) end
|}.
Lemma memory_bucket_laws : BucketLaws _ (GB := memory_bucket).
Proof.
  split; cbn.
  - intros g id data ct g'. destruct (g !! id); [done|]. intros [= <-]. by rewrite lookup_insert_eq.
  - intros g id data ct id' Hne. destruct (g !! id); cbn; [done|]. by rewrite lookup_insert_ne.
  - intros g id g' r. destruct (g !! id) eqn:E; intros [= <- <-] _; [by rewrite lookup_delete_eq|by rewrite E].
  - intros g id id' Hne. destruct (g !! id); cbn; [|done]. by rewrite lookup_delete_ne.
  - intros g id. destruct (g !! id) eqn:E; [done|]. cbn. by rewrite E.
Qed.

(** ** Removing blobs for a cascade

    [deleteBlobs] of [api/internal/store/store.go]: best effort, a nil store
    or a failing id is ignored. *)

Section DeleteBlobs.
Context {B : Type} {BS : BlobStore B}.

Definition deleteBlobs (blobs : option B) (ids : list string) : option B :=
  match blobs with
  | None => None
  | Some b => Some (foldl (fun b id => (bs_delete b id).1) b ids)
  end.

Definition blob_get (blobs : option B) (id : string) : result blob_err (bytes * string) :=
  match blobs with None => Err ErrBlobNotFound | Some b => bs_get b id end.

Lemma blob_get_deleteBlobs_ne {L : BlobStoreLaws B} blobs ids id :
  id ∉ ids → blob_get (deleteBlobs blobs ids) id = blob_get blobs id.
Proof.
  destruct blobs as [b|]; simpl; [|done]. revert b.
  induction ids as [|i ids IH]; intros b Hid; simpl; [done|].
  apply not_elem_of_cons in Hid as [Hne Hid]. rewrite IH by done.
  by apply bs_get_delete_ne.
Qed.

(** When the driver deletes without error, no listed blob is left. *)
Lemma blob_get_deleteBlobs {L : BlobStoreLaws B} blobs ids id :
  (∀ b i, (bs_delete b i).2 = Ok tt) →
  id ∈ ids → blob_get (deleteBlobs blobs ids) id = Err ErrBlobNotFound.
Proof.
  intros Hok Hid. destruct blobs as [b|]; simpl; [|done].
  assert (∀ ids b, bs_get b id = Err ErrBlobNotFound →
            bs_get (foldl (fun b i => (bs_delete b i).1) b ids) id = Err ErrBlobNotFound) as Hgone.
  { clear - L. intros ids. induction ids as [|i ids IH]; intros b Hb; simpl; [done|]. apply IH.
    destruct (decide (i = id)) as [->|Hne]; [by apply bs_delete_missing|].
    by rewrite bs_get_delete_ne. }
  revert b. induction ids as [|i ids IH]; intros b; simpl; [by apply not_elem_of_nil in Hid|].
  destruct (decide (i = id)) as [->|Hne].
  - apply Hgone. specialize (Hok b id). destruct (bs_delete b id) as [b' r] eqn:E; simpl in *; subst.
    by eapply bs_get_delete.
  - apply IH. apply elem_of_cons in Hid as [->|]; done.
Qed.
End DeleteBlobs.
