(* ===== verification/StoreState.v ===== *)
(** * Package store: the state of the in-memory store

    [Memory] of [api/internal/store/store_memory.go], the executable
    implementation of the [Store] contract of [store.go]: one Go map per
    table, guarded by one lock. Every method takes the lock for its whole body
    unless its model says otherwise, so a method is one atomic step on this
    record. The methods themselves are in the files [StoreUsers],
    [StoreChannels], [StoreInvites], [StoreDevices], [StoreMessages],
    [StoreConversations], [StoreMls] and [StoreBackup]; their sequences and
    the invariant they keep are in [StoreSystem]. *)

From S2P Require Import Prelude.
From S2P Require Import GoStrings.
From S2P Require Import Domain.
From S2P Require Import Blob.

(** The sentinel errors of [store.go]. *)
Inductive store_err : Type :=
| ErrNotFound
| ErrEpochConflict
| ErrAliasTaken
| ErrUsernameTaken
| ErrInviteSpent.

#[global] Instance store_err_eq_dec : EqDecision store_err.
Proof. solve_decision. Defined.

Module userRevocation.
Record t := mk { Cutoff : time; ExpiresAt : time }.
End userRevocation.

Module Memory.
Record t (B : Type) := mk {
  users : gmap string User.t;
  channels : gmap string Channel.t;
  apiKeys : gmap string APIKey.t;
  invites : gmap string Invite.t;
  devices : gmap string Device.t;
  revokedUsers : gmap string userRevocation.t;
  subscriptions : gmap string Subscription.t;
  members : gmap string ChannelMember.t;
  messages : gmap string Message.t;
  deliveries : gmap string Delivery.t;
  comments : gmap string Comment.t;
  conversations : gmap string Conversation.t;
  convMembers : gmap string ConversationMember.t;
  chatMessages : gmap string ChatMessage.t;
  attachments : gmap string Attachment.t;
  keyPackages : gmap string MLSKeyPackage.t;
  keyBackups : gmap string MLSKeyBackup.t;
  keyBackupVersions : gmap string (list MLSKeyBackup.t);
  keyBackupTail : gmap string (list MLSKeyBackupTailEntry.t);
  mlsDevices : gmap string MLSDevice.t;
  revokedSessions : gmap string time;
  mlsGroupInfo : gmap string MLSGroupInfo.t;
  remoteSubs : gmap string RemoteSubscription.t;
  blobs : option B
}.
Arguments mk {B}.
Arguments users {B}.
Arguments channels {B}.
Arguments apiKeys {B}.
Arguments invites {B}.
Arguments devices {B}.
Arguments revokedUsers {B}.
Arguments subscriptions {B}.
Arguments members {B}.
Arguments messages {B}.
Arguments deliveries {B}.
Arguments comments {B}.
Arguments conversations {B}.
Arguments convMembers {B}.
Arguments chatMessages {B}.
Arguments attachments {B}.
Arguments keyPackages {B}.
Arguments keyBackups {B}.
Arguments keyBackupVersions {B}.
Arguments keyBackupTail {B}.
Arguments mlsDevices {B}.
Arguments revokedSessions {B}.
Arguments mlsGroupInfo {B}.
Arguments remoteSubs {B}.
Arguments blobs {B}.
#[global] Instance eta {B} : Eta (t B) := fun r =>
  mk (users r)
  (channels r)
  (apiKeys r)
  (invites r)
  (devices r)
  (revokedUsers r)
  (subscriptions r)
  (members r)
  (messages r)
  (deliveries r)
  (comments r)
  (conversations r)
  (convMembers r)
  (chatMessages r)
  (attachments r)
  (keyPackages r)
  (keyBackups r)
  (keyBackupVersions r)
  (keyBackupTail r)
  (mlsDevices r)
  (revokedSessions r)
  (mlsGroupInfo r)
  (remoteSubs r)
  (blobs r).

(** [NewMemory(blobs)] *)
Definition NewMemory {B} (blobs : option B) : t B :=
  mk ∅ ∅ ∅ ∅ ∅ ∅ ∅ ∅ ∅ ∅ ∅ ∅ ∅ ∅ ∅ ∅ ∅ ∅ ∅ ∅ ∅ ∅ ∅ blobs.
End Memory.

(** A method that changes the state and returns a value or an error. *)
Abbreviation memory_op B A := (Memory.t B * result store_err A)%type.

(** [mlsDeviceKey] and the key of [remoteSubs], composite keys. *)
Definition mlsDeviceKey (userID deviceID : string) : string :=
  String.append userID (String.append ":" deviceID).
Definition nul : string := String (ascii_of_N 0) EmptyString.
Definition remoteSubKey (channelID peerDomain : string) : string :=
  String.append channelID (String.append nul peerDomain).

(** ** The table invariant

    Every table is keyed by the id its rows carry; the tables with a composite
    or foreign key are keyed by it. *)
Record Keyed {B} (m : Memory.t B) : Prop := {
  keyed_users : keyed User.ID (Memory.users m);
  keyed_channels : keyed Channel.ID (Memory.channels m);
  keyed_apiKeys : keyed APIKey.ID (Memory.apiKeys m);
  keyed_invites : keyed Invite.ID (Memory.invites m);
  keyed_devices : keyed Device.ID (Memory.devices m);
  keyed_subscriptions : keyed Subscription.ID (Memory.subscriptions m);
  keyed_members : keyed ChannelMember.ID (Memory.members m);
  keyed_messages : keyed Message.ID (Memory.messages m);
  keyed_deliveries : keyed Delivery.ID (Memory.deliveries m);
  keyed_comments : keyed Comment.ID (Memory.comments m);
  keyed_conversations : keyed Conversation.ID (Memory.conversations m);
  keyed_convMembers : keyed ConversationMember.ID (Memory.convMembers m);
  keyed_chatMessages : keyed ChatMessage.ID (Memory.chatMessages m);
  keyed_attachments : keyed Attachment.ID (Memory.attachments m);
  keyed_keyPackages : keyed MLSKeyPackage.ID (Memory.keyPackages m);
  keyed_keyBackups : keyed MLSKeyBackup.UserID (Memory.keyBackups m);
  keyed_mlsDevices :
    keyed (fun d => mlsDeviceKey (MLSDevice.UserID d) (MLSDevice.DeviceID d)) (Memory.mlsDevices m);
  keyed_remoteSubs :
    keyed (fun s => remoteSubKey (RemoteSubscription.ChannelID s) (RemoteSubscription.PeerDomain s))
      (Memory.remoteSubs m)
}.

Lemma Keyed_NewMemory {B} (blobs : option B) : Keyed (Memory.NewMemory blobs).
Proof. split; apply keyed_empty. Qed.

(** Closes the preservation of [Keyed] by an operation: splits the invariant
    of the state before, and each table after is an old one or an update the
    [keyed] hints cover. *)
Ltac keyed_tac :=
  match goal with
  | H : Keyed ?m |- Keyed _ => destruct H; split; simpl; eauto with keyed
  end.
