(* ===== verification/StoreUsers.v ===== *)
(** * Package store: users

    The user methods of [Memory] ([store_memory.go]) that touch the users
    table and its avatars; [DeleteUser], which reaches into the channels, is in
    [StoreChannels]. *)

From S2P Require Import Prelude.
From S2P Require Import GoStrings.
From S2P Require Import Domain.
From S2P Require Import Blob.
From S2P Require Import StoreState.

Section Users.
Context {B : Type} {BS : BlobStore B} {RO : RangeOrder} {U : Unicode}.
Implicit Types (m : Memory.t B) (u : User.t).

(** [nid] is what [newID] draws. *)
Definition CreateUser m (nid : string) u : memory_op B User.t :=
  let u := if User.ID u == "" then u <| User.ID := nid |> else u in
  let u := WithNewUserDefaults u in
  (m <| Memory.users := <[User.ID u := u]> (Memory.users m) |>, Ok u).

Definition UserByID m (id : string) : result store_err User.t :=
  match Memory.users m !! id with Some u => Ok u | None => Err ErrNotFound end.

Definition UserByEmail m (email : string) : result store_err User.t :=
  match range_find (fun u => User.Email u == email) (Memory.users m) with
  | Some (_, u) => Ok u
  | None => Err ErrNotFound
  end.

Definition UserByUsername m (usernameLower : string) : result store_err User.t :=
  if usernameLower == "" then Err ErrNotFound
  else match range_find (fun u => User.UsernameLower u == usernameLower) (Memory.users m) with
       | Some (_, u) => Ok u
       | None => Err ErrNotFound
       end.

Definition UsersByIDs m (ids : list string) : gmap string User.t :=
  foldl (fun out id => match Memory.users m !! id with Some u => <[id := u]> out | None => out end)
    ∅ ids.

(** The username loop of [UpdateUserProfile]. *)
Definition username_taken m (userID lower : string) : bool :=
  range_exists (fun id other => (id != userID) && (User.UsernameLower other == lower))
    (Memory.users m).

(** The fields of [UpdateUserProfile] after the username. *)
Definition apply_profile u (p : UserProfileUpdate.t) : User.t :=
  let u := match UserProfileUpdate.DisplayName p with
           | Some s => u <| User.DisplayName := TrimSpace s |> | None => u end in
  let u := match UserProfileUpdate.Bio p with
           | Some s => u <| User.Bio := TrimSpace s |> | None => u end in
  let u := match UserProfileUpdate.Phone p with
           | Some s => u <| User.Phone := TrimSpace s |> | None => u end in
  let u := match UserProfileUpdate.Website p with
           | Some s => u <| User.Website := TrimSpace s |> | None => u end in
  match UserProfileUpdate.NotificationPrivacy p with
  | Some s => u <| User.NotificationPrivacy := s |> | None => u end.

Definition UpdateUserProfile m (userID : string) (p : UserProfileUpdate.t) : memory_op B User.t :=
  match Memory.users m !! userID with
  | None => (m, Err ErrNotFound)
  | Some u =>
      let named :=
        match UserProfileUpdate.Username p with
        | None => Some u
        | Some name =>
            let lower := ToLower (TrimSpace name) in
            if (lower != "") && username_taken m userID lower then None
            else Some (u <| User.Username := TrimSpace name |> <| User.UsernameLower := lower |>)
        end in
      match named with
      | None => (m, Err ErrUsernameTaken)
      | Some u =>
          let u := apply_profile u p in
          (m <| Memory.users := <[userID := u]> (Memory.users m) |>, Ok u)
      end
  end.

(** The blob of the old avatar is deleted outside the lock. *)
Definition SetUserAvatar m (userID avatarID : string) : memory_op B User.t :=
  match Memory.users m !! userID with
  | None => (m, Err ErrNotFound)
  | Some u =>
      let old := User.AvatarID u in
      let u := u <| User.AvatarID := avatarID |> in
      let m := m <| Memory.users := <[userID := u]> (Memory.users m) |> in
      let m := if (old != "") && (old != avatarID)
               then m <| Memory.blobs := deleteBlobs (Memory.blobs m) [old] |> else m in
      (m, Ok u)
  end.

Definition UpdateUserRole m (userID role : string) : memory_op B unit :=
  match Memory.users m !! userID with
  | None => (m, Err ErrNotFound)
  | Some u =>
      (m <| Memory.users := <[userID := u <| User.Role := role |>]> (Memory.users m) |>, Ok tt)
  end.

Definition UpdateUserStatus m (userID status : string) : memory_op B unit :=
  match Memory.users m !! userID with
  | None => (m, Err ErrNotFound)
  | Some u =>
      (m <| Memory.users := <[userID := u <| User.Status := status |>]> (Memory.users m) |>, Ok tt)
  end.

Definition UpdateUserPassword m (userID passwordHash : string) : memory_op B unit :=
  match Memory.users m !! userID with
  | None => (m, Err ErrNotFound)
  | Some u =>
      (m <| Memory.users :=
         <[userID := u <| User.PasswordHash := passwordHash |>]> (Memory.users m) |>, Ok tt)
  end.

Definition ListUsers m : list User.t :=
  sort_slice (newest User.CreatedAt) (range_filter (fun _ => true) (Memory.users m)).

(** [paginate]; [None] is the panic of a slice out of range, which an overflow
    of [offset+limit] brings about. *)
Definition paginate {A} (items : list A) (offset limit : Z) : option (list A) :=
  let offset := if offset <? 0 then 0 else offset in
  let len := Z.of_nat (length items) in
  if len <=? offset then Some []
  else
    let end_ := if (0 <? limit) && (wrap64 (offset + limit) <? len)
                then wrap64 (offset + limit) else len in
    go_slice items offset end_.

Definition AdminListUsers m (query : string) (offset limit : Z) : option (list User.t) * Z :=
  let q := ToLower (TrimSpace query) in
  let all := range_filter (fun u => (q == "") || Contains (ToLower (User.Email u)) q)
               (Memory.users m) in
  let all := sort_slice (newest User.CreatedAt) all in
  (paginate all offset limit, Z.of_nat (length all)).

Definition SearchUsers m (query : string) (limit : Z) : list User.t :=
  let q := ToLower (TrimSpace query) in
  if q == "" then []
  else
    let out := range_filter (fun u =>
      (User.Status u == UserActive)
      && (Contains (ToLower (User.Username u)) q || Contains (ToLower (User.DisplayName u)) q))
      (Memory.users m) in
    truncate limit (sort_slice (fun x y => str_lt (User.Username x) (User.Username y)) out).

(** ** Lemmas *)

Lemma CreateUser_Keyed m nid u : Keyed m → Keyed (CreateUser m nid u).1.
Proof. intros H. unfold CreateUser. keyed_tac. Qed.

Lemma apply_profile_same u p :
  User.ID (apply_profile u p) = User.ID u ∧
  User.Username (apply_profile u p) = User.Username u ∧
  User.UsernameLower (apply_profile u p) = User.UsernameLower u.
Proof. unfold apply_profile. repeat case_match; done. Qed.

(** The account after a successful update: the row under [userID], with a
    username no other row holds. *)
Lemma UpdateUserProfile_spec m userID p :
  match UpdateUserProfile m userID p with
  | (m', Ok u') => ∃ u,
      Memory.users m !! userID = Some u ∧
      m' = m <| Memory.users := <[userID := u']> (Memory.users m) |> ∧
      User.ID u' = User.ID u ∧
      match UserProfileUpdate.Username p with
      | None => User.UsernameLower u' = User.UsernameLower u ∧ User.Username u' = User.Username u
      | Some name =>
          User.UsernameLower u' = ToLower (TrimSpace name) ∧ User.Username u' = TrimSpace name ∧
          (ToLower (TrimSpace name) ≠ "" → username_taken m userID (ToLower (TrimSpace name)) = false)
      end
  | (m', Err e) => m' = m ∧ (e = ErrNotFound ∧ Memory.users m !! userID = None ∨ e = ErrUsernameTaken)
  end.
Proof.
  unfold UpdateUserProfile. destruct (Memory.users m !! userID) as [u|] eqn:E; [|by eauto].
  destruct (UserProfileUpdate.Username p) as [name|]; simpl.
  - destruct (ToLower (TrimSpace name) != "") eqn:Hl, (username_taken m userID _) eqn:Ht; simpl;
      try (by eauto); exists u;
      match goal with |- context [apply_profile ?v p] => destruct (apply_profile_same v p) as (->&->&->) end;
      repeat split; try done; bool_hyps; congruence.
  - exists u. destruct (apply_profile_same u p) as (->&->&->). done.
Qed.

Lemma UpdateUserProfile_Keyed m userID p : Keyed m → Keyed (UpdateUserProfile m userID p).1.
Proof.
  intros H. pose proof (UpdateUserProfile_spec m userID p) as Hs.
  destruct (UpdateUserProfile m userID p) as [m' [u'|e]]; simpl.
  - destruct Hs as (u & Hu & -> & Hid & _). keyed_tac.
  - by destruct Hs as [-> _].
Qed.

Lemma SetUserAvatar_Keyed m userID a : Keyed m → Keyed (SetUserAvatar m userID a).1.
Proof.
  intros H. unfold SetUserAvatar. destruct (Memory.users m !! userID) eqn:E; [|done].
  case_match; keyed_tac.
Qed.

Lemma UpdateUser_Keyed m userID s :
  Keyed m →
  Keyed (UpdateUserRole m userID s).1 ∧ Keyed (UpdateUserStatus m userID s).1 ∧
  Keyed (UpdateUserPassword m userID s).1.
Proof.
  intros H. unfold UpdateUserRole, UpdateUserStatus, UpdateUserPassword.
  destruct (Memory.users m !! userID) eqn:E; [|done]. repeat split_and; keyed_tac.
Qed.
End Users.
