(* ===== verification/StoreChannels.v ===== *)
(** * Package store: channels, members, API keys, and the cascading deletes

    The channel, channel-member, API-key and remote-subscription methods of
    [Memory] ([store_memory.go]), with [DeleteChannel] and [DeleteUser], which
    remove everything that hangs off a channel or an account. *)

From S2P Require Import Prelude.
From S2P Require Import GoStrings.
From S2P Require Import Domain.
From S2P Require Import Blob.
From S2P Require Import StoreState.
From S2P Require Import StoreUsers.

Section Channels.
Context {B : Type} {BS : BlobStore B} {RO : RangeOrder} {U : Unicode}.
Implicit Types (m : Memory.t B) (c : Channel.t).

(** ** Channels *)

Definition CreateChannel m (nid : string) c : memory_op B Channel.t :=
  let c := if Channel.ID c == "" then c <| Channel.ID := nid |> else c in
  (m <| Memory.channels := <[Channel.ID c := c]> (Memory.channels m) |>, Ok c).

Definition ChannelByID m (id : string) : result store_err Channel.t :=
  match Memory.channels m !! id with Some c => Ok c | None => Err ErrNotFound end.

(** The first channel a [range] finds with a property. *)
Definition find_channel m (p : Channel.t → bool) : result store_err Channel.t :=
  match range_find p (Memory.channels m) with
  | Some (_, c) => Ok c
  | None => Err ErrNotFound
  end.

Definition ChannelByPublicID m (publicID : string) : result store_err Channel.t :=
  find_channel m (fun c => Channel.PublicID c == publicID).

Definition ChannelByOriginPublicID m (originDomain originPublicID : string)
  : result store_err Channel.t :=
  find_channel m (fun c =>
    (Channel.OriginDomain c == originDomain) && (Channel.OriginPublicID c == originPublicID)).

Definition ChannelByAlias m (aliasLower : string) : result store_err Channel.t :=
  if aliasLower == "" then Err ErrNotFound
  else find_channel m (fun c => Channel.AliasLower c == aliasLower).

Definition alias_taken m (channelID lower : string) : bool :=
  range_exists (fun id other => (id != channelID) && (Channel.AliasLower other == lower))
    (Memory.channels m).

Definition SetChannelAlias m (channelID alias : string) : memory_op B Channel.t :=
  match Memory.channels m !! channelID with
  | None => (m, Err ErrNotFound)
  | Some c =>
      let lower := ToLower (TrimSpace alias) in
      if (lower != "") && alias_taken m channelID lower then (m, Err ErrAliasTaken)
      else
        let c := c <| Channel.Alias := TrimSpace alias |> <| Channel.AliasLower := lower |> in
        (m <| Memory.channels := <[channelID := c]> (Memory.channels m) |>, Ok c)
  end.

Definition ChannelsByOwner m (ownerID : string) : list Channel.t :=
  range_filter (fun c => Channel.OwnerID c == ownerID) (Memory.channels m).

Definition UpdateChannel m (id name mode : string) : memory_op B Channel.t :=
  match Memory.channels m !! id with
  | None => (m, Err ErrNotFound)
  | Some c =>
      let c := if name != "" then c <| Channel.Name := name |> else c in
      let c := if mode != "" then c <| Channel.SubscriptionMode := mode |> else c in
      (m <| Memory.channels := <[id := c]> (Memory.channels m) |>, Ok c)
  end.

Definition UpdateChannelStatus m (id status : string) : memory_op B Channel.t :=
  match Memory.channels m !! id with
  | None => (m, Err ErrNotFound)
  | Some c =>
      let c := c <| Channel.Status := status |> in
      (m <| Memory.channels := <[id := c]> (Memory.channels m) |>, Ok c)
  end.

Definition SetChannelAvatar m (channelID avatarID : string) : memory_op B Channel.t :=
  match Memory.channels m !! channelID with
  | None => (m, Err ErrNotFound)
  | Some ch =>
      let old := Channel.AvatarID ch in
      let ch := ch <| Channel.AvatarID := avatarID |> in
      let m := m <| Memory.channels := <[channelID := ch]> (Memory.channels m) |> in
      let m := if (old != "") && (old != avatarID)
               then m <| Memory.blobs := deleteBlobs (Memory.blobs m) [old] |> else m in
      (m, Ok ch)
  end.

(** The image ids of the messages of a channel, in the order of the loop. *)
Definition channel_image_ids m (id : string) : list string :=
  range_filter (fun msg => Message.ChannelID msg == id) (Memory.messages m)
    ≫= fun msg => MessageImage.ID <$> Message.Images msg.

(** The ids of the messages of a channel: the set [msgIDs]. *)
Definition channel_message_ids m (id : string) : list string :=
  (filter (fun kx => Is_true (Message.ChannelID kx.2 == id)) (go_range (Memory.messages m))).*1.

Definition DeleteChannel m (id : string) : memory_op B unit :=
  match Memory.channels m !! id with
  | None => (m, Err ErrNotFound)
  | Some ch =>
      let msgIDs := channel_message_ids m id in
      let imageIDs := (if Channel.AvatarID ch != "" then [Channel.AvatarID ch] else [])
                      ++ channel_image_ids m id in
      let m := m
        <| Memory.channels := delete id (Memory.channels m) |>
        <| Memory.apiKeys := range_delete (fun k => APIKey.ChannelID k == id) (Memory.apiKeys m) |>
        <| Memory.subscriptions :=
             range_delete (fun s => Subscription.ChannelID s == id) (Memory.subscriptions m) |>
        <| Memory.members :=
             range_delete (fun mem => ChannelMember.ChannelID mem == id) (Memory.members m) |>
        <| Memory.messages :=
             range_delete (fun msg => Message.ChannelID msg == id) (Memory.messages m) |>
        <| Memory.deliveries :=
             range_delete (fun d => bool_decide (Delivery.MessageID d ∈ msgIDs)) (Memory.deliveries m) |>
        <| Memory.comments :=
             range_delete (fun cm => Comment.ChannelID cm == id) (Memory.comments m) |> in
      (m <| Memory.blobs := deleteBlobs (Memory.blobs m) imageIDs |>, Ok tt)
  end.

Definition ListAllChannels m : list Channel.t :=
  sort_slice (newest Channel.CreatedAt) (range_filter (fun _ => true) (Memory.channels m)).

Definition AdminListChannels m (query : string) (offset limit : Z) : option (list Channel.t) * Z :=
  let q := ToLower (TrimSpace query) in
  let all := range_filter (fun c => (q == "") || Contains (ToLower (Channel.Name c)) q)
               (Memory.channels m) in
  let all := sort_slice (newest Channel.CreatedAt) all in
  (paginate all offset limit, Z.of_nat (length all)).

(** ** Peer hosts that subscribe to a channel *)

Definition AddRemoteSubscription m (nid : string) (now : time) (channelID peerDomain : string)
  : memory_op B unit :=
  let key := remoteSubKey channelID peerDomain in
  match Memory.remoteSubs m !! key with
  | Some _ => (m, Ok tt)
  | None =>
      (m <| Memory.remoteSubs :=
         <[key := RemoteSubscription.mk nid channelID peerDomain now]> (Memory.remoteSubs m) |>, Ok tt)
  end.

Definition RemoteSubscriberHosts m (channelID : string) : list string :=
  RemoteSubscription.PeerDomain <$>
    range_filter (fun rs => RemoteSubscription.ChannelID rs == channelID) (Memory.remoteSubs m).

(** ** API keys *)

Definition CreateAPIKey m (nid : string) (k : APIKey.t) : memory_op B APIKey.t :=
  let k := if APIKey.ID k == "" then k <| APIKey.ID := nid |> else k in
  (m <| Memory.apiKeys := <[APIKey.ID k := k]> (Memory.apiKeys m) |>, Ok k).

Definition APIKeyByID m (keyID : string) : result store_err APIKey.t :=
  match Memory.apiKeys m !! keyID with Some k => Ok k | None => Err ErrNotFound end.

Definition APIKeysByChannel m (channelID : string) : list APIKey.t :=
  range_filter (fun k => APIKey.ChannelID k == channelID) (Memory.apiKeys m).

Definition RevokeAPIKey m (now : time) (keyID : string) : memory_op B unit :=
  match Memory.apiKeys m !! keyID with
  | None => (m, Err ErrNotFound)
  | Some k =>
      match APIKey.RevokedAt k with
      | Some _ => (m, Ok tt)
      | None =>
          (m <| Memory.apiKeys :=
             <[keyID := k <| APIKey.RevokedAt := Some now |>]> (Memory.apiKeys m) |>, Ok tt)
      end
  end.

(** ** Members *)

(** The row test shared by the member methods. *)
Definition is_member (channelID userID : string) (mem : ChannelMember.t) : bool :=
  (ChannelMember.ChannelID mem == channelID) && (ChannelMember.UserID mem == userID).

Definition UpsertMember m (nid : string) (mem : ChannelMember.t) : memory_op B ChannelMember.t :=
  match range_find (is_member (ChannelMember.ChannelID mem) (ChannelMember.UserID mem))
          (Memory.members m) with
  | Some (_, existing) => (m, Ok existing)
  | None =>
      let mem := if ChannelMember.ID mem == "" then mem <| ChannelMember.ID := nid |> else mem in
      (m <| Memory.members := <[ChannelMember.ID mem := mem]> (Memory.members m) |>, Ok mem)
  end.

Definition MembershipForUser m (channelID userID : string) : result store_err ChannelMember.t :=
  match range_find (is_member channelID userID) (Memory.members m) with
  | Some (_, mem) => Ok mem
  | None => Err ErrNotFound
  end.

Definition ListMembers m (channelID status : string) (offset limit : Z)
  : option (list ChannelMember.t) * Z :=
  let all := range_filter (fun mem =>
    (ChannelMember.ChannelID mem == channelID)
    && ((status == "") || (ChannelMember.Status mem == status))) (Memory.members m) in
  let all := sort_slice (newest ChannelMember.CreatedAt) all in
  (paginate all offset limit, Z.of_nat (length all)).

(** The update loop of [UpdateMemberStatus], [UpdateMemberRole] and
    [RemoveMember]: change the first matching row and return. *)
Definition on_member m (channelID userID : string)
  (f : string → ChannelMember.t → gmap string ChannelMember.t) : memory_op B unit :=
  match range_find (is_member channelID userID) (Memory.members m) with
  | Some (id, mem) => (m <| Memory.members := f id mem |>, Ok tt)
  | None => (m, Err ErrNotFound)
  end.

Definition UpdateMemberStatus m (channelID userID status : string) : memory_op B unit :=
  on_member m channelID userID (fun id mem =>
    <[id := mem <| ChannelMember.Status := status |>]> (Memory.members m)).

Definition UpdateMemberRole m (channelID userID role : string) : memory_op B unit :=
  on_member m channelID userID (fun id mem =>
    <[id := mem <| ChannelMember.Role := role |>]> (Memory.members m)).

Definition RemoveMember m (channelID userID : string) : memory_op B unit :=
  on_member m channelID userID (fun id _ => delete id (Memory.members m)).

Definition ChannelsForMember m (userID : string) : list Channel.t :=
  let mine := range_filter (fun mem => ChannelMember.UserID mem == userID) (Memory.members m) in
  sort_slice (newest Channel.CreatedAt)
    (omap (fun mem => Memory.channels m !! ChannelMember.ChannelID mem) mine).

(** ** Deleting an account

    [DeleteUser] takes the lock three times over: a snapshot of the user, the
    ids of the channels they own and of their devices; one [DeleteChannel] per
    channel; and the removal of the rest. Other calls may run in between. *)

Definition DeleteUser_snapshot m (userID : string)
  : option User.t * list string * list string :=
  (Memory.users m !! userID,
   Channel.ID <$> range_filter (fun c => Channel.OwnerID c == userID) (Memory.channels m),
   Device.ID <$> range_filter (fun d => Device.UserID d == userID) (Memory.devices m)).

Fixpoint delete_channels m (ids : list string) : memory_op B unit :=
  match ids with
  | [] => (m, Ok tt)
  | cid :: ids' =>
      match DeleteChannel m cid with
      | (m, Err e) => (m, Err e)
      | (m, Ok _) => delete_channels m ids'
      end
  end.

Definition DeleteUser_finish m (userID : string) (u : User.t) (deviceIDs : list string)
  : memory_op B unit :=
  let m := m
    <| Memory.devices := foldl (fun ds did => delete did ds) (Memory.devices m) deviceIDs |>
    <| Memory.subscriptions :=
         range_delete (fun s => bool_decide (Subscription.DeviceID s ∈ deviceIDs))
           (Memory.subscriptions m) |>
    <| Memory.members :=
         range_delete (fun mem => ChannelMember.UserID mem == userID) (Memory.members m) |>
    <| Memory.comments := range_delete (fun cm => Comment.UserID cm == userID) (Memory.comments m) |>
    <| Memory.users := delete userID (Memory.users m) |> in
  (if User.AvatarID u != ""
   then m <| Memory.blobs := deleteBlobs (Memory.blobs m) [User.AvatarID u] |> else m, Ok tt).

(** The three phases with nothing in between. *)
Definition DeleteUser m (userID : string) : memory_op B unit :=
  let '(u, channelIDs, deviceIDs) := DeleteUser_snapshot m userID in
  match u with
  | None => (m, Err ErrNotFound)
  | Some u =>
      match delete_channels m channelIDs with
      | (m, Err e) => (m, Err e)
      | (m, Ok _) => DeleteUser_finish m userID u deviceIDs
      end
  end.

(** ** Lemmas: the tables stay keyed *)

Lemma DeleteChannel_Keyed m id : Keyed m → Keyed (DeleteChannel m id).1.
Proof. intros H. unfold DeleteChannel. destruct (Memory.channels m !! id); [|done]. keyed_tac. Qed.

Lemma SetChannelAlias_Keyed m id a : Keyed m → Keyed (SetChannelAlias m id a).1.
Proof.
  intros H. unfold SetChannelAlias. destruct (Memory.channels m !! id) eqn:E; [|done].
  case_match; [done|]. keyed_tac.
Qed.

Lemma UpdateChannel_Keyed m id name mode : Keyed m → Keyed (UpdateChannel m id name mode).1.
Proof.
  intros H. unfold UpdateChannel. destruct (Memory.channels m !! id) eqn:E; [|done].
  destruct (name != ""), (mode != ""); keyed_tac.
Qed.

Lemma UpdateChannelStatus_Keyed m id s : Keyed m → Keyed (UpdateChannelStatus m id s).1.
Proof.
  intros H. unfold UpdateChannelStatus. destruct (Memory.channels m !! id) eqn:E; [|done]. keyed_tac.
Qed.

Lemma SetChannelAvatar_Keyed m id a : Keyed m → Keyed (SetChannelAvatar m id a).1.
Proof.
  intros H. unfold SetChannelAvatar. destruct (Memory.channels m !! id) eqn:E; [|done].
  case_match; keyed_tac.
Qed.

Lemma CreateChannel_Keyed m nid c : Keyed m → Keyed (CreateChannel m nid c).1.
Proof. intros H. unfold CreateChannel. keyed_tac. Qed.

Lemma AddRemoteSubscription_Keyed m nid now ch peer :
  Keyed m → Keyed (AddRemoteSubscription m nid now ch peer).1.
Proof.
  intros H. unfold AddRemoteSubscription. case_match; [done|]. destruct H; split; simpl; try done.
  intros k x. rewrite lookup_insert. case_decide; [by intros [= <-] | apply keyed_remoteSubs].
Qed.

Lemma CreateAPIKey_Keyed m nid k : Keyed m → Keyed (CreateAPIKey m nid k).1.
Proof. intros H. unfold CreateAPIKey. keyed_tac. Qed.

Lemma RevokeAPIKey_Keyed m now k : Keyed m → Keyed (RevokeAPIKey m now k).1.
Proof.
  intros H. unfold RevokeAPIKey. destruct (Memory.apiKeys m !! k) eqn:E; [|done].
  case_match; [done|]. keyed_tac.
Qed.

Lemma UpsertMember_Keyed m nid mem : Keyed m → Keyed (UpsertMember m nid mem).1.
Proof. intros H. unfold UpsertMember. case_match; [by case_match|]. keyed_tac. Qed.

Lemma member_update_Keyed m ch uid s :
  Keyed m →
  Keyed (UpdateMemberStatus m ch uid s).1 ∧ Keyed (UpdateMemberRole m ch uid s).1 ∧
  Keyed (RemoveMember m ch uid).1.
Proof.
  intros H. unfold UpdateMemberStatus, UpdateMemberRole, RemoveMember, on_member.
  destruct (range_find _ _) as [[id mem]|] eqn:E; [|done].
  apply range_find_Some in E as [E _]. repeat split_and; keyed_tac.
Qed.

Lemma delete_channels_Keyed m ids : Keyed m → Keyed (delete_channels m ids).1.
Proof.
  revert m. induction ids as [|id ids IH]; intros m H; simpl; [done|].
  pose proof (DeleteChannel_Keyed m id H). destruct (DeleteChannel m id) as [m' [x|e]]; simpl in *; auto.
Qed.

Lemma foldl_delete_keyed {A} (f : A → string) ids (t : gmap string A) :
  keyed f t → keyed f (foldl (fun ds did => delete did ds) t ids).
Proof. revert t. induction ids as [|i ids IH]; intros t Ht; simpl; auto with keyed. Qed.

Lemma DeleteUser_finish_Keyed m uid u ids : Keyed m → Keyed (DeleteUser_finish m uid u ids).1.
Proof.
  intros H. unfold DeleteUser_finish. destruct H. case_match; split; simpl;
    eauto using foldl_delete_keyed with keyed.
Qed.

Lemma DeleteUser_Keyed m uid : Keyed m → Keyed (DeleteUser m uid).1.
Proof.
  intros H. unfold DeleteUser, DeleteUser_snapshot. destruct (Memory.users m !! uid); [|done].
  pose proof (delete_channels_Keyed m
    (Channel.ID <$> range_filter (fun c => Channel.OwnerID c == uid) (Memory.channels m)) H) as H'.
  destruct (delete_channels _ _) as [m' [x|e]]; simpl in *; [|done]. by apply DeleteUser_finish_Keyed.
Qed.

(** ** Lemmas: one membership per user and channel *)

Definition one_membership (t : gmap string ChannelMember.t) : Prop :=
  ∀ k1 k2 x1 x2 ch uid, t !! k1 = Some x1 → t !! k2 = Some x2 →
  is_member ch uid x1 = true → is_member ch uid x2 = true → k1 = k2.

Lemma is_member_true ch uid mem :
  is_member ch uid mem = true ↔ ChannelMember.ChannelID mem = ch ∧ ChannelMember.UserID mem = uid.
Proof. unfold is_member. by rewrite andb_true_iff, !bool_decide_eq_true. Qed.

Lemma one_membership_subset (t t' : gmap string ChannelMember.t) :
  t' ⊆ t → one_membership t → one_membership t'.
Proof. intros Hs H k1 k2 x1 x2 ch uid H1 H2. eapply H; eapply lookup_weaken; eauto. Qed.

Lemma one_membership_insert (t : gmap string ChannelMember.t) k y :
  one_membership t →
  (∀ k' x, t !! k' = Some x → is_member (ChannelMember.ChannelID y) (ChannelMember.UserID y) x = true → k' = k) →
  one_membership (<[k := y]> t).
Proof.
  intros Hu Hy k1 k2 x1 x2 ch uid. rewrite !lookup_insert. repeat case_decide; subst; try done.
  - intros [= <-] H2 [<- <-]%is_member_true Hc. symmetry. eauto.
  - intros H1 [= <-] Hc [<- <-]%is_member_true. eauto.
  - apply Hu.
Qed.

Lemma UpsertMember_one m nid mem :
  one_membership (Memory.members m) → one_membership (Memory.members (UpsertMember m nid mem).1).
Proof.
  intros H. unfold UpsertMember. destruct (range_find _ _) as [[k x]|] eqn:E; [done|].
  rewrite range_find_None in E. cbn.
  assert (∀ y, ChannelMember.ChannelID y = ChannelMember.ChannelID mem →
    ChannelMember.UserID y = ChannelMember.UserID mem →
    one_membership (<[ChannelMember.ID y := y]> (Memory.members m))) as Hy.
  { intros y Hc Hu. apply one_membership_insert; [done|]. intros k x Hk. rewrite Hc, Hu.
    by rewrite (E k x Hk). }
  destruct (_ == ""); by apply Hy.
Qed.

(** Changing a row in place without moving it. *)
Lemma on_member_one m ch uid f :
  one_membership (Memory.members m) →
  (∀ id mem, Memory.members m !! id = Some mem →
     f id mem = delete id (Memory.members m) ∨
     ∃ y, f id mem = <[id := y]> (Memory.members m) ∧
       ChannelMember.ChannelID y = ChannelMember.ChannelID mem ∧
       ChannelMember.UserID y = ChannelMember.UserID mem) →
  one_membership (Memory.members (on_member m ch uid f).1).
Proof.
  intros H Hf. unfold on_member. destruct (range_find _ _) as [[id mem]|] eqn:E; [|done]. cbn.
  apply range_find_Some in E as [Hid _]. destruct (Hf id mem Hid) as [->|(y & -> & Hc & Hu)].
  - eapply one_membership_subset; [apply delete_subseteq | done].
  - apply one_membership_insert; [done|]. rewrite Hc, Hu. intros k x Hk Hx.
    apply (H k id x mem (ChannelMember.ChannelID mem) (ChannelMember.UserID mem)); try done.
    by apply is_member_true.
Qed.

(** ** Lemmas: what a deleted channel leaves *)

Lemma elem_of_channel_message_ids m id k :
  k ∈ channel_message_ids m id ↔ ∃ msg, Memory.messages m !! k = Some msg ∧ Message.ChannelID msg = id.
Proof.
  unfold channel_message_ids. rewrite list_elem_of_fmap. split.
  - intros ([k' msg] & -> & Hin). apply list_elem_of_filter in Hin as [Hp Hin].
    apply elem_of_go_range in Hin. apply Is_true_true, bool_decide_eq_true in Hp; simpl in *. eauto.
  - intros (msg & Hk & Hid). exists (k, msg). split; [done|]. apply list_elem_of_filter; simpl.
    rewrite elem_of_go_range, Hid, bool_decide_true; done.
Qed.

(** A row of a table that a [DeleteChannel] leaves was there and does not
    belong to the channel. *)
Lemma DeleteChannel_rows m id m' :
  DeleteChannel m id = (m', Ok tt) →
  (∃ ch, Memory.channels m !! id = Some ch ∧
     Memory.blobs m' = deleteBlobs (Memory.blobs m)
       ((if Channel.AvatarID ch != "" then [Channel.AvatarID ch] else []) ++ channel_image_ids m id)) ∧
  (∀ k x, Memory.channels m' !! k = Some x ↔ Memory.channels m !! k = Some x ∧ k ≠ id) ∧
  (∀ k x, Memory.apiKeys m' !! k = Some x ↔ Memory.apiKeys m !! k = Some x ∧ APIKey.ChannelID x ≠ id) ∧
  (∀ k x, Memory.subscriptions m' !! k = Some x ↔
     Memory.subscriptions m !! k = Some x ∧ Subscription.ChannelID x ≠ id) ∧
  (∀ k x, Memory.members m' !! k = Some x ↔
     Memory.members m !! k = Some x ∧ ChannelMember.ChannelID x ≠ id) ∧
  (∀ k x, Memory.messages m' !! k = Some x ↔
     Memory.messages m !! k = Some x ∧ Message.ChannelID x ≠ id) ∧
  (∀ k x, Memory.comments m' !! k = Some x ↔
     Memory.comments m !! k = Some x ∧ Comment.ChannelID x ≠ id) ∧
  (∀ k x, Memory.deliveries m' !! k = Some x ↔
     Memory.deliveries m !! k = Some x ∧
     ∀ msg, Memory.messages m !! Delivery.MessageID x = Some msg → Message.ChannelID msg ≠ id).
Proof.
  unfold DeleteChannel. destruct (Memory.channels m !! id) as [ch|] eqn:E; [|done].
  intros [= <-]; simpl. split; [by eauto|].
  repeat match goal with |- _ ∧ _ => split end; intros k x;
    rewrite ?range_delete_Some, ?lookup_delete, ?bool_decide_eq_false; try done.
  - case_decide; split; [done | by intros [_ ?] | done | by intros [? _]].
  - rewrite elem_of_channel_message_ids. split; intros [Hk Hn]; split; try done.
    + intros msg Hmsg Hid. apply Hn. eauto.
    + intros (msg & Hmsg & Hid). by apply (Hn msg).
Qed.
End Channels.
