(* ===== verification/StoreInvites.v ===== *)
(** * Package store: registration invites

    The invite methods of [Memory] ([store_memory.go]). [ConsumeInvite] is the
    compare-and-set that makes an invite one-time. *)

From S2P Require Import Prelude.
From S2P Require Import GoStrings.
From S2P Require Import Domain.
From S2P Require Import StoreState.
From S2P Require Import StoreUsers.

Section Invites.
Context {B : Type} {RO : RangeOrder} {U : Unicode}.
Implicit Types (m : Memory.t B) (i : Invite.t).

Definition CreateInvite m (nid : string) i : memory_op B Invite.t :=
  let i := if Invite.ID i == "" then i <| Invite.ID := nid |> else i in
  (m <| Memory.invites := <[Invite.ID i := i]> (Memory.invites m) |>, Ok i).

Definition InviteByCodeHash m (codeHash : string) : result store_err Invite.t :=
  if codeHash == "" then Err ErrNotFound
  else match range_find (fun i => Invite.CodeHash i == codeHash) (Memory.invites m) with
       | Some (_, i) => Ok i
       | None => Err ErrNotFound
       end.

Definition InviteByID m (id : string) : result store_err Invite.t :=
  match Memory.invites m !! id with Some i => Ok i | None => Err ErrNotFound end.

Definition AdminListInvites m (query : string) (offset limit : Z) : option (list Invite.t) * Z :=
  let q := ToLower (TrimSpace query) in
  let all := range_filter (fun i =>
    (q == "") || Contains (ToLower (Invite.Note i)) q || Contains (ToLower (Invite.Prefix i)) q)
    (Memory.invites m) in
  let all := sort_slice (newest Invite.CreatedAt) all in
  (paginate all offset limit, Z.of_nat (length all)).

Definition ConsumeInvite m (id userID : string) (now : time) : memory_op B unit :=
  match Memory.invites m !! id with
  | None => (m, Err ErrNotFound)
  | Some i =>
      if negb (Redeemable i now) then (m, Err ErrInviteSpent)
      else
        let i := i <| Invite.UsedAt := Some now |> <| Invite.UsedBy := userID |> in
        (m <| Memory.invites := <[id := i]> (Memory.invites m) |>, Ok tt)
  end.

Definition ReleaseInvite m (id : string) : memory_op B unit :=
  match Memory.invites m !! id with
  | None => (m, Err ErrNotFound)
  | Some i =>
      let i := i <| Invite.UsedAt := None |> <| Invite.UsedBy := "" |> in
      (m <| Memory.invites := <[id := i]> (Memory.invites m) |>, Ok tt)
  end.

Definition RevokeInvite m (id : string) (now : time) : memory_op B unit :=
  match Memory.invites m !! id with
  | None => (m, Err ErrNotFound)
  | Some i =>
      match Invite.RevokedAt i with
      | Some _ => (m, Ok tt)
      | None =>
          (m <| Memory.invites :=
             <[id := i <| Invite.RevokedAt := Some now |>]> (Memory.invites m) |>, Ok tt)
      end
  end.

(** ** Lemmas *)

Lemma CreateInvite_Keyed m nid i : Keyed m → Keyed (CreateInvite m nid i).1.
Proof. intros H. unfold CreateInvite. keyed_tac. Qed.

Lemma ConsumeInvite_Keyed m id uid now : Keyed m → Keyed (ConsumeInvite m id uid now).1.
Proof.
  intros H. unfold ConsumeInvite. destruct (Memory.invites m !! id) eqn:E; [|done].
  case_match; [done|]. keyed_tac.
Qed.

Lemma ReleaseInvite_Keyed m id : Keyed m → Keyed (ReleaseInvite m id).1.
Proof.
  intros H. unfold ReleaseInvite. destruct (Memory.invites m !! id) eqn:E; [|done]. keyed_tac.
Qed.

Lemma RevokeInvite_Keyed m id now : Keyed m → Keyed (RevokeInvite m id now).1.
Proof.
  intros H. unfold RevokeInvite. destruct (Memory.invites m !! id) eqn:E; [|done].
  case_match; [done|]. keyed_tac.
Qed.

(** ** The invite table as a state machine

    The calls that can change an invite, each with its outcome. *)

Inductive invite_call : Type :=
| CallCreate (nid : string) (i : Invite.t)
| CallConsume (id userID : string) (now : time)
| CallRevoke (id : string) (now : time)
| CallRelease (id : string).

Definition invite_step (m : Memory.t B) (c : invite_call) : Memory.t B * bool :=
  match c with
  | CallCreate nid i => let '(m, r) := CreateInvite m nid i in (m, is_ok r)
  | CallConsume id uid now => let '(m, r) := ConsumeInvite m id uid now in (m, is_ok r)
  | CallRevoke id now => let '(m, r) := RevokeInvite m id now in (m, is_ok r)
  | CallRelease id => let '(m, r) := ReleaseInvite m id in (m, is_ok r)
  end.

(** The calls in the order the lock admits them, with their outcomes. *)
Fixpoint invite_run (m : Memory.t B) (cs : list invite_call) : Memory.t B * list bool :=
  match cs with
  | [] => (m, [])
  | c :: cs' =>
      let '(m1, ok) := invite_step m c in
      let '(m2, oks) := invite_run m1 cs' in (m2, ok :: oks)
  end.

(** A call that spends [id]. *)
Definition spends (id : string) (c : invite_call) : bool :=
  match c with CallConsume id' _ _ => id' == id | _ => false end.

(** A call that puts [id] back on the market: a release, or the creation of a
    row under the same id. *)
Definition reopens (id : string) (c : invite_call) : bool :=
  match c with
  | CallRelease id' => id' == id
  | CallCreate nid i => (if Invite.ID i == "" then nid else Invite.ID i) == id
  | _ => false
  end.

(** How many calls of a run spent [id]. *)
Fixpoint spent (id : string) (cs : list invite_call) (oks : list bool) : nat :=
  match cs, oks with
  | c :: cs', ok :: oks' => (if spends id c && ok then 1 else 0) + spent id cs' oks'
  | _, _ => 0
  end.

Definition invite_used m (id : string) : bool :=
  match Memory.invites m !! id with
  | Some i => bool_decide (is_Some (Invite.UsedAt i))
  | None => false
  end.

Lemma invite_step_used m c id :
  reopens id c = false →
  invite_used (invite_step m c).1 id = invite_used m id || (spends id c && (invite_step m c).2)
  ∧ (invite_used m id = true → spends id c && (invite_step m c).2 = false).
Proof.
  unfold invite_used. destruct c as [nid i|id' uid now|id' now|id']; simpl; intros Hr.
  - bool_hyps. rewrite lookup_insert_ne by (by destruct (Invite.ID i == "")). by rewrite orb_false_r.
  - unfold ConsumeInvite. destruct (Memory.invites m !! id') as [i|] eqn:E; simpl;
      [|by rewrite !andb_false_r, orb_false_r].
    destruct (Redeemable i now) eqn:Hred; simpl; [|by rewrite !andb_false_r, orb_false_r].
    apply Redeemable_spec in Hred as [Hu _]. rewrite andb_true_r.
    case_bool_decide; simplify_eq/=.
    + rewrite lookup_insert_eq, E, Hu; simpl. done.
    + by rewrite lookup_insert_ne, orb_false_r.
  - rewrite orb_false_r. unfold RevokeInvite.
    destruct (Memory.invites m !! id') as [i|] eqn:E; simpl; [|done].
    destruct (Invite.RevokedAt i); simpl; [done|]. rewrite lookup_insert.
    case_decide; subst; [by rewrite E | done].
  - bool_hyps. rewrite orb_false_r. unfold ReleaseInvite.
    destruct (Memory.invites m !! id') as [i|] eqn:E; simpl; [|done].
    by rewrite lookup_insert_ne.
Qed.

(** The calls that spend [id] are as many as the flag went from unset to set:
    none if it was set before, one at most otherwise. *)
Lemma invite_run_spent cs : ∀ m id,
  Forall (fun c => reopens id c = false) cs →
  (spent id cs (invite_run m cs).2 + (if invite_used m id then 1 else 0) =
   if invite_used (invite_run m cs).1 id then 1 else 0)%nat.
Proof.
  induction cs as [|c cs IH]; intros m id Hf; simpl; [done|].
  apply Forall_cons in Hf as [Hc Hf].
  pose proof (invite_step_used m c id Hc) as [Hu Hn].
  destruct (invite_step m c) as [m1 ok] eqn:E1; simpl in *. specialize (IH m1 id Hf).
  destruct (invite_run m1 cs) as [m2 oks]; simpl in *. rewrite <- IH, Hu.
  destruct (invite_used m id); simpl.
  - rewrite (Hn eq_refl). lia.
  - destruct (spends id c && ok); simpl; lia.
Qed.

(** However redemptions, revocations and creations of other invites
    interleave, an invite is spent at most once, as long as nobody releases it
    and its id is not minted again; once spent it stays spent. *)
Theorem invite_spent_at_most_once m cs id :
  Forall (fun c => reopens id c = false) cs →
  (spent id cs (invite_run m cs).2 ≤ 1)%nat ∧
  (invite_used m id = true → spent id cs (invite_run m cs).2 = 0%nat) ∧
  (spent id cs (invite_run m cs).2 = 1%nat → invite_used (invite_run m cs).1 id = true).
Proof.
  intros Hf. pose proof (invite_run_spent cs m id Hf) as H.
  destruct (invite_used m id), (invite_used _ id); lia || (repeat split; lia || done).
Qed.

(** [ConsumeInvite] answers exactly as the contract says: [ErrNotFound]
    without a row, [ErrInviteSpent] when the row was used, revoked or has
    expired, and otherwise it stamps the user and the time and changes nothing
    else. *)
Theorem ConsumeInvite_spec m id uid now :
  match ConsumeInvite m id uid now with
  | (m', Err ErrNotFound) => Memory.invites m !! id = None ∧ m' = m
  | (m', Err ErrInviteSpent) => m' = m ∧ ∃ i, Memory.invites m !! id = Some i ∧
      (is_Some (Invite.UsedAt i) ∨ is_Some (Invite.RevokedAt i) ∨
       ∃ e, Invite.ExpiresAt i = Some e ∧ e ≤ now)
  | (m', Ok tt) => ∃ i, Memory.invites m !! id = Some i ∧
      Invite.UsedAt i = None ∧ Invite.RevokedAt i = None ∧
      (∀ e, Invite.ExpiresAt i = Some e → now < e) ∧
      m' = m <| Memory.invites :=
             <[id := i <| Invite.UsedAt := Some now |> <| Invite.UsedBy := uid |>]> (Memory.invites m) |>
  | (_, Err _) => False
  end.
Proof.
  unfold ConsumeInvite. destruct (Memory.invites m !! id) as [i|] eqn:E; [|done].
  destruct (Redeemable i now) eqn:R; simpl.
  - apply Redeemable_spec in R as (?&?&?). exists i. done.
  - split; [done|]. exists i. split; [done|]. revert R. unfold Redeemable, Status, Before.
    destruct (Invite.UsedAt i) eqn:?, (Invite.RevokedAt i) eqn:?, (Invite.ExpiresAt i) as [e|] eqn:?;
      simpl; eauto; [|done].
    intros R. right; right. exists e. split; [done|].
    destruct (Z.ltb_spec now e); simpl in *; [done|lia].
Qed.
End Invites.

Lemma invite_spent_at_most_once_witness :
  let iv := Invite.zero <| Invite.ID := "i1" |> in
  let cs := [CallCreate "n" (iv <| Invite.ID := "i2" |>); CallConsume "i1" "alice" 5;
             CallRevoke "i1" 6; CallConsume "i1" "bob" 7] in
  let m := (CreateInvite (Memory.NewMemory (None : option unit)) "n" iv).1 in
  Forall (fun c => reopens "i1" c = false) cs ∧
  (spent "i1" cs (invite_run m cs).2 ≤ 1)%nat ∧ (invite_run m cs).2 = [true; true; true; false].
Proof.
  intros iv cs m. assert (H : Forall (fun c => reopens "i1" c = false) cs) by (repeat constructor).
  split; [exact H|]. split; [|vm_compute; reflexivity].
  exact (proj1 (invite_spent_at_most_once m cs "i1" H)).
Defined.
