(* ===== verification/StoreDevices.v ===== *)
(** * Package store: push devices and channel subscriptions

    The device and subscription methods of [Memory] ([store_memory.go], and
    [DeletePushDevicesForMLSDevice] and [DeleteDevice] of
    [store_memory_keypackages.go]). *)

From S2P Require Import Prelude.
From S2P Require Import GoStrings.
From S2P Require Import Domain.
From S2P Require Import StoreState.

Section Devices.
Context {B : Type} {RO : RangeOrder}.
Implicit Types (m : Memory.t B) (d : Device.t).

(** ** Devices *)

(** The test of both loops of [CreateDevice]: the registration carries a push
    address the row holds. *)
Definition same_address d (existing : Device.t) : bool :=
  ((Device.WebPushSub d != "") && (Device.WebPushSub existing == Device.WebPushSub d))
  || ((Device.FCMToken d != "") && (Device.FCMToken existing == Device.FCMToken d)).

(** The first loop: an address leaves the accounts that held it before. *)
Definition evict_address d (devices : gmap string Device.t) : gmap string Device.t :=
  if Device.UserID d != ""
  then range_delete (fun existing =>
         (Device.UserID existing != Device.UserID d) && same_address d existing) devices
  else devices.

(** The row a re-registration leaves. *)
Definition refresh_device d (existing : Device.t) : Device.t :=
  let e := existing <| Device.LastSeenAt := Device.LastSeenAt d |>
                    <| Device.CanRenderPreview := Device.CanRenderPreview d |> in
  let e := if Device.MLSDeviceID d != "" then e <| Device.MLSDeviceID := Device.MLSDeviceID d |> else e in
  let e := if Device.WebPushSub d != "" then e <| Device.WebPushSub := Device.WebPushSub d |> else e in
  let e := if Device.FCMToken d != "" then e <| Device.FCMToken := Device.FCMToken d |> else e in
  if Device.VoIPToken d != "" then e <| Device.VoIPToken := Device.VoIPToken d |> else e.

Definition CreateDevice m (nid : string) d : memory_op B Device.t :=
  let devices := evict_address d (Memory.devices m) in
  match range_find (fun existing =>
          (Device.UserID existing == Device.UserID d) && same_address d existing) devices with
  | Some (id, existing) =>
      let existing := refresh_device d existing in
      (m <| Memory.devices := <[id := existing]> devices |>, Ok existing)
  | None =>
      let d := if Device.ID d == "" then d <| Device.ID := nid |> else d in
      (m <| Memory.devices := <[Device.ID d := d]> devices |>, Ok d)
  end.

Definition DeleteDevice m (deviceID : string) : memory_op B unit :=
  (m <| Memory.devices := delete deviceID (Memory.devices m) |>, Ok tt).

Definition DeletePushDevicesForMLSDevice m (userID mlsDeviceID : string) : memory_op B Z :=
  if mlsDeviceID == "" then (m, Ok 0)
  else
    let p := fun d => (Device.UserID d == userID) && (Device.MLSDeviceID d == mlsDeviceID) in
    (m <| Memory.devices := range_delete p (Memory.devices m) |>,
     Ok (Z.of_nat (length (range_filter p (Memory.devices m))))).

Definition DevicesForUsers m (userIDs : list string) : list Device.t :=
  if bool_decide (userIDs = []) then []
  else range_filter (fun d => bool_decide (Device.UserID d ∈ userIDs)) (Memory.devices m).

(** ** Subscriptions *)

Definition is_subscription (channelID deviceID : string) (s : Subscription.t) : bool :=
  (Subscription.ChannelID s == channelID) && (Subscription.DeviceID s == deviceID).

Definition Subscribe m (nid : string) (s : Subscription.t) : memory_op B Subscription.t :=
  match range_find (is_subscription (Subscription.ChannelID s) (Subscription.DeviceID s))
          (Memory.subscriptions m) with
  | Some (id, existing) =>
      let existing := existing <| Subscription.Status := Subscription.Status s |> in
      (m <| Memory.subscriptions := <[id := existing]> (Memory.subscriptions m) |>, Ok existing)
  | None =>
      let s := if Subscription.ID s == "" then s <| Subscription.ID := nid |> else s in
      (m <| Memory.subscriptions := <[Subscription.ID s := s]> (Memory.subscriptions m) |>, Ok s)
  end.

Definition SubscriptionForDevice m (channelID deviceID : string) : result store_err Subscription.t :=
  match range_find (is_subscription channelID deviceID) (Memory.subscriptions m) with
  | Some (_, s) => Ok s
  | None => Err ErrNotFound
  end.

Definition Unsubscribe m (channelID deviceID : string) : memory_op B unit :=
  match range_find (is_subscription channelID deviceID) (Memory.subscriptions m) with
  | Some (id, _) => (m <| Memory.subscriptions := delete id (Memory.subscriptions m) |>, Ok tt)
  | None => (m, Err ErrNotFound)
  end.

Definition SetSubscriptionStatusForUser m (channelID userID status : string) : memory_op B unit :=
  let deviceSet := Device.ID <$> range_filter (fun d => Device.UserID d == userID) (Memory.devices m) in
  (m <| Memory.subscriptions :=
     range_update (fun s => (Subscription.ChannelID s == channelID)
                            && bool_decide (Subscription.DeviceID s ∈ deviceSet))
       (fun s => s <| Subscription.Status := status |>) (Memory.subscriptions m) |>, Ok tt).

Definition ActiveDevicesForChannel m (channelID : string) : list Device.t :=
  omap (fun s => Memory.devices m !! Subscription.DeviceID s)
    (range_filter (fun s => (Subscription.ChannelID s == channelID)
                            && (Subscription.Status s == SubActive)) (Memory.subscriptions m)).

(** ** Lemmas *)

Lemma refresh_device_ID d e : Device.ID (refresh_device d e) = Device.ID e.
Proof. unfold refresh_device. by repeat case_match. Qed.

Lemma refresh_device_UserID d e : Device.UserID (refresh_device d e) = Device.UserID e.
Proof. unfold refresh_device. by repeat case_match. Qed.

Lemma evict_address_keyed d t : keyed Device.ID t → keyed Device.ID (evict_address d t).
Proof. intros H. unfold evict_address. case_match; auto with keyed. Qed.

#[local] Hint Resolve evict_address_keyed refresh_device_ID : keyed.

Lemma CreateDevice_Keyed m nid d : Keyed m → Keyed (CreateDevice m nid d).1.
Proof.
  intros H. unfold CreateDevice. destruct (range_find _ _) as [[id e]|] eqn:E.
  - apply range_find_Some in E as [E _]. keyed_tac.
  - keyed_tac.
Qed.

Lemma DeleteDevice_Keyed m id : Keyed m → Keyed (DeleteDevice m id).1.
Proof. intros H. unfold DeleteDevice. keyed_tac. Qed.

Lemma DeletePushDevicesForMLSDevice_Keyed m uid mid :
  Keyed m → Keyed (DeletePushDevicesForMLSDevice m uid mid).1.
Proof. intros H. unfold DeletePushDevicesForMLSDevice. case_match; [done|]. keyed_tac. Qed.

Lemma Subscribe_Keyed m nid s : Keyed m → Keyed (Subscribe m nid s).1.
Proof.
  intros H. unfold Subscribe. destruct (range_find _ _) as [[id e]|] eqn:E.
  - apply range_find_Some in E as [E _]. keyed_tac.
  - keyed_tac.
Qed.

Lemma Unsubscribe_Keyed m ch dev : Keyed m → Keyed (Unsubscribe m ch dev).1.
Proof. intros H. unfold Unsubscribe. case_match; [case_match|]; [keyed_tac | done]. Qed.

Lemma SetSubscriptionStatusForUser_Keyed m ch uid st :
  Keyed m → Keyed (SetSubscriptionStatusForUser m ch uid st).1.
Proof. intros H. unfold SetSubscriptionStatusForUser. keyed_tac. Qed.

(** ** One account per push address

    Two rows hold one address when a web subscription or an FCM token of one
    is that of the other. *)

Definition share_address (d e : Device.t) : Prop :=
  (Device.WebPushSub d ≠ "" ∧ Device.WebPushSub d = Device.WebPushSub e) ∨
  (Device.FCMToken d ≠ "" ∧ Device.FCMToken d = Device.FCMToken e).

Definition one_account_per_address (t : gmap string Device.t) : Prop :=
  ∀ k1 k2 d1 d2, t !! k1 = Some d1 → t !! k2 = Some d2 →
  share_address d1 d2 → Device.UserID d1 = Device.UserID d2.

Lemma share_address_sym d e : share_address d e → share_address e d.
Proof. unfold share_address. intros [[??]|[??]]; [left|right]; split; congruence. Qed.

Lemma same_address_true d e : same_address d e = true ↔ share_address d e.
Proof.
  unfold same_address, share_address.
  rewrite orb_true_iff, !andb_true_iff, !negb_true_iff, !bool_decide_eq_true, !bool_decide_eq_false.
  split; (intros [[??]|[??]]; [left|right]; split; congruence).
Qed.

(** After the eviction no row of another account shares an address with [d]. *)
Lemma evict_address_spec d t k e :
  Device.UserID d ≠ "" → evict_address d t !! k = Some e →
  t !! k = Some e ∧ (share_address d e → Device.UserID e = Device.UserID d).
Proof.
  intros Hd. unfold evict_address. rewrite (bool_decide_false _ Hd); simpl.
  rewrite range_delete_Some. intros [Hk Hb]. split; [done|]. intros Hs.
  apply same_address_true in Hs. rewrite Hs, andb_true_r in Hb. by bool_hyps.
Qed.

Lemma refresh_share d e x :
  share_address (refresh_device d e) x → share_address d x ∨ share_address e x.
Proof.
  unfold share_address, refresh_device.
  repeat case_bool_decide; simpl; intros [[??]|[??]]; subst; auto.
Qed.

(** A push address belongs to one account at a time: registering a
    device of a named account keeps the table so, whatever rows it found. *)
Lemma CreateDevice_one_account m nid d :
  Device.UserID d ≠ "" →
  one_account_per_address (Memory.devices m) →
  one_account_per_address (Memory.devices (CreateDevice m nid d).1).
Proof.
  intros Hd Hone. unfold CreateDevice.
  assert (one_account_per_address (evict_address d (Memory.devices m))) as Hev.
  { intros k1 k2 d1 d2 [H1 _]%evict_address_spec [H2 _]%evict_address_spec; eauto. }
  destruct (range_find _ _) as [[id e]|] eqn:E; simpl.
  - apply range_find_Some in E as [Hid He]. apply andb_true_iff in He as [He _].
    apply bool_decide_eq_true in He.
    assert (∀ k x, evict_address d (Memory.devices m) !! k = Some x →
      share_address (refresh_device d e) x → Device.UserID x = Device.UserID d) as Hk.
    { intros k x Hx [Hs|Hs]%refresh_share.
      - apply evict_address_spec in Hx as [_ Hx]; auto.
      - by rewrite <- He, (Hev _ _ _ _ Hid Hx Hs). }
    intros k1 k2 d1 d2. rewrite !lookup_insert.
    repeat case_decide; intros ?? Hs; simplify_eq; rewrite ?refresh_device_UserID, ?He.
    + done.
    + symmetry. eauto.
    + eapply Hk; [done|]. by apply share_address_sym.
    + eauto.
  - set (d' := if Device.ID d == "" then _ else d).
    assert (Device.UserID d' = Device.UserID d ∧ ∀ x, share_address d' x → share_address d x) as [Hu Hs'].
    { unfold d'. by case_bool_decide. }
    intros k1 k2 d1 d2. rewrite !lookup_insert.
    repeat case_decide; intros H1 H2 Hs; simplify_eq.
    + done.
    + apply evict_address_spec in H2 as [_ H2]; [|done]. rewrite H2; auto.
    + apply evict_address_spec in H1 as [_ H1]; [|done].
      rewrite H1; [by rewrite Hu|]. by apply Hs', share_address_sym.
    + eauto.
Qed.

(** ** One subscription per device and channel *)

Definition one_subscription (t : gmap string Subscription.t) : Prop :=
  ∀ k1 k2 s1 s2, t !! k1 = Some s1 → t !! k2 = Some s2 →
  Subscription.ChannelID s1 = Subscription.ChannelID s2 →
  Subscription.DeviceID s1 = Subscription.DeviceID s2 → k1 = k2.

Lemma one_account_subset (t t' : gmap string Device.t) :
  t' ⊆ t → one_account_per_address t → one_account_per_address t'.
Proof. intros Hs H k1 k2 d1 d2 H1 H2. eapply H; eapply lookup_weaken; eauto. Qed.

Lemma one_subscription_subset (t t' : gmap string Subscription.t) :
  t' ⊆ t → one_subscription t → one_subscription t'.
Proof. intros Hs H k1 k2 d1 d2 H1 H2. eapply H; eapply lookup_weaken; eauto. Qed.

Lemma SetSubscriptionStatus_one m ch uid st :
  one_subscription (Memory.subscriptions m) →
  one_subscription (Memory.subscriptions (SetSubscriptionStatusForUser m ch uid st).1).
Proof.
  intros H k1 k2 s1 s2. unfold SetSubscriptionStatusForUser. cbn. rewrite !lookup_range_update.
  intros (x1 & H1 & ->)%fmap_Some (x2 & H2 & ->)%fmap_Some.
  repeat case_match; cbn; by apply (H k1 k2 x1 x2).
Qed.

Lemma is_subscription_true ch dev s :
  is_subscription ch dev s = true ↔ Subscription.ChannelID s = ch ∧ Subscription.DeviceID s = dev.
Proof. unfold is_subscription. by rewrite andb_true_iff, !bool_decide_eq_true. Qed.

(** [Subscribe] is an upsert: the table keeps one row per channel and
    device, and the row of the pair afterwards carries the status asked for,
    whichever entry the loop met first. *)
Lemma Subscribe_upsert m nid s :
  Keyed m → one_subscription (Memory.subscriptions m) →
  let '(m', r) := Subscribe m nid s in
  one_subscription (Memory.subscriptions m') ∧
  ∃ s', r = Ok s' ∧ Subscription.Status s' = Subscription.Status s ∧
    SubscriptionForDevice m' (Subscription.ChannelID s) (Subscription.DeviceID s) = Ok s'.
Proof.
  intros HK Hone. unfold Subscribe, SubscriptionForDevice.
  destruct (range_find _ _) as [[id e]|] eqn:E; simpl.
  - apply range_find_Some in E as [Hid He]. apply is_subscription_true in He as [Hc Hdv].
    set (e' := e <| Subscription.Status := Subscription.Status s |>).
    assert (one_subscription (<[id := e']> (Memory.subscriptions m))) as Hone'.
    { intros k1 k2 s1 s2. rewrite !lookup_insert. repeat case_decide; intros; simplify_eq; eauto. }
    split; [done|]. exists e'. split_and!; [done|done|].
    rewrite (range_find_unique _ _ id e'); [done | by rewrite lookup_insert_eq | |].
    + apply is_subscription_true. done.
    + intros k x Hk Hx. apply is_subscription_true in Hx as [Hx1 Hx2].
      eapply Hone'; [done | apply lookup_insert_eq | simpl; congruence | simpl; congruence].
  - rewrite range_find_None in E.
    set (s' := if Subscription.ID s == "" then _ else s).
    assert (Subscription.ChannelID s' = Subscription.ChannelID s ∧
            Subscription.DeviceID s' = Subscription.DeviceID s ∧
            Subscription.Status s' = Subscription.Status s) as (Hc & Hdv & Hst).
    { unfold s'. by case_bool_decide. }
    assert (∀ k x, Memory.subscriptions m !! k = Some x →
      Subscription.ChannelID x = Subscription.ChannelID s →
      Subscription.DeviceID x = Subscription.DeviceID s → False) as Hno.
    { intros k x Hk H1 H2. specialize (E k x Hk). apply not_true_iff_false in E. apply E.
      by apply is_subscription_true. }
    assert (one_subscription (<[Subscription.ID s' := s']> (Memory.subscriptions m))) as Hone'.
    { intros k1 k2 s1 s2. rewrite !lookup_insert. repeat case_decide; intros; simplify_eq.
      - done.
      - exfalso. eapply Hno; [done|congruence|congruence].
      - exfalso. eapply Hno; [done|congruence|congruence].
      - eauto. }
    split; [done|]. exists s'. split_and!; [done|done|].
    rewrite (range_find_unique _ _ (Subscription.ID s') s'); [done | by rewrite lookup_insert_eq | |].
    + apply is_subscription_true. done.
    + intros k x Hk Hx. apply is_subscription_true in Hx as [Hx1 Hx2].
      eapply Hone'; [done | apply lookup_insert_eq | congruence | congruence].
Qed.
End Devices.
