(* ===== verification/StoreMessages.v ===== *)
(** * Package store: channel messages, deliveries, comments, statistics

    The message, delivery and comment methods of [Memory] ([store_memory.go]),
    the feeds' cursor pagination among them. *)

From S2P Require Import Prelude.
From S2P Require Import GoStrings.
From S2P Require Import Domain.
From S2P Require Import Blob.
From S2P Require Import StoreState.
From S2P Require Import StoreUsers.

(** The tail of every feed: what follows the cursor, cut to the limit. *)
Definition feed_page {A} (id : A → string) (cursor : string) (limit : Z) (out : list A) : list A :=
  truncate limit (if cursor != "" then after_cursor id cursor out else out).

Section Messages.
Context {B : Type} {BS : BlobStore B} {RO : RangeOrder} {U : Unicode}.
Implicit Types (m : Memory.t B) (msg : Message.t) (c : Comment.t).

(** ** Messages *)

Definition CreateMessage m (nid : string) msg : memory_op B Message.t :=
  let msg := if Message.ID msg == "" then msg <| Message.ID := nid |> else msg in
  (m <| Memory.messages := <[Message.ID msg := msg]> (Memory.messages m) |>, Ok msg).

Definition MessageByID m (id : string) : result store_err Message.t :=
  match Memory.messages m !! id with Some msg => Ok msg | None => Err ErrNotFound end.

Definition MessagesByChannel m (channelID cursor query : string) (limit : Z) : list Message.t :=
  let q := ToLower (TrimSpace query) in
  let out := range_filter (fun msg =>
    (Message.ChannelID msg == channelID)
    && negb ((q != "") && negb (Contains (ToLower (Message.Title msg)) q)
             && negb (Contains (ToLower (Message.Body msg)) q))) (Memory.messages m) in
  feed_page Message.ID cursor limit (sort_slice (newest Message.CreatedAt) out).

(** [limit / 2] of Go truncates; [limit] is positive there. *)
Definition MessagesAround m (channelID messageID : string) (limit : Z)
  : option (result store_err (list Message.t)) :=
  let all := sort_slice (newest Message.CreatedAt)
    (range_filter (fun msg => Message.ChannelID msg == channelID) (Memory.messages m)) in
  match list_find (fun msg => Message.ID msg = messageID) all with
  | None => Some (Err ErrNotFound)
  | Some (centre, _) =>
      let centre := Z.of_nat centre in
      let limit := if limit <=? 0 then 50 else limit in
      let half := limit / 2 in
      let start := Z.max 0 (centre - half) in
      let end_ := Z.min (Z.of_nat (length all)) (wrap64 (centre + half + 1)) in
      Ok <$> go_slice all start end_
  end.

Definition LastMessagesByChannels m (channelIDs : list string) : gmap string Message.t :=
  if bool_decide (channelIDs = []) then ∅
  else range_fold (fun out msg =>
    if negb (bool_decide (Message.ChannelID msg ∈ channelIDs)) then out
    else match out !! Message.ChannelID msg with
         | Some cur =>
             if negb (After (Message.CreatedAt msg) (Message.CreatedAt cur)) then out
             else <[Message.ChannelID msg := msg]> out
         | None => <[Message.ChannelID msg := msg]> out
         end) ∅ (Memory.messages m).

Definition CreateDelivery m (nid : string) (now : time) (d : Delivery.t) : memory_op B Delivery.t :=
  let d := if Delivery.ID d == "" then d <| Delivery.ID := nid |> else d in
  let d := if IsZero (Delivery.SentAt d) then d <| Delivery.SentAt := now |> else d in
  (m <| Memory.deliveries := <[Delivery.ID d := d]> (Memory.deliveries m) |>, Ok d).

Definition DeleteMessage m (id : string) : memory_op B unit :=
  match Memory.messages m !! id with
  | None => (m, Err ErrNotFound)
  | Some msg =>
      let imageIDs := MessageImage.ID <$> Message.Images msg in
      let m := m
        <| Memory.messages := delete id (Memory.messages m) |>
        <| Memory.comments := range_delete (fun c => Comment.MessageID c == id) (Memory.comments m) |>
        <| Memory.deliveries :=
             range_delete (fun d => Delivery.MessageID d == id) (Memory.deliveries m) |> in
      (m <| Memory.blobs := deleteBlobs (Memory.blobs m) imageIDs |>, Ok tt)
  end.

(** ** Comments *)

Definition CreateComment m (nid : string) (now : time) c : memory_op B Comment.t :=
  let c := if Comment.ID c == "" then c <| Comment.ID := nid |> else c in
  let c := if IsZero (Comment.CreatedAt c) then c <| Comment.CreatedAt := now |> else c in
  (m <| Memory.comments := <[Comment.ID c := c]> (Memory.comments m) |>, Ok c).

Definition CommentByID m (id : string) : result store_err Comment.t :=
  match Memory.comments m !! id with Some c => Ok c | None => Err ErrNotFound end.

Definition CommentsByMessage m (messageID cursor : string) (limit : Z) : list Comment.t :=
  let out := range_filter (fun c => Comment.MessageID c == messageID) (Memory.comments m) in
  feed_page Comment.ID cursor limit (sort_slice (newest Comment.CreatedAt) out).

(** [counts[key]++] on a Go map: an absent key counts from zero. *)
Definition bump (key : string) (counts : gmap string Z) : gmap string Z :=
  <[key := wrap64 (default 0 (counts !! key) + 1)]> counts.

Definition CommentCountsByMessages m (messageIDs : list string) : gmap string Z :=
  if bool_decide (messageIDs = []) then ∅
  else range_fold (fun out c =>
    if bool_decide (Comment.MessageID c ∈ messageIDs) then bump (Comment.MessageID c) out else out)
    ∅ (Memory.comments m).

Definition DeleteComment m (id : string) : memory_op B unit :=
  match Memory.comments m !! id with
  | None => (m, Err ErrNotFound)
  | Some _ => (m <| Memory.comments := delete id (Memory.comments m) |>, Ok tt)
  end.

Definition AdminListComments m (query : string) (offset limit : Z) : option (list Comment.t) * Z :=
  let q := ToLower (TrimSpace query) in
  let all := range_filter (fun c => (q == "") || Contains (ToLower (Comment.Body c)) q)
               (Memory.comments m) in
  let all := sort_slice (newest Comment.CreatedAt) all in
  (paginate all offset limit, Z.of_nat (length all)).

(** ** Statistics *)

Definition AdminStats_ m (topN recentN : Z) : AdminStats.t :=
  let counts := range_fold (fun cs msg => bump (Message.ChannelID msg) cs) ∅ (Memory.messages m) in
  let top := (fun kn =>
      let name := match Memory.channels m !! kn.1 with
                  | Some ch => Channel.Name ch | None => kn.1 end in
      ChannelVolume.mk kn.1 name kn.2) <$> go_range counts in
  let top := truncate topN
    (sort_slice (fun x y => ChannelVolume.Count y <? ChannelVolume.Count x) top) in
  let all := truncate recentN
    (sort_slice (newest Message.CreatedAt) (range_filter (fun _ => true) (Memory.messages m))) in
  let count {A} (t : gmap string A) := Z.of_nat (size t) in
  AdminStats.mk (count (Memory.users m)) (count (Memory.channels m)) (count (Memory.messages m))
    (count (Memory.deliveries m)) (count (Memory.devices m)) top all.

(** ** Lemmas *)

Lemma CreateMessage_Keyed m nid msg : Keyed m → Keyed (CreateMessage m nid msg).1.
Proof. intros H. unfold CreateMessage. keyed_tac. Qed.

Lemma CreateDelivery_Keyed m nid now d : Keyed m → Keyed (CreateDelivery m nid now d).1.
Proof. intros H. unfold CreateDelivery. keyed_tac. Qed.

Lemma CreateComment_Keyed m nid now c : Keyed m → Keyed (CreateComment m nid now c).1.
Proof. intros H. unfold CreateComment. keyed_tac. Qed.

Lemma DeleteMessage_Keyed m id : Keyed m → Keyed (DeleteMessage m id).1.
Proof. intros H. unfold DeleteMessage. case_match; [|done]. keyed_tac. Qed.

Lemma DeleteComment_Keyed m id : Keyed m → Keyed (DeleteComment m id).1.
Proof. intros H. unfold DeleteComment. case_match; [|done]. keyed_tac. Qed.
End Messages.

(** ** Pagination

    Walking a feed page by page: ask for a page, use its last id as the next
    cursor, stop at an empty page. [fuel] bounds the number of pages. *)

Section Pages.
Context {A : Type} (id : A → string).
Implicit Types (l : list A).

Fixpoint walk (fuel : nat) (cursor : string) (limit : Z) (l : list A) : list A :=
  match fuel with
  | O => []
  | S fuel =>
      let page := feed_page id cursor limit l in
      match last page with
      | None => []
      | Some x => page ++ walk fuel (id x) limit l
      end
  end.

Lemma after_cursor_app l1 x l2 :
  NoDup (id <$> (l1 ++ x :: l2)) → after_cursor id (id x) (l1 ++ x :: l2) = l2.
Proof.
  induction l1 as [|y l1 IH]; simpl; intros Hnd.
  - by rewrite bool_decide_true.
  - apply NoDup_cons in Hnd as [Hy Hnd]. rewrite bool_decide_false; [auto|].
    intros Heq. apply Hy. rewrite Heq, fmap_app. simpl. apply elem_of_app. right. by left.
Qed.

Lemma truncate_nil (limit : Z) : truncate limit [] = ([] : list A).
Proof. unfold truncate. case_match; [by rewrite take_nil | done]. Qed.

Lemma truncate_cons_nonempty (limit : Z) x l : truncate limit (x :: l) ≠ [].
Proof.
  unfold truncate. destruct (Z.ltb_spec 0 limit); simpl; [|done].
  case_match; [|done]. destruct (Z.to_nat limit) eqn:E; [lia|done].
Qed.

Lemma walk_rest fuel (limit : Z) pre x rest :
  NoDup (id <$> (pre ++ x :: rest)) → id x ≠ "" → Forall (fun y => id y ≠ "") rest →
  (length rest < fuel)%nat → walk fuel (id x) limit (pre ++ x :: rest) = rest.
Proof.
  revert pre x rest. induction fuel as [|fuel IH]; intros pre x rest Hnd Hx Hr Hlen; [lia|].
  simpl. unfold feed_page. rewrite bool_decide_false by done; simpl.
  rewrite after_cursor_app by done.
  destruct (truncate_prefix limit rest) as [suf Hsuf].
  destruct rest as [|r rest]; [by rewrite truncate_nil|].
  pose proof (truncate_cons_nonempty limit r rest) as Hne.
  destruct (last (truncate limit (r :: rest))) as [z|] eqn:Hl;
    [|by apply last_None in Hl].
  apply last_Some in Hl as [pg Hpg]. rewrite Hpg in Hsuf |- *.
  rewrite Hsuf in Hnd, Hr, Hlen |- *.
  rewrite length_app, length_app in Hlen. simpl in Hlen.
  replace (pre ++ x :: (pg ++ [z]) ++ suf) with ((pre ++ x :: pg) ++ z :: suf) in Hnd |- *
    by (by rewrite <- !app_assoc).
  apply Forall_app in Hr as [Hr1 Hr2]. apply Forall_app in Hr1 as [_ Hz].
  rewrite IH; [done | done | by apply Forall_cons in Hz as [? _] | done | lia].
Qed.
End Pages.

(** Walking a feed by its cursor visits every message of the feed exactly
    once and in order, for any page size, when the ids are distinct and
    non-empty; one page more than there are messages is enough. *)
Lemma feed_walk_enough {A} (id : A → string) (limit : Z) (l : list A) (fuel : nat) :
  NoDup (id <$> l) → Forall (fun y => id y ≠ "") l → (length l ≤ fuel)%nat →
  walk id (S fuel) "" limit l = l.
Proof.
  intros Hnd Hne Hfuel. unfold walk; fold (@walk A id). unfold feed_page.
  rewrite bool_decide_true by done; simpl.
  destruct l as [|r l]; [by rewrite truncate_nil|].
  pose proof (truncate_cons_nonempty limit r l) as Hne'.
  destruct (last (truncate limit (r :: l))) as [z|] eqn:Hl; [|by apply last_None in Hl].
  apply last_Some in Hl as [pg Hpg]. destruct (truncate_prefix limit (r :: l)) as [suf Hsuf].
  rewrite Hpg in Hsuf |- *. rewrite Hsuf in Hnd, Hne, Hfuel |- *.
  assert ((pg ++ [z]) ++ suf = pg ++ z :: suf) as Happ by (by rewrite <- app_assoc).
  rewrite Happ in Hnd, Hne |- *.
  apply Forall_app in Hne as [_ Hne]. apply Forall_cons in Hne as [Hz Hsf].
  rewrite walk_rest; try done. rewrite !length_app in Hfuel; simpl in Hfuel. lia.
Qed.
