(* ===== verification/StoreConversations.v ===== *)
(** * Package store: conversations, their members, the message log

    The methods of [store_memory_conversations.go]: membership, the ordered
    message log with its per-conversation sequence, receipts, attachments. *)

From S2P Require Import Prelude.
From S2P Require Import GoStrings.
From S2P Require Import Domain.
From S2P Require Import StoreState.
From S2P Require Import StoreMessages.

(** [withReceiptFloor] of [store.go]. *)
Definition withReceiptFloor (mem : ConversationMember.t) : ConversationMember.t :=
  let mem := if ConversationMember.DeliveredSeq mem <? ConversationMember.JoinSeq mem
             then mem <| ConversationMember.DeliveredSeq := ConversationMember.JoinSeq mem |> else mem in
  if ConversationMember.ReadSeq mem <? ConversationMember.JoinSeq mem
  then mem <| ConversationMember.ReadSeq := ConversationMember.JoinSeq mem |> else mem.

Definition is_conv_member (conversationID userID : string) (mem : ConversationMember.t) : bool :=
  (ConversationMember.ConversationID mem == conversationID)
  && (ConversationMember.UserID mem == userID).

Section Conversations.
Context {B : Type} {RO : RangeOrder}.
Implicit Types (m : Memory.t B) (c : Conversation.t) (mem : ConversationMember.t)
  (msg : ChatMessage.t).

(** ** Conversations *)

(** The loop over the founding members; the i-th [newID] of the call draws
    [fresh i]. *)
Fixpoint insert_members (cid : string) (fresh : nat → string) (i : nat)
  (members : list ConversationMember.t) (t : gmap string ConversationMember.t)
  : gmap string ConversationMember.t :=
  match members with
  | [] => t
  | mem :: rest =>
      let mem := mem <| ConversationMember.ID := or_fresh (ConversationMember.ID mem) (fresh i) |> in
      let mem := mem <| ConversationMember.ConversationID := cid |> in
      insert_members cid fresh (S i) rest
        (<[ConversationMember.ID mem := withReceiptFloor mem]> t)
  end.

Definition CreateConversation m (fresh : nat → string) c (members : list ConversationMember.t)
  : memory_op B Conversation.t :=
  let c := c <| Conversation.ID := or_fresh (Conversation.ID c) (fresh 0%nat) |> in
  (m <| Memory.conversations := <[Conversation.ID c := c]> (Memory.conversations m) |>
     <| Memory.convMembers :=
          insert_members (Conversation.ID c) fresh 1 members (Memory.convMembers m) |>, Ok c).

Definition ConversationByID m (id : string) : result store_err Conversation.t :=
  match Memory.conversations m !! id with Some c => Ok c | None => Err ErrNotFound end.

Definition ConversationByDirectKey m (directKey : string) : result store_err Conversation.t :=
  if directKey == "" then Err ErrNotFound
  else match range_find (fun c => Conversation.DirectKey c == directKey) (Memory.conversations m) with
       | Some (_, c) => Ok c
       | None => Err ErrNotFound
       end.

(** A Go map with struct values, used as a set. *)
Definition my_conversations m (userID : string) : gmap string unit :=
  range_fold (fun mine mem =>
    if ConversationMember.UserID mem == userID
    then <[ConversationMember.ConversationID mem := tt]> mine else mine) ∅ (Memory.convMembers m).

Definition last_activity m (mine : gmap string unit) : gmap string Z :=
  range_fold (fun lastAt msg =>
    match mine !! ChatMessage.ConversationID msg with
    | None => lastAt
    | Some _ =>
        let t := UnixNano (ChatMessage.CreatedAt msg) in
        if default 0 (lastAt !! ChatMessage.ConversationID msg) <? t
        then <[ChatMessage.ConversationID msg := t]> lastAt else lastAt
    end) ∅ (Memory.chatMessages m).

(** A lookup of an id without a row gives the zero conversation. *)
Definition ConversationsForUser m (userID : string) : list Conversation.t :=
  let mine := my_conversations m userID in
  let lastAt := last_activity m mine in
  let out := (fun ku => default Conversation.zero (Memory.conversations m !! ku.1)) <$> go_range mine in
  let rank c :=
    let a := default 0 (lastAt !! Conversation.ID c) in
    if a =? 0 then UnixNano (Conversation.CreatedAt c) else a in
  sort_slice (fun x y => rank y <? rank x) out.

Definition DeleteConversation m (conversationID : string) : memory_op B unit :=
  (m <| Memory.conversations := delete conversationID (Memory.conversations m) |>
     <| Memory.convMembers :=
          range_delete (fun mem => ConversationMember.ConversationID mem == conversationID)
            (Memory.convMembers m) |>
     <| Memory.chatMessages :=
          range_delete (fun msg => ChatMessage.ConversationID msg == conversationID)
            (Memory.chatMessages m) |>, Ok tt).

(** ** Members *)

Definition ConversationMembers m (conversationID : string) : list ConversationMember.t :=
  sort_slice (oldest ConversationMember.JoinedAt)
    (range_filter (fun mem => ConversationMember.ConversationID mem == conversationID)
       (Memory.convMembers m)).

Definition ConversationMembership m (conversationID userID : string)
  : result store_err ConversationMember.t :=
  match range_find (is_conv_member conversationID userID) (Memory.convMembers m) with
  | Some (_, mem) => Ok mem
  | None => Err ErrNotFound
  end.

Definition maxMessageSeqLocked m (conversationID : string) : Z :=
  range_fold (fun mx msg =>
    if (ChatMessage.ConversationID msg == conversationID) && (mx <? ChatMessage.Seq msg)
    then ChatMessage.Seq msg else mx) 0 (Memory.chatMessages m).

Definition AddConversationMember m (nid : string) mem : memory_op B ConversationMember.t :=
  match range_find (is_conv_member (ConversationMember.ConversationID mem)
                      (ConversationMember.UserID mem)) (Memory.convMembers m) with
  | Some (_, existing) => (m, Ok existing)
  | None =>
      let mem := mem <| ConversationMember.ID := or_fresh (ConversationMember.ID mem) nid |> in
      let mem := if ConversationMember.JoinSeq mem =? 0
                 then mem <| ConversationMember.JoinSeq :=
                               maxMessageSeqLocked m (ConversationMember.ConversationID mem) |>
                 else mem in
      let mem := withReceiptFloor mem in
      (m <| Memory.convMembers := <[ConversationMember.ID mem := mem]> (Memory.convMembers m) |>, Ok mem)
  end.

(** The loop of the methods that change the first matching row and return. *)
Definition on_conv_member {A} m (conversationID userID : string)
  (f : string → ConversationMember.t → gmap string ConversationMember.t * A) : memory_op B A :=
  match range_find (is_conv_member conversationID userID) (Memory.convMembers m) with
  | Some (id, mem) => let '(t, a) := f id mem in (m <| Memory.convMembers := t |>, Ok a)
  | None => (m, Err ErrNotFound)
  end.

Definition RemoveConversationMember m (conversationID userID : string) : memory_op B unit :=
  on_conv_member m conversationID userID (fun id _ => (delete id (Memory.convMembers m), tt)).

Definition SetConversationMemberRole m (conversationID userID role : string) : memory_op B unit :=
  on_conv_member m conversationID userID (fun id mem =>
    (<[id := mem <| ConversationMember.Role := role |>]> (Memory.convMembers m), tt)).

Definition ClearConversationHistory m (conversationID userID : string) (before : time)
  : memory_op B unit :=
  on_conv_member m conversationID userID (fun id mem =>
    (<[id := mem <| ConversationMember.ClearedAt := before |>]> (Memory.convMembers m), tt)).

(** Forward only. *)
Definition advance_receipt mem (deliveredSeq readSeq : Z) : ConversationMember.t :=
  let mem := if ConversationMember.DeliveredSeq mem <? deliveredSeq
             then mem <| ConversationMember.DeliveredSeq := deliveredSeq |> else mem in
  if ConversationMember.ReadSeq mem <? readSeq
  then mem <| ConversationMember.ReadSeq := readSeq |> else mem.

Definition SetConversationReceipt m (conversationID userID : string) (deliveredSeq readSeq : Z)
  : memory_op B ConversationReceipt.t :=
  on_conv_member m conversationID userID (fun id mem =>
    let mem := advance_receipt mem deliveredSeq readSeq in
    (<[id := mem]> (Memory.convMembers m),
     ConversationReceipt.mk userID (ConversationMember.DeliveredSeq mem) (ConversationMember.ReadSeq mem))).

(** ** The message log *)

Definition appendChatMessageLocked m (nid : string) msg : Memory.t B * ChatMessage.t :=
  let msg := msg <| ChatMessage.ID := or_fresh (ChatMessage.ID msg) nid |> in
  let msg := if ChatMessage.Seq msg =? 0
             then msg <| ChatMessage.Seq :=
                           wrap64 (maxMessageSeqLocked m (ChatMessage.ConversationID msg) + 1) |>
             else msg in
  (m <| Memory.chatMessages := <[ChatMessage.ID msg := msg]> (Memory.chatMessages m) |>, msg).

Definition AppendChatMessage m (nid : string) msg : memory_op B ChatMessage.t :=
  let '(m, msg) := appendChatMessageLocked m nid msg in (m, Ok msg).

(** The order of the transcript: newest first, the sequence breaking ties. *)
Definition transcript_less (x y : ChatMessage.t) : bool :=
  if negb (ChatMessage.CreatedAt x =? ChatMessage.CreatedAt y)
  then After (ChatMessage.CreatedAt x) (ChatMessage.CreatedAt y)
  else ChatMessage.Seq y <? ChatMessage.Seq x.

(** What a member may see of a conversation: its transcript, past the
    clear-history watermark. *)
Definition in_transcript (conversationID : string) (after : time) msg : bool :=
  (ChatMessage.ConversationID msg == conversationID)
  && negb (IsMLSProtocol (ChatMessage.ContentType msg))
  && negb (negb (IsZero after) && negb (After (ChatMessage.CreatedAt msg) after)).

Definition ChatMessagesByConversation m (conversationID cursor : string) (limit : Z) (after : time)
  : list ChatMessage.t :=
  feed_page ChatMessage.ID cursor limit
    (sort_slice transcript_less
       (range_filter (in_transcript conversationID after) (Memory.chatMessages m))).

Definition LastChatMessagesByConversations m (conversationIDs : list string)
  : gmap string ChatMessage.t :=
  if bool_decide (conversationIDs = []) then ∅
  else range_fold (fun out msg =>
    if negb (bool_decide (ChatMessage.ConversationID msg ∈ conversationIDs)) then out
    else if IsMLSProtocol (ChatMessage.ContentType msg) then out
    else match out !! ChatMessage.ConversationID msg with
         | Some cur =>
             if negb (After (ChatMessage.CreatedAt msg) (ChatMessage.CreatedAt cur)) then out
             else <[ChatMessage.ConversationID msg := msg]> out
         | None => <[ChatMessage.ConversationID msg := msg]> out
         end) ∅ (Memory.chatMessages m).

(** ** Attachments *)

Definition CreateAttachment m (now : time) (a : Attachment.t) : memory_op B unit :=
  let a := if IsZero (Attachment.CreatedAt a) then a <| Attachment.CreatedAt := now |> else a in
  (m <| Memory.attachments := <[Attachment.ID a := a]> (Memory.attachments m) |>, Ok tt).

Definition GetAttachment m (id : string) : result store_err Attachment.t :=
  match Memory.attachments m !! id with Some a => Ok a | None => Err ErrNotFound end.

Definition ListAttachmentIDs m (conversationID : string) : list string :=
  (filter (fun ka => Is_true (Attachment.ConversationID ka.2 == conversationID))
     (go_range (Memory.attachments m))).*1.

Definition DeleteAttachments m (conversationID : string) : memory_op B unit :=
  (m <| Memory.attachments :=
     range_delete (fun a => Attachment.ConversationID a == conversationID) (Memory.attachments m) |>, Ok tt).

(** ** Lemmas: tables *)

Lemma withReceiptFloor_ID mem :
  ConversationMember.ID (withReceiptFloor mem) = ConversationMember.ID mem.
Proof. unfold withReceiptFloor. by repeat case_match. Qed.

Lemma withReceiptFloor_floor mem :
  ConversationMember.JoinSeq mem ≤ ConversationMember.DeliveredSeq (withReceiptFloor mem) ∧
  ConversationMember.JoinSeq mem ≤ ConversationMember.ReadSeq (withReceiptFloor mem).
Proof.
  destruct mem. unfold withReceiptFloor. simpl.
  destruct (Z.ltb_spec DeliveredSeq JoinSeq); simpl; destruct (Z.ltb_spec ReadSeq JoinSeq); simpl; lia.
Qed.

Lemma insert_members_keyed cid fresh i members t :
  keyed ConversationMember.ID t →
  keyed ConversationMember.ID (insert_members cid fresh i members t).
Proof.
  revert i t. induction members as [|mem rest IH]; intros i t Ht; simpl; [done|]. apply IH.
  apply keyed_insert_at; [done|]. by rewrite withReceiptFloor_ID.
Qed.

Lemma advance_receipt_ID mem d r :
  ConversationMember.ID (advance_receipt mem d r) = ConversationMember.ID mem.
Proof. unfold advance_receipt. by repeat case_match. Qed.

#[local] Hint Resolve insert_members_keyed advance_receipt_ID : keyed.

Lemma CreateConversation_Keyed m fresh c members :
  Keyed m → Keyed (CreateConversation m fresh c members).1.
Proof.
  intros H. unfold CreateConversation. destruct H; split; simpl; eauto with keyed.
Qed.

Lemma DeleteConversation_Keyed m cid : Keyed m → Keyed (DeleteConversation m cid).1.
Proof. intros H. unfold DeleteConversation. keyed_tac. Qed.

Lemma AddConversationMember_Keyed m nid mem : Keyed m → Keyed (AddConversationMember m nid mem).1.
Proof. intros H. unfold AddConversationMember. case_match; [by case_match|]. keyed_tac. Qed.

Lemma on_conv_member_Keyed m cid uid d r role before :
  Keyed m →
  Keyed (RemoveConversationMember m cid uid).1 ∧ Keyed (SetConversationMemberRole m cid uid role).1 ∧
  Keyed (ClearConversationHistory m cid uid before).1 ∧ Keyed (SetConversationReceipt m cid uid d r).1.
Proof.
  intros H. unfold RemoveConversationMember, SetConversationMemberRole, ClearConversationHistory,
    SetConversationReceipt, on_conv_member.
  destruct (range_find _ _) as [[id mem]|] eqn:E; [|done].
  apply range_find_Some in E as [E _]. repeat split_and; keyed_tac.
Qed.

Lemma append_ID m nid msg m' msg' :
  appendChatMessageLocked m nid msg = (m', msg') →
  m' = m <| Memory.chatMessages := <[ChatMessage.ID msg' := msg']> (Memory.chatMessages m) |>.
Proof. unfold appendChatMessageLocked. by intros [= <- <-]. Qed.

Lemma append_Keyed m nid msg : Keyed m → Keyed (appendChatMessageLocked m nid msg).1.
Proof. intros H. unfold appendChatMessageLocked. keyed_tac. Qed.

Lemma AppendChatMessage_Keyed m nid msg : Keyed m → Keyed (AppendChatMessage m nid msg).1.
Proof.
  intros H. unfold AppendChatMessage. pose proof (append_Keyed m nid msg H).
  by destruct (appendChatMessageLocked m nid msg).
Qed.

Lemma attachments_Keyed m now a cid :
  Keyed m → Keyed (CreateAttachment m now a).1 ∧ Keyed (DeleteAttachments m cid).1.
Proof. intros H. unfold CreateAttachment, DeleteAttachments. split; keyed_tac. Qed.

(** ** Lemmas: the sequence *)

Definition in_conversation (cid : string) msg : bool := ChatMessage.ConversationID msg == cid.

(** The fold of [maxMessageSeqLocked], over a list. *)
Definition seq_step (cid : string) (mx : Z) msg : Z :=
  if (ChatMessage.ConversationID msg == cid) && (mx <? ChatMessage.Seq msg)
  then ChatMessage.Seq msg else mx.
Definition seq_max (cid : string) (l : list ChatMessage.t) (z : Z) : Z := foldl (seq_step cid) z l.

Lemma seq_max_spec cid l z :
  z ≤ seq_max cid l z ∧
  (∀ msg, msg ∈ l → ChatMessage.ConversationID msg = cid → ChatMessage.Seq msg ≤ seq_max cid l z) ∧
  (seq_max cid l z = z ∨
   ∃ msg, msg ∈ l ∧ ChatMessage.ConversationID msg = cid ∧ ChatMessage.Seq msg = seq_max cid l z).
Proof.
  revert z. induction l as [|x l IH]; intros z.
  { split_and!; [done | by intros ? ?%not_elem_of_nil | by left]. }
  change (seq_max cid (x :: l) z) with (seq_max cid l (seq_step cid z x)).
  set (z' := seq_step cid z x).
  destruct (IH z') as (Hge & Hub & Hat).
  assert (z ≤ z' ∧ (ChatMessage.ConversationID x = cid → ChatMessage.Seq x ≤ z') ∧
          (z' = z ∨ ChatMessage.ConversationID x = cid ∧ ChatMessage.Seq x = z')) as (Hz & Hx & Hc).
  { subst z'. unfold seq_step. case_bool_decide as Hcid; simpl; [|by split_and!; [lia| |left]].
    destruct (Z.ltb_spec z (ChatMessage.Seq x)); split_and!; auto; lia. }
  split_and!; [lia | |].
  - intros msg [->|Hin]%elem_of_cons Hm; [specialize (Hx Hm); lia | eauto].
  - destruct Hat as [Hat | (msg & Hin & Hm & Hs)].
    + destruct Hc as [-> | [Hm Hs]]; [by left|]. right. exists x. rewrite Hat.
      split_and!; [by left | done | done].
    + right. exists msg. split_and!; [by right | done | done].
Qed.

Lemma maxMessageSeq_nonneg m cid : 0 ≤ maxMessageSeqLocked m cid.
Proof. apply (seq_max_spec cid (go_range (Memory.chatMessages m)).*2 0). Qed.

Lemma maxMessageSeq_ub m cid k msg :
  Memory.chatMessages m !! k = Some msg → ChatMessage.ConversationID msg = cid →
  ChatMessage.Seq msg ≤ maxMessageSeqLocked m cid.
Proof.
  intros Hk. apply (seq_max_spec cid (go_range (Memory.chatMessages m)).*2 0).
  apply elem_of_go_range_snd. eauto.
Qed.

(** [mx] is the position of the conversation: an upper bound of its sequence
    numbers that is attained, or zero. *)
Definition seq_position m (cid : string) (mx : Z) : Prop :=
  0 ≤ mx ∧
  (∀ k msg, Memory.chatMessages m !! k = Some msg → ChatMessage.ConversationID msg = cid →
            ChatMessage.Seq msg ≤ mx) ∧
  (mx = 0 ∨ ∃ k msg, Memory.chatMessages m !! k = Some msg ∧
            ChatMessage.ConversationID msg = cid ∧ ChatMessage.Seq msg = mx).

Lemma maxMessageSeq_iff m cid mx : maxMessageSeqLocked m cid = mx ↔ seq_position m cid mx.
Proof.
  destruct (seq_max_spec cid (go_range (Memory.chatMessages m)).*2 0) as (_ & _ & Hat).
  fold (maxMessageSeqLocked m cid) in Hat.
  assert (seq_position m cid (maxMessageSeqLocked m cid)) as Hpos.
  { split_and!; [apply maxMessageSeq_nonneg | eauto using maxMessageSeq_ub|].
    destruct Hat as [Hat | (msg & Hin & Hm & Hs)]; [by left|].
    apply elem_of_go_range_snd in Hin as [k Hk]. right. by exists k, msg. }
  split; [by intros <-|]. intros (H0 & Hub & Hatt).
  destruct Hpos as (G0 & Gub & Gatt). apply Z.le_antisymm.
  - destruct Gatt as [-> | (k & msg & Hk & Hm & <-)]; [done | eauto].
  - destruct Hatt as [-> | (k & msg & Hk & Hm & <-)]; [done | eauto].
Qed.

(** A message authored here, under an id of its own, advances the position of
    its conversation by one and leaves the other conversations alone. *)
Lemma append_position m nid msg m' msg' cid :
  ChatMessage.Seq msg = 0 →
  Memory.chatMessages m !! or_fresh (ChatMessage.ID msg) nid = None →
  maxMessageSeqLocked m (ChatMessage.ConversationID msg) + 1 < two63 →
  appendChatMessageLocked m nid msg = (m', msg') →
  ChatMessage.ConversationID msg' = ChatMessage.ConversationID msg ∧
  ChatMessage.Seq msg' = maxMessageSeqLocked m (ChatMessage.ConversationID msg) + 1 ∧
  maxMessageSeqLocked m' cid =
    maxMessageSeqLocked m cid + (if in_conversation cid msg then 1 else 0).
Proof.
  intros Hseq Hfresh Hbound Happ. unfold appendChatMessageLocked in Happ. simpl in Happ.
  rewrite Hseq in Happ. simpl in Happ.
  pose proof (maxMessageSeq_nonneg m (ChatMessage.ConversationID msg)) as Hnn.
  rewrite wrap64_id in Happ by (unfold two63 in *; lia).
  injection Happ as <- <-. simpl. split_and!; [done | done |].
  apply maxMessageSeq_iff. unfold in_conversation.
  destruct (proj1 (maxMessageSeq_iff m cid _) eq_refl) as (H0 & Hub & Hat).
  case_bool_decide as Hc.
  - rewrite Hc in *. split_and!; [lia | |].
    + intros k x. simpl. rewrite lookup_insert. case_decide.
      * intros [= <-] _. simpl. lia.
      * intros Hk Hx. specialize (Hub _ _ Hk Hx). lia.
    + right. eexists _, _. simpl. rewrite lookup_insert_eq. split_and!; [done | done | simpl; lia].
  - rewrite Z.add_0_r. split_and!; [lia | |].
    + intros k x. simpl. rewrite lookup_insert. case_decide; [by intros [= <-]|]. eauto.
    + destruct Hat as [?|(k & x & Hk & Hx & Hs)]; [by left|]. right. exists k, x. simpl.
      rewrite lookup_insert_ne; [done|]. intros <-. congruence.
Qed.

Lemma append_chatMessages m nid msg m' msg' :
  appendChatMessageLocked m nid msg = (m', msg') →
  ChatMessage.ID msg' = or_fresh (ChatMessage.ID msg) nid ∧
  Memory.chatMessages m' = <[or_fresh (ChatMessage.ID msg) nid := msg']> (Memory.chatMessages m).
Proof.
  unfold appendChatMessageLocked. intros [= <- <-]. simpl. by destruct (_ =? 0).
Qed.

(** A sequence of appends, with the id each one draws. *)
Fixpoint append_all m (l : list (string * ChatMessage.t)) : Memory.t B * list ChatMessage.t :=
  match l with
  | [] => (m, [])
  | (nid, msg) :: rest =>
      let '(m, msg') := appendChatMessageLocked m nid msg in
      let '(m, out) := append_all m rest in (m, msg' :: out)
  end.
Definition append_id (a : string * ChatMessage.t) : string := or_fresh (ChatMessage.ID a.2) a.1.
End Conversations.

(** The sequence numbers of a run of appends. *)
Lemma append_all_gapless {B} {RO : RangeOrder} (m : Memory.t B) (l : list (string * ChatMessage.t))
  (cid : string) :
  Forall (fun a => ChatMessage.Seq a.2 = 0) l →
  NoDup (append_id <$> l) →
  Forall (fun a => Memory.chatMessages m !! append_id a = None) l →
  (∀ c, maxMessageSeqLocked m c + Z.of_nat (length l) < two63) →
  ChatMessage.Seq <$> filter (fun msg => Is_true (in_conversation cid msg)) (append_all m l).2 =
  seqZ (maxMessageSeqLocked m cid + 1)
       (Z.of_nat (length (filter (fun a => Is_true (in_conversation cid a.2)) l))).
Proof.
  revert m. induction l as [|[nid msg] l IH]; intros m Hseq Hnd Hfr Hb; [done|].
  apply Forall_cons in Hseq as [Hs Hseq]. apply NoDup_cons in Hnd as [Hn Hnd].
  apply Forall_cons in Hfr as [Hf Hfr]. simpl in Hs, Hb. cbn [append_all].
  destruct (appendChatMessageLocked m nid msg) as [m' msg'] eqn:E.
  assert (maxMessageSeqLocked m (ChatMessage.ConversationID msg) + 1 < two63) as Hb1
    by (specialize (Hb (ChatMessage.ConversationID msg)); lia).
  pose proof (fun c => append_position m nid msg m' msg' c Hs Hf Hb1 E) as Hpos.
  destruct (append_chatMessages _ _ _ _ _ E) as [_ Htab].
  specialize (IH m'). destruct (append_all m' l) as [m2 out]. cbn [snd] in IH |- *.
  destruct (Hpos cid) as (Hcv & Hsq & Hmx).
  assert (in_conversation cid msg' = in_conversation cid msg) as Hin
    by (unfold in_conversation; by rewrite Hcv).
  rewrite !filter_cons. cbn [snd]. rewrite Hin.
  assert (ChatMessage.Seq <$> filter (fun x => Is_true (in_conversation cid x)) out =
    seqZ (maxMessageSeqLocked m' cid + 1)
      (Z.of_nat (length (filter (fun a => Is_true (in_conversation cid a.2)) l)))) as IH'.
  { apply IH; [done | done | |].
    - rewrite Htab, Forall_forall. intros a Ha. rewrite Forall_forall in Hfr.
      rewrite lookup_insert_ne by (intros Heq; apply Hn; apply list_elem_of_fmap; exists a; eauto).
      by apply Hfr.
    - intros c. destruct (Hpos c) as (_ & _ & ->). specialize (Hb c).
      rewrite Nat2Z.inj_succ in Hb. destruct (in_conversation c msg); lia. }
  destruct (in_conversation cid msg) eqn:Hc.
  - rewrite !decide_True by done. rewrite fmap_cons, IH', Hsq, Hmx.
    apply bool_decide_eq_true in Hc. rewrite Hc, length_cons, Nat2Z.inj_succ.
    rewrite (seqZ_cons _ (Z.succ _)) by lia. f_equal. rewrite Z.pred_succ. f_equal; lia.
  - rewrite !decide_False by (by intros []). rewrite IH', Hmx, Z.add_0_r. done.
Qed.

(** An append keeps what the author wrote. *)
Definition same_content (msg msg' : ChatMessage.t) : Prop :=
  ChatMessage.ConversationID msg' = ChatMessage.ConversationID msg ∧
  ChatMessage.ContentType msg' = ChatMessage.ContentType msg ∧
  ChatMessage.Ciphertext msg' = ChatMessage.Ciphertext msg ∧
  ChatMessage.MLSChainHash msg' = ChatMessage.MLSChainHash msg.

Lemma append_all_content {B} {RO : RangeOrder} (m : Memory.t B) l m' out :
  append_all m l = (m', out) →
  Forall2 (fun a msg' => ChatMessage.ID msg' = append_id a ∧ same_content a.2 msg') l out.
Proof.
  revert m m' out. induction l as [|[nid msg] l IH]; intros m m' out; [by intros [= <- <-]|].
  cbn [append_all]. destruct (appendChatMessageLocked m nid msg) as [m1 msg1] eqn:E.
  destruct (append_all m1 l) as [m2 out2] eqn:E2. intros [= <- <-].
  constructor; [|by eapply IH]. split; [by apply (append_chatMessages m nid msg m1)|].
  unfold appendChatMessageLocked in E. injection E as _ <-. simpl. by destruct (_ =? 0).
Qed.

Lemma append_all_keeps {B} {RO : RangeOrder} (m : Memory.t B) l m' out k :
  append_all m l = (m', out) → k ∉ append_id <$> l →
  Memory.chatMessages m' !! k = Memory.chatMessages m !! k.
Proof.
  revert m m' out. induction l as [|[nid msg] l IH]; intros m m' out; [by intros [= <- <-]|].
  cbn [append_all]. destruct (appendChatMessageLocked m nid msg) as [m1 msg1] eqn:E.
  destruct (append_all m1 l) as [m2 out2] eqn:E2. intros [= <- <-].
  rewrite fmap_cons, not_elem_of_cons. intros [Hk Hl]. rewrite (IH _ _ _ E2 Hl).
  destruct (append_chatMessages _ _ _ _ _ E) as [_ ->].
  by rewrite lookup_insert_ne by (intros <-; by apply Hk).
Qed.

(** With distinct ids, every message appended can be read back. *)
Lemma append_all_stored {B} {RO : RangeOrder} (m : Memory.t B) l m' out :
  append_all m l = (m', out) → NoDup (append_id <$> l) →
  Forall (fun msg => Memory.chatMessages m' !! ChatMessage.ID msg = Some msg) out.
Proof.
  revert m m' out. induction l as [|[nid msg] l IH]; intros m m' out; [by intros [= <- <-]|].
  cbn [append_all]. destruct (appendChatMessageLocked m nid msg) as [m1 msg1] eqn:E.
  destruct (append_all m1 l) as [m2 out2] eqn:E2. intros [= <- <-].
  rewrite fmap_cons, NoDup_cons. intros [Hn Hl]. constructor; [|by eapply IH].
  destruct (append_chatMessages _ _ _ _ _ E) as [Hid Htab]. rewrite Hid.
  rewrite (append_all_keeps _ _ _ _ _ E2) by exact Hn. rewrite Htab. apply lookup_insert_eq.
Qed.


(** C20. Messages authored on this server get the sequence numbers
    [k+1, k+2, ...] of their conversation, without a gap or a repetition,
    where [k] is the highest number it held, however the appends to
    different conversations interleave; ids have to be distinct and the
    numbers to stay within an int64. *)
Theorem append_gapless {B} {RO : RangeOrder} (m : Memory.t B) (l : list (string * ChatMessage.t))
  (cid : string) :
  Forall (fun a => ChatMessage.Seq a.2 = 0) l →
  NoDup (append_id <$> l) →
  Forall (fun a => Memory.chatMessages m !! append_id a = None) l →
  (∀ c, maxMessageSeqLocked m c + Z.of_nat (length l) < two63) →
  ChatMessage.Seq <$> filter (fun msg => Is_true (in_conversation cid msg)) (append_all m l).2 =
  seqZ (maxMessageSeqLocked m cid + 1)
       (Z.of_nat (length (filter (fun a => Is_true (in_conversation cid a.2)) l))).
Proof. apply append_all_gapless. Qed.

Lemma append_gapless_witness :
  let msg c := ChatMessage.zero <| ChatMessage.ConversationID := c |> in
  let l := [("a", msg "x"); ("b", msg "y"); ("c", msg "x")] in
  let m : Memory.t unit := Memory.NewMemory None in
  ChatMessage.Seq <$>
    filter (fun msg => Is_true (in_conversation "x" msg)) (@append_all _ order_fwd m l).2 = [1; 2].
Proof.
  intros msg l m. apply (append_gapless (RO := order_fwd) m l "x").
  - repeat constructor.
  - apply (bool_decide_unpack _). vm_compute. exact I.
  - repeat constructor.
  - intros c. reflexivity.
Defined.

(** ** Membership *)

Section Members.
Context {B : Type} {RO : RangeOrder}.
Implicit Types (m : Memory.t B) (mem : ConversationMember.t) (k cid uid : string).

(** At most one row per conversation and user. *)
Definition unique_members m : Prop :=
  ∀ k k' x x' cid uid, Memory.convMembers m !! k = Some x → Memory.convMembers m !! k' = Some x' →
  is_conv_member cid uid x = true → is_conv_member cid uid x' = true → k = k'.

Lemma is_conv_member_true cid uid mem :
  is_conv_member cid uid mem = true ↔
  ConversationMember.ConversationID mem = cid ∧ ConversationMember.UserID mem = uid.
Proof. unfold is_conv_member. rewrite andb_true_iff, !bool_decide_eq_true. done. Qed.

Lemma find_member m k mem cid uid :
  unique_members m → Memory.convMembers m !! k = Some mem → is_conv_member cid uid mem = true →
  range_find (is_conv_member cid uid) (Memory.convMembers m) = Some (k, mem).
Proof. intros Hu Hk Hc. apply range_find_unique; eauto. Qed.

(** Replacing a row by one of the same member, or adding the row of a user who
    has none, keeps members unique. *)
Lemma unique_members_insert m k y :
  unique_members m →
  (∀ k' x, Memory.convMembers m !! k' = Some x →
    is_conv_member (ConversationMember.ConversationID y) (ConversationMember.UserID y) x = true →
    k' = k) →
  unique_members (m <| Memory.convMembers := <[k := y]> (Memory.convMembers m) |>).
Proof.
  intros Hu Hy k1 k2 x1 x2 cid uid. simpl.
  rewrite !lookup_insert. repeat case_decide; subst; try done.
  - intros [= <-] H2 [<- <-]%is_conv_member_true Hc. symmetry. eauto.
  - intros H1 [= <-] Hc [<- <-]%is_conv_member_true. eauto.
  - apply Hu.
Qed.

Lemma advance_receipt_member cid uid mem d r :
  is_conv_member cid uid (advance_receipt mem d r) = is_conv_member cid uid mem.
Proof. unfold advance_receipt. by repeat case_match. Qed.

(** A sequence of receipt reports [(deliveredSeq, readSeq)] of one member. *)
Definition report_all m cid uid (reports : list (Z * Z)) : Memory.t B :=
  foldl (fun m dr => (SetConversationReceipt m cid uid dr.1 dr.2).1) m reports.

Definition latest (z : Z) (l : list Z) : Z := foldr Z.max z l.

Lemma latest_cons z x l : latest (Z.max z x) l = Z.max x (latest z l).
Proof. induction l; simpl; [lia|]. rewrite IHl. lia. Qed.

Lemma advance_receipt_eq mem d r :
  advance_receipt mem d r =
  mem <| ConversationMember.DeliveredSeq := Z.max (ConversationMember.DeliveredSeq mem) d |>
      <| ConversationMember.ReadSeq := Z.max (ConversationMember.ReadSeq mem) r |>.
Proof.
  destruct mem. unfold advance_receipt. simpl.
  destruct (Z.ltb_spec DeliveredSeq d); simpl; destruct (Z.ltb_spec ReadSeq r); simpl; f_equal; lia.
Qed.

Lemma report_one m k mem cid uid d r :
  unique_members m → Memory.convMembers m !! k = Some mem → is_conv_member cid uid mem = true →
  let m' := (SetConversationReceipt m cid uid d r).1 in
  unique_members m' ∧ m' = m <| Memory.convMembers :=
    <[k := advance_receipt mem d r]> (Memory.convMembers m) |>.
Proof.
  intros Hu Hk Hc. unfold SetConversationReceipt, on_conv_member.
  rewrite (find_member _ _ _ _ _ Hu Hk Hc). cbn [fst]. split; [|done].
  apply unique_members_insert; [done|]. intros k' x Hk' Hx.
  apply (Hu k' k x mem (ConversationMember.ConversationID mem) (ConversationMember.UserID mem)); auto.
  - revert Hx. rewrite advance_receipt_eq. done.
  - by apply is_conv_member_true.
Qed.
End Members.

(** Receipts only move forward, in any order of arrival: after any
    sequence of reports the row of the member holds the maximum of what it
    held and of what was reported, in both watermarks, and every other row is
    as before. *)
Theorem receipts_forward_only {B} {RO : RangeOrder} (m : Memory.t B) k mem cid uid reports :
  unique_members m → Memory.convMembers m !! k = Some mem → is_conv_member cid uid mem = true →
  Memory.convMembers (report_all m cid uid reports) =
  <[k := mem
     <| ConversationMember.DeliveredSeq :=
          latest (ConversationMember.DeliveredSeq mem) (fst <$> reports) |>
     <| ConversationMember.ReadSeq :=
          latest (ConversationMember.ReadSeq mem) (snd <$> reports) |> ]> (Memory.convMembers m).
Proof.
  revert m mem. induction reports as [|[d r] reports IH]; intros m mem Hu Hk Hc.
  - simpl. rewrite insert_id; [done|]. by rewrite Hk; destruct mem.
  - destruct (report_one m k mem cid uid d r Hu Hk Hc) as [Hu' Hm'].
    unfold report_all. cbn [foldl fst snd]. fold (report_all (SetConversationReceipt m cid uid d r).1 cid uid reports).
    rewrite (IH _ (advance_receipt mem d r)); [|done| |by rewrite advance_receipt_member].
    + rewrite Hm', !fmap_cons, advance_receipt_eq. simpl. rewrite insert_insert_eq.
      f_equal. rewrite !latest_cons. done.
    + rewrite Hm'. simpl. apply lookup_insert_eq.
Qed.

Definition sample_member (id cid uid : string) : ConversationMember.t :=
  ConversationMember.zero <| ConversationMember.ID := id |>
    <| ConversationMember.ConversationID := cid |> <| ConversationMember.UserID := uid |>.

Lemma unique_members_singleton {B} (m : Memory.t B) k mem :
  Memory.convMembers m = {[k := mem]} → unique_members m.
Proof. intros Hm k1 k2 x1 x2 cid uid. rewrite Hm, !lookup_singleton_Some. by intros [<- _] [<- _]. Qed.

Lemma receipts_forward_only_witness :
  let mem := sample_member "r" "c" "u" in
  let m : Memory.t unit := (Memory.NewMemory None) <| Memory.convMembers := {["r" := mem]} |> in
  Memory.convMembers (@report_all _ order_fwd m "c" "u" [(3, 1); (2, 2)]) =
  <["r" := mem <| ConversationMember.DeliveredSeq := 3 |> <| ConversationMember.ReadSeq := 2 |>]>
    (Memory.convMembers m).
Proof.
  intros mem m. apply (receipts_forward_only (RO := order_fwd) m "r" mem "c" "u" [(3, 1); (2, 2)]).
  - by apply (unique_members_singleton m "r" mem).
  - reflexivity.
  - reflexivity.
Defined.

(** Adding a member is idempotent and keeps the membership of a user
    unique: afterwards the membership lookup finds the row that was returned,
    any further addition of the same user returns it and changes nothing, and
    a newcomer without a join position starts with both watermarks at or past
    every message the conversation holds. *)
Theorem AddConversationMember_unique {B} {RO : RangeOrder} (m : Memory.t B) nid
  (mem : ConversationMember.t) :
  let cid := ConversationMember.ConversationID mem in
  let uid := ConversationMember.UserID mem in
  unique_members m →
  (∀ k x, Memory.convMembers m !! k = Some x → k ≠ or_fresh (ConversationMember.ID mem) nid) →
  ∃ m' row,
    AddConversationMember m nid mem = (m', Ok row) ∧ unique_members m' ∧
    ConversationMembership m' cid uid = Ok row ∧
    (∀ nid' mem', is_conv_member cid uid mem' = true →
       AddConversationMember m' nid' mem' = (m', Ok row)) ∧
    (ConversationMembership m cid uid = Err ErrNotFound → ConversationMember.JoinSeq mem = 0 →
     ∀ k msg, Memory.chatMessages m !! k = Some msg → ChatMessage.ConversationID msg = cid →
       ChatMessage.Seq msg ≤ ConversationMember.DeliveredSeq row ∧
       ChatMessage.Seq msg ≤ ConversationMember.ReadSeq row).
Proof.
  intros cid uid Hu Hfr.
  assert (∀ (m' : Memory.t B) k row, unique_members m' → Memory.convMembers m' !! k = Some row →
    is_conv_member cid uid row = true →
    ConversationMembership m' cid uid = Ok row ∧
    (∀ nid' mem', is_conv_member cid uid mem' = true →
       AddConversationMember m' nid' mem' = (m', Ok row))) as Hfind.
  { intros m' k row Hu' Hk Hc. pose proof (find_member _ _ _ _ _ Hu' Hk Hc) as E. split.
    - unfold ConversationMembership. by rewrite E.
    - intros nid' mem' [Hc1 Hc2]%is_conv_member_true. unfold AddConversationMember.
      by rewrite Hc1, Hc2, E. }
  unfold AddConversationMember. fold cid uid.
  destruct (range_find _ _) as [[k row]|] eqn:E.
  - apply range_find_Some in E as [Hk Hc]. exists m, row.
    destruct (Hfind m k row Hu Hk Hc) as [Hm Ha]. split_and!; try done.
    rewrite Hm. done.
  - pose proof (proj1 (range_find_None _ _) E) as Hnone.
    match goal with |- context [withReceiptFloor ?x] => set (row0 := x) end.
    assert (is_conv_member cid uid (withReceiptFloor row0) = true ∧
            ConversationMember.ID (withReceiptFloor row0) = or_fresh (ConversationMember.ID mem) nid)
      as [Hc Hid].
    { rewrite is_conv_member_true, withReceiptFloor_ID. unfold withReceiptFloor, row0.
      split; [split|]; by repeat case_match. }
    eexists _, _. split; [done|].
    assert (unique_members (m <| Memory.convMembers :=
      <[ConversationMember.ID (withReceiptFloor row0) := withReceiptFloor row0]>
        (Memory.convMembers m) |>)) as Hu'.
    { apply unique_members_insert; [done|]. intros k x Hk.
      apply is_conv_member_true in Hc as [-> ->]. rewrite (Hnone _ _ Hk). done. }
    destruct (Hfind _ _ _ Hu' (lookup_insert_eq _ _ _) Hc) as [Hm Ha].
    split_and!; [done | done | done |].
    intros _ Hj k msg Hk Hcv. pose proof (maxMessageSeq_ub m cid k msg Hk Hcv) as Hub.
    destruct (withReceiptFloor_floor row0) as [Hd Hr]. revert Hd Hr. generalize (withReceiptFloor row0).
    intros row. unfold row0. simpl. rewrite Hj. simpl. fold cid. lia.
Qed.

Lemma AddConversationMember_unique_witness :
  let m : Memory.t unit := Memory.NewMemory None in
  let mem := sample_member "" "c" "u" in
  ∃ m' row, @AddConversationMember _ order_fwd m "n" mem = (m', Ok row) ∧
    @ConversationMembership _ order_fwd m' "c" "u" = Ok row.
Proof.
  intros m mem.
  destruct (AddConversationMember_unique (RO := order_fwd) m "n" mem) as (m' & row & Ha & _ & Hm & _).
  - intros k1 k2 x1 x2 cid uid H. discriminate H.
  - intros k x H. discriminate H.
  - exists m', row. exact (conj Ha Hm).
Defined.

(** ** The transcript, page by page *)

Section Transcript.
Context {B : Type}.
Implicit Types (m : Memory.t B) (msg : ChatMessage.t) (cid : string) (after : time).

(** No two messages of a conversation have the same time and sequence number. *)
Definition untied m cid : Prop :=
  ∀ k k' x x', Memory.chatMessages m !! k = Some x → Memory.chatMessages m !! k' = Some x' →
  ChatMessage.ConversationID x = cid → ChatMessage.ConversationID x' = cid →
  ChatMessage.CreatedAt x = ChatMessage.CreatedAt x' → ChatMessage.Seq x = ChatMessage.Seq x' → k = k'.

(** What the store numbers itself keeps it so. *)
Lemma append_untied {RO : RangeOrder} m nid msg cid :
  untied m cid → ChatMessage.Seq msg = 0 → maxMessageSeqLocked m (ChatMessage.ConversationID msg) + 1 < two63 →
  Memory.chatMessages m !! or_fresh (ChatMessage.ID msg) nid = None →
  untied (AppendChatMessage m nid msg).1 cid.
Proof.
  intros Hu Hs Hb Hn. unfold AppendChatMessage. destruct (appendChatMessageLocked m nid msg) as [m' msg'] eqn:E. cbn [fst].
  destruct (append_chatMessages _ _ _ _ _ E) as [_ Htab].
  destruct (append_position m nid msg m' msg' cid Hs Hn Hb E) as (Hconv & Hseq & _).
  intros k k' x x'. rewrite Htab, !lookup_insert_Some.
  intros [[<- <-]|[_ Hx]] [[<- <-]|[_ Hx']] Hc Hc' Ht He; [done|..|exact (Hu _ _ _ _ Hx Hx' Hc Hc' Ht He)].
  - exfalso. pose proof (maxMessageSeq_ub m (ChatMessage.ConversationID msg) _ _ Hx' ltac:(congruence)). lia.
  - exfalso. pose proof (maxMessageSeq_ub m (ChatMessage.ConversationID msg) _ _ Hx ltac:(congruence)). lia.
Qed.

Definition transcript {RO : RangeOrder} m cid after : list ChatMessage.t :=
  sort_slice transcript_less (range_filter (in_transcript cid after) (Memory.chatMessages m)).

(** A client scrolling back: the i-th call of [ChatMessagesByConversation]
    ranges over the table in the order [orders i], takes the id of the last
    message of a page as its next cursor and stops at an empty page. *)
Fixpoint scroll (orders : nat → RangeOrder) (fuel i : nat) m cid (cursor : string) (limit : Z)
  after : list ChatMessage.t :=
  match fuel with
  | O => []
  | S fuel =>
      let page := ChatMessagesByConversation (RO := orders i) m cid cursor limit after in
      match last page with
      | None => []
      | Some x => page ++ scroll orders fuel (S i) m cid (ChatMessage.ID x) limit after
      end
  end.

Lemma in_transcript_true cid after msg :
  in_transcript cid after msg = true ↔
  ChatMessage.ConversationID msg = cid ∧ IsMLSProtocol (ChatMessage.ContentType msg) = false ∧
  (after = zero_time ∨ after < ChatMessage.CreatedAt msg).
Proof.
  unfold in_transcript, IsZero, After.
  rewrite !andb_true_iff, !negb_true_iff, andb_false_iff, !negb_false_iff, !bool_decide_eq_true,
    Z.ltb_lt. tauto.
Qed.

Lemma elem_of_transcript {RO : RangeOrder} m cid after msg :
  msg ∈ transcript m cid after ↔
  in_transcript cid after msg = true ∧ ∃ k, Memory.chatMessages m !! k = Some msg.
Proof. unfold transcript. by rewrite elem_of_sort_slice, elem_of_range_filter. Qed.

Lemma transcript_less_false x y :
  transcript_less y x = false ↔
  ChatMessage.CreatedAt y < ChatMessage.CreatedAt x ∨
  ChatMessage.CreatedAt y = ChatMessage.CreatedAt x ∧ ChatMessage.Seq y ≤ ChatMessage.Seq x.
Proof.
  unfold transcript_less, After.
  destruct (Z.eqb_spec (ChatMessage.CreatedAt y) (ChatMessage.CreatedAt x)); simpl;
    rewrite Z.ltb_ge; lia.
Qed.

Lemma transcript_sorted {RO : RangeOrder} m cid after :
  StronglySorted (fun x y => transcript_less y x = false) (transcript m cid after).
Proof.
  apply sort_slice_sorted.
  - intros x y. rewrite transcript_less_false, <- not_false_iff_true, transcript_less_false. lia.
  - intros x y z. rewrite !transcript_less_false. lia.
Qed.

(** Without ties the transcript does not depend on the order in which the table is
    visited. *)
Lemma transcript_order_independent (RO1 RO2 : RangeOrder) m cid after :
  Keyed m → untied m cid →
  @transcript RO1 m cid after = @transcript RO2 m cid after.
Proof.
  intros HK Hd. eapply StronglySorted_unique_strong; [|apply transcript_sorted..|].
  - intros x y [Hx [k Hk]]%elem_of_transcript [Hy [k' Hk']]%elem_of_transcript.
    rewrite !transcript_less_false. intros H1 H2.
    apply in_transcript_true in Hx as [Hx _]. apply in_transcript_true in Hy as [Hy _].
    assert (k = k') as -> by (apply (Hd k k' x y); auto; lia). congruence.
  - unfold transcript. rewrite !sort_slice_perm. apply range_filter_perm.
Qed.

Lemma scroll_walk (orders : nat → RangeOrder) fuel i m cid cursor limit after l :
  (∀ j, @transcript (orders j) m cid after = l) →
  scroll orders fuel i m cid cursor limit after = walk ChatMessage.ID fuel cursor limit l.
Proof.
  intros Hl. revert i cursor. induction fuel as [|fuel IH]; intros i cursor; [done|].
  cbn [scroll walk]. unfold ChatMessagesByConversation.
  fold (@transcript (orders i) m cid after). rewrite Hl.
  destruct (last _); [by rewrite IH | done].
Qed.

Lemma transcript_NoDup_ID {RO : RangeOrder} m cid after :
  Keyed m → NoDup (ChatMessage.ID <$> transcript m cid after).
Proof.
  intros HK. unfold transcript. rewrite sort_slice_perm. apply range_filter_NoDup, HK.
Qed.
End Transcript.

(** C28. Scrolling a conversation back page by page, with any page size and
    the table visited in any order at each call, shows exactly the transcript
    past the caller's clear-history watermark: every message of the
    conversation that is not protocol traffic, once, newest first. One call
    more than the table has messages is enough. It is so where no two messages of the
    conversation have the same time and sequence number, which holds of those the store
    has numbered itself ([append_untied]); another host's numbers are kept as they come,
    and a tie among them can hide a message from one who scrolls ([ties_skip]). Messages
    are kept under their ids, and none has the empty id, which asks for the first page. *)
Theorem scroll_complete {B} (orders : nat → RangeOrder) (m : Memory.t B) (cid : string)
  (limit : Z) (after : time) :
  Keyed m → untied m cid → Memory.chatMessages m !! "" = None →
  let shown := scroll orders (S (size (Memory.chatMessages m))) 0 m cid "" limit after in
  NoDup (ChatMessage.ID <$> shown) ∧
  StronglySorted (fun x y => ChatMessage.CreatedAt y ≤ ChatMessage.CreatedAt x) shown ∧
  ∀ msg, msg ∈ shown ↔
    (∃ k, Memory.chatMessages m !! k = Some msg) ∧ ChatMessage.ConversationID msg = cid ∧
    IsMLSProtocol (ChatMessage.ContentType msg) = false ∧
    (after = zero_time ∨ after < ChatMessage.CreatedAt msg).
Proof.
  intros HK Hd Hne shown.
  assert (shown = @transcript B (orders 0%nat) m cid after) as ->.
  { subst shown.
    rewrite (scroll_walk _ _ _ _ _ _ _ _ (@transcript B (orders 0%nat) m cid after))
      by (intros j; by apply transcript_order_independent).
    apply feed_walk_enough.
    - by apply transcript_NoDup_ID.
    - apply Forall_forall. intros msg [_ [k Hk]]%elem_of_transcript Hid.
      rewrite (keyed_chatMessages m HK _ _ Hk) in Hid. congruence.
    - unfold transcript. rewrite sort_slice_perm. apply range_filter_length. }
  split_and!; [by apply transcript_NoDup_ID | |].
  - eapply StronglySorted_weaken; [|apply transcript_sorted]. intros x y.
    rewrite transcript_less_false. lia.
  - intros msg. rewrite elem_of_transcript, in_transcript_true. tauto.
Qed.

Definition sample_message (id cid : string) (at_ : time) (seq : Z) : ChatMessage.t :=
  ChatMessage.zero <| ChatMessage.ID := id |> <| ChatMessage.ConversationID := cid |>
    <| ChatMessage.CreatedAt := at_ |> <| ChatMessage.Seq := seq |>.

Lemma scroll_complete_witness :
  let m : Memory.t unit := (Memory.NewMemory None) <| Memory.chatMessages :=
    {["a" := sample_message "a" "c" 5 1; "b" := sample_message "b" "c" 5 2;
      "d" := sample_message "d" "e" 6 1]} |> in
  let shown := scroll (fun i => if Nat.even i then order_fwd else order_bwd) 4 0 m "c" "" 1 0 in
  ChatMessage.ID <$> shown = ["b"; "a"] ∧ NoDup (ChatMessage.ID <$> shown).
Proof.
  intros m shown. split; [reflexivity|].
  apply (scroll_complete (fun i => if Nat.even i then order_fwd else order_bwd) m "c" 1 0).
  - pose proof (Keyed_NewMemory (B := unit) None) as H. destruct H; split; try assumption.
    repeat (apply keyed_insert_at; [|reflexivity]). apply keyed_empty.
  - intros k k' x x' Hk Hk'. apply elem_of_map_to_list in Hk, Hk'.
    repeat (apply elem_of_cons in Hk as [Hk|Hk]; [injection Hk as -> -> |]);
      try (by apply elem_of_nil in Hk);
    repeat (apply elem_of_cons in Hk' as [Hk'|Hk']; [injection Hk' as -> -> |]);
      try (by apply elem_of_nil in Hk'); intros H1 H2 H3 H4;
      first [reflexivity | discriminate].
  - reflexivity.
Defined.

(** Two messages of the same time and number, in pages of one: where the second call
    happens to visit the table in the other order, the second message is never shown. *)
Example ties_skip :
  let m : Memory.t unit := (Memory.NewMemory None) <| Memory.chatMessages :=
    {["a" := sample_message "a" "c" 5 1; "b" := sample_message "b" "c" 5 1]} |> in
  length (scroll (fun i => if Nat.even i then order_fwd else order_bwd) 4 0 m "c" "" 1 0) = 1%nat ∧
  length (scroll (fun _ => order_fwd) 4 0 m "c" "" 1 0) = 2%nat.
Proof. by vm_compute. Qed.
