(* ===== verification/StoreMls.v ===== *)
(** * Package store: KeyPackages and the group of a conversation

    The MLS half of [store_memory_keypackages.go] and [mlschain.go]: the
    one-time KeyPackages of each device and their claim, the control messages,
    the GroupInfo, the compare-and-set that orders the commits of a group and
    extends its ordering chain, and the reset that retires a group. *)

From S2P Require Import Prelude.
From S2P Require Import GoStrings.
From S2P Require Import Domain.
From S2P Require Import Crypto.
From S2P Require Import MlsChain.
From S2P Require Import StoreState.
From S2P Require Import StoreMessages.
From S2P Require Import StoreConversations.

(** [sort.Strings] *)
Definition sort_strings (l : list string) : list string := sort_slice str_lt l.

Definition of_device (userID deviceID : string) (kp : MLSKeyPackage.t) : bool :=
  (MLSKeyPackage.UserID kp == userID) && (MLSKeyPackage.DeviceID kp == deviceID).

(** [commitCiphertext] of [mlschain.go]: [""] is the nil slice. *)
Fixpoint commitCiphertext (msgs : list ChatMessage.t) : bytes :=
  match msgs with
  | [] => ""
  | msg :: rest =>
      if ChatMessage.ContentType msg == ContentTypeMLSCommit then ChatMessage.Ciphertext msg
      else commitCiphertext rest
  end.

Definition stamp (hash : bytes) (msg : ChatMessage.t) : ChatMessage.t :=
  if ChatMessage.ContentType msg == ContentTypeMLSCommit
  then msg <| ChatMessage.MLSChainHash := hash |> else msg.
Definition stampChainHash (msgs : list ChatMessage.t) (hash : bytes) : list ChatMessage.t :=
  stamp hash <$> msgs.

Definition maxPriorGroups : nat := 8.

Section Mls.
Context {B : Type} {RO : RangeOrder}.
Implicit Types (m : Memory.t B) (kp : MLSKeyPackage.t) (msg : ChatMessage.t)
  (userID deviceID conversationID groupID cid : string).

(** ** KeyPackages *)

Definition hasLastResortLocked m userID deviceID : bool :=
  range_exists (fun _ kp => of_device userID deviceID kp && MLSKeyPackage.LastResort kp)
    (Memory.keyPackages m).

Definition HasLastResortKeyPackage m userID deviceID : bool :=
  range_exists (fun _ kp => of_device userID deviceID kp && MLSKeyPackage.LastResort kp)
    (Memory.keyPackages m).

(** One turn of the loop of [AddKeyPackages]. *)
Definition add_key_package m (nid : string) kp : Memory.t B :=
  if MLSKeyPackage.LastResort kp
     && hasLastResortLocked m (MLSKeyPackage.UserID kp) (MLSKeyPackage.DeviceID kp) then m
  else
    let kp := kp <| MLSKeyPackage.ID := or_fresh (MLSKeyPackage.ID kp) nid |> in
    m <| Memory.keyPackages := <[MLSKeyPackage.ID kp := kp]> (Memory.keyPackages m) |>.

Fixpoint add_key_packages m (fresh : nat → string) (i : nat) (packages : list MLSKeyPackage.t)
  : Memory.t B :=
  match packages with
  | [] => m
  | kp :: rest => add_key_packages (add_key_package m (fresh i) kp) fresh (S i) rest
  end.

Definition AddKeyPackages m (fresh : nat → string) (packages : list MLSKeyPackage.t)
  : memory_op B unit := (add_key_packages m fresh 0 packages, Ok tt).

Definition DeleteKeyPackages m userID deviceID : memory_op B unit :=
  (m <| Memory.keyPackages := range_delete (of_device userID deviceID) (Memory.keyPackages m) |>,
   Ok tt).

(** The loop of [ClaimKeyPackage] over the visited entries: the first
    single-use package ends it, a last-resort one is remembered. *)
Fixpoint claim_loop userID deviceID (entries : list (string * MLSKeyPackage.t))
  (lastResort : option MLSKeyPackage.t)
  : (string * MLSKeyPackage.t) + option MLSKeyPackage.t :=
  match entries with
  | [] => inr lastResort
  | (id, kp) :: rest =>
      if negb (of_device userID deviceID kp) then claim_loop userID deviceID rest lastResort
      else if MLSKeyPackage.LastResort kp then claim_loop userID deviceID rest (Some kp)
      else inl (id, kp)
  end.

Definition ClaimKeyPackage m userID deviceID : memory_op B MLSKeyPackage.t :=
  match claim_loop userID deviceID (go_range (Memory.keyPackages m)) None with
  | inl (id, kp) => (m <| Memory.keyPackages := delete id (Memory.keyPackages m) |>, Ok kp)
  | inr (Some kp) => (m, Ok kp)
  | inr None => (m, Err ErrNotFound)
  end.

(** [seen[user][device] = true], the inner map made on first use. *)
Definition see_device (seen : gmap string (gmap string unit)) kp : gmap string (gmap string unit) :=
  <[MLSKeyPackage.UserID kp :=
      <[MLSKeyPackage.DeviceID kp := tt]> (default ∅ (seen !! MLSKeyPackage.UserID kp))]> seen.

Definition DevicesWithKeyPackages m (userIDs : list string) : gmap string (list string) :=
  let seen := range_fold (fun seen kp =>
    if negb (bool_decide (MLSKeyPackage.UserID kp ∈ userIDs)) || (MLSKeyPackage.DeviceID kp == "")
    then seen else see_device seen kp) ∅ (Memory.keyPackages m) in
  (fun devices => sort_strings (go_range devices).*1) <$> seen.

Definition CountKeyPackages m userID deviceID : Z :=
  Z.of_nat (length (range_filter
    (fun kp => of_device userID deviceID kp && negb (MLSKeyPackage.LastResort kp))
    (Memory.keyPackages m))).

(** ** Control messages *)

Definition control_since conversationID groupID (sinceEpoch : Z) msg : bool :=
  negb ((ChatMessage.ConversationID msg != conversationID) || (ChatMessage.MLSEpoch msg <=? sinceEpoch))
  && negb ((groupID != "") && (ChatMessage.MLSGroupID msg != "")
           && (ChatMessage.MLSGroupID msg != groupID)).

Definition control_less (x y : ChatMessage.t) : bool :=
  if ChatMessage.MLSEpoch x != ChatMessage.MLSEpoch y
  then ChatMessage.MLSEpoch x <? ChatMessage.MLSEpoch y
  else if ChatMessage.ContentType x != ChatMessage.ContentType y
  then ChatMessage.ContentType x == ContentTypeMLSWelcome
  else Before (ChatMessage.CreatedAt x) (ChatMessage.CreatedAt y).

Definition MLSControlMessagesSince m conversationID groupID (sinceEpoch : Z)
  : list ChatMessage.t :=
  sort_slice control_less
    (range_filter (control_since conversationID groupID sinceEpoch) (Memory.chatMessages m)).

Definition MLSHistoryOffers m conversationID (limit : Z) : list ChatMessage.t :=
  let limit := if (limit <=? 0) || (50 <? limit) then 20 else limit in
  let out := sort_slice (newest ChatMessage.CreatedAt)
    (range_filter (fun msg => (ChatMessage.ConversationID msg == conversationID)
                     && (ChatMessage.ContentType msg == ContentTypeMLSHistoryOffer))
       (Memory.chatMessages m)) in
  if limit <? Z.of_nat (length out) then take (Z.to_nat limit) out else out.

(** ** The group *)

Definition MLSGroupState_ m conversationID : result store_err MLSGroupState.t :=
  match Memory.conversations m !! conversationID with
  | Some c => Ok (Conversation.MLS c)
  | None => Err ErrNotFound
  end.

Definition SetMLSGroupInfo m conversationID groupID (epoch : Z) (groupInfo : bytes)
  : memory_op B unit :=
  match Memory.conversations m !! conversationID with
  | None => (m, Err ErrNotFound)
  | Some c =>
      let stored := (m <| Memory.mlsGroupInfo :=
          <[conversationID := MLSGroupInfo.mk groupID epoch groupInfo]> (Memory.mlsGroupInfo m) |>,
          Ok tt) in
      if MLSGroupState.GroupID (Conversation.MLS c) != groupID then (m, Ok tt)
      else match Memory.mlsGroupInfo m !! conversationID with
           | Some cur =>
               if (MLSGroupInfo.GroupID cur == groupID) && (epoch <=? MLSGroupInfo.Epoch cur)
               then (m, Ok tt) else stored
           | None => stored
           end
  end.

Definition MLSGroupInfo_ m conversationID : result store_err MLSGroupInfo.t :=
  match Memory.mlsGroupInfo m !! conversationID with
  | None => Err ErrNotFound
  | Some gi =>
      if slen (MLSGroupInfo.GroupInfo gi) =? 0 then Err ErrNotFound
      else match Memory.conversations m !! conversationID with
           | None => Ok gi
           | Some c =>
               if (MLSGroupState.GroupID (Conversation.MLS c) != MLSGroupInfo.GroupID gi)
                  || (MLSGroupInfo.Epoch gi <? MLSGroupState.Epoch (Conversation.MLS c))
               then Err ErrNotFound else Ok gi
           end
  end.

(** The batch of a commit with the ids its appends draw. *)
Fixpoint with_fresh (fresh : nat → string) (i : nat) (msgs : list ChatMessage.t)
  : list (string * ChatMessage.t) :=
  match msgs with
  | [] => []
  | msg :: rest => (fresh i, msg) :: with_fresh fresh (S i) rest
  end.

(** The three results of [CommitMLSGroup]: the state comes back beside
    [ErrEpochConflict] too. *)
Record commit_result := mk_commit {
  cr_state : MLSGroupState.t; cr_stored : list ChatMessage.t; cr_err : option store_err
}.

(** The two ways in which a commit may be accepted. *)
Definition may_commit (s : MLSGroupState.t) groupID (baseEpoch : Z) : bool :=
  ((baseEpoch =? 0) && (MLSGroupState.GroupID s == ""))
  || ((MLSGroupState.GroupID s == groupID) && (MLSGroupState.Epoch s =? baseEpoch)).

Definition advance (s : MLSGroupState.t) groupID (baseEpoch : Z) (commit : bytes)
  : MLSGroupState.t :=
  let epoch := wrap64 (baseEpoch + 1) in
  MLSGroupState.mk groupID epoch (MLSGroupState.PriorGroupIDs s)
    (Link (MLSGroupState.ChainHash s) epoch groupID commit).

Definition CommitMLSGroup m (fresh : nat → string) conversationID groupID (baseEpoch : Z)
  (msgs : list ChatMessage.t) : Memory.t B * commit_result :=
  match Memory.conversations m !! conversationID with
  | None => (m, mk_commit MLSGroupState.zero [] (Some ErrNotFound))
  | Some c =>
      let s := Conversation.MLS c in
      if negb (may_commit s groupID baseEpoch) then (m, mk_commit s [] (Some ErrEpochConflict))
      else
        let s' := advance s groupID baseEpoch (commitCiphertext msgs) in
        let msgs := stampChainHash msgs (MLSGroupState.ChainHash s') in
        let m := m <| Memory.conversations :=
          <[conversationID := c <| Conversation.MLS := s' |>]> (Memory.conversations m) |> in
        let '(m, stored) := append_all m (with_fresh fresh 0 msgs) in
        (m, mk_commit s' stored None)
  end.

(** The state a reset leaves behind. *)
Definition retire (s : MLSGroupState.t) : MLSGroupState.t :=
  if MLSGroupState.GroupID s == "" then s
  else MLSGroupState.mk "" 0
         (take maxPriorGroups (MLSGroupState.GroupID s :: MLSGroupState.PriorGroupIDs s)) "".

Definition ResetMLSGroup m conversationID : memory_op B MLSGroupState.t :=
  match Memory.conversations m !! conversationID with
  | None => (m, Err ErrNotFound)
  | Some c =>
      if MLSGroupState.GroupID (Conversation.MLS c) == "" then (m, Ok (Conversation.MLS c))
      else
        let s' := retire (Conversation.MLS c) in
        (m <| Memory.conversations :=
           <[conversationID := c <| Conversation.MLS := s' |>]> (Memory.conversations m) |>, Ok s')
  end.
End Mls.

(** ** The log a conversation agrees on

    What the compare-and-set promises its clients, without hashes, tables or
    machine integers: a conversation has no group, or one group and the list
    of the commits accepted into it; a commit is accepted when there is no
    group and it is based on epoch zero, or when it is of this group and based
    on exactly the commits accepted so far; a reset retires the group. *)

Record group_log := mk_log {
  gl_group : option string; gl_log : list entry; gl_prior : list string
}.

Definition spec_accepts (g : group_log) (groupID : string) (baseEpoch : Z) : bool :=
  match gl_group g with
  | None => baseEpoch == 0
  | Some gid => (gid == groupID) && (baseEpoch == Z.of_nat (length (gl_log g)))
  end.
Definition spec_commit (g : group_log) (groupID : string) (baseEpoch : Z) (commit : bytes)
  : group_log * option store_err :=
  if spec_accepts g groupID baseEpoch
  then (mk_log (Some groupID) (gl_log g ++ [mk_entry groupID commit]) (gl_prior g), None)
  else (g, Some ErrEpochConflict).
Definition spec_reset (g : group_log) : group_log :=
  match gl_group g with
  | None => g
  | Some gid => mk_log None [] (take maxPriorGroups (gid :: gl_prior g))
  end.

(** What a caller is told: the error, the group, the epoch and the head of the
    ordering chain. *)
Definition observation : Type := option store_err * string * Z * bytes.
Definition observe (err : option store_err) (s : MLSGroupState.t) : observation :=
  (err, MLSGroupState.GroupID s, MLSGroupState.Epoch s, MLSGroupState.ChainHash s).
Definition spec_observe (err : option store_err) (g : group_log) : observation :=
  (err, default "" (gl_group g), Z.of_nat (length (gl_log g)), chain "" 0 (gl_log g)).

(** The calls that touch groups and logs, from any client, about any
    conversation. *)
Inductive group_call : Type :=
| CallCommit (cid groupID : string) (baseEpoch : Z) (msgs : list ChatMessage.t) (fresh : nat → string)
| CallReset (cid : string)
| CallSay (nid : string) (msg : ChatMessage.t).

Definition call_is (cid : string) (c : group_call) : bool :=
  match c with CallCommit c _ _ _ _ => c == cid | CallReset c => c == cid | CallSay _ _ => false end.

Definition group_step {B} {RO : RangeOrder} (m : Memory.t B) (c : group_call)
  : Memory.t B * option observation :=
  match c with
  | CallCommit cid gid base msgs fresh =>
      let '(m, r) := CommitMLSGroup m fresh cid gid base msgs in
      (m, Some (observe (cr_err r) (cr_state r)))
  | CallReset cid =>
      match ResetMLSGroup m cid with
      | (m, Ok s) => (m, Some (observe None s))
      | (m, Err e) => (m, Some (observe (Some e) MLSGroupState.zero))
      end
  | CallSay nid msg => ((AppendChatMessage m nid msg).1, None)
  end.

Definition spec_step (g : group_log) (c : group_call) : group_log * option observation :=
  match c with
  | CallCommit _ gid base msgs _ =>
      let '(g, e) := spec_commit g gid base (commitCiphertext msgs) in (g, Some (spec_observe e g))
  | CallReset _ => let g := spec_reset g in (g, Some (spec_observe None g))
  | CallSay _ _ => (g, None)
  end.

(** A run, and the observations of the calls about one conversation. *)
Fixpoint group_run {B} {RO : RangeOrder} (cid : string) (m : Memory.t B) (calls : list group_call)
  : Memory.t B * list (option observation) :=
  match calls with
  | [] => (m, [])
  | c :: rest =>
      let '(m, o) := group_step m c in
      let '(m, os) := group_run cid m rest in
      (m, if call_is cid c then o :: os else os)
  end.
Fixpoint spec_run (cid : string) (g : group_log) (calls : list group_call)
  : group_log * list (option observation) :=
  match calls with
  | [] => (g, [])
  | c :: rest =>
      if call_is cid c then
        let '(g, o) := spec_step g c in
        let '(g, os) := spec_run cid g rest in (g, o :: os)
      else spec_run cid g rest
  end.

(** [s] is the group state of a conversation whose log is [g]. *)
Record represents (s : MLSGroupState.t) (g : group_log) : Prop := {
  rep_group : MLSGroupState.GroupID s = default "" (gl_group g);
  rep_named : gl_group g ≠ Some "";
  rep_none : gl_group g = None → gl_log g = [];
  rep_epoch : MLSGroupState.Epoch s = Z.of_nat (length (gl_log g));
  rep_chain : MLSGroupState.ChainHash s = chain "" 0 (gl_log g);
  rep_prior : MLSGroupState.PriorGroupIDs s = gl_prior g
}.

(** The handler's guard: [groupId is required]. *)
Definition names_group (c : group_call) : Prop :=
  match c with CallCommit _ gid _ _ _ => gid ≠ "" | _ => True end.

Lemma represents_observe s g e : represents s g → observe e s = spec_observe e g.
Proof. intros []. unfold observe, spec_observe. congruence. Qed.

Lemma may_commit_spec s g gid base :
  represents s g → gid ≠ "" → may_commit s gid base = spec_accepts g gid base.
Proof.
  intros [Hg Hn H0 He _ _] Hgid. unfold may_commit, spec_accepts. rewrite Hg, He.
  destruct (gl_group g) as [gid0|] eqn:E; simpl.
  - rewrite (bool_decide_false (gid0 = "")) by congruence. rewrite andb_false_r; simpl.
    f_equal. apply eq_true_iff_eq. rewrite Z.eqb_eq, bool_decide_eq_true. intuition.
  - rewrite (bool_decide_false ("" = gid)) by congruence. rewrite orb_false_r, andb_true_r.
    apply eq_true_iff_eq. by rewrite Z.eqb_eq, bool_decide_eq_true.
Qed.

Lemma spec_accepts_base g s gid base :
  represents s g → spec_accepts g gid base = true → base = Z.of_nat (length (gl_log g)).
Proof.
  intros [_ _ H0 _ _ _]. unfold spec_accepts. destruct (gl_group g) eqn:E; intros; bool_hyps; [done|].
  subst. by rewrite H0.
Qed.

Lemma advance_represents s g gid base commit :
  represents s g → gid ≠ "" → Z.of_nat (length (gl_log g)) + 1 < two63 →
  spec_accepts g gid base = true →
  represents (advance s gid base commit)
    (mk_log (Some gid) (gl_log g ++ [mk_entry gid commit]) (gl_prior g)).
Proof.
  intros Hr Hgid Hb Hacc. pose proof (spec_accepts_base _ _ _ _ Hr Hacc) as ->.
  destruct Hr as [Hg Hn H0 He Hc Hp]. unfold advance.
  rewrite wrap64_id by (unfold two63 in *; lia). split; simpl; try done.
  - congruence.
  - rewrite length_app; simpl. lia.
  - rewrite chain_snoc, Hc. done.
Qed.

Lemma retire_represents s g : represents s g → represents (retire s) (spec_reset g).
Proof.
  intros [Hg Hn H0 He Hc Hp]. unfold retire, spec_reset. rewrite Hg.
  destruct (gl_group g) as [gid|] eqn:E; simpl.
  - rewrite bool_decide_false by congruence. split; simpl; try done. by rewrite Hp.
  - split; rewrite ?E; simpl; done || by rewrite E in Hg.
Qed.

Section Refinement.
Context {B : Type} {RO : RangeOrder}.
Implicit Types (m : Memory.t B) (cid gid : string) (g : group_log).

Definition group_of m cid : option MLSGroupState.t := Conversation.MLS <$> Memory.conversations m !! cid.

Lemma append_all_conversations m l m' out :
  append_all m l = (m', out) → Memory.conversations m' = Memory.conversations m.
Proof.
  revert m m' out. induction l as [|[nid msg] l IH]; intros m m' out; [by intros [= <- <-]|].
  cbn [append_all]. destruct (appendChatMessageLocked m nid msg) as [m1 msg1] eqn:E.
  destruct (append_all m1 l) as [m2 out2] eqn:E2. intros [= <- <-].
  rewrite (IH _ _ _ E2). by rewrite (append_ID _ _ _ _ _ E).
Qed.

(** The compare-and-set, seen from the group state of any conversation. *)
Lemma CommitMLSGroup_group m fresh cid gid base msgs s cid' :
  group_of m cid = Some s →
  let '(m', r) := CommitMLSGroup m fresh cid gid base msgs in
  let s' := if may_commit s gid base then advance s gid base (commitCiphertext msgs) else s in
  cr_state r = s' ∧ cr_err r = (if may_commit s gid base then None else Some ErrEpochConflict) ∧
  group_of m' cid' = if bool_decide (cid' = cid) then Some s' else group_of m cid'.
Proof.
  unfold group_of, CommitMLSGroup. intros Hs. destruct (Memory.conversations m !! cid) as [c|] eqn:E;
    [|done]. injection Hs as <-.
  destruct (may_commit _ gid base); cbn [negb].
  - destruct (append_all _ _) as [m2 stored] eqn:Ea. cbn [cr_state cr_err].
    rewrite (append_all_conversations _ _ _ _ Ea). simpl.
    split_and!; try done. case_bool_decide; [subst; by rewrite lookup_insert_eq|].
    by rewrite lookup_insert_ne.
  - cbn [cr_state cr_err fst]. split_and!; try done.
    case_bool_decide; [subst; by rewrite E | done].
Qed.

Lemma ResetMLSGroup_group m cid s cid' :
  group_of m cid = Some s →
  ∃ m', ResetMLSGroup m cid = (m', Ok (retire s)) ∧
    group_of m' cid' = if bool_decide (cid' = cid) then Some (retire s) else group_of m cid'.
Proof.
  unfold group_of, ResetMLSGroup. intros Hs. destruct (Memory.conversations m !! cid) as [c|] eqn:E;
    [|done]. injection Hs as <-. destruct (_ == "") eqn:Eg.
  - assert (retire (Conversation.MLS c) = Conversation.MLS c) as -> by (unfold retire; by rewrite Eg).
    exists m. split; [done|]. destruct (bool_decide_reflect (cid' = cid)) as [->|Hc]; [by rewrite E|done].
  - eexists. split; [done|]. simpl.
    destruct (bool_decide_reflect (cid' = cid)) as [->|Hc]; [by rewrite lookup_insert_eq|].
    by rewrite lookup_insert_ne.
Qed.

(** A call about another conversation, or a message, leaves the group alone. *)
Lemma group_step_other m c cid : call_is cid c = false → group_of (group_step m c).1 cid = group_of m cid.
Proof.
  destruct c as [c gid base msgs fresh | c | nid msg]; simpl; intros Hc; bool_hyps.
  - unfold CommitMLSGroup. destruct (Memory.conversations m !! c) as [x|] eqn:E; [|done].
    destruct (negb _); [done|]. destruct (append_all _ _) as [m2 stored] eqn:Ea. simpl.
    unfold group_of. rewrite (append_all_conversations _ _ _ _ Ea). simpl.
    by rewrite lookup_insert_ne.
  - unfold ResetMLSGroup. destruct (Memory.conversations m !! c) as [x|] eqn:E; [|done].
    destruct (_ == ""); [done|]. unfold group_of. simpl. by rewrite lookup_insert_ne.
  - done.
Qed.

(** A call about the conversation is a step of its abstract log, and is told
    the same. *)
Lemma group_step_same m c cid s g :
  call_is cid c = true → names_group c → group_of m cid = Some s → represents s g →
  Z.of_nat (length (gl_log g)) + 1 < two63 →
  ∃ s' m' o, group_step m c = (m', o) ∧ group_of m' cid = Some s' ∧
    represents s' (spec_step g c).1 ∧ o = (spec_step g c).2 ∧
    (length (gl_log (spec_step g c).1) ≤ S (length (gl_log g)))%nat.
Proof.
  destruct c as [c gid base msgs fresh | c | nid msg]; simpl; intros Hc Hn Hs Hr Hb; bool_hyps; subst.
  - pose proof (CommitMLSGroup_group m fresh cid gid base msgs s cid Hs) as H.
    destruct (CommitMLSGroup _ _ _ _ _ _) as [m' r]. destruct H as (Hst & He & Hm').
    rewrite bool_decide_true in Hm' by done.
    rewrite (may_commit_spec _ _ _ _ Hr Hn) in *. unfold spec_commit.
    eexists _, m', _. split; [done|]. split; [exact Hm'|]. rewrite Hst, He.
    destruct (spec_accepts g gid base) eqn:Ea; cbn [fst snd gl_log].
    + pose proof (advance_represents _ _ _ _ (commitCiphertext msgs) Hr Hn Hb Ea) as Hr'.
      split_and!; [done | by rewrite (represents_observe _ _ _ Hr') | rewrite length_app; simpl; lia].
    + split_and!; [done | by rewrite (represents_observe _ _ _ Hr) | lia].
  - destruct (ResetMLSGroup_group m cid s cid Hs) as (m' & -> & Hm').
    rewrite bool_decide_true in Hm' by done. pose proof (retire_represents _ _ Hr) as Hr'.
    eexists _, m', _. split_and!; [done | exact Hm' | done | by rewrite (represents_observe _ _ _ Hr') |].
    unfold spec_reset. destruct (gl_group g); simpl; lia.
  - done.
Qed.
End Refinement.


Definition sample_conversation (id : string) : Conversation.t :=
  Conversation.zero <| Conversation.ID := id |>.
Definition sample_commit (cid : string) (c : bytes) : ChatMessage.t :=
  ChatMessage.zero <| ChatMessage.ConversationID := cid |>
    <| ChatMessage.ContentType := ContentTypeMLSCommit |> <| ChatMessage.Ciphertext := c |>.
Definition sample_ids (p : string) (i : nat) : string := String.append p (Nat.iter i (String.append "x") "").

Definition sample_store : Memory.t unit :=
  (Memory.NewMemory None) <| Memory.conversations := {["c" := sample_conversation "c"]} |>.
Lemma represents_zero : represents MLSGroupState.zero (mk_log None [] []).
Proof. by split. Qed.

Definition sample_calls : list group_call :=
  [CallCommit "c" "g" 0 [sample_commit "c" "one"] (sample_ids "a");
   CallCommit "c" "h" 0 [sample_commit "c" "lost"] (sample_ids "b");
   CallCommit "c" "g" 1 [sample_commit "c" "two"] (sample_ids "d");
   CallReset "c"].


(** ** One winner per epoch *)

(** The group and base epoch of each accepted commit of a conversation. *)
Fixpoint accepted {B} {RO : RangeOrder} (cid : string) (m : Memory.t B) (calls : list group_call)
  : list (string * Z) :=
  match calls with
  | [] => []
  | c :: rest =>
      let '(m', o) := group_step m c in
      let won := match c, o with
                 | CallCommit cid' gid base _ _, Some (None, _, _, _) =>
                     if cid' == cid then [(gid, base)] else []
                 | _, _ => []
                 end in
      won ++ accepted cid m' rest
  end.

Definition not_reset (cid : string) (c : group_call) : Prop :=
  match c with CallReset c => c ≠ cid | _ => True end.

(** An unestablished conversation is at epoch zero. *)
Definition state_ok (s : MLSGroupState.t) : Prop :=
  0 ≤ MLSGroupState.Epoch s ∧ (MLSGroupState.GroupID s = "" → MLSGroupState.Epoch s = 0).

Lemma may_commit_ok s gid base :
  state_ok s → gid ≠ "" → may_commit s gid base = true →
  base = MLSGroupState.Epoch s ∧ (MLSGroupState.GroupID s = "" ∨ MLSGroupState.GroupID s = gid).
Proof.
  intros [_ H0] Hg. unfold may_commit. rewrite orb_true_iff, !andb_true_iff, !Z.eqb_eq,
    !bool_decide_eq_true. intros [[-> H]|[H <-]]; [|by auto]. split; [|by left]. by rewrite H0.
Qed.



(** ** Commit and relay in one step *)

Lemma with_fresh_snd fresh i msgs : (with_fresh fresh i msgs).*2 = msgs.
Proof. revert i. induction msgs as [|x l IH]; intros i; [done|]. cbn [with_fresh]. by rewrite fmap_cons, IH. Qed.

Lemma Forall_with_fresh (P : ChatMessage.t → Prop) fresh i msgs :
  Forall P msgs → Forall (fun a => P a.2) (with_fresh fresh i msgs).
Proof. intros H. revert i. induction H; intros i; constructor; eauto. Qed.

Lemma stamp_fields hash msg :
  ChatMessage.ConversationID (stamp hash msg) = ChatMessage.ConversationID msg ∧
  ChatMessage.ContentType (stamp hash msg) = ChatMessage.ContentType msg ∧
  ChatMessage.Ciphertext (stamp hash msg) = ChatMessage.Ciphertext msg ∧
  ChatMessage.Seq (stamp hash msg) = ChatMessage.Seq msg ∧
  ChatMessage.ID (stamp hash msg) = ChatMessage.ID msg ∧
  (ChatMessage.ContentType msg = ContentTypeMLSCommit → ChatMessage.MLSChainHash (stamp hash msg) = hash).
Proof. unfold stamp. destruct (bool_decide_reflect (ChatMessage.ContentType msg = ContentTypeMLSCommit)); by split_and!. Qed.

Lemma filter_all {A} (P : A → bool) (l : list A) :
  Forall (fun x => P x = true) l → filter (fun x => Is_true (P x)) l = l.
Proof.
  induction 1 as [|x l Hx _ IH]; [done|]. rewrite filter_cons_True by (by rewrite Hx). by rewrite IH.
Qed.

Lemma stamped_append_id hash fresh i msgs :
  append_id <$> with_fresh fresh i (stampChainHash msgs hash) = append_id <$> with_fresh fresh i msgs.
Proof.
  revert i. induction msgs as [|x l IH]; intros i; [done|]. unfold stampChainHash. rewrite fmap_cons.
  cbn [with_fresh]. rewrite !fmap_cons. f_equal; [|apply IH].
  unfold append_id. cbn [fst snd]. by destruct (stamp_fields hash x) as (_ & _ & _ & _ & -> & _).
Qed.

(** What each message of a batch is stored as. *)
Definition relayed {B} (m' : Memory.t B) (cid : string) (hash : bytes) (msg msg' : ChatMessage.t) : Prop :=
  Memory.chatMessages m' !! ChatMessage.ID msg' = Some msg' ∧
  ChatMessage.ConversationID msg' = cid ∧
  ChatMessage.ContentType msg' = ChatMessage.ContentType msg ∧
  ChatMessage.Ciphertext msg' = ChatMessage.Ciphertext msg ∧
  (ChatMessage.ContentType msg = ContentTypeMLSCommit → ChatMessage.MLSChainHash msg' = hash).

Definition authored (cid : string) (msg : ChatMessage.t) : Prop :=
  ChatMessage.Seq msg = 0 ∧ ChatMessage.ConversationID msg = cid.

Section Relay.
Context {B : Type} {RO : RangeOrder}.
Implicit Types (m : Memory.t B) (cid : string).

Lemma relay_spec m fresh i msgs hash m' out cid :
  append_all m (with_fresh fresh i (stampChainHash msgs hash)) = (m', out) →
  Forall (authored cid) msgs → NoDup (append_id <$> with_fresh fresh i msgs) →
  Forall2 (relayed m' cid hash) msgs out.
Proof.
  intros Ha Hm Hnd.
  pose proof (append_all_content _ _ _ _ Ha) as Hc.
  assert (Forall (fun msg => Memory.chatMessages m' !! ChatMessage.ID msg = Some msg) out) as Hst
    by (eapply append_all_stored; [exact Ha | by rewrite stamped_append_id]).
  clear Ha Hnd. revert i out Hc Hst. induction Hm as [|x l [Hs Hcv] _ IH]; intros i out Hc Hst.
  - cbn in Hc. inversion Hc; subst. constructor.
  - unfold stampChainHash in Hc. rewrite fmap_cons in Hc. cbn [with_fresh] in Hc.
    apply Forall2_cons_inv_l in Hc as (y & out' & [_ Hy] & Hc & ->).
    apply Forall_cons in Hst as [Hst Hst']. constructor; [|by eapply IH].
    destruct Hy as (H1 & H2 & H3 & H4). cbn [snd] in *.
    destruct (stamp_fields hash x) as (G1 & G2 & G3 & G4 & G5 & G6).
    split_and!; [done | congruence | congruence | congruence |]. intros Hx. rewrite H4. auto.
Qed.

Lemma relay_seqs m fresh i msgs hash m' out cid :
  append_all m (with_fresh fresh i (stampChainHash msgs hash)) = (m', out) →
  Forall (authored cid) msgs → NoDup (append_id <$> with_fresh fresh i msgs) →
  Forall (fun a => Memory.chatMessages m !! append_id a = None) (with_fresh fresh i msgs) →
  (∀ c, maxMessageSeqLocked m c + Z.of_nat (length msgs) < two63) →
  ChatMessage.Seq <$> out = seqZ (maxMessageSeqLocked m cid + 1) (Z.of_nat (length msgs)).
Proof.
  intros Ha Hm Hnd Hfr Hb. set (l := with_fresh fresh i (stampChainHash msgs hash)) in *.
  assert (length l = length msgs) as Hlen.
  { rewrite <- (length_fmap snd). unfold l. rewrite with_fresh_snd. apply length_fmap. }
  assert (Forall (authored cid) (stampChainHash msgs hash)) as Hm'.
  { apply Forall_fmap. eapply Forall_impl; [exact Hm|]. intros x [Hs Hc]. unfold authored, compose.
    destruct (stamp_fields hash x) as (-> & _ & _ & -> & _). done. }
  pose proof (append_all_gapless m l cid) as Hg. rewrite Ha in Hg. cbn [snd] in Hg.
  rewrite (filter_all (in_conversation cid) out), (filter_all (fun a => in_conversation cid a.2) l), Hlen in Hg.
  - apply Hg.
    + apply (Forall_with_fresh (fun msg => ChatMessage.Seq msg = 0)).
      eapply Forall_impl; [exact Hm'|]. by intros x [? _].
    + unfold l. by rewrite stamped_append_id.
    + assert (Forall (fun k => Memory.chatMessages m !! k = None) (append_id <$> l)) as Hk
        by (unfold l; rewrite stamped_append_id; apply Forall_fmap; exact Hfr).
      by apply Forall_fmap in Hk.
    + exact Hb.
  - apply (Forall_with_fresh (fun msg => in_conversation cid msg = true)).
    eapply Forall_impl; [exact Hm'|]. intros x [_ ?]. unfold in_conversation. by apply bool_decide_eq_true.
  - pose proof (relay_spec m fresh i msgs hash m' out cid Ha Hm Hnd) as Hrel.
    apply Forall_forall. intros y [j Hj]%list_elem_of_lookup_1.
    destruct (Forall2_lookup_r _ _ _ _ _ Hrel Hj) as (x & _ & _ & Hcv & _).
    by apply bool_decide_eq_true.
Qed.
End Relay.



(** ** KeyPackages *)

Section KeyPackages.
Context {B : Type} {RO : RangeOrder}.
Implicit Types (m : Memory.t B) (kp : MLSKeyPackage.t) (uid did : string).

Lemma of_device_true uid did kp :
  of_device uid did kp = true ↔ MLSKeyPackage.UserID kp = uid ∧ MLSKeyPackage.DeviceID kp = did.
Proof. unfold of_device. by rewrite andb_true_iff, !bool_decide_eq_true. Qed.

Lemma claim_loop_spec uid did l acc :
  match claim_loop uid did l acc with
  | inl (id, kp) => (id, kp) ∈ l ∧ of_device uid did kp = true ∧ MLSKeyPackage.LastResort kp = false
  | inr r =>
      (∀ id kp, (id, kp) ∈ l → of_device uid did kp = true → MLSKeyPackage.LastResort kp = true) ∧
      match r with
      | Some kp => acc = Some kp ∨
          ∃ id, (id, kp) ∈ l ∧ of_device uid did kp = true ∧ MLSKeyPackage.LastResort kp = true
      | None => acc = None ∧ ∀ id kp, (id, kp) ∈ l → of_device uid did kp = false
      end
  end.
Proof.
  revert acc. induction l as [|[id kp] l IH]; intros acc; cbn [claim_loop].
  { split; [by intros ? ? ?%elem_of_nil|]. destruct acc; [by left|]. split; [done|].
    by intros ? ? ?%elem_of_nil. }
  destruct (of_device uid did kp) eqn:Ed; cbn [negb].
  - destruct (MLSKeyPackage.LastResort kp) eqn:El; [|by split; [left|]].
    specialize (IH (Some kp)). destruct (claim_loop _ _ l (Some kp)) as [[id' kp']|r].
    + destruct IH as (? & ? & ?). split; [by right | done].
    + destruct IH as [Ha Hr]. split.
      { intros id' kp' [[= -> ->]|Hin]%elem_of_cons Hd; [done | by eapply Ha]. }
      destruct r as [kp'|]; [|by destruct Hr].
      destruct Hr as [[= ->]|(id' & Hin & Hd & Hl)]; right; [exists id | exists id']; split_and!;
        first [by left | by right | done].
  - specialize (IH acc). destruct (claim_loop _ _ l acc) as [[id' kp']|r].
    + destruct IH as (? & ? & ?). split; [by right | done].
    + destruct IH as [Ha Hr]. split.
      { intros id' kp' [[= -> ->]|Hin]%elem_of_cons Hd; [congruence | by eapply Ha]. }
      destruct r as [kp'|].
      * destruct Hr as [Hr|(id' & Hin & Hd & Hl)]; [by left|]. right. exists id'. split; [by right|done].
      * destruct Hr as [-> Hn]. split; [done|]. intros id' kp' [[= -> ->]|Hin]%elem_of_cons; [done|eauto].
Qed.

(** The three outcomes of a claim. *)
Lemma ClaimKeyPackage_spec m uid did :
  (∃ id kp, ClaimKeyPackage m uid did =
      (m <| Memory.keyPackages := delete id (Memory.keyPackages m) |>, Ok kp) ∧
    Memory.keyPackages m !! id = Some kp ∧ of_device uid did kp = true ∧
    MLSKeyPackage.LastResort kp = false) ∨
  (∃ id kp, ClaimKeyPackage m uid did = (m, Ok kp) ∧ Memory.keyPackages m !! id = Some kp ∧
    of_device uid did kp = true ∧ MLSKeyPackage.LastResort kp = true ∧
    ∀ id' kp', Memory.keyPackages m !! id' = Some kp' → of_device uid did kp' = true →
      MLSKeyPackage.LastResort kp' = true) ∨
  (ClaimKeyPackage m uid did = (m, Err ErrNotFound) ∧
   ∀ id kp, Memory.keyPackages m !! id = Some kp → of_device uid did kp = false).
Proof.
  unfold ClaimKeyPackage. pose proof (claim_loop_spec uid did (go_range (Memory.keyPackages m)) None) as H.
  destruct (claim_loop _ _ _ _) as [[id kp]|[kp|]].
  - destruct H as (Hin%elem_of_go_range & Hd & Hl). left. by exists id, kp.
  - destruct H as [Ha [?|(id & Hin%elem_of_go_range & Hd & Hl)]]; [done|]. right; left.
    exists id, kp. split_and!; try done. intros id' kp' Hin' Hd'.
    apply (Ha id'); [by apply elem_of_go_range | done].
  - destruct H as [_ [_ Hn]]. right; right. split; [done|]. intros id kp Hin.
    apply (Hn id). by apply elem_of_go_range.
Qed.

(** A run of claims by any callers, with the outcome of each. *)
Fixpoint claims m (l : list (string * string))
  : Memory.t B * list (string * string * result store_err MLSKeyPackage.t) :=
  match l with
  | [] => (m, [])
  | (uid, did) :: rest =>
      let '(m, r) := ClaimKeyPackage m uid did in
      let '(m, out) := claims m rest in (m, (uid, did, r) :: out)
  end.

(** The id of the single-use package an outcome hands out. *)
Definition single_use (o : string * string * result store_err MLSKeyPackage.t) : option string :=
  match o.2 with
  | Ok kp => if MLSKeyPackage.LastResort kp then None else Some (MLSKeyPackage.ID kp)
  | Err _ => None
  end.

Lemma hasLastResort_true m uid did :
  HasLastResortKeyPackage m uid did = true ↔
  ∃ id kp, Memory.keyPackages m !! id = Some kp ∧ of_device uid did kp = true ∧
    MLSKeyPackage.LastResort kp = true.
Proof.
  unfold HasLastResortKeyPackage. rewrite range_exists_true.
  split; intros (id & kp & H); exists id, kp; rewrite andb_true_iff in *; tauto.
Qed.

Lemma ClaimKeyPackage_keeps_last_resort m uid did uid' did' :
  HasLastResortKeyPackage m uid' did' = true →
  HasLastResortKeyPackage (ClaimKeyPackage m uid did).1 uid' did' = true.
Proof.
  rewrite !hasLastResort_true. intros (id & kp & Hk & Hd & Hl).
  destruct (ClaimKeyPackage_spec m uid did) as [(id0 & kp0 & -> & Hk0 & Hd0 & Hl0)|[(? & ? & -> & _)|[-> _]]];
    [|by exists id, kp..].
  exists id, kp. cbn. rewrite lookup_delete_ne; [done|]. intros ->. congruence.
Qed.

Lemma ClaimKeyPackage_Keyed m uid did : Keyed m → Keyed (ClaimKeyPackage m uid did).1.
Proof.
  intros H. destruct (ClaimKeyPackage_spec m uid did) as [(id & kp & -> & _)|[(? & ? & -> & _)|[-> _]]];
    [|done..]. keyed_tac.
Qed.

Lemma claims_subset m l m' out o id :
  Keyed m → claims m l = (m', out) → o ∈ out → single_use o = Some id →
  is_Some (Memory.keyPackages m !! id).
Proof.
  revert m m' out. induction l as [|[uid did] l IH]; intros m m' out HK.
  { intros [= <- <-] Ho%elem_of_nil. done. }
  cbn [claims]. pose proof (ClaimKeyPackage_Keyed m uid did HK) as HK1.
  pose proof (ClaimKeyPackage_spec m uid did) as Hs.
  destruct (ClaimKeyPackage m uid did) as [m1 r]. destruct (claims m1 l) as [m2 out2] eqn:E2.
  intros [= <- <-] [->|Ho]%elem_of_cons Hid.
  - unfold single_use in Hid. cbn [snd] in Hid. destruct r as [kp|]; [|done].
    destruct (MLSKeyPackage.LastResort kp); [done|]. injection Hid as <-.
    destruct Hs as [(k & kp0 & [= -> ->] & Hk & _)|[(k & kp0 & [= -> ->] & Hk & _)|[[=] _]]];
      by rewrite (keyed_keyPackages _ HK _ _ Hk), Hk.
  - specialize (IH m1 m2 out2 HK1 E2 Ho Hid) as [kp Hkp].
    destruct Hs as [(k & kp0 & [= -> ->] & Hk & _)|[(k & kp0 & [= -> ->] & Hk & _)|[[= -> ->] _]]];
      [|by eauto..].
    cbn in Hkp. apply lookup_delete_Some in Hkp as [_ ?]. eauto.
Qed.
End KeyPackages.

(** C25. No KeyPackage is handed out twice, and no device becomes unreachable:
    over any sequence of claims by any callers, in any order of visiting the
    table, the single-use packages handed out are pairwise distinct, and a
    device that has a last-resort package is never refused. *)
Theorem claims_single_use {B} {RO : RangeOrder} (m : Memory.t B) l m' out :
  Keyed m → claims m l = (m', out) →
  NoDup (omap single_use out) ∧
  ∀ uid did e, HasLastResortKeyPackage m uid did = true → (uid, did, Err e) ∉ out.
Proof.
  revert m m' out. induction l as [|[uid did] l IH]; intros m m' out HK.
  { intros [= <- <-]. split; [constructor | by intros ? ? ? _ ?%elem_of_nil]. }
  cbn [claims]. pose proof (ClaimKeyPackage_Keyed m uid did HK) as HK1.
  pose proof (ClaimKeyPackage_spec m uid did) as Hs.
  pose proof (fun u d => ClaimKeyPackage_keeps_last_resort m uid did u d) as Hlr.
  destruct (ClaimKeyPackage m uid did) as [m1 r]. destruct (claims m1 l) as [m2 out2] eqn:E2.
  intros [= <- <-]. destruct (IH m1 m2 out2 HK1 E2) as [Hnd Hne]. cbn [fst] in *. split.
  - cbn [omap list_omap]. destruct (single_use (uid, did, r)) as [id|] eqn:Hid; [|done].
    constructor; [|done]. intros (o & Ho & Hso)%list_elem_of_omap.
    destruct (claims_subset m1 l m2 out2 o id HK1 E2 Ho Hso) as [x Hx].
    unfold single_use in Hid. cbn [snd] in Hid. destruct r as [kp|]; [|done].
    destruct (MLSKeyPackage.LastResort kp) eqn:El; [done|]. injection Hid as <-.
    destruct Hs as [(k & kp0 & [= -> ->] & Hk & _)|[(k & kp0 & [= -> ->] & _ & _ & Hl & _)|[[=] _]]];
      [|congruence].
    cbn in Hx. by rewrite (keyed_keyPackages _ HK _ _ Hk), lookup_delete_eq in Hx.
  - intros u d e Hh [Heq|Hin]%elem_of_cons; [|by eapply Hne; eauto].
    injection Heq as -> -> <-.
    destruct Hs as [(k & kp0 & [=] & _)|[(k & kp0 & [=] & _)|[[= -> ->] Hn]]].
    apply hasLastResort_true in Hh as (id & kp & Hk & Hd & _). by rewrite (Hn _ _ Hk) in Hd.
Qed.

Definition sample_package (id uid did : string) (last : bool) : MLSKeyPackage.t :=
  MLSKeyPackage.mk id uid did "" zero_time last.
Definition sample_packages : Memory.t unit :=
  (AddKeyPackages (RO := order_fwd) (Memory.NewMemory None) (sample_ids "n")
    [sample_package "p" "u" "d" false; sample_package "l" "u" "d" true;
     sample_package "k" "u" "d" true]).1.

Lemma add_key_package_Keyed {B} {RO : RangeOrder} (m : Memory.t B) nid kp :
  Keyed m → Keyed (add_key_package m nid kp).
Proof. intros H. unfold add_key_package. destruct (_ && _); [done|]. keyed_tac. Qed.

Lemma add_key_packages_Keyed {B} {RO : RangeOrder} (m : Memory.t B) fresh i l :
  Keyed m → Keyed (add_key_packages m fresh i l).
Proof.
  revert m i. induction l as [|kp l IH]; intros m i H; [done|]. cbn [add_key_packages].
  apply IH. by apply add_key_package_Keyed.
Qed.

Lemma claims_single_use_witness :
  let '(m', out) := claims (RO := order_bwd) sample_packages [("u", "d"); ("u", "d"); ("u", "d")] in
  omap single_use out = ["p"] ∧ NoDup (omap single_use out) ∧
  ∀ uid did e, HasLastResortKeyPackage (RO := order_bwd) sample_packages uid did = true →
    (uid, did, Err e) ∉ out.
Proof.
  assert (Keyed sample_packages) as HK
    by (apply (add_key_packages_Keyed (RO := order_fwd)); apply Keyed_NewMemory).
  destruct (claims (RO := order_bwd) sample_packages _) as [m' out] eqn:E.
  pose proof (claims_single_use (RO := order_bwd) sample_packages _ m' out HK E) as H.
  split; [|exact H]. vm_compute in E. injection E as <- <-. reflexivity.
Defined.

(** At most one last-resort package per device. *)
Definition one_last_resort {B} (m : Memory.t B) : Prop :=
  ∀ id id' kp kp' uid did, Memory.keyPackages m !! id = Some kp → Memory.keyPackages m !! id' = Some kp' →
  of_device uid did kp = true → of_device uid did kp' = true →
  MLSKeyPackage.LastResort kp = true → MLSKeyPackage.LastResort kp' = true → id = id'.

(** However many publishes race, and whatever is claimed or withdrawn in
    between, a device never has two last-resort packages. *)
Lemma AddKeyPackages_one_last_resort {B} {RO : RangeOrder} (m : Memory.t B) fresh packages uid did :
  one_last_resort m →
  one_last_resort (AddKeyPackages m fresh packages).1 ∧
  one_last_resort (ClaimKeyPackage m uid did).1 ∧
  one_last_resort (DeleteKeyPackages m uid did).1.
Proof.
  intros H1. split_and!.
  - unfold AddKeyPackages. cbn [fst]. generalize 0%nat. revert m H1.
    induction packages as [|kp l IH]; intros m H1 i; [done|]. cbn [add_key_packages]. apply IH.
    unfold add_key_package. destruct (_ && _) eqn:E; [done|].
    intros k1 k2 x1 x2 u d. cbn. rewrite !lookup_insert.
    assert (∀ k x, Memory.keyPackages m !! k = Some x → of_device u d kp = true →
      of_device u d x = true → MLSKeyPackage.LastResort kp = true → MLSKeyPackage.LastResort x = true → False) as Hc.
    { intros k x Hk Hkp Hx Hlk Hlx. rewrite Hlk in E. simpl in E.
      apply of_device_true in Hkp as [Hu Hd]. rewrite Hu, Hd in E.
      unfold hasLastResortLocked in E. rewrite range_exists_false in E.
      specialize (E _ _ Hk). by rewrite Hx, Hlx in E. }
    repeat case_decide; subst; [done| | |apply H1].
    + intros [= <-] H2 Ho1 Ho2 Hl1 Hl2. destruct (Hc _ _ H2 Ho1 Ho2 Hl1 Hl2).
    + intros H2 [= <-] Ho1 Ho2 Hl1 Hl2. destruct (Hc _ _ H2 Ho2 Ho1 Hl2 Hl1).
  - destruct (ClaimKeyPackage_spec m uid did) as [(id & kp & -> & _)|[(? & ? & -> & _)|[-> _]]]; [|done..].
    intros k1 k2 x1 x2 u d. cbn. rewrite !lookup_delete_Some. intros [_ ?] [_ ?]. by apply H1.
  - intros k1 k2 x1 x2 u d. unfold DeleteKeyPackages. cbn. rewrite !range_delete_Some.
    intros [? _] [? _]. by apply H1.
Qed.

(** ** GroupInfo and catching up *)

(** The GroupInfo on record for a conversation, of its current group. *)
Definition info_epoch {B} (m : Memory.t B) (cid : string) : option Z :=
  match Memory.conversations m !! cid, Memory.mlsGroupInfo m !! cid with
  | Some c, Some gi =>
      if MLSGroupInfo.GroupID gi == MLSGroupState.GroupID (Conversation.MLS c)
      then Some (MLSGroupInfo.Epoch gi) else None
  | _, _ => None
  end.

(** A joiner is never handed material that cannot work: what the store
    returns is of the current group and at least at its epoch; and a late or
    misdirected publication never replaces newer material of that group. *)
Theorem GroupInfo_current {B} (m : Memory.t B) cid gid epoch info c :
  Memory.conversations m !! cid = Some c →
  (∀ gi, MLSGroupInfo_ m cid = Ok gi →
     MLSGroupInfo.GroupID gi = MLSGroupState.GroupID (Conversation.MLS c) ∧
     MLSGroupState.Epoch (Conversation.MLS c) ≤ MLSGroupInfo.Epoch gi ∧
     MLSGroupInfo.GroupInfo gi ≠ "") ∧
  (let m' := (SetMLSGroupInfo m cid gid epoch info).1 in
   (∀ e, info_epoch m cid = Some e → ∃ e', info_epoch m' cid = Some e' ∧ e ≤ e') ∧
   (gid ≠ MLSGroupState.GroupID (Conversation.MLS c) → m' = m) ∧
   (∀ cid', cid' ≠ cid → Memory.mlsGroupInfo m' !! cid' = Memory.mlsGroupInfo m !! cid')).
Proof.
  intros Hc. split.
  - intros gi. unfold MLSGroupInfo_. rewrite Hc. destruct (Memory.mlsGroupInfo m !! cid) as [gi'|]; [|done].
    destruct (slen _ =? 0) eqn:Hl; [done|]. destruct (_ || _) eqn:E; [done|]. intros [= <-].
    apply Z.eqb_neq in Hl. bool_hyps. split_and!; [done | done |]. intros Hnil. by rewrite Hnil in Hl.
  - cbn zeta. unfold SetMLSGroupInfo. rewrite Hc.
    destruct (bool_decide_reflect (MLSGroupState.GroupID (Conversation.MLS c) = gid)) as [<-|Hg]; simpl;
      [|split_and!; [intros e He; exists e; split; [done|lia] | done | done]].
    split_and!; [|done|].
    + intros e. unfold info_epoch. rewrite Hc. destruct (Memory.mlsGroupInfo m !! cid) as [cur|] eqn:Ei; [|done].
      destruct (bool_decide_reflect (MLSGroupInfo.GroupID cur = MLSGroupState.GroupID (Conversation.MLS c)))
        as [Hcur|]; [|done].
      intros [= <-]. simpl. destruct (Z.leb_spec epoch (MLSGroupInfo.Epoch cur)); simpl.
      * rewrite Hc, Ei, bool_decide_true by done. by eexists.
      * rewrite Hc, lookup_insert_eq. simpl. rewrite bool_decide_true by done.
        eexists. split; [done|lia].
    + intros cid' Hne. destruct (Memory.mlsGroupInfo m !! cid) as [cur|]; [destruct (_ && _); [done|]|];
        simpl; by rewrite lookup_insert_ne.
Qed.

Lemma GroupInfo_current_witness :
  let c := (sample_conversation "c") <| Conversation.MLS := MLSGroupState.mk "g" 3 [] "" |> in
  let m : Memory.t unit := (Memory.NewMemory None)
    <| Memory.conversations := {["c" := c]} |>
    <| Memory.mlsGroupInfo := {["c" := MLSGroupInfo.mk "g" 3 "x"]} |> in
  ∃ e', info_epoch (SetMLSGroupInfo m "c" "g" 2 "old").1 "c" = Some e' ∧ 3 ≤ e'.
Proof.
  intros c m.
  destruct (GroupInfo_current m "c" "g" 2 "old" c eq_refl) as [_ [H _]].
  exact (H 3 eq_refl).
Defined.
