(* ===== verification/StoreBackup.v ===== *)
(** * Package store: key backups, MLS devices, revocations

    The rest of [store_memory_keypackages.go]: the encrypted backup of an
    account's keys with its earlier versions and its append-only tail, the
    registry of MLS devices, and the revocations of sessions and tokens. *)

From S2P Require Import Prelude.
From S2P Require Import GoStrings.
From S2P Require Import Domain.
From S2P Require Import StoreState.

(** The identity of a message body in a tail. *)
Definition same_body (x y : MLSKeyBackupTailEntry.t) : bool :=
  (MLSKeyBackupTailEntry.ConversationID x == MLSKeyBackupTailEntry.ConversationID y)
  && (MLSKeyBackupTailEntry.MessageID x == MLSKeyBackupTailEntry.MessageID y).

(** [entry.ID = id] *)
Definition with_id (id : string) (entry : MLSKeyBackupTailEntry.t) : MLSKeyBackupTailEntry.t :=
  entry <| MLSKeyBackupTailEntry.ID := id |>.

(** The inner loop of [AppendKeyBackupTail]: the first entry that holds the
    same body is replaced under its own id; [None] when there is none. *)
Fixpoint replace_body (entry : MLSKeyBackupTailEntry.t) (existing : list MLSKeyBackupTailEntry.t)
  : option (list MLSKeyBackupTailEntry.t) :=
  match existing with
  | [] => None
  | held :: rest =>
      if same_body held entry
      then Some (with_id (MLSKeyBackupTailEntry.ID held) entry :: rest)
      else cons held <$> replace_body entry rest
  end.

Section Backup.
Context {B : Type} {RO : RangeOrder}.
Implicit Types (m : Memory.t B) (userID deviceID : string).

(** ** Key backups *)

Definition PutKeyBackup m (nid : string) (backup : MLSKeyBackup.t) : memory_op B unit :=
  let backup := backup <| MLSKeyBackup.ID := or_fresh (MLSKeyBackup.ID backup) nid |> in
  (m <| Memory.keyBackups := <[MLSKeyBackup.UserID backup := backup]> (Memory.keyBackups m) |>, Ok tt).

Definition GetKeyBackup m userID : result store_err MLSKeyBackup.t :=
  match Memory.keyBackups m !! userID with Some b => Ok b | None => Err ErrNotFound end.

(** A missing key of a map of slices reads as the nil slice. *)
Definition versions_of m userID : list MLSKeyBackup.t :=
  default [] (Memory.keyBackupVersions m !! userID).

Definition ArchiveKeyBackup m (nid : string) (backup : MLSKeyBackup.t) (keep : Z)
  : memory_op B (list MLSKeyBackup.t) :=
  let backup := backup <| MLSKeyBackup.ID := or_fresh (MLSKeyBackup.ID backup) nid |> in
  let versions := backup :: versions_of m (MLSKeyBackup.UserID backup) in
  let '(pruned, versions) :=
    if (0 <=? keep) && (keep <? Z.of_nat (length versions))
    then (drop (Z.to_nat keep) versions, take (Z.to_nat keep) versions) else ([], versions) in
  (m <| Memory.keyBackupVersions :=
     <[MLSKeyBackup.UserID backup := versions]> (Memory.keyBackupVersions m) |>, Ok pruned).

Definition ListKeyBackupVersions m userID : list MLSKeyBackup.t := versions_of m userID.

Definition KeyBackupVersion m userID (versionID : string) : result store_err MLSKeyBackup.t :=
  match list_find (fun v => Is_true (MLSKeyBackup.ID v == versionID)) (versions_of m userID) with
  | Some (_, v) => Ok v
  | None => Err ErrNotFound
  end.

(** ** The append-only tail *)

Definition tail_of m userID : list MLSKeyBackupTailEntry.t :=
  default [] (Memory.keyBackupTail m !! userID).

Definition append_tail_entry m (nid : string) (entry : MLSKeyBackupTailEntry.t) : Memory.t B :=
  let entry := with_id (or_fresh (MLSKeyBackupTailEntry.ID entry) nid) entry in
  let existing := tail_of m (MLSKeyBackupTailEntry.UserID entry) in
  let existing := match replace_body entry existing with
                  | Some l => l | None => existing ++ [entry] end in
  m <| Memory.keyBackupTail :=
    <[MLSKeyBackupTailEntry.UserID entry := existing]> (Memory.keyBackupTail m) |>.

Fixpoint append_tail m (fresh : nat → string) (i : nat) (entries : list MLSKeyBackupTailEntry.t)
  : Memory.t B :=
  match entries with
  | [] => m
  | entry :: rest => append_tail (append_tail_entry m (fresh i) entry) fresh (S i) rest
  end.

Definition AppendKeyBackupTail m (fresh : nat → string) (entries : list MLSKeyBackupTailEntry.t)
  : memory_op B unit := (append_tail m fresh 0 entries, Ok tt).

(** [sort.SliceStable] *)
Definition ListKeyBackupTail m userID : list MLSKeyBackupTailEntry.t :=
  sort_slice (oldest MLSKeyBackupTailEntry.CreatedAt) (tail_of m userID).

Definition TruncateKeyBackupTail m userID (before : time) : memory_op B Z :=
  let gone entry := Before (MLSKeyBackupTailEntry.CreatedAt entry) before in
  let kept := filter (fun entry => Is_true (negb (gone entry))) (tail_of m userID) in
  let removed := length (filter (fun entry => Is_true (gone entry)) (tail_of m userID)) in
  (m <| Memory.keyBackupTail := <[userID := kept]> (Memory.keyBackupTail m) |>, Ok (Z.of_nat removed)).

Definition CountKeyBackupTail m userID : Z := Z.of_nat (length (tail_of m userID)).

(** ** MLS devices *)

Definition refresh_mls_device (existing d : MLSDevice.t) : MLSDevice.t :=
  let existing := existing <| MLSDevice.Label := MLSDevice.Label d |>
                           <| MLSDevice.LastSeenAt := MLSDevice.LastSeenAt d |> in
  if MLSDevice.SessionID d != ""
  then existing <| MLSDevice.SessionID := MLSDevice.SessionID d |> else existing.

Definition UpsertMLSDevice m (nid : string) (d : MLSDevice.t) : memory_op B unit :=
  let key := mlsDeviceKey (MLSDevice.UserID d) (MLSDevice.DeviceID d) in
  let row := match Memory.mlsDevices m !! key with
             | Some existing => refresh_mls_device existing d
             | None => d <| MLSDevice.ID := or_fresh (MLSDevice.ID d) nid |>
             end in
  (m <| Memory.mlsDevices := <[key := row]> (Memory.mlsDevices m) |>, Ok tt).

Definition ListMLSDevices m userID : list MLSDevice.t :=
  sort_slice (newest MLSDevice.LastSeenAt)
    (range_filter (fun d => MLSDevice.UserID d == userID) (Memory.mlsDevices m)).

Definition DeleteMLSDevice m userID deviceID : memory_op B unit :=
  (m <| Memory.mlsDevices := delete (mlsDeviceKey userID deviceID) (Memory.mlsDevices m) |>, Ok tt).

Definition RevokeMLSDevice m userID deviceID (at_ : time) : memory_op B unit :=
  let key := mlsDeviceKey userID deviceID in
  match Memory.mlsDevices m !! key with
  | None => (m, Err ErrNotFound)
  | Some d =>
      (m <| Memory.mlsDevices := <[key := d <| MLSDevice.RevokedAt := Some at_ |>]>
              (Memory.mlsDevices m) |>, Ok tt)
  end.

(** [out[user] = append(out[user], device)] *)
Definition collect_revoked (userIDs : list string) (out : gmap string (list string)) (d : MLSDevice.t)
  : gmap string (list string) :=
  match MLSDevice.RevokedAt d with
  | None => out
  | Some _ =>
      if bool_decide (MLSDevice.UserID d ∈ userIDs)
      then <[MLSDevice.UserID d :=
               default [] (out !! MLSDevice.UserID d) ++ [MLSDevice.DeviceID d]]> out
      else out
  end.

Definition RevokedDeviceIDs m (userIDs : list string) : gmap string (list string) :=
  range_fold (collect_revoked userIDs) ∅ (Memory.mlsDevices m).

(** ** Revocations *)

Definition RevokeUserTokensBefore m userID (cutoff expiresAt : time) : memory_op B unit :=
  (m <| Memory.revokedUsers :=
     <[userID := userRevocation.mk cutoff expiresAt]> (Memory.revokedUsers m) |>, Ok tt).

Definition ActiveUserRevocations m (now : time) : gmap string time :=
  foldl (fun out ur =>
    if After (userRevocation.ExpiresAt ur.2) now
    then <[ur.1 := userRevocation.Cutoff ur.2]> out else out) ∅ (go_range (Memory.revokedUsers m)).

Definition RevokeSession m (sessionID : string) (expiresAt : time) : memory_op B unit :=
  (m <| Memory.revokedSessions := <[sessionID := expiresAt]> (Memory.revokedSessions m) |>, Ok tt).

Definition ActiveRevokedSessions m (now : time) : list string :=
  (filter (fun se => Is_true (After se.2 now)) (go_range (Memory.revokedSessions m))).*1.
End Backup.

(** ** Lemmas: tables *)

Section Tables.
Context {B : Type} {RO : RangeOrder}.
Implicit Types (m : Memory.t B).

Lemma refresh_mls_device_ids x d :
  MLSDevice.UserID (refresh_mls_device x d) = MLSDevice.UserID x ∧
  MLSDevice.DeviceID (refresh_mls_device x d) = MLSDevice.DeviceID x ∧
  MLSDevice.RevokedAt (refresh_mls_device x d) = MLSDevice.RevokedAt x.
Proof. unfold refresh_mls_device. by case_match. Qed.

Lemma UpsertMLSDevice_Keyed m nid d : Keyed m → Keyed (UpsertMLSDevice m nid d).1.
Proof.
  intros H. unfold UpsertMLSDevice. destruct H; split; cbn; try assumption.
  apply keyed_insert_at; [done|].
  destruct (Memory.mlsDevices m !! _) as [x|] eqn:E; [|done].
  destruct (refresh_mls_device_ids x d) as (-> & -> & _). by apply keyed_mlsDevices in E.
Qed.

Lemma RevokeMLSDevice_Keyed m uid did at_ : Keyed m → Keyed (RevokeMLSDevice m uid did at_).1.
Proof.
  intros H. unfold RevokeMLSDevice. destruct (Memory.mlsDevices m !! _) as [x|] eqn:E; [|done]. keyed_tac.
Qed.

Lemma DeleteMLSDevice_Keyed m uid did : Keyed m → Keyed (DeleteMLSDevice m uid did).1.
Proof. intros H. unfold DeleteMLSDevice. keyed_tac. Qed.

Lemma PutKeyBackup_Keyed m nid b : Keyed m → Keyed (PutKeyBackup m nid b).1.
Proof. intros H. unfold PutKeyBackup. keyed_tac. Qed.

Lemma append_tail_Keyed m fresh i l : Keyed m → Keyed (append_tail m fresh i l).
Proof.
  revert m i. induction l as [|e l IH]; intros m i H; [done|]. cbn [append_tail]. apply IH.
  unfold append_tail_entry. keyed_tac.
Qed.
End Tables.

(** ** The tail is idempotent *)

Section Tail.
Context {B : Type}.
Implicit Types (m : Memory.t B) (e x : MLSKeyBackupTailEntry.t) (l : list MLSKeyBackupTailEntry.t).

(** Account, conversation and message: what one body is held under. *)
Definition body_key e : string * string * string :=
  (MLSKeyBackupTailEntry.UserID e, MLSKeyBackupTailEntry.ConversationID e,
   MLSKeyBackupTailEntry.MessageID e).

Definition first_body e l : option MLSKeyBackupTailEntry.t :=
  snd <$> list_find (fun x => Is_true (same_body x e)) l.

(** The tail of the account holds [e], under some id, as the body of its message. *)
Definition holds_body m e : Prop :=
  ∃ id, first_body e (tail_of m (MLSKeyBackupTailEntry.UserID e)) = Some (with_id id e).

Lemma first_body_cons e x l :
  first_body e (x :: l) = if same_body x e then Some x else first_body e l.
Proof.
  unfold first_body. cbn [list_find]. destruct (same_body x e) eqn:E.
  - rewrite decide_True by done. done.
  - rewrite decide_False by (by intros []). by destruct (list_find _ l) as [[]|].
Qed.

Lemma same_body_refl e : same_body e e = true.
Proof. unfold same_body. by rewrite !bool_decide_true. Qed.

Lemma same_body_true x e :
  same_body x e = true ↔
  MLSKeyBackupTailEntry.ConversationID x = MLSKeyBackupTailEntry.ConversationID e ∧
  MLSKeyBackupTailEntry.MessageID x = MLSKeyBackupTailEntry.MessageID e.
Proof. unfold same_body. by rewrite andb_true_iff, !bool_decide_eq_true. Qed.

Lemma replace_body_None e l : replace_body e l = None ↔ first_body e l = None.
Proof.
  induction l as [|x l IH]; [done|]. rewrite first_body_cons. cbn [replace_body].
  destruct (same_body x e); [done|]. by rewrite fmap_None.
Qed.

Lemma first_body_replaced e l l' :
  replace_body e l = Some l' → ∃ id, first_body e l' = Some (with_id id e).
Proof.
  revert l'. induction l as [|x l IH]; intros l'; [done|]. cbn [replace_body].
  destruct (same_body x e) eqn:E.
  - intros [= <-]. rewrite first_body_cons.
    assert (same_body (with_id (MLSKeyBackupTailEntry.ID x) e) e = true) as ->
      by exact (same_body_refl e). by eexists.
  - intros (l2 & Hl & ->)%fmap_Some. rewrite first_body_cons, E. by apply IH.
Qed.

Lemma replace_body_held e l id :
  first_body e l = Some (with_id id e) → replace_body e l = Some l.
Proof.
  induction l as [|x l IH]; [done|]. rewrite first_body_cons. cbn [replace_body].
  destruct (same_body x e); [by intros [= ->]|]. intros H. by rewrite IH.
Qed.

(** Writing one body leaves the others as they were. *)
Lemma first_body_other e e' l l' :
  same_body e e' = false → replace_body e l = Some l' → first_body e' l' = first_body e' l.
Proof.
  intros Hne. revert l'. induction l as [|x l IH]; intros l'; [done|]. cbn [replace_body].
  destruct (same_body x e) eqn:E.
  - intros [= <-]. rewrite !first_body_cons.
    assert (same_body x e' = false) as ->.
    { apply not_true_iff_false. rewrite same_body_true. intros [Hc Hm].
      apply same_body_true in E as [Hc' Hm']. apply not_true_iff_false in Hne. apply Hne.
      rewrite same_body_true. split; congruence. }
    assert (same_body (with_id (MLSKeyBackupTailEntry.ID x) e) e' = false) as ->
      by exact Hne. done.
  - intros (l2 & Hl & ->)%fmap_Some. rewrite !first_body_cons. by rewrite (IH l2).
Qed.

Lemma first_body_app e l x :
  first_body e (l ++ [x]) =
  match first_body e l with Some y => Some y | None => if same_body x e then Some x else None end.
Proof.
  induction l as [|y l IH]; [cbn [app]; by rewrite first_body_cons|]. rewrite <- app_comm_cons, !first_body_cons.
  destruct (same_body y e); [done | exact IH].
Qed.

Lemma tail_of_append m nid e u :
  tail_of (append_tail_entry m nid e) u =
  if bool_decide (MLSKeyBackupTailEntry.UserID e = u)
  then default (tail_of m u ++ [with_id (or_fresh (MLSKeyBackupTailEntry.ID e) nid) e])
         (replace_body (with_id (or_fresh (MLSKeyBackupTailEntry.ID e) nid) e) (tail_of m u))
  else tail_of m u.
Proof.
  unfold tail_of, append_tail_entry. cbn. fold (tail_of m (MLSKeyBackupTailEntry.UserID e)).
  case_bool_decide as Hu; [subst; rewrite lookup_insert_eq | by rewrite lookup_insert_ne].
  cbn. unfold with_id. cbn. by destruct (replace_body _ _).
Qed.

(** The id an entry arrives with plays no part in finding its body. *)
Lemma first_body_id id e l : first_body (with_id id e) l = first_body e l.
Proof. done. Qed.

Lemma append_holds m nid e : holds_body (append_tail_entry m nid e) e.
Proof.
  unfold holds_body. rewrite tail_of_append, bool_decide_true by done.
  set (e1 := with_id _ e). destruct (replace_body e1 _) as [l'|] eqn:E; cbn [from_option Datatypes.id].
  - destruct (first_body_replaced _ _ _ E) as [id Hid]. exists id. exact Hid.
  - apply replace_body_None in E. rewrite first_body_app.
    rewrite <- (first_body_id (or_fresh (MLSKeyBackupTailEntry.ID e) nid) e).
    fold e1. rewrite E. assert (same_body e1 e = true) as -> by exact (same_body_refl e).
    by eexists.
Qed.

Lemma append_keeps m nid e e' :
  body_key e ≠ body_key e' → holds_body m e' → holds_body (append_tail_entry m nid e) e'.
Proof.
  intros Hk [id Hid]. exists id. rewrite tail_of_append. case_bool_decide as Hu; [|done].
  set (e1 := with_id _ e).
  assert (same_body e1 e' = false) as Hne.
  { apply not_true_iff_false. intros [Hc Hm]%same_body_true. apply Hk. unfold body_key.
    cbn in Hc, Hm. congruence. }
  destruct (replace_body e1 _) as [l'|] eqn:E; cbn [from_option Datatypes.id].
  - by rewrite (first_body_other _ _ _ _ Hne E).
  - by rewrite first_body_app, Hid.
Qed.

(** Writing a body that is held already changes nothing at all. *)
Lemma append_held m nid e : holds_body m e → append_tail_entry m nid e = m.
Proof.
  intros [id Hid]. unfold append_tail_entry. cbn.
  rewrite (replace_body_held _ _ id).
  - destruct m. cbn in *. f_equal. apply insert_id. unfold tail_of in *. cbn in *.
    destruct (keyBackupTail !! _) as [l|]; [done|]. done.
  - exact Hid.
Qed.

Lemma append_tail_holds m fresh i l e :
  NoDup (body_key <$> l) → e ∈ l → holds_body (append_tail m fresh i l) e.
Proof.
  assert (∀ l m i, holds_body m e → body_key e ∉ body_key <$> l → holds_body (append_tail m fresh i l) e)
    as Hkeep.
  { clear. intros l. induction l as [|x l IH]; intros m i H; [done|].
    rewrite fmap_cons, not_elem_of_cons. intros [Hne Hl]. cbn [append_tail]. apply IH; [|done].
    by apply append_keeps. }
  revert m i. induction l as [|x l IH]; intros m i; [by intros _ ?%elem_of_nil|].
  rewrite fmap_cons, NoDup_cons. intros [Hx Hnd] [->|Hin]%elem_of_cons; cbn [append_tail]; [|by apply IH].
  apply Hkeep; [apply append_holds | done].
Qed.

Lemma append_tail_held m fresh i l :
  (∀ e, e ∈ l → holds_body m e) → append_tail m fresh i l = m.
Proof.
  revert i. induction l as [|x l IH]; intros i H; [done|]. cbn [append_tail].
  rewrite append_held by (apply H; by left). apply IH. intros e He. apply H. by right.
Qed.
End Tail.

(** Retrying an append whose answer was lost changes nothing: after the
    first attempt every body is held, and a second attempt with the same
    entries (and ids drawn anew) leaves the store exactly as it was. *)
Theorem backup_tail_retry {B} (m : Memory.t B) fresh fresh' entries :
  NoDup (body_key <$> entries) →
  let m1 := (AppendKeyBackupTail m fresh entries).1 in
  (∀ e, e ∈ entries → holds_body m1 e) ∧ (AppendKeyBackupTail m1 fresh' entries).1 = m1.
Proof.
  intros Hnd m1. assert (∀ e, e ∈ entries → holds_body m1 e) as H
    by (intros e He; by apply append_tail_holds).
  split; [exact H|]. by apply append_tail_held.
Qed.

Definition sample_body (uid cid mid : string) (at_ : time) : MLSKeyBackupTailEntry.t :=
  MLSKeyBackupTailEntry.mk "" uid "d" cid mid "" "" "x" at_.

Lemma backup_tail_retry_witness :
  let entries := [sample_body "u" "c" "1" 5; sample_body "u" "c" "2" 6] in
  let m1 := (AppendKeyBackupTail (B := unit) (Memory.NewMemory None) (fun _ => "a") entries).1 in
  (AppendKeyBackupTail m1 (fun _ => "b") entries).1 = m1 ∧ CountKeyBackupTail m1 "u" = 2.
Proof.
  intros entries m1. split; [|reflexivity].
  apply (backup_tail_retry (Memory.NewMemory None) (fun _ => "a") (fun _ => "b") entries).
  apply (bool_decide_unpack _). vm_compute. exact I.
Defined.

(** Archiving a backup pushes it in front of the earlier versions and
    prunes from the old end: kept and pruned versions together are the new
    one followed by all the earlier ones, in order; at most [keep] are kept;
    the versions of other accounts are untouched. *)
Theorem ArchiveKeyBackup_prunes_oldest {B} (m : Memory.t B) nid backup keep :
  0 ≤ keep →
  let uid := MLSKeyBackup.UserID backup in
  let backup' := backup <| MLSKeyBackup.ID := or_fresh (MLSKeyBackup.ID backup) nid |> in
  ∃ m' pruned, ArchiveKeyBackup m nid backup keep = (m', Ok pruned) ∧
    ListKeyBackupVersions m' uid ++ pruned = backup' :: ListKeyBackupVersions m uid ∧
    Z.of_nat (length (ListKeyBackupVersions m' uid)) ≤ keep ∧
    ∀ u, u ≠ uid → ListKeyBackupVersions m' u = ListKeyBackupVersions m u.
Proof.
  intros Hk uid backup'. unfold ArchiveKeyBackup. cbn zeta. fold backup'.
  change (MLSKeyBackup.UserID backup') with uid.
  set (vs := backup' :: versions_of m uid).
  assert (∀ l, ListKeyBackupVersions (m <| Memory.keyBackupVersions := <[uid := l]> (Memory.keyBackupVersions m) |>) uid = l) as Hl.
  { intros l. unfold ListKeyBackupVersions, versions_of. cbn. by rewrite lookup_insert_eq. }
  assert (∀ l u, u ≠ uid → ListKeyBackupVersions (m <| Memory.keyBackupVersions := <[uid := l]> (Memory.keyBackupVersions m) |>) u
          = ListKeyBackupVersions m u) as Ho.
  { intros l u Hu. unfold ListKeyBackupVersions, versions_of. cbn. by rewrite lookup_insert_ne. }
  rewrite (proj2 (Z.leb_le 0 keep)) by done. cbn [andb].
  destruct (Z.ltb_spec keep (Z.of_nat (length vs))) as [Hlt|Hge];
    eexists _, _; (split; [done|]); rewrite Hl; split_and!; auto.
  - apply take_drop.
  - rewrite length_take. lia.
  - by rewrite app_nil_r.
Qed.

Lemma ArchiveKeyBackup_prunes_oldest_witness :
  let b := MLSKeyBackup.zero <| MLSKeyBackup.UserID := "u" |> in
  let m := (ArchiveKeyBackup (B := unit) (Memory.NewMemory None) "1" b 1).1 in
  ∃ m' pruned, ArchiveKeyBackup m "2" b 1 = (m', Ok pruned) ∧
    Z.of_nat (length (ListKeyBackupVersions m' "u")) ≤ 1.
Proof.
  intros b m. destruct (ArchiveKeyBackup_prunes_oldest m "2" b 1) as (m' & pruned & H & _ & Hl & _).
  - discriminate.
  - exists m', pruned. exact (conj H Hl).
Defined.

(** ** A terminated device stays terminated *)

Section Revoked.
Context {B : Type} {RO : RangeOrder}.
Implicit Types (m : Memory.t B) (uid did : string).

Definition revoked m uid did : Prop :=
  ∃ k d at_, Memory.mlsDevices m !! k = Some d ∧ MLSDevice.UserID d = uid ∧
    MLSDevice.DeviceID d = did ∧ MLSDevice.RevokedAt d = Some at_.

Lemma elem_of_collect_step userIDs out x uid did :
  did ∈ default [] (collect_revoked userIDs out x !! uid) ↔
  did ∈ default [] (out !! uid) ∨
  uid ∈ userIDs ∧ MLSDevice.UserID x = uid ∧ MLSDevice.DeviceID x = did ∧
    ∃ at_, MLSDevice.RevokedAt x = Some at_.
Proof.
  unfold collect_revoked. destruct (MLSDevice.RevokedAt x) as [t|].
  2: { split; [by left|]. by intros [?|(_ & _ & _ & ? & [=])]. }
  case_bool_decide as Hw.
  2: { split; [by left|]. intros [?|(? & <- & _)]; done. }
  destruct (decide (MLSDevice.UserID x = uid)) as [<-|Hu].
  - rewrite lookup_insert_eq. cbn. rewrite elem_of_app, list_elem_of_singleton. split.
    + intros [? | ->]; [by left | right; eauto].
    + intros [?|(_ & _ & <- & _)]; auto.
  - rewrite lookup_insert_ne by done. split; [by left|]. by intros [?|(_ & ? & _)].
Qed.

Lemma elem_of_collect_revoked userIDs l out uid did :
  did ∈ default [] (foldl (collect_revoked userIDs) out l !! uid) ↔
  did ∈ default [] (out !! uid) ∨
  uid ∈ userIDs ∧ ∃ d at_, d ∈ l ∧ MLSDevice.UserID d = uid ∧ MLSDevice.DeviceID d = did ∧
    MLSDevice.RevokedAt d = Some at_.
Proof.
  revert out. induction l as [|x l IH]; intros out; cbn [foldl].
  { split; [by left|]. intros [?|(_ & d & at_ & Hd & _)]; [done|]. by apply elem_of_nil in Hd. }
  rewrite IH, elem_of_collect_step. setoid_rewrite elem_of_cons. split.
  - intros [[?|(Hw & Hu & Hd & a & Ha)]|(Hw & d & a & Hin & H)]; [by left|..]; right;
      (split; [done|]); [exists x, a | exists d, a]; auto.
  - intros [?|(Hw & d & a & [->|Hin] & Hu & Hd & Ha)]; [by left; left|..].
    + left; right. eauto 6.
    + right. split; [done|]. by exists d, a.
Qed.

Lemma elem_of_RevokedDeviceIDs m userIDs uid did :
  did ∈ default [] (RevokedDeviceIDs m userIDs !! uid) ↔ uid ∈ userIDs ∧ revoked m uid did.
Proof.
  unfold RevokedDeviceIDs, range_fold.
  rewrite elem_of_collect_revoked, lookup_empty. cbn. unfold revoked. split.
  - intros [Hn|(Hu & d & a & Hd & H)]; [by apply elem_of_nil in Hn|]. split; [done|].
    apply elem_of_go_range_snd in Hd as [k Hk]. by exists k, d, a.
  - intros (Hu & k & d & a & Hk & H). right. split; [done|]. exists d, a.
    split; [apply elem_of_go_range_snd; eauto | done].
Qed.

Definition colon : ascii := ":"%char.

Lemma mlsDeviceKey_inj u d u' d' :
  free_of colon u = true → free_of colon u' = true →
  mlsDeviceKey u d = mlsDeviceKey u' d' → u = u' ∧ d = d'.
Proof. unfold mlsDeviceKey. exact (append_sep_inj colon u d u' d'). Qed.

(** Account ids carry no colon: they are hexadecimal. *)
Definition plain_owners m : Prop :=
  ∀ k d, Memory.mlsDevices m !! k = Some d → free_of colon (MLSDevice.UserID d) = true.

Lemma revoked_upsert m nid d uid did : revoked m uid did → revoked (UpsertMLSDevice m nid d).1 uid did.
Proof.
  intros (k & x & a & Hk & Hu & Hd & Ha). unfold revoked, UpsertMLSDevice. cbn.
  set (key := mlsDeviceKey _ _). destruct (decide (key = k)) as [<-|Hne].
  - rewrite Hk. exists key, (refresh_mls_device x d), a. rewrite lookup_insert_eq.
    destruct (refresh_mls_device_ids x d) as (-> & -> & ->). done.
  - exists k, x, a. by rewrite lookup_insert_ne.
Qed.
End Revoked.

(** Terminating a device is seen by every later read and is not undone
    by the device checking in again: after [RevokeMLSDevice] succeeds and any
    further registrations of any devices, a listing names the device exactly
    when it asks about the account. *)
Theorem revocation_survives_upsert {B} {RO : RangeOrder} (m : Memory.t B) uid did at_ m1
  (upserts : list (string * MLSDevice.t)) userIDs :
  Keyed m → plain_owners m → free_of colon uid = true →
  RevokeMLSDevice m uid did at_ = (m1, Ok tt) →
  did ∈ default [] (RevokedDeviceIDs
    (foldl (fun m nd => (UpsertMLSDevice m nd.1 nd.2).1) m1 upserts) userIDs !! uid) ↔
  uid ∈ userIDs.
Proof.
  intros HK Hp Hc Hr. rewrite elem_of_RevokedDeviceIDs.
  assert (revoked m1 uid did) as H1.
  { unfold RevokeMLSDevice in Hr. destruct (Memory.mlsDevices m !! _) as [d|] eqn:E; [|done].
    injection Hr as <-. pose proof (keyed_mlsDevices m HK _ _ E) as Hkey. cbn in Hkey.
    apply mlsDeviceKey_inj in Hkey as [Hu Hd]; [|by eapply Hp|done].
    eexists _, _, at_. cbn. rewrite lookup_insert_eq. split_and!; [done | exact Hu | exact Hd | done]. }
  assert (revoked (foldl (fun m nd => (UpsertMLSDevice m nd.1 nd.2).1) m1 upserts) uid did) as H2.
  { clear Hr. revert m1 H1. induction upserts as [|[nid d] l IH]; intros m1 H1; [done|].
    cbn [foldl]. apply IH. by apply revoked_upsert. }
  tauto.
Qed.

Lemma revocation_survives_upsert_witness :
  let d := MLSDevice.mk "1" "u" "d" "" "" 0 0 None in
  let m : Memory.t unit := (Memory.NewMemory None) <| Memory.mlsDevices := {["u:d" := d]} |> in
  let m1 := (RevokeMLSDevice m "u" "d" 7).1 in
  "d" ∈ default [] (RevokedDeviceIDs (RO := order_fwd)
    (foldl (fun m nd => (UpsertMLSDevice m nd.1 nd.2).1) m1 [("2", d)]) ["u"] !! "u") ↔ "u" ∈ ["u"].
Proof.
  intros d m m1. apply (revocation_survives_upsert (RO := order_fwd) m "u" "d" 7 m1 [("2", d)] ["u"]).
  - pose proof (Keyed_NewMemory (B := unit) None) as H. destruct H; split; try assumption.
    apply keyed_insert_at; [apply keyed_empty | reflexivity].
  - intros k x Hk. change (({["u:d" := d]} : gmap string MLSDevice.t) !! k = Some x) in Hk.
    apply lookup_singleton_Some in Hk as [_ <-]. reflexivity.
  - reflexivity.
  - reflexivity.
Defined.
