(* ===== verification/StoreSystem.v ===== *)
(** * Package store: the in-memory store as a transition system

    Every method that writes is a step of the store; [DeleteUser], which
    releases the lock between its phases, contributes its phases. What holds of
    every reachable state, and what the cascades leave behind. *)

From S2P Require Import Prelude.
From S2P Require Import GoStrings.
From S2P Require Import Domain.
From S2P Require Import Threads.
From S2P Require Import Blob.
From S2P Require Import StoreState.
From S2P Require Import StoreUsers.
From S2P Require Import StoreChannels.
From S2P Require Import StoreInvites.
From S2P Require Import StoreDevices.
From S2P Require Import StoreMessages.
From S2P Require Import StoreConversations.
From S2P Require Import StoreMls.
From S2P Require Import StoreBackup.

Create HintDb store_keyed.

Section System.
Context {B : Type} {BS : BlobStore B} {RO : RangeOrder} {U : Unicode}.
Implicit Types (m : Memory.t B).

(** ** Lemmas: the rest of the tables *)

Lemma DeleteKeyPackages_Keyed m uid did : Keyed m → Keyed (DeleteKeyPackages m uid did).1.
Proof. intros H. unfold DeleteKeyPackages. keyed_tac. Qed.

Lemma SetMLSGroupInfo_Keyed m cid gid e info : Keyed m → Keyed (SetMLSGroupInfo m cid gid e info).1.
Proof.
  intros H. unfold SetMLSGroupInfo. destruct (Memory.conversations m !! cid); [|done].
  destruct (_ != gid); [done|]. destruct (Memory.mlsGroupInfo m !! cid); [destruct (_ && _); [done|]|]; keyed_tac.
Qed.

Lemma append_all_Keyed m l m' out : Keyed m → append_all m l = (m', out) → Keyed m'.
Proof.
  revert m m' out. induction l as [|[nid msg] l IH]; intros m m' out H; [by intros [= <- _]|].
  cbn [append_all]. pose proof (append_Keyed m nid msg H) as H1.
  destruct (appendChatMessageLocked m nid msg) as [m1 msg1]. destruct (append_all m1 l) as [m2 o2] eqn:E.
  intros [= <- _]. by eapply IH.
Qed.

Lemma CommitMLSGroup_Keyed m fresh cid gid base msgs :
  Keyed m → Keyed (CommitMLSGroup m fresh cid gid base msgs).1.
Proof.
  intros H. unfold CommitMLSGroup. destruct (Memory.conversations m !! cid) as [c|] eqn:E; [|done].
  destruct (negb _); [done|]. destruct (append_all _ _) as [m2 stored] eqn:Ea. cbn [fst].
  eapply append_all_Keyed; [|exact Ea]. keyed_tac.
Qed.

Lemma ResetMLSGroup_Keyed m cid : Keyed m → Keyed (ResetMLSGroup m cid).1.
Proof.
  intros H. unfold ResetMLSGroup. destruct (Memory.conversations m !! cid) as [c|] eqn:E; [|done].
  destruct (_ == ""); [done|]. keyed_tac.
Qed.

Lemma ArchiveKeyBackup_Keyed m nid b keep : Keyed m → Keyed (ArchiveKeyBackup m nid b keep).1.
Proof. intros H. unfold ArchiveKeyBackup. destruct (_ && _); keyed_tac. Qed.

Lemma TruncateKeyBackupTail_Keyed m uid t : Keyed m → Keyed (TruncateKeyBackupTail m uid t).1.
Proof. intros H. unfold TruncateKeyBackupTail. keyed_tac. Qed.

Lemma revocations_Keyed m id a b :
  Keyed m → Keyed (RevokeUserTokensBefore m id a b).1 ∧ Keyed (RevokeSession m id a).1.
Proof. intros H. split; [unfold RevokeUserTokensBefore | unfold RevokeSession]; keyed_tac. Qed.

(** ** The store as a transition system *)

Inductive store_step m : Memory.t B → Prop :=
| step_CreateUser nid u : store_step m (CreateUser m nid u).1
| step_UpdateUserProfile uid p : store_step m (UpdateUserProfile m uid p).1
| step_SetUserAvatar uid a : store_step m (SetUserAvatar m uid a).1
| step_UpdateUserRole uid r : store_step m (UpdateUserRole m uid r).1
| step_UpdateUserStatus uid s : store_step m (UpdateUserStatus m uid s).1
| step_UpdateUserPassword uid h : store_step m (UpdateUserPassword m uid h).1
| step_DeleteUser_finish uid u ids : store_step m (DeleteUser_finish m uid u ids).1
| step_CreateChannel nid c : store_step m (CreateChannel m nid c).1
| step_SetChannelAlias cid a : store_step m (SetChannelAlias m cid a).1
| step_UpdateChannel cid n md : store_step m (UpdateChannel m cid n md).1
| step_UpdateChannelStatus cid s : store_step m (UpdateChannelStatus m cid s).1
| step_SetChannelAvatar cid a : store_step m (SetChannelAvatar m cid a).1
| step_DeleteChannel cid : store_step m (DeleteChannel m cid).1
| step_AddRemoteSubscription nid now cid p : store_step m (AddRemoteSubscription m nid now cid p).1
| step_CreateAPIKey nid k : store_step m (CreateAPIKey m nid k).1
| step_RevokeAPIKey now k : store_step m (RevokeAPIKey m now k).1
| step_UpsertMember nid mem : store_step m (UpsertMember m nid mem).1
| step_UpdateMemberStatus cid uid s : store_step m (UpdateMemberStatus m cid uid s).1
| step_UpdateMemberRole cid uid r : store_step m (UpdateMemberRole m cid uid r).1
| step_RemoveMember cid uid : store_step m (RemoveMember m cid uid).1
| step_CreateInvite nid i : store_step m (CreateInvite m nid i).1
| step_ConsumeInvite id uid now : store_step m (ConsumeInvite m id uid now).1
| step_ReleaseInvite id : store_step m (ReleaseInvite m id).1
| step_RevokeInvite id now : store_step m (RevokeInvite m id now).1
| step_CreateDevice nid d : Device.UserID d ≠ "" → store_step m (CreateDevice m nid d).1
| step_DeleteDevice id : store_step m (DeleteDevice m id).1
| step_DeletePushDevices uid mid : store_step m (DeletePushDevicesForMLSDevice m uid mid).1
| step_Subscribe nid s : store_step m (Subscribe m nid s).1
| step_Unsubscribe cid did : store_step m (Unsubscribe m cid did).1
| step_SetSubscriptionStatus cid uid s : store_step m (SetSubscriptionStatusForUser m cid uid s).1
| step_CreateMessage nid msg : store_step m (CreateMessage m nid msg).1
| step_CreateDelivery nid now d : store_step m (CreateDelivery m nid now d).1
| step_DeleteMessage id : store_step m (DeleteMessage m id).1
| step_CreateComment nid now c : store_step m (CreateComment m nid now c).1
| step_DeleteComment id : store_step m (DeleteComment m id).1
| step_CreateConversation fresh c mems : store_step m (CreateConversation m fresh c mems).1
| step_DeleteConversation cid : store_step m (DeleteConversation m cid).1
| step_AddConversationMember nid mem : store_step m (AddConversationMember m nid mem).1
| step_RemoveConversationMember cid uid : store_step m (RemoveConversationMember m cid uid).1
| step_SetConversationMemberRole cid uid r : store_step m (SetConversationMemberRole m cid uid r).1
| step_ClearConversationHistory cid uid t : store_step m (ClearConversationHistory m cid uid t).1
| step_SetConversationReceipt cid uid d r : store_step m (SetConversationReceipt m cid uid d r).1
| step_AppendChatMessage nid msg : store_step m (AppendChatMessage m nid msg).1
| step_CreateAttachment now a : store_step m (CreateAttachment m now a).1
| step_DeleteAttachments cid : store_step m (DeleteAttachments m cid).1
| step_AddKeyPackages fresh l : store_step m (AddKeyPackages m fresh l).1
| step_DeleteKeyPackages uid did : store_step m (DeleteKeyPackages m uid did).1
| step_ClaimKeyPackage uid did : store_step m (ClaimKeyPackage m uid did).1
| step_SetMLSGroupInfo cid gid e i : store_step m (SetMLSGroupInfo m cid gid e i).1
| step_CommitMLSGroup fresh cid gid b ms : store_step m (CommitMLSGroup m fresh cid gid b ms).1
| step_ResetMLSGroup cid : store_step m (ResetMLSGroup m cid).1
| step_PutKeyBackup nid b : store_step m (PutKeyBackup m nid b).1
| step_ArchiveKeyBackup nid b keep : store_step m (ArchiveKeyBackup m nid b keep).1
| step_AppendKeyBackupTail fresh l : store_step m (AppendKeyBackupTail m fresh l).1
| step_TruncateKeyBackupTail uid t : store_step m (TruncateKeyBackupTail m uid t).1
| step_UpsertMLSDevice nid d : store_step m (UpsertMLSDevice m nid d).1
| step_DeleteMLSDevice uid did : store_step m (DeleteMLSDevice m uid did).1
| step_RevokeMLSDevice uid did t : store_step m (RevokeMLSDevice m uid did t).1
| step_RevokeUserTokens uid a b : store_step m (RevokeUserTokensBefore m uid a b).1
| step_RevokeSession sid t : store_step m (RevokeSession m sid t).1.

Definition reachable (blobs : option B) m : Prop := rtc store_step (Memory.NewMemory blobs) m.

#[local] Hint Resolve CreateUser_Keyed UpdateUserProfile_Keyed SetUserAvatar_Keyed
  DeleteUser_finish_Keyed CreateChannel_Keyed SetChannelAlias_Keyed UpdateChannel_Keyed
  UpdateChannelStatus_Keyed SetChannelAvatar_Keyed DeleteChannel_Keyed AddRemoteSubscription_Keyed
  CreateAPIKey_Keyed RevokeAPIKey_Keyed UpsertMember_Keyed CreateInvite_Keyed ConsumeInvite_Keyed
  ReleaseInvite_Keyed RevokeInvite_Keyed CreateDevice_Keyed DeleteDevice_Keyed
  DeletePushDevicesForMLSDevice_Keyed Subscribe_Keyed Unsubscribe_Keyed
  SetSubscriptionStatusForUser_Keyed CreateMessage_Keyed CreateDelivery_Keyed DeleteMessage_Keyed
  CreateComment_Keyed DeleteComment_Keyed CreateConversation_Keyed DeleteConversation_Keyed
  AddConversationMember_Keyed AppendChatMessage_Keyed add_key_packages_Keyed DeleteKeyPackages_Keyed
  ClaimKeyPackage_Keyed SetMLSGroupInfo_Keyed CommitMLSGroup_Keyed ResetMLSGroup_Keyed
  PutKeyBackup_Keyed ArchiveKeyBackup_Keyed append_tail_Keyed TruncateKeyBackupTail_Keyed
  UpsertMLSDevice_Keyed DeleteMLSDevice_Keyed RevokeMLSDevice_Keyed : store_keyed.

Lemma store_step_Keyed m m' : store_step m m' → Keyed m → Keyed m'.
Proof.
  intros Hstep H. destruct Hstep; auto with store_keyed;
    first [ apply (UpdateUser_Keyed m _ _ H) | apply (member_update_Keyed m _ _ "" H)
          | eapply (member_update_Keyed m _ _ _ H) | eapply (revocations_Keyed m _ _ _ H)
          | eapply (on_conv_member_Keyed m _ _ _ _ _ _ H) | eapply (attachments_Keyed m _ _ _ H)
          | apply add_key_packages_Keyed; exact H | apply append_tail_Keyed; exact H ].
  Unshelve. all: exact 0 || exact "" || exact Attachment.zero.
Qed.

(** ** The tables with a uniqueness rule *)

(** What holds of the state between any two calls. *)
Record Inv m : Prop := {
  inv_keyed : Keyed m;
  inv_last_resort : one_last_resort m;
  inv_address : one_account_per_address (Memory.devices m);
  inv_subscription : one_subscription (Memory.subscriptions m);
  inv_membership : one_membership (Memory.members m)
}.

(** A step that does not touch the table: whatever branch it takes, the table
    is the one before. *)
Ltac frame H :=
  first
  [ exact H
  | unfold UpdateUserProfile, SetUserAvatar, UpdateUserRole, UpdateUserStatus, UpdateUserPassword,
      DeleteUser_finish, SetChannelAlias, UpdateChannel, UpdateChannelStatus, SetChannelAvatar,
      DeleteChannel, AddRemoteSubscription, RevokeAPIKey, UpsertMember, UpdateMemberStatus,
      UpdateMemberRole, RemoveMember, on_member, ConsumeInvite, ReleaseInvite, RevokeInvite,
      CreateDevice, DeletePushDevicesForMLSDevice, Subscribe, Unsubscribe, DeleteMessage,
      DeleteComment, AddConversationMember, RemoveConversationMember, SetConversationMemberRole,
      ClearConversationHistory, SetConversationReceipt, on_conv_member, ClaimKeyPackage,
      SetMLSGroupInfo, ResetMLSGroup, ArchiveKeyBackup, RevokeMLSDevice;
    repeat (let E := fresh in case_match eqn:E; clear E); try exact H; done ].

(** The loops and the commit leave the tables of devices, subscriptions,
    members and packages alone. *)
Definition same_rest m m' : Prop :=
  Memory.keyPackages m' = Memory.keyPackages m ∧ Memory.devices m' = Memory.devices m ∧
  Memory.subscriptions m' = Memory.subscriptions m ∧ Memory.members m' = Memory.members m.

Lemma append_all_rest m l m' out : append_all m l = (m', out) → same_rest m m'.
Proof.
  revert m m' out. induction l as [|[nid msg] l IH]; intros m m' out; [by intros [= <- _]|].
  cbn [append_all]. destruct (appendChatMessageLocked m nid msg) as [m1 msg1] eqn:E.
  destruct (append_all m1 l) as [m2 o2] eqn:E2. intros [= <- _].
  destruct (IH _ _ _ E2) as (H1 & H2 & H3 & H4). rewrite (append_ID _ _ _ _ _ E) in *. by split_and!.
Qed.

Lemma CommitMLSGroup_rest m fresh cid gid b ms : same_rest m (CommitMLSGroup m fresh cid gid b ms).1.
Proof.
  unfold CommitMLSGroup. destruct (Memory.conversations m !! cid) as [c|]; [|done].
  destruct (negb _); [done|]. destruct (append_all _ _) as [m2 o2] eqn:E.
  exact (append_all_rest _ _ _ _ E).
Qed.

Lemma append_tail_rest m fresh i l : same_rest m (append_tail m fresh i l).
Proof. revert m i. induction l as [|e l IH]; intros m i; [done|]. exact (IH _ _). Qed.

Lemma add_key_packages_rest m fresh i l :
  let m' := add_key_packages m fresh i l in
  Memory.devices m' = Memory.devices m ∧ Memory.subscriptions m' = Memory.subscriptions m ∧
  Memory.members m' = Memory.members m.
Proof.
  revert m i. induction l as [|kp l IH]; intros m i; [done|]. cbn [add_key_packages].
  destruct (IH (add_key_package m (fresh i) kp) (S i)) as (-> & -> & ->).
  unfold add_key_package. by destruct (_ && _).
Qed.

Lemma store_step_last_resort m m' : store_step m m' → one_last_resort m → one_last_resort m'.
Proof.
  intros Hstep H. destruct Hstep;
    try (unfold one_last_resort; destruct (CommitMLSGroup_rest m fresh cid gid b ms) as (-> & _); exact H);
    try exact (proj1 (AddKeyPackages_one_last_resort m fresh l "" "" H));
    try exact (proj1 (proj2 (AddKeyPackages_one_last_resort m (fun _ => "") [] uid did H)));
    try exact (proj2 (proj2 (AddKeyPackages_one_last_resort m (fun _ => "") [] uid did H)));
    try (unfold one_last_resort; destruct (append_tail_rest m fresh 0 l) as (Hk & _); cbn [AppendKeyBackupTail fst];
         rewrite Hk; exact H);
    frame H.
Qed.

Lemma store_step_membership m m' :
  store_step m m' → one_membership (Memory.members m) → one_membership (Memory.members m').
Proof.
  intros Hstep H. destruct Hstep;
    try (destruct (CommitMLSGroup_rest m fresh cid gid b ms) as (_ & _ & _ & ->); exact H);
    try (cbn [AddKeyPackages fst]; destruct (add_key_packages_rest m fresh 0 l) as (_ & _ & ->); exact H);
    try (cbn [AppendKeyBackupTail fst]; destruct (append_tail_rest m fresh 0 l) as (_ & _ & _ & ->); exact H);
    try (apply UpsertMember_one; exact H);
    try (apply on_member_one; [exact H|]; intros id mem _; (by left) || (right; by eexists));
    try (unfold DeleteUser_finish; destruct (_ != ""); cbn;
         (eapply one_membership_subset; [apply range_delete_subseteq | exact H]));
    try (unfold DeleteChannel; destruct (Memory.channels m !! cid); cbn; [|exact H];
         (eapply one_membership_subset; [apply range_delete_subseteq | exact H]));
    frame H.
Qed.

Lemma store_step_subscription m m' :
  Keyed m → store_step m m' → one_subscription (Memory.subscriptions m) →
  one_subscription (Memory.subscriptions m').
Proof.
  intros HK Hstep H. destruct Hstep;
    try (destruct (CommitMLSGroup_rest m fresh cid gid b ms) as (_ & _ & -> & _); exact H);
    try (cbn [AddKeyPackages fst]; destruct (add_key_packages_rest m fresh 0 l) as (_ & -> & _); exact H);
    try (cbn [AppendKeyBackupTail fst]; destruct (append_tail_rest m fresh 0 l) as (_ & _ & -> & _); exact H);
    try (pose proof (Subscribe_upsert m nid s HK H) as Hs; destruct (Subscribe m nid s); exact (proj1 Hs));
    try (apply SetSubscriptionStatus_one; exact H);
    try (unfold DeleteUser_finish; destruct (_ != ""); cbn;
         (eapply one_subscription_subset; [apply range_delete_subseteq | exact H]));
    try (unfold DeleteChannel; destruct (Memory.channels m !! cid); cbn; [|exact H];
         (eapply one_subscription_subset; [apply range_delete_subseteq | exact H]));
    try (unfold Unsubscribe; destruct (range_find _ _) as [[]|]; cbn; [|exact H];
         (eapply one_subscription_subset; [apply delete_subseteq | exact H]));
    frame H.
Qed.

Lemma store_step_address m m' :
  store_step m m' → one_account_per_address (Memory.devices m) →
  one_account_per_address (Memory.devices m').
Proof.
  intros Hstep H. destruct Hstep;
    try (destruct (CommitMLSGroup_rest m fresh cid gid b ms) as (_ & -> & _); exact H);
    try (cbn [AddKeyPackages fst]; destruct (add_key_packages_rest m fresh 0 l) as (-> & _); exact H);
    try (cbn [AppendKeyBackupTail fst]; destruct (append_tail_rest m fresh 0 l) as (_ & -> & _); exact H);
    try (apply CreateDevice_one_account; assumption);
    try (unfold DeleteUser_finish; destruct (_ != ""); cbn;
         (eapply one_account_subset; [apply foldl_delete_subseteq | exact H]));
    try (eapply one_account_subset; [apply delete_subseteq | exact H]);
    try (unfold DeletePushDevicesForMLSDevice; destruct (_ == ""); cbn; [exact H|];
         (eapply one_account_subset; [apply range_delete_subseteq | exact H]));
    frame H.
Qed.

Lemma reachable_Inv blobs m : reachable blobs m → Inv m.
Proof.
  intros Hr. assert (Inv (Memory.NewMemory blobs)) as H0.
  { split; [apply Keyed_NewMemory | by intros ? ? | by intros ? ? | by intros ? ? | by intros ? ?]. }
  unfold reachable in Hr. induction Hr as [m|m m1 m2 Hs _ IH]; [done|]. apply IH.
  destruct H0. split; eauto using store_step_Keyed, store_step_last_resort, store_step_membership,
    store_step_subscription, store_step_address.
Qed.
End System.

(** C33. In every state the store can reach, through any sequence of writes of
    any callers, the phases of account deletions interleaved with them: every
    row of every table is filed under the id it carries, no device has two
    last-resort KeyPackages, no push address is shared by two accounts, and
    there is one subscription per channel and device and one membership per
    channel and user. *)
Theorem reachable_invariants {B} {BS : BlobStore B} {RO : RangeOrder} {U : Unicode}
  (blobs : option B) m :
  reachable blobs m →
  Keyed m ∧ one_last_resort m ∧ one_account_per_address (Memory.devices m) ∧
  one_subscription (Memory.subscriptions m) ∧ one_membership (Memory.members m).
Proof. intros []%reachable_Inv. done. Qed.

Lemma reachable_invariants_witness :
  let m := (CreateUser (Memory.NewMemory (Some BlobMemory.NewMemory)) "n" User.zero).1 in
  reachable (RO := order_fwd) (U := ascii_only) (Some BlobMemory.NewMemory) m ∧ Keyed m.
Proof.
  intros m.
  assert (reachable (RO := order_fwd) (U := ascii_only) (Some BlobMemory.NewMemory) m) as H.
  { apply rtc_once. exact (step_CreateUser (RO := order_fwd) (U := ascii_only)
      (Memory.NewMemory (Some BlobMemory.NewMemory)) "n" User.zero). }
  split; [exact H|]. exact (proj1 (reachable_invariants (RO := order_fwd) (U := ascii_only) _ m H)).
Defined.

(** ** Cascades *)

Section Cascades.
Context {B : Type} {BS : BlobStore B} {RO : RangeOrder}.
Implicit Types (m : Memory.t B) (ids : list string) (k : string).

(** The rows a run of channel deletions leaves. *)
Lemma delete_channels_spec m ids :
  NoDup ids → (∀ k, k ∈ ids → is_Some (Memory.channels m !! k)) →
  ∃ m', delete_channels m ids = (m', Ok tt) ∧
    Memory.users m' = Memory.users m ∧ Memory.devices m' = Memory.devices m ∧
    (∀ k x, Memory.channels m' !! k = Some x ↔ Memory.channels m !! k = Some x ∧ k ∉ ids) ∧
    (∀ k x, Memory.messages m' !! k = Some x ↔
       Memory.messages m !! k = Some x ∧ Message.ChannelID x ∉ ids) ∧
    (∀ k x, Memory.subscriptions m' !! k = Some x ↔
       Memory.subscriptions m !! k = Some x ∧ Subscription.ChannelID x ∉ ids) ∧
    (∀ k x, Memory.members m' !! k = Some x ↔
       Memory.members m !! k = Some x ∧ ChannelMember.ChannelID x ∉ ids) ∧
    (∀ k x, Memory.comments m' !! k = Some x ↔
       Memory.comments m !! k = Some x ∧ Comment.ChannelID x ∉ ids).
Proof.
  revert m. induction ids as [|id ids IH]; intros m Hnd Hin.
  { exists m. cbn. split_and!; try done; intros k x; (split; [|by intros []]);
      intros; (split; [done | apply not_elem_of_nil]). }
  apply NoDup_cons in Hnd as [Hid Hnd]. cbn [delete_channels].
  destruct (Hin id ltac:(by left)) as [ch Hch].
  assert (∃ m1, DeleteChannel m id = (m1, Ok tt) ∧ Memory.users m1 = Memory.users m ∧
    Memory.devices m1 = Memory.devices m) as (m1 & Hd & Hu1 & Hd1).
  { unfold DeleteChannel. rewrite Hch. by eexists. }
  rewrite Hd. destruct (DeleteChannel_rows m id m1 Hd) as (_ & Rc & _ & Rs & Rm & Rg & Ro & _).
  destruct (IH m1 Hnd) as (m' & Hm' & Hu & Hdv & Sc & Sg & Ss & Sm & So).
  { intros k Hk. destruct (Hin k ltac:(by right)) as [x Hx]. exists x. apply Rc. split; [done|].
    by intros ->. }
  exists m'. split; [done|]. rewrite Hu, Hdv, Hu1, Hd1.
  split_and!; try done; intros k x;
    [rewrite Sc, Rc | rewrite Sg, Rg | rewrite Ss, Rs | rewrite Sm, Rm | rewrite So, Ro];
    rewrite not_elem_of_cons; tauto.
Qed.

Lemma lookup_foldl_delete {A} (ks : list string) (t : gmap string A) k x :
  foldl (fun acc k => delete k acc) t ks !! k = Some x ↔ t !! k = Some x ∧ k ∉ ks.
Proof.
  revert t. induction ks as [|i ks IH]; intros t; cbn [foldl].
  - split; [intros; split; [done | apply not_elem_of_nil] | by intros []].
  - rewrite IH, lookup_delete_Some, not_elem_of_cons. split; intuition.
Qed.

(** The rows an account deletion leaves of each table. *)
Record account_gone m m' (uid : string) : Prop := {
  gone_user : ∀ k x, Memory.users m' !! k = Some x ↔ Memory.users m !! k = Some x ∧ k ≠ uid;
  gone_channels : ∀ k x, Memory.channels m' !! k = Some x ↔
    Memory.channels m !! k = Some x ∧ Channel.OwnerID x ≠ uid;
  gone_devices : ∀ k x, Memory.devices m' !! k = Some x ↔
    Memory.devices m !! k = Some x ∧ Device.UserID x ≠ uid;
  gone_messages : ∀ k x, Memory.messages m' !! k = Some x → Memory.messages m !! k = Some x ∧
    ∀ ch, Memory.channels m !! Message.ChannelID x = Some ch → Channel.OwnerID ch ≠ uid;
  gone_members : ∀ k x, Memory.members m' !! k = Some x →
    Memory.members m !! k = Some x ∧ ChannelMember.UserID x ≠ uid;
  gone_comments : ∀ k x, Memory.comments m' !! k = Some x →
    Memory.comments m !! k = Some x ∧ Comment.UserID x ≠ uid;
  gone_subscriptions : ∀ k x, Memory.subscriptions m' !! k = Some x →
    Memory.subscriptions m !! k = Some x ∧
    ∀ d, Memory.devices m !! Subscription.DeviceID x = Some d → Device.UserID d ≠ uid
}.

Lemma elem_of_ids {A} (id : A → string) (p : A → bool) (t : gmap string A) k :
  keyed id t → k ∈ id <$> range_filter p t ↔ ∃ x, t !! k = Some x ∧ p x = true.
Proof.
  intros Hk. rewrite list_elem_of_fmap. split.
  - intros (x & -> & [Hp [k' Hx]]%elem_of_range_filter). exists x. by rewrite (Hk _ _ Hx).
  - intros (x & Hx & Hp). exists x. split; [symmetry; by apply Hk|].
    apply elem_of_range_filter. eauto.
Qed.

Lemma DeleteUser_run m uid u :
  Keyed m → Memory.users m !! uid = Some u →
  ∃ m', DeleteUser m uid = (m', Ok tt) ∧ account_gone m m' uid.
Proof.
  intros HK Hu. unfold DeleteUser, DeleteUser_snapshot. rewrite Hu.
  set (cids := Channel.ID <$> _). set (dids := Device.ID <$> _).
  assert (∀ k, k ∈ cids ↔ ∃ x, Memory.channels m !! k = Some x ∧ Channel.OwnerID x = uid) as Hc.
  { intros k. unfold cids. rewrite elem_of_ids by apply HK. by setoid_rewrite bool_decide_eq_true. }
  assert (∀ k, k ∈ dids ↔ ∃ x, Memory.devices m !! k = Some x ∧ Device.UserID x = uid) as Hd.
  { intros k. unfold dids. rewrite elem_of_ids by apply HK. by setoid_rewrite bool_decide_eq_true. }
  destruct (delete_channels_spec m cids) as (m1 & -> & Eu & Ed & Rc & Rg & Rs & Rm & Ro).
  { apply range_filter_NoDup, HK. }
  { intros k (x & Hx & _)%Hc. eauto. }
  unfold DeleteUser_finish. eexists. split; [done|].
  assert (∀ (m2 : Memory.t B) b, account_gone m m2 uid →
    account_gone m (if (User.AvatarID u != "") then m2 <| Memory.blobs := b |> else m2) uid) as Hb.
  { intros m2 b []. by destruct (User.AvatarID u != ""). }
  apply Hb. clear Hb. split; cbn; intros k x.
  - rewrite Eu, lookup_delete_Some. split; intros [H1 H2]; split; auto.
  - rewrite Rc, Hc. split; [intros [Hx Hn]; split; [done|]; intros Ho; apply Hn; eauto|].
    intros [Hx Hn]. split; [done|]. intros (y & Hy & Ho). congruence.
  - rewrite lookup_foldl_delete, Ed, Hd. split; [intros [Hx Hn]; split; [done|]; intros Ho; apply Hn; eauto|].
    intros [Hx Hn]. split; [done|]. intros (y & Hy & Ho). congruence.
  - rewrite Rg, Hc. intros [Hx Hn]. split; [done|]. intros ch Hch Ho. apply Hn. eauto.
  - rewrite range_delete_Some, Rm, bool_decide_eq_false. tauto.
  - rewrite range_delete_Some, Ro, bool_decide_eq_false. tauto.
  - rewrite range_delete_Some, Rs, bool_decide_eq_false, Hd. intros [[Hx _] Hn]. split; [done|].
    intros d Hdv Ho. apply Hn. eauto.
Qed.
End Cascades.

(** ** Deleting an account among other calls

    [DeleteUser] as the calls it makes under the lock. *)

Section Deleting.
Context {B : Type} {BS : BlobStore B} {RO : RangeOrder} {U : Unicode}.
Implicit Types (m : Memory.t B).
Abbreviation program := (prog (Memory.t B) unit (result store_err unit)).

Fixpoint deleting_channels (ids : list string) (k : program) : program :=
  match ids with
  | [] => k
  | cid :: ids =>
      Act (fun m _ => DeleteChannel m cid) (fun r => match r with Err e => Done (Err e) | Ok _ => deleting_channels ids k end)
  end.
Definition deleting_from (userID : string) (s : option User.t * list string * list string) : program :=
  let '(u, channelIDs, deviceIDs) := s in
  match u with
  | None => Done (Err ErrNotFound)
  | Some u => deleting_channels channelIDs (Act (fun m _ => DeleteUser_finish m userID u deviceIDs) Done)
  end.
Definition deleting (userID : string) : program :=
  Act (fun m _ => (m, DeleteUser_snapshot m userID)) (deleting_from userID).

Lemma deleting_channels_alone ids (k : program) : ∀ m,
  run (deleting_channels ids k) m [] tt =
  match delete_channels m ids with (m', Ok _) => run k m' [] tt | (m', Err e) => (m', Err e) end.
Proof.
  induction ids as [|cid ids IH]; intros m; [done|]. cbn [deleting_channels delete_channels run tail].
  by destruct (DeleteChannel m cid) as [m1 [x|e]].
Qed.
Lemma deleting_alone uid m : run (deleting uid) m [] tt = DeleteUser m uid.
Proof.
  unfold deleting, DeleteUser. cbn [run tail]. unfold deleting_from. destruct (DeleteUser_snapshot m uid) as [[[u|] cids] dids]; [|done].
  rewrite deleting_channels_alone. destruct (delete_channels m cids) as [m' [x|e]]; [|done]. cbn [run tail].
  by destruct (DeleteUser_finish m' uid u dids).
Qed.

(** A program with steps of others before each of its calls: the state in which it
    answers, and the answer. *)
Fixpoint interleaved (others : Memory.t B → Memory.t B → Prop) (p : program) m m' (r : result store_err unit) : Prop :=
  match p with
  | Done a => m' = m ∧ r = a
  | Act op k => ∃ m1, rtc others m m1 ∧ interleaved others (k (op m1 tt).2) (op m1 tt).1 m' r
  end.

(** Any writes of any callers, none of which creates a channel under the id of one that
    was there at first. *)
Definition others (m0 : Memory.t B) m m' : Prop :=
  store_step m m' ∧
  ∀ cid, is_Some (Memory.channels m0 !! cid) → Memory.channels m !! cid = None → Memory.channels m' !! cid = None.

Lemma others_keep m0 cid m m' : is_Some (Memory.channels m0 !! cid) → rtc (others m0) m m' →
  Memory.channels m !! cid = None → Memory.channels m' !! cid = None.
Proof. intros Hc. induction 1 as [|m m1 m2 [_ H1] _ IH]; [done|]. intros Hm. by apply IH, H1. Qed.

Lemma DeleteChannel_gone m cid m' : DeleteChannel m cid = (m', Ok tt) →
  Memory.channels m' !! cid = None ∧ ∀ k, Memory.channels m !! k = None → Memory.channels m' !! k = None.
Proof.
  intros (_ & Rc & _)%DeleteChannel_rows. split; [|intros k Hk]; apply eq_None_not_Some; intros [x [H1 H2]%Rc]; congruence.
Qed.

(** What is gone once the channels are deleted and the rest has been removed. *)
Lemma interleaved_channels m0 ids uid u dids : ∀ m m',
  (∀ cid, cid ∈ ids → is_Some (Memory.channels m0 !! cid)) →
  interleaved (others m0) (deleting_channels ids (Act (fun m _ => DeleteUser_finish m uid u dids) Done)) m m' (Ok tt) →
  (∀ cid, is_Some (Memory.channels m0 !! cid) → Memory.channels m !! cid = None → Memory.channels m' !! cid = None) ∧
  (∀ cid, cid ∈ ids → Memory.channels m' !! cid = None) ∧ ∃ m1, m' = (DeleteUser_finish m1 uid u dids).1.
Proof.
  induction ids as [|cid ids IH]; intros m m' Hin; cbn [deleting_channels interleaved].
  - intros (m1 & Hr & -> & _). split; [|split; [by intros ? ?%not_elem_of_nil|by exists m1]].
    intros cid Hc Hm. unfold DeleteUser_finish. destruct (User.AvatarID u != ""); cbn; by eapply others_keep.
  - intros (m1 & Hr & Hi). destruct (DeleteChannel m1 cid) as [m2 [[]|e]] eqn:Hd; cbn [fst snd] in Hi; [|by destruct Hi].
    destruct (DeleteChannel_gone _ _ _ Hd) as [Hg Hk]. destruct (IH m2 m') as (H1 & H2 & H3); [|exact Hi|].
    { intros c Hc. apply Hin. by right. }
    split; [|split; [|exact H3]].
    + intros c Hc Hm. apply H1; [done|]. apply Hk. by eapply others_keep.
    + intros c [->|Hc]%elem_of_cons; [apply H1; [apply Hin; by left|done]|by apply H2].
Qed.

(** What an account had on the channel side when the deletion began, and what is filed
    under it when it is told to be over. *)
Record account_off m m' (uid : string) : Prop := {
  off_user : Memory.users m' !! uid = None;
  off_channels : ∀ k x, Memory.channels m !! k = Some x → Channel.OwnerID x = uid → Memory.channels m' !! k = None;
  off_devices : ∀ k x, Memory.devices m !! k = Some x → Device.UserID x = uid → Memory.devices m' !! k = None;
  off_members : ∀ k x, Memory.members m' !! k = Some x → ChannelMember.UserID x ≠ uid;
  off_comments : ∀ k x, Memory.comments m' !! k = Some x → Comment.UserID x ≠ uid;
  off_subscriptions : ∀ k x d, Memory.subscriptions m' !! k = Some x →
    Memory.devices m !! Subscription.DeviceID x = Some d → Device.UserID d ≠ uid
}.

Lemma interleaved_off m uid m' : Keyed m →
  interleaved (others m) (deleting_from uid (DeleteUser_snapshot m uid)) m m' (Ok tt) → account_off m m' uid.
Proof.
  intros HK. unfold deleting_from, DeleteUser_snapshot. destruct (Memory.users m !! uid) as [u|]; [|by intros [_ [=]]].
  set (cids := Channel.ID <$> _). set (dids := Device.ID <$> _).
  assert (∀ k, k ∈ cids ↔ ∃ x, Memory.channels m !! k = Some x ∧ Channel.OwnerID x = uid) as Hc.
  { intros k. unfold cids. rewrite elem_of_ids by apply HK. by setoid_rewrite bool_decide_eq_true. }
  assert (∀ k, k ∈ dids ↔ ∃ x, Memory.devices m !! k = Some x ∧ Device.UserID x = uid) as Hd.
  { intros k. unfold dids. rewrite elem_of_ids by apply HK. by setoid_rewrite bool_decide_eq_true. }
  intros (_ & H2 & m1 & ->)%interleaved_channels; [|intros k (x & Hx & _)%Hc; eauto]. revert H2.
  unfold DeleteUser_finish. cbn [fst]. intros H2.
  assert (∀ (m2 : Memory.t B) b, account_off m m2 uid →
    account_off m (if (User.AvatarID u != "") then m2 <| Memory.blobs := b |> else m2) uid) as Hb.
  { intros m2 b []. by destruct (User.AvatarID u != ""). }
  apply Hb. clear Hb. split; cbn.
  - by rewrite lookup_delete_eq.
  - intros k x Hx Ho. assert (k ∈ cids) as Hk by (apply Hc; eauto). specialize (H2 k Hk). by destruct (User.AvatarID u != "").
  - intros k x Hx Ho. apply eq_None_not_Some. intros [y [_ Hn]%lookup_foldl_delete]. apply Hn, Hd. eauto.
  - intros k x [_ Hn%bool_decide_eq_false]%range_delete_Some. done.
  - intros k x [_ Hn%bool_decide_eq_false]%range_delete_Some. done.
  - intros k x d [_ Hn%bool_decide_eq_false]%range_delete_Some Hdv Ho. apply Hn, Hd. eauto.
Qed.

(** The tables of conversations, MLS and backups. *)
Definition chat_side m :=
  (Memory.conversations m, Memory.convMembers m, Memory.chatMessages m, Memory.attachments m,
   (Memory.mlsGroupInfo m, Memory.mlsDevices m, Memory.keyPackages m),
   (Memory.keyBackups m, Memory.keyBackupVersions m, Memory.keyBackupTail m)).

Lemma delete_channels_chat_side ids : ∀ m, chat_side (delete_channels m ids).1 = chat_side m.
Proof.
  induction ids as [|cid ids IH]; intros m; cbn [delete_channels]; [done|].
  assert (chat_side (DeleteChannel m cid).1 = chat_side m) as Hc by (unfold DeleteChannel; by case_match).
  destruct (DeleteChannel m cid) as [m1 [x|e]]; cbn [fst] in *; [by rewrite IH|done].
Qed.
Lemma DeleteUser_chat_side m uid : chat_side (DeleteUser m uid).1 = chat_side m.
Proof.
  unfold DeleteUser. destruct (DeleteUser_snapshot m uid) as [[[u|] cids] dids]; [|done].
  pose proof (delete_channels_chat_side cids m) as Hc. destruct (delete_channels m cids) as [m1 [x|e]]; [|done].
  rewrite <- Hc. unfold DeleteUser_finish. cbn [fst]. by destruct (User.AvatarID u != "").
Qed.
End Deleting.


(** *** An account with a channel and a device *)

Definition gone_account : User.t := User.zero <| User.ID := "u" |>.
Definition gone_channel : Channel.t := Channel.zero <| Channel.ID := "c" |> <| Channel.OwnerID := "u" |>.
Definition gone_start : Memory.t BlobMemory.t :=
  (CreateChannel (CreateUser (Memory.NewMemory (Some BlobMemory.NewMemory)) "n" gone_account).1 "n" gone_channel).1.
(** Another caller comments between the phases, and is not in the way. *)
Definition gone_comment (m : Memory.t BlobMemory.t) : Memory.t BlobMemory.t :=
  (CreateComment m "k" 5 (Comment.zero <| Comment.UserID := "u" |>)).1.
Definition gone_middle : Memory.t BlobMemory.t := gone_comment (DeleteChannel (RO := order_fwd) gone_start "c").1.
Definition gone_end : Memory.t BlobMemory.t := (DeleteUser_finish (RO := order_fwd) gone_middle "u" gone_account []).1.

Lemma gone_start_reachable : reachable (RO := order_fwd) (U := ascii_only) (Some BlobMemory.NewMemory) gone_start.
Proof.
  eapply rtc_l; [exact (step_CreateUser (RO := order_fwd) (U := ascii_only) _ "n" gone_account)|].
  apply rtc_once. exact (step_CreateChannel (RO := order_fwd) (U := ascii_only) _ "n" gone_channel).
Qed.
Lemma gone_interleaved :
  interleaved (others (RO := order_fwd) (U := ascii_only) gone_start)
    (deleting_from (RO := order_fwd) "u" (DeleteUser_snapshot (RO := order_fwd) gone_start "u")) gone_start gone_end (Ok tt).
Proof.
  exists gone_start. split; [done|]. exists gone_middle. split; [|by split].
  apply rtc_once. split; [|done]. apply (step_CreateComment (RO := order_fwd) (U := ascii_only)).
Qed.


(** The owner deletes a channel while the account is being deleted: the deletion stops
    there, and the account is still there. *)
Example deletion_stops :
  let m := (DeleteChannel (RO := order_fwd) gone_start "c").1 in
  let s := Threads.schedule gone_start [deleting (RO := order_fwd) "u"; Act (fun m _ => DeleteChannel (RO := order_fwd) m "c") Done]
    [(0%nat, tt); (1%nat, tt); (0%nat, tt); (0%nat, tt)] in
  s.2 = [Done (Err ErrNotFound); Done (Ok tt)] ∧ is_Some (Memory.users s.1 !! "u").
Proof. vm_compute. split; [done|by eexists]. Qed.

(** A push device registered meanwhile outlives the account. *)
Example deletion_overtaken :
  let registering := Act (fun m _ => let '(m, r) := CreateDevice (RO := order_fwd) m "d" (Device.zero <| Device.UserID := "u" |>) in
                                     (m, match r with Ok _ => Ok tt | Err e => Err e end)) Done in
  let s := Threads.schedule gone_start [deleting (RO := order_fwd) "u"; registering]
    [(0%nat, tt); (1%nat, tt); (0%nat, tt); (0%nat, tt)] in
  s.2 = [Done (Ok tt); Done (Ok tt)] ∧ Memory.users s.1 !! "u" = None ∧
  Device.UserID <$> Memory.devices s.1 !! "d" = Some "u".
Proof. vm_compute. done. Qed.
