(* ===== verification/Auth.v ===== *)
(** * Package auth: tokens and their revocation

    [api/internal/auth/revoker.go]: the deny list of terminated sessions and the
    per-user cutoffs, cached over a store that keeps them across restarts;
    [token.go]: which tokens a host accepts and what their bearer may do;
    [middleware.go]; and [api/internal/channel/session_revocation.go].

    The store a revoker writes through is the interface
    [SessionRevocationStore]; the data store implements it. The JWT library is
    the interface [Jwt]. *)

From S2P Require Import Prelude.
From S2P Require Import GoStrings.
From S2P Require Import Domain.
From S2P Require Import Threads.
From S2P Require Import Crypto.
From S2P Require Import Blob.
From S2P Require Import StoreState.
From S2P Require Import StoreUsers.
From S2P Require Import StoreBackup.

(** ** The store behind a revoker *)

(** The operations; [None] is an error. *)
Class SessionRevocationStore (S : Type) := {
  rs_RevokeSession : S → string → time → option S;
  rs_ActiveRevokedSessions : S → time → option (list string);
  rs_RevokeUserTokensBefore : S → string → time → time → option S;
  rs_ActiveUserRevocations : S → time → option (gmap string time)
}.

(** What the operations promise, over the revocations a store holds: a session
    until when, a user's cutoff and until when. *)
Class SessionRevocationStoreLaws (S : Type) `{SessionRevocationStore S} := {
  rs_sessions : S → gmap string time;
  rs_users : S → gmap string (time * time);
  rs_RevokeSession_spec s sid exp s' : rs_RevokeSession s sid exp = Some s' →
    rs_sessions s' = <[sid := exp]> (rs_sessions s) ∧ rs_users s' = rs_users s;
  rs_ActiveRevokedSessions_spec s now sids : rs_ActiveRevokedSessions s now = Some sids →
    ∀ sid, sid ∈ sids ↔ ∃ exp, rs_sessions s !! sid = Some exp ∧ now < exp;
  rs_RevokeUserTokensBefore_spec s uid cutoff exp s' :
    rs_RevokeUserTokensBefore s uid cutoff exp = Some s' →
    rs_users s' = <[uid := (cutoff, exp)]> (rs_users s) ∧ rs_sessions s' = rs_sessions s;
  rs_ActiveUserRevocations_spec s now cutoffs : rs_ActiveUserRevocations s now = Some cutoffs →
    ∀ uid cutoff, cutoffs !! uid = Some cutoff ↔ ∃ exp, rs_users s !! uid = Some (cutoff, exp) ∧ now < exp
}.

(** ** The revoker *)

Module Revoker.
Record t (S : Type) := mk { store : S; revoked : gmap string time; userCutoff : gmap string time }.
Arguments mk {S}. Arguments store {S}. Arguments revoked {S}. Arguments userCutoff {S}.
#[global] Instance eta {S} : Eta (t S) := fun r => mk (store r) (revoked r) (userCutoff r).

Definition NewSessionRevoker {S} (s : S) : t S := mk s ∅ ∅.

Section Revoker.
Context {S : Type} {RS : SessionRevocationStore S}.
Implicit Types (r : t S) (now : time).

(** The year a hydrated session stays in the set. *)
Definition far : Z := 365 * 24 * Hour.

(** A [false] is the error of the store. *)
Definition Hydrate r now : t S * bool :=
  match rs_ActiveRevokedSessions (store r) now with
  | None => (r, false)
  | Some sids =>
      (r <| revoked := foldl (fun set sid => <[sid := now + far]> set) (revoked r) sids |>, true)
  end.

Definition HydrateUsers r now : t S * bool :=
  match rs_ActiveUserRevocations (store r) now with
  | None => (r, false)
  | Some cutoffs => (r <| userCutoff := cutoffs ∪ userCutoff r |>, true)
  end.

Definition RevokeUserBefore r (userID : string) (cutoff expiresAt : time) : t S * bool :=
  if userID == "" then (r, true)
  else match rs_RevokeUserTokensBefore (store r) userID cutoff expiresAt with
  | None => (r, false)
  | Some s =>
      let move := match userCutoff r !! userID with
                  | Some existing => After cutoff existing
                  | None => true
                  end in
      (mk s (revoked r) (if move then <[userID := cutoff]> (userCutoff r) else userCutoff r), true)
  end.

Definition IsUserRevoked r (userID : string) (issuedAt : time) : bool :=
  if (userID == "") || IsZero issuedAt then false
  else match userCutoff r !! userID with
       | Some cutoff => Before issuedAt cutoff
       | None => false
       end.

Definition Revoke r (sessionID : string) (expiresAt : time) : t S * bool :=
  if sessionID == "" then (r, true)
  else match rs_RevokeSession (store r) sessionID expiresAt with
  | None => (r, false)
  | Some s => (mk s (<[sessionID := expiresAt]> (revoked r)) (userCutoff r), true)
  end.

(** [IsRevoked] takes the lock twice: to read the entry, and to drop one that
    has gone stale. *)
Definition IsRevoked_read r (sessionID : string) : option time :=
  if sessionID == "" then None else revoked r !! sessionID.
Definition IsRevoked_drop r (sessionID : string) : t S :=
  r <| revoked := delete sessionID (revoked r) |>.
Definition IsRevoked r now (sessionID : string) : t S * bool :=
  match IsRevoked_read r sessionID with
  | None => (r, false)
  | Some exp => if After now exp then (IsRevoked_drop r sessionID, false) else (r, true)
  end.

(** *** Step by step

    What other requests can come between: [Revoke] and [RevokeUserBefore] write the
    store and then, under the lock, the cache; [IsRevoked] reads the entry under the
    lock, the clock outside of it, and drops a stale entry under the lock again. *)
Definition cache_session r (sessionID : string) (expiresAt : time) : t S :=
  r <| revoked := <[sessionID := expiresAt]> (revoked r) |>.
Definition cache_cutoff r (userID : string) (cutoff : time) : t S :=
  let move := match userCutoff r !! userID with Some existing => After cutoff existing | None => true end in
  if move then r <| userCutoff := <[userID := cutoff]> (userCutoff r) |> else r.

Definition persist (write : S → option S) (k : bool → prog (t S) time bool) : prog (t S) time bool :=
  Act (fun r _ => match write (store r) with None => (r, false) | Some s => (r <| store := s |>, true) end) k.
Definition revoking (sessionID : string) (expiresAt : time) : prog (t S) time bool :=
  if sessionID == "" then Done true
  else persist (fun s => rs_RevokeSession s sessionID expiresAt) (fun ok =>
    if negb ok then Done false
    else Act (fun r _ => (cache_session r sessionID expiresAt, tt)) (fun _ => Done true)).
Definition revoking_user (userID : string) (cutoff expiresAt : time) : prog (t S) time bool :=
  if userID == "" then Done true
  else persist (fun s => rs_RevokeUserTokensBefore s userID cutoff expiresAt) (fun ok =>
    if negb ok then Done false
    else Act (fun r _ => (cache_cutoff r userID cutoff, tt)) (fun _ => Done true)).
Definition looking_up (sessionID : string) : prog (t S) time bool :=
  Act (fun r _ => (r, IsRevoked_read r sessionID)) (fun entry =>
  match entry with
  | None => Done false
  | Some exp =>
      Act (fun r now => (r, After now exp)) (fun stale =>
      if stale then Act (fun r _ => (IsRevoked_drop r sessionID, tt)) (fun _ => Done false) else Done true)
  end).

(** With nothing between them, the steps are the operations. *)
Lemma revoking_alone r sid exp last : run (revoking sid exp) r [] last = Revoke r sid exp.
Proof.
  unfold revoking, Revoke, persist. destruct (sid == ""); [done|]. cbn [run].
  by destruct (rs_RevokeSession _ _ _).
Qed.
Lemma revoking_user_alone r uid cutoff exp last : run (revoking_user uid cutoff exp) r [] last = RevokeUserBefore r uid cutoff exp.
Proof.
  unfold revoking_user, RevokeUserBefore, persist. destruct (uid == ""); [done|]. cbn [run].
  destruct (rs_RevokeUserTokensBefore _ _ _ _); [|done]. cbn. unfold cache_cutoff. cbn.
  by destruct (match _ with Some _ => _ | None => _ end).
Qed.
Lemma looking_up_alone r sid now : run (looking_up sid) r [] now = IsRevoked r now sid.
Proof.
  unfold looking_up, IsRevoked. cbn [run tail]. destruct (IsRevoked_read r sid) as [exp|]; [|done]. cbn [run tail].
  by destruct (After now exp).
Qed.

(** A restart: a fresh revoker over the same store, hydrated before it serves
    (the program exits when hydration fails). *)
Definition restart r now : option (t S) :=
  let '(r, ok) := Hydrate (NewSessionRevoker (store r)) now in
  let '(r, ok') := HydrateUsers r now in
  if ok && ok' then Some r else None.
End Revoker.
End Revoker.

(** ** The data store as a revocation store *)

#[global] Instance memory_revocations {B} {RO : RangeOrder} : SessionRevocationStore (Memory.t B) := {|
  rs_RevokeSession m sid exp :=
    match StoreBackup.RevokeSession m sid exp with (m, Ok _) => Some m | _ => None end;
  rs_ActiveRevokedSessions m now := Some (ActiveRevokedSessions m now);
  rs_RevokeUserTokensBefore m uid cutoff exp :=
    match RevokeUserTokensBefore m uid cutoff exp with (m, Ok _) => Some m | _ => None end;
  rs_ActiveUserRevocations m now := Some (ActiveUserRevocations m now)
|}.

(** ** Resets *)

(** The cutoff [revokeUserSessions] chooses: the next whole second, since the
    times in a token are whole seconds. *)
Definition Truncate (t : time) (d : Z) : time := t - t mod d.
Definition reset_cutoff (now : time) : time := Truncate now Second + Second.

(** [None] is the error, of a lifetime that is not positive or of the store. *)
Definition revokeUserSessions {S} `{SessionRevocationStore S} (r : Revoker.t S) (now : time)
  (userID : string) (ttl : Z) : Revoker.t S * option time :=
  if ttl <=? 0 then (r, None)
  else
    let cutoff := reset_cutoff now in
    let '(r, ok) := Revoker.RevokeUserBefore r userID cutoff (cutoff + ttl) in
    (r, if ok then Some cutoff else None).

(** ** Lemmas: the data store keeps its promises *)

Lemma foldl_hydrate (sids : list string) (exp : time) (set : gmap string time) sid :
  foldl (fun set sid => <[sid := exp]> set) set sids !! sid =
  if bool_decide (sid ∈ sids) then Some exp else set !! sid.
Proof.
  revert set. induction sids as [|x sids IH]; intros set; cbn [foldl].
  { by rewrite bool_decide_false by apply not_elem_of_nil. }
  rewrite IH. destruct (decide (sid = x)) as [->|Hne].
  - rewrite lookup_insert_eq, (bool_decide_true (x ∈ x :: sids)) by by left. by destruct (bool_decide _).
  - rewrite lookup_insert_ne by done. erewrite bool_decide_ext; [reflexivity|].
    rewrite elem_of_cons. naive_solver.
Qed.

Lemma foldl_collect {A C} (p : A → bool) (f : A → C) (l : list (string * A)) (acc : gmap string C) k c :
  NoDup l.*1 →
  foldl (fun out kx => if p kx.2 then <[kx.1 := f kx.2]> out else out) acc l !! k = Some c ↔
  (∃ x, (k, x) ∈ l ∧ p x = true ∧ f x = c) ∨ (acc !! k = Some c ∧ ∀ x, (k, x) ∈ l → p x = false).
Proof.
  revert acc. induction l as [|[j y] l IH]; intros acc Hnd; cbn [foldl fst snd].
  { split; [intros H; right; split; [done|]; by intros x ?%elem_of_nil |].
    intros [(x & ?%elem_of_nil & _)|[H _]]; done. }
  rewrite fmap_cons in Hnd. apply NoDup_cons in Hnd as [Hj Hnd]. rewrite IH by done. clear IH.
  assert (∀ x, (j, x) ∉ l) as Hj' by (intros x Hx; apply Hj; apply list_elem_of_fmap; by exists (j, x)).
  setoid_rewrite elem_of_cons. destruct (p y) eqn:Hp.
  - destruct (decide (k = j)) as [->|Hne].
    + rewrite lookup_insert_eq. split.
      * intros [(x & Hx & _)|[[= <-] _]]; [by destruct (Hj' x) | left; exists y; auto].
      * intros [(x & [[= ->]|Hx] & Hpx & <-)|[_ H]]; [right; split; [done|]; intros x Hx; by destruct (Hj' x)
          | by destruct (Hj' x) | specialize (H y (or_introl eq_refl)); congruence].
    + rewrite lookup_insert_ne by done. naive_solver.
  - split.
    + intros [(x & Hx & Hpx & <-)|[Ha H]]; [left; exists x; auto|].
      right. split; [done|]. intros x [[= -> ->]|Hx]; auto.
    + intros [(x & [[= -> ->]|Hx] & Hpx & <-)|[Ha H]]; [congruence | left; eauto|].
      right. split; [done|]. eauto.
Qed.

#[global] Instance memory_revocation_laws {B} {RO : RangeOrder} : SessionRevocationStoreLaws (Memory.t B).
Proof.
  refine {| rs_sessions := Memory.revokedSessions;
            rs_users m := (fun u => (userRevocation.Cutoff u, userRevocation.ExpiresAt u)) <$> Memory.revokedUsers m |}.
  - by intros s sid exp s' [= <-].
  - intros s now sids [= <-] sid. unfold ActiveRevokedSessions. rewrite list_elem_of_fmap. split.
    + intros ((k & exp) & -> & [Ha Hin]%list_elem_of_filter). exists exp.
      split; [by apply elem_of_go_range in Hin | by apply Is_true_true, Z.ltb_lt in Ha].
    + intros (exp & Hs & Hn). exists (sid, exp). split; [done|]. apply list_elem_of_filter.
      split; [by apply Is_true_true, Z.ltb_lt | by apply elem_of_go_range].
  - intros s uid cutoff exp s' [= <-]. split; [|done]. cbn. by rewrite fmap_insert.
  - intros s now cutoffs [= <-] uid cutoff. unfold ActiveUserRevocations.
    rewrite (foldl_collect (fun u => After (userRevocation.ExpiresAt u) now) userRevocation.Cutoff) by apply NoDup_go_range_fst. rewrite lookup_empty. split.
    + intros [(x & Hx%elem_of_go_range & Ha & <-)|[[=] _]]. exists (userRevocation.ExpiresAt x).
      rewrite lookup_fmap, Hx. split; [done | by apply Z.ltb_lt].
    + intros (exp & (x & [= <- <-] & Hx)%lookup_fmap_Some & Hn). left. exists x.
      split; [by apply elem_of_go_range|]. split; [by apply Z.ltb_lt | done].
Defined.

(** ** Revocation across restarts *)

(** What a revoker is asked while it serves; a failed write leaves it as it
    was. *)
Inductive revoker_call : Type :=
| CallRevoke (sessionID : string) (expiresAt : time)
| CallRevokeUserBefore (userID : string) (cutoff expiresAt : time)
| CallIsRevoked (sessionID : string).

(** A process: when it starts, what it is asked, and in which order the steps of all that
    are taken, each at its time. The next starts over the same store, in the middle of
    whatever the last one was doing. *)
Module Life.
Record t := mk { starts : time; calls : list revoker_call; turns : list (nat * time) }.
End Life.
Section Restarts.
Context {S : Type} {RS : SessionRevocationStore S} {RL : SessionRevocationStoreLaws S}.
Implicit Types (r : Revoker.t S) (now : time).

Definition serve_revoker (c : revoker_call) : prog (Revoker.t S) time bool :=
  match c with
  | CallRevoke sid exp => Revoker.revoking sid exp
  | CallRevokeUserBefore uid cutoff exp => Revoker.revoking_user uid cutoff exp
  | CallIsRevoked sid => Revoker.looking_up sid
  end.

(** What a process leaves, and what a row of them does. *)
Definition lived r (l : Life.t) : Revoker.t S := (Threads.schedule r (serve_revoker <$> Life.calls l) (Life.turns l)).1.
(** [None] when the program does not come up again. *)
Fixpoint lives r (ls : list Life.t) : option (Revoker.t S) :=
  match ls with
  | [] => Some r
  | l :: ls => match Revoker.restart r (Life.starts l) with Some r => lives (lived r l) ls | None => None end
  end.

(** [exp] is no later than the expiry under a key of a map. *)
Definition until_at_least (exp : time) (m : gmap string time) (key : string) : Prop :=
  ∃ e : time, m !! key = Some e ∧ exp ≤ e.

Lemma until_insert (exp e : time) (m : gmap string time) key key' :
  (key' = key → exp ≤ e) → until_at_least exp m key → until_at_least exp (<[key' := e]> m) key.
Proof.
  intros He (x & Hx & Hle). destruct (decide (key' = key)) as [->|Hne].
  - exists e. rewrite lookup_insert_eq. auto.
  - exists x. by rewrite lookup_insert_ne.
Qed.

End Restarts.

(** *** A thread that climbs

    A chain of invariants, the higher the more it says, that every thread keeps, and a
    thread whose steps lead up the chain. *)
Section Climbing.
Context {W Env R : Type} (ok : Env → Prop) (I : nat → W → Prop) (Post : nat → R → Prop).
Hypothesis I_base : ∀ n w, I n w → I 0%nat w.

Fixpoint steady (p : prog W Env R) : Prop :=
  match p with
  | Done _ => True
  | Act op k => ∀ w env, ok env → I 0%nat w → (∀ n, I n w → I n (op w env).1) ∧ steady (k (op w env).2)
  end.
Fixpoint climbs (n : nat) (p : prog W Env R) : Prop :=
  match p with
  | Done a => Post n a
  | Act op k => ∀ w env, ok env → I n w → ∃ n', I n' (op w env).1 ∧ climbs n' (k (op w env).2)
  end.

Lemma steady_preserves n p : steady p → preserves ok (I n) p.
Proof.
  induction p as [a|A op k IH]; [done|]. intros Hp w env Henv Hw. destruct (Hp w env Henv (I_base _ _ Hw)) as [H1 H2]. auto.
Qed.
Lemma climbs_schedule turns i : ∀ n w ps p,
  Forall (fun t => ok t.2) turns → I n w → ps !! i = Some p → climbs n p → Forall steady ps →
  ∃ n' p', I n' (Threads.schedule w ps turns).1 ∧ (Threads.schedule w ps turns).2 !! i = Some p' ∧ climbs n' p'.
Proof.
  induction turns as [|[j env] turns IH]; intros n w ps p Ht Hw Hi Hp Hps; cbn [Threads.schedule]; [by exists n, p|].
  apply Forall_cons in Ht as [Henv Ht].
  destruct (ps !! j) as [[a|A op k]|] eqn:Hj; [by eapply IH| |by eapply IH].
  pose proof (proj1 (Forall_lookup _ _) Hps _ _ Hj w env Henv (I_base _ _ Hw)) as [H1 H2].
  pose proof (lookup_lt_Some _ _ _ Hj) as Hlen. destruct (decide (j = i)) as [->|Hne].
  - pose proof (eq_trans (eq_sym Hi) Hj) as [= ->]. destruct (Hp w env Henv Hw) as (n' & Hw' & Hp').
    destruct (op w env) as [w' a]. eapply (IH n'); [done|done|by apply list_lookup_insert_eq|done|by apply Forall_insert].
  - specialize (H1 n Hw). destruct (op w env) as [w' a].
    eapply (IH n); [done|done|by rewrite list_lookup_insert_ne|done|by apply Forall_insert].
Qed.
End Climbing.

(** *** A session *)

Section Session.
Context {S : Type} {RS : SessionRevocationStore S} {RL : SessionRevocationStoreLaws S}.
Context (sid : string) (exp : time).
Implicit Types (r : Revoker.t S) (now : time).

(** How far the revocation of the session has got: no entry of the cache ends before
    [exp]; it is in the store; it is in the cache. *)
Definition session_level (n : nat) r : Prop :=
  (∀ e : time, Revoker.revoked r !! sid = Some e → exp ≤ e) ∧
  ((1 ≤ n)%nat → until_at_least exp (rs_sessions (Revoker.store r)) sid) ∧
  ((2 ≤ n)%nat → until_at_least exp (Revoker.revoked r) sid).
Definition before_expiry now : Prop := now < exp.
Abbreviation steady_ := (steady before_expiry session_level).

Lemma session_base n r : session_level n r → session_level 0 r.
Proof. intros [H _]. split; [done|]. split; lia. Qed.
Lemma session_store r s n : (∀ e, rs_sessions (Revoker.store r) !! sid = Some e → until_at_least exp (rs_sessions s) sid ∨ e < exp) →
  session_level n r → session_level n (r <| Revoker.store := s |>).
Proof.
  intros Hs (H0 & H1 & H2). split; [done|]. split; [|done]. intros Hn. destruct (H1 Hn) as (e & He & Hle).
  destruct (Hs e He); [done|lia].
Qed.
Lemma session_cache r s e n : (s = sid → exp ≤ e) → session_level n r → session_level n (Revoker.cache_session r s e).
Proof.
  intros He (H0 & H1 & H2). split; [|split; [done|intros Hn; by apply until_insert; [|apply H2]]].
  intros e' He'. unfold Revoker.cache_session in He'. cbn in He'. apply lookup_insert_Some in He' as [[-> <-]|[_ H]]; auto.
Qed.
Lemma session_drop r s n : s ≠ sid → session_level n r → session_level n (Revoker.IsRevoked_drop r s).
Proof.
  intros Hs (H0 & H1 & H2). split; [intros e He; unfold Revoker.IsRevoked_drop in He; cbn in He; apply lookup_delete_Some in He as [_ He]; auto|]. split; [done|].
  intros Hn. destruct (H2 Hn) as (e & He & Hle). exists e. unfold Revoker.IsRevoked_drop. cbn.
  by rewrite lookup_delete_ne.
Qed.

(** A call that does not shorten the denial. *)
Definition keeps_session (c : revoker_call) : Prop := ∀ e, c = CallRevoke sid e → exp ≤ e.

Lemma steady_serve c : keeps_session c → steady_ (serve_revoker c).
Proof.
  intros Hc. destruct c as [s e|u cutoff e|s]; cbn [serve_revoker].
  - unfold Revoker.revoking, Revoker.persist. destruct (s == ""); [done|]. intros r now _ _.
    destruct (rs_RevokeSession _ _ _) as [st|] eqn:E; cbn [fst snd negb]; [|done]. apply rs_RevokeSession_spec in E as [E _].
    split; [|intros r' now' _ _; split; [|done]; intros n; apply session_cache; intros ->; by apply Hc].
    intros n. apply session_store. intros e' He'. destruct (Z.lt_ge_cases e' exp); [by right|left]. rewrite E.
    apply until_insert; [intros ->; by apply Hc|by exists e'].
  - unfold Revoker.revoking_user, Revoker.persist. destruct (u == ""); [done|]. intros r now _ _.
    destruct (rs_RevokeUserTokensBefore _ _ _ _) as [st|] eqn:E; cbn [fst snd negb]; [|done]. apply rs_RevokeUserTokensBefore_spec in E as [_ E].
    split; [|intros r' now' _ _; split; [|done]; intros n; unfold Revoker.cache_cutoff; by case_match; case_match].
    intros n. apply session_store. intros e' He'. destruct (Z.lt_ge_cases e' exp); [by right|left]. rewrite E. by exists e'.
  - unfold Revoker.looking_up. intros r now _ (H0 & _). cbn [fst snd]. split; [done|].
    unfold Revoker.IsRevoked_read. case_bool_decide; [done|]. destruct (Revoker.revoked r !! s) as [e|] eqn:He; [|done].
    intros r1 now1 Hnow1 _. cbn [fst snd]. split; [done|]. unfold After, before_expiry in *.
    destruct (Z.ltb_spec e now1) as [Hlt|]; [|done]. intros r2 now2 _ _. split; [|done]. intros n. apply session_drop.
    intros ->. specialize (H0 e He). lia.
Qed.

(** A revocation that is told to have worked has got to the top. *)
Lemma climbs_revoke : sid ≠ "" →
  climbs before_expiry session_level (fun n a => a = true → n = 2%nat) 0 (Revoker.revoking sid exp).
Proof.
  intros Hs. unfold Revoker.revoking, Revoker.persist. rewrite bool_decide_false by done. intros r now _ (H0 & _).
  destruct (rs_RevokeSession _ _ _) as [st|] eqn:E; cbn [fst snd negb]; [|exists 0%nat; split; [|done]; split; [done|split; lia]].
  apply rs_RevokeSession_spec in E as [E _]. exists 1%nat. split.
  - split; [done|]. split; [|lia]. intros _. cbn. rewrite E. exists exp. by rewrite lookup_insert_eq.
  - intros r' now' _ (H0' & H1 & _). exists 2%nat. split; [|done]. split; [|split; [by intros; apply H1|]].
    + intros e He. unfold Revoker.cache_session in He. cbn in He. apply lookup_insert_Some in He as [[_ <-]|[_ He]]; [lia|auto].
    + intros _. exists exp. cbn. by rewrite lookup_insert_eq.
Qed.

Lemma session_restart r now r' : Revoker.restart r now = Some r' → now < exp ≤ now + Revoker.far →
  session_level 2 r → session_level 2 r'.
Proof.
  intros Hs Ht (_ & H1 & _). unfold Revoker.restart in Hs.
  destruct (Revoker.Hydrate _ _) as [r1 ok] eqn:E1, (Revoker.HydrateUsers r1 now) as [r2 ok'] eqn:E2.
  destruct ok, ok'; cbn in Hs; try done. injection Hs as <-.
  unfold Revoker.Hydrate in E1. destruct (rs_ActiveRevokedSessions _ _) as [sids|] eqn:Ea; [|done].
  injection E1 as <-. unfold Revoker.HydrateUsers in E2.
  destruct (rs_ActiveUserRevocations _ _) as [cs|]; [|done]. injection E2 as <-.
  assert (foldl (fun set s => <[s := now + Revoker.far]> set) (∅ : gmap string time) sids !! sid = Some (now + Revoker.far)) as Hf.
  { rewrite foldl_hydrate, bool_decide_true; [done|]. apply (rs_ActiveRevokedSessions_spec _ _ _ Ea).
    destruct (H1 ltac:(lia)) as (e & He & Hle). exists e. split; [exact He | lia]. }
  split; [intros e He; pose proof (eq_trans (eq_sym Hf) He) as [= <-]; lia|]. split; [done|]. intros _. exists (now + Revoker.far). split; [exact Hf|lia].
Qed.

(** Lives that start and are asked before the expiry, and within a year of it. *)
Definition safe_life (l : Life.t) : Prop :=
  Life.starts l < exp ≤ Life.starts l + Revoker.far ∧ Forall (fun t => before_expiry t.2) (Life.turns l) ∧
  Forall keeps_session (Life.calls l).
Lemma session_lives ls : ∀ r r', lives r ls = Some r' → Forall safe_life ls → session_level 2 r → session_level 2 r'.
Proof.
  induction ls as [|l ls IH]; intros r r' Hr Hls Hd; cbn [lives] in Hr; [by injection Hr as <-|].
  apply Forall_cons in Hls as [(Hs & Ht & Hc) Hls]. destruct (Revoker.restart r (Life.starts l)) as [r1|] eqn:E; [|done].
  apply (IH (lived r1 l) r' Hr Hls). apply (preserves_schedule before_expiry (session_level 2)); [done|by eapply session_restart|].
  apply Forall_fmap. eapply Forall_impl; [exact Hc|]. intros c Hk. eapply steady_preserves; [exact session_base|by apply steady_serve].
Qed.
End Session.

(** C32. A terminated session stays out: once [Revoke] has answered that it succeeded, the
    session is refused at every moment until its expiry. Whatever else the process is
    asked at the same time (other sessions and users revoked, this one and others looked
    up), in whichever order the steps of all that come, those that take the lock twice
    and those that write the store first included, and whichever writes fail; and
    through any number of restarts in the middle of it. Provided the session is not
    revoked again with an earlier expiry; the expiry is within the year a restarted
    process keeps it; and when these calls begin the session is not on the list under an
    earlier expiry already: a lookup that has read an entry that is over, and drops it
    after the session has been revoked anew, loses the new one
    ([stale_drop_loses_revocation]). *)
Theorem terminated_session_stays_out {S : Type} {RS : SessionRevocationStore S} {RL : SessionRevocationStoreLaws S}
  (r : Revoker.t S) calls turns i sid (exp : time) ls r2 now :
  sid ≠ "" → (∀ e : time, Revoker.revoked r !! sid = Some e → exp ≤ e) →
  Forall (keeps_session sid exp) calls → Forall (fun t => t.2 < exp) turns →
  calls !! i = Some (CallRevoke sid exp) →
  let s := Threads.schedule r (serve_revoker <$> calls) turns in
  s.2 !! i = Some (Done true) →
  Forall (safe_life sid exp) ls → lives s.1 ls = Some r2 → now ≤ exp →
  (Revoker.IsRevoked r2 now sid).2 = true.
Proof.
  intros Hsid H0 Hc Ht Hi s Hdone Hls Hr2 Hnow.
  destruct (climbs_schedule (before_expiry exp) (session_level sid exp) (fun n a => a = true → n = 2%nat)
    (session_base sid exp) turns i 0 r (serve_revoker <$> calls) (Revoker.revoking sid exp)) as (n & p & Hn & Hp & Hpost).
  - done.
  - split; [exact H0|split; lia].
  - by rewrite list_lookup_fmap, Hi.
  - by apply climbs_revoke.
  - apply Forall_fmap. eapply Forall_impl; [exact Hc|]. intros c. apply steady_serve.
  - pose proof (eq_trans (eq_sym Hdone) Hp) as [= <-]. cbn in Hpost. rewrite (Hpost eq_refl) in Hn.
    destruct (session_lives sid exp ls _ _ Hr2 Hls Hn) as (_ & _ & H2). destruct (H2 ltac:(lia)) as (e & He & Hle).
    unfold Revoker.IsRevoked, Revoker.IsRevoked_read. rewrite bool_decide_false by done.
    rewrite He. unfold After. by rewrite (proj2 (Z.ltb_ge _ _)) by lia.
Qed.

(** *** A user *)

Section User.
Context {S : Type} {RS : SessionRevocationStore S} {RL : SessionRevocationStoreLaws S}.
Context (uid : string) (cutoff exp : time).
Implicit Types (r : Revoker.t S) (now : time).

(** Every token of the user from before [cutoff] denied until [exp], in the cache and in
    the store. *)
Definition user_denied r : Prop :=
  until_at_least cutoff (Revoker.userCutoff r) uid ∧
  ∃ c e, rs_users (Revoker.store r) !! uid = Some (c, e) ∧ cutoff ≤ c ∧ exp ≤ e.
Definition keeps_user (c : revoker_call) : Prop := ∀ c' e, c = CallRevokeUserBefore uid c' e → cutoff ≤ c' ∧ exp ≤ e.

Lemma user_cache r u c : (u = uid → cutoff ≤ c) → user_denied r → user_denied (Revoker.cache_cutoff r u c).
Proof.
  intros Hu [Hc Hs]. unfold Revoker.cache_cutoff. destruct (match _ with Some _ => _ | None => _ end); [|done].
  split; [|done]. by apply until_insert.
Qed.
Lemma preserves_user c : keeps_user c → preserves (fun _ : time => True) user_denied (serve_revoker c).
Proof.
  intros Hk. destruct c as [s e|u c e|s]; cbn [serve_revoker].
  - unfold Revoker.revoking, Revoker.persist. destruct (s == ""); [done|]. intros r now _ [Hc Hs].
    destruct (rs_RevokeSession _ _ _) as [st|] eqn:E; cbn [fst snd negb]; [|by split]. apply rs_RevokeSession_spec in E as [_ E].
    split; [split; [done|cbn; by rewrite E]|]. intros r' now' _ Hd. by split.
  - unfold Revoker.revoking_user, Revoker.persist. destruct (u == ""); [done|]. intros r now _ [Hc Hs].
    destruct (rs_RevokeUserTokensBefore _ _ _ _) as [st|] eqn:E; cbn [fst snd negb]; [|by split]. apply rs_RevokeUserTokensBefore_spec in E as [E _].
    split; [split; [done|]|intros r' now' _ Hd; split; [|done]; apply user_cache; [intros ->; by eapply Hk|done]].
    cbn. rewrite E. destruct (decide (u = uid)) as [->|Hne].
    + rewrite lookup_insert_eq. exists c, e. destruct (Hk c e eq_refl). auto.
    + by rewrite lookup_insert_ne.
  - unfold Revoker.looking_up. intros r now _ Hd. split; [done|]. cbn [snd]. case_match; [|done]. intros r1 now1 _ Hd1. split; [done|].
    cbn [snd]. destruct (After _ _); [|done]. intros r2 now2 _ Hd2. by split.
Qed.

Lemma user_restart r now r' : Revoker.restart r now = Some r' → now < exp → user_denied r → user_denied r'.
Proof.
  intros Hs Ht [Hc (c0 & e0 & Hp & Hc0 & He0)]. unfold Revoker.restart in Hs.
  destruct (Revoker.Hydrate _ _) as [r1 ok] eqn:E1, (Revoker.HydrateUsers r1 now) as [r2 ok'] eqn:E2.
  destruct ok, ok'; cbn in Hs; try done. injection Hs as <-.
  unfold Revoker.Hydrate in E1. destruct (rs_ActiveRevokedSessions _ _) as [sids|]; [|done].
  injection E1 as <-. unfold Revoker.HydrateUsers in E2.
  destruct (rs_ActiveUserRevocations _ _) as [cs|] eqn:Ea; [|done]. injection E2 as <-. split; cbn; [|eauto].
  exists c0. split; [|done]. apply lookup_union_Some_l.
  apply (rs_ActiveUserRevocations_spec _ _ _ Ea). exists e0. split; [exact Hp | lia].
Qed.

Lemma user_lives ls : ∀ r r', lives r ls = Some r' →
  Forall (fun l => Life.starts l < exp ∧ Forall keeps_user (Life.calls l)) ls → user_denied r → user_denied r'.
Proof.
  induction ls as [|l ls IH]; intros r r' Hr Hls Hd; cbn [lives] in Hr; [by injection Hr as <-|].
  apply Forall_cons in Hls as [(Ht & Hc) Hls]. destruct (Revoker.restart r (Life.starts l)) as [r1|] eqn:E; [|done].
  apply (IH (lived r1 l) r' Hr Hls). apply (preserves_schedule (fun _ => True) user_denied); [by apply Forall_true|by eapply user_restart|].
  apply Forall_fmap. eapply Forall_impl; [exact Hc|]. apply preserves_user.
Qed.
End User.

Section Runs.
Context {S : Type} {RS : SessionRevocationStore S} {RL : SessionRevocationStoreLaws S}.
Implicit Types (r : Revoker.t S) (now : time).

Lemma Truncate_le (t : time) d : 0 < d → Truncate t d ≤ t < Truncate t d + d.
Proof. unfold Truncate. intros Hd. pose proof (Z.mod_pos_bound t d). lia. Qed.

Lemma Truncate_mono (t u : time) d : 0 < d → t ≤ u → Truncate t d ≤ Truncate u d.
Proof.
  unfold Truncate. intros Hd Ht. pose proof (Z.div_mod t d). pose proof (Z.div_mod u d).
  pose proof (Z.div_le_mono t u d Hd Ht). nia.
Qed.

(** A password reset signs everybody out and lets the new session in:
    every token issued up to the moment of the reset, whose issue time a token
    carries in whole seconds, is refused until the last of them has expired,
    whatever else the revoker is asked and through restarts; and a token issued at the cutoff
    that the reset returns is accepted. *)
Theorem reset_signs_out r now uid ttl r1 cutoff calls turns ls r2 :
  revokeUserSessions r now uid ttl = (r1, Some cutoff) → uid ≠ "" →
  (∀ c, Revoker.userCutoff r !! uid = Some c → c ≤ cutoff) →
  Forall (keeps_user uid cutoff (cutoff + ttl)) calls →
  Forall (fun l => Life.starts l < cutoff + ttl ∧ Forall (keeps_user uid cutoff (cutoff + ttl)) (Life.calls l)) ls →
  lives (Threads.schedule r1 (serve_revoker <$> calls) turns).1 ls = Some r2 →
  (∀ issuedAt, Second ≤ issuedAt ≤ now → Revoker.IsUserRevoked r2 uid (Truncate issuedAt Second) = true) ∧
  Revoker.IsUserRevoked r1 uid cutoff = false.
Proof.
  unfold revokeUserSessions. destruct (ttl <=? 0); [done|].
  destruct (Revoker.RevokeUserBefore r uid _ _) as [r' ok] eqn:Er. destruct ok; [|done].
  intros [= <- <-] Hu Hc Hcalls Hls Hr2. unfold Revoker.RevokeUserBefore in Er.
  rewrite bool_decide_false in Er by done.
  destruct (rs_RevokeUserTokensBefore _ _ _ _) as [s|] eqn:E; [|done].
  apply rs_RevokeUserTokensBefore_spec in E as [E _]. injection Er as <-.
  assert (∃ c, (if match Revoker.userCutoff r !! uid with
                   | Some existing => After (reset_cutoff now) existing | None => true end
           then <[uid := reset_cutoff now]> (Revoker.userCutoff r) else Revoker.userCutoff r) !! uid = Some c ∧
          reset_cutoff now = c) as (c & Hlook & <-).
  { destruct (Revoker.userCutoff r !! uid) as [x|] eqn:Ex.
    - specialize (Hc x eq_refl). destruct (After (reset_cutoff now) x) eqn:Ea.
      + exists (reset_cutoff now). by rewrite lookup_insert_eq.
      + exists x. split; [done|]. apply Z.ltb_ge in Ea. lia.
    - exists (reset_cutoff now). by rewrite lookup_insert_eq. }
  split.
  - intros issuedAt Hi.
    assert (user_denied uid (reset_cutoff now) (reset_cutoff now + ttl) r2) as [(c & Hc2 & Hle) _].
    { apply (user_lives _ _ _ _ _ _ Hr2 Hls). apply (preserves_schedule (fun _ => True) (user_denied _ _ _)).
      { by apply Forall_true. }
      2:{ apply Forall_fmap. eapply Forall_impl; [exact Hcalls|]. intros c0. apply preserves_user. }
      split; cbn.
      - exists (reset_cutoff now). split; [exact Hlook | lia].
      - rewrite E, lookup_insert_eq. do 2 eexists. split; [done | lia]. }
    unfold Revoker.IsUserRevoked. rewrite bool_decide_false by done.
    pose proof (Truncate_mono Second issuedAt Second eq_refl (proj1 Hi)) as H1.
    pose proof (Truncate_mono issuedAt now Second eq_refl (proj2 Hi)) as H2.
    unfold reset_cutoff in Hle. change (Truncate Second Second) with Second in H1.
    unfold IsZero, zero_time. rewrite bool_decide_false by (unfold Second in *; lia).
    cbn [orb]. rewrite Hc2. apply Z.ltb_lt. unfold Second in *. lia.
  - unfold Revoker.IsUserRevoked. cbn [Revoker.userCutoff]. destruct (_ || _); [done|].
    rewrite Hlook. apply Z.ltb_irrefl.
Qed.
End Runs.

(** ** Witnesses *)

Definition sample_revoker : Revoker.t (Memory.t unit) := Revoker.NewSessionRevoker (Memory.NewMemory None).
#[local] Existing Instance order_fwd.

Definition sample_calls : list revoker_call :=
  [CallIsRevoked "sid"; CallRevoke "sid" 1000; CallRevoke "other" 40; CallIsRevoked "sid"; CallRevokeUserBefore "uid" 60 900].
(** The revocation's two steps with others between them. *)
Definition sample_turns : list (nat * time) :=
  [(0%nat, 5); (1%nat, 6); (3%nat, 7); (2%nat, 8); (1%nat, 9); (4%nat, 10); (2%nat, 11)].
Definition sample_lives : list Life.t :=
  [Life.mk 20 [CallIsRevoked "sid"; CallIsRevoked "other"; CallRevoke "sid" 2000]
     [(0%nat, 30); (1%nat, 31); (0%nat, 32); (2%nat, 33)];
   Life.mk 60 [CallIsRevoked "sid"] [(0%nat, 70); (0%nat, 71)]].
Definition sample_served := Threads.schedule sample_revoker (serve_revoker <$> sample_calls) sample_turns.

Lemma terminated_session_stays_out_witness :
  sample_served.2 !! 1%nat = Some (Done true) ∧
  match lives sample_served.1 sample_lives with
  | Some r2 => (Revoker.IsRevoked r2 999 "sid").2 = true
  | None => False
  end.
Proof.
  assert (sample_served.2 !! 1%nat = Some (Done true)) as Hd by (vm_compute; reflexivity). split; [exact Hd|].
  destruct (lives sample_served.1 sample_lives) as [r2|] eqn:H; [|vm_compute in H; discriminate].
  refine (terminated_session_stays_out sample_revoker sample_calls sample_turns 1 "sid" 1000 sample_lives r2 999
    _ _ _ _ _ Hd _ H _).
  - discriminate.
  - intros e He. vm_compute in He. discriminate He.
  - unfold sample_calls. rewrite !Forall_cons, Forall_nil.
    repeat (split; [intros e He; first [discriminate He|injection He as <-; lia]|]). exact I.
  - unfold sample_turns. rewrite !Forall_cons, Forall_nil. cbn [snd]. lia.
  - reflexivity.
  - unfold sample_lives, safe_life, before_expiry. rewrite !Forall_cons, !Forall_nil.
    cbn [Life.starts Life.turns Life.calls]. rewrite !Forall_cons, !Forall_nil. cbn [snd].
    assert (1000 ≤ 20 + Revoker.far ∧ 1000 ≤ 60 + Revoker.far) as [? ?] by (vm_compute; split; discriminate).
    split_and!; try exact I; try lia; intros e He; first [discriminate He|injection He as <-; lia].
  - vm_compute. discriminate.
Defined.

Definition sample_reset : Revoker.t (Memory.t unit) :=
  (revokeUserSessions sample_revoker (100 * Second + 500) "uid" Hour).1.
Definition reset_life : Life.t := Life.mk (100 * Second + 507) [CallIsRevoked "sid"] [(0%nat, 100 * Second + 600)].

Lemma reset_signs_out_witness :
  match lives sample_reset [reset_life] with
  | Some r2 => Revoker.IsUserRevoked r2 "uid" (Truncate (100 * Second + 500) Second) = true
  | None => False
  end.
Proof.
  destruct (lives sample_reset _) as [r2|] eqn:H; [|vm_compute in H; discriminate].
  refine (proj1 (reset_signs_out sample_revoker (100 * Second + 500) "uid" Hour sample_reset (101 * Second)
    [] [] [reset_life] r2 _ _ _ _ _ H) (100 * Second + 500) _).
  - vm_compute. reflexivity.
  - discriminate.
  - intros c. unfold sample_revoker. cbn [Revoker.userCutoff Revoker.NewSessionRevoker].
    rewrite lookup_empty. discriminate.
  - constructor.
  - rewrite Forall_cons, Forall_nil. split; [|exact I]. split; [vm_compute; reflexivity|].
    unfold reset_life. cbn [Life.calls]. rewrite Forall_cons, Forall_nil. split; [|exact I]. intros c e He. discriminate He.
  - split; vm_compute; discriminate.
Defined.

(** The cache never moves a cutoff backwards, but the store does: a later
    revocation with an earlier cutoff takes over at the next restart. *)
Example cutoff_moves_back_at_restart :
  let r := (Revoker.RevokeUserBefore sample_revoker "uid" 1000 9000).1 in
  let r := (Revoker.RevokeUserBefore r "uid" 600 9000).1 in
  Revoker.IsUserRevoked r "uid" 800 = true ∧
  (fun r' => Revoker.IsUserRevoked r' "uid" 800) <$> Revoker.restart r 2000 = Some false.
Proof. vm_compute. done. Qed.

(** A lookup that finds an entry stale and drops it after the session has been
    revoked anew drops the new entry. *)
Example stale_drop_loses_revocation :
  let r := (Revoker.Revoke sample_revoker "sid" 100).1 in
  let s := Threads.schedule r (serve_revoker <$> [CallIsRevoked "sid"; CallRevoke "sid" 900])
    [(0%nat, 150); (0%nat, 150); (1%nat, 151); (1%nat, 152); (0%nat, 153)] in
  s.2 = [Done false; Done true] ∧ (Revoker.IsRevoked s.1 160 "sid").2 = false.
Proof. vm_compute. done. Qed.
