(* ===== verification/Tokens.v ===== *)
(** * Package auth: tokens

    [api/internal/auth/token.go] and [middleware.go]: how a host signs its
    tokens, which it accepts, and what a request that carries one may do. The
    JWT library is the interface [Jwt], with what it documents of parsing and
    signing; the revoker is [Auth.Revoker]. *)

From S2P Require Import Prelude.
From S2P Require Import GoStrings.
From S2P Require Import Domain.
From S2P Require Import Crypto.
From S2P Require Import StoreState.
From S2P Require Import Auth.

Definition AccessToken : string := "access".
Definition RefreshToken : string := "refresh".

Inductive token_err : Type := ErrInvalidToken.

Module Claims.
Record t := mk {
  Type_ : string; Role : string; SID : string;
  Subject : string; Issuer : string; Audience : list string;
  IssuedAt : option time; ExpiresAt : option time
}.
#[global] Instance eta : Eta t := fun r =>
  mk (Type_ r) (Role r) (SID r) (Subject r) (Issuer r) (Audience r) (IssuedAt r) (ExpiresAt r).
End Claims.

(** ** The JWT library *)

Inductive jwt_method : Type := MethodHMAC | MethodEd25519 | MethodOther.

(** The header of a token; an absent [kid] reads as empty. *)
Module JwtHeader.
Record t := mk { Method : jwt_method; Kid : string }.
End JwtHeader.

Inductive sign_key : Type := SignSecret (secret : bytes) | SignPrivate (key : bytes).
Inductive verify_key : Type := VerifySecret (secret : bytes) | VerifyPublic (pub : bytes).

Definition verifying {E : Ed25519} (k : sign_key) : verify_key :=
  match k with SignSecret s => VerifySecret s | SignPrivate k => VerifyPublic (ed_public k) end.

(** Dates in a token are whole seconds. *)
Definition whole_seconds (c : Claims.t) : Prop :=
  (∀ t, Claims.IssuedAt c = Some t → t mod Second = 0) ∧
  (∀ t, Claims.ExpiresAt c = Some t → t mod Second = 0).

(** [ParseWithClaims] at a time, [None] for an error or a token that is not
    valid; [SignedString]. A token that parses was signed by the key its header
    was given, and has not expired; a token that was signed parses under the
    verifying half of its key. *)
Class Jwt {E : Ed25519} := {
  jwt_ParseWithClaims : string → (JwtHeader.t → option verify_key) → time → option Claims.t;
  jwt_SignedString : JwtHeader.t → Claims.t → sign_key → option string;
  jwt_read : string → option (JwtHeader.t * Claims.t);
  jwt_signed : string → verify_key → Prop;
  jwt_parse_sound tok f now c : jwt_ParseWithClaims tok f now = Some c →
    ∃ h k, jwt_read tok = Some (h, c) ∧ f h = Some k ∧ jwt_signed tok k ∧
      ∀ e, Claims.ExpiresAt c = Some e → now < e;
  jwt_parse_complete tok f now h c k : jwt_SignedString h c k = Some tok →
    f h = Some (verifying k) → whole_seconds c →
    (∀ e, Claims.ExpiresAt c = Some e → now < e) → jwt_ParseWithClaims tok f now = Some c
}.

(** ** The token manager *)

(** The fingerprint of a public key. *)
Definition HostKeyID (pub : bytes) : string := base64url (string_take 12 (sha256 pub)).

Module TokenManager.
Record t := mk {
  secret : bytes; accessTTL : Z; refreshTTL : Z;
  signKey : option bytes; verifyKey : option bytes; keyID : string; issuer : string;
  legacyUntil : time
}.
#[global] Instance eta : Eta t := fun r =>
  mk (secret r) (accessTTL r) (refreshTTL r) (signKey r) (verifyKey r) (keyID r) (issuer r)
    (legacyUntil r).

Definition NewTokenManager (secret : string) (accessTTL refreshTTL : Z) : t :=
  mk secret accessTTL refreshTTL None None "" "" zero_time.
Definition AllowLegacyHS256Until (m : t) (deadline : time) : t := m <| legacyUntil := deadline |>.
Definition legacyHS256Allowed (m : t) (now : time) : bool :=
  negb (IsZero (legacyUntil m)) && Before now (legacyUntil m).

Section TokenManager.
Context {E : Ed25519}.

Definition UseHostKey (m : t) (key : bytes) (iss : string) : t :=
  m <| signKey := Some key |> <| verifyKey := Some (ed_public key) |> <| issuer := iss |>
    <| keyID := HostKeyID (ed_public key) |>.

(** The time a token carries. *)
Definition NumericDate (t : time) : time := Truncate t Second.

Definition claims_at (m : t) (userID role sessionID typ : string) (ttl : Z) (now : time) : Claims.t :=
  Claims.mk typ role sessionID userID (issuer m)
    (if issuer m == "" then [] else [issuer m])
    (Some (NumericDate now)) (Some (NumericDate (now + ttl))).

Context {J : Jwt}.

Definition signAt (m : t) (userID role sessionID typ : string) (ttl : Z) (now : time) : option string :=
  let claims := claims_at m userID role sessionID typ ttl now in
  match signKey m with
  | None => jwt_SignedString (JwtHeader.mk MethodHMAC "") claims (SignSecret (secret m))
  | Some key => jwt_SignedString (JwtHeader.mk MethodEd25519 (keyID m)) claims (SignPrivate key)
  end.

Definition issueWithSessionAt (m : t) (userID role sessionID : string) (issuedAt : time)
  : option (string * string) :=
  match signAt m userID role sessionID AccessToken (accessTTL m) issuedAt with
  | None => None
  | Some access =>
      match signAt m userID role sessionID RefreshToken (refreshTTL m) issuedAt with
      | None => None
      | Some refresh => Some (access, refresh)
      end
  end.

(** [random] is what [newSessionID] draws. *)
Definition IssueAt (m : t) (userID role : string) (issuedAt : time) (random : bytes)
  : option (string * string * string) :=
  let sid := base64url random in
  (fun p => (p, sid)) <$> issueWithSessionAt m userID role sid issuedAt.
Definition IssueWithSession (m : t) (userID role sessionID : string) (now : time) :=
  issueWithSessionAt m userID role sessionID now.

(** The key a token is verified with, chosen by its header. *)
Definition keyfunc (m : t) (now : time) (h : JwtHeader.t) : option verify_key :=
  match JwtHeader.Method h with
  | MethodHMAC =>
      if bool_decide (signKey m ≠ None) && negb (legacyHS256Allowed m now) then None
      else if slen (secret m) =? 0 then None
      else Some (VerifySecret (secret m))
  | MethodEd25519 =>
      match verifyKey m with
      | None => None
      | Some pub => if JwtHeader.Kid h != keyID m then None else Some (VerifyPublic pub)
      end
  | MethodOther => None
  end.

Definition ParseClaims (m : t) (token want : string) (now : time) : result token_err Claims.t :=
  match jwt_ParseWithClaims token (keyfunc m now) now with
  | None => Err ErrInvalidToken
  | Some c =>
      if Claims.Type_ c != want then Err ErrInvalidToken
      else if (Claims.Issuer c != "") && (issuer m != "") && (Claims.Issuer c != issuer m)
      then Err ErrInvalidToken
      else if negb (length (Claims.Audience c) =? 0)%nat && (issuer m != "")
              && negb (bool_decide (issuer m ∈ Claims.Audience c))
      then Err ErrInvalidToken
      else Ok c
  end.

(** ** Authorization

    The revoker and the account store are optional; a lookup may change the
    revoker, which drops entries that have gone stale. *)

Section Authorize.
Context {S : Type}.
Implicit Types (revoker : option (Revoker.t S)) (accounts : option (string → result store_err User.t)).

Definition Revoked revoker (claims : Claims.t) (now : time) : option (Revoker.t S) * bool :=
  match revoker with
  | None => (None, false)
  | Some r =>
      let '(r, denied) := Revoker.IsRevoked r now (Claims.SID claims) in
      (Some r,
       denied || match Claims.IssuedAt claims with
                 | None => false
                 | Some t => Revoker.IsUserRevoked r (Claims.Subject claims) t
                 end)
  end.

Definition AuthorizeClaims revoker accounts (claims : Claims.t) (now : time)
  : option (Revoker.t S) * result token_err string :=
  let '(revoker, denied) := Revoked revoker claims now in
  (revoker,
   if denied then Err ErrInvalidToken
   else match accounts with
   | None => Ok (Claims.Role claims)
   | Some UserByID =>
       match UserByID (Claims.Subject claims) with
       | Err _ => Err ErrInvalidToken
       | Ok u =>
           if User.Status u == UserBlocked then Err ErrInvalidToken
           else if User.Role u == "" then Ok RoleUser else Ok (User.Role u)
       end
   end).

(** What the next handler finds in its context: the user, the role, the
    session; [None] is the 401. *)
Definition Middleware {U : Unicode} (m : t) revoker accounts (authorization : string) (now : time)
  : option (Revoker.t S) * option (string * string * string) :=
  if HasPrefix authorization "Bearer " then
    let token := TrimSpace (string_drop 7 authorization) in
    if token == "" then (revoker, None)
    else match ParseClaims m token AccessToken now with
    | Err _ => (revoker, None)
    | Ok claims =>
        let '(revoker, r) := AuthorizeClaims revoker accounts claims now in
        (revoker, match r with
                  | Err _ => None
                  | Ok role => Some (Claims.Subject claims, role, Claims.SID claims)
                  end)
    end
  else (revoker, None).
End Authorize.
End TokenManager.
End TokenManager.

(** ** Lemmas *)

Section Parse.
Context {E : Ed25519} {J : Jwt}.
Implicit Types (m : TokenManager.t) (now : time) (c : Claims.t).

(** The facts behind an accepted token. *)
Record accepted m tok want now c h k : Prop := {
  at_read : jwt_read tok = Some (h, c);
  at_key : TokenManager.keyfunc m now h = Some k;
  at_signed : jwt_signed tok k;
  at_live : ∀ e, Claims.ExpiresAt c = Some e → now < e;
  at_type : Claims.Type_ c = want;
  at_issuer : Claims.Issuer c = "" ∨ TokenManager.issuer m = "" ∨ Claims.Issuer c = TokenManager.issuer m;
  at_audience : Claims.Audience c = [] ∨ TokenManager.issuer m = "" ∨
    TokenManager.issuer m ∈ Claims.Audience c
}.

Lemma ParseClaims_accepted m tok want now c :
  TokenManager.ParseClaims m tok want now = Ok c → ∃ h k, accepted m tok want now c h k.
Proof.
  unfold TokenManager.ParseClaims. destruct (jwt_ParseWithClaims _ _ _) as [c'|] eqn:Ep; [|done].
  destruct (bool_decide_reflect (Claims.Type_ c' = want)) as [Ht|]; cbn [negb]; [|done].
  destruct ((Claims.Issuer c' != "") && _ && _) eqn:Ei; [done|].
  destruct (negb (length (Claims.Audience c') =? 0)%nat && _ && _) eqn:Ea; [done|].
  intros [= <-]. destruct (jwt_parse_sound _ _ _ _ Ep) as (h & k & H1 & H2 & H3 & H4).
  exists h, k. split; try done.
  - repeat case_bool_decide; try done; auto.
  - destruct (Claims.Audience c') as [|x l]; [by left|]. repeat case_bool_decide; try done; auto.
Qed.
End Parse.

(** C23. No weaker signature: a token that a host accepts was signed under the
    key its own configuration prescribes. With a host key it is an Ed25519
    signature under that key, with its key id; the shared secret counts only
    for a host with no key of its own, or before the end of the migration it
    has announced, and never an empty one. The token is of the wanted type, has
    not expired, and names no other issuer or audience. *)
Theorem ParseClaims_signed {E : Ed25519} {J : Jwt} m tok want now c :
  TokenManager.ParseClaims m tok want now = Ok c →
  ∃ h, jwt_read tok = Some (h, c) ∧
  (JwtHeader.Method h = MethodEd25519 ∧ JwtHeader.Kid h = TokenManager.keyID m ∧
     (∃ pub, TokenManager.verifyKey m = Some pub ∧ jwt_signed tok (VerifyPublic pub)) ∨
   JwtHeader.Method h = MethodHMAC ∧ jwt_signed tok (VerifySecret (TokenManager.secret m)) ∧
     TokenManager.secret m ≠ "" ∧
     (TokenManager.signKey m = None ∨
      TokenManager.legacyUntil m ≠ zero_time ∧ now < TokenManager.legacyUntil m)) ∧
  Claims.Type_ c = want ∧ (∀ e, Claims.ExpiresAt c = Some e → now < e) ∧
  (TokenManager.issuer m ≠ "" →
     (Claims.Issuer c = "" ∨ Claims.Issuer c = TokenManager.issuer m) ∧
     (Claims.Audience c = [] ∨ TokenManager.issuer m ∈ Claims.Audience c)).
Proof.
  intros (h & k & A)%ParseClaims_accepted. exists h. split; [apply A|].
  pose proof (at_issuer _ _ _ _ _ _ _ A). pose proof (at_audience _ _ _ _ _ _ _ A).
  split; [|split; [apply A|split; [apply A|naive_solver]]].
  pose proof (at_key _ _ _ _ _ _ _ A) as Hk. pose proof (at_signed _ _ _ _ _ _ _ A) as Hs.
  unfold TokenManager.keyfunc in Hk. destruct (JwtHeader.Method h); [right | left | done].
  - destruct (bool_decide (TokenManager.signKey m ≠ None) && _) eqn:El; [done|].
    destruct (Z.eqb_spec (slen (TokenManager.secret m)) 0) as [|Hne]; [done|]. injection Hk as <-.
    split; [done|]. split; [done|]. split; [intros He; apply Hne; by rewrite He|].
    apply andb_false_iff in El as [El|El].
    + left. apply bool_decide_eq_false in El. destruct (TokenManager.signKey m); [exfalso; by apply El | done].
    + right. apply negb_false_iff in El. unfold TokenManager.legacyHS256Allowed in El.
      apply andb_true_iff in El as [E1%negb_true_iff E2%Z.ltb_lt]. split; [|done].
      unfold IsZero in E1. by apply bool_decide_eq_false in E1.
  - destruct (TokenManager.verifyKey m) as [pub|]; [|done].
    destruct (bool_decide_reflect (JwtHeader.Kid h = TokenManager.keyID m)); cbn in Hk; [|done].
    injection Hk as <-. split; [done|]. split; [done|]. by exists pub.
Qed.

(** ** Issued tokens *)

Section Issue.
Context {E : Ed25519} {J : Jwt}.
Implicit Types (m : TokenManager.t) (now : time).

(** A manager whose halves of the key belong together, or one with a secret. *)
Definition configured m : Prop :=
  match TokenManager.signKey m with
  | Some key => TokenManager.verifyKey m = Some (ed_public key)
  | None => TokenManager.secret m ≠ ""
  end.

Lemma NumericDate_whole t : TokenManager.NumericDate t mod Second = 0.
Proof.
  unfold TokenManager.NumericDate, Truncate. rewrite Zminus_mod, Z.mod_mod, Z.sub_diag by done. done.
Qed.

Lemma signAt_parses m uid role sid typ want ttl now now' tok :
  configured m → TokenManager.signAt m uid role sid typ ttl now = Some tok →
  now' < TokenManager.NumericDate (now + ttl) →
  TokenManager.ParseClaims m tok want now' =
  if bool_decide (typ = want) then Ok (TokenManager.claims_at m uid role sid typ ttl now)
  else Err ErrInvalidToken.
Proof.
  unfold configured, TokenManager.signAt. intros Hm Hs Hn.
  set (c := TokenManager.claims_at m uid role sid typ ttl now) in *.
  assert (whole_seconds c) as Hw by (split; intros t [= <-]; apply NumericDate_whole).
  assert (∀ e, Claims.ExpiresAt c = Some e → now' < e) as He by (by intros e [= <-]).
  assert (jwt_ParseWithClaims tok (TokenManager.keyfunc m now') now' = Some c) as Hp.
  { destruct (TokenManager.signKey m) as [key|] eqn:Ek.
    - eapply jwt_parse_complete; [exact Hs | | done..]. unfold TokenManager.keyfunc. cbn.
      rewrite Hm, bool_decide_true by done. done.
    - eapply jwt_parse_complete; [exact Hs | | done..]. unfold TokenManager.keyfunc. cbn.
      rewrite Ek. cbn. destruct (Z.eqb_spec (slen (TokenManager.secret m)) 0) as [Hz|]; [|done].
      exfalso. apply Hm. destruct (TokenManager.secret m); [done|]. unfold slen in Hz. cbn in Hz. lia. }
  unfold TokenManager.ParseClaims. rewrite Hp. cbn [Claims.Type_ c TokenManager.claims_at].
  destruct (bool_decide (typ = want)); cbn [negb]; [|done].
  clear Hs Hw He Hp. subst c. unfold TokenManager.claims_at. cbn [Claims.Issuer Claims.Audience].
  destruct (bool_decide_reflect (TokenManager.issuer m = "")) as [Hi|Hi]; [done|].
  rewrite (bool_decide_true (TokenManager.issuer m = TokenManager.issuer m)) by done.
  rewrite (bool_decide_true (_ ∈ _)) by by left. done.
Qed.

(** What is issued is accepted as the type it was issued as, up to its expiry
    and not from then on. *)
Lemma signAt_exact m uid role sid typ ttl now now' tok want :
  configured m → TokenManager.signAt m uid role sid typ ttl now = Some tok →
  TokenManager.ParseClaims m tok want now' =
  if bool_decide (typ = want) && (now' <? TokenManager.NumericDate (now + ttl))
  then Ok (TokenManager.claims_at m uid role sid typ ttl now) else Err ErrInvalidToken.
Proof.
  intros Hm Hs. set (e := TokenManager.NumericDate (now + ttl)).
  pose proof (fun n want => signAt_parses m uid role sid typ want ttl now n tok Hm Hs) as Hp.
  destruct (Z.ltb_spec now' e) as [Hlt|Hge].
  - rewrite (Hp _ _ Hlt). by destruct (bool_decide (typ = want)).
  - rewrite andb_false_r. destruct (TokenManager.ParseClaims m tok want now') as [c|[]] eqn:Ec; [|done].
    pose proof (Hp (e - 1) typ ltac:(subst e; lia)) as Hb. rewrite bool_decide_true in Hb by done.
    apply ParseClaims_accepted in Ec as (h & k & A). apply ParseClaims_accepted in Hb as (h' & k' & A').
    pose proof (at_read _ _ _ _ _ _ _ A) as R. rewrite (at_read _ _ _ _ _ _ _ A') in R. injection R as _ <-.
    pose proof (at_live _ _ _ _ _ _ _ A e eq_refl). lia.
Qed.

(** C38. A login works, for what it is meant and for as long as it is meant. Of an issued
    pair, the access token is accepted as an access token of the user, role and
    session it was issued for until the access lifetime is over, the refresh token as
    a refresh token until the refresh lifetime is over; each is
    refused from then on, whatever the other's; and at no time does either pass for
    the other. *)
Theorem issued_tokens_accepted m uid role sid now access refresh :
  configured m →
  TokenManager.issueWithSessionAt m uid role sid now = Some (access, refresh) →
  ∀ now',
  (if now' <? TokenManager.NumericDate (now + TokenManager.accessTTL m)
   then ∃ c, TokenManager.ParseClaims m access AccessToken now' = Ok c ∧
     Claims.Subject c = uid ∧ Claims.Role c = role ∧ Claims.SID c = sid
   else TokenManager.ParseClaims m access AccessToken now' = Err ErrInvalidToken) ∧
  (if now' <? TokenManager.NumericDate (now + TokenManager.refreshTTL m)
   then ∃ c, TokenManager.ParseClaims m refresh RefreshToken now' = Ok c ∧
     Claims.Subject c = uid ∧ Claims.Role c = role ∧ Claims.SID c = sid
   else TokenManager.ParseClaims m refresh RefreshToken now' = Err ErrInvalidToken) ∧
  TokenManager.ParseClaims m access RefreshToken now' = Err ErrInvalidToken ∧
  TokenManager.ParseClaims m refresh AccessToken now' = Err ErrInvalidToken.
Proof.
  intros Hm Hi now'. unfold TokenManager.issueWithSessionAt in Hi.
  destruct (TokenManager.signAt m uid role sid AccessToken _ now) as [a|] eqn:E1; [|done].
  destruct (TokenManager.signAt m uid role sid RefreshToken _ now) as [r|] eqn:E2; [|done].
  injection Hi as <- <-.
  rewrite !(signAt_exact _ _ _ _ _ _ _ _ _ _ Hm E1), !(signAt_exact _ _ _ _ _ _ _ _ _ _ Hm E2).
  split_and!; try reflexivity; cbn [andb]; destruct (now' <? _); try reflexivity;
    eexists; (split; [reflexivity | done]).
Qed.
End Issue.

(** ** Authorized requests *)

Lemma AuthorizeClaims_ok {S} (r : Revoker.t S) UserByID c now r' role :
  TokenManager.AuthorizeClaims (Some r) (Some UserByID) c now = (r', Ok role) →
  (Claims.SID c = "" ∨ ∀ e : time, Revoker.revoked r !! Claims.SID c = Some e → e < now) ∧
  (∀ t cutoff : time, Claims.IssuedAt c = Some t → t ≠ zero_time → Claims.Subject c ≠ "" →
     Revoker.userCutoff r !! Claims.Subject c = Some cutoff → cutoff ≤ t) ∧
  ∃ u, UserByID (Claims.Subject c) = Ok u ∧ User.Status u ≠ UserBlocked ∧
    role = if User.Role u == "" then RoleUser else User.Role u.
Proof.
  unfold TokenManager.AuthorizeClaims, TokenManager.Revoked.
  destruct (Revoker.IsRevoked r now (Claims.SID c)) as [r1 denied] eqn:Er.
  destruct (denied || _) eqn:Ed; [done|]. apply orb_false_iff in Ed as [-> Hu].
  destruct (UserByID _) as [u|] eqn:Eu; [|done].
  destruct (bool_decide_reflect (User.Status u = UserBlocked)) as [|Hb]; [done|]. intros Hr.
  assert (role = if User.Role u == "" then RoleUser else User.Role u) as ->
    by (destruct (User.Role u == ""); congruence).
  assert (Revoker.userCutoff r1 = Revoker.userCutoff r ∧
    (Claims.SID c = "" ∨ ∀ e : time, Revoker.revoked r !! Claims.SID c = Some e → e < now)) as [Hc Hs].
  { unfold Revoker.IsRevoked, Revoker.IsRevoked_read in Er.
    destruct (bool_decide_reflect (Claims.SID c = "")); [injection Er as <-; by auto|].
    destruct (Revoker.revoked r !! Claims.SID c) as [e|] eqn:Ee; [|injection Er as <-; split; [done | by right]].
    unfold After in Er. destruct (Z.ltb_spec e now); [|done]. injection Er as <-.
    split; [done|]. right. by intros e' [= <-]. }
  split; [done|]. split; [|by exists u].
  intros t cutoff Ht Hz Hsub Hcut. rewrite Ht in Hu. unfold Revoker.IsUserRevoked in Hu.
  rewrite bool_decide_false in Hu by done. unfold IsZero in Hu. rewrite bool_decide_false in Hu by done.
  cbn [orb] in Hu. rewrite Hc, Hcut in Hu. by apply Z.ltb_ge in Hu.
Qed.

(** What a protected handler may rely on: when the middleware lets a
    request through, it carried a valid access token of this host for that
    user and session, the session is not revoked, the token is not older than
    the user's cutoff, and the account exists and is not blocked at this
    moment; the role is the account's, not the token's. *)
Theorem Middleware_guards {E : Ed25519} {J : Jwt} {U : Unicode} {S}
    m (r : Revoker.t S) UserByID authorization now r' uid role sid :
  TokenManager.Middleware m (Some r) (Some UserByID) authorization now = (r', Some (uid, role, sid)) →
  ∃ tok c u, TokenManager.ParseClaims m tok AccessToken now = Ok c ∧
    Claims.Subject c = uid ∧ Claims.SID c = sid ∧
    (sid = "" ∨ ∀ e : time, Revoker.revoked r !! sid = Some e → e < now) ∧
    (∀ t cutoff : time, Claims.IssuedAt c = Some t → t ≠ zero_time → uid ≠ "" →
       Revoker.userCutoff r !! uid = Some cutoff → cutoff ≤ t) ∧
    UserByID uid = Ok u ∧ User.Status u ≠ UserBlocked ∧
    role = if User.Role u == "" then RoleUser else User.Role u.
Proof.
  unfold TokenManager.Middleware. destruct (HasPrefix _ _); [|done].
  destruct (TrimSpace _ == ""); [done|]. destruct (TokenManager.ParseClaims _ _ _ _) as [c|] eqn:Ep; [|done].
  destruct (TokenManager.AuthorizeClaims _ _ c now) as [r1 [role'|]] eqn:Ea; [|done].
  intros [= -> <- -> <-]. destruct (AuthorizeClaims_ok _ _ _ _ _ _ Ea) as (H1 & H2 & u & H3 & H4 & H5).
  by exists (TrimSpace (string_drop 7 authorization)), c, u.
Qed.

(** ** Witnesses *)

#[global] Instance Claims_eq_dec : EqDecision Claims.t.
Proof. solve_decision. Defined.
#[global] Instance jwt_method_eq_dec : EqDecision jwt_method.
Proof. solve_decision. Defined.
#[global] Instance JwtHeader_eq_dec : EqDecision JwtHeader.t.
Proof. solve_decision. Defined.
#[global] Instance sign_key_eq_dec : EqDecision sign_key.
Proof. solve_decision. Defined.
#[global] Instance verify_key_eq_dec : EqDecision verify_key.
Proof. solve_decision. Defined.

(** A library that knows a few tokens, each under its name. *)
Section ToyJwt.
Context {E : Ed25519}.

Definition toy_token : Type := string * (JwtHeader.t * Claims.t * sign_key).

Definition toy_live (c : Claims.t) (now : time) : bool :=
  match Claims.ExpiresAt c with Some e => now <? e | None => true end.

Fixpoint toy_find (tokens : list toy_token) (tok : string) : option (JwtHeader.t * Claims.t * sign_key) :=
  match tokens with
  | [] => None
  | (name, x) :: rest => if name == tok then Some x else toy_find rest tok
  end.
Fixpoint toy_name (tokens : list toy_token) (x : JwtHeader.t * Claims.t * sign_key) : option string :=
  match tokens with
  | [] => None
  | (name, y) :: rest => if y == x then Some name else toy_name rest x
  end.

Lemma toy_name_elem tokens x tok : toy_name tokens x = Some tok → tok ∈ tokens.*1.
Proof.
  induction tokens as [|[name y] tokens IH]; cbn [toy_name]; [done|].
  destruct (y == x); [intros [= ->]; by left | intros H; right; by apply IH].
Qed.

Lemma toy_find_name tokens x tok : NoDup tokens.*1 → toy_name tokens x = Some tok → toy_find tokens tok = Some x.
Proof.
  induction tokens as [|[name y] tokens IH]; cbn [toy_name toy_find]; [done|].
  rewrite fmap_cons. intros [Hn Hnd]%NoDup_cons.
  destruct (bool_decide_reflect (y = x)) as [->|].
  - intros [= ->]. by rewrite bool_decide_true.
  - intros H. rewrite bool_decide_false; [by apply IH|]. intros ->. apply Hn. by eapply toy_name_elem.
Qed.

Definition toy_parse (tokens : list toy_token) tok (f : JwtHeader.t → option verify_key) (now : time)
  : option Claims.t :=
  match toy_find tokens tok with
  | Some (h, c, k) => if bool_decide (f h = Some (verifying k)) && toy_live c now then Some c else None
  | None => None
  end.

Definition toy_jwt (tokens : list toy_token) (Hnd : NoDup tokens.*1) : Jwt.
Proof.
  refine {| jwt_ParseWithClaims := toy_parse tokens;
            jwt_SignedString h c k := toy_name tokens (h, c, k);
            jwt_read tok := fst <$> toy_find tokens tok;
            jwt_signed tok k := ∃ h c k', toy_find tokens tok = Some (h, c, k') ∧ k = verifying k' |}.
  - intros tok f now c. unfold toy_parse. destruct (toy_find tokens tok) as [[[h c'] k]|] eqn:Et; [|done].
    destruct (bool_decide_reflect (f h = Some (verifying k))) as [Hf|]; [|done]. cbn.
    destruct (toy_live c' now) eqn:El; [|done]. intros [= <-]. exists h, (verifying k).
    split; [done|]. split; [done|]. split; [by exists h, c', k|].
    intros e He. unfold toy_live in El. rewrite He in El. by apply Z.ltb_lt.
  - intros tok f now h c k Hn Hf _ He. unfold toy_parse. rewrite (toy_find_name _ _ _ Hnd Hn).
    rewrite bool_decide_true by done. unfold toy_live. cbn.
    destruct (Claims.ExpiresAt c) as [e|]; [|done]. by rewrite (proj2 (Z.ltb_lt _ _)) by by apply He.
Defined.
End ToyJwt.

Definition sample_manager : TokenManager.t :=
  TokenManager.UseHostKey (E := toy_ed25519) (TokenManager.NewTokenManager "secret" Minute Hour) "seed" "a.example".
Definition sample_tokens : list toy_token :=
  let h := JwtHeader.mk MethodEd25519 (TokenManager.keyID sample_manager) in
  [("access", (h, TokenManager.claims_at sample_manager "uid" "user" "sid" AccessToken Minute (1000 * Second),
               SignPrivate "seed"));
   ("refresh", (h, TokenManager.claims_at sample_manager "uid" "user" "sid" RefreshToken Hour (1000 * Second),
               SignPrivate "seed"))].
Lemma sample_tokens_distinct : NoDup sample_tokens.*1.
Proof. cbn. repeat constructor; set_solver. Qed.
Definition sample_jwt : Jwt (E := toy_ed25519) := toy_jwt (E := toy_ed25519) sample_tokens sample_tokens_distinct.

Lemma issued_tokens_accepted_witness :
  TokenManager.issueWithSessionAt (E := toy_ed25519) (J := sample_jwt) sample_manager "uid" "user" "sid"
    (1000 * Second) = Some ("access", "refresh") ∧
  TokenManager.ParseClaims (E := toy_ed25519) (J := sample_jwt) sample_manager "access" AccessToken
    (1100 * Second) = Err ErrInvalidToken ∧
  ∃ c, TokenManager.ParseClaims (E := toy_ed25519) (J := sample_jwt) sample_manager "refresh" RefreshToken
    (1100 * Second) = Ok c ∧ Claims.Subject c = "uid".
Proof.
  match goal with |- ?P ∧ _ => assert P as H by (vm_compute; reflexivity) end. split; [exact H|].
  assert (configured (E := toy_ed25519) sample_manager) as Hm by (vm_compute; reflexivity).
  destruct (issued_tokens_accepted (E := toy_ed25519) (J := sample_jwt) sample_manager
    "uid" "user" "sid" (1000 * Second) "access" "refresh" Hm H (1100 * Second)) as (H1 & H2 & _).
  split; [exact H1|]. destruct H2 as (c & H2 & H3 & _). exists c. split; [exact H2|exact H3].
Defined.

Lemma ParseClaims_signed_witness :
  ∃ c, TokenManager.ParseClaims (E := toy_ed25519) (J := sample_jwt) sample_manager "access" AccessToken
    (1001 * Second) = Ok c ∧ Claims.Type_ c = AccessToken.
Proof.
  eexists. match goal with |- ?P ∧ _ => assert P as H by (vm_compute; reflexivity) end. split; [exact H|].
  destruct (ParseClaims_signed (E := toy_ed25519) (J := sample_jwt) sample_manager "access" AccessToken
    (1001 * Second) _ H) as (h & _ & _ & Ht & _). exact Ht.
Defined.

Definition sample_account (uid : string) : result store_err User.t :=
  if uid == "uid" then Ok (User.zero <| User.ID := "uid" |> <| User.Role := RoleAdmin |>) else Err ErrNotFound.

Lemma Middleware_guards_witness :
  ∃ r', TokenManager.Middleware (E := toy_ed25519) (J := sample_jwt) (U := ascii_only) sample_manager
    (Some sample_revoker) (Some sample_account) "Bearer access " (1001 * Second)
    = (r', Some ("uid", RoleAdmin, "sid")) ∧
  ∃ u, sample_account "uid" = Ok u ∧ User.Status u ≠ UserBlocked.
Proof.
  eexists. match goal with |- ?P ∧ _ => assert P as H by (vm_compute; reflexivity) end. split; [exact H|].
  destruct (Middleware_guards (E := toy_ed25519) (J := sample_jwt) (U := ascii_only) sample_manager sample_revoker sample_account _ _ _ _ _ _ H) as (tok & c & u & _ & _ & _ & _ & _ & Hu & Hb & _).
  exists u. split; [exact Hu | exact Hb].
Defined.
