(* ===== verification/AuthHandler.v ===== *)
(** * The credential endpoints

    [api/internal/channel/auth_handler.go]: registration with an e-mailed code,
    its verification, login, token refresh and password reset, each handler a
    program ([Threads.prog]) of the calls it makes on the data store, the code
    store and the revoker. Requests are the decoded bodies; the random draws of
    a handler are its arguments. Sending mail is a call that can fail. *)

From S2P Require Import Prelude.
From S2P Require Import GoStrings.
From S2P Require Import Domain.
From S2P Require Import Threads.
From S2P Require Import Crypto.
From S2P Require Import Password.
From S2P Require Import Otp.
From S2P Require Import Blob.
From S2P Require Import StoreState.
From S2P Require Import StoreUsers.
From S2P Require Import StoreInvites.
From S2P Require Import StoreBackup.
From S2P Require Import Auth.
From S2P Require Import Tokens.

Definition defaultCodeTTL : Z := 30 * Minute.
Definition defaultCodeCooldown : Z := 2 * Minute.

(** [mail.ParseAddress] of net/mail: whether a string is a single address. *)
Class NetMail := { ParseAddress_ok : string → bool }.

(** ** The shared state *)

(** What the handlers share: the data store, the code store, and the two maps
    of the revoker. *)
Module World.
Record t (B : Type) := mk {
  store : Memory.t B; codes : OtpMemory.t;
  revoked : gmap string time; userCutoff : gmap string time
}.
Arguments mk {B}. Arguments store {B}. Arguments codes {B}.
Arguments revoked {B}. Arguments userCutoff {B}.
#[global] Instance eta {B} : Eta (t B) := fun r => mk (store r) (codes r) (revoked r) (userCutoff r).
End World.

(** What a call meets: the clock, whether the backend fails it, what the rate
    limiter answers for a key. *)
Module Env.
Record t := mk { clock : time; fails : bool; allows : string → bool }.
End Env.

Inductive response : Type :=
| Error (status : Z) (message : string)
| Reply (status : Z) (body : string)
| TokenResponse (access refresh userID role : string) (status : Z).

Definition code_sent : string := "code_sent".

(** ** The handler *)

Module Handler.
Record t := mk {
  Tokens : TokenManager.t; AdminEmails : gmap string bool; InviteOnly : bool;
  Limited : bool; CodeTTL : Z; CodeCooldown : Z
}.
End Handler.

Module inviteStatus.
Record t := mk { Valid : bool; Reason : string }.
End inviteStatus.

Section Handlers.
Context {B : Type} {BS : BlobStore B} {RO : RangeOrder} {U : Unicode} {RC : RuneClasses}
  {A : Argon2} {E : Ed25519} {J : Jwt} {NM : NetMail}.
Context (h : Handler.t).

Abbreviation world := (World.t B).
Abbreviation handler := (prog world Env.t response).

(** ** Calls *)

Definition store_call {X} (op : Memory.t B → time → memory_op B X)
  (k : result (failure store_err) X → handler) : handler :=
  Act (fun w env =>
    if Env.fails env then (w, Err Unavailable)
    else let '(m, r) := op (World.store w) (Env.clock env) in (w <| World.store := m |>, lift r)) k.
Definition store_read {X} (op : Memory.t B → result store_err X)
  (k : result (failure store_err) X → handler) : handler :=
  store_call (fun m _ => (m, op m)) k.

Definition codes_call {X} (op : OtpMemory.t → time → OtpMemory.t * result otp_err X)
  (k : result (failure otp_err) X → handler) : handler :=
  Act (fun w env =>
    if Env.fails env then (w, Err Unavailable)
    else let '(c, r) := op (World.codes w) (Env.clock env) in (w <| World.codes := c |>, lift r)) k.

Definition GetSignup email := codes_call (fun c now => OtpMemory.GetSignup c now email).
Definition IncrSignupAttempts email := codes_call (fun c now => OtpMemory.IncrSignupAttempts c now email).
Definition PutSignup s ttl := codes_call (fun c now => (OtpMemory.PutSignup c now s ttl, Ok tt)).
Definition DelSignup email := codes_call (fun c _ => (OtpMemory.DelSignup c email, Ok tt)).
Definition GetReset email := codes_call (fun c now => OtpMemory.GetReset c now email).
Definition IncrResetAttempts email := codes_call (fun c now => OtpMemory.IncrResetAttempts c now email).
Definition PutReset r ttl := codes_call (fun c now => (OtpMemory.PutReset c now r ttl, Ok tt)).
Definition DelReset email := codes_call (fun c _ => (OtpMemory.DelReset c email, Ok tt)).
Definition CooldownOK key ttl := codes_call (fun c now =>
  let '(c, ok) := OtpMemory.CooldownOK c now key ttl in (c, Ok ok)).

(** A step that touches no shared state: the clock, or something that may not
    work (a random draw, a mail, a signature). *)
Definition time_now (k : time → handler) : handler := Act (fun w env => (w, Env.clock env)) k.
Definition attempt (k : bool → handler) : handler := Act (fun w env => (w, negb (Env.fails env))) k.
Definition limiter_allows (key : string) (k : bool → handler) : handler :=
  Act (fun w env => (w, Env.allows env key)) k.

(** ** Helpers *)

Definition tooMany : response := Error 429 "too many attempts, try again later".

(** [ip] is the caller's address, when it distinguishes callers. *)
Definition allow (action account : string) (ip : option string) (k : handler) : handler :=
  if negb (Handler.Limited h) then k
  else
    let by_address :=
      match ip with
      | None => k
      | Some ip =>
          do! ok := limiter_allows (Join ["auth"; action; "ip"; ip] ":") in
          if ok then k else Done tooMany
      end in
    if account != "" then
      do! ok := limiter_allows (Join ["auth"; action; "acct"; ToLower account] ":") in
      if ok then by_address else Done tooMany
    else by_address.

Definition codeTTL : Z := if 0 <? Handler.CodeTTL h then Handler.CodeTTL h else defaultCodeTTL.
Definition cooldown : Z := if 0 <? Handler.CodeCooldown h then Handler.CodeCooldown h else defaultCodeCooldown.

Definition roleForEmail (email : string) : string :=
  if default false (Handler.AdminEmails h !! ToLower email) then RoleAdmin else RoleUser.

(** [None] is the error. *)
Definition currentRole (u : User.t) (k : option string → handler) : handler :=
  let role := if User.Role u == "" then RoleUser else User.Role u in
  if (roleForEmail (User.Email u) == RoleAdmin) && (role != RoleAdmin) then
    do! r := store_call (fun m _ => UpdateUserRole m (User.ID u) RoleAdmin) in
    k (match r with Ok _ => Some RoleAdmin | Err _ => None end)
  else k (Some role).

Definition normalizeEmail (raw : string) : string * bool :=
  let e := TrimSpace (ToLower raw) in
  if e == "" then ("", false) else if ParseAddress_ok e then (e, true) else (e, false).

Definition status_word (s : InviteStatus) : string :=
  match s with
  | InvitePending => "pending" | InviteUsed => "used" | InviteRevoked => "revoked" | InviteExpired => "expired"
  end.

(** [None] is an error of the store. *)
Definition resolveInvite (code : string) (k : option (Invite.t * inviteStatus.t) → handler) : handler :=
  let code := InviteCode.Normalize code in
  if code == "" then k (Some (Invite.zero, inviteStatus.mk false "unknown"))
  else
    do! r := store_read (fun m => InviteByCodeHash m (InviteCode.HashCode code)) in
    match r with
    | Err (Known ErrNotFound) => k (Some (Invite.zero, inviteStatus.mk false "unknown"))
    | Err _ => k None
    | Ok inv =>
        do! now := time_now in
        let status := Status inv now in
        if bool_decide (status = InvitePending) then k (Some (inv, inviteStatus.mk true ""))
        else k (Some (inv, inviteStatus.mk false (status_word status)))
    end.

Definition inviteMessage (reason : string) : string :=
  if reason == "used" then "this invitation has already been used"
  else if reason == "revoked" then "this invitation has been withdrawn"
  else if reason == "expired" then "this invitation has expired"
  else "a valid invitation is required to register on this server".

Definition issue_response (tokens : option (string * string)) userID role status : response :=
  match tokens with
  | None => Error 500 "could not issue tokens"
  | Some (access, refresh) => TokenResponse access refresh userID role status
  end.
Definition issueAt userID role (issuedAt : time) status (random : bytes) : response :=
  issue_response (fst <$> TokenManager.IssueAt (Handler.Tokens h) userID role issuedAt random) userID role status.
Definition issue userID role status (random : bytes) : handler :=
  do! now := time_now in Done (issueAt userID role now status random).
Definition issueForSession userID role sessionID status : handler :=
  do! now := time_now in
  Done (issue_response (TokenManager.IssueWithSession (Handler.Tokens h) userID role sessionID now)
          userID role status).

(** The revoker writes through the store, then moves its map; [None] is the
    error. *)
Definition RevokeUserBefore userID (cutoff expiresAt : time) (k : bool → handler) : handler :=
  if userID == "" then k true
  else
    do! r := store_call (fun m _ => RevokeUserTokensBefore m userID cutoff expiresAt) in
    match r with
    | Err _ => k false
    | Ok _ =>
        Act (fun w _ =>
          let move := match World.userCutoff w !! userID with
                      | Some existing => After cutoff existing
                      | None => true
                      end in
          (if move then w <| World.userCutoff := <[userID := cutoff]> (World.userCutoff w) |> else w, tt))
          (fun _ => k true)
    end.
Definition revoke_sessions userID (ttl : Z) (k : option time → handler) : handler :=
  if ttl <=? 0 then k None
  else
    do! now := time_now in
    let cutoff := reset_cutoff now in
    do! ok := RevokeUserBefore userID cutoff (cutoff + ttl) in
    k (if ok then Some cutoff else None).
Definition IsUserRevoked_ userID (issuedAt : time) (k : bool → handler) : handler :=
  Act (fun w _ => (w, Revoker.IsUserRevoked (Revoker.mk tt ∅ (World.userCutoff w)) userID issuedAt)) k.
Definition IsRevoked_ sessionID (k : bool → handler) : handler :=
  Act (fun w env => (w, match Revoker.IsRevoked_read (Revoker.mk tt (World.revoked w) ∅) sessionID with
                        | None => (false, false)
                        | Some exp => if After (Env.clock env) exp then (false, true) else (true, false)
                        end))
    (fun '(denied, drop) =>
       if drop then Act (fun w _ => (w <| World.revoked := delete sessionID (World.revoked w) |>, tt))
                      (fun _ => k denied)
       else k denied).

(** ** Registration *)

(** [salt], [code] and so on are what the handler draws. *)
Definition register (ip : option string) (rawEmail password invite : string) (salt : bytes) (code : Z)
  : handler :=
  let '(email, ok) := normalizeEmail rawEmail in
  allow "register" email ip
  (if negb ok then Done (Error 400 "a valid email is required")
   else match ValidatePassword password with
   | Err e => Done (Error 400 (policy_message e))
   | Ok _ =>
     do! r := store_read (fun m => UserByEmail m email) in
     match r with
     | Ok _ => Done (Error 409 "email already registered")
     | Err (Known ErrNotFound) =>
         let checked (inviteID : string) : handler :=
           do! r := CooldownOK (String.append "signup:" email) cooldown in
           match r with
           | Err _ => Done (Error 500 "registration failed")
           | Ok false => Done (Error 429 "please wait a couple of minutes before requesting another code")
           | Ok true =>
             do! hashed := attempt in
             if negb hashed then Done (Error 500 "registration failed")
             else
               let hash := HashPassword password salt in
               do! drawn := attempt in
               if negb drawn then Done (Error 500 "registration failed")
               else
                 let pending := Signup.mk email hash (HashCode (GenerateCode_of code)) 0 inviteID in
                 do! r := PutSignup pending codeTTL in
                 match r with
                 | Err _ => Done (Error 500 "registration failed")
                 | Ok _ =>
                   do! sent := attempt in
                   if negb sent
                   then Done (Error 502 "could not send the verification email; please try again")
                   else Done (Reply 202 code_sent)
                 end
           end in
         if Handler.InviteOnly h then
           do! r := resolveInvite invite in
           match r with
           | None => Done (Error 500 "registration failed")
           | Some (inv, status) =>
               if negb (inviteStatus.Valid status)
               then Done (Error 403 (inviteMessage (inviteStatus.Reason status)))
               else checked (Invite.ID inv)
           end
         else checked ""
     | Err _ => Done (Error 500 "registration failed")
     end
   end).

(** [userID] is what [newUserID] draws, [random] the session id's bytes. *)
Definition verify (ip : option string) (rawEmail rawCode userID : string) (random : bytes) : handler :=
  let '(email, _) := normalizeEmail rawEmail in
  allow "verify" email ip
  (let code := TrimSpace rawCode in
   do! r := GetSignup email in
   match r with
   | Err (Known OtpNotFound) => Done (Error 400 "no pending verification; please register again")
   | Err _ => Done (Error 500 "verification failed")
   | Ok s =>
     if negb (EqualCode code (Signup.CodeHash s)) then
       do! r := IncrSignupAttempts email in
       match r with
       | Err _ => Done (Error 400 "no pending verification; please register again")
       | Ok n =>
           if MaxAttempts <=? n then
             do! _ := DelSignup email in
             Done (Error 400 "too many incorrect attempts; please request a new code")
           else Done (Error 401 "invalid code")
       end
     else
       do! r := store_read (fun m => UserByEmail m email) in
       match r with
       | Ok _ => do! _ := DelSignup email in Done (Error 409 "email already registered")
       | Err (Known ErrNotFound) =>
         do! drawn := attempt in
         if negb drawn then Done (Error 500 "verification failed")
         else
           let create (inviteID : string) : handler :=
             do! r := store_call (fun m now => CreateUser m userID (User.zero
               <| User.ID := userID |> <| User.Email := email |>
               <| User.PasswordHash := Signup.PasswordHash s |>
               <| User.DisplayName := DefaultDisplayName email |>
               <| User.Role := roleForEmail email |> <| User.Status := UserActive |>
               <| User.CreatedAt := now |>)) in
             match r with
             | Err _ =>
                 if inviteID != "" then
                   do! _ := store_call (fun m _ => ReleaseInvite m inviteID) in
                   Done (Error 500 "verification failed")
                 else Done (Error 500 "verification failed")
             | Ok u =>
                 do! _ := DelSignup email in
                 issue (User.ID u) (User.Role u) 201 random
             end in
           if Handler.InviteOnly h && (Signup.InviteID s != "") then
             do! r := store_call (fun m now => ConsumeInvite m (Signup.InviteID s) userID now) in
             match r with
             | Ok _ => create (Signup.InviteID s)
             | Err (Known ErrNotFound) | Err (Known ErrInviteSpent) =>
                 do! _ := DelSignup email in Done (Error 403 (inviteMessage "used"))
             | Err _ => Done (Error 500 "verification failed")
             end
           else create ""
       | Err _ => Done (Error 500 "verification failed")
       end
   end).

(** ** Sign-in *)

Definition login (ip : option string) (rawEmail password : string) (random : bytes) : handler :=
  let email := TrimSpace (ToLower rawEmail) in
  allow "login" email ip
  (do! r := store_read (fun m => UserByEmail m email) in
   match r with
   | Err _ => Done (Error 401 "invalid credentials")
   | Ok u =>
     match VerifyPassword password (User.PasswordHash u) with
     | Ok true =>
       if User.Status u == UserBlocked then Done (Error 403 "account is blocked")
       else
         do! role := currentRole u in
         match role with
         | None => Done (Error 500 "login failed")
         | Some role => issue (User.ID u) role 200 random
         end
     | _ => Done (Error 401 "invalid credentials")
     end
   end).

(** The revoker is configured, as in every serving process. *)
Definition refresh (rawToken : string) : handler :=
  do! now := time_now in
  match TokenManager.ParseClaims (Handler.Tokens h) (TrimSpace rawToken) RefreshToken now with
  | Err _ => Done (Error 401 "invalid refresh token")
  | Ok claims =>
    do! denied := IsRevoked_ (Claims.SID claims) in
    if denied then Done (Error 401 "invalid refresh token")
    else
      let allowed : handler :=
        do! r := store_read (fun m => UserByID m (Claims.Subject claims)) in
        match r with
        | Err (Known ErrNotFound) => Done (Error 401 "invalid refresh token")
        | Err _ => Done (Error 500 "refresh failed")
        | Ok u =>
            if User.Status u == UserBlocked then Done (Error 403 "account is blocked")
            else
              do! role := currentRole u in
              match role with
              | None => Done (Error 500 "refresh failed")
              | Some role => issueForSession (User.ID u) role (Claims.SID claims) 200
              end
        end in
      match Claims.IssuedAt claims with
      | Some t =>
          do! cut := IsUserRevoked_ (Claims.Subject claims) t in
          if cut then Done (Error 401 "invalid refresh token") else allowed
      | None => allowed
      end
  end.

(** ** Password reset *)

Definition forgotPassword (ip : option string) (rawEmail : string) (code : Z) : handler :=
  let '(email, ok) := normalizeEmail rawEmail in
  let respondOK := Done (Reply 200 code_sent) in
  allow "forgot-password" email ip
  (if negb ok then respondOK
   else
     do! r := CooldownOK (String.append "reset:" email) cooldown in
     match r with
     | Ok true =>
       do! r := store_read (fun m => UserByEmail m email) in
       match r with
       | Err _ => respondOK
       | Ok u =>
         do! drawn := attempt in
         if negb drawn then respondOK
         else
           do! r := PutReset (Reset_.mk email (User.ID u) (HashCode (GenerateCode_of code)) 0) codeTTL in
           match r with
           | Err _ => respondOK
           | Ok _ => do! _ := attempt in respondOK
           end
       end
     | _ => respondOK
     end).

Definition resetPassword (ip : option string) (rawEmail rawCode newPassword : string) (salt random : bytes)
  : handler :=
  let '(email, _) := normalizeEmail rawEmail in
  allow "reset-password" email ip
  (let code := TrimSpace rawCode in
   match ValidatePassword newPassword with
   | Err e => Done (Error 400 (policy_message e))
   | Ok _ =>
   do! r := GetReset email in
   match r with
   | Err (Known OtpNotFound) => Done (Error 400 "no pending reset; please request a new code")
   | Err _ => Done (Error 500 "password reset failed")
   | Ok rst =>
   if negb (EqualCode code (Reset_.CodeHash rst)) then
     do! r := IncrResetAttempts email in
     match r with
     | Err _ => Done (Error 400 "no pending reset; please request a new code")
     | Ok n =>
         if MaxAttempts <=? n then
           do! _ := DelReset email in
           Done (Error 400 "too many incorrect attempts; please request a new code")
         else Done (Error 401 "invalid code")
     end
   else
   do! r := store_read (fun m => UserByID m (Reset_.UserID rst)) in
   match r with
   | Err (Known ErrNotFound) => Done (Error 400 "no pending reset; please request a new code")
   | Err _ => Done (Error 500 "password reset failed")
   | Ok u =>
   if User.Status u == UserBlocked then Done (Error 403 "account is blocked")
   else
   do! hashed := attempt in
   if negb hashed then Done (Error 500 "password reset failed")
   else
   do! r := DelReset email in
   match r with
   | Err _ => Done (Error 500 "password reset failed")
   | Ok _ =>
   do! cutoff := revoke_sessions (User.ID u) (TokenManager.refreshTTL (Handler.Tokens h)) in
   match cutoff with
   | None => Done (Error 500 "password reset failed")
   | Some _ =>
   do! r := store_call (fun m _ => UpdateUserPassword m (Reset_.UserID rst) (HashPassword newPassword salt)) in
   match r with
   | Err (Known ErrNotFound) => Done (Error 400 "no pending reset; please request a new code")
   | Err _ => Done (Error 500 "password reset failed")
   | Ok _ =>
   do! r := store_read (fun m => UserByID m (Reset_.UserID rst)) in
   match r with
   | Err (Known ErrNotFound) => Done (Error 401 "account is no longer available")
   | Err _ => Done (Error 500 "password reset failed")
   | Ok u =>
   if User.Status u == UserBlocked then Done (Error 403 "account is blocked")
   else
   do! role := currentRole u in
   match role with
   | None => Done (Error 500 "password reset failed")
   | Some role =>
   do! cutoff := revoke_sessions (User.ID u) (TokenManager.refreshTTL (Handler.Tokens h)) in
   match cutoff with
   | None => Done (Error 500 "password reset failed")
   | Some cutoff => Done (issueAt (Reset_.UserID rst) role cutoff 200 random)
   end end end end end end end end end).
End Handlers.
