(* ===== verification/Registration.v ===== *)
(** * Registration by invitation

    On an invite-only server every account spends an invitation of its own,
    however the requests that create accounts interleave. Proved with the
    rely-guarantee rule of [Threads] from each handler of [AuthHandler]: a
    thread either holds no invitation, or holds one it has spent and not given
    back. *)

From S2P Require Import Prelude.
From S2P Require Import GoStrings.
From S2P Require Import Domain.
From S2P Require Import Threads.
From S2P Require Import Crypto.
From S2P Require Import Password.
From S2P Require Import Otp.
From S2P Require Import Blob.
From S2P Require Import StoreState.
From S2P Require Import StoreUsers.
From S2P Require Import StoreInvites.
From S2P Require Import StoreBackup.
From S2P Require Import Auth.
From S2P Require Import Tokens.
From S2P Require Import AuthHandler.

(** ** The invariant *)

Section Invariant.
Context {B : Type}.
Abbreviation world := (World.t B).
Implicit Types (w : world) (i u uid : string).

(** The invitations of a store are kept under their ids. *)
Definition invites_keyed (m : Memory.t B) : Prop :=
  ∀ k inv, Memory.invites m !! k = Some inv → Invite.ID inv = k ∧ k ≠ "".
(** Every pending signup names an invitation. *)
Definition signups_invited (c : OtpMemory.t) : Prop :=
  ∀ email e, OtpMemory.signups c !! email = Some e → Signup.InviteID (signupEntry.signup e) ≠ "".
Definition wf w : Prop := invites_keyed (World.store w) ∧ signups_invited (World.codes w).

(** Invitation [i] is spent, by account [u]. *)
Definition spent_by (m : Memory.t B) i u : Prop :=
  ∃ inv t, Memory.invites m !! i = Some inv ∧ Invite.UsedAt inv = Some t ∧ Invite.UsedBy inv = u.
Definition used_by w i u : Prop := spent_by (World.store w) i u.
Definition keeps_spent w w' : Prop := ∀ i u, used_by w i u → used_by w' i u.

(** What a thread holds: nothing, or an invitation it has spent for [u]. *)
Inductive claim : Type := Idle | Holds (i u : string).

Definition local w (g : claim) : Prop :=
  wf w ∧ match g with Idle => True | Holds i u => used_by w i u end.

Inductive trans w : claim → world → claim → Prop :=
| trans_same g w' : wf w' → keeps_spent w w' → trans w g w' g
| trans_take i u w' : wf w' → keeps_spent w w' → (∀ v, ¬ used_by w i v) → used_by w' i u →
    trans w Idle w' (Holds i u)
| trans_give i u w' : wf w' → (∀ i' u', i' ≠ i → used_by w i' u' → used_by w' i' u') →
    trans w (Holds i u) w' Idle.

(** An account was created only by a thread that still holds its invitation. *)
Definition post (g : claim) (r : response) : Prop :=
  match r with TokenResponse _ _ uid _ status => status = 201 → ∃ i, g = Holds i uid | _ => True end.

Definition J w (gs : list claim) : Prop :=
  wf w ∧ (∀ j i u, gs !! j = Some (Holds i u) → used_by w i u) ∧
  (∀ j j' i u u', gs !! j = Some (Holds i u) → gs !! j' = Some (Holds i u') → j = j').

(** Anything else that runs beside the handlers: it may create, list, revoke
    and spend invitations, not reopen a spent one. *)
Definition others w w' : Prop := (wf w → wf w') ∧ keeps_spent w w'.

Lemma J_local w gs j g : J w gs → gs !! j = Some g → local w g.
Proof. intros (Hw & Hu & _) Hj. split; [done|]. destruct g; [done|]. by eapply Hu. Qed.

Lemma J_others w gs w' : J w gs → others w w' → J w' gs.
Proof. intros (Hw & Hu & Hd) [H1 H2]. split; [auto|]. split; [|done]. eauto. Qed.

Lemma J_trans w gs j g w' g' : J w gs → gs !! j = Some g → trans w g w' g' → J w' (<[j := g']> gs).
Proof.
  intros (Hw & Hu & Hd) Hj Ht. pose proof (lookup_lt_Some _ _ _ Hj) as Hlt.
  destruct Ht as [g w' Hw' Hk|i u w' Hw' Hk Hfree Hi|i u w' Hw' Hk].
  - rewrite list_insert_id by done. split; [done|]. split; [|done]. eauto.
  - split; [done|]. split.
    + intros j' i' u'. destruct (decide (j = j')) as [<-|Hne].
      * rewrite list_lookup_insert_eq by done. by intros [= <- <-].
      * rewrite list_lookup_insert_ne by done. eauto.
    + intros j1 j2 i' u1 u2. destruct (decide (j = j1)) as [<-|H1], (decide (j = j2)) as [<-|H2]; [done|..];
        rewrite ?list_lookup_insert_eq, ?list_lookup_insert_ne by done.
      * intros [= <- <-] H. exfalso. eapply Hfree, Hu, H.
      * intros H [= <- <-]. exfalso. eapply Hfree, Hu, H.
      * apply Hd.
  - split; [done|]. split.
    + intros j' i' u'. destruct (decide (j = j')) as [<-|Hne].
      * rewrite list_lookup_insert_eq by done. done.
      * rewrite list_lookup_insert_ne by done. intros H. apply Hk; [|by eapply Hu].
        intros ->. apply Hne. by eapply Hd.
    + intros j1 j2 i' u1 u2. destruct (decide (j = j1)) as [<-|H1], (decide (j = j2)) as [<-|H2]; [done|..];
        rewrite ?list_lookup_insert_eq, ?list_lookup_insert_ne by done; [done..|]. apply Hd.
Qed.
End Invariant.

(** ** The handlers keep it *)

Section Keeps.
Context {B : Type} {BS : BlobStore B} {RO : RangeOrder} {U : Unicode} {RC : RuneClasses}
  {A : Argon2} {E : Ed25519} {J_ : Jwt} {NM : NetMail}.
Context (h : Handler.t).
Hypothesis invite_only : Handler.InviteOnly h = true.
Abbreviation world := (World.t B).
Abbreviation keeps_it := (keeps (local (B:=B)) trans post).
Implicit Types (g : claim) (w : world) (m : Memory.t B) (c : OtpMemory.t).

Lemma keeps_spent_refl w w' :
  Memory.invites (World.store w') = Memory.invites (World.store w) → keeps_spent w w'.
Proof. intros H i u (inv & t & Hi & Ht). exists inv, t. by rewrite H. Qed.

(** A call that touches neither the invites nor the pending signups. *)
Lemma keeps_act {X} (op : world → Env.t → world * X) k g (Q : X → Prop) :
  (∀ w env, wf w → Memory.invites (World.store (op w env).1) = Memory.invites (World.store w) ∧
     signups_invited (World.codes (op w env).1) ∧ Q (op w env).2) →
  (∀ a, Q a → keeps_it g (k a)) → keeps_it g (Act op k).
Proof.
  intros Hop Hk w env w' a [Hw Hg] Hd. destruct (Hop w env Hw) as (Hi & Hs & Ha). rewrite Hd in *; simpl in *.
  exists g. split; [|by apply Hk]. apply trans_same; [|by apply keeps_spent_refl].
  split; [|done]. destruct Hw as [Hw _]. unfold invites_keyed. by rewrite Hi.
Qed.

Lemma keeps_store_call {X} (op : Memory.t B → time → memory_op B X) k g :
  (∀ m now, Memory.invites (op m now).1 = Memory.invites m) →
  (∀ r, keeps_it g (k r)) → keeps_it g (store_call op k).
Proof.
  intros Hop Hk. apply (keeps_act _ _ _ (fun _ => True)); [|auto].
  intros w env [_ Hs]. destruct (Env.fails env); [done|].
  pose proof (Hop (World.store w) (Env.clock env)) as Hi. by destruct (op _ _) as [m r].
Qed.

Lemma keeps_store_read_ {X} (op : Memory.t B → result store_err X) (Q : X → Prop) k g :
  (∀ m x, invites_keyed m → op m = Ok x → Q x) →
  (∀ e, keeps_it g (k (Err e))) → (∀ x, Q x → keeps_it g (k (Ok x))) → keeps_it g (store_read op k).
Proof.
  intros Hop He Hk. apply (keeps_act _ _ _ (fun r => match r with Ok x => Q x | Err _ => True end)).
  - intros w env [Hi Hs]. destruct (Env.fails env); [done|]. simpl.
    split_and!; [done..|]. specialize (Hop (World.store w)). destruct (op _); simpl; eauto.
  - intros [x|e] Hx; auto.
Qed.
Lemma keeps_store_read {X} (op : Memory.t B → result store_err X) k g :
  (∀ r, keeps_it g (k r)) → keeps_it g (store_read op k).
Proof. intros Hk. by apply (keeps_store_read_ op (fun _ => True)). Qed.

Lemma keeps_codes_call {X} (op : OtpMemory.t → time → OtpMemory.t * result otp_err X) (Q : X → Prop) k g :
  (∀ c now, signups_invited c →
     signups_invited (op c now).1 ∧ match (op c now).2 with Ok x => Q x | Err _ => True end) →
  (∀ e, keeps_it g (k (Err e))) → (∀ x, Q x → keeps_it g (k (Ok x))) → keeps_it g (codes_call op k).
Proof.
  intros Hop He Hk. apply (keeps_act _ _ _ (fun r => match r with Ok x => Q x | Err _ => True end)).
  - intros w env [Hi Hs]. destruct (Env.fails env); [done|].
    destruct (Hop (World.codes w) (Env.clock env) Hs) as [H1 H2].
    destruct (op _ _) as [c [x|e]]; simpl in *; done.
  - intros [x|e] Hx; auto.
Qed.

Lemma keeps_time_now k g : (∀ t, keeps_it g (k t)) → keeps_it g (time_now k).
Proof. intros Hk. apply (keeps_act _ _ _ (fun _ => True)); [|auto]. by intros w env []. Qed.
Lemma keeps_attempt k g : (∀ b, keeps_it g (k b)) → keeps_it g (attempt k).
Proof. intros Hk. apply (keeps_act _ _ _ (fun _ => True)); [|auto]. by intros w env []. Qed.
Lemma keeps_limiter key k g : (∀ b, keeps_it g (k b)) → keeps_it g (limiter_allows key k).
Proof. intros Hk. apply (keeps_act _ _ _ (fun _ => True)); [|auto]. by intros w env []. Qed.

Lemma keeps_allow action account ip k g : keeps_it g k → keeps_it g (allow h action account ip k).
Proof.
  intros Hk. unfold allow. destruct (negb (Handler.Limited h)); [done|].
  assert (Ha : keeps_it g match ip with
    | None => k
    | Some ip => limiter_allows (Join ["auth"; action; "ip"; ip] ":") (fun ok => if ok then k else Done tooMany)
    end).
  { destruct ip as [ip|]; [|done]. apply keeps_limiter. by intros []. }
  destruct (account != ""); [|done]. apply keeps_limiter. by intros [].
Qed.

(** ** The code store *)

Lemma signups_delete c email : signups_invited c → signups_invited (OtpMemory.DelSignup c email).
Proof. intros H e x. simpl. intros [_ Hx]%lookup_delete_Some. by eapply H. Qed.

Lemma keeps_GetSignup email k g :
  (∀ e, keeps_it g (k (Err e))) → (∀ s, Signup.InviteID s ≠ "" → keeps_it g (k (Ok s))) →
  keeps_it g (GetSignup email k).
Proof.
  apply keeps_codes_call. intros c now Hc. unfold OtpMemory.GetSignup, OtpMemory.live_signup.
  destruct (OtpMemory.signups c !! email) as [e|] eqn:He; [destruct (After _ _)|];
    (split; [|by first [done | eapply Hc]]); by first [apply (signups_delete c email) | done].
Qed.

Lemma keeps_IncrSignupAttempts email k g :
  (∀ r, keeps_it g (k r)) → keeps_it g (IncrSignupAttempts email k).
Proof.
  intros Hk. apply (keeps_codes_call _ (fun _ => True)); [|by auto..].
  intros c now Hc. unfold OtpMemory.IncrSignupAttempts, OtpMemory.live_signup.
  destruct (OtpMemory.signups c !! email) as [e|] eqn:He; [destruct (After _ _)|];
    (split; [|done]); try by apply (signups_delete c email).
  intros e' x. simpl. intros [[<- <-]|[_ Hx]]%lookup_insert_Some; simpl; [by eapply Hc | by eapply Hc].
Qed.

Lemma keeps_PutSignup s ttl k g :
  Signup.InviteID s ≠ "" → (∀ r, keeps_it g (k r)) → keeps_it g (PutSignup s ttl k).
Proof.
  intros Hs Hk. apply (keeps_codes_call _ (fun _ => True)); [|by auto..].
  intros c now Hc. split; [|done]. intros e x. simpl.
  intros [[_ <-]|[_ Hx]]%lookup_insert_Some; [done | by eapply Hc].
Qed.

Lemma keeps_DelSignup email k g : (∀ r, keeps_it g (k r)) → keeps_it g (DelSignup email k).
Proof.
  intros Hk. apply (keeps_codes_call _ (fun _ => True)); [|by auto..].
  intros c now Hc. split; [|done]. by apply signups_delete.
Qed.

(** A call on the code store that leaves the pending signups alone. *)
Lemma keeps_codes_other {X} (op : OtpMemory.t → time → OtpMemory.t * result otp_err X) k g :
  (∀ c now, OtpMemory.signups (op c now).1 = OtpMemory.signups c) →
  (∀ r, keeps_it g (k r)) → keeps_it g (codes_call op k).
Proof.
  intros Hop Hk. apply (keeps_codes_call _ (fun _ => True)); [|by auto..].
  intros c now Hc. split; [|by destruct (op c now).2]. intros e x. rewrite Hop. apply Hc.
Qed.
Lemma keeps_CooldownOK key ttl k g : (∀ r, keeps_it g (k r)) → keeps_it g (CooldownOK key ttl k).
Proof. apply keeps_codes_other. intros c now. unfold OtpMemory.CooldownOK. by destruct (match _ with Some _ => _ | None => _ end). Qed.
Lemma keeps_GetReset email k g : (∀ r, keeps_it g (k r)) → keeps_it g (GetReset email k).
Proof. apply keeps_codes_other. intros c now. unfold OtpMemory.GetReset. by case_match. Qed.
Lemma keeps_IncrResetAttempts email k g :
  (∀ r, keeps_it g (k r)) → keeps_it g (IncrResetAttempts email k).
Proof. apply keeps_codes_other. intros c now. unfold OtpMemory.IncrResetAttempts. by case_match. Qed.
Lemma keeps_PutReset r ttl k g : (∀ r, keeps_it g (k r)) → keeps_it g (PutReset r ttl k).
Proof. by apply keeps_codes_other. Qed.
Lemma keeps_DelReset email k g : (∀ r, keeps_it g (k r)) → keeps_it g (DelReset email k).
Proof. by apply keeps_codes_other. Qed.

(** ** Helpers of the handlers *)

Lemma keeps_resolveInvite code k g :
  (∀ o, (∀ inv st, o = Some (inv, st) → inviteStatus.Valid st = true → Invite.ID inv ≠ "") →
     keeps_it g (k o)) →
  keeps_it g (resolveInvite code k).
Proof.
  intros Hk. unfold resolveInvite. case_match; [by apply Hk; intros ?? [= <- <-]|].
  apply (keeps_store_read_ _ (fun inv => Invite.ID inv ≠ "")).
  - intros m x Hm. unfold InviteByCodeHash. case_match; [done|].
    destruct (range_find _ _) as [[i inv]|] eqn:Hf; [|done]. intros [= <-].
    apply range_find_Some in Hf as [Hl _]. by destruct (Hm _ _ Hl) as [-> ?].
  - intros e. destruct e as [[]|]; apply Hk; intros ?? [= <- <-]; done.
  - intros inv Hinv. apply keeps_time_now. intros now.
    case_match; apply Hk; intros ?? [= <- <-]; done.
Qed.

Lemma keeps_currentRole u k g : (∀ r, keeps_it g (k r)) → keeps_it g (currentRole h u k).
Proof.
  intros Hk. unfold currentRole. destruct (_ && _); [|done]. apply keeps_store_call; [|done].
  intros m _. unfold UpdateUserRole. by case_match.
Qed.

Lemma keeps_IsUserRevoked uid t k g : (∀ b, keeps_it g (k b)) → keeps_it g (IsUserRevoked_ uid t k).
Proof. intros Hk. apply (keeps_act _ _ _ (fun _ => True)); [|auto]. by intros w env []. Qed.

Lemma keeps_IsRevoked sid k g : (∀ b, keeps_it g (k b)) → keeps_it g (IsRevoked_ sid k).
Proof.
  intros Hk. apply (keeps_act _ _ _ (fun _ => True)); [by intros w env []|].
  intros [denied []] _; [|done]. apply (keeps_act _ _ _ (fun _ => True)); [|auto]. by intros w env [].
Qed.

Lemma keeps_revoke_sessions uid ttl k g :
  (∀ o, keeps_it g (k o)) → keeps_it g (revoke_sessions uid ttl k).
Proof.
  intros Hk. unfold revoke_sessions. case_match; [done|]. apply keeps_time_now. intros now.
  unfold RevokeUserBefore. case_match; [done|]. apply keeps_store_call; [done|].
  intros [_|e]; [|done]. apply (keeps_act _ _ _ (fun _ => True)); [|done].
  intros w env []. simpl. split_and!; [| |done]; by repeat case_match.
Qed.

Lemma keeps_issued g tokens uid role status :
  status ≠ 201 ∨ (∃ i, g = Holds i uid) → keeps_it g (Done (issue_response tokens uid role status) : prog world Env.t response).
Proof.
  intros H. destruct tokens as [[acc ref]|]; [|done]. simpl. naive_solver.
Qed.

(** The spending of an invitation and its return. *)
Lemma keeps_ConsumeInvite id uid k :
  (∀ e, keeps_it Idle (k (Err e))) → (keeps_it (Holds id uid) (k (Ok tt))) →
  keeps_it Idle (store_call (fun m now => ConsumeInvite m id uid now) k).
Proof.
  intros He Hk w env w' a [[Hi Hs] _]. destruct (Env.fails env).
  { intros [= <- <-]. exists Idle. split; [by apply trans_same, keeps_spent_refl | done]. }
  pose proof (ConsumeInvite_spec (World.store w) id uid (Env.clock env)) as Hc.
  destruct (ConsumeInvite _ _ _ _) as [m [[]|e]]; intros [= <- <-]; simpl in *.
  - destruct Hc as (inv & Hinv & Hused & Hrev & Hexp & ->). exists (Holds id uid). split; [|done].
    apply trans_take; simpl.
    + split; [|done]. intros k' x. simpl. intros [[<- <-]|[_ Hx]]%lookup_insert_Some; [|by apply Hi].
      by apply (Hi _ _ Hinv).
    + intros i u (inv' & t & Hi' & Ht & Hu). exists inv', t. split; [|done]. simpl.
      rewrite lookup_insert_ne; [done|]. intros <-. congruence.
    + intros v (inv' & t & Hi' & Ht & Hu). congruence.
    + eexists _, _. simpl. by rewrite lookup_insert_eq.
  - assert (m = World.store w) as -> by (destruct e; naive_solver).
    exists Idle. split; [|done]. by apply trans_same, keeps_spent_refl.
Qed.

Lemma keeps_ReleaseInvite id uid k :
  (∀ r g, keeps_it g (k r)) →
  keeps_it (Holds id uid) (store_call (fun m _ => ReleaseInvite m id) k).
Proof.
  intros Hk w env w' a [[Hi Hs] Hu]. destruct (Env.fails env).
  { intros [= <- <-]. exists (Holds id uid). split; [by apply trans_same, keeps_spent_refl | done]. }
  destruct (ReleaseInvite _ _) as [m r] eqn:Hr; intros [= <- <-]; simpl in *. exists Idle. split; [|done].
  unfold ReleaseInvite in Hr. destruct (Memory.invites (World.store w) !! id) as [inv|] eqn:Hinv; simplify_eq/=.
  - apply trans_give; simpl.
    + split; [|done]. intros k' x. simpl. intros [[<- <-]|[_ Hx]]%lookup_insert_Some; [|by apply Hi].
      by apply (Hi _ _ Hinv).
    + intros i' u' Hne (inv' & t & Hi' & Ht & Hu'). exists inv', t. split; [|done]. simpl.
      by rewrite lookup_insert_ne by done.
  - destruct Hu as (inv' & t & Hi' & _). congruence.
Qed.

Lemma keeps_CreateUser uid (u : time → User.t) k g :
  (∀ now, User.ID (u now) = uid) → uid ≠ "" → (∀ e, keeps_it g (k (Err e))) →
  (∀ x, User.ID x = uid → keeps_it g (k (Ok x))) →
  keeps_it g (store_call (fun m now => CreateUser m uid (u now)) k).
Proof.
  intros Hu Hne He Hk.
  apply (keeps_act _ _ _ (fun r => match r with Ok x => User.ID x = uid | Err _ => True end)).
  - intros w env [_ Hs]. destruct (Env.fails env); [done|]. simpl. split_and!; [done..|].
    rewrite Hu, (bool_decide_eq_false_2 _ Hne), WithNewUserDefaults_ID. apply Hu.
  - intros [x|e] Hx; auto.
Qed.

Lemma keeps_UpdateUserPassword uid hash k g :
  (∀ r, keeps_it g (k r)) → keeps_it g (store_call (fun m _ => UpdateUserPassword m uid hash) k).
Proof. apply keeps_store_call. intros m _. unfold UpdateUserPassword. by case_match. Qed.

(** ** The handlers *)

(** Go through a handler call by call and branch by branch. *)
Ltac keeps_step :=
  match goal with
  | |- keeps _ _ _ _ (allow _ _ _ _ _) => apply keeps_allow
  | |- keeps _ _ _ _ (IncrSignupAttempts _ _) => apply keeps_IncrSignupAttempts
  | |- keeps _ _ _ _ (DelSignup _ _) => apply keeps_DelSignup
  | |- keeps _ _ _ _ (CooldownOK _ _ _) => apply keeps_CooldownOK
  | |- keeps _ _ _ _ (GetReset _ _) => apply keeps_GetReset
  | |- keeps _ _ _ _ (IncrResetAttempts _ _) => apply keeps_IncrResetAttempts
  | |- keeps _ _ _ _ (PutReset _ _ _) => apply keeps_PutReset
  | |- keeps _ _ _ _ (DelReset _ _) => apply keeps_DelReset
  | |- keeps _ _ _ _ (store_call (fun m _ => UpdateUserPassword m _ _) _) => apply keeps_UpdateUserPassword
  | |- keeps _ _ _ _ (store_read _ _) => apply keeps_store_read
  | |- keeps _ _ _ _ (time_now _) => apply keeps_time_now
  | |- keeps _ _ _ _ (attempt _) => apply keeps_attempt
  | |- keeps _ _ _ _ (currentRole _ _ _) => apply keeps_currentRole
  | |- keeps _ _ _ _ (IsUserRevoked_ _ _ _) => apply keeps_IsUserRevoked
  | |- keeps _ _ _ _ (IsRevoked_ _ _) => apply keeps_IsRevoked
  | |- keeps _ _ _ _ (revoke_sessions _ _ _) => apply keeps_revoke_sessions
  | |- keeps _ _ _ _ (Done (issue_response _ _ _ _)) => apply keeps_issued; left; done
  | |- keeps _ _ _ _ (Done (issueAt _ _ _ _ _ _)) => apply keeps_issued; left; done
  | |- keeps _ _ _ _ (issue _ _ _ _ _) => unfold issue
  | |- keeps _ _ _ _ (issueForSession _ _ _ _ _) => unfold issueForSession
  | |- keeps _ _ _ _ (Done _) => done
  | |- ∀ _, _ => intro
  | |- keeps _ _ _ _ (if ?b then _ else _) => destruct b eqn:?
  | |- keeps _ _ _ _ (match ?x with _ => _ end) => destruct x
  end.

Lemma register_keeps ip email pw invite salt code :
  keeps_it Idle (register h ip email pw invite salt code).
Proof.
  unfold register. destruct (normalizeEmail email) as [e ok]. apply keeps_allow.
  destruct ok; [simpl|done]. destruct (ValidatePassword pw); [|done].
  apply keeps_store_read. intros [u|[[]|]]; try done. rewrite invite_only. apply keeps_resolveInvite.
  intros [[inv st]|] Ho; [|done]. specialize (Ho _ _ eq_refl).
  destruct (inviteStatus.Valid st); [|done]. specialize (Ho eq_refl).
  repeat first [apply keeps_PutSignup; [done|] | keeps_step].
Qed.

Lemma verify_keeps ip email code uid random :
  uid ≠ "" → keeps_it Idle (verify h ip email code uid random).
Proof.
  intros Huid. unfold verify. destruct (normalizeEmail email) as [e ok]. apply keeps_allow, keeps_GetSignup.
  { intros [[]|]; done. }
  intros s Hs. keeps_step; [by repeat keeps_step|]. apply keeps_store_read.
  intros [u|[[]|]]; try by repeat keeps_step. apply keeps_attempt. intros []; [|done]. simpl.
  rewrite invite_only, (bool_decide_eq_false_2 _ Hs). apply keeps_ConsumeInvite.
  { intros [[]|]; by repeat keeps_step. }
  apply keeps_CreateUser; [done..| |].
  - intros e'. case_match; [|done]. by apply keeps_ReleaseInvite.
  - intros u <-. apply keeps_DelSignup. intros _. unfold issue. apply keeps_time_now. intros now.
    apply keeps_issued. eauto.
Qed.

Lemma login_keeps ip email pw random : keeps_it Idle (login h ip email pw random).
Proof. unfold login. repeat keeps_step. Qed.

Lemma refresh_keeps raw : keeps_it Idle (refresh h raw).
Proof. unfold refresh. repeat keeps_step. Qed.

Lemma forgotPassword_keeps ip email code : keeps_it Idle (forgotPassword h ip email code).
Proof. unfold forgotPassword. repeat keeps_step. Qed.

Lemma resetPassword_keeps ip email code pw salt random :
  keeps_it Idle (resetPassword h ip email code pw salt random).
Proof. unfold resetPassword. repeat keeps_step. Qed.

(** The handlers of the credential endpoints. An account id that [newUserID]
    draws is never empty. *)
Inductive endpoint : prog world Env.t response → Prop :=
| endpoint_register ip email pw invite salt code : endpoint (register h ip email pw invite salt code)
| endpoint_verify ip email code uid random : uid ≠ "" → endpoint (verify h ip email code uid random)
| endpoint_login ip email pw random : endpoint (login h ip email pw random)
| endpoint_refresh raw : endpoint (refresh h raw)
| endpoint_forgot ip email code : endpoint (forgotPassword h ip email code)
| endpoint_reset ip email code pw salt random : endpoint (resetPassword h ip email code pw salt random).

Lemma endpoint_keeps p : endpoint p → keeps_it Idle p.
Proof.
  intros []; auto using register_keeps, verify_keeps, login_keeps, refresh_keeps, forgotPassword_keeps,
    resetPassword_keeps.
Qed.

(** The thread [j] of a pool has answered that the account [uid] is created. *)
Definition created (ps : list (prog world Env.t response)) (j : nat) (uid : string) : Prop :=
  ∃ access refresh role, ps !! j = Some (Done (TokenResponse access refresh uid role 201)).

(** C15. On an invite-only server every account that registration creates
    spends an invitation of its own. However the calls of any number of
    concurrent register, verify, login, refresh and reset requests interleave,
    with each other and with whatever else leaves spent invitations spent, with
    store and code-store failures anywhere: there is an assignment of
    invitations to the requests answered 201, no invitation is assigned to two
    of them, and each is recorded in the store as used by the account that
    request created. *)
Theorem invite_only_accounts (w w' : world) ps ps' :
  wf w → Forall endpoint ps → rtc (system_step others) (w, ps) (w', ps') →
  ∃ inv : nat → string,
    (∀ j uid, created ps' j uid → used_by w' (inv j) uid) ∧
    (∀ j j' uid uid', created ps' j uid → created ps' j' uid' → inv j = inv j' → j = j').
Proof.
  intros Hw Hps Hr.
  destruct (rely_guarantee J local trans post others (fun w gs i g => J_local w gs i g)
    (fun w gs i g w' g' => J_trans w gs i g w' g') (fun w gs w' => J_others w gs w')
    _ _ (replicate (length ps) Idle) Hr) as (gs & (_ & Hused & Hinj) & Hgs); simpl in *.
  - split; [done|]. split; intros *; intros [H _]%lookup_replicate_1; done.
  - apply Forall2_same_length_lookup_2; [apply length_replicate|].
    intros i g p [-> _]%lookup_replicate_1 Hp. apply endpoint_keeps.
    by eapply Forall_lookup_1 in Hp.
  - assert (Hc : ∀ j uid, created ps' j uid → ∃ i, gs !! j = Some (Holds i uid)).
    { intros j uid (access & refresh & role & Hj).
      destruct (Forall2_lookup_r _ _ _ _ _ Hgs Hj) as (g & Hg & Hk). destruct (Hk eq_refl) as [i ->]. eauto. }
    exists (fun j => match gs !! j with Some (Holds i _) => i | _ => "" end). split.
    + intros j uid [i Hi]%Hc. rewrite Hi. eauto.
    + intros j j' uid uid' [i Hi]%Hc [i' Hi']%Hc. rewrite Hi, Hi'. intros <-. eauto.
Qed.
End Keeps.

(** ** Three verifications at once

    Alice and Bob registered with one invitation, Carol with another; all
    three type their codes at the same moment. *)

Definition mail_any : NetMail := {| ParseAddress_ok := fun _ => true |}.
Fixpoint zero_key (n : nat) : bytes := match n with O => "" | S n => String "k" (zero_key n) end.
Lemma zero_key_length n : slen (zero_key n) = Z.of_nat n.
Proof. induction n; cbn [zero_key slen String.length]; unfold slen in *; cbn [String.length]; lia. Qed.
Definition toy_argon2 : Argon2.
Proof.
  refine {| IDKey := fun _ _ _ _ _ n => zero_key (Z.to_nat n) |}.
  intros. rewrite zero_key_length. lia.
Defined.

Definition three_now : time := 1000 * Second.
Definition three_sid : string := base64url "random".
Definition three_tokens : list toy_token :=
  let h := JwtHeader.mk MethodEd25519 (TokenManager.keyID sample_manager) in
  let pair uid :=
    [(String.append "access " uid, (h, TokenManager.claims_at sample_manager uid RoleUser three_sid AccessToken
        Minute three_now, SignPrivate "seed"));
     (String.append "refresh " uid, (h, TokenManager.claims_at sample_manager uid RoleUser three_sid RefreshToken
        Hour three_now, SignPrivate "seed"))] in
  pair "u1" ++ pair "u2" ++ pair "u3".
Lemma three_tokens_distinct : NoDup three_tokens.*1.
Proof. cbn. repeat constructor; set_solver. Qed.
Definition three_jwt : Jwt (E := toy_ed25519) := toy_jwt (E := toy_ed25519) three_tokens three_tokens_distinct.

Definition three_handler : Handler.t := Handler.mk sample_manager ∅ true false 0 0.
Definition three_verify (email code uid : string) : prog (World.t unit) Env.t response :=
  verify (RO := order_fwd) (U := ascii_only) (E := toy_ed25519) (J := three_jwt) (NM := mail_any)
    three_handler None email code uid "random".
Definition three_pool := [three_verify "alice@a" "000001" "u1"; three_verify "bob@a" "000002" "u2";
                          three_verify "carol@a" "000003" "u3"].
Definition three_world : World.t unit :=
  let invite id := Invite.zero <| Invite.ID := id |> <| Invite.CodeHash := id |> in
  let pending email code id :=
    (email, signupEntry.mk (Signup.mk email "hash" (Otp.HashCode code) 0 id) (three_now + Minute)) in
  World.mk
    ((Memory.NewMemory None)
       <| Memory.invites := list_to_map [("i1", invite "i1"); ("i2", invite "i2")] |>)
    (OtpMemory.NewMemory
       <| OtpMemory.signups := list_to_map [pending "alice@a" "000001" "i1"; pending "bob@a" "000002" "i1";
                                            pending "carol@a" "000003" "i2"] |>) ∅ ∅.
(** The three in turn, a call each, ten times round. *)
Definition three_turns : list (nat * Env.t) :=
  mjoin (replicate 10 ((fun i => (i, Env.mk three_now false (fun _ => true))) <$> [0; 1; 2]%nat)).

Lemma three_world_wf : wf three_world.
Proof.
  split.
  - intros k inv. unfold three_world; cbn [World.store Memory.invites].
    intros H%elem_of_list_to_map_2. rewrite !elem_of_cons, elem_of_nil in H.
    by destruct H as [[= -> ->]|[[= -> ->]|[]]].
  - intros email e. unfold three_world; cbn [World.codes OtpMemory.signups].
    intros H%elem_of_list_to_map_2. rewrite !elem_of_cons, elem_of_nil in H.
    by destruct H as [[= -> ->]|[[= -> ->]|[[= -> ->]|[]]]].
Qed.

Definition three_answers : list (prog (World.t unit) Env.t response) :=
  [Done (TokenResponse "access u1" "refresh u1" "u1" RoleUser 201);
   Done (Error 403 "this invitation has already been used");
   Done (TokenResponse "access u3" "refresh u3" "u3" RoleUser 201)].

Lemma invite_only_accounts_witness :
  let s := Threads.schedule three_world three_pool three_turns in
  s.2 = three_answers ∧ ∃ i j, i ≠ j ∧ used_by s.1 i "u1" ∧ used_by s.1 j "u3".
Proof.
  cbv zeta. destruct (Threads.schedule three_world three_pool three_turns) as [w' ps'] eqn:Hs.
  assert (H : ps' = three_answers) by (change ps' with (w', ps').2; rewrite <- Hs; vm_compute; reflexivity).
  split; [exact H|].
  destruct (invite_only_accounts (RO := order_fwd) (U := ascii_only) (RC := ascii_classes) (A := toy_argon2)
    (E := toy_ed25519) (J_ := three_jwt) (NM := mail_any) three_handler eq_refl three_world w' three_pool ps'
    three_world_wf) as (inv & Hu & Hinj).
  - repeat constructor; done.
  - rewrite <- Hs. apply schedule_steps.
  - subst ps'. assert (H1 : created three_answers 0 "u1") by (by do 3 eexists).
    assert (H3 : created three_answers 2 "u3") by (by do 3 eexists).
    exists (inv 0%nat), (inv 2%nat). split; [|split; [exact (Hu _ _ H1) | exact (Hu _ _ H3)]].
    intros Heq. discriminate (Hinj _ _ _ _ H1 H3 Heq).
Defined.
