(* ===== verification/Lockout.v ===== *)
(** * Three tries at a code

    The attempt limit of a pending signup: requests that are served one after
    the other get three tries at the code between them. Requests that overlap
    are not held to it, because a handler compares the code with the entry it
    has read before the wrong tries of the others are counted. *)

From S2P Require Import Prelude.
From S2P Require Import GoStrings.
From S2P Require Import Domain.
From S2P Require Import Threads.
From S2P Require Import Crypto.
From S2P Require Import Otp.
From S2P Require Import StoreState.
From S2P Require Import StoreUsers.
From S2P Require Import StoreInvites.
From S2P Require Import Tokens.
From S2P Require Import AuthHandler.
From S2P Require Import Registration.

(** A verification request: the code, the account id and the bytes the handler
    draws, and what its calls meet. *)
Module Guess.
Record t := mk { code : string; userID : string; random : bytes; envs : list Env.t; last : Env.t }.
End Guess.

Section Lockout.
Context {B : Type} {RO : RangeOrder} {U : Unicode} {E : Ed25519} {J_ : Jwt} {NM : NetMail}.
Context (h : Handler.t).
Abbreviation world := (World.t B).
Abbreviation handler := (prog world Env.t response).
Implicit Types (w : world) (env last : Env.t) (envs : list Env.t).

(** The backend answers and the rate limiter lets the request through. *)
Definition serving env : Prop := Env.fails env = false ∧ ∀ key, Env.allows env key = true.

Definition served (g : Guess.t) : Prop := Forall serving (Guess.last g :: Guess.envs g).

(** The requests for one address, one after the other. *)
Definition guess (ip : option string) (rawEmail : string) w (g : Guess.t) : world * response :=
  run (verify h ip rawEmail (Guess.code g) (Guess.userID g) (Guess.random g)) w (Guess.envs g) (Guess.last g).
Fixpoint guesses (ip : option string) (rawEmail : string) w (gs : list Guess.t) : world * list response :=
  match gs with
  | [] => (w, [])
  | g :: gs =>
      let '(w, r) := guess ip rawEmail w g in
      let '(w, rs) := guesses ip rawEmail w gs in (w, r :: rs)
  end.

(** No account came of a request. *)
Definition no_account (w w' : world) (r : response) : Prop :=
  World.store w' = World.store w ∧ match r with TokenResponse _ _ _ _ _ => False | _ => True end.

(** What is pending for an address after [n] wrong codes: nothing, or an entry
    that counts them. *)
Definition tried (email hash : string) (n : Z) w : Prop :=
  match OtpMemory.signups (World.codes w) !! email with
  | None => True
  | Some e => Signup.Attempts (signupEntry.signup e) = n ∧ Signup.CodeHash (signupEntry.signup e) = hash
              ∧ n < MaxAttempts
  end.

Lemma run_serving {X} (op : world → Env.t → world * X) (k : X → handler) w envs last :
  Forall serving (last :: envs) →
  ∃ env envs', serving env ∧ Forall serving (last :: envs') ∧
    run (Act op k) w envs last = let '(w', a) := op w env in run (k a) w' envs' last.
Proof.
  intros [Hl He]%Forall_cons. destruct He as [|env envs Henv He]; [exists last, [] | exists env, envs];
    (split_and!; [done | by constructor | done]).
Qed.

Lemma run_limiter key (k : bool → handler) w envs last :
  Forall serving (last :: envs) →
  ∃ envs', Forall serving (last :: envs') ∧ run (limiter_allows key k) w envs last = run (k true) w envs' last.
Proof.
  intros H. destruct (run_serving (fun w env => (w, Env.allows env key)) k w envs last H)
    as (env & envs' & [_ Ha] & He & Hr).
  exists envs'. split; [done|]. unfold limiter_allows. by rewrite Hr, Ha.
Qed.

Lemma run_allow action account ip (k : handler) w envs last :
  Forall serving (last :: envs) →
  ∃ envs', Forall serving (last :: envs') ∧ run (allow h action account ip k) w envs last = run k w envs' last.
Proof.
  intros H. unfold allow. destruct (negb (Handler.Limited h)); [by exists envs|].
  set (by_address := match ip with Some ip => _ | None => k end).
  assert (Ha : ∀ envs, Forall serving (last :: envs) →
    ∃ envs', Forall serving (last :: envs') ∧ run by_address w envs last = run k w envs' last).
  { intros envs1 H1. unfold by_address. destruct ip as [ip|]; [|by exists envs1]. by apply run_limiter. }
  destruct (account != ""); [|by apply Ha].
  destruct (run_limiter (Join ["auth"; action; "acct"; ToLower account] ":")
    (fun ok => if ok then by_address else Done tooMany) w envs last H) as (envs1 & H1 & ->). by apply Ha.
Qed.

Lemma run_codes_call {X} (op : OtpMemory.t → time → OtpMemory.t * result otp_err X)
    (k : result (failure otp_err) X → handler) w envs last :
  Forall serving (last :: envs) →
  ∃ now envs', Forall serving (last :: envs') ∧
    run (codes_call op k) w envs last =
    let '(c, r) := op (World.codes w) now in run (k (lift r)) (w <| World.codes := c |>) envs' last.
Proof.
  intros H. unfold codes_call.
  match goal with |- context [run (Act ?o k)] =>
    destruct (run_serving o k w envs last H) as (env & envs' & [Hf _] & He & ->) end.
  exists (Env.clock env), envs'. split; [done|]. rewrite Hf. by destruct (op _ _).
Qed.

Ltac serve_call H :=
  match goal with
  | |- context [run (codes_call ?op ?k) ?w ?envs ?last] =>
      let now := fresh "now" in let envs' := fresh "envs" in let H' := fresh "H" in let Hr := fresh "Hr" in
      destruct (run_codes_call op k w envs last H) as (now & envs' & H' & Hr); rewrite Hr; clear Hr
  end.

(** One more request: a wrong code is counted, and the last one that is
    allowed withdraws the entry; without an entry any code is turned away. *)
Lemma guess_step ip raw w g email ok hash n :
  normalizeEmail raw = (email, ok) → served g → 0 ≤ n → tried email hash n w →
  (n < MaxAttempts → EqualCode (TrimSpace (Guess.code g)) hash = false) →
  no_account w (guess ip raw w g).1 (guess ip raw w g).2 ∧ tried email hash (n + 1) (guess ip raw w g).1.
Proof.
  intros Hn Hs H0 Ht Hw. unfold guess, verify. rewrite Hn.
  match goal with |- context [run (allow h ?a ?acct ip ?k) w ?envs ?last] =>
    destruct (run_allow a acct ip k w envs last Hs) as (envs1 & H1 & ->) end.
  unfold GetSignup. serve_call H1. unfold OtpMemory.GetSignup, OtpMemory.live_signup, tried, no_account in *.
  destruct (OtpMemory.signups (World.codes w) !! email) as [e|] eqn:He.
  2:{ simpl. by rewrite lookup_delete_eq. }
  destruct Ht as (Hatt & Hhash & Hlt). specialize (Hw Hlt).
  destruct (After now (signupEntry.expires e)); [simpl; by rewrite lookup_delete_eq|].
  cbn [lift]. rewrite Hhash, Hw. cbn [negb]. unfold IncrSignupAttempts. serve_call H.
  unfold OtpMemory.IncrSignupAttempts, OtpMemory.live_signup. simpl. rewrite He.
  destruct (After now0 (signupEntry.expires e)); [simpl; by rewrite lookup_delete_eq|].
  simpl. rewrite Hatt, wrap64_id by (unfold MaxAttempts, two63 in *; lia).
  destruct (MaxAttempts <=? n + 1) eqn:Hmax.
  - unfold DelSignup. serve_call H2. simpl. by rewrite lookup_delete_eq.
  - simpl. rewrite lookup_insert_eq. simpl. split; [done|]. split_and!; [done..|]. lia.
Qed.

Lemma guesses_step ip raw gs email ok hash : ∀ w n,
  normalizeEmail raw = (email, ok) → Forall served gs → 0 ≤ n → tried email hash n w →
  Forall (fun g => EqualCode (TrimSpace (Guess.code g)) hash = false) (take (Z.to_nat (MaxAttempts - n)) gs) →
  World.store (guesses ip raw w gs).1 = World.store w ∧
  Forall (fun r => match r with TokenResponse _ _ _ _ _ => False | _ => True end) (guesses ip raw w gs).2 ∧
  tried email hash (n + Z.of_nat (length gs)) (guesses ip raw w gs).1.
Proof.
  induction gs as [|g gs IH]; intros w n Hn Hs H0 Ht Hw; simpl.
  { by rewrite Z.add_0_r. }
  apply Forall_cons in Hs as [Hg Hs].
  destruct (guess_step ip raw w g email ok hash n Hn Hg H0 Ht) as [[Hst Hr] Ht'].
  { intros Hlt. replace (Z.to_nat (MaxAttempts - n)) with (S (Z.to_nat (MaxAttempts - (n + 1)))) in Hw by lia.
    by apply Forall_cons in Hw as [? _]. }
  destruct (guess ip raw w g) as [w1 r] eqn:Eg; simpl in *.
  destruct (IH w1 (n + 1) Hn Hs ltac:(lia) Ht') as (Hst' & Hr' & Ht2).
  { destruct (decide (n < MaxAttempts)).
    - replace (Z.to_nat (MaxAttempts - n)) with (S (Z.to_nat (MaxAttempts - (n + 1)))) in Hw by lia.
      by apply Forall_cons in Hw as [_ ?].
    - by replace (Z.to_nat (MaxAttempts - (n + 1))) with O by lia. }
  destruct (guesses ip raw w1 gs) as [w2 rs] eqn:Egs; simpl in *.
  split_and!; [congruence | by constructor |]. by replace (n + Z.of_nat (S (length gs))) with
    (n + 1 + Z.of_nat (length gs)) by lia.
Qed.

(** C29. Served one after the other, requests get three tries at a code: when
    the first three to arrive for an address are wrong, the entry is withdrawn,
    and neither they nor any later request, with the right code or not,
    creates an account or changes the store. *)
Theorem three_tries ip raw w gs email ok e :
  normalizeEmail raw = (email, ok) → Forall served gs →
  OtpMemory.signups (World.codes w) !! email = Some e → Signup.Attempts (signupEntry.signup e) = 0 →
  Forall (fun g => EqualCode (TrimSpace (Guess.code g)) (Signup.CodeHash (signupEntry.signup e)) = false)
    (take (Z.to_nat MaxAttempts) gs) →
  World.store (guesses ip raw w gs).1 = World.store w ∧
  Forall (fun r => match r with TokenResponse _ _ _ _ _ => False | _ => True end) (guesses ip raw w gs).2 ∧
  (MaxAttempts ≤ Z.of_nat (length gs) → OtpMemory.signups (World.codes (guesses ip raw w gs).1) !! email = None).
Proof.
  intros Hn Hs He Ha Hw.
  destruct (guesses_step ip raw gs email ok (Signup.CodeHash (signupEntry.signup e)) w 0 Hn Hs)
    as (Hst & Hr & Ht); [lia | by unfold tried; rewrite He | by rewrite Z.sub_0_r |].
  split_and!; [done..|]. intros Hl. unfold tried in Ht.
  by destruct (OtpMemory.signups (World.codes (guesses ip raw w gs).1) !! email); [destruct Ht as (_ & _ & ?); lia|].
Qed.
End Lockout.

(** Three wrong codes, then the right one. *)
Definition carol_guess (code : string) : Guess.t :=
  Guess.mk code "u3" "random" [] (Env.mk three_now false (fun _ => true)).

Lemma three_tries_witness :
  let gs := carol_guess <$> ["111111"; "222222"; "333333"; "000003"] in
  let s := guesses (RO := order_fwd) (U := ascii_only) (E := toy_ed25519) (J_ := three_jwt) (NM := mail_any)
             three_handler None "Carol@a" three_world gs in
  s.2 = [Error 401 "invalid code"; Error 401 "invalid code";
         Error 400 "too many incorrect attempts; please request a new code";
         Error 400 "no pending verification; please register again"] ∧
  World.store s.1 = World.store three_world.
Proof.
  cbv zeta. split; [vm_compute; reflexivity|].
  refine (proj1 (three_tries (RO := order_fwd) (U := ascii_only) (E := toy_ed25519) (J_ := three_jwt)
    (NM := mail_any) three_handler None "Carol@a" three_world _ "carol@a" true
    (signupEntry.mk (Signup.mk "carol@a" "hash" (Otp.HashCode "000003") 0 "i2") (three_now + Minute)) _ _ _ _ _)).
  - vm_compute. reflexivity.
  - repeat constructor.
  - vm_compute. reflexivity.
  - reflexivity.
  - repeat constructor; vm_compute; reflexivity.
Defined.

(** Four requests that overlap: the one with the right code has read the entry
    before the other three were counted, and creates the account after they
    have been told that the code is withdrawn. *)
Example overlapping_guesses :
  let env := Env.mk three_now false (fun _ => true) in
  let turns := [0; 1; 2; 3; 0; 1; 2; 2; 3; 3; 3; 3; 3; 3; 3]%nat in
  (Threads.schedule three_world
     [three_verify "carol@a" "111111" "a"; three_verify "carol@a" "222222" "b";
      three_verify "carol@a" "333333" "c"; three_verify "carol@a" "000003" "u3"]
     ((fun i => (i, env)) <$> turns)).2 =
  [Done (Error 401 "invalid code"); Done (Error 401 "invalid code");
   Done (Error 400 "too many incorrect attempts; please request a new code");
   Done (TokenResponse "access u3" "refresh u3" "u3" RoleUser 201)].
Proof. vm_compute. reflexivity. Qed.
