(* ===== verification/Resets.v ===== *)
(** * What a password reset achieves

    A reset that answers with tokens has changed the password of the account
    the code was mailed for, spent the code, and cut off every older session. *)

From S2P Require Import Prelude.
From S2P Require Import GoStrings.
From S2P Require Import Domain.
From S2P Require Import Threads.
From S2P Require Import Crypto.
From S2P Require Import Password.
From S2P Require Import Otp.
From S2P Require Import StoreState.
From S2P Require Import StoreUsers.
From S2P Require Import StoreBackup.
From S2P Require Import Auth.
From S2P Require Import Tokens.
From S2P Require Import AuthHandler.
From S2P Require Import Registration.

Section Resets.
Context {B : Type} {U : Unicode} {RC : RuneClasses}
  {A : Argon2} {E : Ed25519} {J_ : Jwt} {NM : NetMail}.
Context (h : Handler.t).
Abbreviation world := (World.t B).
Abbreviation handler := (prog world Env.t response).
Implicit Types (w : world) (Q : world → response → Prop).

(** Accounts are kept under their ids. *)
Definition users_keyed (m : Memory.t B) : Prop :=
  ∀ k u, Memory.users m !! k = Some u → User.ID u = k ∧ k ≠ "".

(** The request arrives at [t0]: no call of it meets an earlier clock. *)
Context (t0 : time).
Definition later (env : Env.t) : Prop := t0 ≤ Env.clock env.
Abbreviation wp := (wp later).

(** Only a request that goes through counts: [of_tokens P] holds of every other
    answer. *)
Definition of_tokens (P : world → string → Prop) : world → response → Prop :=
  fun w r => match r with TokenResponse _ _ uid _ _ => P w uid | _ => True end.

Lemma wp_allow action account ip (k : handler) w P :
  wp k w (of_tokens P) → wp (allow h action account ip k) w (of_tokens P).
Proof.
  intros Hk. unfold allow. destruct (negb _); [done|].
  set (by_address := match ip with Some ip => _ | None => k end).
  assert (Ha : wp by_address w (of_tokens P)).
  { unfold by_address. destruct ip; [|done]. intros env _. simpl. by destruct (Env.allows env _). }
  destruct (account != ""); [|done]. intros env _. simpl. by destruct (Env.allows env _).
Qed.

Lemma wp_attempt (k : bool → handler) w Q : wp (k true) w Q → wp (k false) w Q → wp (attempt k) w Q.
Proof. intros Ht Hf env _. cbn. by destruct (Env.fails env). Qed.

Lemma wp_codes_call {X} (op : OtpMemory.t → time → OtpMemory.t * result otp_err X)
    (k : result (failure otp_err) X → handler) w Q :
  wp (k (Err Unavailable)) w Q →
  (∀ now c r, op (World.codes w) now = (c, r) → wp (k (lift r)) (w <| World.codes := c |>) Q) →
  wp (codes_call op k) w Q.
Proof.
  intros He Hk env _. cbn beta. destruct (Env.fails env); [done|].
  destruct (op _ _) as [c r] eqn:Hop. by eapply Hk.
Qed.

Lemma wp_store_call {X} (op : Memory.t B → time → memory_op B X)
    (k : result (failure store_err) X → handler) w Q :
  wp (k (Err Unavailable)) w Q →
  (∀ now m r, op (World.store w) now = (m, r) → wp (k (lift r)) (w <| World.store := m |>) Q) →
  wp (store_call op k) w Q.
Proof.
  intros He Hk env _. cbn beta. destruct (Env.fails env); [done|].
  destruct (op _ _) as [c r] eqn:Hop. by eapply Hk.
Qed.

Lemma wp_store_read {X} (op : Memory.t B → result store_err X)
    (k : result (failure store_err) X → handler) w Q :
  wp (k (Err Unavailable)) w Q → wp (k (lift (op (World.store w)))) w Q → wp (store_read op k) w Q.
Proof.
  intros He Hk. apply wp_store_call; [done|]. intros _ m r [= <- <-]. by destruct w.
Qed.

Lemma reset_cutoff_later now : now < reset_cutoff now.
Proof.
  unfold reset_cutoff, Truncate, Second.
  pose proof (Z.mod_pos_bound now 1000000000). lia.
Qed.

(** A world in which the sessions of [uid] older than [t0] are cut off, and the
    accounts and the codes are those of [w]. *)
Definition cut_off uid w w' : Prop :=
  World.codes w' = World.codes w ∧ Memory.users (World.store w') = Memory.users (World.store w) ∧
  ∃ c, World.userCutoff w' !! uid = Some c ∧ t0 < c ∧ (∀ c0, World.userCutoff w !! uid = Some c0 → c0 ≤ c).

Lemma wp_revoke_sessions uid ttl (k : option time → handler) w Q :
  uid ≠ "" → wp (k None) w Q → (∀ w' c, cut_off uid w w' → wp (k (Some c)) w' Q) →
  wp (revoke_sessions uid ttl k) w Q.
Proof.
  intros Hu Hn Hk. unfold revoke_sessions. destruct (ttl <=? 0); [done|].
  intros env Hlater. cbn beta. cbn [fst snd]. unfold RevokeUserBefore. rewrite (bool_decide_eq_false_2 _ Hu).
  apply wp_store_call; [done|]. intros now m r [= <- <-]. intros env' _. cbn beta. cbn [fst snd lift].
  apply Hk. pose proof (reset_cutoff_later (Env.clock env)) as Hc. unfold later in Hlater.
  unfold cut_off. simpl. destruct (World.userCutoff w !! uid) as [c0|] eqn:Hc0; simpl.
  - unfold After. destruct (Z.ltb_spec c0 (reset_cutoff (Env.clock env))); simpl.
    + split_and!; [done..|]. eexists. rewrite lookup_insert_eq. split; [done|]. split; [lia|].
      intros ? [= <-]. lia.
    + split_and!; [done..|]. exists c0. split; [done|]. split; [lia|]. by intros ? [= <-].
  - split_and!; [done..|]. eexists. rewrite lookup_insert_eq. split; [done|]. split; [lia|done].
Qed.

(** Changing a role changes neither the password nor the status. *)
Definition same_login (m m' : Memory.t B) uid : Prop :=
  ∀ u, Memory.users m !! uid = Some u → ∃ u', Memory.users m' !! uid = Some u' ∧
    User.PasswordHash u' = User.PasswordHash u ∧ User.Status u' = User.Status u.

Lemma wp_currentRole u (k : option string → handler) w Q :
  wp (k None) w Q →
  (∀ m role, same_login (World.store w) m (User.ID u) → wp (k role) (w <| World.store := m |>) Q) →
  wp (currentRole h u k) w Q.
Proof.
  intros Hn Hk. unfold currentRole. destruct (_ && _).
  - apply wp_store_call; [done|]. intros _ m r Hop. apply Hk. unfold UpdateUserRole in Hop. intros u0 Hu0.
    rewrite Hu0 in Hop. injection Hop as <- <-. simpl. rewrite lookup_insert_eq. by eexists.
  - specialize (Hk (World.store w)). destruct w. apply Hk. intros u0 Hu0. by exists u0.
Qed.

(** What the answer with tokens for [uid] means. *)
Definition reset_done (email code newPassword : string) (salt : bytes) w w' uid : Prop :=
  ∃ e u c, OtpMemory.resets (World.codes w) !! email = Some e ∧ Reset_.UserID (resetEntry.reset e) = uid ∧
    EqualCode (TrimSpace code) (Reset_.CodeHash (resetEntry.reset e)) = true ∧
    OtpMemory.resets (World.codes w') !! email = None ∧
    Memory.users (World.store w') !! uid = Some u ∧ User.PasswordHash u = HashPassword newPassword salt ∧
    User.Status u ≠ UserBlocked ∧
    World.userCutoff w' !! uid = Some c ∧ t0 < c.

(** The second half of the handler, after the password is written. *)
Lemma wp_reset_answer email code pw salt w e w1 uid random :
  OtpMemory.resets (World.codes w) !! email = Some e → Reset_.UserID (resetEntry.reset e) = uid →
  EqualCode (TrimSpace code) (Reset_.CodeHash (resetEntry.reset e)) = true →
  OtpMemory.resets (World.codes w1) !! email = None → uid ≠ "" →
  (∀ u, Memory.users (World.store w1) !! uid = Some u →
     User.ID u = uid ∧ User.PasswordHash u = HashPassword pw salt) →
  wp (do! r := store_read (fun m => UserByID m uid) in
      match r with
      | Err (Known ErrNotFound) => Done (Error 401 "account is no longer available")
      | Err _ => Done (Error 500 "password reset failed")
      | Ok u =>
        if User.Status u == UserBlocked then Done (Error 403 "account is blocked")
        else
          do! role := currentRole h u in
          match role with
          | None => Done (Error 500 "password reset failed")
          | Some role =>
            do! cutoff := revoke_sessions (User.ID u) (TokenManager.refreshTTL (Handler.Tokens h)) in
            match cutoff with
            | None => Done (Error 500 "password reset failed")
            | Some cutoff => Done (issueAt h uid role cutoff 200 random)
            end
          end
      end) w1 (of_tokens (reset_done email code pw salt w)).
Proof.
  intros He Huid Hcode Hres Hne Hu. apply wp_store_read; [done|]. unfold UserByID.
  destruct (Memory.users (World.store w1) !! uid) as [u|] eqn:Hlook; simpl; [|done].
  destruct (Hu u eq_refl) as [Hid Hpw]. destruct (User.Status u == UserBlocked) eqn:Hb; [done|].
  apply wp_currentRole; [done|]. rewrite Hid. intros m [role|] Hsame; [|done].
  destruct (Hsame u Hlook) as (u' & Hu' & Hpw' & Hst').
  apply wp_revoke_sessions; [done|done|]. intros w2 c (Hcodes & Husers & cut & Hcut & Hlt & _). simpl in *.
  unfold issueAt, issue_response. destruct (fst <$> _) as [[acc ref]|]; [|done]. simpl.
  exists e, u', cut. rewrite Hcodes, Husers. split_and!; try done; [congruence|].
  rewrite Hst'. by apply bool_decide_eq_false in Hb.
Qed.

Lemma wp_resetPassword ip raw code pw salt random w email ok :
  normalizeEmail raw = (email, ok) → users_keyed (World.store w) →
  wp (resetPassword h ip raw code pw salt random) w (of_tokens (reset_done email code pw salt w)).
Proof.
  intros Hn Hkeyed. unfold resetPassword. rewrite Hn. apply wp_allow.
  destruct (ValidatePassword pw); [|done]. apply wp_codes_call; [done|]. intros now c r Hget.
  unfold OtpMemory.GetReset, OtpMemory.live_reset in Hget.
  destruct (OtpMemory.resets (World.codes w) !! email) as [e|] eqn:He; [|by injection Hget as <- <-].
  destruct (After now (resetEntry.expires e)); injection Hget as <- <-; [done|]. cbn [lift].
  destruct (EqualCode (TrimSpace code) (Reset_.CodeHash (resetEntry.reset e))) eqn:Hcode; cbn [negb].
  2:{ apply wp_codes_call; [done|]. intros now' c r _. destruct r as [n|]; [|done]. cbn [lift].
      destruct (MaxAttempts <=? n); [|done]. by apply wp_codes_call. }
  apply wp_store_read; [done|]. unfold UserByID at 1.
  change (Memory.users (World.store (w <| World.codes := World.codes w |>))) with (Memory.users (World.store w)).
  destruct (Memory.users (World.store w) !! Reset_.UserID (resetEntry.reset e)) as [u|] eqn:Hu; [|done].
  destruct (Hkeyed _ _ Hu) as [Hid Hne]. cbn [lift]. destruct (User.Status u == UserBlocked) eqn:Hb; [done|].
  apply wp_attempt; [|done]. cbn [negb]. apply wp_codes_call; [done|]. intros now' c r [= <- <-]. cbn [lift].
  rewrite Hid. apply wp_revoke_sessions; [done..|]. intros w2 c (Hcodes & Husers & _). simpl in Hcodes, Husers.
  apply wp_store_call; [done|]. intros now2 m r Hop. unfold UpdateUserPassword in Hop. rewrite Husers, Hu in Hop.
  injection Hop as <- <-. cbn [lift]. apply wp_reset_answer with (e := e); try done; simpl.
  - rewrite Hcodes. simpl. apply lookup_delete_eq.
  - intros u'. rewrite lookup_insert_eq. by intros [= <-].
Qed.

(** C30. A password reset that answers with tokens has done what it promises,
    whatever else fails on the way: the code was the one pending for the
    address, the account it was mailed for now has the hash of the new
    password and is not blocked, the code is spent, and every session opened
    before the request arrived is cut off. *)
Theorem reset_takes_effect ip raw code pw salt random w envs last access refresh uid role status :
  users_keyed (World.store w) → Forall later (last :: envs) →
  (run (resetPassword h ip raw code pw salt random) w envs last).2 =
    TokenResponse access refresh uid role status →
  reset_done (normalizeEmail raw).1 code pw salt w
    (run (resetPassword h ip raw code pw salt random) w envs last).1 uid.
Proof.
  intros Hk Hl Hr. destruct (normalizeEmail raw) as [email ok] eqn:Hn.
  pose proof (wp_run later _ _ w envs last Hl
    (wp_resetPassword ip raw code pw salt random w email ok Hn Hk)) as H.
  by rewrite Hr in H.
Qed.
End Resets.

(** Alice resets her password. *)
Definition alice_now : time := 1000 * Second.
Definition alice_tokens : list toy_token :=
  let h := JwtHeader.mk MethodEd25519 (TokenManager.keyID sample_manager) in
  let claims kind ttl := TokenManager.claims_at sample_manager "u1" RoleUser (base64url "random") kind ttl
                           (reset_cutoff alice_now) in
  [("access", (h, claims AccessToken Minute, SignPrivate "seed"));
   ("refresh", (h, claims RefreshToken Hour, SignPrivate "seed"))].
Lemma alice_tokens_distinct : NoDup alice_tokens.*1.
Proof. cbn. repeat constructor; set_solver. Qed.
Definition alice_jwt : Jwt (E := toy_ed25519) := toy_jwt (E := toy_ed25519) alice_tokens alice_tokens_distinct.

Definition alice_account : User.t :=
  User.zero <| User.ID := "u1" |> <| User.Email := "alice@a" |> <| User.PasswordHash := "old" |>
    <| User.Role := RoleUser |> <| User.Status := UserActive |>.
Definition alice_world : World.t unit :=
  World.mk ((Memory.NewMemory None) <| Memory.users := {["u1" := alice_account]} |>)
    (OtpMemory.NewMemory <| OtpMemory.resets :=
       {["alice@a" := resetEntry.mk (Reset_.mk "alice@a" "u1" (Otp.HashCode "000042") 0) (alice_now + Minute)]} |>)
    ∅ ∅.
Definition alice_reset : prog (World.t unit) Env.t response :=
  resetPassword (U := ascii_only) (RC := ascii_classes) (A := toy_argon2) (E := toy_ed25519) (J := alice_jwt)
    (NM := mail_any) three_handler None "Alice@a" "000042" "correct horse 1" "saltsaltsaltsalt" "random".

Lemma alice_keyed : users_keyed (World.store alice_world).
Proof. intros k u. simpl. rewrite lookup_singleton_Some. by intros [<- <-]. Qed.

Lemma reset_takes_effect_witness :
  let s := run alice_reset alice_world [] (Env.mk alice_now false (fun _ => true)) in
  s.2 = TokenResponse "access" "refresh" "u1" RoleUser 200 ∧
  ∃ u, Memory.users (World.store s.1) !! "u1" = Some u ∧
    User.PasswordHash u = HashPassword (A := toy_argon2) "correct horse 1" "saltsaltsaltsalt".
Proof.
  cbv zeta. match goal with |- ?P ∧ _ => assert P as H by (vm_compute; reflexivity) end. split; [exact H|].
  destruct (reset_takes_effect (U := ascii_only) (RC := ascii_classes) (A := toy_argon2) (E := toy_ed25519)
    (J_ := alice_jwt) (NM := mail_any) three_handler alice_now None "Alice@a" "000042" "correct horse 1"
    "saltsaltsaltsalt" "random" alice_world [] (Env.mk alice_now false (fun _ => true)) "access" "refresh" "u1"
    RoleUser 200 alice_keyed) as (e & u & c & _ & _ & _ & _ & Hu & Hpw & _).
  - repeat constructor. unfold later. simpl. lia.
  - exact H.
  - exists u. split; [exact Hu | exact Hpw].
Defined.
