(* ===== verification/Push.v ===== *)
(** * The push queue

    [api/internal/chat/pushqueue.go], [pushdrops.go], [storm.go]: the bounded
    queue between the requests that send messages and the workers that push
    notifications, the counter that reports drops, and the detector of commit
    storms. The queue's byte budget is an atomic counter that offers and
    workers move in several steps, so the pump is a transition system over the
    program counters of its goroutines. *)

From AAC_tactics Require Import AAC.
From AAC_tactics Require Instances.
From S2P Require Import Prelude.
From S2P Require Import GoStrings.
From S2P Require Import Domain.

Import Instances.Lists.

#[local] Instance permutation_lift {A} : AAC.AAC_lift (@Permutation A) (@Permutation A).
Proof. constructor; apply _. Qed.

(** ** The pump *)

Module pushJob.
Record t := mk {
  convID : string; senderID : string; msg : ChatMessage.t;
  members : list ConversationMember.t; queuedAt : time
}.
Definition size (j : t) : Z := slen (ChatMessage.Ciphertext (msg j)).
End pushJob.

(** The bounds [newPushPump] is given. *)
Module pushConfig.
Record t := mk { depth : nat; maxBytes : Z; maxWait : Z }.
End pushConfig.

(** [q] is the channel, oldest job first; [queued], [full] and [stale] are the
    atomic counters. *)
Module pushPump.
Record t := mk { q : list pushJob.t; queued : Z; full : Z; stale : Z }.
#[global] Instance eta : Eta t := fun r => mk (q r) (queued r) (full r) (stale r).
Definition newPushPump : t := mk [] 0 0 0.
End pushPump.

Definition pushWorkers : nat := 64.
Definition pushBacklog : nat := Z.to_nat 4096.
Definition pushQueueBytes : Z := 64 * 2 ^ 20.
Definition pushMaxWait : Z := 60 * Second.
Definition messagePush_config : pushConfig.t := pushConfig.mk pushBacklog pushQueueBytes pushMaxWait.

(** Where a call of [offer] stands: before it reserves the bytes, after it has
    found them over the budget, before the [select], after a [select] that
    found the queue full, before it counts the drop. *)
Inductive offer_pc : Type :=
| Reserve (j : pushJob.t)
| OverBudget (j : pushJob.t)
| Select (j : pushJob.t)
| QueueFull (j : pushJob.t)
| CountFull (j : pushJob.t).

(** Where a worker stands: waiting on the channel, before it releases the
    bytes, before it looks at the age, before it runs the job. *)
Inductive worker_pc : Type :=
| Waiting
| Release (j : pushJob.t)
| Age (j : pushJob.t)
| Run (j : pushJob.t).

(** [offer] step by step: the pump after it, and where the call stands; [None]
    with the answer when it has returned. *)
Definition offer_step (cfg : pushConfig.t) (p : pushPump.t) (pc : offer_pc)
  : pushPump.t * (offer_pc + bool) :=
  match pc with
  | Reserve j =>
      let queued := wrap64 (pushPump.queued p + pushJob.size j) in
      (p <| pushPump.queued := queued |>,
       inl (if pushConfig.maxBytes cfg <? queued then OverBudget j else Select j))
  | OverBudget j | QueueFull j =>
      (p <| pushPump.queued := wrap64 (pushPump.queued p + - pushJob.size j) |>, inl (CountFull j))
  | Select j =>
      if bool_decide (length (pushPump.q p) < pushConfig.depth cfg)%nat
      then (p <| pushPump.q := pushPump.q p ++ [j] |>, inr true)
      else (p, inl (QueueFull j))
  | CountFull j => (p <| pushPump.full := wrap64 (pushPump.full p + 1) |>, inr false)
  end.

(** What a worker's step did to a job. *)
Inductive outcome : Type := Nothing | Pushed (j : pushJob.t) | TooOld (j : pushJob.t).

(** [worker] step by step; [None] when it blocks on the empty channel. *)
Definition worker_step (cfg : pushConfig.t) (p : pushPump.t) (now : time) (pc : worker_pc)
  : option (pushPump.t * worker_pc * outcome) :=
  match pc with
  | Waiting =>
      match pushPump.q p with
      | [] => None
      | j :: q => Some (p <| pushPump.q := q |>, Release j, Nothing)
      end
  | Release j =>
      Some (p <| pushPump.queued := wrap64 (pushPump.queued p + - pushJob.size j) |>, Age j, Nothing)
  | Age j =>
      if pushConfig.maxWait cfg <? Sub now (pushJob.queuedAt j)
      then Some (p <| pushPump.stale := wrap64 (pushPump.stale p + 1) |>, Waiting, TooOld j)
      else Some (p, Run j, Nothing)
  | Run j => Some (p, Waiting, Pushed j)
  end.

(** ** The system

    The pump, the calls of [offer] under way, the workers, and what has come of
    every job so far. *)
Module Sys.
Record t := mk {
  pump : pushPump.t; offers : list offer_pc; workers : list worker_pc;
  offered : list pushJob.t; refused : list pushJob.t;
  pushed : list pushJob.t; expired : list pushJob.t;
  sent : list pushJob.t; received : list pushJob.t
}.
Definition init (n : nat) : t := mk pushPump.newPushPump [] (replicate n Waiting) [] [] [] [] [] [].
End Sys.

Definition offer_job (pc : offer_pc) : pushJob.t :=
  match pc with Reserve j | OverBudget j | Select j | QueueFull j | CountFull j => j end.
Definition worker_jobs (pc : worker_pc) : list pushJob.t :=
  match pc with Waiting => [] | Release j | Age j | Run j => [j] end.
Definition bytes_of (js : list pushJob.t) : Z := foldr (fun j n => pushJob.size j + n) 0 js.

Section System.
Context (cfg : pushConfig.t).

(** The messages of the calls under way fit in the machine's memory. *)
Definition memory_limit : Z := 2 ^ 62.
Definition in_flight (s : Sys.t) : Z := bytes_of (offer_job <$> Sys.offers s).

Inductive step : Sys.t → Sys.t → Prop :=
| step_offer p os ws off re pu ex se rc j :
    bytes_of (offer_job <$> os) + pushJob.size j ≤ memory_limit →
    step (Sys.mk p os ws off re pu ex se rc) (Sys.mk p (os ++ [Reserve j]) ws (off ++ [j]) re pu ex se rc)
| step_go p os1 pc os2 ws off re pu ex se rc p' pc' :
    offer_step cfg p pc = (p', inl pc') →
    step (Sys.mk p (os1 ++ pc :: os2) ws off re pu ex se rc) (Sys.mk p' (os1 ++ pc' :: os2) ws off re pu ex se rc)
| step_answer p os1 pc os2 ws off re pu ex se rc p' ok :
    offer_step cfg p pc = (p', inr ok) →
    step (Sys.mk p (os1 ++ pc :: os2) ws off re pu ex se rc)
      (Sys.mk p' (os1 ++ os2) ws off (if ok then re else re ++ [offer_job pc]) pu ex
         (if ok then se ++ [offer_job pc] else se) rc)
| step_worker p os ws1 pc ws2 off re pu ex se rc now p' pc' out :
    worker_step cfg p now pc = Some (p', pc', out) →
    step (Sys.mk p os (ws1 ++ pc :: ws2) off re pu ex se rc)
      (Sys.mk p' os (ws1 ++ pc' :: ws2) off re
         (match out with Pushed j => pu ++ [j] | _ => pu end)
         (match out with TooOld j => ex ++ [j] | _ => ex end) se
         (match pc, pc' with Waiting, Release j => rc ++ [j] | _, _ => rc end)).

(** ** The invariant *)

(** The bytes a call of [offer], or a worker, has reserved at a point. *)
Definition reserved (pc : offer_pc) : Z :=
  match pc with Reserve _ | CountFull _ => 0 | OverBudget j | Select j | QueueFull j => pushJob.size j end.
Definition unreleased (pc : worker_pc) : Z := match pc with Release j => pushJob.size j | _ => 0 end.
Definition over (pc : offer_pc) : Z := match pc with OverBudget j => pushJob.size j | _ => 0 end.
Definition total {A} (f : A → Z) (l : list A) : Z := foldr (fun x n => f x + n) 0 l.

Lemma total_app {A} (f : A → Z) l k : total f (l ++ k) = total f l + total f k.
Proof. induction l as [|x l IH]; simpl; [done|]. unfold total in *. lia. Qed.
Lemma total_nonneg {A} (f : A → Z) l : (∀ x, 0 ≤ f x) → 0 ≤ total f l.
Proof. intros Hf. induction l as [|x l IH]; simpl; [done|]. specialize (Hf x). unfold total in *. lia. Qed.
Lemma total_le {A} (f g : A → Z) l : (∀ x, f x ≤ g x) → total f l ≤ total g l.
Proof. intros Hf. induction l as [|x l IH]; simpl; [done|]. specialize (Hf x). unfold total in *. lia. Qed.
Lemma size_nonneg j : 0 ≤ pushJob.size j.
Proof. apply slen_nonneg. Qed.

(** All that the counter [queued] stands for. *)
Definition budget (s : Sys.t) : Z :=
  bytes_of (pushPump.q (Sys.pump s)) + total reserved (Sys.offers s) + total unreleased (Sys.workers s).
Definition jobs_of (s : Sys.t) : list pushJob.t :=
  (offer_job <$> Sys.offers s) ++ pushPump.q (Sys.pump s) ++ (Sys.workers s ≫= worker_jobs) ++
  Sys.refused s ++ Sys.pushed s ++ Sys.expired s.

Record Inv (s : Sys.t) : Prop := {
  inv_queued : pushPump.queued (Sys.pump s) = budget s;
  inv_budget : budget s - total over (Sys.offers s) ≤ pushConfig.maxBytes cfg;
  inv_depth : (length (pushPump.q (Sys.pump s)) ≤ pushConfig.depth cfg)%nat;
  inv_memory : in_flight s ≤ memory_limit;
  inv_full : pushPump.full (Sys.pump s) = wrap64 (Z.of_nat (length (Sys.refused s)));
  inv_stale : pushPump.stale (Sys.pump s) = wrap64 (Z.of_nat (length (Sys.expired s)));
  inv_jobs : Sys.offered s ≡ₚ jobs_of s;
  inv_order : Sys.sent s = Sys.received s ++ pushPump.q (Sys.pump s)
}.

Hypothesis small_budget : 0 ≤ pushConfig.maxBytes cfg < 2 ^ 62.

Lemma Inv_init n : Inv (Sys.init n).
Proof.
  assert (Hw : total unreleased (replicate n Waiting) = 0) by (induction n; simpl in *; lia).
  assert (Hj : replicate n Waiting ≫= worker_jobs = []) by (clear; induction n as [|n IH]; [done|exact IH]).
  split; unfold budget, in_flight, jobs_of; simpl; rewrite ?Hw, ?Hj; try lia; try done.
Qed.

Lemma bytes_of_app l k : bytes_of (l ++ k) = bytes_of l + bytes_of k.
Proof. exact (total_app pushJob.size l k). Qed.
Lemma over_in_flight os : 0 ≤ total over os ≤ bytes_of (offer_job <$> os).
Proof.
  induction os as [|pc os IH]; [done|]. cbn [fmap list_fmap total bytes_of foldr].
  assert (0 ≤ over pc ≤ pushJob.size (offer_job pc))
    by (destruct pc as [j|j|j|j|j]; simpl; pose proof (size_nonneg j); lia).
  unfold total, bytes_of in IH. lia.
Qed.

Lemma reserved_nonneg pc : 0 ≤ reserved pc.
Proof. destruct pc as [j|j|j|j|j]; simpl; pose proof (size_nonneg j); lia. Qed.
Lemma unreleased_nonneg pc : 0 ≤ unreleased pc.
Proof. destruct pc as [|j|j|j]; simpl; try pose proof (size_nonneg j); lia. Qed.

Lemma budget_nonneg s : 0 ≤ budget s.
Proof.
  unfold budget. pose proof (total_nonneg pushJob.size (pushPump.q (Sys.pump s)) size_nonneg) as H.
  pose proof (total_nonneg reserved (Sys.offers s) reserved_nonneg).
  pose proof (total_nonneg unreleased (Sys.workers s) unreleased_nonneg).
  change (total pushJob.size) with bytes_of in H. lia.
Qed.

Lemma wrap64_succ n : wrap64 (wrap64 (Z.of_nat n) + 1) = wrap64 (Z.of_nat n + 1).
Proof. unfold wrap64, two63, two64. Z.to_euclidean_division_equations; lia. Qed.

Lemma total_cons {A} (f : A → Z) x l : total f (x :: l) = f x + total f l.
Proof. done. Qed.
Lemma bytes_of_cons j l : bytes_of (j :: l) = pushJob.size j + bytes_of l.
Proof. done. Qed.
Lemma total_nil {A} (f : A → Z) : total f [] = 0.
Proof. done. Qed.
Lemma bytes_of_nil : bytes_of [] = 0.
Proof. done. Qed.
Lemma jobs_cons pc os : offer_job <$> (pc :: os) = offer_job pc :: (offer_job <$> os).
Proof. done. Qed.
Lemma worker_jobs_app ws1 pc ws2 :
  (ws1 ++ pc :: ws2) ≫= worker_jobs = (ws1 ≫= worker_jobs) ++ worker_jobs pc ++ (ws2 ≫= worker_jobs).
Proof. by rewrite bind_app. Qed.

(** Unfold the sums of a state and split them at the element that moves. *)
Ltac split_sums :=
  rewrite ?fmap_app, ?jobs_cons, ?total_app, ?bytes_of_app, ?total_cons, ?bytes_of_cons, ?total_nil, ?bytes_of_nil.
Ltac sums :=
  unfold budget, in_flight in *; cbn [Sys.pump Sys.offers Sys.workers pushPump.q] in *;
  rewrite ?fmap_app, ?jobs_cons, ?total_app, ?bytes_of_app, ?total_cons, ?bytes_of_cons, ?total_nil,
    ?bytes_of_nil in *; split_sums.
Ltac by_sums := sums; simpl in *; unfold memory_limit in *; lia.

(** The jobs of a state, rearranged into those of [H]. *)
Ltac jobs H :=
  unfold jobs_of in *; cbn [Sys.pump Sys.offers Sys.workers Sys.offered Sys.refused Sys.pushed Sys.expired
    pushPump.q] in *;
  rewrite ?fmap_app, ?jobs_cons, ?fmap_nil, ?worker_jobs_app in *; rewrite H; cbn [worker_jobs offer_job];
  repeat match goal with
    | |- context [?x :: ?l] => lazymatch l with [] => fail | _ => change (x :: l) with ([x] ++ l) end
    end;
  aac_reflexivity.

Lemma Inv_offer p os ws off re pu ex se rc j :
  bytes_of (offer_job <$> os) + pushJob.size j ≤ memory_limit →
  Inv (Sys.mk p os ws off re pu ex se rc) → Inv (Sys.mk p (os ++ [Reserve j]) ws (off ++ [j]) re pu ex se rc).
Proof.
  intros Hj []. split; simpl in *; try done; try by_sums. jobs inv_jobs0.
Qed.

Lemma Inv_go p os1 pc os2 ws off re pu ex se rc p' pc' :
  offer_step cfg p pc = (p', inl pc') →
  Inv (Sys.mk p (os1 ++ pc :: os2) ws off re pu ex se rc) →
  Inv (Sys.mk p' (os1 ++ pc' :: os2) ws off re pu ex se rc).
Proof.
  intros Hop HI. pose proof (budget_nonneg (Sys.mk p (os1 ++ pc :: os2) ws off re pu ex se rc)) as Hb.
  pose proof (over_in_flight os1) as Ho1. pose proof (over_in_flight os2) as Ho2. destruct HI.
  destruct p as [q queued full stale], pc as [j|j|j|j|j]; simpl in *; try done; pose proof (size_nonneg j) as Hs.
  - injection Hop as <- <-. sums. simpl in *. unfold memory_limit in *.
    rewrite wrap64_id by (unfold two63; lia).
    destruct (Z.ltb_spec (pushConfig.maxBytes cfg) (queued + pushJob.size j)).
    + split; simpl; try done; try by_sums. jobs inv_jobs0.
    + split; simpl; try done; try by_sums. jobs inv_jobs0.
  - injection Hop as <- <-. sums. simpl in *. unfold memory_limit in *.
    rewrite wrap64_id by (unfold two63; lia). split; simpl; try done; try by_sums. jobs inv_jobs0.
  - case_bool_decide; [done|]. injection Hop as <- <-.
    split; simpl; try done; try by_sums. jobs inv_jobs0.
  - injection Hop as <- <-. sums. simpl in *. unfold memory_limit in *.
    rewrite wrap64_id by (unfold two63; lia). split; simpl; try done; try by_sums. jobs inv_jobs0.
Qed.

Lemma Inv_answer p os1 pc os2 ws off re pu ex se rc p' ok :
  offer_step cfg p pc = (p', inr ok) →
  Inv (Sys.mk p (os1 ++ pc :: os2) ws off re pu ex se rc) →
  Inv (Sys.mk p' (os1 ++ os2) ws off (if ok then re else re ++ [offer_job pc]) pu ex
         (if ok then se ++ [offer_job pc] else se) rc).
Proof.
  intros Hop []. destruct p as [q queued full stale], pc as [j|j|j|j|j]; simpl in *; try done;
    pose proof (size_nonneg j) as Hs.
  - case_bool_decide as Hlen; [|done]. injection Hop as <- <-.
    split; simpl; try done; try by_sums.
    + rewrite length_app. simpl. lia.
    + jobs inv_jobs0.
    + by rewrite inv_order0, app_assoc.
  - injection Hop as <- <-. split; simpl; try done; try by_sums.
    + rewrite length_app, inv_full0, wrap64_succ. simpl. f_equal. lia.
    + jobs inv_jobs0.
Qed.

Lemma Inv_worker p os ws1 pc ws2 off re pu ex se rc now p' pc' out :
  worker_step cfg p now pc = Some (p', pc', out) →
  Inv (Sys.mk p os (ws1 ++ pc :: ws2) off re pu ex se rc) →
  Inv (Sys.mk p' os (ws1 ++ pc' :: ws2) off re
         (match out with Pushed j => pu ++ [j] | _ => pu end)
         (match out with TooOld j => ex ++ [j] | _ => ex end) se
         (match pc, pc' with Waiting, Release j => rc ++ [j] | _, _ => rc end)).
Proof.
  intros Hop HI. pose proof (budget_nonneg (Sys.mk p os (ws1 ++ pc :: ws2) off re pu ex se rc)) as Hb.
  pose proof (over_in_flight os) as Ho.
  destruct HI, p as [q queued full stale], pc as [|j|j|j]; simpl in *.
  - destruct q as [|j q]; [done|]. injection Hop as <- <- <-.
    split; simpl in *; try done; try by_sums.
    + jobs inv_jobs0.
    + by rewrite <- app_assoc.
  - injection Hop as <- <- <-. sums. simpl in *. unfold memory_limit in *.
    pose proof (size_nonneg j). pose proof (total_nonneg pushJob.size q size_nonneg) as H1.
    pose proof (total_nonneg reserved os reserved_nonneg).
    pose proof (total_nonneg unreleased ws1 unreleased_nonneg).
    pose proof (total_nonneg unreleased ws2 unreleased_nonneg).
    change (total pushJob.size q) with (bytes_of q) in H1. rewrite wrap64_id by (unfold two63; lia).
    split; simpl; try done; try by_sums. jobs inv_jobs0.
  - destruct (pushConfig.maxWait cfg <? Sub now (pushJob.queuedAt j)); injection Hop as <- <- <-;
      split; simpl; try done; try by_sums.
    + rewrite length_app, inv_stale0, wrap64_succ. simpl. f_equal. lia.
    + jobs inv_jobs0.
    + jobs inv_jobs0.
  - injection Hop as <- <- <-. split; simpl; try done; try by_sums. jobs inv_jobs0.
Qed.

Lemma Inv_step s s' : step s s' → Inv s → Inv s'.
Proof. intros [] HI; eauto using Inv_offer, Inv_go, Inv_answer, Inv_worker. Qed.

Lemma pump_reachable_Inv n s : rtc step (Sys.init n) s → Inv s.
Proof.
  intros Hr. pose proof (Inv_init n) as HI. revert HI. generalize (Sys.init n), s, Hr. clear -small_budget.
  induction 1 as [s|s1 s2 s3 H _ IH]; eauto using Inv_step.
Qed.

(** No job is lost, doubled or forgotten by the push queue, however the
    offers and the workers interleave: every job offered is in the hands of one
    call or worker, in the queue, refused and counted, pushed, or dropped as
    too old and counted; the queue holds no more jobs and no more bytes than it
    may, and hands jobs out in the order it took them; and the byte counter is
    the sum of what is reserved, so that an idle queue has its whole budget
    back. *)
Theorem push_conserves n s :
  rtc step (Sys.init n) s →
  Sys.offered s ≡ₚ jobs_of s ∧
  (length (pushPump.q (Sys.pump s)) ≤ pushConfig.depth cfg)%nat ∧
  bytes_of (pushPump.q (Sys.pump s)) ≤ pushConfig.maxBytes cfg ∧
  Sys.sent s = Sys.received s ++ pushPump.q (Sys.pump s) ∧
  pushPump.full (Sys.pump s) = wrap64 (Z.of_nat (length (Sys.refused s))) ∧
  pushPump.stale (Sys.pump s) = wrap64 (Z.of_nat (length (Sys.expired s))) ∧
  (Sys.offers s = [] → Forall (fun pc => unreleased pc = 0) (Sys.workers s) →
     pushPump.queued (Sys.pump s) = bytes_of (pushPump.q (Sys.pump s))).
Proof.
  intros [Hq Hb Hd _ Hf Hst Hj Ho]%pump_reachable_Inv. unfold budget in *.
  assert (total over (Sys.offers s) ≤ total reserved (Sys.offers s))
    by (apply total_le; intros [j|j|j|j|j]; simpl; pose proof (size_nonneg j); lia).
  pose proof (total_nonneg unreleased (Sys.workers s) unreleased_nonneg).
  split_and!; try done; [lia|]. intros He Hw. rewrite Hq, He, total_nil.
  assert (total unreleased (Sys.workers s) = 0) as ->; [clear -Hw|lia].
  induction Hw as [|pc ws Hpc _ IH]; [done|]. rewrite total_cons. lia.
Qed.

(** ** Draining *)

(** A step of the pump itself: no new job. *)
Definition quiet_step (s s' : Sys.t) : Prop := step s s' ∧ Sys.offered s' = Sys.offered s.

Definition offer_left (pc : offer_pc) : nat :=
  match pc with Reserve _ => 6 | Select _ => 5 | OverBudget _ | QueueFull _ => 2 | CountFull _ => 1 end.
Definition worker_left (pc : worker_pc) : nat :=
  match pc with Waiting => 0 | Release _ => 3 | Age _ => 2 | Run _ => 1 end.
(** How many steps are left to take, at most. *)
Definition steps_left (s : Sys.t) : nat :=
  sum_list_with offer_left (Sys.offers s) + 4 * length (pushPump.q (Sys.pump s)) +
  sum_list_with worker_left (Sys.workers s).

Lemma quiet_step_left s s' : quiet_step s s' → (steps_left s' < steps_left s)%nat.
Proof.
  intros [Hstep Hoff]. unfold steps_left.
  destruct Hstep as [p os ws off re pu ex se rc j Hj
    |p os1 pc os2 ws off re pu ex se rc p' pc' Hop
    |p os1 pc os2 ws off re pu ex se rc p' ok Hop
    |p os ws1 pc ws2 off re pu ex se rc now p' pc' out Hop]; simpl in *.
  - apply (f_equal length) in Hoff. rewrite length_app in Hoff. simpl in Hoff. lia.
  - rewrite !sum_list_with_app. simpl.
    destruct pc; simpl in Hop; repeat case_match; simplify_eq/=; simpl; lia.
  - rewrite !sum_list_with_app. simpl.
    destruct pc; simpl in Hop; repeat case_match; simplify_eq/=; rewrite ?length_app; simpl; lia.
  - rewrite !sum_list_with_app. simpl.
    destruct pc; simpl in Hop; repeat case_match; simplify_eq/=;
      try match goal with H : pushPump.q _ = _ |- _ => rewrite H end; simpl; lia.
Qed.

Lemma offer_goes pc os1 os2 s :
  Sys.offers s = os1 ++ pc :: os2 → ∃ s', quiet_step s s'.
Proof.
  intros He. destruct s as [p os ws off re pu ex se rc]; simpl in *; subst os.
  destruct (offer_step cfg p pc) as [p' [pc'|ok]] eqn:Hop; eexists.
  - split; [by eapply step_go|done].
  - split; [by eapply step_answer|done].
Qed.

Lemma worker_goes pc ws1 ws2 s :
  Sys.workers s = ws1 ++ pc :: ws2 → pc ≠ Waiting ∨ pushPump.q (Sys.pump s) ≠ [] → ∃ s', quiet_step s s'.
Proof.
  intros He Hgo. destruct s as [p os ws off re pu ex se rc]; simpl in *; subst ws.
  assert (is_Some (worker_step cfg p 0 pc)) as [[[p' pc'] out] Hop].
  { destruct pc; simpl; [destruct (pushPump.q p); [naive_solver|]|..]; try case_match; eauto. }
  eexists. split; [by eapply step_worker|done].
Qed.

Lemma step_workers s s' : step s s' → length (Sys.workers s') = length (Sys.workers s).
Proof. intros []; simpl; rewrite ?length_app; simpl; done. Qed.

Lemma waiting_idle ws :
  (∀ pc, pc ∈ ws → pc = Waiting) → total unreleased ws = 0 ∧ ws ≫= worker_jobs = [].
Proof.
  induction ws as [|pc ws IH]; intros H; [done|]. rewrite (H pc) by by left.
  apply IH. intros pc' Hpc'. apply H. by right.
Qed.

(** C36. The push queue drains: once offers stop, the calls under way and the
    workers take a bounded number of steps, and when none can be taken any more
    every job that was offered has been pushed, dropped as too old or refused,
    the queue is empty and its byte counter is back at zero. *)
Theorem push_drains n s s' k :
  (0 < n)%nat → rtc step (Sys.init n) s → nsteps quiet_step k s s' →
  (k ≤ steps_left s)%nat ∧
  ((∀ s'', ¬ quiet_step s' s'') →
     Sys.offered s' ≡ₚ Sys.refused s' ++ Sys.pushed s' ++ Sys.expired s' ∧
     pushPump.q (Sys.pump s') = [] ∧ pushPump.queued (Sys.pump s') = 0).
Proof.
  intros Hn Hr Hk. split.
  - clear Hr. induction Hk as [s|k s1 s2 s3 Hs _ IH]; [lia|]. apply quiet_step_left in Hs. lia.
  - intros Hstuck. assert (Hr' : rtc step (Sys.init n) s').
    { etrans; [exact Hr|]. clear -Hk. induction Hk as [s|k s1 s2 s3 [Hs _] _ IH]; [done|]. by econstructor. }
    assert (Hlen : length (Sys.workers s') = n).
    { clear -Hr'. replace n with (length (Sys.workers (Sys.init n))) by apply length_replicate.
      induction Hr' as [s|s1 s2 s3 H _ IH]; [done|]. by rewrite IH, (step_workers _ _ H). }
    assert (Hos : Sys.offers s' = []).
    { destruct (Sys.offers s') as [|pc os] eqn:E; [done|].
      destruct (offer_goes pc [] os s' E) as [s'' H]. by destruct (Hstuck s''). }
    assert (Hws : ∀ pc, pc ∈ Sys.workers s' → pc = Waiting ∧ pushPump.q (Sys.pump s') = []).
    { intros pc (ws1 & ws2 & E)%list_elem_of_split. split.
      - destruct pc; [done|..]; exfalso;
          (edestruct (worker_goes _ ws1 ws2 s' E) as [s'' H]; [by left|]; by destruct (Hstuck s'')).
      - destruct (pushPump.q (Sys.pump s')) eqn:Eq; [done|].
        destruct (worker_goes pc ws1 ws2 s' E) as [s'' H]; [right; by rewrite Eq|]. by destruct (Hstuck s''). }
    assert (Hq : pushPump.q (Sys.pump s') = []).
    { destruct (Sys.workers s') as [|pc ws]; [simpl in Hlen; lia|]. apply (Hws pc). by left. }
    destruct (waiting_idle (Sys.workers s')) as [Hu Hj']; [by intros pc Hpc; apply Hws|].
    apply pump_reachable_Inv in Hr' as [Hqd _ _ _ _ _ Hj _]. unfold budget, jobs_of in *.
    rewrite Hos, Hq in *. rewrite Hj' in Hj. split_and!; [exact Hj | done |].
    rewrite Hqd, Hu, total_nil. done.
Qed.
End System.

(** ** A schedule, executed *)

Inductive turn : Type :=
| Arrive (j : pushJob.t)
| OfferTurn (i : nat)
| WorkerTurn (i : nat) (now : time).

Definition take_turn (cfg : pushConfig.t) (s : Sys.t) (t : turn) : Sys.t :=
  let '(Sys.mk p os ws off re pu ex se rc) := s in
  match t with
  | Arrive j =>
      if bytes_of (offer_job <$> os) + pushJob.size j <=? memory_limit
      then Sys.mk p (os ++ [Reserve j]) ws (off ++ [j]) re pu ex se rc else s
  | OfferTurn i =>
      match os !! i with
      | None => s
      | Some pc =>
          match offer_step cfg p pc with
          | (p', inl pc') => Sys.mk p' (take i os ++ pc' :: drop (S i) os) ws off re pu ex se rc
          | (p', inr ok) =>
              Sys.mk p' (take i os ++ drop (S i) os) ws off (if ok then re else re ++ [offer_job pc]) pu ex
                (if ok then se ++ [offer_job pc] else se) rc
          end
      end
  | WorkerTurn i now =>
      match ws !! i with
      | None => s
      | Some pc =>
          match worker_step cfg p now pc with
          | None => s
          | Some (p', pc', out) =>
              Sys.mk p' os (take i ws ++ pc' :: drop (S i) ws) off re
                (match out with Pushed j => pu ++ [j] | _ => pu end)
                (match out with TooOld j => ex ++ [j] | _ => ex end) se
                (match pc, pc' with Waiting, Release j => rc ++ [j] | _, _ => rc end)
          end
      end
  end.

Lemma take_turn_step cfg s t : rtc (step cfg) s (take_turn cfg s t).
Proof.
  destruct s as [p os ws off re pu ex se rc], t as [j|i|i now]; cbn [take_turn].
  - destruct (Z.leb_spec (bytes_of (offer_job <$> os) + pushJob.size j) memory_limit); [|done].
    by apply rtc_once, step_offer.
  - destruct (os !! i) as [pc|] eqn:Hi; [|done].
    pose proof (take_drop_middle _ _ _ Hi) as Hos.
    destruct (offer_step cfg p pc) as [p' [pc'|ok]] eqn:Hop; apply rtc_once; rewrite <- Hos at 1;
      [by eapply step_go | by eapply step_answer].
  - destruct (ws !! i) as [pc|] eqn:Hi; [|done].
    pose proof (take_drop_middle _ _ _ Hi) as Hws.
    destruct (worker_step cfg p now pc) as [[[p' pc'] out]|] eqn:Hop; [|done].
    apply rtc_once. rewrite <- Hws at 1. by eapply step_worker.
Qed.

Lemma take_turns_step cfg ts : ∀ s, rtc (step cfg) s (foldl (take_turn cfg) s ts).
Proof. induction ts as [|t ts IH]; intros s; [done|]. etrans; [apply take_turn_step | apply IH]. Qed.

(** Two jobs race for a queue of one; the second is refused, the first is
    pushed. *)
Definition sample_job (id : string) : pushJob.t :=
  pushJob.mk "c" "alice" (ChatMessage.zero <| ChatMessage.ID := id |> <| ChatMessage.Ciphertext := "xyz" |>) [] 0.
Definition sample_config : pushConfig.t := pushConfig.mk 1 10 pushMaxWait.
Definition sample_turns : list turn :=
  [Arrive (sample_job "1"); Arrive (sample_job "2"); OfferTurn 0; OfferTurn 1; OfferTurn 0; OfferTurn 0; OfferTurn 0;
   OfferTurn 0; WorkerTurn 0 1; WorkerTurn 0 1; WorkerTurn 0 1; WorkerTurn 0 1].

Lemma push_conserves_witness :
  let s := foldl (take_turn sample_config) (Sys.init 1) sample_turns in
  Sys.pushed s = [sample_job "1"] ∧ Sys.refused s = [sample_job "2"] ∧ pushPump.full (Sys.pump s) = 1 ∧
  pushPump.queued (Sys.pump s) = bytes_of (pushPump.q (Sys.pump s)).
Proof.
  cbv zeta. split_and!; [vm_compute; reflexivity..|].
  refine (proj2 (proj2 (proj2 (proj2 (proj2 (proj2 (push_conserves sample_config _ 1 _
    (take_turns_step sample_config sample_turns (Sys.init 1)))))))) _ _).
  - split; vm_compute; congruence.
  - vm_compute. reflexivity.
  - vm_compute. repeat constructor.
Defined.

Lemma push_drains_witness :
  let s := foldl (take_turn sample_config) (Sys.init 1) (take 11 sample_turns) in
  let s' := take_turn sample_config s (WorkerTurn 0 1) in
  quiet_step sample_config s s' ∧ (1 ≤ steps_left s)%nat.
Proof.
  cbv zeta. set (s := foldl (take_turn sample_config) (Sys.init 1) (take 11 sample_turns)).
  assert (H : quiet_step sample_config s (take_turn sample_config s (WorkerTurn 0 1))).
  { split; [|vm_compute; reflexivity].
    refine (step_worker sample_config (Sys.pump s) [] [] (Run (sample_job "1")) [] (Sys.offered s) (Sys.refused s)
      (Sys.pushed s) (Sys.expired s) (Sys.sent s) (Sys.received s) 1 (Sys.pump s) Waiting (Pushed (sample_job "1")) _).
    reflexivity. }
  split; [exact H|].
  refine (proj1 (push_drains sample_config _ 1 s (take_turn sample_config s (WorkerTurn 0 1)) 1 _ _ _)).
  - split; vm_compute; congruence.
  - lia.
  - apply take_turns_step.
  - by apply nsteps_once.
Defined.

(** * Alarms

    [api/internal/chat/storm.go] and [pushdrops.go]: the detector of commit
    storms, and the counter that turns dropped notifications into log lines. *)

(** ** Commit storms *)

Definition stormAlarmWindow : Z := 10 * Minute.
Definition stormAlarmThreshold : Z := 40.

Module stormWindow.
Record t := mk { start : time; n : Z; warned : bool }.
#[global] Instance eta : Eta t := fun r => mk (start r) (n r) (warned r).
End stormWindow.

Module commitStormDetector.
Record t := mk { window : Z; threshold : Z; seen : gmap string stormWindow.t }.
#[global] Instance eta : Eta t := fun r => mk (window r) (threshold r) (seen r).
Definition newCommitStormDetector (window threshold : Z) : t := mk window threshold ∅.
End commitStormDetector.

Section Storm.
Context {RO : RangeOrder}.
Implicit Types (d : commitStormDetector.t) (w : stormWindow.t) (now : time).

(** The window is over. *)
Definition expired d now w : bool := commitStormDetector.window d <? Sub now (stormWindow.start w).

(** The window a commit of [conversationID] falls into, and the map with it. *)
Definition current_window d (conversationID : string) now : gmap string stormWindow.t * stormWindow.t :=
  let fresh :=
    let w := stormWindow.mk now 0 false in
    (<[conversationID := w]> (range_delete (expired d now) (commitStormDetector.seen d)), w) in
  match commitStormDetector.seen d !! conversationID with
  | None => fresh
  | Some w => if expired d now w then fresh else (commitStormDetector.seen d, w)
  end.

Definition Observe d (conversationID : string) now : commitStormDetector.t * (Z * bool) :=
  let '(seen, w) := current_window d conversationID now in
  let w := w <| stormWindow.n := wrap64 (stormWindow.n w + 1) |> in
  let alarm := (commitStormDetector.threshold d <=? stormWindow.n w) && negb (stormWindow.warned w) in
  let w := if alarm then w <| stormWindow.warned := true |> else w in
  (d <| commitStormDetector.seen := <[conversationID := w]> seen |>, (stormWindow.n w, alarm)).

(** The commits of all conversations, in the order the lock admits them. *)
Fixpoint observe_all d (events : list (string * time)) : commitStormDetector.t * list (Z * bool) :=
  match events with
  | [] => (d, [])
  | (c, now) :: events =>
      let '(d, out) := Observe d c now in
      let '(d, outs) := observe_all d events in (d, out :: outs)
  end.

(** ** What the detector is to compute

    One conversation on its own: its commits are cut into windows, the first
    commit after a window is over starts the next, and the alarm goes at the
    commit whose number in its window is the threshold. [cur] is the start of
    the window under way and the number of commits in it. *)
Fixpoint windows (window threshold : Z) (cur : option (time * Z)) (times : list time) : list (Z * bool) :=
  match times with
  | [] => []
  | now :: times =>
      let '(start, k) :=
        match cur with
        | Some (start, k) => if Sub now start <=? window then (start, k) else (now, 0)
        | None => (now, 0)
        end in
      (k + 1, k + 1 =? threshold) :: windows window threshold (Some (start, k + 1)) times
  end.

(** The outputs that belong to [c]. *)
Fixpoint outputs_of (c : string) (events : list (string * time)) (outs : list (Z * bool)) : list (Z * bool) :=
  match events, outs with
  | (c', _) :: events, out :: outs => if c' == c then out :: outputs_of c events outs else outputs_of c events outs
  | _, _ => []
  end.
Fixpoint times_of (c : string) (events : list (string * time)) : list time :=
  match events with
  | [] => []
  | (c', now) :: events => if c' == c then now :: times_of c events else times_of c events
  end.

Lemma Sub_mono (t t' u : time) : t ≤ t' → Sub t u ≤ Sub t' u.
Proof. unfold Sub. lia. Qed.

(** What the map says of [c] at a moment, against its window under way. *)
Definition tracks d (last : time) (room : Z) (cur : option (time * Z)) (c : string) : Prop :=
  match commitStormDetector.seen d !! c with
  | Some w => cur = Some (stormWindow.start w, stormWindow.n w) ∧ 0 ≤ stormWindow.n w < two63 - room ∧
      stormWindow.warned w = (commitStormDetector.threshold d <=? stormWindow.n w)
  | None => match cur with
            | None => True
            | Some (start, _) => commitStormDetector.window d < Sub last start
            end
  end.

(** A commit elsewhere leaves the window of [c], or drops it when it is over. *)
Lemma current_window_other d c' c now :
  c' ≠ c →
  (current_window d c' now).1 !! c = commitStormDetector.seen d !! c ∨
  (∃ w, commitStormDetector.seen d !! c = Some w ∧ expired d now w = true ∧ (current_window d c' now).1 !! c = None).
Proof.
  intros Hne. unfold current_window.
  assert (H : ∀ w, <[c' := w]> (range_delete (expired d now) (commitStormDetector.seen d)) !! c =
      commitStormDetector.seen d !! c ∨
    ∃ w', commitStormDetector.seen d !! c = Some w' ∧ expired d now w' = true ∧
      <[c' := w]> (range_delete (expired d now) (commitStormDetector.seen d)) !! c = None).
  { intros w. rewrite lookup_insert_ne, lookup_range_delete by done.
    destruct (commitStormDetector.seen d !! c) as [w'|]; [|by left].
    destruct (expired d now w') eqn:He; [|by left]. right. by exists w'. }
  destruct (commitStormDetector.seen d !! c') as [w|]; [destruct (expired d now w)|]; cbn [fst]; auto.
Qed.

Lemma Observe_other d c' c now last room cur :
  c' ≠ c → last ≤ now → 0 < room → tracks d last room cur c → tracks (Observe d c' now).1 now (room - 1) cur c.
Proof.
  intros Hne Hle Hroom Ht. pose proof (current_window_other d c' c now Hne) as Hw. unfold Observe, tracks in *.
  destruct (current_window d c' now) as [seen w]. cbn [fst] in *. cbn. rewrite lookup_insert_ne by done.
  destruct Hw as [->|(w' & Hw' & He & ->)].
  - destruct (commitStormDetector.seen d !! c) as [w'|].
    + destruct Ht as (-> & Hn & Hwarn). split_and!; [done|lia|lia|done].
    + destruct cur as [[start k]|]; [|done]. pose proof (Sub_mono last now start Hle). lia.
  - rewrite Hw' in Ht. destruct Ht as (-> & _). unfold expired in He. by apply Z.ltb_lt in He.
Qed.

Lemma Observe_same d c now last room cur :
  1 ≤ commitStormDetector.threshold d → last ≤ now → 0 < room ≤ two63 - 1 → tracks d last room cur c →
  ∃ start k,
    (start, k) = match cur with
                 | Some (start, k) => if Sub now start <=? commitStormDetector.window d then (start, k) else (now, 0)
                 | None => (now, 0)
                 end ∧
    (Observe d c now).2 = (k + 1, k + 1 =? commitStormDetector.threshold d) ∧
    tracks (Observe d c now).1 now (room - 1) (Some (start, k + 1)) c.
Proof.
  intros Hth Hle Hroom Ht.
  (* the window the commit falls into *)
  assert (∃ start k seen, (start, k) = match cur with
      | Some (start, k) => if Sub now start <=? commitStormDetector.window d then (start, k) else (now, 0)
      | None => (now, 0)
      end ∧ 0 ≤ k < two63 - room ∧
      current_window d c now = (seen, stormWindow.mk start k (commitStormDetector.threshold d <=? k)))
    as (start & k & seen & Hcur & Hk & Hw).
  { assert (Hzero : (commitStormDetector.threshold d <=? 0) = false) by (apply Z.leb_gt; lia).
    unfold current_window, tracks, expired in *.
    destruct (commitStormDetector.seen d !! c) as [w|].
    - destruct Ht as (-> & Hn & Hwarn). destruct (Z.ltb_spec (commitStormDetector.window d) (Sub now (stormWindow.start w))).
      + exists now, 0. eexists. rewrite Hzero. split_and!; [|lia|lia|done].
        by rewrite (proj2 (Z.leb_gt _ _)) by lia.
      + exists (stormWindow.start w), (stormWindow.n w). eexists. split_and!; [|lia|lia|].
        * by rewrite (proj2 (Z.leb_le _ _)) by lia.
        * rewrite <- Hwarn. by destruct w.
    - exists now, 0. eexists. rewrite Hzero. split_and!; [|lia|lia|done].
      destruct cur as [[start k]|]; [|done]. pose proof (Sub_mono last now start Hle).
      by rewrite (proj2 (Z.leb_gt _ _)) by lia. }
  exists start, k. split; [exact Hcur|]. unfold Observe, tracks. rewrite Hw. cbn.
  rewrite wrap64_id by (unfold two63 in *; lia). rewrite lookup_insert_eq.
  destruct (Z.leb_spec (commitStormDetector.threshold d) (k + 1)), (Z.leb_spec (commitStormDetector.threshold d) k);
    cbn; (split; [f_equal; symmetry; first [apply Z.eqb_eq; lia | apply Z.eqb_neq; lia]|]);
    split_and!; try done; try lia.
Qed.

Lemma windows_from d c : ∀ events last cur,
  1 ≤ commitStormDetector.threshold d →
  Z.of_nat (length events) < two63 →
  StronglySorted Z.le (last :: events.*2) →
  tracks d last (Z.of_nat (length events)) cur c →
  outputs_of c events (observe_all d events).2 =
    windows (commitStormDetector.window d) (commitStormDetector.threshold d) cur (times_of c events).
Proof.
  intros events. revert d. induction events as [|[c' now] events IH]; intros d last cur Hth Hlen Hs Ht; [done|].
  cbn [observe_all outputs_of times_of fmap list_fmap snd length] in *. rewrite Nat2Z.inj_succ in *.
  apply StronglySorted_inv in Hs as [Hs Hle]. apply Forall_cons in Hle as [Hle _].
  assert (Hd : commitStormDetector.threshold (Observe d c' now).1 = commitStormDetector.threshold d ∧
               commitStormDetector.window (Observe d c' now).1 = commitStormDetector.window d)
    by (unfold Observe; by destruct (current_window d c' now)).
  destruct Hd as [Hd1 Hd2].
  case_bool_decide as Hc.
  - subst c'. destruct (Observe_same d c now last (Z.succ (Z.of_nat (length events))) cur Hth Hle ltac:(lia) Ht)
      as (start & k & Hcur & Hout & Ht').
    destruct (Observe d c now) as [d1 out]. cbn [fst snd] in *. subst out.
    destruct (observe_all d1 events) as [d2 outs] eqn:Eo. cbn [fst snd] in *.
    cbn [windows]. rewrite <- Hcur. f_equal. rewrite <- Hd1, <- Hd2.
    specialize (IH d1 now (Some (start, k + 1))). rewrite Eo in IH. cbn [snd] in IH. apply IH; [lia|lia|done|].
    by replace (Z.of_nat (length events)) with (Z.succ (Z.of_nat (length events)) - 1) by lia.
  - pose proof (Observe_other d c' c now last (Z.succ (Z.of_nat (length events))) cur Hc Hle ltac:(lia) Ht) as Ht'.
    destruct (Observe d c' now) as [d1 out]. cbn [fst snd] in *.
    destruct (observe_all d1 events) as [d2 outs] eqn:Eo. cbn [fst snd] in *.
    rewrite <- Hd1, <- Hd2. specialize (IH d1 now cur). rewrite Eo in IH. cbn [snd] in IH.
    apply IH; [lia|lia|done|].
    by replace (Z.of_nat (length events)) with (Z.succ (Z.of_nat (length events)) - 1) by lia.
Qed.
(** The storm detector computes, for every conversation, what it would
    compute if that conversation were the only one: its commits are counted in
    windows that start at the first commit after the last window is over, and
    the alarm goes exactly at the commit that reaches the threshold, once per
    window. Commits in other conversations, and the sweep of windows that are
    over, change nothing, in whatever order the sweep visits them. *)
Theorem storm_windows window threshold c events :
  1 ≤ threshold → Z.of_nat (length events) < two63 → StronglySorted Z.le events.*2 →
  outputs_of c events (observe_all (commitStormDetector.newCommitStormDetector window threshold) events).2 =
    windows window threshold None (times_of c events).
Proof.
  intros Hth Hlen Hs.
  apply (windows_from (commitStormDetector.newCommitStormDetector window threshold) c events (hd 0 events.*2));
    [done|done| |done].
  destruct events as [|[c' now] events]; cbn in *; [by repeat constructor|].
  constructor; [done|]. constructor; [done|]. by apply StronglySorted_inv in Hs as [_ Hs].
Qed.
End Storm.

(** Four commits in a window of ten with a threshold of three, in two
    conversations. *)
Lemma storm_windows_witness :
  let events := [("a", 1); ("b", 2); ("a", 3); ("a", 4); ("a", 5); ("b", 20); ("a", 21)] in
  windows 10 3 None (times_of "a" events) = [(1, false); (2, false); (3, true); (4, false); (1, false)] ∧
  outputs_of "a" events
    (observe_all (RO := order_bwd) (commitStormDetector.newCommitStormDetector 10 3) events).2 =
    [(1, false); (2, false); (3, true); (4, false); (1, false)].
Proof.
  cbv zeta. assert (windows 10 3 None (times_of "a" [("a", 1); ("b", 2); ("a", 3); ("a", 4); ("a", 5); ("b", 20);
    ("a", 21)]) = [(1, false); (2, false); (3, true); (4, false); (1, false)]) as H by reflexivity.
  split; [exact H|]. etrans; [|exact H]. apply (storm_windows (RO := order_bwd)); [lia|done|].
  cbn. repeat first [apply SSorted_nil | apply SSorted_cons | apply List.Forall_nil | apply List.Forall_cons]; lia.
Defined.

(** ** Dropped notifications *)

Definition reportWindow : Z := 30 * Second.

Module dropCounter.
Record t := mk { pending : Z; lastLog : time }.
Definition zero : t := mk 0 zero_time.
End dropCounter.

Definition recordN (d : dropCounter.t) (n : Z) (now : time) : dropCounter.t * (Z * bool) :=
  let pending := wrap64 (dropCounter.pending d + n) in
  if Sub now (dropCounter.lastLog d) <? reportWindow then (dropCounter.mk pending (dropCounter.lastLog d), (0, false))
  else (dropCounter.mk 0 now, (pending, true)).
Definition record (d : dropCounter.t) (now : time) := recordN d 1 now.

Fixpoint record_all (d : dropCounter.t) (drops : list (Z * time)) : dropCounter.t * list (Z * bool) :=
  match drops with
  | [] => (d, [])
  | (n, now) :: drops =>
      let '(d, out) := recordN d n now in
      let '(d, outs) := record_all d drops in (d, out :: outs)
  end.

Definition sum (l : list Z) : Z := foldr Z.add 0 l.
(** The times of the log lines. *)
Fixpoint reports (drops : list (Z * time)) (outs : list (Z * bool)) : list time :=
  match drops, outs with
  | (_, now) :: drops, (_, report) :: outs => if report then now :: reports drops outs else reports drops outs
  | _, _ => []
  end.
(** Each time of the list comes at least [gap] after the one before. *)
Fixpoint spaced (gap : Z) (last : time) (ts : list time) : Prop :=
  match ts with [] => True | t :: ts => gap ≤ Sub t last ∧ spaced gap t ts end.

Lemma sum_nonneg l : Forall (Z.le 0) l → 0 ≤ sum l.
Proof. induction 1 as [|x l Hx _ IH]; simpl; lia. Qed.

(** No dropped notification is missed and none is counted twice: what the
    log lines report adds up, with what is still pending, to every drop there
    was; lines come at least [reportWindow] apart; and the first drop of all is
    reported at once. *)
Theorem drops_accounted (d : dropCounter.t) drops :
  Forall (Z.le 0) drops.*1 → 0 ≤ dropCounter.pending d → dropCounter.pending d + sum drops.*1 < two63 →
  let '(d', outs) := record_all d drops in
  sum outs.*1 + dropCounter.pending d' = dropCounter.pending d + sum drops.*1 ∧
  spaced reportWindow (dropCounter.lastLog d) (reports drops outs) ∧
  (∀ n now rest, drops = (n, now) :: rest → reportWindow ≤ Sub now (dropCounter.lastLog d) →
     head outs = Some (dropCounter.pending d + n, true)).
Proof.
  revert d. induction drops as [|[n now] drops IH]; intros d Hn Hp Hb; [simpl; lia || (split_and!; [lia|done|done])|].
  cbn [record_all fmap list_fmap fst sum foldr] in *. apply Forall_cons in Hn as [Hn1 Hn].
  pose proof (sum_nonneg _ Hn) as Hs. unfold sum in Hs. unfold recordN.
  rewrite wrap64_id by (unfold two63 in *; lia).
  destruct (Z.ltb_spec (Sub now (dropCounter.lastLog d)) reportWindow) as [Hw|Hw].
  - specialize (IH (dropCounter.mk (dropCounter.pending d + n) (dropCounter.lastLog d)) Hn). cbn in IH.
    unfold sum in IH. destruct (record_all _ drops) as [d' outs].
    destruct IH as (H1 & H2 & _); [lia|lia|]. cbn. unfold sum. split_and!; [lia|done|].
    intros n' now' rest [= <- <- <-] Hge. lia.
  - specialize (IH (dropCounter.mk 0 now) Hn). cbn in IH. unfold sum in IH.
    destruct (record_all _ drops) as [d' outs]. destruct IH as (H1 & H2 & _); [lia|lia|].
    cbn. unfold sum. split_and!; [lia|done|done|]. by intros n' now' rest [= <- <- <-] _.
Qed.

Lemma drops_accounted_witness :
  let drops := [(2, 100 * Second); (3, 101 * Second); (1, 140 * Second)] in
  let s := record_all dropCounter.zero drops in
  s.2 = [(2, true); (0, false); (4, true)] ∧ sum s.2.*1 + dropCounter.pending s.1 = 6.
Proof.
  cbv zeta. split; [reflexivity|].
  pose proof (drops_accounted dropCounter.zero [(2, 100 * Second); (3, 101 * Second); (1, 140 * Second)]) as H.
  destruct (record_all _ _) as [d' outs] eqn:E. refine (proj1 (H _ _ _)); [|done|vm_compute; reflexivity].
  cbn. repeat apply List.Forall_cons; try lia. apply List.Forall_nil.
Defined.
