(* ===== verification/Live.v ===== *)
(** * Live delivery

    [api/internal/live]: the registry of connected streams, shared by the
    in-process bus and the Redis bus, and when the Redis bus opens and closes
    its subscription. A channel is a number; its buffer and whether it is
    closed are in a table beside the registry, so that a send on a closed
    channel, and a second close, are panics of the model ([None]) too. *)

From S2P Require Import Prelude.
From S2P Require Import Domain.

Definition subscriberBuffer : nat := 64.

Module CallSignal.
Record t := mk { CallID : string; Seq : Z; FromUserID : string }.
End CallSignal.

Module Event.
Record t := mk {
  ChannelID : string; Message : Message.t;
  ConversationID : string; ChatMessage : option ChatMessage.t;
  ConversationDeleted : bool; Receipt : option ConversationReceipt.t;
  Recipients : list string; CallSignal : option CallSignal.t
}.
Definition zero : t := mk "" Message.zero "" None false None [] None.
#[global] Instance eta : Eta t := fun r =>
  mk (ChannelID r) (Message r) (ConversationID r) (ChatMessage r) (ConversationDeleted r) (Receipt r)
     (Recipients r) (CallSignal r).
End Event.

(** [range] over a set of channels: any order. *)
Class ChanOrder := {
  chan_range : gset nat → list nat;
  chan_range_perm (s : gset nat) : chan_range s ≡ₚ elements s
}.
Definition chan_order_fwd : ChanOrder := {| chan_range := elements; chan_range_perm s := reflexivity _ |}.

Module Chan.
Record t := mk { buf : list Event.t; closed : bool }.
End Chan.

Module registry.
Record t := mk { byUser : gmap string (gset nat); owner : gmap nat string; dropped : Z }.
#[global] Instance eta : Eta t := fun r => mk (byUser r) (owner r) (dropped r).
Definition newRegistry : t := mk ∅ ∅ 0.
End registry.

(** The registry and the channels it has made. *)
Module Bus.
Record t := mk { reg : registry.t; chans : gmap nat Chan.t }.
#[global] Instance eta : Eta t := fun r => mk (reg r) (chans r).
Definition NewMemoryBus : t := mk registry.newRegistry ∅.
End Bus.

Section Live.
Context {CO : ChanOrder}.
Implicit Types (r : registry.t) (b : Bus.t) (u : string) (ch : nat) (e : Event.t).

(** [add] under the lock; [ch] is what [make] returns. The second answer is
    whether this is the first subscriber. *)
Definition add b u ch : Bus.t * bool :=
  let r := Bus.reg b in
  let first := bool_decide (registry.owner r = ∅) in
  let subs := default ∅ (registry.byUser r !! u) in
  (Bus.mk (r <| registry.byUser := <[u := {[ch]} ∪ subs]> (registry.byUser r) |>
             <| registry.owner := <[ch := u]> (registry.owner r) |>)
     (<[ch := Chan.mk [] false]> (Bus.chans b)), first).

(** [close(ch)]. *)
Definition close (chans : gmap nat Chan.t) ch : option (gmap nat Chan.t) :=
  match chans !! ch with
  | Some c => if Chan.closed c then None else Some (<[ch := Chan.mk (Chan.buf c) true]> chans)
  | None => None
  end.

(** The remove function of [add], under the lock. The second answer is whether
    [onEmpty] is called afterwards. Its [sync.Once] changes nothing: a second
    call finds no owner. *)
Definition remove b ch : option (Bus.t * bool) :=
  let r := Bus.reg b in
  match registry.owner r !! ch with
  | None => Some (b, false)
  | Some u =>
      let r := r <| registry.owner := delete ch (registry.owner r) |> in
      let r := match registry.byUser r !! u with
               | None => r
               | Some subs =>
                   let subs := subs ∖ {[ch]} in
                   if bool_decide (subs = ∅) then r <| registry.byUser := delete u (registry.byUser r) |>
                   else r <| registry.byUser := <[u := subs]> (registry.byUser r) |>
               end in
      chans ← close (Bus.chans b) ch;
      Some (Bus.mk r chans, bool_decide (registry.owner r = ∅))
  end.

(** [select { case ch <- e: default: }]: the channels after it, and whether the
    event was taken. *)
Definition send (chans : gmap nat Chan.t) ch e : option (gmap nat Chan.t * bool) :=
  match chans !! ch with
  | Some c =>
      if Chan.closed c then None
      else if bool_decide (length (Chan.buf c) < subscriberBuffer)%nat
           then Some (<[ch := Chan.mk (Chan.buf c ++ [e]) false]> chans, true)
           else Some (chans, false)
  | None => Some (chans, false)
  end.

Fixpoint send_all (chans : gmap nat Chan.t) (targets : list nat) e : option (gmap nat Chan.t * Z) :=
  match targets with
  | [] => Some (chans, 0)
  | ch :: targets =>
      '(chans, ok) ← send chans ch e;
      '(chans, dropped) ← send_all chans targets e;
      Some (chans, if ok : bool then dropped else dropped + 1)
  end.

(** Whom an event is offered to, in order. *)
Definition targets r e : list nat :=
  match Event.Recipients e with
  | [] => chan_range (dom (registry.owner r))
  | us => us ≫= (fun u => chan_range (default ∅ (registry.byUser r !! u)))
  end.

Definition deliver b e : option Bus.t :=
  '(chans, dropped) ← send_all (Bus.chans b) (targets (Bus.reg b) e) e;
  let r := Bus.reg b in
  Some (Bus.mk (if dropped =? 0 then r
                else r <| registry.dropped := wrap64 (registry.dropped r + dropped) |>) chans).

(** A stream takes the next event of its channel. *)
Definition receive b ch : Bus.t * option Event.t :=
  match Bus.chans b !! ch with
  | Some (Chan.mk (e :: buf) closed) => (b <| Bus.chans := <[ch := Chan.mk buf closed]> (Bus.chans b) |>, Some e)
  | _ => (b, None)
  end.

Definition count r : Z := Z.of_nat (size (registry.owner r)).
Definition Dropped r : Z := registry.dropped r.

(** ** The registry as a state machine *)

Inductive bus_step : Bus.t → Bus.t → Prop :=
| step_add b u ch : Bus.chans b !! ch = None → bus_step b (add b u ch).1
| step_remove b ch b' empty : remove b ch = Some (b', empty) → bus_step b b'
| step_deliver b e b' : deliver b e = Some b' → bus_step b b'
| step_receive b ch : bus_step b (receive b ch).1.

(** The two indices agree, no empty entry is kept, exactly the registered
    channels are open, and no buffer is over its size. *)
Record wf b : Prop := {
  wf_index u ch : registry.owner (Bus.reg b) !! ch = Some u ↔
    ch ∈ default ∅ (registry.byUser (Bus.reg b) !! u);
  wf_nonempty u s : registry.byUser (Bus.reg b) !! u = Some s → s ≠ ∅;
  wf_open ch : is_Some (registry.owner (Bus.reg b) !! ch) ↔ Chan.closed <$> Bus.chans b !! ch = Some false;
  wf_buffer ch c : Bus.chans b !! ch = Some c → (length (Chan.buf c) ≤ subscriberBuffer)%nat
}.

(** ** Sending *)

#[local] Opaque subscriberBuffer.

Definition occurrences (ch : nat) (ts : list nat) : nat := length (filter (fun ch' => ch' = ch) ts).
(** A channel after [k] offers of [e]: it takes them until it is full. *)
Definition offered (e : Event.t) (k : nat) (c : Chan.t) : Chan.t :=
  Chan.mk (take subscriberBuffer (Chan.buf c ++ replicate k e)) (Chan.closed c).

Lemma occurrences_cons ch t ts :
  occurrences ch (t :: ts) = ((if decide (t = ch) then 1 else 0) + occurrences ch ts)%nat.
Proof. unfold occurrences. rewrite filter_cons. by case_decide. Qed.
Lemma occurrences_app ch l k : occurrences ch (l ++ k) = (occurrences ch l + occurrences ch k)%nat.
Proof. unfold occurrences. by rewrite filter_app, length_app. Qed.

#[local] Opaque occurrences.

Lemma offered_0 e c : (length (Chan.buf c) ≤ subscriberBuffer)%nat → offered e 0 c = c.
Proof. intros H. destruct c as [buf closed]. unfold offered; cbn in *. by rewrite app_nil_r, take_ge. Qed.

Lemma offered_full e k c : (length (Chan.buf c) = subscriberBuffer)%nat → offered e k c = offered e 0 c.
Proof.
  intros H. unfold offered. f_equal. cbn [replicate].
  rewrite app_nil_r, take_app_le, !take_ge by lia. done.
Qed.

Lemma offered_again e k c :
  (length (Chan.buf c) ≤ subscriberBuffer)%nat → offered e k (offered e 1 c) = offered e (S k) c.
Proof.
  intros H. destruct (decide (length (Chan.buf c) < subscriberBuffer)%nat) as [Hlt|Hge].
  - unfold offered. cbn [Chan.buf Chan.closed replicate]. f_equal.
    rewrite (take_ge (Chan.buf c ++ [e])) by (rewrite length_app; cbn; lia).
    rewrite <- app_assoc. reflexivity.
  - assert (length (Chan.buf c) = subscriberBuffer) by lia.
    rewrite (offered_full e (S k)), (offered_full e 1), (offered_0 e c), offered_full by done.
    by apply offered_0.
Qed.

Definition buffers_ok (chans : gmap nat Chan.t) : Prop :=
  ∀ ch c, chans !! ch = Some c → (length (Chan.buf c) ≤ subscriberBuffer)%nat.

Lemma send_spec chans ch e :
  buffers_ok chans → Chan.closed <$> chans !! ch = Some false →
  ∃ chans' ok c, send chans ch e = Some (chans', ok) ∧ chans !! ch = Some c ∧
    chans' = <[ch := offered e 1 c]> chans ∧ ok = bool_decide (length (Chan.buf c) < subscriberBuffer)%nat.
Proof.
  intros Hb Hc. unfold send. destruct (chans !! ch) as [c|] eqn:Hch; [|done]. cbn in Hc. injection Hc as Hc.
  rewrite Hc. case_bool_decide as Hroom; eexists _, _, c; (split_and!; [done|done| |by case_bool_decide]).
  - f_equal. unfold offered. cbn [replicate]. rewrite take_ge, Hc; [done|]. rewrite length_app; cbn; lia.
  - specialize (Hb _ _ Hch). by rewrite offered_full, offered_0, insert_id by (done || lia).
Qed.

(** What a round of sends does to every channel; [room] is enough room for all
    of it. *)
Lemma send_all_spec e ts : ∀ chans,
  buffers_ok chans → (∀ ch, ch ∈ ts → Chan.closed <$> chans !! ch = Some false) →
  ∃ chans' n, send_all chans ts e = Some (chans', n) ∧ 0 ≤ n ∧
    (∀ ch, chans' !! ch = offered e (occurrences ch ts) <$> chans !! ch) ∧
    ((∀ ch c, ch ∈ ts → chans !! ch = Some c →
       (length (Chan.buf c) + occurrences ch ts ≤ subscriberBuffer)%nat) → n = 0).
Proof.
  induction ts as [|t ts IH]; intros chans Hb Hopen.
  { exists chans, 0. split_and!; [done|lia| |done]. intros ch.
    destruct (chans !! ch) as [c|] eqn:E; [|done]. cbn. by rewrite offered_0 by eauto. }
  destruct (send_spec chans t e Hb) as (chans1 & ok & c & Hsend & Hc & -> & Hok); [apply Hopen; by left|].
  assert (Hopen1 : Chan.closed c = false).
  { specialize (Hopen t ltac:(by left)). rewrite Hc in Hopen. by injection Hopen. }
  destruct (IH (<[t := offered e 1 c]> chans)) as (chans' & n & Hall & Hn & Hspec & Hroom).
  - intros ch c' [[<- <-]|[_ H]]%lookup_insert_Some; [|by eauto]. cbn. rewrite length_take. lia.
  - intros ch Hch. destruct (decide (t = ch)) as [<-|Hne]; [rewrite lookup_insert_eq; cbn; by rewrite Hopen1|].
    rewrite lookup_insert_ne by done. apply Hopen. by right.
  - exists chans', (if ok then n else n + 1). cbn [send_all]. rewrite Hsend. cbn [mbind option_bind].
    rewrite Hall. cbn. split_and!; [done|destruct ok; lia| |].
    + intros ch. rewrite Hspec, occurrences_cons. destruct (decide (t = ch)) as [<-|Hd].
      * rewrite lookup_insert_eq, Hc. cbn. f_equal. specialize (Hb _ _ Hc).
        by apply offered_again.
      * by rewrite lookup_insert_ne.
    + intros Hfit. specialize (Hb _ _ Hc).
      assert (Hlt : (length (Chan.buf c) + occurrences t (t :: ts) ≤ subscriberBuffer)%nat)
        by (apply Hfit; [by left|done]).
      rewrite occurrences_cons, decide_True in Hlt by done.
      rewrite Hok, bool_decide_true by lia. apply Hroom.
      intros ch c' Hin Hch. destruct (decide (t = ch)) as [<-|Hne].
      * rewrite lookup_insert_eq in Hch. injection Hch as <-. cbn.
        rewrite take_ge; rewrite length_app; cbn; lia.
      * rewrite lookup_insert_ne in Hch by done.
        specialize (Hfit ch c' ltac:(by right) Hch). by rewrite occurrences_cons, decide_False in Hfit by done.
Qed.

(** ** Whom an event reaches *)

Lemma occurrences_nodup ch l : NoDup l → occurrences ch l = if decide (ch ∈ l) then 1%nat else 0%nat.
Proof.
  #[local] Transparent occurrences.
  induction 1 as [|x l Hx _ IH]; [done|]. rewrite occurrences_cons, IH.
  destruct (decide (x = ch)) as [->|Hne].
  - by rewrite decide_False, decide_True by (done || by left).
  - destruct (decide (ch ∈ l)).
    + by rewrite decide_True by by right.
    + rewrite decide_False; [done|]. rewrite elem_of_cons. naive_solver.
Qed.

Lemma elem_of_chan_range ch s : ch ∈ chan_range s ↔ ch ∈ s.
Proof. by rewrite chan_range_perm, elem_of_elements. Qed.
Lemma occurrences_chan_range ch s : occurrences ch (chan_range s) = if decide (ch ∈ s) then 1%nat else 0%nat.
Proof.
  rewrite occurrences_nodup by (rewrite chan_range_perm; apply NoDup_elements).
  destruct (decide (ch ∈ s)) as [H|H]; [by rewrite decide_True by by apply elem_of_chan_range|].
  by rewrite decide_False by by rewrite elem_of_chan_range.
Qed.

(** How often an event is offered to a channel: as often as its owner is named
    among the recipients, or once when nobody is named. *)
Definition offers r e ch : nat :=
  match registry.owner r !! ch with
  | None => 0
  | Some u =>
      match Event.Recipients e with
      | [] => 1
      | us => length (filter (fun u' => u' = u) us)
      end
  end.

Lemma occurrences_targets b e ch : wf b → occurrences ch (targets (Bus.reg b) e) = offers (Bus.reg b) e ch.
Proof.
  intros Hwf. unfold targets, offers. destruct (Event.Recipients e) as [|u0 us0] eqn:Hr.
  - rewrite occurrences_chan_range. destruct (registry.owner _ !! ch) eqn:Ho.
    + by rewrite decide_True by by apply elem_of_dom_2 in Ho.
    + by rewrite decide_False by by apply not_elem_of_dom.
  - generalize (u0 :: us0). intros us. induction us as [|u us IH]; [by destruct (_ !! _)|].
    rewrite bind_cons, occurrences_app, occurrences_chan_range, IH.
    pose proof (wf_index b Hwf u ch) as Hi. destruct (registry.owner _ !! ch) as [v|] eqn:Ho.
    + rewrite filter_cons. destruct (decide (u = v)) as [->|Hne].
      * by rewrite decide_True by by apply Hi.
      * rewrite decide_False; [done|]. rewrite <- Hi. congruence.
    + rewrite decide_False; [done|]. rewrite <- Hi. done.
Qed.

Lemma targets_open b e ch : wf b → ch ∈ targets (Bus.reg b) e → Chan.closed <$> Bus.chans b !! ch = Some false.
Proof.
  intros Hwf Hin. apply (wf_open b Hwf). unfold targets in Hin. destruct (Event.Recipients e) as [|u us].
  - apply elem_of_chan_range, elem_of_dom in Hin. done.
  - apply list_elem_of_bind in Hin as (v & Hin & _). apply elem_of_chan_range in Hin.
    exists v. by apply (wf_index b Hwf).
Qed.

Lemma deliver_spec b e :
  wf b → ∃ b', deliver b e = Some b' ∧
    registry.byUser (Bus.reg b') = registry.byUser (Bus.reg b) ∧
    registry.owner (Bus.reg b') = registry.owner (Bus.reg b) ∧
    (∀ ch, Bus.chans b' !! ch = offered e (offers (Bus.reg b) e ch) <$> Bus.chans b !! ch) ∧
    ((∀ ch c, Bus.chans b !! ch = Some c →
        (length (Chan.buf c) + offers (Bus.reg b) e ch ≤ subscriberBuffer)%nat) →
       registry.dropped (Bus.reg b') = registry.dropped (Bus.reg b)).
Proof.
  intros Hwf. unfold deliver.
  destruct (send_all_spec e (targets (Bus.reg b) e) (Bus.chans b)) as (chans' & n & Hsend & Hn & Hch & Hroom).
  - intros ch c. apply (wf_buffer b Hwf).
  - intros ch. by apply targets_open.
  - rewrite Hsend. cbn [mbind option_bind]. eexists. split; [done|]. cbn.
    split_and!; [by destruct (n =? 0)|by destruct (n =? 0)| |].
    + intros ch. by rewrite Hch, occurrences_targets.
    + intros Hfit. rewrite Hroom; [done|]. intros ch c _ Hc. rewrite occurrences_targets by done. by apply Hfit.
Qed.

(** ** The invariant *)

Lemma wf_init : wf Bus.NewMemoryBus.
Proof.
  split; cbn.
  - intros u ch. rewrite !lookup_empty. cbn. set_solver.
  - intros u s. by rewrite lookup_empty.
  - intros ch. rewrite !lookup_empty. cbn. split; [by intros []|done].
  - intros ch c. by rewrite lookup_empty.
Qed.

Lemma wf_add b u ch : wf b → Bus.chans b !! ch = None → wf (add b u ch).1.
Proof.
  intros Hwf Hch. assert (Ho : registry.owner (Bus.reg b) !! ch = None).
  { apply eq_None_not_Some. intros H%(wf_open b Hwf). by rewrite Hch in H. }
  assert (Hnot : ∀ v, ch ∉ default ∅ (registry.byUser (Bus.reg b) !! v)).
  { intros v Hin%(wf_index b Hwf). congruence. }
  split; cbn.
  - intros v ch'. destruct (decide (ch' = ch)) as [->|Hne].
    + rewrite lookup_insert_eq. destruct (decide (u = v)) as [<-|Huv].
      * rewrite lookup_insert_eq. cbn. set_solver.
      * rewrite lookup_insert_ne by done. specialize (Hnot v). split; [congruence|done].
    + rewrite lookup_insert_ne by done. rewrite (wf_index b Hwf).
      destruct (decide (u = v)) as [<-|Huv]; [|by rewrite lookup_insert_ne].
      rewrite lookup_insert_eq. cbn. set_solver.
  - intros v s [[_ <-]|[_ H]]%lookup_insert_Some; [set_solver | by eapply wf_nonempty].
  - intros ch'. destruct (decide (ch = ch')) as [<-|Hne]; [by rewrite !lookup_insert_eq|].
    rewrite !lookup_insert_ne by done. apply (wf_open b Hwf).
  - intros ch' c [[_ <-]|[_ H]]%lookup_insert_Some; [cbn; lia | by eapply wf_buffer].
Qed.

(** The users' index after [ch] has left it. *)
Definition without (byUser : gmap string (gset nat)) u (subs : gset nat) ch : gmap string (gset nat) :=
  if bool_decide (subs ∖ {[ch]} = ∅) then delete u byUser else <[u := subs ∖ {[ch]}]> byUser.

Lemma without_lookup byUser u subs ch v :
  byUser !! u = Some subs →
  default ∅ (without byUser u subs ch !! v) =
    if decide (u = v) then subs ∖ {[ch]} else default ∅ (byUser !! v).
Proof.
  intros Hu. unfold without. destruct (decide (u = v)) as [<-|Hne]; case_bool_decide as He.
  - by rewrite lookup_delete_eq, He.
  - by rewrite lookup_insert_eq.
  - by rewrite lookup_delete_ne.
  - by rewrite lookup_insert_ne.
Qed.

Lemma without_nonempty byUser u subs ch v s :
  without byUser u subs ch !! v = Some s → s ≠ ∅ ∨ byUser !! v = Some s.
Proof.
  unfold without. case_bool_decide.
  - intros [_ Hv]%lookup_delete_Some. by right.
  - intros [[_ <-]|[_ Hv]]%lookup_insert_Some; [by left | by right].
Qed.

Lemma remove_eq b ch u :
  wf b → registry.owner (Bus.reg b) !! ch = Some u →
  ∃ subs c, registry.byUser (Bus.reg b) !! u = Some subs ∧ Bus.chans b !! ch = Some c ∧
    remove b ch = Some (Bus.mk
      (registry.mk (without (registry.byUser (Bus.reg b)) u subs ch) (delete ch (registry.owner (Bus.reg b)))
         (registry.dropped (Bus.reg b)))
      (<[ch := Chan.mk (Chan.buf c) true]> (Bus.chans b)), bool_decide (delete ch (registry.owner (Bus.reg b)) = ∅)).
Proof.
  intros Hwf Ho. pose proof (proj1 (wf_index b Hwf u ch) Ho) as Hin.
  destruct (registry.byUser (Bus.reg b) !! u) as [subs|] eqn:Hu; cbn in Hin; [|set_solver].
  pose proof (proj1 (wf_open b Hwf ch) (mk_is_Some _ _ Ho)) as Hopen.
  destruct (Bus.chans b !! ch) as [c|] eqn:Hc; cbn in Hopen; [|done]. injection Hopen as Hopen.
  exists subs, c. split_and!; [done..|]. unfold remove, without, close. rewrite Ho. cbn. rewrite Hu, Hc, Hopen.
  by case_bool_decide.
Qed.

Lemma remove_wf b ch :
  wf b → ∃ b' empty, remove b ch = Some (b', empty) ∧ wf b' ∧
    registry.owner (Bus.reg b') = delete ch (registry.owner (Bus.reg b)).
Proof.
  intros Hwf. destruct (registry.owner (Bus.reg b) !! ch) as [u|] eqn:Ho.
  2:{ exists b, false. unfold remove. rewrite Ho. split_and!; [done..|]. by rewrite delete_id. }
  destruct (remove_eq b ch u Hwf Ho) as (subs & c & Hu & Hc & Hr).
  eexists _, _. split; [exact Hr|]. split; [|done]. split; cbn.
  - intros v ch'. rewrite without_lookup by done. destruct (decide (ch' = ch)) as [->|Hne].
    + rewrite lookup_delete_eq. split; [done|]. destruct (decide (u = v)) as [<-|Huv]; [set_solver|].
      intros Hin%(wf_index b Hwf). congruence.
    + rewrite lookup_delete_ne, (wf_index b Hwf) by done.
      destruct (decide (u = v)) as [<-|Huv]; [rewrite Hu; cbn; set_solver|done].
  - intros v s [H|H]%without_nonempty; [done | by eapply wf_nonempty].
  - intros ch'. destruct (decide (ch = ch')) as [<-|Hne].
    + rewrite lookup_delete_eq, lookup_insert_eq. cbn. split; [by intros []|done].
    + rewrite lookup_delete_ne, lookup_insert_ne by done. apply (wf_open b Hwf).
  - intros ch' c' [[_ <-]|[_ H]]%lookup_insert_Some; [cbn; by eapply wf_buffer | by eapply wf_buffer].
Qed.

Lemma deliver_wf b e b' : wf b → deliver b e = Some b' → wf b'.
Proof.
  intros Hwf Hd. destruct (deliver_spec b e Hwf) as (b1 & Hd1 & Hu & Ho & Hc & _).
  rewrite Hd1 in Hd. injection Hd as ->. split; rewrite ?Hu, ?Ho.
  - apply (wf_index b Hwf).
  - apply (wf_nonempty b Hwf).
  - intros ch. rewrite (wf_open b Hwf), Hc. by destruct (Bus.chans b !! ch).
  - intros ch c. rewrite Hc. destruct (Bus.chans b !! ch); [|done]. intros [= <-]. cbn. rewrite length_take. lia.
Qed.

Lemma receive_wf b ch : wf b → wf (receive b ch).1.
Proof.
  intros Hwf. unfold receive. destruct (Bus.chans b !! ch) as [[[|e buf] closed]|] eqn:Hc; [done| |done].
  split; cbn.
  - apply (wf_index b Hwf).
  - apply (wf_nonempty b Hwf).
  - intros ch'. rewrite (wf_open b Hwf). destruct (decide (ch = ch')) as [<-|Hne].
    + by rewrite lookup_insert_eq, Hc.
    + by rewrite lookup_insert_ne.
  - intros ch' c [[_ <-]|[_ H]]%lookup_insert_Some; [|by eapply wf_buffer].
    apply (wf_buffer b Hwf) in Hc. cbn in *. lia.
Qed.

Lemma bus_step_wf b b' : bus_step b b' → wf b → wf b'.
Proof.
  intros [b1 u ch Hc|b1 ch b2 empty Hr|b1 e b2 Hd|b1 ch] Hwf; eauto using wf_add, deliver_wf, receive_wf.
  destruct (remove_wf b1 ch Hwf) as (b3 & empty' & Hr' & Hwf' & _). rewrite Hr in Hr'. by injection Hr' as <- <-.
Qed.

Lemma bus_reachable_wf b : rtc bus_step Bus.NewMemoryBus b → wf b.
Proof.
  intros Hr. pose proof wf_init as H. revert H. generalize Bus.NewMemoryBus, b, Hr. clear.
  induction 1 as [s|s1 s2 s3 H _ IH]; eauto using bus_step_wf.
Qed.

(** C35. The registry never panics and never leaks: in every state it can
    reach, the index by user and the index by channel say the same, no user is
    kept without a channel, exactly the registered channels are open, every
    buffer is within its size, and so both publishing any event and cancelling
    any subscription, a second time too, go through. *)
Theorem registry_consistent b :
  rtc bus_step Bus.NewMemoryBus b →
  wf b ∧ (∀ e, is_Some (deliver b e)) ∧ (∀ ch, is_Some (remove b ch)).
Proof.
  intros Hwf%bus_reachable_wf. split; [done|]. split.
  - intros e. destruct (deliver_spec b e Hwf) as (b' & -> & _). done.
  - intros ch. destruct (remove_wf b ch Hwf) as (b' & empty & -> & _). done.
Qed.

(** An event reaches the open streams it is for and no other: a channel is
    offered it as often as its owner is named among the recipients, or once
    when nobody is named; it takes what fits its buffer, after what it already
    holds; a stream that has unsubscribed gets nothing; and when every buffer
    has room nothing is counted as dropped. *)
Theorem deliver_reaches b e :
  rtc bus_step Bus.NewMemoryBus b →
  ∃ b', deliver b e = Some b' ∧
    (∀ ch c, Bus.chans b !! ch = Some c → ∃ c', Bus.chans b' !! ch = Some c' ∧
       Chan.closed c' = Chan.closed c ∧
       Chan.buf c' = take subscriberBuffer (Chan.buf c ++ replicate (offers (Bus.reg b) e ch) e) ∧
       (Chan.closed c = true → Chan.buf c' = Chan.buf c)) ∧
    ((∀ ch c, Bus.chans b !! ch = Some c →
        (length (Chan.buf c) + offers (Bus.reg b) e ch ≤ subscriberBuffer)%nat) →
       Dropped (Bus.reg b') = Dropped (Bus.reg b)).
Proof.
  intros Hwf%bus_reachable_wf. destruct (deliver_spec b e Hwf) as (b' & Hd & _ & _ & Hc & Hroom). exists b'. split; [done|]. split; [|done].
  intros ch c Hch. rewrite Hc, Hch. eexists. split; [done|]. cbn. split_and!; [done..|].
  intros Hclosed. unfold offers. destruct (registry.owner (Bus.reg b) !! ch) eqn:Ho.
  - pose proof (proj1 (wf_open b Hwf ch) (mk_is_Some _ _ Ho)) as H. rewrite Hch in H. cbn in H. congruence.
  - cbn. rewrite app_nil_r. apply take_ge. by eapply wf_buffer.
Qed.

End Live.

(** ** The Redis bus

    [live_redis.go]: one subscription for the whole process, opened for the
    first stream under the registry's lock, and closed for the last one after
    that lock is released. *)
Module RedisBus.
Record t := mk { bus : Bus.t; started : bool; leaving : nat }.
Definition NewRedisBus : t := mk Bus.NewMemoryBus false 0.
End RedisBus.

Section Redis.
Context {CO : ChanOrder}.

(** [leaving] counts the cancels that have found the registry empty and not yet
    called [shutdown]. *)
Inductive redis_turn : Type :=
| Subscribe (u : string) (ch : nat)
| Cancel (ch : nat)
| Shutdown
| FromRedis (e : Event.t).

Definition redis_step (b : RedisBus.t) (t : redis_turn) : option RedisBus.t :=
  match t with
  | Subscribe u ch =>
      let '(bus, first) := add (RedisBus.bus b) u ch in
      Some (RedisBus.mk bus (RedisBus.started b || first) (RedisBus.leaving b))
  | Cancel ch =>
      '(bus, empty) ← remove (RedisBus.bus b) ch;
      Some (RedisBus.mk bus (RedisBus.started b) (if empty : bool then S (RedisBus.leaving b) else RedisBus.leaving b))
  | Shutdown =>
      match RedisBus.leaving b with
      | O => None
      | S n => Some (RedisBus.mk (RedisBus.bus b) false n)
      end
  | FromRedis e =>
      if RedisBus.started b
      then bus ← deliver (RedisBus.bus b) e; Some (RedisBus.mk bus (RedisBus.started b) (RedisBus.leaving b))
      else None
  end.
End Redis.

(** ** Concrete runs *)

Definition to_bob : Event.t := Event.zero <| Event.ConversationID := "c" |> <| Event.Recipients := ["bob"; "carol"] |>.
Definition sample_bus : Bus.t := (add (add Bus.NewMemoryBus "alice" 0).1 "bob" 1).1.
Lemma sample_bus_reachable : rtc (bus_step (CO := chan_order_fwd)) Bus.NewMemoryBus sample_bus.
Proof.
  eapply rtc_l; [|eapply rtc_l; [|apply rtc_refl]]; [by apply (step_add Bus.NewMemoryBus "alice" 0)|].
  by apply (step_add (add Bus.NewMemoryBus "alice" 0).1 "bob" 1).
Qed.

Lemma registry_consistent_witness :
  registry.owner (Bus.reg sample_bus) !! 1%nat = Some "bob" ∧ is_Some (remove sample_bus 1).
Proof.
  split; [reflexivity|].
  exact (proj2 (proj2 (registry_consistent (CO := chan_order_fwd) sample_bus sample_bus_reachable)) 1%nat).
Defined.

Lemma deliver_reaches_witness :
  ∃ b', deliver (CO := chan_order_fwd) sample_bus to_bob = Some b' ∧
    Chan.buf <$> Bus.chans b' !! 1%nat = Some [to_bob] ∧ Chan.buf <$> Bus.chans b' !! 0%nat = Some [].
Proof.
  destruct (deliver_reaches (CO := chan_order_fwd) sample_bus to_bob sample_bus_reachable) as (b' & Hd & H & _).
  exists b'. split; [exact Hd|].
  destruct (H 0%nat (Chan.mk [] false) eq_refl) as (c0 & Hc0 & _ & Hb0 & _).
  destruct (H 1%nat (Chan.mk [] false) eq_refl) as (c1 & Hc1 & _ & Hb1 & _).
  split; [rewrite Hc1; exact (f_equal Some Hb1) | rewrite Hc0; exact (f_equal Some Hb0)].
Defined.

(** A stream that connects between the moment the last one has left the
    registry and the call of [shutdown] that follows is registered, but the
    subscription is closed under it and nothing is delivered to it. *)
Example stream_without_subscription :
  let run := foldl (fun b t => b ← b; redis_step (CO := chan_order_fwd) b t) (Some RedisBus.NewRedisBus) in
  match run [Subscribe "alice" 0; Cancel 0; Subscribe "bob" 1; Shutdown] with
  | Some b => registry.owner (Bus.reg (RedisBus.bus b)) !! 1%nat = Some "bob" ∧ RedisBus.started b = false ∧
              redis_step (CO := chan_order_fwd) b (FromRedis to_bob) = None
  | None => False
  end.
Proof. vm_compute. done. Qed.
