(* ===== verification/PushNotify.v ===== *)
(** * Push notifications

    [api/internal/push/push.go] and [push_multi.go]: what a notification
    carries, which is decided from the recipient's privacy setting, and how a
    set of devices is divided among the transports; [push_fcm.go],
    [push_webpush.go] and [push_apns_voip.go]: the transports, over the services
    they call, which are arguments. *)

From S2P Require Import Prelude.
From S2P Require Import GoStrings.
From S2P Require Import Domain.
From S2P Require Import Strconv.
From S2P Require Import Password.

(** ** What is sent *)

Module Result.
Record t := mk { DeviceID : string; Status : string; Error : string; Gone : bool }.
End Result.

Definition KindMessage : string := "".
Definition KindCall : string := "call".
Definition KindCallCancel : string := "call-cancel".

Module ChatNotification.
Record t := mk {
  ConversationID : string; MessageID : string; SenderName : string; SenderAvatarID : string;
  SenderID : string; Kind : string; CallID : string; Privacy : string; GroupIDs : list string;
  Ciphertext : bytes; ContentType : string; DeviceRendersPreview : bool
}.
Definition zero : t := mk "" "" "" "" "" "" "" "" [] "" "" false.
#[global] Instance eta : Eta t := fun r =>
  mk (ConversationID r) (MessageID r) (SenderName r) (SenderAvatarID r) (SenderID r) (Kind r) (CallID r)
     (Privacy r) (GroupIDs r) (Ciphertext r) (ContentType r) (DeviceRendersPreview r).
End ChatNotification.

(** The transport-neutral payload. *)
Module notification.
Record t := mk {
  Title : string; Body : string; Image : string; Icon : string; Data : gmap string string; TTL : Z;
  Urgent : bool; CollapseKey : string; ThreadID : string; ClientRendered : bool
}.
End notification.

Definition maxPreviewCiphertext : Z := 2400.
Definition maxPushPayload : Z := 4096 - 128.
Definition maxPreviewGroups : nat := 8.
Definition chatBody : string := "New message".
Definition callBody : string := "Incoming call".
Definition missedCallBody : string := "Missed call".
Definition fallbackTitle : string := "Pheme".
Definition defaultTTL : Z := 60.

(** The length of [json.Marshal(webPushPayload{...})]; [None] is its error. *)
Class Json := { webPushPayload_len : string → string → string → gmap string string → option Z }.

Section Payload.
Context {JS : Json}.
Implicit Types (n : ChatNotification.t) (url : string).

Definition payloadFits (title body icon : string) (data : gmap string string) : bool :=
  match webPushPayload_len title body icon data with
  | None => false
  | Some len => len <=? maxPushPayload
  end.

Definition previewGroupIDs n : string :=
  let ids := ChatNotification.GroupIDs n in
  let ids := if (maxPreviewGroups <? length ids)%nat then take maxPreviewGroups ids else ids in
  Join ids ",".

(** The cases of the switch in order; [None] is the nil slice. *)
Definition previewCiphertext n : option bytes :=
  if negb (ShowsPreview (ChatNotification.Privacy n)) then None
  else if negb (ChatNotification.DeviceRendersPreview n) then None
  else if ChatNotification.Kind n != KindMessage then None
  else if ChatNotification.ContentType n != ContentTypeMLSApplication then None
  else if (slen (ChatNotification.Ciphertext n) =? 0)
          || (maxPreviewCiphertext <? slen (ChatNotification.Ciphertext n)) then None
  else Some (ChatNotification.Ciphertext n).

Definition identifies n : bool := ShowsSender (ChatNotification.Privacy n).

Definition displayName n : string :=
  if negb (identifies n) || (ChatNotification.SenderName n == "") then fallbackTitle
  else ChatNotification.SenderName n.

Definition ttl n : Z :=
  if (ChatNotification.Kind n == KindCall) || (ChatNotification.Kind n == KindCallCancel) then 30 else defaultTTL.

Definition GoneDeviceIDs (results : list Result.t) : list string :=
  Result.DeviceID <$> filter (fun r => Result.Gone r = true ∧ Result.DeviceID r ≠ "") results.

Definition avatarURL url (avatarID : string) : string :=
  if (url == "") || (avatarID == "") then ""
  else String.append (TrimRight url "/") (String.append "/v1/images/" avatarID).
Definition imageURL url (msg : Message.t) : string :=
  match Message.Images msg with
  | img :: _ => if url == "" then "" else String.append (TrimRight url "/") (String.append "/v1/images/" (MessageImage.ID img))
  | [] => ""
  end.

Definition threadID n (isCall : bool) : string := if isCall then "" else ChatNotification.ConversationID n.

(** [base64.StdEncoding]: that of [base64.RawStdEncoding], padded. *)
Definition base64_padded (s : bytes) : string :=
  String.append (base64std s)
    (if slen s mod 3 =? 1 then "==" else if slen s mod 3 =? 2 then "=" else "").

(** The part of the payload that serves a preview: put in, weighed, and taken
    out again when the whole does not fit. *)
Definition with_preview n (title body icon : string) (data : gmap string string) : gmap string string * bool :=
  match previewCiphertext n with
  | None => (data, false)
  | Some ct =>
      let data := <["ciphertext" := base64_padded ct]> data in
      let ids := previewGroupIDs n in
      let data := if ids != "" then <["groupIds" := ids]> data else data in
      let data := <["body" := body]> (<["title" := title]> data) in
      if negb (payloadFits title body icon data)
      then (delete "body" (delete "title" (delete "groupIds" (delete "ciphertext" data))), false)
      else (data, true)
  end.

Definition chatNotificationPayload url n : notification.t :=
  let title := displayName n in
  let icon := if identifies n then avatarURL url (ChatNotification.SenderAvatarID n) else "" in
  let body := if ChatNotification.Kind n == KindCall then callBody
              else if ChatNotification.Kind n == KindCallCancel then missedCallBody else chatBody in
  let data : gmap string string :=
    <["messageId" := ChatNotification.MessageID n]> {["conversationId" := ChatNotification.ConversationID n]} in
  let data := if icon != "" then <["senderAvatar" := icon]> data else data in
  let data := if identifies n && (ChatNotification.SenderID n != "")
              then <["senderId" := ChatNotification.SenderID n]> data else data in
  let '(data, clientRendered) := with_preview n title body icon data in
  let isCall := ChatNotification.Kind n != KindMessage in
  let data := if isCall
              then <["callerName" := title]> (<["callId" := ChatNotification.CallID n]>
                     (<["kind" := ChatNotification.Kind n]> data)) else data in
  let collapseKey := if isCall then String.append "call:" (ChatNotification.CallID n) else "" in
  notification.mk title body "" icon data (ttl n) isCall collapseKey (threadID n isCall) clientRendered.

(** A channel message carries its content. *)
Definition notificationData (msg : Message.t) : gmap string string :=
  <["messageId" := Message.ID msg]> (<["channelId" := Message.ChannelID msg]> (Message.Data msg)).
Definition messageNotification url (msg : Message.t) : notification.t :=
  notification.mk (Message.Title msg) (Message.Body msg) (imageURL url msg) "" (notificationData msg) defaultTTL
    false "" "" false.
End Payload.

(** ** Which transport a device is reached by *)

Section Routing.
(** What a transport answers for the devices it is handed: one result per
    device, and its error. *)
Abbreviation answer := (list Result.t * option string)%type.
Implicit Types (devices : list Device.t) (deliver : list Device.t → answer).

Definition appendSkipped (acc : list Result.t) devices : list Result.t :=
  acc ++ ((fun d => Result.mk (Device.ID d) DeliverySkipped "" false) <$> devices).

Definition first_error (firstErr err : option string) : option string :=
  match firstErr with None => err | Some _ => firstErr end.

(** [deliver] is [None] for a nil sender. *)
Definition dispatch (deliver : option (list Device.t → answer)) devices (acc : list Result.t)
  (firstErr : option string) : answer :=
  match devices with
  | [] => (acc, firstErr)
  | _ =>
      match deliver with
      | None => (appendSkipped acc devices, firstErr)
      | Some deliver => let '(res, err) := deliver devices in (acc ++ res, first_error firstErr err)
      end
  end.

Definition has_fcm (d : Device.t) : bool := Device.FCMToken d != "".
Definition has_web (d : Device.t) : bool := negb (has_fcm d) && (Device.WebPushSub d != "").

Definition route (fcm web : option (list Device.t → answer)) devices : answer :=
  let fcmDevices := filter (fun d => Is_true (has_fcm d)) devices in
  let webDevices := filter (fun d => Is_true (has_web d)) devices in
  let skipped := filter (fun d => Is_true (negb (has_fcm d) && negb (has_web d))) devices in
  let '(results, firstErr) := dispatch fcm fcmDevices (appendSkipped [] skipped) None in
  dispatch web webDevices results firstErr.

Definition PlatformIOS : string := "ios".
Definition rings_by_voip (d : Device.t) : bool :=
  (Device.Platform d == PlatformIOS) && (Device.VoIPToken d != "").

(** [MultiSender.SendChat] for a notification of kind [kind]. *)
Definition SendChat (fcm web voip : option (list Device.t → answer)) (kind : string) devices : answer :=
  match voip with
  | None => route fcm web devices
  | Some sendCall =>
      if kind == KindMessage then route fcm web devices
      else
        let voipDevices := filter (fun d => Is_true (rings_by_voip d)) devices in
        let rest := filter (fun d => Is_true (negb (rings_by_voip d))) devices in
        let '(results, firstErr) := match voipDevices with [] => ([], None) | _ => sendCall voipDevices end in
        match rest with
        | [] => (results, firstErr)
        | _ => let '(res, err) := route fcm web rest in (results ++ res, first_error firstErr err)
        end
  end.
End Routing.

(** ** The transports *)

(** *** Firebase Cloud Messaging *)

(** What is set of a [messaging.Message]. *)
Module FcmMessage.
Record t := mk {
  Token : string; Data : gmap string string;
  (** title, body and image of the [Notification] *)
  Notification : option (string * string * string);
  AndroidPriority : string; AndroidTTL : Z; AndroidCollapseKey : string;
  (** image of the [AndroidNotification] *)
  AndroidImage : option string;
  Headers : gmap string string;
  (** title and body of the [ApsAlert] *)
  Alert : string * string;
  Sound : string; ThreadID : string; MutableContent : bool; CustomData : gmap string string
}.
End FcmMessage.

(** An entry of [resp.Responses]: success, or an error, if there is one: its text and what
    [IsUnregistered] and [IsSenderIDMismatch] say of it. *)
Module FcmError.
Record t := mk { text : string; unregistered : bool; sender_mismatch : bool }.
End FcmError.
Inductive fcm_response : Type := FcmSuccess | FcmFailure (e : option FcmError.t).
(** [client.SendEach] *)
Abbreviation fcm_client := (list FcmMessage.t → result string (list fcm_response)).

Definition buildMessage (now : time) (token : string) (n : notification.t) : FcmMessage.t :=
  let ttl := wrap64 (notification.TTL n * Second) in
  let expiry := FormatInt (Unix (now + ttl)) in
  let loud := notification.Urgent n || notification.ClientRendered n in
  let trayRendered := negb (notification.Urgent n) && negb (notification.ClientRendered n) in
  let headers : gmap string string :=
    <["apns-priority" := "10"]> (<["apns-push-type" := "alert"]> {["apns-expiration" := expiry]}) in
  FcmMessage.mk token (notification.Data n)
    (if trayRendered then Some (notification.Title n, notification.Body n, notification.Image n) else None)
    (if loud then "high" else "normal") ttl (notification.CollapseKey n)
    (if trayRendered && (notification.Image n != "") then Some (notification.Image n) else None)
    (if notification.CollapseKey n != "" then <["apns-collapse-id" := notification.CollapseKey n]> headers else headers)
    (notification.Title n, notification.Body n) "default" (notification.ThreadID n) (notification.ClientRendered n)
    (if notification.Urgent n then {["interruption-level" := "time-sensitive"]} else ∅).

Definition skipped_result (d : Device.t) : Result.t := Result.mk (Device.ID d) DeliverySkipped "" false.
Definition failed_result (err : string) (d : Device.t) : Result.t := Result.mk (Device.ID d) DeliveryFailed err false.
Definition fcm_result (d : Device.t) (r : fcm_response) : Result.t :=
  match r with
  | FcmSuccess => Result.mk (Device.ID d) DeliverySent "" false
  | FcmFailure None => failed_result "" d
  | FcmFailure (Some e) => Result.mk (Device.ID d) DeliveryFailed (FcmError.text e) (FcmError.unregistered e || FcmError.sender_mismatch e)
  end.

(** Skipped devices are reported first, then the batch; [clock i] is read for the
    [i]-th message. *)
Definition fcm_send (SendEach : fcm_client) (clock : nat → time) (n : notification.t) (devices : list Device.t)
  : list Result.t * option string :=
  let results := skipped_result <$> filter (fun d => Is_true (negb (has_fcm d))) devices in
  let batched := filter (fun d => Is_true (has_fcm d)) devices in
  match batched with
  | [] => (results, None)
  | _ =>
      match SendEach (imap (fun i d => buildMessage (clock i) (Device.FCMToken d) n) batched) with
      | Err err => (results ++ (failed_result err <$> batched), Some err)
      | Ok responses => (results ++ zip_with fcm_result batched responses, None)
      end
  end.

(** *** Web Push *)

Section WebPush.
(** [json.Marshal] of the payload, [json.Unmarshal] of a subscription, and the request
    to the push service: its status and body. *)
Context {Sub : Type} (marshal : notification.t → result string bytes) (unmarshal : string → option Sub)
  (SendNotification : bytes → Sub → Z → result string (Z * string)).

Definition sendOne (payload : bytes) (n : notification.t) (d : Device.t) : Result.t :=
  match unmarshal (Device.WebPushSub d) with
  | None => failed_result "invalid subscription" d
  | Some sub =>
      match SendNotification payload sub (notification.TTL n) with
      | Err err => failed_result err d
      | Ok (status, body) =>
          if 400 <=? status
          then Result.mk (Device.ID d) DeliveryFailed
                 (String.append "push service returned " (String.append (FormatInt status) (String.append ": " (string_take 1024 body))))
                 ((status =? 404) || (status =? 410))
          else Result.mk (Device.ID d) DeliverySent "" false
      end
  end.

(** A goroutine per subscription writes the result of its index; [cancelled i] is the
    context's error when it ends before the [i]-th has had its turn. *)
Definition web_send (cancelled : nat → option string) (n : notification.t) (devices : list Device.t)
  : list Result.t * option string :=
  match marshal n with
  | Err err => ([], Some err)
  | Ok payload =>
      (imap (fun i d =>
         if Device.WebPushSub d == "" then skipped_result d
         else match cancelled i with Some err => failed_result err d | None => sendOne payload n d end) devices, None)
  end.
End WebPush.

(** *** Apple's VoIP pushes *)

Module voipPayload.
Record t := mk { CallID : string; ConversationID : string; CallerName : string; Kind : string }.
End voipPayload.

Definition voipPayloadFor (n : ChatNotification.t) : voipPayload.t :=
  voipPayload.mk (ChatNotification.CallID n) (ChatNotification.ConversationID n) (displayName n) (ChatNotification.Kind n).

(** What is set of an [apns2.Notification]. *)
Module ApnsNotification.
Record t := mk { DeviceToken : string; Topic : string; PushType : string; Priority : Z; Expiration : time; Payload : bytes }.
End ApnsNotification.

Section VoIP.
(** The push: its status and the reason given. *)
Context (bundleID : string) (marshal : voipPayload.t → result string bytes)
  (Push : ApnsNotification.t → result string (Z * string)).

Definition voip_one (clock : time) (n : ChatNotification.t) (payload : bytes) (d : Device.t) : Result.t * option string :=
  match Push (ApnsNotification.mk (Device.VoIPToken d) (String.append bundleID ".voip") "voip" 10 (clock + ttl n * Second) payload) with
  | Err err => (failed_result err d, Some err)
  | Ok (status, reason) =>
      if status =? 200 then (Result.mk (Device.ID d) DeliverySent "" false, None)
      else (failed_result (String.append "apns " (String.append (FormatInt status) (String.append ": " reason))) d, None)
  end.

Fixpoint voip_each (clock : nat → time) (n : ChatNotification.t) (payload : bytes) (devices : list Device.t)
    (firstErr : option string) : list Result.t * option string :=
  match devices with
  | [] => ([], firstErr)
  | d :: devices =>
      let '(r, err) := if Device.VoIPToken d == "" then (skipped_result d, None) else voip_one (clock 0%nat) n payload d in
      let '(results, firstErr) := voip_each (fun i => clock (S i)) n payload devices (first_error firstErr err) in
      (r :: results, firstErr)
  end.

Definition SendCall (clock : nat → time) (n : ChatNotification.t) (devices : list Device.t) : list Result.t * option string :=
  match marshal (voipPayloadFor n) with
  | Err err => ([], Some (String.append "apns: marshal payload: " err))
  | Ok payload => voip_each clock n payload devices None
  end.
End VoIP.

(** ** What a payload gives away *)

(** The conditions under which a device is sent the message itself. *)
Definition previewable (n : ChatNotification.t) : bool :=
  ShowsPreview (ChatNotification.Privacy n) && ChatNotification.DeviceRendersPreview n
  && (ChatNotification.Kind n == KindMessage) && (ChatNotification.ContentType n == ContentTypeMLSApplication).

Section Privacy.
Context {JS : Json}.
Implicit Types (n : ChatNotification.t) (url : string).

Lemma previewCiphertext_previewable n ct :
  previewCiphertext n = Some ct →
  previewable n = true ∧ ct = ChatNotification.Ciphertext n ∧ slen ct ≤ maxPreviewCiphertext.
Proof.
  unfold previewCiphertext, previewable.
  destruct (ShowsPreview _), (ChatNotification.DeviceRendersPreview n), (ChatNotification.Kind n == KindMessage),
    (ChatNotification.ContentType n == ContentTypeMLSApplication); cbn [negb andb]; try done.
  destruct (_ || _) eqn:E; [done|]. intros [= <-]. bool_hyps. done.
Qed.

Lemma previewCiphertext_None n : previewable n = false → previewCiphertext n = None.
Proof.
  intros Hn. destruct (previewCiphertext n) eqn:E; [|done].
  apply previewCiphertext_previewable in E as [E _]. congruence.
Qed.

(** Outside its own keys the preview part leaves the payload's data alone. *)
Lemma with_preview_ciphertext n title body icon data data' b v :
  data !! "ciphertext" = None → with_preview n title body icon data = (data', b) →
  data' !! "ciphertext" = Some v →
  previewable n = true ∧ v = base64_padded (ChatNotification.Ciphertext n) ∧ b = true ∧
  payloadFits title body icon data' = true.
Proof.
  intros Hd. unfold with_preview. destruct (previewCiphertext n) as [ct|] eqn:Hct; [|congruence].
  apply previewCiphertext_previewable in Hct as (Hp & -> & _).
  set (D := <["body" := _]> _).
  destruct (negb (payloadFits title body icon D)) eqn:Hf; intros [= <- <-].
  - rewrite !lookup_delete_ne by done. by rewrite lookup_delete_eq.
  - apply negb_false_iff in Hf. intros Hv. split_and!; [done| |done|done].
    unfold D in Hv. rewrite !lookup_insert_ne in Hv by done.
    destruct (previewGroupIDs n != ""); rewrite ?lookup_insert_ne in Hv by done;
      rewrite lookup_insert_eq in Hv; by injection Hv.
Qed.

(** A payload for somebody who asked not to be told who writes to them is
    the same whoever the sender is; one for a device that may not show the
    message is the same whatever the message says; and the ciphertext is in a
    payload only for a device that may show it, in a payload that fits. *)
Theorem payload_private url n :
  (ShowsSender (ChatNotification.Privacy n) = false → ∀ name avatarID senderID,
     chatNotificationPayload url (n <| ChatNotification.SenderName := name |>
       <| ChatNotification.SenderAvatarID := avatarID |> <| ChatNotification.SenderID := senderID |>)
     = chatNotificationPayload url n) ∧
  (previewable n = false → ∀ ct ids,
     chatNotificationPayload url (n <| ChatNotification.Ciphertext := ct |> <| ChatNotification.GroupIDs := ids |>)
     = chatNotificationPayload url n) ∧
  (∀ v, notification.Data (chatNotificationPayload url n) !! "ciphertext" = Some v →
     let p := chatNotificationPayload url n in
     previewable n = true ∧ v = base64_padded (ChatNotification.Ciphertext n) ∧
     notification.ClientRendered p = true ∧
     payloadFits (notification.Title p) (notification.Body p) (notification.Icon p) (notification.Data p) = true).
Proof.
  split_and!.
  - intros Hs name avatarID senderID. unfold chatNotificationPayload, displayName, identifies, with_preview.
    rewrite !previewCiphertext_None by
      (unfold previewable; destruct n; cbn in *; destruct (ShowsPreview _) eqn:E; [|done];
       apply ShowsPreview_ShowsSender in E; congruence).
    destruct n; cbn in *. by rewrite Hs.
  - intros Hp ct ids. unfold chatNotificationPayload, with_preview.
    rewrite !previewCiphertext_None; [by destruct n | done | by destruct n].
  - intros v. unfold chatNotificationPayload. cbn zeta. destruct (with_preview _ _ _ _ _) as [data b] eqn:Hw.
    cbn [notification.Data notification.Title notification.Body notification.Icon notification.ClientRendered].
    intros Hv. assert (Hd : data !! "ciphertext" = Some v).
    { destruct (ChatNotification.Kind n != KindMessage); [|done]. by rewrite !lookup_insert_ne in Hv by done. }
    unshelve epose proof (with_preview_ciphertext _ _ _ _ _ _ _ _ _ Hw Hd) as (Hp & -> & -> & Hf).
    { repeat match goal with |- context [if ?b then <[_:=_]> _ else _] => destruct b end;
        rewrite ?lookup_insert_ne by done; by apply lookup_singleton_ne. }
    pose proof Hp as Hk. unfold previewable in Hk. bool_hyps. split_and!; [done..|].
    rewrite (bool_decide_eq_true_2 (ChatNotification.Kind n = KindMessage)) by done. exact Hf.
Qed.
End Privacy.

(** ** Every device is reported on once *)

Lemma filter_split {A} (p : A → bool) (l : list A) :
  filter (fun x => Is_true (p x)) l ++ filter (fun x => Is_true (negb (p x))) l ≡ₚ l.
Proof.
  etransitivity; [|apply (filter_app_complement (fun x => Is_true (p x)))].
  apply Permutation_refl'. f_equal. apply list_filter_iff. intros x. by destruct (p x); cbn; split; auto.
Qed.

Section Routes.
Abbreviation answer := (list Result.t * option string)%type.
Implicit Types (devices : list Device.t) (deliver : option (list Device.t → answer)).

(** The contract of [push.Sender]: one result per device. *)
Definition reports_each deliver : Prop :=
  match deliver with
  | None => True
  | Some f => ∀ devices, Result.DeviceID <$> (f devices).1 ≡ₚ Device.ID <$> devices
  end.

Lemma appendSkipped_ids acc devices :
  Result.DeviceID <$> appendSkipped acc devices = (Result.DeviceID <$> acc) ++ (Device.ID <$> devices).
Proof. unfold appendSkipped. by rewrite fmap_app, <- list_fmap_compose. Qed.

Lemma dispatch_ids deliver devices acc err :
  reports_each deliver →
  Result.DeviceID <$> (dispatch deliver devices acc err).1 ≡ₚ (Result.DeviceID <$> acc) ++ (Device.ID <$> devices).
Proof.
  intros Hd. unfold dispatch. destruct devices as [|d ds]; [by rewrite app_nil_r|].
  destruct deliver as [f|]; [|by rewrite <- appendSkipped_ids].
  specialize (Hd (d :: ds)). destruct (f (d :: ds)) as [res e]. cbn [fst] in *. by rewrite fmap_app, Hd.
Qed.

Lemma route_ids fcm web devices :
  reports_each fcm → reports_each web →
  Result.DeviceID <$> (route fcm web devices).1 ≡ₚ Device.ID <$> devices.
Proof.
  intros Hf Hw. unfold route.
  set (F := filter (fun d => Is_true (has_fcm d)) devices). set (W := filter (fun d => Is_true (has_web d)) devices).
  set (S := filter _ devices).
  pose proof (dispatch_ids fcm F (appendSkipped [] S) None Hf) as Hr.
  destruct (dispatch fcm F _ _) as [results err]. cbn [fst] in Hr.
  rewrite (dispatch_ids _ _ _ _ Hw), Hr, appendSkipped_ids. cbn [app fmap list_fmap].
  rewrite <- !fmap_app. apply fmap_Permutation.
  rewrite <- (filter_split has_fcm devices) at 1. rewrite (Permutation_app_comm S F), <- (assoc_L app). f_equiv.
  { done. }
  rewrite <- (filter_split has_web (filter _ devices)), (Permutation_app_comm S W). unfold W, S. f_equiv.
  - rewrite list_filter_filter. apply Permutation_refl', list_filter_iff. intros d. unfold has_web.
    destruct (has_fcm d), (Device.WebPushSub d != ""); cbn; tauto.
  - rewrite list_filter_filter. apply Permutation_refl', list_filter_iff. intros d.
    destruct (has_fcm d), (has_web d); cbn; tauto.
Qed.

(** When every transport reports once on each device it is handed, so does
    the whole: no device is left out or reported on twice. Only calls leave by
    the VoIP transport, and only to the iOS devices that have a token for it. *)
Theorem SendChat_routes fcm web voip kind devices :
  reports_each fcm → reports_each web → reports_each voip →
  Result.DeviceID <$> (SendChat fcm web voip kind devices).1 ≡ₚ Device.ID <$> devices ∧
  (kind = KindMessage → SendChat fcm web voip kind devices = SendChat fcm web None kind devices) ∧
  (∀ call call', voip = Some call → (∀ ds, Forall (fun d => Is_true (rings_by_voip d)) ds → call ds = call' ds) →
     SendChat fcm web (Some call') kind devices = SendChat fcm web voip kind devices).
Proof.
  intros Hf Hw Hv. unfold SendChat. split_and!.
  - destruct voip as [call|]; [|by apply route_ids]. case_bool_decide; [by apply route_ids|].
    transitivity (Device.ID <$> filter (fun d => Is_true (rings_by_voip d)) devices ++
      filter (fun d => Is_true (negb (rings_by_voip d))) devices); [|by rewrite filter_split].
    rewrite fmap_app.
    set (V := filter (fun d => Is_true (rings_by_voip d)) devices). set (R := filter _ devices).
    destruct (match V with [] => ([], None) | _ => call V end) as [results err] eqn:E.
    assert (Hr : Result.DeviceID <$> results ≡ₚ Device.ID <$> V).
    { specialize (Hv V). destruct V; [by injection E as <- _|]. by rewrite E in Hv. }
    rewrite <- Hr. destruct R as [|d R]; [by rewrite app_nil_r|].
    pose proof (route_ids fcm web (d :: R) Hf Hw) as Hrest. destruct (route fcm web (d :: R)) as [res e].
    cbn [fst] in *. by rewrite fmap_app, Hrest.
  - intros ->. by destruct voip.
  - intros call call' -> Heq. case_bool_decide; [done|].
    set (V := filter (fun d => Is_true (rings_by_voip d)) devices).
    assert (call V = call' V) as Hc; [|by destruct V; rewrite <- ?Hc].
    apply Heq, Forall_forall. by intros d [? _]%list_elem_of_filter.
Qed.
End Routes.

(** *** The transports report on each device, and which they call dead *)

Section Transports.
Implicit Types (devices : list Device.t).

(** As [SendEach] is documented: a response per message, in order, and an error for a
    batch of more than 500. *)
Record fcm_laws (SendEach : fcm_client) : Prop := {
  fcm_each batch rs : SendEach batch = Ok rs → length rs = length batch;
  fcm_limit batch : 500 < Z.of_nat (length batch) → ∃ err, SendEach batch = Err err
}.

Lemma zip_fcm_ids devices rs : length rs = length devices →
  Result.DeviceID <$> zip_with fcm_result devices rs = Device.ID <$> devices.
Proof.
  revert rs. induction devices as [|d ds IH]; intros [|r rs] Hl; try done; cbn in *.
  rewrite IH by lia. f_equal. by destruct r as [|[]].
Qed.
Lemma skipped_ids devices : Result.DeviceID <$> (skipped_result <$> devices) = Device.ID <$> devices.
Proof. by rewrite <-list_fmap_compose. Qed.
Lemma failed_ids err devices : Result.DeviceID <$> (failed_result err <$> devices) = Device.ID <$> devices.
Proof. by rewrite <-list_fmap_compose. Qed.

Lemma fcm_reports SendEach clock n : fcm_laws SendEach → reports_each (Some (fcm_send SendEach clock n)).
Proof.
  intros HL devices. unfold fcm_send.
  pose proof (fmap_Permutation Device.ID _ _ (filter_split has_fcm devices)) as Hsplit.
  etransitivity; [|exact Hsplit]. rewrite fmap_app, Permutation_app_comm.
  destruct (filter (fun d => Is_true (has_fcm d)) devices) as [|d ds] eqn:E.
  { cbn [fst app fmap list_fmap]. by rewrite skipped_ids, app_nil_r. }
  destruct (SendEach _) as [rs|err] eqn:Hs; cbn [fst]; rewrite fmap_app, skipped_ids.
  - rewrite zip_fcm_ids; [done|]. rewrite (fcm_each _ HL _ _ Hs). by rewrite length_imap.
  - by rewrite failed_ids.
Qed.

Lemma sendOne_id {Sub} (unmarshal : string → option Sub) SendNotification payload n d :
  Result.DeviceID (sendOne unmarshal SendNotification payload n d) = Device.ID d.
Proof. unfold sendOne. destruct (unmarshal _); [|done]. destruct (SendNotification _ _ _) as [[status body]|]; [|done]. by destruct (400 <=? status). Qed.

Lemma web_reports {Sub} marshal (unmarshal : string → option Sub) SendNotification cancelled n :
  is_ok (marshal n) → reports_each (Some (web_send marshal unmarshal SendNotification cancelled n)).
Proof.
  intros Hm devices. unfold web_send. destruct (marshal n) as [payload|]; [|done]. cbn [fst]. apply Permutation_refl'.
  clear. revert cancelled. induction devices as [|d ds IH]; intros cancelled; [done|]. cbn. f_equal; [|apply (IH (cancelled ∘ S))].
  destruct (Device.WebPushSub d == ""); [done|]. destruct (cancelled 0%nat); [done|]. apply sendOne_id.
Qed.

Lemma voip_each_ids bundleID push n payload devices : ∀ clock firstErr,
  Result.DeviceID <$> (voip_each bundleID push clock n payload devices firstErr).1 = Device.ID <$> devices.
Proof.
  induction devices as [|d ds IH]; intros clock firstErr; [done|]. cbn [voip_each].
  destruct (if Device.VoIPToken d == "" then _ else _) as [r err] eqn:Er.
  specialize (IH (fun i => clock (S i)) (first_error firstErr err)). destruct (voip_each _ _ _ _ _ ds _) as [results e]. cbn in *. rewrite IH. f_equal.
  destruct (Device.VoIPToken d == ""); [by injection Er as <- _|]. unfold voip_one in Er.
  destruct (push _) as [[status reason]|]; [|by injection Er as <- _]. by destruct (status =? 200); injection Er as <- _.
Qed.
Lemma voip_reports bundleID marshal push clock n :
  is_ok (marshal (voipPayloadFor n)) → reports_each (Some (SendCall bundleID marshal push clock n)).
Proof.
  intros Hm devices. unfold SendCall. destruct (marshal _) as [payload|]; [|done]. by rewrite voip_each_ids.
Qed.

(** A batch of more than 500 tokens reaches nobody. *)
Lemma fcm_over_500 SendEach clock n devices : fcm_laws SendEach →
  500 < Z.of_nat (length (filter (fun d => Is_true (has_fcm d)) devices)) →
  Forall (fun r => Result.Status r ≠ DeliverySent) (fcm_send SendEach clock n devices).1.
Proof.
  intros HL Hlen. unfold fcm_send. destruct (filter (fun d => Is_true (has_fcm d)) devices) as [|d ds] eqn:E; [cbn in Hlen; lia|].
  edestruct (fcm_limit _ HL) as [err ->]; [by rewrite length_imap|]. cbn [fst].
  apply Forall_app; split; apply Forall_fmap, Forall_true; intros ?; cbn; done.
Qed.

(** Which devices a transport calls dead: those whose token Firebase says is not
    registered or another project's, and those whose push service answers 404 or 410. *)
Lemma fcm_gone SendEach clock n devices r :
  r ∈ (fcm_send SendEach clock n devices).1 → Result.Gone r = true →
  ∃ d e rs, d ∈ devices ∧ has_fcm d = true ∧ Result.DeviceID r = Device.ID d ∧
    SendEach (imap (fun i d => buildMessage (clock i) (Device.FCMToken d) n) (filter (fun d => Is_true (has_fcm d)) devices)) = Ok rs ∧
    FcmFailure (Some e) ∈ rs ∧ FcmError.unregistered e || FcmError.sender_mismatch e = true.
Proof.
  unfold fcm_send. destruct (filter (fun d => Is_true (has_fcm d)) devices) as [|d0 ds] eqn:E.
  { cbn [fst]. intros (d & -> & _)%list_elem_of_fmap. done. }
  destruct (SendEach _) as [rs|err] eqn:Hs; cbn [fst]; intros [(d & -> & _)%list_elem_of_fmap|Hr]%elem_of_app Hg; try done.
  - apply elem_of_lookup_zip_with in Hr as (i & d & resp & -> & Hd & Hresp).
    destruct resp as [|[e|]]; cbn in Hg; [done| |done]. exists d, e, rs.
    assert (Hin : d ∈ filter (fun d => Is_true (has_fcm d)) devices) by (rewrite E; by eapply list_elem_of_lookup_2).
    apply list_elem_of_filter in Hin as [Hf%Is_true_eq_true Hin]. repeat split; [done..| |done]. by eapply list_elem_of_lookup_2.
  - apply list_elem_of_fmap in Hr as (d & -> & _). done.
Qed.
Lemma web_gone {Sub} marshal (unmarshal : string → option Sub) SendNotification cancelled n devices r :
  r ∈ (web_send marshal unmarshal SendNotification cancelled n devices).1 → Result.Gone r = true →
  ∃ d payload sub body status, d ∈ devices ∧ Result.DeviceID r = Device.ID d ∧ unmarshal (Device.WebPushSub d) = Some sub ∧
    SendNotification payload sub (notification.TTL n) = Ok (status, body) ∧ (status = 404 ∨ status = 410).
Proof.
  unfold web_send. destruct (marshal n) as [payload|]; [|by intros ?%elem_of_nil]. cbn [fst].
  intros (i & d & -> & Hd)%elem_of_lookup_imap Hg. apply list_elem_of_lookup_2 in Hd.
  destruct (Device.WebPushSub d == ""); [done|]. destruct (cancelled i); [done|]. unfold sendOne in *.
  destruct (unmarshal (Device.WebPushSub d)) as [sub|] eqn:Hu; [|done].
  destruct (SendNotification payload sub (notification.TTL n)) as [[status body]|] eqn:Hp; [|done].
  destruct (400 <=? status); [|done]. cbn in Hg. exists d, payload, sub, body, status. repeat split; [done..|]. apply orb_true_iff in Hg as [?%Z.eqb_eq|?%Z.eqb_eq]; auto.
Qed.
(** The VoIP transport calls none dead, whatever Apple says of its token. *)
Lemma voip_never_gone bundleID marshal push clock n devices :
  Forall (fun r => Result.Gone r = false) (SendCall bundleID marshal push clock n devices).1.
Proof.
  unfold SendCall. destruct (marshal _) as [payload|]; [|done]. generalize (@None string) as firstErr. revert clock.
  induction devices as [|d ds IH]; intros clock firstErr; [by constructor|]. cbn [voip_each].
  destruct (if Device.VoIPToken d == "" then _ else _) as [r err] eqn:Er.
  specialize (IH (fun i => clock (S i)) (first_error firstErr err)). destruct (voip_each _ _ _ _ _ ds _) as [results e]. cbn in *. constructor; [|done].
  destruct (Device.VoIPToken d == ""); [by injection Er as <- _|]. unfold voip_one in Er.
  destruct (push _) as [[status reason]|]; [|by injection Er as <- _]. by destruct (status =? 200); injection Er as <- _.
Qed.
End Transports.

(** ** Concrete notifications *)

Definition sample_json : Json := {| webPushPayload_len _ _ _ data := Some (100 * Z.of_nat (size data)) |}.
Definition sample_notification (privacy : string) : ChatNotification.t :=
  ChatNotification.mk "c" "m" "Alice" "avatar" "alice" KindMessage "" privacy ["g2"; "g1"] "sealed"
    ContentTypeMLSApplication true.

Lemma payload_private_witness :
  notification.Data (chatNotificationPayload (JS := sample_json) "https://p" (sample_notification NotificationPrivacyPreview))
    !! "ciphertext" = Some "c2VhbGVk" ∧ "c2VhbGVk" = base64_padded "sealed" ∧
  notification.Title (chatNotificationPayload (JS := sample_json) "https://p"
    (sample_notification NotificationPrivacyGeneric)) = "Pheme".
Proof.
  assert (H : notification.Data (chatNotificationPayload (JS := sample_json) "https://p"
    (sample_notification NotificationPrivacyPreview)) !! "ciphertext" = Some "c2VhbGVk") by (vm_compute; reflexivity).
  split; [exact H|]. split.
  - exact (proj1 (proj2 (proj2 (proj2 (payload_private (JS := sample_json) "https://p"
      (sample_notification NotificationPrivacyPreview))) _ H))).
  - rewrite <- (proj1 (payload_private (JS := sample_json) "https://p" (sample_notification NotificationPrivacyGeneric))
      eq_refl "Bob" "" "bob"). vm_compute. reflexivity.
Defined.

Definition sample_device (id platform fcm web voip : string) : Device.t :=
  Device.mk id "u" platform fcm web voip "" true "d" 0 0.
Definition sample_transport (devices : list Device.t) : list Result.t * option string :=
  ((fun d => Result.mk (Device.ID d) DeliverySent "" false) <$> devices, None).
Lemma sample_transport_reports : reports_each (Some sample_transport).
Proof. intros devices. unfold sample_transport. cbn [fst]. by rewrite <- list_fmap_compose. Qed.

Lemma SendChat_routes_witness :
  Result.DeviceID <$> (SendChat (Some sample_transport) None (Some sample_transport) KindCall
    [sample_device "1" "ios" "t" "" "v"; sample_device "2" "web" "" "s" ""; sample_device "3" "android" "t" "" ""]).1
  ≡ₚ ["1"; "2"; "3"].
Proof.
  exact (proj1 (SendChat_routes (Some sample_transport) None (Some sample_transport) KindCall
    [sample_device "1" "ios" "t" "" "v"; sample_device "2" "web" "" "s" ""; sample_device "3" "android" "t" "" ""]
    sample_transport_reports I sample_transport_reports)).
Defined.

(** A call to three devices over the three transports: the phone's VoIP token is dead and
    it stays registered, the browser's subscription is gone, the Android token works. *)
Definition sample_fcm : fcm_client := fun batch =>
  if (500 <? length batch)%nat then Err "messages must not contain more than 500 elements" else Ok ((fun _ => FcmSuccess) <$> batch).
Lemma sample_fcm_laws : fcm_laws sample_fcm.
Proof.
  split; unfold sample_fcm; intros batch; destruct (500 <? length batch)%nat eqn:E.
  - done.
  - intros rs [= <-]. by rewrite length_fmap.
  - intros _. by eexists.
  - apply Nat.ltb_ge in E. lia.
Qed.
Example call_over_transports :
  let n := sample_notification NotificationPrivacySender in
  let p := notification.mk "Alice" "Incoming call" "" "" ∅ 30 true "call:1" "" false in
  (SendChat (Some (fcm_send sample_fcm (fun _ => unixEpoch) p))
     (Some (web_send (fun _ => Ok "{}") Some (fun _ _ _ => Ok (410, "gone")) (fun _ => None) p))
     (Some (SendCall "app" (fun _ => Ok "{}") (fun _ => Ok (410, "Unregistered")) (fun _ => unixEpoch) n)) KindCall
     [sample_device "1" "ios" "t" "" "v"; sample_device "2" "web" "" "s" ""; sample_device "3" "android" "t" "" ""]).1 =
  [Result.mk "1" DeliveryFailed "apns 410: Unregistered" false; Result.mk "3" DeliverySent "" false;
   Result.mk "2" DeliveryFailed "push service returned 410: gone" true].
Proof. vm_compute. reflexivity. Qed.
