(* ===== verification/Peers.v ===== *)
(** * What servers say to each other

    [api/internal/federation/conversations.go], [keypackages.go], [users.go],
    [channels.go]:
    the messages of a conversation that spans hosts, and the calls one host
    makes on another ([peerConversations] of [api/internal/chat/convfed.go]).
    The peer is another server: what it answers is not this host's to say. *)

From S2P Require Import Prelude.
From S2P Require Import Domain.

Module TurnGrant.
Record t := mk { URLs : list string; Username : string; Credential : string }.
Definition zero : t := mk [] "" "".
End TurnGrant.

Module CallSignalRelay.
Record t := mk {
  ConversationID : string; CallID : string; FromUserID : string; Ciphertext : bytes; Ring : bool; Cancel : bool
}.
End CallSignalRelay.

Module CallNudge.
Record t := mk { ConversationID : string; CallID : string; FromUserID : string }.
End CallNudge.

Module ReceiptUpdate.
Record t := mk { ConversationID : string; UserID : string; DeliveredSeq : Z; ReadSeq : Z }.
End ReceiptUpdate.

Module RemoteMember.
Record t := mk { UserID : string; Domain : string; DisplayName : string; Username : string }.
End RemoteMember.

Module MirrorGroupSt.
Record t := mk { GroupID : string; Epoch : Z; ChainHash : bytes }.
End MirrorGroupSt.

Module MirrorSpec.
Record t := mk {
  ConversationID : string; Kind : string; Title : string; DirectKey : string; LocalUserID : string;
  RemoteMembers : list RemoteMember.t; GroupState : option MirrorGroupSt.t
}.
End MirrorSpec.

Module RelayedMessage.
Record t := mk {
  ID : string; SenderID : string; SenderDomain : string; Ciphertext : bytes; ContentType : string;
  MLSEpoch : Z; MLSGroupID : string; CreatedAt : time; Seq : Z; ChainHash : bytes; ChainSig : bytes
}.
Definition zero : t := mk "" "" "" "" "" 0 "" zero_time 0 "" "".
#[global] Instance eta : Eta t := fun r =>
  mk (ID r) (SenderID r) (SenderDomain r) (Ciphertext r) (ContentType r) (MLSEpoch r) (MLSGroupID r)
     (CreatedAt r) (Seq r) (ChainHash r) (ChainSig r).
End RelayedMessage.

Module SubmittedMessage.
Record t := mk { ConversationID : string; SenderID : string; Ciphertext : bytes; ContentType : string }.
End SubmittedMessage.

Module SubmittedCommit.
Record t := mk {
  ConversationID : string; SenderID : string; GroupID : string; BaseEpoch : Z; Welcome : bytes; Commit : bytes
}.
End SubmittedCommit.

Module CommitResult.
Record t := mk { Status : string; Epoch : Z; GroupID : string; ChainHash : bytes; ChainSig : bytes }.
Definition zero : t := mk "" 0 "" "" "".
End CommitResult.

Module ClaimedKeyPackage.
Record t := mk { DeviceID : string; KeyPackage : bytes }.
End ClaimedKeyPackage.

Module RemoteUser.
Record t := mk { UserID : string; DisplayName : string; Username : string }.
End RemoteUser.

Module RemoteImage.
Record t := mk { Width : Z; Height : Z; ContentType : string; Data : bytes }.
End RemoteImage.

Module RemoteMessage.
Record t := mk {
  ChannelPublicID : string; Title : string; Body : string; Images : list RemoteImage.t; CreatedAt : time
}.
End RemoteMessage.

(** ** The calls *)

Inductive peer_call : Type :=
| ProvisionRemoteMirror (peer : string) (spec : MirrorSpec.t)
| RelayToPeer (peer conversationID : string) (msgs : list RelayedMessage.t)
| SubmitMessageToHub (hub : string) (s : SubmittedMessage.t)
| SubmitCommitToHub (hub : string) (s : SubmittedCommit.t)
| SubmitReceiptToHub (hub : string) (s : ReceiptUpdate.t)
| RelayReceiptToPeer (peer : string) (s : ReceiptUpdate.t)
| RelayCallSignalToPeer (peer : string) (s : CallSignalRelay.t)
| RelayCallNudgeToPeer (peer : string) (s : CallNudge.t)
| RequestTurnFromPeer (peer conversationID : string)
| ClaimRemoteKeyPackagesFrom (home userID : string)
| ResolveRemoteUserAt (home username : string)
| DeleteConversationOnPeer (peer conversationID : string)
| SubscribeToRemoteChannel (origin channelPublicID : string)
| DeliverToPeer (peer : string) (msg : RemoteMessage.t).

(** What the peer answers when it does. *)
Definition peer_answer (c : peer_call) : Type :=
  match c with
  | SubmitMessageToHub _ _ => RelayedMessage.t
  | SubmitCommitToHub _ _ => CommitResult.t
  | RequestTurnFromPeer _ _ => TurnGrant.t
  | ClaimRemoteKeyPackagesFrom _ _ => list ClaimedKeyPackage.t
  | ResolveRemoteUserAt _ _ => RemoteUser.t
  | SubscribeToRemoteChannel _ _ => string
  | _ => unit
  end.

(** Its errors, as far as the callers tell them apart. *)
Inductive peer_err : Type := ErrRemoteUserNotFound | ErrPeer.

(** A client that reaches nobody. *)
Definition unreachable (c : peer_call) : result peer_err (peer_answer c) := Err ErrPeer.
