(* ===== verification/ChannelViews.v ===== *)
(** * What the channel API shows

    [api/internal/channel/views.go] and the shapes the channel, profile and
    admin handlers answer with. *)

From S2P Require Import Prelude.
From S2P Require Import GoStrings.
From S2P Require Import Domain.

(** ** Previews *)

Definition previewChars : nat := 200.

(** The first [n] runes of a string, [skip] bytes of it being the rest of the
    rune before. *)
Fixpoint take_runes (n skip : nat) (s : string) : string :=
  match s with
  | EmptyString => EmptyString
  | String c s' =>
      match skip with
      | S skip => String c (take_runes n skip s')
      | O => match n with
             | O => EmptyString
             | S n => String c (take_runes n (rune_size s - 1) s')
             end
      end
  end.

Definition previewBody (s : string) : string :=
  if rune_count s <=? Z.of_nat previewChars then s else take_runes previewChars 0 s.

Module lastMessageView.
Record t := mk { ID : string; Title : string; Body : string; ImageCount : Z; CreatedAt : time }.
End lastMessageView.

Definition newLastMessageView (m : Message.t) : lastMessageView.t :=
  lastMessageView.mk (Message.ID m) (Message.Title m) (previewBody (Message.Body m))
    (Z.of_nat (length (Message.Images m))) (Message.CreatedAt m).

Module channelView.
Record t := mk { Channel : Channel.t; LastMessage : option lastMessageView.t }.
End channelView.

Module messageView.
Record t := mk { Message : Message.t; CommentCount : Z }.
End messageView.

(** What [withLastMessages] and [withCommentCounts] make of their answers. *)
Definition channel_view (last : gmap string Message.t) (c : Channel.t) : channelView.t :=
  channelView.mk c (newLastMessageView <$> last !! Channel.ID c).
Definition message_view (counts : gmap string Z) (m : Message.t) : messageView.t :=
  messageView.mk m (default 0 (counts !! Message.ID m)).

(** ** Members and comments *)

Module channelRelation.
Record t := mk { IsOwner : bool; Role : string; Status : string }.
End channelRelation.

Module joinedChannel.
Record t := mk { View : channelView.t; Role : string; MemberStatus : string }.
End joinedChannel.

(** [memberView] of [members.go]: a membership and what its user has published
    of themselves. *)
Module subscriberView.
Record t := mk { Member : ChannelMember.t; Username : string; DisplayName : string; AvatarID : string }.
End subscriberView.

Definition subscriber_view (users : gmap string User.t) (m : ChannelMember.t) : subscriberView.t :=
  let p := PublicProfileOf (default User.zero (users !! ChannelMember.UserID m)) in
  subscriberView.mk m (PublicProfile.Username p) (PublicProfile.DisplayName p) (PublicProfile.AvatarID p).

Module commentView.
Record t := mk { Comment : Comment.t; Author : PublicUser.t }.
End commentView.

Definition comment_view (users : gmap string User.t) (c : Comment.t) : commentView.t :=
  commentView.mk c
    (match users !! Comment.UserID c with
     | Some u => Public u
     | None => PublicUser.mk (Comment.UserID c) "" "" ""
     end).

(** The ids in the order of their first occurrence. *)
Definition once (ids : list string) : list string :=
  foldl (fun out id => if bool_decide (id ∈ out) then out else out ++ [id]) [] ids.

(** ** The admin panel *)

Module userSummary.
Record t := mk { User : User.t; ChannelCount : Z }.
End userSummary.

Module channelSummary.
Record t := mk { Channel : Channel.t; OwnerEmail : string }.
End channelSummary.

Module adminComment.
Record t := mk {
  Comment : Comment.t; AuthorEmail : string; AuthorID : string; ChannelName : string; MessageTitle : string
}.
End adminComment.

(** [Code] is set in the answer to the request that created the invitation. *)
Module inviteSummary.
Record t := mk { Invite : Invite.t; Status : InviteStatus; Code : string }.
End inviteSummary.

Definition summarizeInvite (i : Invite.t) (now : time) : inviteSummary.t := inviteSummary.mk i (Status i now) "".

(** ** Answers *)

Inductive channel_body : Type :=
| BMeta (vapidPublicKey homeDomain : string)
| BUser (u : User.t)
| BChannel (c : Channel.t)
| BChannels (cs : list channelView.t)
| BJoined (cs : list joinedChannel.t)
| BJoin (c : Channel.t) (m : ChannelMember.t)
| BSubscribed (status : string) (m : ChannelMember.t)
| BRelated (c : Channel.t) (r : channelRelation.t)
| BRelation (r : channelRelation.t)
| BSubscribers (ms : list subscriberView.t) (total : Z) (window : option (Z * Z))
| BStatus (status : string)
| BKey (id prefix key : string)
| BKeys (keys : list APIKey.t)
| BRevoked (id : string)
| BDevice (d : Device.t)
| BFeed (msgs : list messageView.t) (nextCursor : string)
| BChannelMessage (m : messageView.t)
| BRawFeed (msgs : list Message.t) (nextCursor : string)
| BComments (cs : list commentView.t) (nextCursor : string)
| BComment (c : commentView.t)
| BImage (contentType : string) (data : bytes)
| BStats (s : AdminStats.t)
| BUserSummaries (us : list userSummary.t) (total page limit : Z)
| BUserSummary (u : userSummary.t)
| BChannelSummaries (cs : list channelSummary.t) (total page limit : Z)
| BAdminComments (cs : list adminComment.t) (total page limit : Z)
| BInvites (is_ : list inviteSummary.t) (total page limit : Z)
| BInvite (i : inviteSummary.t).
