(* ===== verification/ChatWorld.v ===== *)
(** * What the chat handlers share

    [api/internal/chat]: the state its handlers and the federation service act
    on, the calls they make on it, and the checks every request starts with.
    A handler is a program ([Threads.prog]) of these calls; a call may find its
    backend down, before or after it has done its work. *)

From S2P Require Import Prelude.
From S2P Require Import Domain.
From S2P Require Import Threads.
From S2P Require Import Blob.
From S2P Require Import StoreState.
From S2P Require Import StoreConversations.
From S2P Require Import Calls.
From S2P Require Import Push.
From S2P Require Import Live.
From S2P Require Import PushNotify.
From S2P Require Import Peers.
From S2P Require Import ChannelViews.

(** ** The shared state *)

(** What a goroutine that rings a conversation's devices is started with. *)
Module Ring.
Record t := mk { convID : string; callerID : string; callID : string; kind : string }.
End Ring.

(** The data store with its blobs, the call mailbox, what has been published on
    the live bus, sent to other hosts and handed to the push transports (each
    oldest first), the push queue, the slots of [ringSlots] in use and the rings
    started, the counters, the storm detector, the maps of the session revoker,
    what has been put on the broker, the channel messages handed to the push
    transports, and the idempotency keys seen. *)
Module World.
Record t (B : Type) := mk {
  store : Memory.t B; calls : mailbox; published : list Event.t; sent : list peer_call;
  notified : list (ChatNotification.t * list Device.t); pump : pushPump.t; ringSlots : nat; rings : list Ring.t;
  messagePushDrops : dropCounter.t; callPushDrops : dropCounter.t; pushSendFailures : dropCounter.t;
  storm : commitStormDetector.t; revoked : gmap string time; userCutoff : gmap string time;
  tasks : list NotifyTask.t; broadcast : list (Message.t * list Device.t); seen : gmap string time
}.
Arguments mk {B}. Arguments store {B}. Arguments calls {B}. Arguments published {B}. Arguments sent {B}.
Arguments notified {B}. Arguments pump {B}. Arguments ringSlots {B}. Arguments rings {B}. Arguments messagePushDrops {B}.
Arguments callPushDrops {B}. Arguments pushSendFailures {B}. Arguments storm {B}. Arguments revoked {B}.
Arguments userCutoff {B}. Arguments tasks {B}. Arguments broadcast {B}. Arguments seen {B}.
#[global] Instance eta {B} : Eta (t B) := fun r =>
  mk (store r) (calls r) (published r) (sent r) (notified r) (pump r) (ringSlots r) (rings r) (messagePushDrops r)
     (callPushDrops r) (pushSendFailures r) (storm r) (revoked r) (userCutoff r) (tasks r) (broadcast r) (seen r).
Definition init {B} (m : Memory.t B) : t B :=
  mk m ∅ [] [] [] pushPump.newPushPump 0 [] dropCounter.zero dropCounter.zero dropCounter.zero
    (commitStormDetector.newCommitStormDetector stormAlarmWindow stormAlarmThreshold) ∅ ∅ [] [] ∅.
End World.

(** What a call meets: the clock, the backend, the rate limiter, the ids
    [newID] draws and the id a blob is put under, what the push transports
    answer, the bytes [crypto/rand] gives, and what the other hosts answer. *)
Module Env.
Record t := mk {
  clock : time; backend : fault; allows : string → bool; fresh : nat → string;
  newBlob : result blob_err string;
  push : ChatNotification.t → list Device.t → list Result.t;
  send : Message.t → list Device.t → list Result.t;
  random : nat → option bytes;
  peers : ∀ c : peer_call, result peer_err (peer_answer c)
}.
End Env.

(** ** Configuration *)

Module ICEConfig.
Record t := mk { URLs : string; Secret : string; TTL : Z }.
Definition zero : t := mk "" "" 0.
End ICEConfig.

(** Whether a field that may be nil is set; [HostKey] is [None] when it has not
    the size of a key. *)
Module ConvFederation.
Record t := mk {
  Live : bool; Peers : bool; HostDomain : string; HostKey : option bytes;
  Keys : option (string → option bytes); Aliases : option (string → option string);
  Mailbox : bool; Ringer : bool; ICE : ICEConfig.t
}.
End ConvFederation.

Module Handler.
Record t := mk {
  HostDomain : string; Push : bool; ICE : ICEConfig.t; Mailbox : bool; Limiter : bool; Blobs : bool;
  Revoker : bool; SessionTTL : Z; Fed : option ConvFederation.t
}.
End Handler.

(** ** Responses *)

Module memberView.
Record t := mk { Member : ConversationMember.t; User : PublicUser.t }.
End memberView.

Module lastChatMessageView.
Record t := mk { ID : string; SenderID : string; Ciphertext : bytes; ContentType : string; CreatedAt : time }.
End lastChatMessageView.

Module conversationView.
Record t := mk {
  Conversation : Conversation.t; Members : list memberView.t; LastMessage : option lastChatMessageView.t
}.
End conversationView.

Module iceServer.
Record t := mk { URLs : list string; Username : string; Credential : string }.
End iceServer.

Module claimed.
Record t := mk { UserID : string; DeviceID : string; KeyPackage : bytes }.
End claimed.

(** The bodies the handlers answer with. *)
Inductive body : Type :=
| BUsers (users : list PublicUser.t)
| BProfile (p : PublicProfile.t)
| BConversation (c : Conversation.t)
| BView (v : conversationView.t)
| BViews (vs : list conversationView.t)
| BMembers (ms : list memberView.t)
| BMember (m : ConversationMember.t)
| BMessages (msgs : list ChatMessage.t) (nextCursor : string)
| BMessage (msg : ChatMessage.t)
| BReceipt (r : ConversationReceipt.t)
| BGroup (s : MLSGroupState.t)
| BGroupInfo (g : MLSGroupInfo.t)
| BControl (msgs : list ChatMessage.t)
| BMyDevices (live : list MLSDevice.t) (revoked : list string)
| BClaimed (packages : list claimed.t)
| BDevices (devices revoked : gmap string (list string))
| BCount (count : Z) (hasLastResort : bool)
| BID (id : string)
| BBytes (data : bytes)
| BSignal (s : Signal.t)
| BSignals (ss : list Signal.t)
| BWinner (winner : string)
| BBackup (b : MLSKeyBackup.t) (ciphertext transcript : bytes)
| BVersions (vs : list MLSKeyBackup.t)
| BTail (entries : list MLSKeyBackupTailEntry.t)
| BICE (servers : list iceServer.t)
| BChannelAPI (b : channel_body).

(** A handler that panics answers nothing: [net/http] drops the connection. *)
Inductive response : Type :=
| Error (status : Z) (message : string)
| Reply (status : Z) (b : body)
| NoContent
| Panicked.

(** ** Calls *)

Section Calls.
Context {B : Type} {BS : BlobStore B} {RO : RangeOrder} {R : Type}.
Abbreviation world := (World.t B).
Abbreviation handler := (prog world Env.t R).

(** A call of a backend that may fail before or after its work. *)
Definition faulty {X E} (f : fault) (w : world) (done : world * result E X) : world * result (failure E) X :=
  match f with
  | Works => (done.1, lift done.2)
  | NotDone => (w, Err Unavailable)
  | AnswerLost => (done.1, Err Unavailable)
  end.

Definition store_call {X} (op : Memory.t B → Env.t → memory_op B X)
  (k : result (failure store_err) X → handler) : handler :=
  Act (fun w env => faulty (Env.backend env) w
         (let '(m, r) := op (World.store w) env in (w <| World.store := m |>, r))) k.
Definition store_read {X} (op : Memory.t B → result store_err X)
  (k : result (failure store_err) X → handler) : handler :=
  store_call (fun m _ => (m, op m)) k.

(** The mailbox. *)
Definition mailbox_call {X} (op : mailbox → time → mailbox * X) (k : option X → handler) : handler :=
  Act (fun w env =>
         let '(w, r) := faulty (E := Empty_set) (Env.backend env) w
           (let '(c, x) := op (World.calls w) (Env.clock env) in (w <| World.calls := c |>, Ok x)) in
         (w, match r with Ok x => Some x | Err _ => None end)) k.

(** The blob store, which the data store shares. *)
Definition blob_call {X} (op : B → Env.t → B * result blob_err X)
  (k : result (failure blob_err) X → handler) : handler :=
  Act (fun w env => faulty (Env.backend env) w
         match Memory.blobs (World.store w) with
         | None => (w, Err (ErrDriver "no blob store"))
         | Some b => let '(b, r) := op b env in
                     (w <| World.store := (World.store w) <| Memory.blobs := Some b |> |>, r)
         end) k.
Definition blob_put (data : bytes) := blob_call (fun b env => bs_put b (Env.newBlob env) data "application/octet-stream").
Definition blob_fetch (id : string) := blob_call (fun b _ => (b, bs_get b id)).
Definition blob_delete (id : string) := blob_call (fun b _ => bs_delete b id).

Definition peer_do (c : peer_call) (k : result peer_err (peer_answer c) → handler) : handler :=
  Act (fun w env => (w <| World.sent := World.sent w ++ [c] |>, Env.peers env c)) k.

Definition publish (e : Event.t) (k : handler) : handler :=
  Act (fun w _ => (w <| World.published := World.published w ++ [e] |>, tt)) (fun _ => k).

Definition push_chat (n : ChatNotification.t) (devices : list Device.t) (k : list Result.t → handler) : handler :=
  Act (fun w env => (w <| World.notified := World.notified w ++ [(n, devices)] |>, Env.push env n devices)) k.

(** [push.Sender.Send] of a channel message. *)
Definition push_message (msg : Message.t) (devices : list Device.t) (k : list Result.t → handler) : handler :=
  Act (fun w env => (w <| World.broadcast := World.broadcast w ++ [(msg, devices)] |>, Env.send env msg devices)) k.

(** [broker.Publisher.Publish] *)
Definition enqueue (task : NotifyTask.t) (k : result (failure Empty_set) unit → handler) : handler :=
  Act (fun w env => faulty (Env.backend env) w (w <| World.tasks := World.tasks w ++ [task] |>, Ok tt)) k.

(** The idempotency store, [None] when it cannot be asked. *)
Definition dedup_seen (key : string) (window : Z) (k : option bool → handler) : handler :=
  Act (fun w env =>
         let '(w, r) := faulty (E := Empty_set) (Env.backend env) w
           (let '(s, dup) := Seen (World.seen w) (Env.clock env) key window in (w <| World.seen := s |>, Ok dup)) in
         (w, match r with Ok dup => Some dup | Err _ => None end)) k.

(** Steps on no shared state. *)
Definition draw_random (n : nat) (k : option bytes → handler) : handler := Act (fun w env => (w, Env.random env n)) k.
Definition time_now (k : time → handler) : handler := Act (fun w env => (w, Env.clock env)) k.
Definition limiter_allows (key : string) (k : bool → handler) : handler :=
  Act (fun w env => (w, Env.allows env key)) k.

(** A loop: [f x] goes on with its argument. *)
Fixpoint for_each {X} (l : list X) (f : X → handler → handler) (k : handler) : handler :=
  match l with
  | [] => k
  | x :: l => f x (for_each l f k)
  end.
End Calls.

(** ** Who is asking *)

(** What the middleware has left in the request's context. *)
Module Caller.
Record t := mk { user : option string; role : string; session : string }.
End Caller.

(** What became of the body of a request: decoded, over the ceiling, or not
    the JSON it should be. *)
Inductive decoded (X : Type) : Type := Decoded (x : X) | TooLarge | Malformed.
Arguments Decoded {X}. Arguments TooLarge {X}. Arguments Malformed {X}.

Definition maxSmallBodyBytes : Z := 64 * 1024.

Section Guards.
Context {B : Type} {RO : RangeOrder}.
Abbreviation world := (World.t B).
Abbreviation handler := (prog world Env.t response).

Definition DecodeLimited {X} (d : decoded X) (k : X → handler) : handler :=
  match d with
  | Decoded x => k x
  | TooLarge => Done (Error 413 "request body too large")
  | Malformed => Done (Error 400 "invalid JSON body")
  end.

Definition requireUser (c : Caller.t) (k : string → handler) : handler :=
  match Caller.user c with
  | None => Done (Error 401 "unauthorized")
  | Some uid => k uid
  end.

Definition notFound : response := Error 404 "conversation not found".
Definition storeDown : response := Error 503 "could not reach the conversation store".

Definition requireMember (c : Caller.t) (convID : string) (k : string → ConversationMember.t → handler) : handler :=
  requireUser c (fun uid =>
    do! r := store_read (fun m => ConversationMembership m convID uid) in
    match r with
    | Err (Known ErrNotFound) => Done notFound
    | Err _ => Done storeDown
    | Ok member => k uid member
    end).
End Guards.
