(* ===== verification/ChatPush.v ===== *)
(** * Notifications of a conversation

    The fan-out half of [api/internal/chat/messages.go] and [calls.go]: a
    message is queued ([notifyMembers]) and a worker sends it
    ([deliverPush]); a call is rung at once by a goroutine of its own, within a
    fixed number of slots ([ringMembers]). Devices are grouped by what their
    owner wants to see. *)

From S2P Require Import Prelude.
From S2P Require Import GoStrings.
From S2P Require Import Domain.
From S2P Require Import Threads.
From S2P Require Import Blob.
From S2P Require Import StoreState.
From S2P Require Import StoreUsers.
From S2P Require Import StoreDevices.
From S2P Require Import StoreConversations.
From S2P Require Import StoreMls.
From S2P Require Import Push.
From S2P Require Import PushNotify.
From S2P Require Import Peers.
From S2P Require Import ChatWorld.

(** Nothing but what a person wrote notifies. *)
Definition isControlContent (contentType : string) : bool := contentType != ContentTypeMLSApplication.

(** ** Groups of devices one payload serves *)

Module pushGroup.
Record t := mk { privacy : string; rendersPreview : bool }.
#[global] Instance eq_dec : EqDecision t.
Proof. solve_decision. Defined.
End pushGroup.

(** The Go map from groups to devices: its entries in the order in which they
    were made. [range] over it takes any order. *)
Abbreviation groups := (list (pushGroup.t * list Device.t)).
Class GroupOrder := {
  group_range : groups → groups;
  group_range_perm (gs : groups) : group_range gs ≡ₚ gs
}.
Definition group_order_fwd : GroupOrder := {| group_range gs := gs; group_range_perm gs := reflexivity gs |}.

(** [groups[key] = append(groups[key], d)] *)
Fixpoint add_to_group (key : pushGroup.t) (d : Device.t) (gs : groups) : groups :=
  match gs with
  | [] => [(key, [d])]
  | (key', ds) :: gs => if key' == key then (key', ds ++ [d]) :: gs else (key', ds) :: add_to_group key d gs
  end.

Definition device_group (users : gmap string User.t) (d : Device.t) : pushGroup.t :=
  let p := match users !! Device.UserID d with
           | Some u => Effective (User.NotificationPrivacy u)
           | None => NotificationPrivacyGeneric
           end in
  let accountable := Device.MLSDeviceID d != "" in
  pushGroup.mk p (Device.CanRenderPreview d && accountable).
Definition group_devices (users : gmap string User.t) (devices : list Device.t) : groups :=
  foldl (fun gs d => add_to_group (device_group users d) d gs) [] devices.

Definition recipients_of (senderID : string) (members : list ConversationMember.t) : list string :=
  filter (fun uid => uid ≠ senderID) (ConversationMember.UserID <$> members).

Definition maxConcurrentRings : nat := 32.

(** The failures a send reports, leaving aside the addresses that are gone. *)
Definition failures (results : list Result.t) : Z :=
  Z.of_nat (length (filter (fun r => Result.Gone r = false ∧ Result.Status r = DeliveryFailed) results)).

Section ChatPush.
Context {B : Type} {BS : BlobStore B} {RO : RangeOrder} {GO : GroupOrder} {R : Type}.
Context (h : Handler.t).
Abbreviation world := (World.t B).
Abbreviation handler := (prog world Env.t R).

Definition devicesByPrivacy (recipients : list string) (devices : list Device.t) (k : groups → handler) : handler :=
  do! r := store_read (fun m => Ok (UsersByIDs m recipients)) in
  let users := match r with Ok us => us | Err _ => ∅ end in
  k (group_devices users devices).

Definition senderIdentity (userID : string) (k : string → string → handler) : handler :=
  do! r := store_read (fun m => UserByID m userID) in
  match r with
  | Err _ => k "" ""
  | Ok u =>
      let name := if User.DisplayName u != "" then User.DisplayName u
                  else if User.Username u != "" then String.append "@" (User.Username u) else "" in
      k name (User.AvatarID u)
  end.

Definition pruneDeadDevices (results : list Result.t) (k : handler) : handler :=
  for_each (GoneDeviceIDs results) (fun id k => do! _ := store_call (fun m _ => DeleteDevice m id) in k) k.

Definition reportSendFailures (results : list Result.t) (k : handler) : handler :=
  if failures results =? 0 then k
  else Act (fun w env =>
              let '(d, _) := recordN (World.pushSendFailures w) (failures results) (Env.clock env) in
              (w <| World.pushSendFailures := d |>, tt)) (fun _ => k).

(** ** A message *)

(** [loadGroupIDs]: read once, and only if somebody is to see a preview. *)
Definition loadGroupIDs (convID : string) (loaded : option (list string))
  (k : list string → option (list string) → handler) : handler :=
  match loaded with
  | Some ids => k ids loaded
  | None =>
      do! r := store_read (fun m => MLSGroupState_ m convID) in
      let ids := match r with
                 | Err _ => []
                 | Ok state => (if MLSGroupState.GroupID state != "" then [MLSGroupState.GroupID state] else [])
                               ++ MLSGroupState.PriorGroupIDs state
                 end in
      k ids (Some ids)
  end.

Definition chat_notification (convID : string) (msg : ChatMessage.t) (name avatarID : string) (key : pushGroup.t)
  (preview : list string) : ChatNotification.t :=
  ChatNotification.mk convID (ChatMessage.ID msg) name avatarID (ChatMessage.SenderID msg) KindMessage ""
    (pushGroup.privacy key) preview (ChatMessage.Ciphertext msg) (ChatMessage.ContentType msg)
    (pushGroup.rendersPreview key).

(** The loop over the groups. *)
Fixpoint send_groups (convID : string) (msg : ChatMessage.t) (name avatarID : string) (gs : groups)
  (loaded : option (list string)) (k : handler) : handler :=
  match gs with
  | [] => k
  | (key, group) :: gs =>
      let send preview loaded :=
        push_chat (chat_notification convID msg name avatarID key preview) group (fun results =>
          pruneDeadDevices results (reportSendFailures results (send_groups convID msg name avatarID gs loaded k))) in
      if ShowsPreview (pushGroup.privacy key) && pushGroup.rendersPreview key
      then loadGroupIDs convID loaded send
      else send [] loaded
  end.

Definition deliverPush (convID senderID : string) (msg : ChatMessage.t) (members : list ConversationMember.t)
  (k : handler) : handler :=
  let deliver members :=
    let recipients := recipients_of senderID members in
    match recipients with
    | [] => k
    | _ =>
        do! r := store_read (fun m => Ok (DevicesForUsers m recipients)) in
        match r with
        | Err _ | Ok [] => k
        | Ok devices =>
            senderIdentity senderID (fun name avatarID =>
              do! gs := devicesByPrivacy recipients devices in
              send_groups convID msg name avatarID (group_range gs) None k)
        end
    end in
  match members with
  | [] =>
      do! r := store_read (fun m => Ok (ConversationMembers m convID)) in
      match r with Err _ => k | Ok members => deliver members end
  | _ => deliver members
  end.

(** A call of [offer]: each of its steps on the queue is a step of its own.
    It takes at most four. *)
Fixpoint offer_from (fuel : nat) (pc : offer_pc) (k : bool → handler) : handler :=
  match fuel with
  | O => k false
  | S fuel =>
      Act (fun w _ => let '(p, r) := offer_step messagePush_config (World.pump w) pc in (w <| World.pump := p |>, r))
        (fun r => match r with inr ok => k ok | inl pc => offer_from fuel pc k end)
  end.
Definition offer (j : pushJob.t) (k : bool → handler) : handler := offer_from 4 (Reserve j) k.

Definition notifyMembers (convID senderID : string) (msg : ChatMessage.t) (members : list ConversationMember.t)
  (k : handler) : handler :=
  if negb (Handler.Push h) || isControlContent (ChatMessage.ContentType msg) then k
  else
    do! now := time_now in
    do! ok := offer (pushJob.mk convID senderID msg members now) in
    if ok then k
    else Act (fun w env =>
                let '(d, _) := record (World.messagePushDrops w) (Env.clock env) in
                (w <| World.messagePushDrops := d |>, tt)) (fun _ => k).

(** ** A call *)

(** [select { case ringSlots <- struct{}{}: default: }], and the goroutine. *)
Definition ringMembers (convID callerID callID kind : string) (k : handler) : handler :=
  if negb (Handler.Push h) then k
  else
    Act (fun w _ =>
           if bool_decide (World.ringSlots w < maxConcurrentRings)%nat
           then (w <| World.ringSlots := S (World.ringSlots w) |>
                   <| World.rings := World.rings w ++ [Ring.mk convID callerID callID kind] |>, true)
           else (w, false))
      (fun ok => if ok then k
                 else Act (fun w env =>
                             let '(d, _) := record (World.callPushDrops w) (Env.clock env) in
                             (w <| World.callPushDrops := d |>, tt)) (fun _ => k)).

Definition RingForCall (convID callerID callID : string) (cancel : bool) (k : handler) : handler :=
  ringMembers convID callerID callID (if cancel then KindCallCancel else KindCall) k.

(** The body of the goroutine; the slot is given back however it ends. *)
Definition ring_goroutine (r : Ring.t) (k : handler) : handler :=
  let release := Act (fun w _ => (w <| World.ringSlots := pred (World.ringSlots w) |>, tt)) (fun _ => k) in
  do! r1 := store_read (fun m => Ok (ConversationMembers m (Ring.convID r))) in
  match r1 with
  | Err _ => release
  | Ok members =>
      let recipients := recipients_of (Ring.callerID r) members in
      match recipients with
      | [] => release
      | _ =>
          do! r2 := store_read (fun m => Ok (DevicesForUsers m recipients)) in
          match r2 with
          | Err _ | Ok [] => release
          | Ok devices =>
              senderIdentity (Ring.callerID r) (fun name avatarID =>
                do! gs := devicesByPrivacy recipients devices in
                for_each (group_range gs) (fun kg k =>
                  push_chat (ChatNotification.zero
                    <| ChatNotification.ConversationID := Ring.convID r |> <| ChatNotification.SenderName := name |>
                    <| ChatNotification.SenderAvatarID := avatarID |> <| ChatNotification.Kind := Ring.kind r |>
                    <| ChatNotification.CallID := Ring.callID r |>
                    <| ChatNotification.Privacy := pushGroup.privacy kg.1 |>) kg.2 (fun _ => k)) release)
          end
      end
  end.
End ChatPush.
