(* ===== verification/ConvFed.v ===== *)
(** * Conversations that span hosts

    [api/internal/chat/convfed.go]: the service that answers other hosts about
    a conversation they share, and the helpers the chat handlers call after
    they have changed one. A conversation has a hub, which orders it, and a
    mirror on every other host with a member in it. *)

From S2P Require Import Prelude.
From S2P Require Import GoStrings.
From S2P Require Import Domain.
From S2P Require Import Threads.
From S2P Require Import Crypto.
From S2P Require Import Strconv.
From S2P Require Import MlsChain.
From S2P Require Import Calls.
From S2P Require Import Blob.
From S2P Require Import StoreState.
From S2P Require Import StoreUsers.
From S2P Require Import StoreConversations.
From S2P Require Import StoreMls.
From S2P Require Import Live.
From S2P Require Import PushNotify.
From S2P Require Import Peers.
From S2P Require Import ChatWorld.

(** * ICE servers for calls

    [api/internal/chat/ice.go]: the TURN servers of a configuration and the
    credential coturn checks, HMAC-SHA1 under the shared secret. *)

(** [hmac.New(sha1.New, key)] over one message. *)
Class Hmac := { hmac_sha1 : bytes → bytes → bytes }.

Section Ice.
Context {U : Unicode} {HM : Hmac}.

Definition turnURLsOf (urls : string) : list string :=
  filter (fun url => Is_true ((url != "") && negb (HasPrefix url "stun:"))) (TrimSpace <$> Split urls ",").
Definition stunURLsOf (urls : string) : list string :=
  filter (fun url => Is_true (HasPrefix url "stun:")) (TrimSpace <$> Split urls ",").

Definition turnCredential (secret : string) (expiry : time) : string * string :=
  let username := FormatInt (Unix expiry) in
  (username, base64_padded (hmac_sha1 secret username)).
End Ice.

(** * Conversations that span hosts *)

(** [convFedError], and the errors the service passes on. *)
Inductive conv_err : Type :=
| errNoMirror
| errNotHub
| errNotMember
| errChainMismatch
| errChainUnsigned
| errNoCalling
| errNoSuchLocalUser
| errHubNotInConversation
| errRemoteMemberClaimsLocal
| errPeerTextTooLong
| StoreFailed (e : failure store_err)
| PeerFailed (e : peer_err)
| MailboxFailed.

Definition maxPeerText : Z := 200.

(** [callKey] of [calls.go]. *)
Definition callKey (convID callID : string) : string := String.append convID (String ":" callID).

(** Whether [peerDomain] is the hub or the home of a member. *)
Definition peerInConversation (conv : Conversation.t) (members : list ConversationMember.t) (peerDomain : string) : bool :=
  (Conversation.HubDomain conv == peerDomain)
  || existsb (fun m => ConversationMember.Domain m == peerDomain) members.

(** The first commit of a batch carries its link. *)
Fixpoint commitChainHashOf (stored : list ChatMessage.t) : bytes :=
  match stored with
  | [] => ""
  | m :: stored => if ChatMessage.ContentType m == ContentTypeMLSCommit then ChatMessage.MLSChainHash m
                   else commitChainHashOf stored
  end.

Definition fromRelayed (convID : string) (rm : RelayedMessage.t) : ChatMessage.t :=
  ChatMessage.mk (RelayedMessage.ID rm) convID (RelayedMessage.SenderID rm) (RelayedMessage.Ciphertext rm)
    (RelayedMessage.ContentType rm) (RelayedMessage.CreatedAt rm) (RelayedMessage.MLSEpoch rm)
    (RelayedMessage.MLSGroupID rm) (RelayedMessage.Seq rm) (RelayedMessage.ChainHash rm).

(** The messages of a commit, the Welcome first. *)
Definition control_messages (convID sender groupID : string) (welcome commit : bytes) (epoch : Z) (now : time)
  : list ChatMessage.t :=
  let msg ciphertext contentType :=
    ChatMessage.mk "" convID sender ciphertext contentType now epoch groupID 0 "" in
  (if 0 <? slen welcome then [msg welcome ContentTypeMLSWelcome] else []) ++ [msg commit ContentTypeMLSCommit].

Definition find_commit (msgs : list RelayedMessage.t) : option RelayedMessage.t :=
  List.find (fun rm => RelayedMessage.ContentType rm == ContentTypeMLSCommit) msgs.

Section ConvFed.
Context {B : Type} {BS : BlobStore B} {RO : RangeOrder} {U : Unicode} {E : Ed25519} {HM : Hmac} {R : Type}.
Context (c : ConvFederation.t).
Abbreviation world := (World.t B).
Abbreviation handler := (prog world Env.t R).
Implicit Types (conv : Conversation.t) (msg : ChatMessage.t) (members : list ConversationMember.t).

Definition get_conversation (id : string) := store_read (B := B) (R := R) (fun m => ConversationByID m id).
Definition get_members (id : string) := store_read (B := B) (R := R) (fun m => Ok (ConversationMembers m id)).
Definition get_group (id : string) := store_read (B := B) (R := R) (fun m => MLSGroupState_ m id).
Definition get_membership (id uid : string) := store_read (B := B) (R := R) (fun m => ConversationMembership m id uid).
Definition append_message msg :=
  store_call (B := B) (R := R) (fun m env => AppendChatMessage m (Env.fresh env 0%nat) msg).
Definition commit_group (convID groupID : string) (baseEpoch : Z) (msgs : list ChatMessage.t)
  (k : failure store_err + commit_result → handler) : handler :=
  Act (fun w env =>
         let done := CommitMLSGroup (World.store w) (Env.fresh env) convID groupID baseEpoch msgs in
         let w' := w <| World.store := done.1 |> in
         match Env.backend env with
         | Works => (w', inr done.2)
         | NotDone => (w, inl Unavailable)
         | AnswerLost => (w', inl Unavailable)
         end) k.

(** ** Hosts *)

Definition hosts_of members : list string :=
  foldl (fun hosts m =>
    let d := ConversationMember.Domain m in
    if (d == "") || (d == ConvFederation.HostDomain c) || bool_decide (d ∈ hosts) then hosts else hosts ++ [d]) [] members.

Definition participantHosts (convID : string) (k : list string → handler) : handler :=
  do! r := get_members convID in
  k (match r with Err _ => [] | Ok members => hosts_of members end).

(** A link is put on the wire with the hub's signature. *)
Definition sign_link (hash : bytes) : bytes :=
  match ConvFederation.HostKey c with
  | Some key => if 0 <? slen hash then Sign key hash else ""
  | None => ""
  end.

Definition toRelayed (senderDomain : string) msg : RelayedMessage.t :=
  RelayedMessage.mk (ChatMessage.ID msg) (ChatMessage.SenderID msg) senderDomain (ChatMessage.Ciphertext msg)
    (ChatMessage.ContentType msg) (ChatMessage.MLSEpoch msg) (ChatMessage.MLSGroupID msg) (ChatMessage.CreatedAt msg)
    (ChatMessage.Seq msg) (ChatMessage.MLSChainHash msg) (sign_link (ChatMessage.MLSChainHash msg)).

(** A call whose failure is only logged. *)
Definition tell (call : peer_call) (k : handler) : handler := do! _ := peer_do call in k.

Definition RelayAppended conv (senderDomain : string) (msgs : list ChatMessage.t) (k : handler) : handler :=
  if negb (ConvFederation.Peers c) || IsMirror conv then k
  else
    do! hosts := participantHosts (Conversation.ID conv) in
    let relayed := toRelayed senderDomain <$> msgs in
    for_each hosts (fun host => tell (RelayToPeer host (Conversation.ID conv) relayed)) k.

Definition relayExcept conv (except : string) (msgs : list ChatMessage.t) (k : handler) : handler :=
  if negb (ConvFederation.Peers c) then k
  else
    let relayed := toRelayed (ConvFederation.HostDomain c) <$> msgs in
    do! hosts := participantHosts (Conversation.ID conv) in
    for_each hosts (fun host k =>
      if host == except then k else tell (RelayToPeer host (Conversation.ID conv) relayed) k) k.

Definition publishLocal (convID : string) msg (k : handler) : handler :=
  if negb (ConvFederation.Live c) then k
  else publish (Event.zero <| Event.ConversationID := convID |> <| Event.ChatMessage := Some msg |>) k.

Definition isMemberFromHost (convID userID host : string) (k : bool → handler) : handler :=
  do! r := get_membership convID userID in
  k (match r with Ok m => ConversationMember.Domain m == host | Err _ => false end).

Definition verifyHubSig (hubDomain : string) (hash sig : bytes) : bool :=
  match ConvFederation.Keys c with
  | None => true
  | Some keyFor => match keyFor hubDomain with None => false | Some key => Verify key hash sig end
  end.

(** ** What other hosts ask of this one *)

(** The remote members the caller names, checked one by one. *)
Definition stake (hubDomain : string) (rms : list RemoteMember.t) : bool :=
  existsb (fun rm => EqualFold (RemoteMember.Domain rm) hubDomain) rms.
Definition claims_local (localUserID : string) (rm : RemoteMember.t) : bool :=
  ((ConvFederation.HostDomain c != "") && EqualFold (RemoteMember.Domain rm) (ConvFederation.HostDomain c))
  || (RemoteMember.UserID rm == localUserID).
Definition text_too_long (rm : RemoteMember.t) : bool :=
  (maxPeerText <? slen (RemoteMember.DisplayName rm)) || (maxPeerText <? slen (RemoteMember.Username rm)).

Definition checkMirrorSpec (hubDomain : string) (spec : MirrorSpec.t) (k : result conv_err unit → handler) : handler :=
  do! r := store_read (fun m => UserByID m (MirrorSpec.LocalUserID spec)) in
  match r with
  | Err _ => k (Err errNoSuchLocalUser)
  | Ok user =>
      if User.Status user == UserBlocked then k (Err errNoSuchLocalUser)
      else if negb (stake hubDomain (MirrorSpec.RemoteMembers spec)) then k (Err errHubNotInConversation)
      else if existsb (claims_local (MirrorSpec.LocalUserID spec)) (MirrorSpec.RemoteMembers spec)
      then k (Err errRemoteMemberClaimsLocal)
      else if maxPeerText <? slen (MirrorSpec.Title spec) then k (Err errPeerTextTooLong)
      else if existsb text_too_long (MirrorSpec.RemoteMembers spec) then k (Err errPeerTextTooLong)
      else k (Ok tt)
  end.

(** The conversation and the members a mirror starts with. *)
Definition mirror_conversation (hubDomain : string) (spec : MirrorSpec.t) (now : time) : Conversation.t :=
  Conversation.zero <| Conversation.ID := MirrorSpec.ConversationID spec |>
    <| Conversation.Kind := MirrorSpec.Kind spec |> <| Conversation.Title := MirrorSpec.Title spec |>
    <| Conversation.DirectKey := MirrorSpec.DirectKey spec |> <| Conversation.HubDomain := hubDomain |>
    <| Conversation.CreatedAt := now |>
    <| Conversation.MLS :=
         match MirrorSpec.GroupState spec with
         | None => MLSGroupState.zero
         | Some g => MLSGroupState.zero <| MLSGroupState.GroupID := MirrorGroupSt.GroupID g |>
                       <| MLSGroupState.Epoch := MirrorGroupSt.Epoch g |>
                       <| MLSGroupState.ChainHash := MirrorGroupSt.ChainHash g |>
         end |>.
Definition mirror_members (spec : MirrorSpec.t) (now : time) : list ConversationMember.t :=
  let row := ConversationMember.zero <| ConversationMember.Role := RoleUser |> <| ConversationMember.JoinedAt := now |> in
  (row <| ConversationMember.UserID := MirrorSpec.LocalUserID spec |>)
  :: ((fun rm => row <| ConversationMember.UserID := RemoteMember.UserID rm |>
                     <| ConversationMember.Domain := RemoteMember.Domain rm |>
                     <| ConversationMember.DisplayName := RemoteMember.DisplayName rm |>
                     <| ConversationMember.Username := RemoteMember.Username rm |>) <$> MirrorSpec.RemoteMembers spec).

Definition ProvisionMirror (hubDomain : string) (spec : MirrorSpec.t) (k : result conv_err unit → handler) : handler :=
  do! r := get_conversation (MirrorSpec.ConversationID spec) in
  match r with
  | Ok _ => k (Ok tt)
  | Err _ =>
      do! r := checkMirrorSpec hubDomain spec in
      match r with
      | Err e => k (Err e)
      | Ok _ =>
          do! now := time_now in
          do! r := store_call (fun m env => CreateConversation m (Env.fresh env)
                     (mirror_conversation hubDomain spec now) (mirror_members spec now)) in
          k (match r with Ok _ => Ok tt | Err e => Err (StoreFailed e) end)
      end
  end.

Definition DeleteMirror (fromDomain conversationID : string) (k : result conv_err unit → handler) : handler :=
  do! r := get_conversation conversationID in
  match r with
  | Err _ => k (Ok tt)
  | Ok conv =>
      do! r := get_members conversationID in
      match r with
      | Err e => k (Err (StoreFailed e))
      | Ok members =>
          if negb (peerInConversation conv members fromDomain) then k (Ok tt)
          else
            do! r := store_call (fun m _ => DeleteConversation m conversationID) in
            match r with
            | Err e => k (Err (StoreFailed e))
            | Ok _ =>
                publish (Event.zero <| Event.ConversationID := conversationID |> <| Event.ConversationDeleted := true |>
                           <| Event.Recipients := ConversationMember.UserID <$> members |>) (k (Ok tt))
            end
      end
  end.

(** The verified batch of a commit, applied as one. *)
Definition applyRelayedCommit conv (hubDomain : string) (batch : list RelayedMessage.t) (commit : RelayedMessage.t)
  (k : result conv_err unit → handler) : handler :=
  do! r := get_group (Conversation.ID conv) in
  match r with
  | Err e => k (Err (StoreFailed e))
  | Ok state =>
      let expected := Link (MLSGroupState.ChainHash state) (RelayedMessage.MLSEpoch commit)
                        (RelayedMessage.MLSGroupID commit) (RelayedMessage.Ciphertext commit) in
      if negb (expected == RelayedMessage.ChainHash commit) then k (Err errChainMismatch)
      else if negb (verifyHubSig hubDomain (RelayedMessage.ChainHash commit) (RelayedMessage.ChainSig commit))
      then k (Err errChainUnsigned)
      else
        do! r := commit_group (Conversation.ID conv) (RelayedMessage.MLSGroupID commit)
                   (wrap64 (RelayedMessage.MLSEpoch commit - 1)) (fromRelayed (Conversation.ID conv) <$> batch) in
        match r with
        | inl e => k (Err (StoreFailed e))
        | inr res =>
            match cr_err res with
            | Some ErrEpochConflict => k (Ok tt)
            | Some e => k (Err (StoreFailed (Known e)))
            | None => for_each (cr_stored res) (publishLocal (Conversation.ID conv)) (k (Ok tt))
            end
        end
  end.

Definition DeliverRelayed (hubDomain conversationID : string) (msgs : list RelayedMessage.t)
  (k : result conv_err unit → handler) : handler :=
  do! r := get_conversation conversationID in
  match r with
  | Err _ => k (Err errNoMirror)
  | Ok conv =>
      if Conversation.HubDomain conv != hubDomain then k (Err errNoMirror)
      else match find_commit msgs with
      | Some commit => applyRelayedCommit conv hubDomain msgs commit k
      | None =>
          for_each msgs (fun rm k =>
            do! r := append_message (fromRelayed conversationID rm) in
            match r with Err _ => k | Ok stored => publishLocal conversationID stored k end) (k (Ok tt))
      end
  end.

Definition SubmitMessage (fromDomain : string) (s : SubmittedMessage.t) (k : result conv_err RelayedMessage.t → handler)
  : handler :=
  let id := SubmittedMessage.ConversationID s in
  do! r := get_conversation id in
  match r with
  | Err _ => k (Err errNotHub)
  | Ok conv =>
      if IsMirror conv then k (Err errNotHub)
      else
        do! ok := isMemberFromHost id (SubmittedMessage.SenderID s) fromDomain in
        if negb ok then k (Err errNotMember)
        else
          do! now := time_now in
          do! r := append_message (ChatMessage.mk "" id (SubmittedMessage.SenderID s) (SubmittedMessage.Ciphertext s)
                     (SubmittedMessage.ContentType s) now 0 "" 0 "") in
          match r with
          | Err e => k (Err (StoreFailed e))
          | Ok stored =>
              publishLocal id stored (relayExcept conv fromDomain [stored] (k (Ok (toRelayed fromDomain stored))))
          end
  end.

Definition SubmitCommit (fromDomain : string) (s : SubmittedCommit.t) (k : result conv_err CommitResult.t → handler)
  : handler :=
  let id := SubmittedCommit.ConversationID s in
  do! r := get_conversation id in
  match r with
  | Err _ => k (Err errNotHub)
  | Ok conv =>
      if IsMirror conv then k (Err errNotHub)
      else
        do! ok := isMemberFromHost id (SubmittedCommit.SenderID s) fromDomain in
        if negb ok then k (Err errNotMember)
        else
          let epoch := wrap64 (SubmittedCommit.BaseEpoch s + 1) in
          do! now := time_now in
          let msgs := control_messages id (SubmittedCommit.SenderID s) (SubmittedCommit.GroupID s)
                        (SubmittedCommit.Welcome s) (SubmittedCommit.Commit s) epoch now in
          do! r := commit_group id (SubmittedCommit.GroupID s) (SubmittedCommit.BaseEpoch s) msgs in
          match r with
          | inl e => k (Err (StoreFailed e))
          | inr res =>
              match cr_err res with
              | Some ErrEpochConflict =>
                  k (Ok (CommitResult.mk "conflict" (MLSGroupState.Epoch (cr_state res))
                           (MLSGroupState.GroupID (cr_state res)) "" ""))
              | Some e => k (Err (StoreFailed (Known e)))
              | None =>
                  for_each (cr_stored res) (publishLocal id)
                    (relayExcept conv fromDomain (cr_stored res)
                       (let hash := commitChainHashOf (cr_stored res) in
                        k (Ok (CommitResult.mk "accepted" epoch (SubmittedCommit.GroupID s) hash (sign_link hash)))))
              end
          end
  end.

(** *** Receipts *)

Definition applyReceipt (s : ReceiptUpdate.t) (k : result conv_err unit → handler) : handler :=
  do! r := store_call (fun m _ => SetConversationReceipt m (ReceiptUpdate.ConversationID s) (ReceiptUpdate.UserID s)
             (ReceiptUpdate.DeliveredSeq s) (ReceiptUpdate.ReadSeq s)) in
  match r with
  | Err e => k (Err (StoreFailed e))
  | Ok receipt =>
      if ConvFederation.Live c
      then publish (Event.zero <| Event.ConversationID := ReceiptUpdate.ConversationID s |>
                      <| Event.Receipt := Some receipt |>) (k (Ok tt))
      else k (Ok tt)
  end.

Definition relayReceipt conv (except : string) (s : ReceiptUpdate.t) (k : handler) : handler :=
  if negb (ConvFederation.Peers c) then k
  else
    do! hosts := participantHosts (Conversation.ID conv) in
    for_each hosts (fun host k => if host == except then k else tell (RelayReceiptToPeer host s) k) k.

Definition SubmitReceipt (fromDomain : string) (s : ReceiptUpdate.t) (k : result conv_err unit → handler) : handler :=
  do! r := get_conversation (ReceiptUpdate.ConversationID s) in
  match r with
  | Err _ => k (Err errNotHub)
  | Ok conv =>
      if IsMirror conv then k (Err errNotHub)
      else
        do! ok := isMemberFromHost (ReceiptUpdate.ConversationID s) (ReceiptUpdate.UserID s) fromDomain in
        if negb ok then k (Err errNotMember)
        else
          do! r := applyReceipt s in
          match r with
          | Err e => k (Err e)
          | Ok _ => relayReceipt conv fromDomain s (k (Ok tt))
          end
  end.

Definition DeliverReceipt (hubDomain : string) (s : ReceiptUpdate.t) (k : result conv_err unit → handler) : handler :=
  do! r := get_conversation (ReceiptUpdate.ConversationID s) in
  match r with
  | Err _ => k (Err errNoMirror)
  | Ok conv => if Conversation.HubDomain conv != hubDomain then k (Err errNoMirror) else applyReceipt s k
  end.

(** *** Calls *)

Definition nudgeCall (convID callID fromUID : string) (seq : Z) (k : handler) : handler :=
  if negb (ConvFederation.Live c) then k
  else
    do! r := get_members convID in
    match r with
    | Err _ => k
    | Ok members =>
        publish (Event.zero <| Event.ConversationID := convID |>
                   <| Event.Recipients := ConversationMember.UserID <$> members |>
                   <| Event.CallSignal := Some (CallSignal.mk callID seq fromUID) |>) k
    end.

(** [RingForCall] is the [callRinger] the service is given. *)
Definition DeliverCallSignal (RingForCall : string → string → string → bool → handler → handler)
  (fromDomain : string) (s : CallSignalRelay.t) (k : result conv_err unit → handler) : handler :=
  let id := CallSignalRelay.ConversationID s in
  if negb (ConvFederation.Mailbox c) then k (Err errNoCalling)
  else
    do! r := get_conversation id in
    match r with
    | Err _ => k (Err errNotMember)
    | Ok _ =>
        do! ok := isMemberFromHost id (CallSignalRelay.FromUserID s) fromDomain in
        if negb ok then k (Err errNotMember)
        else
          do! r := mailbox_call (fun m now => Append m now (callKey id (CallSignalRelay.CallID s))
                     (CallSignalRelay.Ciphertext s)) in
          match r with
          | None => k (Err MailboxFailed)
          | Some signal =>
              nudgeCall id (CallSignalRelay.CallID s) (CallSignalRelay.FromUserID s) (Signal.Seq signal)
                (if (CallSignalRelay.Ring s || CallSignalRelay.Cancel s) && ConvFederation.Ringer c
                 then RingForCall id (CallSignalRelay.FromUserID s) (CallSignalRelay.CallID s) (CallSignalRelay.Cancel s)
                        (k (Ok tt))
                 else k (Ok tt))
          end
    end.

Definition DeliverCallNudge (fromDomain : string) (s : CallNudge.t) (k : result conv_err unit → handler) : handler :=
  do! r := get_conversation (CallNudge.ConversationID s) in
  match r with
  | Err _ => k (Err errNotMember)
  | Ok _ => nudgeCall (CallNudge.ConversationID s) (CallNudge.CallID s) (CallNudge.FromUserID s) 0 (k (Ok tt))
  end.

Definition TurnCredentials (fromDomain conversationID : string) (k : result conv_err TurnGrant.t → handler) : handler :=
  do! r := get_members conversationID in
  match r with
  | Err _ => k (Err errNotMember)
  | Ok members =>
      if negb (existsb (fun m => ConversationMember.Domain m == fromDomain) members) then k (Err errNotMember)
      else
        let urls := turnURLsOf (ICEConfig.URLs (ConvFederation.ICE c)) in
        match urls with
        | [] => k (Ok TurnGrant.zero)
        | _ =>
            do! now := time_now in
            let '(username, credential) :=
              turnCredential (ICEConfig.Secret (ConvFederation.ICE c)) (now + ICEConfig.TTL (ConvFederation.ICE c)) in
            k (Ok (TurnGrant.mk urls username credential))
        end
  end.

(** ** What this host asks of others *)

Definition RelayCallSignal (s : CallSignalRelay.t) (k : handler) : handler :=
  if negb (ConvFederation.Peers c) then k
  else
    do! hosts := participantHosts (CallSignalRelay.ConversationID s) in
    for_each hosts (fun host => tell (RelayCallSignalToPeer host s)) k.

Definition RelayCallNudge (s : CallNudge.t) (k : handler) : handler :=
  if negb (ConvFederation.Peers c) then k
  else
    do! hosts := participantHosts (CallNudge.ConversationID s) in
    for_each hosts (fun host => tell (RelayCallNudgeToPeer host s)) k.

Definition ClaimRemoteKeyPackages (homeDomain userID : string) (k : result peer_err (list ClaimedKeyPackage.t) → handler)
  : handler :=
  if negb (ConvFederation.Peers c) then k (Ok []) else peer_do (ClaimRemoteKeyPackagesFrom homeDomain userID) k.

(** The loop over the hosts, with the grants so far. *)
Fixpoint collect_turn (conversationID : string) (hosts : list string) (grants : list TurnGrant.t)
  (k : list TurnGrant.t → handler) : handler :=
  match hosts with
  | [] => k grants
  | host :: hosts =>
      peer_do (RequestTurnFromPeer host conversationID) (fun r =>
        match r with
        | Err _ => collect_turn conversationID hosts grants k
        | Ok grant => collect_turn conversationID hosts
                        (match TurnGrant.URLs grant with [] => grants | _ => grants ++ [grant] end) k
        end)
  end.
Definition RemoteTurn (conversationID : string) (k : list TurnGrant.t → handler) : handler :=
  if negb (ConvFederation.Peers c) then k []
  else
    do! hosts := participantHosts conversationID in
    collect_turn conversationID hosts [] k.

Definition ReportReceipt conv (s : ReceiptUpdate.t) (k : handler) : handler :=
  if negb (ConvFederation.Peers c) then k
  else if IsMirror conv then tell (SubmitReceiptToHub (Conversation.HubDomain conv) s) k
  else relayReceipt conv "" s k.

(** The other hosts of a conversation, in any order. *)
Definition delete_peers conv members : gmap string unit :=
  let hub : gmap string unit :=
    if IsMirror conv && (Conversation.HubDomain conv != "")
       && (Conversation.HubDomain conv != ConvFederation.HostDomain c)
    then {[Conversation.HubDomain conv := tt]} else ∅ in
  foldl (fun peers m =>
    let d := ConversationMember.Domain m in
    if (d != "") && (d != ConvFederation.HostDomain c) then <[d := tt]> peers else peers) hub members.
Definition PropagateDelete conv members (k : handler) : handler :=
  if negb (ConvFederation.Peers c) then k
  else for_each (go_range (delete_peers conv members)).*1
         (fun d => tell (DeleteConversationOnPeer d (Conversation.ID conv))) k.

Definition ForwardMessage (hubDomain : string) (s : SubmittedMessage.t) (k : option RelayedMessage.t → handler)
  : handler :=
  do! r := peer_do (SubmitMessageToHub hubDomain s) in
  match r with
  | Err _ => k None
  | Ok echo =>
      do! r := append_message (fromRelayed (SubmittedMessage.ConversationID s) echo) in
      match r with
      | Err _ => k None
      | Ok stored => publishLocal (SubmittedMessage.ConversationID s) stored (k (Some echo))
      end
  end.

Definition ForwardCommit (hubDomain : string) (s : SubmittedCommit.t) (k : result conv_err CommitResult.t → handler)
  : handler :=
  let id := SubmittedCommit.ConversationID s in
  do! r := peer_do (SubmitCommitToHub hubDomain s) in
  match r with
  | Err e => k (Err (PeerFailed e))
  | Ok res =>
      if CommitResult.Status res != "accepted" then k (Ok res)
      else
        do! r := get_group id in
        match r with
        | Err e => k (Err (StoreFailed e))
        | Ok state =>
            let expected := Link (MLSGroupState.ChainHash state) (CommitResult.Epoch res) (SubmittedCommit.GroupID s)
                              (SubmittedCommit.Commit s) in
            if negb (expected == CommitResult.ChainHash res) then k (Err errChainMismatch)
            else if negb (verifyHubSig hubDomain (CommitResult.ChainHash res) (CommitResult.ChainSig res))
            then k (Err errChainUnsigned)
            else
              do! now := time_now in
              do! _ := commit_group id (SubmittedCommit.GroupID s) (SubmittedCommit.BaseEpoch s)
                         (control_messages id (SubmittedCommit.SenderID s) (SubmittedCommit.GroupID s)
                            (SubmittedCommit.Welcome s) (SubmittedCommit.Commit s) (CommitResult.Epoch res) now) in
              k (Ok res)
        end
  end.

Definition HostDomainFor (hostOrAlias : string) : string :=
  match ConvFederation.Aliases c with
  | None => hostOrAlias
  | Some domainForAlias => default hostOrAlias (domainForAlias (ToLower (TrimSpace hostOrAlias)))
  end.

Definition ResolveRemoteUser (remoteDomain username : string) (k : result peer_err RemoteUser.t → handler) : handler :=
  peer_do (ResolveRemoteUserAt remoteDomain username) k.

(** Everyone but one, as the other host is to see them. *)
Definition remote_member (profiles : gmap string User.t) (m : ConversationMember.t) : RemoteMember.t :=
  if ConversationMember.Domain m == "" then
    match profiles !! ConversationMember.UserID m with
    | Some u => RemoteMember.mk (ConversationMember.UserID m) (ConvFederation.HostDomain c) (User.DisplayName u)
                  (User.Username u)
    | None => RemoteMember.mk (ConversationMember.UserID m) (ConvFederation.HostDomain c)
                (ConversationMember.DisplayName m) (ConversationMember.Username m)
    end
  else RemoteMember.mk (ConversationMember.UserID m) (ConversationMember.Domain m)
         (ConversationMember.DisplayName m) (ConversationMember.Username m).
Definition remoteMembersExcept members (excludeUserID : string) (k : list RemoteMember.t → handler) : handler :=
  let others := filter (fun m => ConversationMember.UserID m ≠ excludeUserID) members in
  let localIDs := ConversationMember.UserID <$> filter (fun m => ConversationMember.Domain m = "") others in
  do! r := store_read (fun m => Ok (UsersByIDs m localIDs)) in
  let profiles := match r with Ok p => p | Err _ => ∅ end in
  k (remote_member profiles <$> others).

Definition ProvisionMirrorOn conv (mirrorLocalUserID peerDomain : string) (k : result conv_err unit → handler)
  : handler :=
  do! r := get_members (Conversation.ID conv) in
  match r with
  | Err e => k (Err (StoreFailed e))
  | Ok members =>
      do! remote := remoteMembersExcept members mirrorLocalUserID in
      let mls := Conversation.MLS conv in
      let spec := MirrorSpec.mk (Conversation.ID conv) (Conversation.Kind conv) (Conversation.Title conv)
                    (Conversation.DirectKey conv) mirrorLocalUserID remote
                    (if MLSGroupState.GroupID mls != ""
                     then Some (MirrorGroupSt.mk (MLSGroupState.GroupID mls) (MLSGroupState.Epoch mls)
                                  (MLSGroupState.ChainHash mls)) else None) in
      do! r := peer_do (ProvisionRemoteMirror peerDomain spec) in
      k (match r with Ok _ => Ok tt | Err e => Err (PeerFailed e) end)
  end.

Definition AddRemoteMember conv (remoteUserID remoteDomain displayName username : string)
  (k : result conv_err unit → handler) : handler :=
  do! now := time_now in
  do! r := store_call (fun m env => AddConversationMember m (Env.fresh env 0%nat)
             (ConversationMember.zero <| ConversationMember.ConversationID := Conversation.ID conv |>
                <| ConversationMember.UserID := remoteUserID |> <| ConversationMember.Domain := remoteDomain |>
                <| ConversationMember.DisplayName := displayName |> <| ConversationMember.Username := username |>
                <| ConversationMember.Role := RoleUser |> <| ConversationMember.JoinedAt := now |>)) in
  match r with
  | Err e => k (Err (StoreFailed e))
  | Ok _ => ProvisionMirrorOn conv remoteUserID remoteDomain k
  end.
End ConvFed.
