(* ===== verification/ChatConversations.v ===== *)
(** * Conversations and people

    [api/internal/chat/chat.go] and [list.go]: searching for people, starting a
    direct or a group conversation, and showing the conversations one is in,
    with [addTarget] of [messages.go], which resolves the name a person is
    given by. A request is its decoded body and its path and query values. *)

From S2P Require Import Prelude.
From S2P Require Import GoStrings.
From S2P Require Import Domain.
From S2P Require Import Threads.
From S2P Require Import Crypto.
From S2P Require Import Blob.
From S2P Require Import MlsChain.
From S2P Require Import Ident.
From S2P Require Import Nodelist.
From S2P Require Import StoreState.
From S2P Require Import StoreUsers.
From S2P Require Import StoreConversations.
From S2P Require Import PushNotify.
From S2P Require Import Peers.
From S2P Require Import ChatWorld.
From S2P Require Import ConvFed.

Definition minUserSearchLen : Z := 2.
Definition maxGroupMembers : nat := 200.

Module createConversationRequest.
Record t := mk { Kind : string; MemberIDs : list string; Title : string }.
End createConversationRequest.

Module resolvedTarget.
Record t := mk { localID : string; domain : string; displayName : string; username : string; remote : bool }.
Definition local (id : string) : t := mk id "" "" "" false.
End resolvedTarget.

(** What [addTarget] passes on: an error of the store or of the other host. *)
Inductive target_err : Type := TargetStore (e : failure store_err) | TargetPeer (e : peer_err).
Definition target_missing (e : target_err) : bool :=
  match e with TargetStore (Known ErrNotFound) | TargetPeer ErrRemoteUserNotFound => true | _ => false end.

(** [User.Ident] of [domain.go] *)
Definition User_Ident {U : Unicode} (u : User.t) (localDomain : string) : IdentID.t :=
  User_ (if User.Domain u == "" then localDomain else User.Domain u) (User.ID u).

Definition newLastChatMessageView (msg : ChatMessage.t) : lastChatMessageView.t :=
  lastChatMessageView.mk (ChatMessage.ID msg) (ChatMessage.SenderID msg) (ChatMessage.Ciphertext msg)
    (ChatMessage.ContentType msg) (ChatMessage.CreatedAt msg).

(** A member with the profile of this host's user, or what a remote member's
    row carries of theirs. *)
Definition member_view (users : gmap string User.t) (m : ConversationMember.t) : memberView.t :=
  let uid := ConversationMember.UserID m in
  memberView.mk m
    match users !! uid with
    | Some u => Public u
    | None =>
        if (ConversationMember.DisplayName m != "") || (ConversationMember.Username m != "")
        then PublicUser.mk uid (ConversationMember.Username m) (ConversationMember.DisplayName m) ""
        else PublicUser.mk uid "" "" ""
    end.

Section Conversations.
Context {B : Type} {BS : BlobStore B} {RO : RangeOrder} {U : Unicode} {NU : NetUrl} {E : Ed25519} {HM : Hmac}.
Context (h : Handler.t).
Abbreviation world := (World.t B).
Abbreviation handler := (prog world Env.t response).

(** ** People *)

Definition searchUsers (c : Caller.t) (q : string) : handler :=
  requireUser c (fun uid =>
    if rune_count q <? minUserSearchLen then Done (Reply 200 (BUsers []))
    else
      do! r := store_read (fun m => Ok (SearchUsers m q 20)) in
      match r with
      | Err _ => Done (Error 500 "search failed")
      | Ok users => Done (Reply 200 (BUsers (Public <$> filter (fun u => User.ID u ≠ uid) users)))
      end).

Definition getUserProfile (c : Caller.t) (id : string) : handler :=
  requireUser c (fun _ =>
    do! r := store_read (fun m => UserByID m id) in
    match r with
    | Err _ => Done (Error 404 "user not found")
    | Ok u => Done (Reply 200 (BProfile (PublicProfileOf u)))
    end).

(** ** Naming somebody *)

(** An identifier, a handle, or the id of a user of this host. *)
Definition addTarget (fed : ConvFederation.t) (raw : string) (k : result target_err resolvedTarget.t → handler)
  : handler :=
  let raw := TrimSpace raw in
  let bare := k (Ok (resolvedTarget.local raw)) in
  let handle :=
    match CutLast raw "@" with
    | Some (username, host) =>
        if (username == "") || (host == "") then bare
        else
          let domain := HostDomainFor fed host in
          if domain == Handler.HostDomain h then
            do! r := store_read (fun m => UserByUsername m (ToLower username)) in
            match r with
            | Err e => k (Err (TargetStore e))
            | Ok u => k (Ok (resolvedTarget.local (User.ID u)))
            end
          else
            do! r := ResolveRemoteUser domain username in
            match r with
            | Err e => k (Err (TargetPeer e))
            | Ok ru => k (Ok (resolvedTarget.mk (RemoteUser.UserID ru) domain (RemoteUser.DisplayName ru)
                                (RemoteUser.Username ru) true))
            end
    | None => bare
    end in
  match Parse raw with
  | Ok id =>
      if IdentID.Kind id == KindUser then
        k (Ok (if IsLocal id (Handler.HostDomain h) then resolvedTarget.local (IdentID.Local id)
               else resolvedTarget.mk (IdentID.Local id) (IdentID.Domain id) "" "" true))
      else handle
  | Err _ => handle
  end.

(** Federation is on and this host has a name. *)
Definition federated : option ConvFederation.t :=
  match Handler.Fed h with
  | Some fed => if Handler.HostDomain h != "" then Some fed else None
  | None => None
  end.

(** ** Starting a conversation *)

(** The key a direct conversation is filed under, and the one an older one may
    be filed under. *)
Definition directKeys (a b : User.t) : string * string :=
  let legacy := DirectKey (User.ID a) (User.ID b) in
  if Handler.HostDomain h == "" then (legacy, "")
  else (PairKey (User_Ident a (Handler.HostDomain h)) (User_Ident b (Handler.HostDomain h)), legacy).

(** The other participant, and whether they are another host's. *)
Definition resolve_other (name : string) (k : User.t → bool → handler) : handler :=
  let lookup id :=
    do! r := store_read (fun m => UserByID m id) in
    match r with Err _ => Done (Error 404 "user not found") | Ok u => k u false end in
  match federated with
  | Some fed =>
      do! r := addTarget fed name in
      match r with
      | Err e => Done (if target_missing e then Error 404 "user not found"
                       else Error 502 "could not reach the other host")
      | Ok tgt =>
          if resolvedTarget.remote tgt
          then k (User.zero <| User.ID := resolvedTarget.localID tgt |>
                    <| User.Domain := resolvedTarget.domain tgt |>
                    <| User.DisplayName := resolvedTarget.displayName tgt |>
                    <| User.Username := resolvedTarget.username tgt |>) true
          else lookup (resolvedTarget.localID tgt)
      end
  | None => lookup name
  end.

(** [if existing, err := ConversationByDirectKey(key); err == nil], which
    answers; otherwise go on. *)
Definition existing_direct (key : string) (k : handler) : handler :=
  do! r := store_read (fun m => ConversationByDirectKey m key) in
  match r with
  | Ok existing => Done (Reply 200 (BConversation existing))
  | Err _ => k
  end.

Definition direct_member (other : User.t) (remote : bool) (now : time) : ConversationMember.t :=
  let row := ConversationMember.zero <| ConversationMember.UserID := User.ID other |>
               <| ConversationMember.Role := RoleUser |> <| ConversationMember.JoinedAt := now |> in
  if remote
  then row <| ConversationMember.Domain := User.Domain other |>
         <| ConversationMember.DisplayName := User.DisplayName other |>
         <| ConversationMember.Username := User.Username other |>
  else row.

Definition new_member (uid role : string) (now : time) : ConversationMember.t :=
  ConversationMember.zero <| ConversationMember.UserID := uid |>
    <| ConversationMember.Role := role |> <| ConversationMember.JoinedAt := now |>.

(** A conversation across hosts that gets no mirror is taken back. *)
Definition provision_direct (created : Conversation.t) (other : User.t) (remote : bool) : handler :=
  let done := Done (Reply 201 (BConversation created)) in
  match Handler.Fed h with
  | Some fed =>
      if remote then
        do! r := ProvisionMirrorOn fed created (User.ID other) (User.Domain other) in
        match r with
        | Err _ =>
            do! _ := store_call (fun m _ => DeleteConversation m (Conversation.ID created)) in
            Done (Error 502 "could not reach the other host")
        | Ok _ => done
        end
      else done
  | None => done
  end.

Definition createDirect (uid : string) (req : createConversationRequest.t) : handler :=
  match createConversationRequest.MemberIDs req with
  | [name] =>
      do! r := store_read (fun m => UserByID m uid) in
      match r with
      | Err _ => Done (Error 404 "user not found")
      | Ok meUser =>
          resolve_other name (fun other remote =>
            if negb remote && (User.ID other == uid)
            then Done (Error 400 "cannot start a direct chat with yourself")
            else
              let '(key, legacy) := directKeys meUser other in
              existing_direct key
                ((if legacy != "" then existing_direct legacy else id)
                   (do! now := time_now in
                    let conv := Conversation.zero <| Conversation.Kind := ConversationDirect |>
                                  <| Conversation.CreatedBy := uid |> <| Conversation.DirectKey := key |>
                                  <| Conversation.CreatedAt := now |> in
                    do! r := store_call (fun m env => CreateConversation m (Env.fresh env) conv
                               [new_member uid RoleUser now; direct_member other remote now]) in
                    match r with
                    | Err _ => existing_direct key (Done (Error 500 "could not create conversation"))
                    | Ok created => provision_direct created other remote
                    end)))
      end
  | _ => Done (Error 400 "a direct chat needs exactly one other member")
  end.

(** The members of a new group, each looked up; [seen] has those listed. *)
Fixpoint group_members (ids : list string) (seen : gset string) (members : list ConversationMember.t)
  (k : list ConversationMember.t → handler) : handler :=
  match ids with
  | [] => k members
  | id :: ids =>
      if bool_decide (id ∈ seen) then group_members ids seen members k
      else
        do! r := store_read (fun m => UserByID m id) in
        match r with
        | Err _ => Done (Error 400 (String.append "member not found: " id))
        | Ok _ =>
            do! now := time_now in
            group_members ids ({[id]} ∪ seen) (members ++ [new_member id RoleUser now]) k
        end
  end.

Definition createGroup (uid : string) (req : createConversationRequest.t) : handler :=
  do! now := time_now in
  do! members := group_members (createConversationRequest.MemberIDs req) {[uid]} [new_member uid RoleAdmin now] in
  if bool_decide (maxGroupMembers < length members)%nat then Done (Error 400 "too many members")
  else
    do! now := time_now in
    let conv := Conversation.zero <| Conversation.Kind := ConversationGroup |>
                  <| Conversation.Title := createConversationRequest.Title req |>
                  <| Conversation.CreatedBy := uid |> <| Conversation.CreatedAt := now |> in
    do! r := store_call (fun m env => CreateConversation m (Env.fresh env) conv members) in
    match r with
    | Err _ => Done (Error 500 "could not create conversation")
    | Ok created => Done (Reply 201 (BConversation created))
    end.

Definition createConversation (c : Caller.t) (req : decoded createConversationRequest.t) : handler :=
  requireUser c (fun uid =>
    do! req := DecodeLimited req in
    let kind := createConversationRequest.Kind req in
    if kind == ConversationDirect then createDirect uid req
    else if kind == ConversationGroup then createGroup uid req
    else Done (Error 400 "kind must be 'direct' or 'group'")).

(** ** Showing conversations *)

(** A list that could not be read is nil, shown as one without elements. *)
Definition membersView (convID : string) (k : list memberView.t → handler) : handler :=
  do! r := store_read (fun m => Ok (ConversationMembers m convID)) in
  match r with
  | Err _ => k []
  | Ok members =>
      do! r := store_read (fun m => Ok (UsersByIDs m (ConversationMember.UserID <$> members))) in
      let users := match r with Ok us => us | Err _ => ∅ end in
      k (member_view users <$> members)
  end.

Definition last_messages (ids : list string) (k : gmap string ChatMessage.t → handler) : handler :=
  do! r := store_read (fun m => Ok (LastChatMessagesByConversations m ids)) in
  k (match r with Ok last => last | Err _ => ∅ end).

Definition view_of (conv : Conversation.t) (members : list memberView.t) (last : gmap string ChatMessage.t)
  : conversationView.t :=
  conversationView.mk conv members (newLastChatMessageView <$> last !! Conversation.ID conv).

Fixpoint conversation_views (convs : list Conversation.t) (last : gmap string ChatMessage.t)
  (out : list conversationView.t) (k : list conversationView.t → handler) : handler :=
  match convs with
  | [] => k out
  | conv :: convs =>
      do! members := membersView (Conversation.ID conv) in
      conversation_views convs last (out ++ [view_of conv members last]) k
  end.

Definition listConversations (c : Caller.t) : handler :=
  requireUser c (fun uid =>
    do! r := store_read (fun m => Ok (ConversationsForUser m uid)) in
    match r with
    | Err _ => Done (Error 500 "could not list conversations")
    | Ok convs =>
        do! last := last_messages (Conversation.ID <$> convs) in
        do! views := conversation_views convs last [] in
        Done (Reply 200 (BViews views))
    end).

Definition getConversation (c : Caller.t) (convID : string) : handler :=
  requireMember c convID (fun _ _ =>
  do! r := store_read (fun m => ConversationByID m convID) in
  match r with
  | Err _ => Done (Error 404 "conversation not found")
  | Ok conv =>
      do! members := membersView convID in
      do! last := last_messages [convID] in
      Done (Reply 200 (BView (conversationView.mk conv members (newLastChatMessageView <$> last !! convID))))
  end).

Definition listMembers (c : Caller.t) (convID : string) : handler :=
  requireMember c convID (fun _ _ =>
    do! members := membersView convID in
    Done (Reply 200 (BMembers members))).
End Conversations.
