(* ===== verification/ChatMessages.v ===== *)
(** * Messages, rosters and attachments

    [api/internal/chat/messages.go] and [attachments.go]: posting and reading
    messages, who is in a conversation and as what, receipts, and the sealed
    photos. *)

From S2P Require Import Prelude.
From S2P Require Import GoStrings.
From S2P Require Import Domain.
From S2P Require Import Threads.
From S2P Require Import Crypto.
From S2P Require Import Strconv.
From S2P Require Import Blob.
From S2P Require Import MlsChain.
From S2P Require Import Nodelist.
From S2P Require Import Ident.
From S2P Require Import StoreState.
From S2P Require Import StoreUsers.
From S2P Require Import StoreConversations.
From S2P Require Import Live.
From S2P Require Import Peers.
From S2P Require Import ChatWorld.
From S2P Require Import ChatPush.
From S2P Require Import ConvFed.
From S2P Require Import ChatConversations.

Definition maxCiphertextBytes : Z := 256 * 1024.
Definition maxAttachmentBytes : Z := Z.shiftl 10 20.

Module postMessageRequest.
Record t := mk { Ciphertext : bytes; ContentType : string }.
End postMessageRequest.

Module receiptRequest.
Record t := mk { DeliveredSeq : Z; ReadSeq : Z }.
End receiptRequest.

(** A query value that is to be a number between 1 and [max]. *)
Definition query_limit (value : string) (fallback max : Z) : Z :=
  match ParseInt value with
  | Some n => if (0 <? n) && (n <=? max) then n else fallback
  | None => fallback
  end.

Definition userIDsOf (members : list ConversationMember.t) : list string := ConversationMember.UserID <$> members.

(** What is written into a conversation about a change of its roster. *)
Definition membership_payload (actorID subjectID action : string) : bytes :=
  marshal_map (<["action" := action]> (<["actorId" := actorID]> (<["userId" := subjectID]> ∅))).

Section Messages.
Context {B : Type} {BS : BlobStore B} {RO : RangeOrder} {U : Unicode} {NU : NetUrl} {E : Ed25519} {HM : Hmac}.
Context (h : Handler.t).
Abbreviation world := (World.t B).
Abbreviation handler := (prog world Env.t response).
Implicit Types (c : Caller.t) (convID : string).

(** [h.Store.ConversationByID], when this host is federated: a conversation
    that cannot be read is not a reason to fail. *)
Definition relay_if_hub convID (f : ConvFederation.t → Conversation.t → handler → handler) (k : handler) : handler :=
  match Handler.Fed h with
  | None => k
  | Some fed =>
      do! r := get_conversation convID in
      match r with Err _ => k | Ok conv => f fed conv k end
  end.

Definition membersFor convID (k : list ConversationMember.t → handler) : handler :=
  do! r := get_members convID in
  k (match r with Ok members => members | Err _ => [] end).

Definition publish_message convID (msg : ChatMessage.t) (recipients : list string) (k : handler) : handler :=
  publish (Event.zero <| Event.ConversationID := convID |> <| Event.ChatMessage := Some msg |>
             <| Event.Recipients := recipients |>) k.
Definition publish_deleted convID (recipients : list string) (k : handler) : handler :=
  publish (Event.zero <| Event.ConversationID := convID |> <| Event.ConversationDeleted := true |>
             <| Event.Recipients := recipients |>) k.

(** ** Messages *)

Definition listMessages c convID (limit cursor : string) : handler :=
  requireMember c convID (fun _ member =>
    let limit := query_limit limit 50 200 in
    do! r := store_read (fun m =>
               Ok (ChatMessagesByConversation m convID cursor limit (ConversationMember.ClearedAt member))) in
    match r with
    | Err _ => Done (Error 500 "could not load messages")
    | Ok msgs =>
        let next := if Z.of_nat (length msgs) =? limit
                    then match last msgs with Some msg => ChatMessage.ID msg | None => "" end else "" in
        Done (Reply 200 (BMessages msgs next))
    end).

(** The end of [postMessage]: this host orders the conversation. *)
Definition post_native (uid convID : string) (ciphertext : bytes) (contentType : string) : handler :=
  do! now := time_now in
  do! r := append_message (ChatMessage.mk "" convID uid ciphertext contentType now 0 "" 0 "") in
  match r with
  | Err _ => Done (Error 500 "could not send message")
  | Ok msg =>
      relay_if_hub convID (fun fed conv => RelayAppended fed conv (Handler.HostDomain h) [msg])
        (do! members := membersFor convID in
         publish_message convID msg (userIDsOf members)
           (notifyMembers h convID uid msg members (Done (Reply 201 (BMessage msg)))))
  end.

Definition postMessage c convID (req : decoded postMessageRequest.t) : handler :=
  requireMember c convID (fun uid _ =>
    do! req := DecodeLimited req in
    let ciphertext := postMessageRequest.Ciphertext req in
    if slen ciphertext =? 0 then Done (Error 400 "ciphertext is required")
    else if maxCiphertextBytes <? slen ciphertext then Done (Error 413 "message too large")
    else
      let contentType := if postMessageRequest.ContentType req == "" then "application/octet-stream"
                         else postMessageRequest.ContentType req in
      if (contentType == ContentTypeMLSWelcome) || (contentType == ContentTypeMLSCommit)
      then Done (Error 400 "post MLS commits to /mls/commit")
      else match Handler.Fed h with
      | None => post_native uid convID ciphertext contentType
      | Some fed =>
          do! r := get_conversation convID in
          match r with
          | Err _ => Done (Error 500 "could not send message")
          | Ok conv =>
              if IsMirror conv then
                do! r := ForwardMessage fed (Conversation.HubDomain conv)
                           (SubmittedMessage.mk convID uid ciphertext contentType) in
                match r with
                | None => Done (Error 502 "could not reach the conversation hub")
                | Some echo => Done (Reply 201 (BMessage (fromRelayed convID echo)))
                end
              else post_native uid convID ciphertext contentType
          end
      end).

(** ** The roster *)

(** The note is best effort. *)
Definition recordMembershipChange convID (actorID subjectID action : string) (k : handler) : handler :=
  do! now := time_now in
  do! r := append_message (ChatMessage.mk "" convID actorID (membership_payload actorID subjectID action)
             ContentTypeMembership now 0 "" 0 "") in
  match r with
  | Err _ => k
  | Ok msg => publish_message convID msg [] k
  end.

(** A user of this host joins. *)
Definition add_local convID (actorID userID : string) : handler :=
  do! r := store_read (fun m => UserByID m userID) in
  match r with
  | Err _ => Done (Error 404 "user not found")
  | Ok _ =>
      do! now := time_now in
      do! r := store_call (fun m env => AddConversationMember m (Env.fresh env 0%nat)
                 ((new_member userID RoleUser now) <| ConversationMember.ConversationID := convID |>)) in
      match r with
      | Err _ => Done (Error 500 "could not add member")
      | Ok added => recordMembershipChange convID actorID userID "added" (Done (Reply 201 (BMember added)))
      end
  end.

(** A user of another host joins; [name] is what the request calls them. *)
Definition add_remote (fed : ConvFederation.t) (conv : Conversation.t) convID (actorID name : string)
  (tgt : resolvedTarget.t) : handler :=
  if IsMirror conv then Done (Error 409 "add remote members on the conversation's hub")
  else
    do! r := AddRemoteMember fed conv (resolvedTarget.localID tgt) (resolvedTarget.domain tgt)
               (resolvedTarget.displayName tgt) (resolvedTarget.username tgt) in
    match r with
    | Err _ => Done (Error 502 "could not add the remote member's host")
    | Ok _ =>
        do! r := get_membership convID (resolvedTarget.localID tgt) in
        match r with
        | Err _ => Done (Error 500 "could not add member")
        | Ok added => recordMembershipChange convID actorID name "added" (Done (Reply 201 (BMember added)))
        end
    end.

Definition addMember c convID (userID : decoded string) : handler :=
  requireMember c convID (fun _ member =>
    do! r := get_conversation convID in
    match r with
    | Err _ => Done (Error 404 "conversation not found")
    | Ok conv =>
        if Conversation.Kind conv != ConversationGroup then Done (Error 400 "cannot add members to a direct chat")
        else if ConversationMember.Role member != RoleAdmin then Done (Error 403 "only a group admin can add members")
        else
          do! name := DecodeLimited userID in
          let actor := ConversationMember.UserID member in
          match federated h with
          | Some fed =>
              do! r := addTarget h fed name in
              match r with
              | Err e => Done (if target_missing e then Error 404 "user not found"
                               else Error 502 "could not reach the remote host")
              | Ok tgt =>
                  if resolvedTarget.remote tgt then add_remote fed conv convID actor name tgt
                  else add_local convID actor (resolvedTarget.localID tgt)
              end
          | None => add_local convID actor name
          end
    end).

Definition removeMember c convID (target : string) : handler :=
  requireMember c convID (fun _ member =>
    let self := target == ConversationMember.UserID member in
    if negb self && (ConversationMember.Role member != RoleAdmin)
    then Done (Error 403 "only a group admin can remove members")
    else
      do! r := store_call (fun m _ => RemoveConversationMember m convID target) in
      match r with
      | Err _ => Done (Error 404 "member not found")
      | Ok _ =>
          recordMembershipChange convID (ConversationMember.UserID member) target (if self then "left" else "removed")
            (publish_deleted convID [target] (Done NoContent))
      end).

Definition setMemberRole c convID (target : string) (role : decoded string) : handler :=
  requireMember c convID (fun _ member =>
    if ConversationMember.Role member != RoleAdmin then Done (Error 403 "only a group admin can change roles")
    else
      do! r := get_conversation convID in
      match r with
      | Err _ => Done (Error 404 "conversation not found")
      | Ok conv =>
          if Conversation.Kind conv != ConversationGroup then Done (Error 400 "a direct chat has no roles")
          else
            do! role := DecodeLimited role in
            if (role != RoleAdmin) && (role != RoleUser) then Done (Error 400 "role must be 'admin' or 'user'")
            else
              do! r := store_call (fun m _ => SetConversationMemberRole m convID target role) in
              match r with
              | Err _ => Done (Error 404 "member not found")
              | Ok _ => Done NoContent
              end
      end).

(** ** Receipts and history *)

Definition reportReceipt c convID (req : decoded receiptRequest.t) : handler :=
  requireMember c convID (fun uid _ =>
    do! req := DecodeLimited req in
    let delivered := receiptRequest.DeliveredSeq req in
    let read := receiptRequest.ReadSeq req in
    if (delivered <=? 0) && (read <=? 0) then Done (Error 400 "deliveredSeq or readSeq is required")
    else
      let delivered := if delivered <? read then read else delivered in
      do! r := store_call (fun m _ => SetConversationReceipt m convID uid delivered read) in
      match r with
      | Err _ => Done (Error 500 "could not record receipt")
      | Ok receipt =>
          publish (Event.zero <| Event.ConversationID := convID |> <| Event.Receipt := Some receipt |>)
            (relay_if_hub convID (fun fed conv =>
                 ReportReceipt fed conv
                   (ReceiptUpdate.mk convID uid (ConversationReceipt.DeliveredSeq receipt)
                      (ConversationReceipt.ReadSeq receipt)))
               (Done (Reply 200 (BReceipt receipt))))
      end).

Definition clearMessages c convID : handler :=
  requireMember c convID (fun uid _ =>
    do! now := time_now in
    do! r := store_call (fun m _ => ClearConversationHistory m convID uid now) in
    match r with
    | Err _ => Done (Error 500 "could not clear history")
    | Ok _ => Done NoContent
    end).

(** ** Attachments *)

(** [io.ReadAll(http.MaxBytesReader(w, r.Body, max+1))]: a body that ends
    before the ceiling, [None] when it does not or breaks off. *)
Definition read_body (body : option bytes) (max : Z) : option bytes :=
  match body with
  | Some data => if max + 1 <? slen data then None else Some data
  | None => None
  end.

Definition uploadAttachment c convID (body : option bytes) : handler :=
  requireMember c convID (fun _ _ =>
    if negb (Handler.Blobs h) then Done (Error 503 "attachments are not available")
    else match read_body body maxAttachmentBytes with
    | None => Done (Error 413 "that photo is too large")
    | Some data =>
        if slen data =? 0 then Done (Error 400 "empty attachment")
        else if maxAttachmentBytes <? slen data then Done (Error 413 "that photo is too large")
        else
          do! r := blob_put data in
          match r with
          | Err _ => Done (Error 500 "could not store that photo")
          | Ok blobID =>
              do! r := store_call (fun m env => CreateAttachment m (Env.clock env)
                         (Attachment.zero <| Attachment.ID := blobID |> <| Attachment.ConversationID := convID |>
                            <| Attachment.Size := slen data |>)) in
              match r with
              | Err _ => do! _ := blob_delete blobID in Done (Error 500 "could not store that photo")
              | Ok _ => Done (Reply 201 (BID blobID))
              end
          end
    end).

Definition getAttachment c convID (attID : string) : handler :=
  requireMember c convID (fun _ _ =>
    if negb (Handler.Blobs h) then Done (Error 503 "attachments are not available")
    else
      do! r := store_read (fun m => GetAttachment m attID) in
      match r with
      | Err _ => Done (Error 404 "no such photo")
      | Ok att =>
          if Attachment.ConversationID att != convID then Done (Error 404 "no such photo")
          else
            do! r := blob_fetch attID in
            match r with
            | Err (Known ErrBlobNotFound) => Done (Error 404 "no such photo")
            | Err _ => Done (Error 500 "could not fetch that photo")
            | Ok (data, _) => Done (Reply 200 (BBytes data))
            end
      end).

Definition deleteConversationAttachments convID (k : handler) : handler :=
  if negb (Handler.Blobs h) then k
  else
    do! r := store_read (fun m => Ok (ListAttachmentIDs m convID)) in
    match r with
    | Err _ => k
    | Ok ids =>
        for_each ids (fun id k => do! _ := blob_delete id in k)
          (do! _ := store_call (fun m _ => DeleteAttachments m convID) in k)
    end.

(** ** The end of a conversation *)

Definition deleteConversation c convID : handler :=
  requireMember c convID (fun _ member =>
    do! r := get_conversation convID in
    match r with
    | Err _ => Done (Error 404 "conversation not found")
    | Ok conv =>
        if (Conversation.Kind conv == ConversationGroup) && (ConversationMember.Role member != RoleAdmin)
        then Done (Error 403 "only a group admin can delete the group")
        else
          do! r := get_members convID in
          match r with
          | Err _ => Done (Error 500 "could not delete conversation")
          | Ok members =>
              deleteConversationAttachments convID
                (do! r := store_call (fun m _ => DeleteConversation m convID) in
                 match r with
                 | Err _ => Done (Error 500 "could not delete conversation")
                 | Ok _ =>
                     (match Handler.Fed h with
                      | Some fed => PropagateDelete fed conv members
                      | None => id
                      end) (publish_deleted convID (userIDsOf members) (Done NoContent))
                 end)
          end
    end).
End Messages.
