(* ===== verification/ChatMls.v ===== *)
(** * The group behind a conversation

    [api/internal/chat/mlsgroup.go] and [mlshistory.go]: the endpoints through
    which members agree on one MLS group and one order of its commits, and hand
    each other sealed history. *)

From S2P Require Import Prelude.
From S2P Require Import GoStrings.
From S2P Require Import Domain.
From S2P Require Import Threads.
From S2P Require Import Crypto.
From S2P Require Import Strconv.
From S2P Require Import Blob.
From S2P Require Import MlsChain.
From S2P Require Import MlsWire.
From S2P Require Import StoreState.
From S2P Require Import StoreConversations.
From S2P Require Import StoreMls.
From S2P Require Import Push.
From S2P Require Import Live.
From S2P Require Import Peers.
From S2P Require Import ChatWorld.
From S2P Require Import ConvFed.
From S2P Require Import ChatMessages.

Module mlsGroupInfoRequest.
Record t := mk { GroupID : string; Epoch : Z; GroupInfo : bytes }.
End mlsGroupInfoRequest.

Module mlsCommitRequest.
Record t := mk { GroupID : string; BaseEpoch : Z; Welcome : bytes; Commit : bytes; Removes : list string }.
End mlsCommitRequest.

Definition maxHistoryBlobBytes : Z := 128 * 1024 * 1024.

(** A history blob is bound to its conversation by its id. *)
Definition historyID (convID blobID : string) : string := String.append convID (String "." blobID).

Definition splitHistoryID (convID id : string) : option string :=
  match strip_prefix (String.append convID ".") id with
  | Some blobID => if blobID == "" then None else Some blobID
  | None => None
  end.

(** What the commit says of itself, where it can be read. *)
Definition commit_claims (commit : bytes) (baseEpoch : Z) : result response unit :=
  match ParseHandshake commit with
  | Ret parsed _ =>
      if Handshake.ContentType parsed != ContentTypeCommit then Err (Error 400 "handshake is not a commit")
      else if wrap64 (Handshake.Epoch parsed) != baseEpoch
      then Err (Error 400 "commit epoch does not match baseEpoch")
      else Ok tt
  | _ => Ok tt
  end.

Definition group_state (groupID : string) (epoch : Z) : MLSGroupState.t :=
  MLSGroupState.zero <| MLSGroupState.GroupID := groupID |> <| MLSGroupState.Epoch := epoch |>.

Section Mls.
Context {B : Type} {BS : BlobStore B} {RO : RangeOrder} {U : Unicode} {E : Ed25519} {HM : Hmac}.
Context (h : Handler.t).
Abbreviation world := (World.t B).
Abbreviation handler := (prog world Env.t response).
Implicit Types (c : Caller.t) (convID : string).

Definition getMLSGroup c convID : handler :=
  requireMember c convID (fun _ _ =>
    do! r := get_group convID in
    match r with
    | Err _ => Done (Error 404 "conversation not found")
    | Ok state => Done (Reply 200 (BGroup state))
    end).

Definition postMLSGroupInfo c convID (req : decoded mlsGroupInfoRequest.t) : handler :=
  requireMember c convID (fun _ _ =>
    do! req := DecodeLimited req in
    let info := mlsGroupInfoRequest.GroupInfo req in
    if mlsGroupInfoRequest.GroupID req == "" then Done (Error 400 "groupId is required")
    else if (slen info =? 0) || (maxCiphertextBytes <? slen info) then Done (Error 400 "groupInfo is required")
    else if mlsGroupInfoRequest.Epoch req <? 0 then Done (Error 400 "epoch must not be negative")
    else
      do! r := store_call (fun m _ => SetMLSGroupInfo m convID (mlsGroupInfoRequest.GroupID req)
                 (mlsGroupInfoRequest.Epoch req) info) in
      match r with
      | Err _ => Done (Error 500 "could not store group info")
      | Ok _ => Done NoContent
      end).

Definition getMLSGroupInfo c convID : handler :=
  requireMember c convID (fun _ _ =>
    do! r := store_read (fun m => MLSGroupInfo_ m convID) in
    match r with
    | Err (Known ErrNotFound) => Done (Error 404 "no group info published yet")
    | Err _ => Done (Error 500 "could not load group info")
    | Ok gi => Done (Reply 200 (BGroupInfo gi))
    end).

Definition listMLSCommits c convID (since : string) : handler :=
  requireMember c convID (fun _ _ =>
    let load since :=
      do! r := get_group convID in
      match r with
      | Err _ => Done (Error 500 "could not load commits")
      | Ok state =>
          do! r := store_read (fun m => Ok (MLSControlMessagesSince m convID (MLSGroupState.GroupID state) since)) in
          match r with
          | Err _ => Done (Error 500 "could not load commits")
          | Ok msgs => Done (Reply 200 (BControl msgs))
          end
      end in
    if since == "" then load 0
    else match ParseInt since with
    | Some n => if n <? 0 then Done (Error 400 "since must be a non-negative epoch") else load n
    | None => Done (Error 400 "since must be a non-negative epoch")
    end).

Definition listHistoryOffers c convID (limit : string) : handler :=
  requireMember c convID (fun _ _ =>
    do! r := store_read (fun m => Ok (MLSHistoryOffers m convID (query_limit limit 20 50))) in
    match r with
    | Err _ => Done (Error 500 "could not load history offers")
    | Ok offers => Done (Reply 200 (BControl offers))
    end).

Definition mayRemove convID (member : ConversationMember.t) (removes : list string) (k : bool → handler) : handler :=
  match removes with
  | [] => k true
  | _ =>
      do! r := get_conversation convID in
      k (match r with
         | Err _ => false
         | Ok conv =>
             (Conversation.Kind conv != ConversationGroup) || (ConversationMember.Role member == RoleAdmin)
             || forallb (fun uid => uid == ConversationMember.UserID member) removes
         end)
  end.

Definition postMLSReset c convID : handler :=
  requireMember c convID (fun uid _ =>
    let reset :=
      do! r := store_call (fun m _ => ResetMLSGroup m convID) in
      match r with
      | Err _ => Done (Error 500 "could not reset the group")
      | Ok state => Done (Reply 200 (BGroup state))
      end in
    if Handler.Limiter h then
      do! allowed := limiter_allows (String.append "mlsreset:" uid) in
      if negb allowed then Done (Error 429 "slow down") else reset
    else reset).

(** The commits of a conversation, counted. *)
Definition observe_commit convID (now : time) (k : handler) : handler :=
  Act (fun w _ => (w <| World.storm := (Observe (World.storm w) convID now).1 |>, tt)) (fun _ => k).

(** The end of [postMLSCommit]: this host orders the conversation. *)
Definition commit_native (uid convID : string) (req : mlsCommitRequest.t) : handler :=
  do! now := time_now in
  let epoch := wrap64 (mlsCommitRequest.BaseEpoch req + 1) in
  let msgs := control_messages convID uid (mlsCommitRequest.GroupID req) (mlsCommitRequest.Welcome req)
                (mlsCommitRequest.Commit req) epoch now in
  do! r := commit_group convID (mlsCommitRequest.GroupID req) (mlsCommitRequest.BaseEpoch req) msgs in
  match r with
  | inl _ => Done (Error 500 "could not commit")
  | inr res =>
      match cr_err res with
      | Some ErrEpochConflict => Done (Reply 409 (BGroup (cr_state res)))
      | Some _ => Done (Error 500 "could not commit")
      | None =>
          for_each (cr_stored res) (fun msg => publish_message convID msg [])
            (relay_if_hub h convID (fun fed conv => RelayAppended fed conv (Handler.HostDomain h) (cr_stored res))
               (observe_commit convID now (Done (Reply 200 (BGroup (cr_state res))))))
      end
  end.

(** This host is a mirror: the hub orders the conversation. *)
Definition commit_forward (fed : ConvFederation.t) (conv : Conversation.t) (uid convID : string)
  (req : mlsCommitRequest.t) : handler :=
  do! r := ForwardCommit fed (Conversation.HubDomain conv)
             (SubmittedCommit.mk convID uid (mlsCommitRequest.GroupID req) (mlsCommitRequest.BaseEpoch req)
                (mlsCommitRequest.Welcome req) (mlsCommitRequest.Commit req)) in
  match r with
  | Err _ => Done (Error 502 "could not reach the conversation hub")
  | Ok res =>
      let state := group_state (CommitResult.GroupID res) (CommitResult.Epoch res) in
      Done (Reply (if CommitResult.Status res == "conflict" then 409 else 200) (BGroup state))
  end.

Definition postMLSCommit c convID (req : decoded mlsCommitRequest.t) : handler :=
  requireMember c convID (fun uid member =>
    do! req := DecodeLimited req in
    let commit := mlsCommitRequest.Commit req in
    if mlsCommitRequest.GroupID req == "" then Done (Error 400 "groupId is required")
    else
      do! ok := mayRemove convID member (mlsCommitRequest.Removes req) in
      if negb ok then Done (Error 403 "only a group admin can remove members")
      else if (slen commit =? 0) || (maxCiphertextBytes <? slen commit) then Done (Error 400 "a commit is required")
      else if maxCiphertextBytes <? slen (mlsCommitRequest.Welcome req) then Done (Error 413 "welcome too large")
      else if mlsCommitRequest.BaseEpoch req <? 0 then Done (Error 400 "baseEpoch must not be negative")
      else match commit_claims commit (mlsCommitRequest.BaseEpoch req) with
      | Err refused => Done refused
      | Ok _ =>
          match Handler.Fed h with
          | None => commit_native uid convID req
          | Some fed =>
              do! r := get_conversation convID in
              match r with
              | Err _ => Done (Error 500 "could not commit")
              | Ok conv => if IsMirror conv then commit_forward fed conv uid convID req
                           else commit_native uid convID req
              end
          end
      end).

(** ** History handed from device to device *)

Definition uploadHistory c convID (body : option bytes) : handler :=
  requireMember c convID (fun _ _ =>
    if negb (Handler.Blobs h) then Done (Error 503 "history sync is not available")
    else match read_body body maxHistoryBlobBytes with
    | None => Done (Error 413 "history too large")
    | Some data =>
        if slen data =? 0 then Done (Error 400 "empty history")
        else if maxHistoryBlobBytes <? slen data then Done (Error 413 "history too large")
        else
          do! r := blob_put data in
          match r with
          | Err _ => Done (Error 500 "could not store history")
          | Ok blobID => Done (Reply 201 (BID (historyID convID blobID)))
          end
    end).

Definition getHistory c convID (id : string) : handler :=
  requireMember c convID (fun _ _ =>
    if negb (Handler.Blobs h) then Done (Error 404 "history not found")
    else if id == "" then Done (Error 400 "history id is required")
    else match splitHistoryID convID id with
    | None => Done (Error 404 "history not found")
    | Some blobID =>
        do! r := blob_fetch blobID in
        match r with
        | Err _ => Done (Error 404 "history not found")
        | Ok (data, _) => do! _ := blob_delete blobID in Done (Reply 200 (BBytes data))
        end
    end).
End Mls.
