(* ===== verification/ChatKeys.v ===== *)
(** * Devices, their keys and their backups

    [api/internal/chat/keypackages.go]: the directory of public KeyPackages,
    the registry of a user's own devices and how one is terminated, and the
    sealed backups with their tail. *)

From S2P Require Import Prelude.
From S2P Require Import GoStrings.
From S2P Require Import Domain.
From S2P Require Import Threads.
From S2P Require Import Crypto.
From S2P Require Import Blob.
From S2P Require Import MlsChain.
From S2P Require Import StoreState.
From S2P Require Import StoreDevices.
From S2P Require Import StoreConversations.
From S2P Require Import StoreMls.
From S2P Require Import StoreBackup.
From S2P Require Import Peers.
From S2P Require Import ChatWorld.
From S2P Require Import ConvFed.

Definition maxKeyPackageBytes : Z := 16 * 1024.
Definition maxKeyPackageBatch : Z := 100.
Definition maxDeviceLabelLen : Z := 100.
Definition maxClaimDevices : Z := 64.
Definition keptBackupVersions : Z := 3.
Definition maxTailEntriesPerRequest : Z := 512.
Definition maxTailEntryBytes : Z := 256 * 1024.

Module publishKeyPackagesRequest.
Record t := mk { DeviceID : string; KeyPackages : list bytes; LastResortKeyPackage : bytes; Label : string }.
End publishKeyPackagesRequest.

Module registerDeviceRequest.
Record t := mk { DeviceID : string; Label : string }.
End registerDeviceRequest.

Module deviceRef.
Record t := mk { UserID : string; DeviceID : string }.
End deviceRef.

Module putKeyBackupRequest.
Record t := mk {
  DeviceID : string; Salt : bytes; Nonce : bytes; Ciphertext : bytes;
  TranscriptSalt : bytes; TranscriptNonce : bytes; TranscriptCiphertext : bytes; TranscriptMessages : Z;
  Force : bool; TailThrough : time
}.
End putKeyBackupRequest.

(** An entry of [appendKeyBackupTailRequest]. *)
Module tailEntry.
Record t := mk { ConversationID : string; MessageID : string; Salt : bytes; Nonce : bytes; Ciphertext : bytes }.
End tailEntry.

(** ** Pure parts *)

Definition trim_label (label : string) : string :=
  if maxDeviceLabelLen <? slen label then string_take (Z.to_nat maxDeviceLabelLen) label else label.

Definition device_row (uid deviceID label sessionID : string) (now : time) : MLSDevice.t :=
  MLSDevice.zero <| MLSDevice.UserID := uid |> <| MLSDevice.DeviceID := deviceID |>
    <| MLSDevice.Label := trim_label label |> <| MLSDevice.SessionID := sessionID |>
    <| MLSDevice.CreatedAt := now |> <| MLSDevice.LastSeenAt := now |>.

Definition key_package (uid deviceID : string) (lastResort : bool) (now : time) (kp : bytes) : MLSKeyPackage.t :=
  MLSKeyPackage.zero <| MLSKeyPackage.UserID := uid |> <| MLSKeyPackage.DeviceID := deviceID |>
    <| MLSKeyPackage.KeyPackage := kp |> <| MLSKeyPackage.LastResort := lastResort |>
    <| MLSKeyPackage.CreatedAt := now |>.

Definition package_size_ok (kp : bytes) : bool := negb ((slen kp =? 0) || (maxKeyPackageBytes <? slen kp)).

Definition find_device (deviceID : string) (devices : list MLSDevice.t) : option MLSDevice.t :=
  List.find (fun d => MLSDevice.DeviceID d == deviceID) devices.

Definition is_live (d : MLSDevice.t) : bool := match MLSDevice.RevokedAt d with None => true | Some _ => false end.

(** The members of a conversation as a set, and the home of each. *)
Definition member_set (members : list ConversationMember.t) : gmap string bool :=
  foldl (fun out m => <[ConversationMember.UserID m := true]> out) ∅ members.
Definition domain_of (members : list ConversationMember.t) : gmap string string :=
  foldl (fun out m => <[ConversationMember.UserID m := ConversationMember.Domain m]> out) ∅ members.

(** [if devices[uid] == nil { devices[uid] = []string{} }] *)
Definition answer_for_all (userIDs : list string) (devices : gmap string (list string)) : gmap string (list string) :=
  foldl (fun devices uid => match devices !! uid with None => <[uid := []]> devices | Some _ => devices end)
    devices userIDs.

Definition has_transcript (req : putKeyBackupRequest.t) : bool :=
  0 <? slen (putKeyBackupRequest.TranscriptCiphertext req).

(** The shrink guard: less than what is stored, the tail counted in. *)
Definition shrinks (req : putKeyBackupRequest.t) (prev : MLSKeyBackup.t) (tailHeld : Z) : bool :=
  negb (putKeyBackupRequest.Force req)
  && (putKeyBackupRequest.TranscriptMessages req <? wrap64 (MLSKeyBackup.TranscriptMessages prev + tailHeld)).

Definition tail_entry_missing (e : tailEntry.t) : bool :=
  (tailEntry.ConversationID e == "") || (tailEntry.MessageID e == "") || (slen (tailEntry.Ciphertext e) =? 0)
  || (slen (tailEntry.Salt e) =? 0) || (slen (tailEntry.Nonce e) =? 0).

Section Keys.
Context {B : Type} {BS : BlobStore B} {RO : RangeOrder} {U : Unicode} {E : Ed25519} {HM : Hmac}.
Context (h : Handler.t).
Abbreviation world := (World.t B).
Abbreviation handler := (prog world Env.t response).
Implicit Types (c : Caller.t) (convID : string).

(** ** The directory of KeyPackages *)

(** The package that may be published once per device. *)
Definition last_resort_package (uid : string) (req : publishKeyPackagesRequest.t) (now : time)
  (k : list MLSKeyPackage.t → handler) : handler :=
  let kp := publishKeyPackagesRequest.LastResortKeyPackage req in
  let deviceID := publishKeyPackagesRequest.DeviceID req in
  if slen kp =? 0 then k []
  else if maxKeyPackageBytes <? slen kp then Done (Error 400 "invalid key package size")
  else
    do! r := store_read (fun m => Ok (HasLastResortKeyPackage m uid deviceID)) in
    match r with
    | Err _ => Done (Error 500 "could not store key packages")
    | Ok true => k []
    | Ok false => k [key_package uid deviceID true now kp]
    end.

Definition publishKeyPackages c (req : decoded publishKeyPackagesRequest.t) : handler :=
  requireUser c (fun uid =>
    do! req := DecodeLimited req in
    let deviceID := publishKeyPackagesRequest.DeviceID req in
    let kps := publishKeyPackagesRequest.KeyPackages req in
    if deviceID == "" then Done (Error 400 "deviceId is required")
    else if maxKeyPackageBatch <? Z.of_nat (length kps) then Done (Error 400 "too many key packages")
    else if (Z.of_nat (length kps) =? 0) && (slen (publishKeyPackagesRequest.LastResortKeyPackage req) =? 0)
    then Done (Error 400 "nothing to publish")
    else
      do! now := time_now in
      do! packages := last_resort_package uid req now in
      if negb (forallb package_size_ok kps) then Done (Error 400 "invalid key package size")
      else
        do! r := store_call (fun m env =>
                   AddKeyPackages m (Env.fresh env) (packages ++ (key_package uid deviceID false now <$> kps))) in
        match r with
        | Err _ => Done (Error 500 "could not store key packages")
        | Ok _ =>
            do! _ := store_call (fun m env => UpsertMLSDevice m (Env.fresh env 0%nat)
                       (device_row uid deviceID (publishKeyPackagesRequest.Label req) (Caller.session c) now)) in
            Done NoContent
        end).

(** A user of another host is claimed whole, once. *)
Fixpoint claim_devices (members : gmap string bool) (home : gmap string string) (refs : list deviceRef.t)
  (remoteDone : gset string) (out : list claimed.t) (k : list claimed.t → handler) : handler :=
  match refs with
  | [] => k out
  | d :: refs =>
      let uid := deviceRef.UserID d in
      if uid == "" then Done (Error 400 "each device needs a userId")
      else if negb (default false (members !! uid)) then Done (Error 403 "that user is not in this conversation")
      else
        let dom := default "" (home !! uid) in
        if (dom != "") && (dom != Handler.HostDomain h) then
          match Handler.Fed h with
          | None => claim_devices members home refs remoteDone out k
          | Some fed =>
              if bool_decide (uid ∈ remoteDone) then claim_devices members home refs remoteDone out k
              else
                do! r := ClaimRemoteKeyPackages fed dom uid in
                let more := match r with
                            | Err _ => []
                            | Ok packages => (fun p => claimed.mk uid (ClaimedKeyPackage.DeviceID p)
                                                         (ClaimedKeyPackage.KeyPackage p)) <$> packages
                            end in
                claim_devices members home refs ({[uid]} ∪ remoteDone) (out ++ more) k
          end
        else if deviceRef.DeviceID d == "" then Done (Error 400 "a local device needs a deviceId")
        else
          do! r := store_call (fun m _ => ClaimKeyPackage m uid (deviceRef.DeviceID d)) in
          let more := match r with
                      | Err _ => []
                      | Ok kp => [claimed.mk uid (deviceRef.DeviceID d) (MLSKeyPackage.KeyPackage kp)]
                      end in
          claim_devices members home refs remoteDone (out ++ more) k
  end.

Definition claimKeyPackages c convID (refs : decoded (list deviceRef.t)) : handler :=
  requireMember c convID (fun _ _ =>
    do! refs := DecodeLimited refs in
    if (Z.of_nat (length refs) =? 0) || (maxClaimDevices <? Z.of_nat (length refs))
    then Done (Error 400 "between 1 and 64 devices are required")
    else
      do! r := get_members convID in
      match r with
      | Err _ => Done (Error 500 "could not load members")
      | Ok members =>
          do! out := claim_devices (member_set members) (domain_of members) refs ∅ [] in
          match out with
          | [] => Done (Error 404 "no key packages available for those devices")
          | _ => Done (Reply 200 (BClaimed out))
          end
      end).

Definition memberIDs convID (k : result (failure store_err) (gmap string bool) → handler) : handler :=
  do! r := get_members convID in
  k (match r with Err e => Err e | Ok members => Ok (member_set members) end).

Definition listDevices c convID : handler :=
  requireMember c convID (fun _ _ =>
    do! r := memberIDs convID in
    match r with
    | Err _ => Done (Error 500 "could not load members")
    | Ok members =>
        let userIDs := (go_range members).*1 in
        do! r := store_read (fun m => Ok (DevicesWithKeyPackages m userIDs)) in
        match r with
        | Err _ => Done (Error 500 "could not list devices")
        | Ok devices =>
            do! r := store_read (fun m => Ok (RevokedDeviceIDs m userIDs)) in
            let revoked := match r with Ok revoked => revoked | Err _ => ∅ end in
            Done (Reply 200 (BDevices (answer_for_all userIDs devices) revoked))
        end
    end).

Definition deleteKeyPackages c (deviceID : string) : handler :=
  requireUser c (fun uid =>
    if deviceID == "" then Done (Error 400 "deviceId is required")
    else
      do! r := store_call (fun m _ => DeleteKeyPackages m uid deviceID) in
      match r with
      | Err _ => Done (Error 500 "could not delete key packages")
      | Ok _ => Done NoContent
      end).

Definition keyPackageCount c (deviceID : string) : handler :=
  requireUser c (fun uid =>
    if deviceID == "" then Done (Error 400 "deviceId is required")
    else
      do! r := store_read (fun m => Ok (CountKeyPackages m uid deviceID)) in
      match r with
      | Err _ => Done (Error 500 "count failed")
      | Ok n =>
          do! r := store_read (fun m => Ok (HasLastResortKeyPackage m uid deviceID)) in
          match r with
          | Err _ => Done (Error 500 "count failed")
          | Ok hasLastResort => Done (Reply 200 (BCount n hasLastResort))
          end
      end).

(** ** One's own devices *)

Definition listMyDevices c : handler :=
  requireUser c (fun uid =>
    do! r := store_read (fun m => Ok (ListMLSDevices m uid)) in
    match r with
    | Err _ => Done (Error 500 "could not list devices")
    | Ok devices =>
        Done (Reply 200 (BMyDevices (filter is_live devices)
                           (MLSDevice.DeviceID <$> filter (fun d => Is_true (negb (is_live d))) devices)))
    end).

Definition registerDevice c (req : decoded registerDeviceRequest.t) : handler :=
  requireUser c (fun uid =>
    do! req := DecodeLimited req in
    if registerDeviceRequest.DeviceID req == "" then Done (Error 400 "deviceId is required")
    else
      do! now := time_now in
      do! r := store_call (fun m env => UpsertMLSDevice m (Env.fresh env 0%nat)
                 (device_row uid (registerDeviceRequest.DeviceID req) (registerDeviceRequest.Label req)
                    (Caller.session c) now)) in
      match r with
      | Err _ => Done (Error 500 "could not register device")
      | Ok _ => Done NoContent
      end).

(** [Revoke] and [RevokeUserBefore] of the revoker: the store first, then the
    map. *)
Definition Revoke (sessionID : string) (expiresAt : time) (k : handler) : handler :=
  if sessionID == "" then k
  else
    do! r := store_call (fun m _ => RevokeSession m sessionID expiresAt) in
    match r with
    | Err _ => k
    | Ok _ => Act (fun w _ => (w <| World.revoked := <[sessionID := expiresAt]> (World.revoked w) |>, tt)) (fun _ => k)
    end.
Definition RevokeUserBefore (userID : string) (cutoff expiresAt : time) (k : bool → handler) : handler :=
  if userID == "" then k true
  else
    do! r := store_call (fun m _ => RevokeUserTokensBefore m userID cutoff expiresAt) in
    match r with
    | Err _ => k false
    | Ok _ =>
        Act (fun w _ =>
          let move := match World.userCutoff w !! userID with
                      | Some existing => After cutoff existing
                      | None => true
                      end in
          (if move then w <| World.userCutoff := <[userID := cutoff]> (World.userCutoff w) |> else w, tt))
          (fun _ => k true)
    end.

(** The login of a terminated device. *)
Definition revoke_login (uid : string) (target : MLSDevice.t) (k : handler) : handler :=
  if negb (Handler.Revoker h) then k
  else
    let ttl := if Handler.SessionTTL h <=? 0 then 24 * Hour else Handler.SessionTTL h in
    do! now := time_now in
    if MLSDevice.SessionID target != "" then Revoke (MLSDevice.SessionID target) (now + ttl) k
    else RevokeUserBefore uid now (now + ttl) (fun _ => k).

Definition terminateDevice c (deviceID : string) : handler :=
  requireUser c (fun uid =>
    if deviceID == "" then Done (Error 400 "deviceId is required")
    else
      do! r := store_read (fun m => Ok (ListMLSDevices m uid)) in
      match r with
      | Err _ => Done (Error 500 "could not load devices")
      | Ok devices =>
      match find_device deviceID devices with
      | None => Done (Error 404 "no such device")
      | Some target =>
          do! now := time_now in
          do! r := store_call (fun m _ => RevokeMLSDevice m uid deviceID now) in
          match r with
          | Err _ => Done (Error 500 "could not terminate device")
          | Ok _ =>
              do! r := store_call (fun m _ => DeleteKeyPackages m uid deviceID) in
              match r with
              | Err _ => Done (Error 500 "could not terminate device")
              | Ok _ =>
                  revoke_login uid target
                    (do! _ := store_call (fun m _ => DeletePushDevicesForMLSDevice m uid deviceID) in
                     Done NoContent)
              end
          end
      end
      end).

(** ** Backups *)

(** What [putKeyBackup] puts on record, the blobs stored. *)
Definition backup_record (uid : string) (req : putKeyBackupRequest.t) (ciphertextBlobID : string)
  (transcriptBlobID : option string) (now : time) : MLSKeyBackup.t :=
  let backup := MLSKeyBackup.zero <| MLSKeyBackup.UserID := uid |>
                  <| MLSKeyBackup.DeviceID := putKeyBackupRequest.DeviceID req |>
                  <| MLSKeyBackup.Salt := putKeyBackupRequest.Salt req |>
                  <| MLSKeyBackup.Nonce := putKeyBackupRequest.Nonce req |>
                  <| MLSKeyBackup.CiphertextBlobID := ciphertextBlobID |> <| MLSKeyBackup.UpdatedAt := now |> in
  match transcriptBlobID with
  | Some id => backup <| MLSKeyBackup.TranscriptSalt := putKeyBackupRequest.TranscriptSalt req |>
                 <| MLSKeyBackup.TranscriptNonce := putKeyBackupRequest.TranscriptNonce req |>
                 <| MLSKeyBackup.TranscriptBlobID := id |>
                 <| MLSKeyBackup.TranscriptMessages := putKeyBackupRequest.TranscriptMessages req |>
  | None => backup
  end.

(** The two blobs; the first is dropped again when the second fails. *)
Definition store_blobs (req : putKeyBackupRequest.t) (uid : string) (k : MLSKeyBackup.t → handler) : handler :=
  do! r := blob_put (putKeyBackupRequest.Ciphertext req) in
  match r with
  | Err _ => Done (Error 500 "could not store backup")
  | Ok ciphertextBlobID =>
      do! now := time_now in
      if has_transcript req then
        do! r := blob_put (putKeyBackupRequest.TranscriptCiphertext req) in
        match r with
        | Err _ => do! _ := blob_delete ciphertextBlobID in Done (Error 500 "could not store backup")
        | Ok id => k (backup_record uid req ciphertextBlobID (Some id) now)
        end
      else k (backup_record uid req ciphertextBlobID None now)
  end.

(** A blob of a pruned version goes unless the backup just stored shares it. *)
Definition drop_pruned (backup old : MLSKeyBackup.t) (k : handler) : handler :=
  let drop id current k := if (id != "") && (id != current) then do! _ := blob_delete id in k else k in
  drop (MLSKeyBackup.CiphertextBlobID old) (MLSKeyBackup.CiphertextBlobID backup)
    (drop (MLSKeyBackup.TranscriptBlobID old) (MLSKeyBackup.TranscriptBlobID backup) k).

Definition archive_superseded (prev : result (failure store_err) MLSKeyBackup.t) (backup : MLSKeyBackup.t) (k : handler)
  : handler :=
  match prev with
  | Err _ => k
  | Ok prev =>
      do! r := store_call (fun m env => ArchiveKeyBackup m (Env.fresh env 0%nat) prev keptBackupVersions) in
      for_each (match r with Ok pruned => pruned | Err _ => [] end) (drop_pruned backup) k
  end.

Definition truncate_tail (uid : string) (req : putKeyBackupRequest.t) (k : handler) : handler :=
  if IsZero (putKeyBackupRequest.TailThrough req) then k
  else do! _ := store_call (fun m _ => TruncateKeyBackupTail m uid (putKeyBackupRequest.TailThrough req)) in k.

Definition putKeyBackup c (req : decoded putKeyBackupRequest.t) : handler :=
  requireUser c (fun uid =>
    if negb (Handler.Blobs h) then Done (Error 503 "backups are not available on this server")
    else
      do! req := DecodeLimited req in
      if (slen (putKeyBackupRequest.Salt req) =? 0) || (slen (putKeyBackupRequest.Nonce req) =? 0)
         || (slen (putKeyBackupRequest.Ciphertext req) =? 0)
      then Done (Error 400 "salt, nonce and ciphertext are required")
      else if has_transcript req && ((slen (putKeyBackupRequest.TranscriptSalt req) =? 0)
                                     || (slen (putKeyBackupRequest.TranscriptNonce req) =? 0))
      then Done (Error 400 "transcript salt and nonce are required")
      else
        do! prev := store_read (fun m => GetKeyBackup m uid) in
        do! held := store_read (fun m => Ok (CountKeyBackupTail m uid)) in
        match held with
        | Err _ => Done (Error 503 "could not read the stored backup")
        | Ok tailHeld =>
            if match prev with Ok prev => shrinks req prev tailHeld | Err _ => false end
            then Done (Error 409 "this backup holds less history than the one already stored; restore this device first, or resend with force to replace it anyway")
            else
              do! backup := store_blobs req uid in
              do! r := store_call (fun m env => PutKeyBackup m (Env.fresh env 0%nat) backup) in
              match r with
              | Err _ =>
                  do! _ := blob_delete (MLSKeyBackup.CiphertextBlobID backup) in
                  (if MLSKeyBackup.TranscriptBlobID backup != ""
                   then fun k => do! _ := blob_delete (MLSKeyBackup.TranscriptBlobID backup) in k else id)
                    (Done (Error 500 "could not store backup"))
              | Ok _ =>
                  archive_superseded prev backup (truncate_tail uid req (Done NoContent))
              end
        end).

(** The loop over the entries of an append. *)
Fixpoint tail_entries (uid deviceID : string) (now : time) (es : list tailEntry.t)
  : result response (list MLSKeyBackupTailEntry.t) :=
  match es with
  | [] => Ok []
  | e :: es =>
      if tail_entry_missing e
      then Err (Error 400 "each entry needs a conversation, a message, a salt, a nonce and a ciphertext")
      else if maxTailEntryBytes <? slen (tailEntry.Ciphertext e)
      then Err (Error 413 "a sealed body is too large for the tail")
      else match tail_entries uid deviceID now es with
      | Err r => Err r
      | Ok entries =>
          Ok (MLSKeyBackupTailEntry.mk "" uid deviceID (tailEntry.ConversationID e) (tailEntry.MessageID e)
                (tailEntry.Salt e) (tailEntry.Nonce e) (tailEntry.Ciphertext e) now :: entries)
      end
  end.

Definition appendKeyBackupTail c (req : decoded (string * list tailEntry.t)) : handler :=
  requireUser c (fun uid =>
    do! (deviceID, es) := DecodeLimited req in
    if Z.of_nat (length es) =? 0 then Done NoContent
    else if maxTailEntriesPerRequest <? Z.of_nat (length es) then Done (Error 413 "too many entries in one append")
    else
      do! now := time_now in
      match tail_entries uid deviceID now es with
      | Err refused => Done refused
      | Ok entries =>
          do! r := store_call (fun m env => AppendKeyBackupTail m (Env.fresh env) entries) in
          match r with
          | Err _ => Done (Error 500 "could not store the backup entries")
          | Ok _ => Done NoContent
          end
      end).

Definition getKeyBackupTail c : handler :=
  requireUser c (fun uid =>
    do! r := store_read (fun m => Ok (ListKeyBackupTail m uid)) in
    match r with
    | Err _ => Done (Error 500 "could not read the backup tail")
    | Ok entries => Done (Reply 200 (BTail entries))
    end).

(** A record with what its blobs hold; a transcript that is gone is left out. *)
Definition hydrate (backup : MLSKeyBackup.t) : handler :=
  do! r := blob_fetch (MLSKeyBackup.CiphertextBlobID backup) in
  match r with
  | Err _ => Done (Error 404 "no backup found")
  | Ok (ciphertext, _) =>
      if MLSKeyBackup.TranscriptBlobID backup != "" then
        do! r := blob_fetch (MLSKeyBackup.TranscriptBlobID backup) in
        Done (Reply 200 (BBackup backup ciphertext (match r with Ok (transcript, _) => transcript | Err _ => "" end)))
      else Done (Reply 200 (BBackup backup ciphertext ""))
  end.

Definition getKeyBackup c : handler :=
  requireUser c (fun uid =>
    if negb (Handler.Blobs h) then Done (Error 404 "no backup found")
    else
      do! r := store_read (fun m => GetKeyBackup m uid) in
      match r with
      | Err _ => Done (Error 404 "no backup found")
      | Ok backup => hydrate backup
      end).

Definition listKeyBackupVersions c : handler :=
  requireUser c (fun uid =>
    do! r := store_read (fun m => Ok (ListKeyBackupVersions m uid)) in
    match r with
    | Err _ => Done (Error 500 "could not list backup versions")
    | Ok versions => Done (Reply 200 (BVersions versions))
    end).

Definition getKeyBackupVersion c (versionID : string) : handler :=
  requireUser c (fun uid =>
    if negb (Handler.Blobs h) then Done (Error 404 "no backup found")
    else
      do! r := store_read (fun m => KeyBackupVersion m uid versionID) in
      match r with
      | Err _ => Done (Error 404 "no backup found")
      | Ok backup => hydrate backup
      end).
End Keys.
