(* ===== verification/ChatCalls.v ===== *)
(** * Calls

    [api/internal/chat/calls.go] and the endpoint of [ice.go]: the sealed
    signals of a call, who answers it, and the servers its media may need. *)

From S2P Require Import Prelude.
From S2P Require Import GoStrings.
From S2P Require Import Domain.
From S2P Require Import Threads.
From S2P Require Import Crypto.
From S2P Require Import Strconv.
From S2P Require Import Blob.
From S2P Require Import MlsChain.
From S2P Require Import StoreState.
From S2P Require Import StoreConversations.
From S2P Require Import Calls.
From S2P Require Import Live.
From S2P Require Import PushNotify.
From S2P Require Import Peers.
From S2P Require Import ChatWorld.
From S2P Require Import ChatPush.
From S2P Require Import ConvFed.
From S2P Require Import ChatKeys.

Definition maxSignalBytes : Z := 16 * 1024.

Module callSignalRequest.
Record t := mk { Ciphertext : bytes; Ring : bool; Cancel : bool }.
End callSignalRequest.

Definition call_event (convID : string) (to : list string) (callID : string) (seq : Z) (uid : string) : Event.t :=
  Event.zero <| Event.ConversationID := convID |> <| Event.Recipients := to |>
    <| Event.CallSignal := Some (CallSignal.mk callID seq uid) |>.

Section CallHandlers.
Context {B : Type} {BS : BlobStore B} {RO : RangeOrder} {U : Unicode} {E : Ed25519} {HM : Hmac}.
Context (h : Handler.t).
Abbreviation world := (World.t B).
Abbreviation handler := (prog world Env.t response).
Implicit Types (c : Caller.t) (convID callID : string).

(** [h.Limiter != nil && !h.Limiter.Allow(key)] *)
Definition rate_limited (key : string) (k : handler) : handler :=
  if Handler.Limiter h
  then do! allowed := limiter_allows key in if negb allowed then Done (Error 429 "slow down") else k
  else k.

Definition no_calling : handler := Done (Error 503 "calling is not configured on this server").

(** The members a nudge names, in the order of the range over a map. *)
Definition nudge_recipients convID (k : list string → handler) : handler :=
  do! r := memberIDs convID in
  match r with
  | Err _ => Done (Error 500 "could not load members")
  | Ok recipients => k (go_range recipients).*1
  end.

Definition postCallSignal c convID callID (req : decoded callSignalRequest.t) : handler :=
  requireMember c convID (fun uid _ =>
    if negb (Handler.Mailbox h) then no_calling
    else
      rate_limited (String.append "call:" uid)
        (if callID == "" then Done (Error 400 "callId is required")
         else
           do! req := DecodeLimited req in
           let ciphertext := callSignalRequest.Ciphertext req in
           if (slen ciphertext =? 0) || (maxSignalBytes <? slen ciphertext) then Done (Error 400 "a signal is required")
           else
             do! r := mailbox_call (fun m now => Append m now (callKey convID callID) ciphertext) in
             match r with
             | None => Done (Error 500 "could not relay the signal")
             | Some signal =>
                 do! to := nudge_recipients convID in
                 publish (call_event convID to callID (Signal.Seq signal) uid)
                   ((if callSignalRequest.Ring req then ringMembers h convID uid callID KindCall else id)
                      ((if callSignalRequest.Cancel req then ringMembers h convID uid callID KindCallCancel else id)
                         ((match Handler.Fed h with
                           | Some fed => RelayCallSignal fed
                               (CallSignalRelay.mk convID callID uid ciphertext (callSignalRequest.Ring req)
                                  (callSignalRequest.Cancel req))
                           | None => id
                           end) (Done (Reply 200 (BSignal signal))))))
             end)).

Definition postCallRing c convID callID : handler :=
  requireMember c convID (fun uid _ =>
    if negb (Handler.Mailbox h) then no_calling
    else
      rate_limited (String.append "call:" uid)
        (if callID == "" then Done (Error 400 "callId is required")
         else
           do! to := nudge_recipients convID in
           publish (call_event convID to callID 0 uid)
             ((match Handler.Fed h with
               | Some fed => RelayCallNudge fed (CallNudge.mk convID callID uid)
               | None => id
               end) (Done NoContent)))).

Definition getCallSignals c convID callID (since : string) : handler :=
  requireMember c convID (fun _ _ =>
    if negb (Handler.Mailbox h) then no_calling
    else
      let load since :=
        do! r := mailbox_call (fun m now => (m, Since m now (callKey convID callID) since)) in
        match r with
        | None => Done (Error 500 "could not load signals")
        | Some signals => Done (Reply 200 (BSignals signals))
        end in
      if since == "" then load 0
      else match ParseInt since with
      | Some n => if n <? 0 then Done (Error 400 "since must be a non-negative sequence number") else load n
      | None => Done (Error 400 "since must be a non-negative sequence number")
      end).

Definition postCallAccept c convID callID (deviceID : decoded string) : handler :=
  requireMember c convID (fun _ _ =>
    if negb (Handler.Mailbox h) then no_calling
    else
      do! deviceID := DecodeLimited deviceID in
      if deviceID == "" then Done (Error 400 "deviceId is required")
      else
        do! r := mailbox_call (fun m now => Claim m now (callKey convID callID) deviceID) in
        match r with
        | None => Done (Error 500 "could not accept the call")
        | Some (winner, won) => Done (Reply (if won then 200 else 409) (BWinner winner))
        end).

(** The servers this host hands out on its own. *)
Definition own_servers (urls username credential : string) : list iceServer.t :=
  (match stunURLsOf urls with [] => [] | stun => [iceServer.mk stun "" ""] end)
  ++ (match turnURLsOf urls with [] => [] | turn => [iceServer.mk turn username credential] end).
Definition grant_server (g : TurnGrant.t) : iceServer.t :=
  iceServer.mk (TurnGrant.URLs g) (TurnGrant.Username g) (TurnGrant.Credential g).

Definition iceServers c (conversationID : string) : handler :=
  requireUser c (fun uid =>
    let urls := ICEConfig.URLs (Handler.ICE h) in
    if urls == "" then no_calling
    else
      rate_limited (String.append "ice:" uid)
        (if TrimSpace urls == "direct" then Done (Reply 200 (BICE []))
         else
           do! now := time_now in
           let '(username, credential) :=
             turnCredential (ICEConfig.Secret (Handler.ICE h)) (now + ICEConfig.TTL (Handler.ICE h)) in
           let servers := own_servers urls username credential in
           let convID := TrimSpace conversationID in
           match Handler.Fed h with
           | Some fed =>
               if convID != "" then
                 do! grants := RemoteTurn fed convID in
                 Done (Reply 200 (BICE (servers ++ (grant_server <$> grants))))
               else Done (Reply 200 (BICE servers))
           | None => Done (Reply 200 (BICE servers))
           end)).
End CallHandlers.
