(* ===== verification/ChatFrame.v ===== *)
(** * What a request leaves alone

    The rules by which a handler is shown to keep a property of the data store
    whatever else runs, whatever fails, and whatever the clock, the other hosts
    and the push services answer: one rule per call, one lemma per helper, and
    the tactic [safe_step] that applies them. *)

From S2P Require Import Prelude.
From S2P Require Import GoStrings.
From S2P Require Import Domain.
From S2P Require Import Threads.
From S2P Require Import Crypto.
From S2P Require Import Blob.
From S2P Require Import MlsChain.
From S2P Require Import StoreState.
From S2P Require Import StoreUsers.
From S2P Require Import StoreConversations.
From S2P Require Import StoreMls.
From S2P Require Import Calls.
From S2P Require Import Push.
From S2P Require Import Live.
From S2P Require Import PushNotify.
From S2P Require Import Peers.
From S2P Require Import ChatWorld.
From S2P Require Import ChatPush.
From S2P Require Import ConvFed.

Create HintDb safe discriminated.

Section Frame.
Context {B : Type} {BS : BlobStore B} {RO : RangeOrder} {U : Unicode} {E : Ed25519} {HM : Hmac} {R : Type}.
Context (ok : Env.t → Prop) (I : Memory.t B → Prop).
Abbreviation world := (World.t B).
Abbreviation handler := (prog world Env.t R).

(** A property of the store alone. *)
Definition safe (p : handler) : Prop := preserves ok (fun w => I (World.store w)) p.

(** The blobs are not part of what the property is about. *)
Definition blind_to_blobs : Prop := ∀ m b, I m → I (m <| Memory.blobs := b |>).

(** ** Calls *)

Lemma safe_done (r : R) : safe (Done r).
Proof. done. Qed.

Lemma safe_quiet {A} (op : world → Env.t → world * A) (k : A → handler) :
  (∀ w env, World.store (op w env).1 = World.store w) → (∀ a, safe (k a)) → safe (Act op k).
Proof. intros Hop Hk w env _ Hw. split; [by rewrite Hop | apply Hk]. Qed.

Lemma safe_store_call {X} (op : Memory.t B → Env.t → memory_op B X) k :
  (∀ m env, ok env → I m → I (op m env).1) → (∀ r, safe (k r)) → safe (store_call op k).
Proof.
  intros Hop Hk w env Henv Hw. specialize (Hop _ env Henv Hw). unfold faulty.
  destruct (op (World.store w) env) as [m r]. split; [|apply Hk]. by destruct (Env.backend env).
Qed.

(** A call that changes the store, and what its answer tells. *)
Lemma safe_store_answer {X} (P : X → Prop) (op : Memory.t B → Env.t → memory_op B X) k :
  (∀ m env, ok env → I m → I (op m env).1 ∧ ∀ x, (op m env).2 = Ok x → P x) →
  (∀ x, P x → safe (k (Ok x))) → (∀ e, safe (k (Err e))) → safe (store_call op k).
Proof.
  intros Hop Hk Hu w env Henv Hw. destruct (Hop _ env Henv Hw) as [Hi Hx]. unfold faulty.
  destruct (op (World.store w) env) as [m r]. cbn [fst snd] in *.
  assert (safe (k (lift r))) as Hr by (destruct r as [x|e]; [by apply Hk, Hx | apply Hu]).
  destruct (Env.backend env); (split; [done|]); [done | apply Hu..].
Qed.

(** A read, and what it tells. *)
Lemma safe_store_known {X} (op : Memory.t B → result store_err X) k :
  (∀ m, I m → safe (k (lift (op m)))) → safe (k (Err Unavailable)) → safe (store_read op k).
Proof.
  intros Hk Hu w env Henv Hw. unfold faulty. cbn [fst snd].
  destruct (Env.backend env); (split; [done|]); [by apply Hk | done..].
Qed.
Lemma safe_store_read {X} (op : Memory.t B → result store_err X) k : (∀ r, safe (k r)) → safe (store_read op k).
Proof. intros Hk. apply safe_store_known; auto. Qed.

Lemma safe_mailbox {X} op (k : option X → handler) : (∀ r, safe (k r)) → safe (mailbox_call op k).
Proof.
  intros Hk. apply safe_quiet; [|done]. intros w env. unfold faulty.
  destruct (op (World.calls w) (Env.clock env)). by destruct (Env.backend env).
Qed.

Lemma safe_blob {X} op (k : result (failure blob_err) X → handler) :
  blind_to_blobs → (∀ r, safe (k r)) → safe (blob_call op k).
Proof.
  intros HB Hk w env _ Hw. split; [|apply Hk]. unfold faulty.
  destruct (Memory.blobs (World.store w)) as [b|] eqn:Hb.
  - destruct (op b env) as [b' r]. destruct (Env.backend env); by try apply HB.
  - by destruct (Env.backend env).
Qed.

Lemma safe_blob_put (P : string → Prop) {BL : BlobStoreLaws B} data (k : result (failure blob_err) string → handler) :
  blind_to_blobs → (∀ env id, ok env → Env.newBlob env = Ok id → P id) →
  (∀ id, P id → safe (k (Ok id))) → (∀ e, safe (k (Err e))) → safe (blob_put data k).
Proof.
  intros HB HP Hk Hu w env Henv Hw. unfold faulty.
  destruct (Memory.blobs (World.store w)) as [b|] eqn:Hb.
  - destruct (bs_put b (Env.newBlob env) data "application/octet-stream") as [b' r] eqn:Hput.
    assert (safe (k (lift r))) as Hr.
    { destruct r as [id|e]; [|apply Hu]. apply Hk, (HP env); [done | by eapply bs_put_id]. }
    destruct (Env.backend env); (split; [by try apply HB|]); [done | apply Hu..].
  - destruct (Env.backend env); (split; [done | apply Hu]).
Qed.

Lemma safe_peer (call : peer_call) k : (∀ env, ok env → safe (k (Env.peers env call))) → safe (peer_do call k).
Proof. intros Hk w env Henv Hw. split; [done | by apply Hk]. Qed.

Lemma safe_publish ev (k : handler) : safe k → safe (publish ev k).
Proof. intros Hk. by apply safe_quiet. Qed.
Lemma safe_push n ds (k : list Result.t → handler) : (∀ r, safe (k r)) → safe (push_chat n ds k).
Proof. intros Hk. by apply safe_quiet. Qed.
Lemma safe_time (k : time → handler) : (∀ t, safe (k t)) → safe (time_now k).
Proof. intros Hk. by apply safe_quiet. Qed.
Lemma safe_limiter key (k : bool → handler) : (∀ b, safe (k b)) → safe (limiter_allows key k).
Proof. intros Hk. by apply safe_quiet. Qed.

Lemma safe_broadcast msg ds (k : list Result.t → handler) : (∀ r, safe (k r)) → safe (push_message msg ds k).
Proof. intros Hk. by apply safe_quiet. Qed.
Lemma safe_random n (k : option bytes → handler) : (∀ b, safe (k b)) → safe (draw_random n k).
Proof. intros Hk. by apply safe_quiet. Qed.
Lemma safe_enqueue task (k : result (failure Empty_set) unit → handler) : (∀ r, safe (k r)) → safe (enqueue task k).
Proof. intros Hk. apply safe_quiet; [|done]. intros w env. by destruct (Env.backend env). Qed.
Lemma safe_dedup key window (k : option bool → handler) : (∀ r, safe (k r)) → safe (dedup_seen key window k).
Proof.
  intros Hk. apply safe_quiet; [|done]. intros w env. unfold faulty.
  destruct (Seen (World.seen w) (Env.clock env) key window). by destruct (Env.backend env).
Qed.

Lemma safe_for_each {X} (l : list X) (f : X → handler → handler) k :
  (∀ x k, safe k → safe (f x k)) → safe k → safe (for_each l f k).
Proof. intros Hf Hk. induction l as [|x l IH]; cbn [for_each]; auto. Qed.
End Frame.

#[export] Hint Resolve safe_done safe_publish safe_push safe_time safe_limiter safe_mailbox safe_store_read : safe.

(** Goes through a handler up to the calls of the store that change it: one
    step for each head. *)
Ltac safe_step :=
  lazymatch goal with
  | |- safe _ _ (Done _) => apply safe_done
  | |- safe _ _ (publish _ _) => apply safe_publish
  | |- safe _ _ (push_chat _ _ _) => apply safe_push; intros ?
  | |- safe _ _ (push_message _ _ _) => apply safe_broadcast; intros ?
  | |- safe _ _ (draw_random _ _) => apply safe_random; intros ?
  | |- safe _ _ (enqueue _ _) => apply safe_enqueue; intros ?
  | |- safe _ _ (dedup_seen _ _ _) => apply safe_dedup; intros ?
  | |- safe _ _ (time_now _) => apply safe_time; intros ?
  | |- safe _ _ (limiter_allows _ _) => apply safe_limiter; intros ?
  | |- safe _ _ (mailbox_call _ _) => apply safe_mailbox; intros ?
  | |- safe _ _ (store_read _ _) => apply safe_store_read; intros ?
  | |- safe _ _ (blob_call _ _) => apply safe_blob; [assumption | intros ?]
  | |- safe _ _ (blob_put _ _) => apply safe_blob; [assumption | intros ?]
  | |- safe _ _ (blob_fetch _ _) => apply safe_blob; [assumption | intros ?]
  | |- safe _ _ (blob_delete _ _) => apply safe_blob; [assumption | intros ?]
  | |- safe _ _ (peer_do _ _) => apply safe_peer; intros ? ?; cbn beta
  | |- safe _ _ (Datatypes.id _) => unfold Datatypes.id
  | |- safe _ _ (Act _ _) => fail "a call"
  | |- safe _ _ (store_call _ _) => fail "a call of the store"
  | |- safe _ _ _ => first [progress cbv zeta | case_match]
  end.

(** ** Helpers that only read the store *)

Section Helpers.
Context {B : Type} {BS : BlobStore B} {RO : RangeOrder} {U : Unicode} {E : Ed25519} {HM : Hmac} {R : Type}.
Context (ok : Env.t → Prop) (I : Memory.t B → Prop).
Abbreviation world := (World.t B).
Abbreviation handler := (prog world Env.t R).
Implicit Types (k : handler).

Lemma safe_get_conversation id (k : result (failure store_err) Conversation.t → handler) :
  (∀ r, safe ok I (k r)) → safe ok I (get_conversation id k).
Proof. apply safe_store_read. Qed.
Lemma safe_get_members id (k : result (failure store_err) (list ConversationMember.t) → handler) :
  (∀ r, safe ok I (k r)) → safe ok I (get_members id k).
Proof. apply safe_store_read. Qed.
Lemma safe_get_group id (k : result (failure store_err) MLSGroupState.t → handler) :
  (∀ r, safe ok I (k r)) → safe ok I (get_group id k).
Proof. apply safe_store_read. Qed.
Lemma safe_get_membership id uid (k : result (failure store_err) ConversationMember.t → handler) :
  (∀ r, safe ok I (k r)) → safe ok I (get_membership id uid k).
Proof. apply safe_store_read. Qed.

Lemma safe_hosts c id (k : list string → handler) :
  (∀ hosts, safe ok I (k hosts)) → safe ok I (participantHosts c id k).
Proof. intros Hk. by apply safe_get_members. Qed.
Lemma safe_tell call k : safe ok I k → safe ok I (tell call k).
Proof. intros Hk. by apply safe_peer. Qed.
Lemma safe_publishLocal c id msg k : safe ok I k → safe ok I (publishLocal c id msg k).
Proof. unfold publishLocal. intros Hk. by repeat safe_step. Qed.

Lemma safe_relay c conv domain msgs k : safe ok I k → safe ok I (RelayAppended c conv domain msgs k).
Proof.
  unfold RelayAppended. intros Hk. case_match; [done|]. apply safe_hosts. intros hosts.
  apply safe_for_each; [|done]. intros. by apply safe_tell.
Qed.
Lemma safe_relayReceipt c conv except s k : safe ok I k → safe ok I (relayReceipt c conv except s k).
Proof.
  unfold relayReceipt. intros Hk. case_match; [done|]. apply safe_hosts. intros hosts.
  apply safe_for_each; [|done]. intros. case_match; [done | by apply safe_tell].
Qed.
Lemma safe_ReportReceipt c conv s k : safe ok I k → safe ok I (ReportReceipt c conv s k).
Proof.
  unfold ReportReceipt. intros Hk. case_match; [done|].
  case_match; [by apply safe_tell | by apply safe_relayReceipt].
Qed.
Lemma safe_PropagateDelete c conv members k : safe ok I k → safe ok I (PropagateDelete c conv members k).
Proof.
  unfold PropagateDelete. intros Hk. case_match; [done|]. apply safe_for_each; [|done]. intros. by apply safe_tell.
Qed.
Lemma safe_RelayCallSignal c s k : safe ok I k → safe ok I (RelayCallSignal c s k).
Proof.
  unfold RelayCallSignal. intros Hk. case_match; [done|]. apply safe_hosts. intros hosts.
  apply safe_for_each; [|done]. intros. by apply safe_tell.
Qed.
Lemma safe_RelayCallNudge c s k : safe ok I k → safe ok I (RelayCallNudge c s k).
Proof.
  unfold RelayCallNudge. intros Hk. case_match; [done|]. apply safe_hosts. intros hosts.
  apply safe_for_each; [|done]. intros. by apply safe_tell.
Qed.
Lemma safe_ClaimRemoteKeyPackages c home uid (k : result peer_err (list ClaimedKeyPackage.t) → handler) :
  (∀ r, safe ok I (k r)) → safe ok I (ClaimRemoteKeyPackages c home uid k).
Proof. unfold ClaimRemoteKeyPackages. intros Hk. case_match; [done | by apply safe_peer]. Qed.

Lemma safe_collect_turn id hosts grants (k : list TurnGrant.t → handler) :
  (∀ gs, safe ok I (k gs)) → safe ok I (collect_turn id hosts grants k).
Proof.
  intros Hk. revert grants. induction hosts as [|host hosts IH]; intros grants; cbn [collect_turn]; [done|].
  apply safe_peer. intros env _. cbn beta. destruct (Env.peers env _); apply IH.
Qed.
Lemma safe_RemoteTurn c id (k : list TurnGrant.t → handler) :
  (∀ gs, safe ok I (k gs)) → safe ok I (RemoteTurn c id k).
Proof.
  unfold RemoteTurn. intros Hk. case_match; [done|]. apply safe_hosts. intros hosts. by apply safe_collect_turn.
Qed.

Lemma safe_remoteMembersExcept c members uid (k : list RemoteMember.t → handler) :
  (∀ rms, safe ok I (k rms)) → safe ok I (remoteMembersExcept c members uid k).
Proof. unfold remoteMembersExcept. intros Hk. cbv zeta. by apply safe_store_read. Qed.
Lemma safe_ProvisionMirrorOn c conv uid peer (k : result conv_err unit → handler) :
  (∀ r, safe ok I (k r)) → safe ok I (ProvisionMirrorOn c conv uid peer k).
Proof.
  unfold ProvisionMirrorOn. intros Hk. apply safe_get_members. intros [members|e]; [|apply Hk].
  apply safe_remoteMembersExcept. intros remote. cbv zeta. apply safe_peer. intros env _. apply Hk.
Qed.

(** *** Notifications: the queue and the slots are not in the store *)

Lemma safe_offer_from fuel pc (k : bool → handler) :
  (∀ b, safe ok I (k b)) → safe ok I (offer_from fuel pc k).
Proof.
  intros Hk. revert pc. induction fuel as [|fuel IH]; intros pc; cbn [offer_from]; [done|].
  apply safe_quiet; [intros w env; by destruct (offer_step _ _ _)|]. intros [pc'|b]; auto.
Qed.
Lemma safe_notifyMembers h id uid msg members k : safe ok I k → safe ok I (notifyMembers h id uid msg members k).
Proof.
  unfold notifyMembers. intros Hk. case_match; [done|]. apply safe_time. intros now. apply safe_offer_from. intros [].
  - done.
  - apply safe_quiet; [|done]. intros w env. by destruct (Push.record _ _).
Qed.
Lemma safe_ringMembers h id uid callID kind k : safe ok I k → safe ok I (ringMembers h id uid callID kind k).
Proof.
  unfold ringMembers. intros Hk. case_match; [done|]. apply safe_quiet; [intros w env; by case_bool_decide|].
  intros []; [done|]. apply safe_quiet; [|done]. intros w env. by destruct (Push.record _ _).
Qed.
End Helpers.

Ltac safe_helper :=
  lazymatch goal with
  | |- safe _ _ (get_conversation _ _) => apply safe_get_conversation; intros ?
  | |- safe _ _ (get_members _ _) => apply safe_get_members; intros ?
  | |- safe _ _ (get_group _ _) => apply safe_get_group; intros ?
  | |- safe _ _ (get_membership _ _ _) => apply safe_get_membership; intros ?
  | |- safe _ _ (RelayAppended _ _ _ _ _) => apply safe_relay
  | |- safe _ _ (ReportReceipt _ _ _ _) => apply safe_ReportReceipt
  | |- safe _ _ (PropagateDelete _ _ _ _) => apply safe_PropagateDelete
  | |- safe _ _ (RelayCallSignal _ _ _) => apply safe_RelayCallSignal
  | |- safe _ _ (RelayCallNudge _ _ _) => apply safe_RelayCallNudge
  | |- safe _ _ (ClaimRemoteKeyPackages _ _ _ _) => apply safe_ClaimRemoteKeyPackages; intros ?
  | |- safe _ _ (RemoteTurn _ _ _) => apply safe_RemoteTurn; intros ?
  | |- safe _ _ (ProvisionMirrorOn _ _ _ _ _) => apply safe_ProvisionMirrorOn; intros ?
  | |- safe _ _ (notifyMembers _ _ _ _ _ _) => apply safe_notifyMembers
  | |- safe _ _ (ringMembers _ _ _ _ _ _) => apply safe_ringMembers
  | |- safe _ _ (tell _ _) => apply safe_tell
  | |- safe _ _ (publishLocal _ _ _ _) => apply safe_publishLocal
  | |- _ => safe_step
  end.
