(* ===== verification/ChatServe.v ===== *)
(** * The chat API

    The routes [Register] of [api/internal/chat/chat.go] attaches, as one
    request type, and the handler each one reaches. *)

From S2P Require Import Prelude.
From S2P Require Import GoStrings.
From S2P Require Import Domain.
From S2P Require Import Threads.
From S2P Require Import Crypto.
From S2P Require Import Blob.
From S2P Require Import MlsChain.
From S2P Require Import Nodelist.
From S2P Require Import Ident.
From S2P Require Import StoreState.
From S2P Require Import ChatWorld.
From S2P Require Import ConvFed.
From S2P Require Import ChatConversations.
From S2P Require Import ChatMessages.
From S2P Require Import ChatMls.
From S2P Require Import ChatKeys.
From S2P Require Import ChatCalls.

(** What is asked of a conversation. *)
Inductive conversation_request : Type :=
| GetConversation
| DeleteConversationRequest
| ListMessages (limit cursor : string)
| ClearMessages
| ReportReceipt (req : decoded receiptRequest.t)
| UploadAttachment (body : option bytes)
| GetAttachmentRequest (attachmentId : string)
| PostMessage (req : decoded postMessageRequest.t)
| ListMembers
| AddMember (userID : decoded string)
| SetMemberRole (userId : string) (role : decoded string)
| RemoveMember (userId : string)
| ListDevices
| ClaimKeyPackages (refs : decoded (list deviceRef.t))
| GetMLSGroup
| ListMLSCommits (since : string)
| PostMLSCommit (req : decoded mlsCommitRequest.t)
| GetMLSGroupInfo
| PostMLSGroupInfo (req : decoded mlsGroupInfoRequest.t)
| PostMLSReset
| ListHistoryOffers (limit : string)
| UploadHistory (body : option bytes)
| GetHistory (historyId : string)
| PostCallSignal (callId : string) (req : decoded callSignalRequest.t)
| GetCallSignals (callId since : string)
| PostCallAccept (callId : string) (deviceID : decoded string)
| PostCallRing (callId : string).

Inductive chat_request : Type :=
| InConversation (id : string) (r : conversation_request)
| CreateConversationRequest (req : decoded createConversationRequest.t)
| ListConversations
| SearchUsersRequest (q : string)
| GetUserProfile (id : string)
| PublishKeyPackages (req : decoded publishKeyPackagesRequest.t)
| KeyPackageCount (deviceID : string)
| DeleteKeyPackagesRequest (deviceID : string)
| RegisterDevice (req : decoded registerDeviceRequest.t)
| ListMyDevices
| TerminateDevice (deviceId : string)
| IceServers (conversationId : string)
| PutKeyBackupRequest (req : decoded putKeyBackupRequest.t)
| GetKeyBackupRequest
| AppendKeyBackupTailRequest (req : decoded (string * list tailEntry.t))
| GetKeyBackupTail
| ListKeyBackupVersionsRequest
| GetKeyBackupVersion (versionId : string).

(** The conversation a request names in its path. *)
Definition names (r : chat_request) : option string :=
  match r with InConversation id _ => Some id | _ => None end.

Section Serve.
Context {B : Type} {BS : BlobStore B} {RO : RangeOrder} {U : Unicode} {NU : NetUrl} {E : Ed25519} {HM : Hmac}.
Context (h : Handler.t).

Definition serve_conversation (c : Caller.t) (id : string) (r : conversation_request)
  : prog (World.t B) Env.t response :=
  match r with
  | GetConversation => getConversation c id
  | DeleteConversationRequest => deleteConversation h c id
  | ListMessages limit cursor => listMessages c id limit cursor
  | ClearMessages => clearMessages c id
  | ReportReceipt req => reportReceipt h c id req
  | UploadAttachment body => uploadAttachment h c id body
  | GetAttachmentRequest attachmentId => getAttachment h c id attachmentId
  | PostMessage req => postMessage h c id req
  | ListMembers => listMembers c id
  | AddMember userID => addMember h c id userID
  | SetMemberRole userId role => setMemberRole c id userId role
  | RemoveMember userId => removeMember c id userId
  | ListDevices => listDevices c id
  | ClaimKeyPackages refs => claimKeyPackages h c id refs
  | GetMLSGroup => getMLSGroup c id
  | ListMLSCommits since => listMLSCommits c id since
  | PostMLSCommit req => postMLSCommit h c id req
  | GetMLSGroupInfo => getMLSGroupInfo c id
  | PostMLSGroupInfo req => postMLSGroupInfo c id req
  | PostMLSReset => postMLSReset h c id
  | ListHistoryOffers limit => listHistoryOffers c id limit
  | UploadHistory body => uploadHistory h c id body
  | GetHistory historyId => getHistory h c id historyId
  | PostCallSignal callId req => postCallSignal h c id callId req
  | GetCallSignals callId since => getCallSignals h c id callId since
  | PostCallAccept callId deviceID => postCallAccept h c id callId deviceID
  | PostCallRing callId => postCallRing h c id callId
  end.

Definition serve (c : Caller.t) (r : chat_request) : prog (World.t B) Env.t response :=
  match r with
  | InConversation id r => serve_conversation c id r
  | CreateConversationRequest req => createConversation h c req
  | ListConversations => listConversations c
  | SearchUsersRequest q => searchUsers c q
  | GetUserProfile id => getUserProfile c id
  | PublishKeyPackages req => publishKeyPackages c req
  | KeyPackageCount deviceID => keyPackageCount c deviceID
  | DeleteKeyPackagesRequest deviceID => deleteKeyPackages c deviceID
  | RegisterDevice req => registerDevice c req
  | ListMyDevices => listMyDevices c
  | TerminateDevice deviceId => terminateDevice h c deviceId
  | IceServers conversationId => iceServers h c conversationId
  | PutKeyBackupRequest req => putKeyBackup h c req
  | GetKeyBackupRequest => getKeyBackup h c
  | AppendKeyBackupTailRequest req => appendKeyBackupTail c req
  | GetKeyBackupTail => getKeyBackupTail c
  | ListKeyBackupVersionsRequest => listKeyBackupVersions c
  | GetKeyBackupVersion versionId => getKeyBackupVersion h c versionId
  end.

(** Requests that are being served at once. *)
Definition serve_all (reqs : list (Caller.t * chat_request)) : list (prog (World.t B) Env.t response) :=
  (fun cr => serve cr.1 cr.2) <$> reqs.
(** Every route of a conversation starts with the question whether the caller
    is in it. *)
Lemma serve_conversation_member c id r : ∃ k, serve_conversation c id r = requireMember c id k.
Proof. destruct r; by eexists. Qed.

Lemma serve_member c r id : names r = Some id → ∃ k, serve c r = requireMember c id k.
Proof. destruct r; try discriminate. intros [= ->]. apply serve_conversation_member. Qed.
End Serve.
