(* ===== verification/ChatSample.v ===== *)
(** * A small world

    Two conversations on a host without federation, the callers who act on
    them, and instances of the parameters, on which the witnesses of the chat
    API evaluate. *)

From S2P Require Import Prelude.
From S2P Require Import GoStrings.
From S2P Require Import Domain.
From S2P Require Import Threads.
From S2P Require Import Crypto.
From S2P Require Import Blob.
From S2P Require Import MlsChain.
From S2P Require Import StoreState.
From S2P Require Import Peers.
From S2P Require Import ChatWorld.
From S2P Require Import Ident.
From S2P Require Import ConvFed.
From S2P Require Import ChatConversations.
From S2P Require Import ChatMessages.
From S2P Require Import ChatMls.
From S2P Require Import ChatServe.

(** "g" is a group of alice, its admin, and bob; "d" a conversation of bob and
    carol. *)
Definition town_user (id : string) : User.t := User.zero <| User.ID := id |> <| User.Username := id |>.
Definition town_member (id cid uid role : string) : ConversationMember.t :=
  ConversationMember.zero <| ConversationMember.ID := id |> <| ConversationMember.ConversationID := cid |>
    <| ConversationMember.UserID := uid |> <| ConversationMember.Role := role |>.
Definition town_conversation (id kind : string) : Conversation.t :=
  Conversation.zero <| Conversation.ID := id |> <| Conversation.Kind := kind |>.
Definition town_message : ChatMessage.t :=
  ChatMessage.mk "m1" "g" "alice" "cipher" "application/octet-stream" 5 0 "" 1 "".

Definition town : Memory.t BlobMemory.t :=
  (Memory.NewMemory (Some BlobMemory.NewMemory))
    <| Memory.users := {["alice" := town_user "alice"; "bob" := town_user "bob"; "carol" := town_user "carol"]} |>
    <| Memory.conversations := {["g" := town_conversation "g" ConversationGroup;
                                 "d" := town_conversation "d" ConversationDirect]} |>
    <| Memory.convMembers := {["r1" := town_member "r1" "g" "alice" RoleAdmin; "r2" := town_member "r2" "g" "bob" RoleUser;
                               "r3" := town_member "r3" "d" "bob" RoleUser; "r4" := town_member "r4" "d" "carol" RoleUser]} |>
    <| Memory.chatMessages := {["m1" := town_message]} |>.

Definition town_world : World.t BlobMemory.t := World.init town.
Definition town_handler : Handler.t :=
  Handler.mk "" false ICEConfig.zero true false true false 0 None.
Definition town_caller (uid : string) : Caller.t := Caller.mk (Some uid) RoleUser "s".

(** The ids drawn at [prefix]: each longer than the one before. *)
Definition town_id (prefix : string) (i : nat) : string := String.append prefix (Nat.iter i (String "x") "").
Definition town_env (prefix : string) (f : fault) : Env.t :=
  Env.mk 100 f (fun _ => true) (town_id prefix) (Ok (town_id prefix 0)) (fun _ _ => []) (fun _ _ => []) (fun _ => None) unreachable.

(** The HMAC is not used by these requests. *)
Definition town_hmac : Hmac := {| hmac_sha1 key msg := String.append key msg |}.
Definition town_serve : list (Caller.t * chat_request) → list (prog (World.t BlobMemory.t) Env.t response) :=
  @serve_all _ _ order_fwd ascii_only simple_url toy_ed25519 town_hmac town_handler.

(** The answers of the requests that are done, and how they end. *)
Definition answer_of {W V R} (p : prog W V R) : option R := match p with Done r => Some r | Act _ _ => None end.
Definition status (r : response) : Z :=
  match r with Error s _ => s | Reply s _ => s | NoContent => 204 | Panicked => 0 end.
Definition statuses {W V} (ps : list (prog W V response)) : list (option Z) := (fun p => status <$> answer_of p) <$> ps.

(** [n] turns of each of [k] requests in turn, each with ids of its own. *)
Definition town_prefixes : list string := ["a"; "b"; "c"; "e"; "f"; "h"; "i"; "j"; "k"; "l"].
Definition town_turns (k n : nat) : list (nat * Env.t) :=
  mjoin ((fun p => (fun i => (i, town_env p Works)) <$> seq 0 k) <$> take n town_prefixes).

Definition town_ids : list string := ["g"; "d"; "r1"; "r2"; "r3"; "r4"; "m1"].

Lemma town_keyed : keyed Conversation.ID (Memory.conversations town).
Proof. intros id conv. cbn. rewrite lookup_insert_Some, lookup_singleton_Some. naive_solver. Qed.

(** What is drawn is none of the ids in use. *)
Lemma town_turns_fresh k n i env : (i, env) ∈ town_turns k n →
  (∀ j, Env.fresh env j ∉ town_ids) ∧ (∀ id, Env.newBlob env = Ok id → id ∉ town_ids) ∧
  (∀ hub s echo, Env.peers env (SubmitMessageToHub hub s) = Ok echo → RelayedMessage.ID echo ∉ town_ids).
Proof.
  intros Hin. apply list_elem_of_join in Hin as (l & Hl & Hin).
  apply list_elem_of_fmap in Hin as (p & -> & Hp). apply list_elem_of_fmap in Hl as (i' & [= -> ->] & _).
  assert (∀ j, town_id p j ∉ town_ids) as Hid.
  { intros j. apply elem_of_take in Hp as (x & Hp & _). apply list_elem_of_lookup_2 in Hp.
    repeat (apply elem_of_cons in Hp as [->|Hp]); [..|by apply elem_of_nil in Hp];
      unfold town_ids; rewrite !not_elem_of_cons; (split_and!; [discriminate..|apply not_elem_of_nil]). }
  split_and!; [apply Hid | by intros id [= <-] | discriminate].
Qed.
