(* ===== verification/ChatQuiet.v ===== *)
(** * Requests that change no conversation

    Most routes leave the conversations, rosters, logs, attachment records and
    GroupInfos of the store as they are. Shown once, for every property of
    those tables. *)

From S2P Require Import Prelude.
From S2P Require Import GoStrings.
From S2P Require Import Domain.
From S2P Require Import Threads.
From S2P Require Import Crypto.
From S2P Require Import Blob.
From S2P Require Import MlsChain.
From S2P Require Import Nodelist.
From S2P Require Import Ident.
From S2P Require Import StoreState.
From S2P Require Import StoreUsers.
From S2P Require Import StoreDevices.
From S2P Require Import StoreConversations.
From S2P Require Import StoreMls.
From S2P Require Import StoreBackup.
From S2P Require Import Calls.
From S2P Require Import Live.
From S2P Require Import PushNotify.
From S2P Require Import Peers.
From S2P Require Import ChatWorld.
From S2P Require Import ChatPush.
From S2P Require Import ConvFed.
From S2P Require Import ChatConversations.
From S2P Require Import ChatMessages.
From S2P Require Import ChatMls.
From S2P Require Import ChatKeys.
From S2P Require Import ChatCalls.
From S2P Require Import ChatFrame.
From S2P Require Import ChatServe.

(** The tables the conversations and the channels are held in, and that of the
    users. *)
Definition quiet_part {B} (m : Memory.t B) :=
  (Memory.conversations m, Memory.convMembers m, Memory.chatMessages m, Memory.attachments m, Memory.mlsGroupInfo m,
   (Memory.channels m, Memory.apiKeys m, Memory.messages m, Memory.members m, Memory.users m)).

(** A property of them. *)
Definition quiet_only {B} (I : Memory.t B → Prop) : Prop := ∀ m m', quiet_part m' = quiet_part m → I m → I m'.

Definition quiet (r : chat_request) : bool :=
  match r with
  | InConversation _ (DeleteConversationRequest | ClearMessages | ReportReceipt _ | UploadAttachment _ | PostMessage _
                     | AddMember _ | SetMemberRole _ _ | RemoveMember _ | PostMLSCommit _ | PostMLSGroupInfo _
                     | PostMLSReset)
  | CreateConversationRequest _ => false
  | _ => true
  end.

Section Quiet.
Context {B : Type} {BS : BlobStore B} {RO : RangeOrder} {U : Unicode} {NU : NetUrl} {E : Ed25519} {HM : Hmac}.
Context (h : Handler.t) (ok : Env.t → Prop) (I : Memory.t B → Prop) (HI : quiet_only I).
Abbreviation handler := (prog (World.t B) Env.t response).
Implicit Types (c : Caller.t) (m : Memory.t B).

Lemma quiet_only_blobs : blind_to_blobs I.
Proof. intros m b. by apply HI. Qed.

(** ** Operations of the store *)

Lemma add_key_packages_part fresh packages : ∀ i m, quiet_part (add_key_packages m fresh i packages) = quiet_part m.
Proof.
  induction packages as [|kp l IH]; intros i m; cbn [add_key_packages]; [done|]. rewrite IH.
  unfold add_key_package. by case_match.
Qed.
Lemma append_tail_part fresh entries : ∀ i m, quiet_part (append_tail m fresh i entries) = quiet_part m.
Proof. induction entries as [|e l IH]; intros i m; cbn [append_tail]; [done|]. by rewrite IH. Qed.
Lemma ClaimKeyPackage_part m uid did : quiet_part (ClaimKeyPackage m uid did).1 = quiet_part m.
Proof. unfold ClaimKeyPackage. by repeat case_match. Qed.
Lemma RevokeMLSDevice_part m uid did now : quiet_part (RevokeMLSDevice m uid did now).1 = quiet_part m.
Proof. unfold RevokeMLSDevice. by case_match. Qed.
Lemma DeletePushDevices_part m uid did : quiet_part (DeletePushDevicesForMLSDevice m uid did).1 = quiet_part m.
Proof. unfold DeletePushDevicesForMLSDevice. by case_match. Qed.
Lemma ArchiveKeyBackup_part m nid backup keep : quiet_part (ArchiveKeyBackup m nid backup keep).1 = quiet_part m.
Proof. unfold ArchiveKeyBackup. by repeat case_match. Qed.

Lemma safe_elsewhere {X} (op : Memory.t B → Env.t → memory_op B X) (k : _ → handler) :
  (∀ m env, quiet_part (op m env).1 = quiet_part m) → (∀ r, safe ok I (k r)) → safe ok I (store_call op k).
Proof. intros Hop. apply safe_store_call. intros m env _. by apply HI. Qed.

(** ** Guards *)

Lemma safe_requireUser c (k : string → handler) : (∀ uid, safe ok I (k uid)) → safe ok I (requireUser c k).
Proof. intros Hk. unfold requireUser. case_match; [apply Hk | apply safe_done]. Qed.
Lemma safe_DecodeLimited {X} (d : decoded X) (k : X → handler) : (∀ x, safe ok I (k x)) → safe ok I (DecodeLimited d k).
Proof. intros Hk. destruct d; [apply Hk | apply safe_done..]. Qed.
Lemma safe_requireMember c id (k : string → ConversationMember.t → handler) :
  (∀ uid mem, safe ok I (k uid mem)) → safe ok I (requireMember c id k).
Proof.
  intros Hk. apply safe_requireUser. intros uid. apply safe_store_read. intros r.
  repeat case_match; first [apply safe_done | apply Hk].
Qed.
Lemma safe_rate_limited key (k : handler) : safe ok I k → safe ok I (rate_limited h key k).
Proof. intros Hk. unfold rate_limited. by repeat safe_step. Qed.
End Quiet.

Ltac quiet_step :=
  lazymatch goal with
  | |- safe _ _ (requireMember _ _ _) => apply safe_requireMember; intros ? ?
  | |- safe _ _ (requireUser _ _) => apply safe_requireUser; intros ?
  | |- safe _ _ (DecodeLimited _ _) => apply safe_DecodeLimited; intros ?
  | |- safe _ _ (rate_limited _ _ _) => apply safe_rate_limited
  | |- safe _ _ (store_call _ _) =>
      apply safe_elsewhere; [assumption | intros ? ?; first [reflexivity | apply add_key_packages_part
        | apply append_tail_part | apply ClaimKeyPackage_part | apply RevokeMLSDevice_part
        | apply DeletePushDevices_part | apply ArchiveKeyBackup_part] | intros ?]
  | |- _ => safe_helper
  end.

Section Endpoints.
Context {B : Type} {BS : BlobStore B} {RO : RangeOrder} {U : Unicode} {NU : NetUrl} {E : Ed25519} {HM : Hmac}.
Context (h : Handler.t) (ok : Env.t → Prop) (I : Memory.t B → Prop) (HI : quiet_only I).
Abbreviation handler := (prog (World.t B) Env.t response).
Implicit Types (c : Caller.t) (k : handler).
Let HB : blind_to_blobs I := quiet_only_blobs I HI.

(** ** Helpers of the handlers *)

Lemma safe_membersView id (k : list memberView.t → handler) :
  (∀ ms, safe ok I (k ms)) → safe ok I (membersView id k).
Proof. intros Hk. unfold membersView. by repeat quiet_step. Qed.
Lemma safe_last_messages ids (k : gmap string ChatMessage.t → handler) :
  (∀ last, safe ok I (k last)) → safe ok I (last_messages ids k).
Proof. intros Hk. unfold last_messages. by repeat quiet_step. Qed.
Lemma safe_conversation_views convs last out (k : list conversationView.t → handler) :
  (∀ vs, safe ok I (k vs)) → safe ok I (conversation_views convs last out k).
Proof.
  intros Hk. revert out. induction convs as [|conv convs IH]; intros out; cbn [conversation_views]; [done|].
  by apply safe_membersView.
Qed.
Lemma safe_nudge_recipients id (k : list string → handler) :
  (∀ to, safe ok I (k to)) → safe ok I (nudge_recipients id k).
Proof. intros Hk. unfold nudge_recipients, memberIDs. by repeat quiet_step. Qed.
Lemma safe_claim_devices members home refs done out (k : list claimed.t → handler) :
  (∀ cs, safe ok I (k cs)) → safe ok I (claim_devices h members home refs done out k).
Proof.
  intros Hk. revert done out. induction refs as [|d refs IH]; intros done out; cbn [claim_devices]; [apply Hk|].
  cbv zeta. by repeat first [apply IH | quiet_step].
Qed.
Lemma safe_revoke_login uid target k : safe ok I k → safe ok I (revoke_login h uid target k).
Proof.
  intros Hk. unfold revoke_login, Revoke, RevokeUserBefore.
  repeat first [assumption | quiet_step | apply safe_quiet; [intros ? ?; cbn; by repeat case_match | intros ?]].
Qed.
Lemma safe_drop_pruned backup old k : safe ok I k → safe ok I (drop_pruned backup old k).
Proof. intros Hk. unfold drop_pruned. cbv zeta. by repeat quiet_step. Qed.
Lemma safe_archive prev backup k : safe ok I k → safe ok I (archive_superseded prev backup k).
Proof.
  intros Hk. unfold archive_superseded. case_match; [|done]. quiet_step.
  apply safe_for_each; [|done]. intros. by apply safe_drop_pruned.
Qed.
Lemma safe_truncate uid req k : safe ok I k → safe ok I (truncate_tail uid req k).
Proof. intros Hk. unfold truncate_tail. by repeat quiet_step. Qed.
Lemma safe_store_blobs req uid (k : MLSKeyBackup.t → handler) :
  (∀ b, safe ok I (k b)) → safe ok I (store_blobs req uid k).
Proof. intros Hk. unfold store_blobs. by repeat first [apply Hk | quiet_step]. Qed.
Lemma safe_hydrate backup : safe ok I (hydrate backup).
Proof. unfold hydrate. repeat quiet_step. Qed.
Lemma safe_last_resort uid req now (k : list MLSKeyPackage.t → handler) :
  (∀ l, safe ok I (k l)) → safe ok I (last_resort_package uid req now k).
Proof. intros Hk. unfold last_resort_package. by repeat first [apply Hk | quiet_step]. Qed.
Lemma safe_mayRemove id mem removes (k : bool → handler) :
  (∀ b, safe ok I (k b)) → safe ok I (mayRemove id mem removes k).
Proof. intros Hk. unfold mayRemove. case_match; [apply Hk|]. quiet_step. apply Hk. Qed.
Lemma safe_relay_if_hub id f k :
  (∀ fed conv k, safe ok I k → safe ok I (f fed conv k)) → safe ok I k → safe ok I (relay_if_hub h id f k).
Proof. intros Hf Hk. unfold relay_if_hub. repeat quiet_step; [by apply Hf | done..]. Qed.
End Endpoints.

Ltac quiet_helper :=
  lazymatch goal with
  | |- safe _ _ (membersView _ _) => apply safe_membersView; intros ?
  | |- safe _ _ (last_messages _ _) => apply safe_last_messages; intros ?
  | |- safe _ _ (conversation_views _ _ _ _) => apply safe_conversation_views; intros ?
  | |- safe _ _ (nudge_recipients _ _) => apply safe_nudge_recipients; intros ?
  | |- safe _ _ (claim_devices _ _ _ _ _ _ _) => apply safe_claim_devices; [assumption | intros ?]
  | |- safe _ _ (revoke_login _ _ _ _) => apply safe_revoke_login; [assumption|]
  | |- safe _ _ (archive_superseded _ _ _) => apply safe_archive; [assumption|]
  | |- safe _ _ (truncate_tail _ _ _) => apply safe_truncate; [assumption|]
  | |- safe _ _ (store_blobs _ _ _) => apply safe_store_blobs; [assumption | intros ?]
  | |- safe _ _ (hydrate _) => apply safe_hydrate; assumption
  | |- safe _ _ (last_resort_package _ _ _ _) => apply safe_last_resort; intros ?
  | |- _ => quiet_step
  end.

(** ** The endpoints *)

Section Serve.
Context {B : Type} {BS : BlobStore B} {RO : RangeOrder} {U : Unicode} {NU : NetUrl} {E : Ed25519} {HM : Hmac}.
Context (h : Handler.t) (ok : Env.t → Prop) (I : Memory.t B → Prop) (HI : quiet_only I).
Implicit Types (c : Caller.t).
Let HB : blind_to_blobs I := quiet_only_blobs I HI.

Lemma quiet_serve_conversation c id r :
  quiet (InConversation id r) = true → safe ok I (serve_conversation h c id r).
Proof.
  intros Hr. destruct r; try discriminate Hr; clear Hr; cbn [serve_conversation].
  all: unfold getConversation, listMessages, getAttachment, listMembers, listDevices, claimKeyPackages, getMLSGroup,
    listMLSCommits, getMLSGroupInfo, listHistoryOffers, uploadHistory, getHistory, postCallSignal, getCallSignals,
    postCallAccept, postCallRing, memberIDs, no_calling.
  all: repeat quiet_helper.
Qed.

Lemma quiet_serve c r : quiet r = true → safe ok I (serve h c r).
Proof.
  intros Hr. destruct r as [id r| | | | | | | | | | | | | | | | |]; try discriminate Hr; cbn [serve];
    [by apply quiet_serve_conversation|..]; clear Hr.
  all: unfold listConversations, searchUsers, getUserProfile, publishKeyPackages, keyPackageCount, deleteKeyPackages,
    registerDevice, listMyDevices, terminateDevice, iceServers, putKeyBackup, getKeyBackup, appendKeyBackupTail,
    getKeyBackupTail, listKeyBackupVersions, getKeyBackupVersion, no_calling.
  all: repeat quiet_helper.
Qed.
End Serve.
