(* ===== verification/ChatElsewhere.v ===== *)
(** * The rest of the store

    A request about one conversation leaves what is held of another alone. *)

From S2P Require Import Prelude.
From S2P Require Import GoStrings.
From S2P Require Import Domain.
From S2P Require Import Threads.
From S2P Require Import Crypto.
From S2P Require Import MlsChain.
From S2P Require Import Nodelist.
From S2P Require Import Ident.
From S2P Require Import Calls.
From S2P Require Import Blob.
From S2P Require Import StoreState.
From S2P Require Import StoreUsers.
From S2P Require Import StoreDevices.
From S2P Require Import StoreConversations.
From S2P Require Import StoreMls.
From S2P Require Import StoreBackup.
From S2P Require Import Push.
From S2P Require Import Live.
From S2P Require Import PushNotify.
From S2P Require Import Peers.
From S2P Require Import ChatWorld.
From S2P Require Import ChatPush.
From S2P Require Import ConvFed.
From S2P Require Import ChatConversations.
From S2P Require Import ChatMessages.
From S2P Require Import ChatMls.
From S2P Require Import ChatKeys.
From S2P Require Import ChatCalls.
From S2P Require Import ChatFrame.
From S2P Require Import ChatServe.
From S2P Require Import ChatSample.
From S2P Require Import ChatQuiet.

(** ** The rows of a conversation *)

Section Rows.
Context {A : Type} (conv : A → string) (G : string).
Implicit Types (t : gmap string A).

Definition rows t : gmap string A := filter (fun kv => conv kv.2 = G) t.

Lemma rows_None t id : (∀ x, t !! id = Some x → conv x ≠ G) → rows t !! id = None.
Proof. intros H. apply map_lookup_filter_None. right. intros x Hx Hc. by apply (H x). Qed.

Lemma rows_insert t id x : conv x ≠ G → rows t !! id = None → rows (<[id := x]> t) = rows t.
Proof.
  intros Hx Hid. unfold rows. rewrite map_filter_insert_False by done.
  rewrite map_filter_delete. by apply delete_id.
Qed.
Lemma rows_update t id x y : t !! id = Some y → conv y ≠ G → conv x ≠ G → rows (<[id := x]> t) = rows t.
Proof. intros Hy Hc Hx. apply rows_insert; [done|]. apply rows_None. congruence. Qed.
Lemma rows_delete t id y : t !! id = Some y → conv y ≠ G → rows (delete id t) = rows t.
Proof.
  intros Hy Hc. unfold rows. rewrite map_filter_delete. apply delete_id. apply rows_None. congruence.
Qed.
Lemma rows_range_delete {RO : RangeOrder} t (p : A → bool) :
  (∀ x, p x = true → conv x ≠ G) → rows (range_delete p t) = rows t.
Proof.
  intros Hp. apply map_eq. intros id. apply option_eq. intros x. unfold rows.
  rewrite !map_lookup_filter_Some, range_delete_Some. cbn [snd]. specialize (Hp x).
  destruct (p x); naive_solver.
Qed.
End Rows.

(** What the store's records hold of conversation [G]. An attachment is its record:
    its content is a blob, which is not among them. *)
Module Held.
Record t := mk {
  conversation : option Conversation.t; roster : gmap string ConversationMember.t;
  log : gmap string ChatMessage.t; attachments : gmap string Attachment.t; info : option MLSGroupInfo.t
}.
End Held.

Definition part {A} (whole : bool) (t : gmap string A) : gmap string A := if whole then t else ∅.

Lemma part_rows_insert {A} whole (conv : A → string) G t id x :
  conv x ≠ G → part whole (rows conv G t) !! id = None →
  part whole (rows conv G (<[id := x]> t)) = part whole (rows conv G t).
Proof. destruct whole; [apply rows_insert | done]. Qed.

(** All of it, or without the log and the attachments. *)
Definition held_of {B} (whole : bool) (G : string) (m : Memory.t B) : Held.t :=
  Held.mk (Memory.conversations m !! G) (rows ConversationMember.ConversationID G (Memory.convMembers m))
    (part whole (rows ChatMessage.ConversationID G (Memory.chatMessages m)))
    (part whole (rows Attachment.ConversationID G (Memory.attachments m))) (Memory.mlsGroupInfo m !! G).
Abbreviation held := (held_of true).

(** An id that none of it bears. *)
Definition unused (hd : Held.t) (G id : string) : Prop :=
  id ≠ G ∧ Held.roster hd !! id = None ∧ Held.log hd !! id = None ∧ Held.attachments hd !! id = None.

(** What [newID], the blob store and the hubs of other conversations draw does
    not collide with what is there. *)
Definition distinct_ids (hd : Held.t) (G : string) (env : Env.t) : Prop :=
  (∀ i, unused hd G (Env.fresh env i)) ∧
  (∀ id, Env.newBlob env = Ok id → unused hd G id) ∧
  (∀ hub s echo, Env.peers env (SubmitMessageToHub hub s) = Ok echo → unused hd G (RelayedMessage.ID echo)).

(** ** The operations of the store on other conversations *)

Section Store.
Context {B : Type} {BS : BlobStore B} {RO : RangeOrder}.
Context (whole : bool) (G : string) (hd : Held.t).
Implicit Types (m : Memory.t B) (id uid : string).

Definition same m : Prop := held_of whole G m = hd.

Lemma same_blobs : blind_to_blobs same.
Proof. intros m b Hm. exact Hm. Qed.

Lemma unused_or_fresh id nid : unused hd G nid → id = "" ∨ unused hd G id → unused hd G (or_fresh id nid).
Proof. unfold or_fresh. intros Hn [->|Hi]; [done|]. by case_match. Qed.

Lemma withReceiptFloor_conv mem :
  ConversationMember.ConversationID (withReceiptFloor mem) = ConversationMember.ConversationID mem.
Proof. unfold withReceiptFloor. by repeat case_match. Qed.

Lemma insert_members_rows cid fresh i members (t : gmap string ConversationMember.t) :
  cid ≠ G → (∀ j, unused hd G (fresh j)) → Forall (fun mem => ConversationMember.ID mem = "") members →
  rows ConversationMember.ConversationID G t = Held.roster hd →
  rows ConversationMember.ConversationID G (insert_members cid fresh i members t) = Held.roster hd.
Proof.
  intros Hc Hf HF. revert i t. induction HF as [|mem members Hid _ IH]; intros i t Ht; cbn [insert_members]; [done|].
  apply IH. rewrite rows_insert; [done|..].
  - rewrite withReceiptFloor_conv. exact Hc.
  - cbn. rewrite Ht. apply unused_or_fresh; [apply Hf | by left].
Qed.

Lemma same_CreateConversation m fresh c members :
  same m → (∀ j, unused hd G (fresh j)) → Conversation.ID c = "" ∨ Conversation.ID c ≠ G →
  Forall (fun mem => ConversationMember.ID mem = "") members →
  same (CreateConversation m fresh c members).1 ∧
  ∀ c', (CreateConversation m fresh c members).2 = Ok c' → Conversation.ID c' ≠ G.
Proof.
  intros Hm Hf Hc HF. assert (or_fresh (Conversation.ID c) (fresh 0%nat) ≠ G) as Hne.
  { destruct (Hf 0%nat) as (Hne & _). unfold or_fresh. case_bool_decide; [done | by destruct Hc]. }
  unfold CreateConversation. set (cid := or_fresh _ _) in *.
  split; [|by intros c' [= <-]]. unfold same in *. rewrite <- Hm. unfold held_of. cbn. f_equal.
  - by apply lookup_insert_ne.
  - rewrite (insert_members_rows _ _ _ _ _ Hne Hf HF); by rewrite <- Hm.
Qed.

Lemma same_DeleteConversation m id : same m → id ≠ G → same (DeleteConversation m id).1.
Proof.
  intros Hm Hne. unfold same in *. rewrite <- Hm. unfold DeleteConversation, held_of. cbn. f_equal.
  - by apply lookup_delete_ne.
  - apply rows_range_delete. intros x Hx%bool_decide_eq_true. congruence.
  - f_equal. apply rows_range_delete. intros x Hx%bool_decide_eq_true. congruence.
Qed.

(** What is written over a row of another conversation. *)
Lemma same_on_conv_member {A} m id uid (f : string → ConversationMember.t → gmap string ConversationMember.t * A) :
  same m → id ≠ G →
  (∀ k mem, Memory.convMembers m !! k = Some mem → ConversationMember.ConversationID mem ≠ G →
     rows ConversationMember.ConversationID G (f k mem).1 = rows ConversationMember.ConversationID G (Memory.convMembers m)) →
  same (on_conv_member m id uid f).1.
Proof.
  intros Hm Hne Hf. unfold on_conv_member. destruct (range_find _ _) as [[k mem]|] eqn:Hr; [|done].
  apply range_find_Some in Hr as [Hk Hc]. apply is_conv_member_true in Hc as [Hc _].
  specialize (Hf k mem Hk). destruct (f k mem) as [t a]. unfold same in *. rewrite <- Hm. unfold held_of. cbn in *.
  f_equal. apply Hf. congruence.
Qed.
Lemma same_RemoveConversationMember m id uid : same m → id ≠ G → same (RemoveConversationMember m id uid).1.
Proof. intros Hm Hne. apply same_on_conv_member; [done..|]. intros k mem Hk Hc. by apply (rows_delete _ _ _ _ mem). Qed.
Lemma same_SetConversationMemberRole m id uid role :
  same m → id ≠ G → same (SetConversationMemberRole m id uid role).1.
Proof. intros Hm Hne. apply same_on_conv_member; [done..|]. intros k mem Hk Hc. by apply (rows_update _ _ _ _ _ mem). Qed.
Lemma same_ClearConversationHistory m id uid before :
  same m → id ≠ G → same (ClearConversationHistory m id uid before).1.
Proof. intros Hm Hne. apply same_on_conv_member; [done..|]. intros k mem Hk Hc. by apply (rows_update _ _ _ _ _ mem). Qed.
Lemma same_SetConversationReceipt m id uid d r :
  same m → id ≠ G → same (SetConversationReceipt m id uid d r).1.
Proof.
  intros Hm Hne. apply same_on_conv_member; [done..|]. intros k mem Hk Hc. apply (rows_update _ _ _ _ _ mem); [done..|].
  unfold advance_receipt. by repeat case_match.
Qed.

Lemma same_AddConversationMember m nid mem :
  same m → unused hd G nid → ConversationMember.ID mem = "" → ConversationMember.ConversationID mem ≠ G →
  same (AddConversationMember m nid mem).1.
Proof.
  intros Hm Hn Hid Hc. unfold AddConversationMember. destruct (range_find _ _) as [[k row]|]; [done|].
  unfold same in *. rewrite <- Hm. unfold held_of. cbn -[or_fresh withReceiptFloor]. rewrite withReceiptFloor_ID.
  f_equal. apply rows_insert.
  - rewrite withReceiptFloor_conv. by case_match.
  - rewrite <- Hm in Hn. destruct Hn as (_ & Hn & _). by case_match; cbn; rewrite Hid.
Qed.

Lemma appendChatMessageLocked_row m nid msg : ∃ msg',
  appendChatMessageLocked m nid msg =
    (m <| Memory.chatMessages := <[or_fresh (ChatMessage.ID msg) nid := msg']> (Memory.chatMessages m) |>, msg') ∧
  ChatMessage.ConversationID msg' = ChatMessage.ConversationID msg.
Proof. unfold appendChatMessageLocked. cbn -[or_fresh]. case_match; eexists; (split; [reflexivity | done]). Qed.

Lemma same_append m nid msg :
  same m → unused hd G nid → ChatMessage.ID msg = "" ∨ unused hd G (ChatMessage.ID msg) →
  ChatMessage.ConversationID msg ≠ G → same (appendChatMessageLocked m nid msg).1.
Proof.
  intros Hm Hn Hid Hc. destruct (appendChatMessageLocked_row m nid msg) as (msg' & -> & Hc').
  pose proof (unused_or_fresh _ _ Hn Hid) as (_ & _ & Hu & _). unfold same in *. rewrite <- Hm in Hu |- *.
  unfold held_of. cbn -[or_fresh]. f_equal. apply part_rows_insert; [congruence | exact Hu].
Qed.
Lemma same_AppendChatMessage m nid msg :
  same m → unused hd G nid → ChatMessage.ID msg = "" ∨ unused hd G (ChatMessage.ID msg) →
  ChatMessage.ConversationID msg ≠ G → same (AppendChatMessage m nid msg).1.
Proof.
  intros Hm Hn Hid Hc. pose proof (same_append m nid msg Hm Hn Hid Hc). unfold AppendChatMessage.
  by destruct (appendChatMessageLocked m nid msg).
Qed.
(** A message for another conversation, under an id that is not in use. *)
Definition elsewhere (msg : ChatMessage.t) : Prop :=
  (ChatMessage.ID msg = "" ∨ unused hd G (ChatMessage.ID msg)) ∧ ChatMessage.ConversationID msg ≠ G.
Lemma same_append_all (l : list (string * ChatMessage.t)) : ∀ m,
  same m →
  Forall (fun a => unused hd G a.1 ∧ elsewhere a.2) l →
  same (append_all m l).1.
Proof.
  induction l as [|[nid msg] l IH]; intros m Hm HF; cbn [append_all]; [done|].
  apply Forall_cons in HF as [(Hn & Hid & Hc) HF]. cbn [fst snd] in *.
  pose proof (same_append m nid msg Hm Hn Hid Hc) as Hs.
  destruct (appendChatMessageLocked m nid msg) as [m' msg']. specialize (IH m' Hs HF).
  by destruct (append_all m' l).
Qed.

(** *** The group *)

Lemma same_conversation m id c : same m → id ≠ G →
  same (m <| Memory.conversations := <[id := c]> (Memory.conversations m) |>).
Proof. intros Hm Hne. unfold same in *. rewrite <- Hm. unfold held_of. cbn. f_equal. by apply lookup_insert_ne. Qed.

Lemma stamped_elsewhere fresh hash msgs i :
  (∀ j, unused hd G (fresh j)) →
  Forall elsewhere msgs →
  Forall (fun a => unused hd G a.1 ∧ elsewhere a.2)
    (with_fresh fresh i (stampChainHash msgs hash)).
Proof.
  intros Hf HF. unfold stampChainHash. revert i.
  induction HF as [|msg msgs [Hid Hc] _ IH]; intros i; cbn; [done|].
  constructor; [|apply IH]. split; [apply Hf|]. unfold elsewhere, stamp. by case_match.
Qed.

Lemma same_CommitMLSGroup m fresh id gid base msgs :
  same m → id ≠ G → (∀ j, unused hd G (fresh j)) → Forall elsewhere msgs →
  same (CommitMLSGroup m fresh id gid base msgs).1.
Proof.
  intros Hm Hne Hf HF. unfold CommitMLSGroup. destruct (_ !! id) as [c|]; [|done]. cbv zeta.
  case_match; [done|]. set (c' := c <| Conversation.MLS := _ |>).
  pose proof (same_append_all _ _ (same_conversation m id c' Hm Hne) (stamped_elsewhere fresh
    (MLSGroupState.ChainHash (advance (Conversation.MLS c) gid base (commitCiphertext msgs))) msgs 0 Hf HF)) as Hs.
  by destruct (append_all _ _).
Qed.
Lemma same_ResetMLSGroup m id : same m → id ≠ G → same (ResetMLSGroup m id).1.
Proof.
  intros Hm Hne. unfold ResetMLSGroup. destruct (_ !! id) as [c|]; [|done]. case_match; [done|].
  by apply same_conversation.
Qed.
Lemma same_SetMLSGroupInfo m id gid epoch info : same m → id ≠ G → same (SetMLSGroupInfo m id gid epoch info).1.
Proof.
  intros Hm Hne.
  assert (same (m <| Memory.mlsGroupInfo := <[id := MLSGroupInfo.mk gid epoch info]> (Memory.mlsGroupInfo m) |>)) as Hs.
  { unfold same in *. rewrite <- Hm. unfold held_of. cbn. f_equal. by apply lookup_insert_ne. }
  unfold SetMLSGroupInfo. by repeat case_match.
Qed.

(** *** Attachments *)

Lemma same_CreateAttachment m now a :
  same m → unused hd G (Attachment.ID a) → Attachment.ConversationID a ≠ G → same (CreateAttachment m now a).1.
Proof.
  intros Hm Hu Hc. unfold same in *. rewrite <- Hm in Hu |- *. destruct Hu as (_ & _ & _ & Hu).
  unfold CreateAttachment, held_of. cbn. f_equal. apply part_rows_insert; by case_match.
Qed.
Lemma same_DeleteAttachments m id : same m → id ≠ G → same (DeleteAttachments m id).1.
Proof.
  intros Hm Hne. unfold same in *. rewrite <- Hm. unfold DeleteAttachments, held_of. cbn. f_equal. f_equal.
  apply rows_range_delete. intros x Hx%bool_decide_eq_true. congruence.
Qed.
End Store.

(** ** Calls of the handlers *)

Section Calls.
Context {B : Type} {BS : BlobStore B} {RO : RangeOrder} {R : Type}.
Context (whole : bool) (G : string) (ok : Env.t → Prop) (I : Memory.t B → Prop).

(** A property of what is held of [G]. It says that the records of the
    conversations are filed under their ids, and that no id drawn is in use. *)
Class about_held : Prop := {
  about_same m m' : held_of whole G m' = held_of whole G m → keyed Conversation.ID (Memory.conversations m') → I m → I m';
  about_keyed m : I m → keyed Conversation.ID (Memory.conversations m);
  about_ids m env : ok env → I m → distinct_ids (held_of whole G m) G env
}.
Context {HH : about_held}.
Abbreviation handler := (prog (World.t B) Env.t R).
Abbreviation confined := (safe ok I).
Implicit Types (m : Memory.t B) (k : handler) (id uid : string) (hd : Held.t).

Lemma about_quiet_only : quiet_only I.
Proof.
  intros m m' Heq Hm. unfold quiet_part in Heq. injection Heq as Hc Hr Hl Ha Hi _ _ _ _ _. apply (about_same m); [|..|done].
  - unfold held_of. by rewrite Hc, Hr, Hl, Ha, Hi.
  - rewrite Hc. by apply about_keyed.
Qed.

(** A call on another conversation that does not touch the records. *)
Lemma confined_call {X} (op : Memory.t B → Env.t → memory_op B X) (k : _ → handler) :
  (∀ hd m env, distinct_ids hd G env → same whole G hd m → same whole G hd (op m env).1) →
  (∀ m env, Memory.conversations (op m env).1 = Memory.conversations m) →
  (∀ r, confined (k r)) → confined (store_call op k).
Proof.
  intros Hs Hc. apply safe_store_call. intros m env Henv Hm. apply (about_same m); [|..|done].
  - by apply Hs; [apply about_ids|].
  - rewrite Hc. by apply about_keyed.
Qed.

Lemma confined_CreateConversation conv members (k : _ → handler) :
  Conversation.ID conv = "" ∨ Conversation.ID conv ≠ G → Forall (fun mem => ConversationMember.ID mem = "") members →
  (∀ conv', Conversation.ID conv' ≠ G → confined (k (Ok conv'))) → (∀ e, confined (k (Err e))) →
  confined (store_call (fun m env => CreateConversation m (Env.fresh env) conv members) k).
Proof.
  intros Hc HF. apply safe_store_answer. intros m env Henv Hm. destruct (about_ids m env Henv Hm) as [Hf _].
  destruct (same_CreateConversation whole G _ m _ _ _ eq_refl Hf Hc HF) as [Hs Ha].
  split; [|done]. apply (about_same m); [done | |done]. cbn. apply keyed_insert_at; [|done]. by apply about_keyed.
Qed.

Lemma confined_DeleteConversation id (k : _ → handler) : id ≠ G → (∀ r, confined (k r)) →
  confined (store_call (fun m _ => DeleteConversation m id) k).
Proof.
  intros Hne. apply safe_store_call. intros m env _ Hm.
  apply (about_same m); [by apply same_DeleteConversation | |done]. cbn. by apply keyed_delete, about_keyed.
Qed.

Lemma confined_append id msg (k : _ → handler) :
  id ≠ G → ChatMessage.ConversationID msg = id →
  ChatMessage.ID msg = "" ∨ (∀ m, I m → unused (held_of whole G m) G (ChatMessage.ID msg)) →
  (∀ r, confined (k r)) → confined (append_message msg k).
Proof.
  intros Hne Hid Hu. apply safe_store_call. intros m env Henv Hm. apply (about_same m); [| |done].
  - apply same_AppendChatMessage; [done | by apply about_ids | by destruct Hu; auto | congruence].
  - apply about_keyed in Hm. unfold AppendChatMessage. destruct (appendChatMessageLocked_row m (Env.fresh env 0%nat) msg) as (msg' & -> & _). done.
Qed.

Lemma confined_commit id gid base msgs (k : _ → handler) :
  id ≠ G → (∀ hd, (∃ m, I m ∧ hd = held_of whole G m) → Forall (elsewhere G hd) msgs) →
  (∀ r, confined (k r)) → confined (commit_group id gid base msgs k).
Proof.
  intros Hne HF Hk w env Henv Hm. specialize (HF _ (ex_intro _ _ (conj Hm eq_refl))). destruct (about_ids _ env Henv Hm) as [Hf _].
  assert (I (CommitMLSGroup (World.store w) (Env.fresh env) id gid base msgs).1) as Hu.
  { apply (about_same (World.store w)); [by apply same_CommitMLSGroup | |done].
    apply about_keyed in Hm. unfold CommitMLSGroup.
    destruct (_ !! id) as [conv|] eqn:Hc; [|done]. cbv zeta. case_match; [done|].
    destruct (append_all _ _) as [m' out] eqn:Ha. cbn [fst]. rewrite (append_all_conversations _ _ _ _ Ha). cbn.
    by apply (keyed_insert_same _ _ _ conv). }
  cbv zeta. destruct (Env.backend env); (split; [done | apply Hk]).
Qed.

Lemma control_messages_elsewhere id sender gid welcome commit epoch now hd :
  id ≠ G → Forall (elsewhere G hd) (control_messages id sender gid welcome commit epoch now).
Proof.
  intros Hne. unfold control_messages, elsewhere. cbv zeta.
  case_match; repeat constructor; cbn; auto.
Qed.

(** The record of another conversation is another record. *)
Lemma confined_get_conversation id (k : result (failure store_err) Conversation.t → handler) :
  id ≠ G → (∀ conv, Conversation.ID conv ≠ G → confined (k (Ok conv))) → (∀ e, confined (k (Err e))) →
  confined (get_conversation id k).
Proof.
  intros Hne Hk Hu. apply safe_store_known; [|apply Hu]. intros m Hm%about_keyed. unfold ConversationByID.
  destruct (_ !! id) as [conv|] eqn:Hc; cbn [lift]; [|apply Hu]. apply Hk. by rewrite (Hm _ _ Hc).
Qed.
End Calls.
#[export] Hint Resolve about_quiet_only : core.

(** ** The handlers *)

Section Elsewhere.
Context {B : Type} {BS : BlobStore B} {BL : BlobStoreLaws B} {RO : RangeOrder} {U : Unicode} {NU : NetUrl}
  {E : Ed25519} {HM : Hmac}.
Context (h : Handler.t) (whole : bool) (G : string) (ok : Env.t → Prop) (I : Memory.t B → Prop).
Context {HH : about_held whole G ok I}.
Abbreviation handler := (prog (World.t B) Env.t response).
Abbreviation confined := (safe (R := response) ok I).
Implicit Types (c : Caller.t) (m : Memory.t B) (k : handler) (id uid : string) (hd : Held.t).
Let HI : quiet_only I := about_quiet_only whole G ok I.
Let HB : blind_to_blobs I := quiet_only_blobs I HI.

(** *** Helpers *)

Lemma confined_addTarget fed raw (k : result target_err resolvedTarget.t → handler) :
  (∀ r, confined (k r)) → confined (addTarget h fed raw k).
Proof. intros Hk. unfold addTarget, ResolveRemoteUser. by repeat first [apply Hk | quiet_step]. Qed.

Lemma confined_existing_direct key k : confined k → confined (existing_direct key k).
Proof. intros Hk. unfold existing_direct. by repeat quiet_step. Qed.

Lemma confined_resolve_other name (k : User.t → bool → handler) :
  (∀ u remote, confined (k u remote)) → confined (resolve_other h name k).
Proof.
  intros Hk. unfold resolve_other. cbv zeta.
  by repeat first [apply Hk | apply confined_addTarget; intros ? | quiet_step].
Qed.

Lemma confined_provision_direct conv other remote :
  Conversation.ID conv ≠ G → confined (provision_direct h conv other remote).
Proof.
  intros Hne. unfold provision_direct. cbv zeta.
  repeat first [apply (confined_DeleteConversation whole G ok I); [done | intros ?] | quiet_step].
Qed.

Lemma confined_recordMembershipChange id actor subject action k :
  id ≠ G → confined k → confined (recordMembershipChange id actor subject action k).
Proof.
  intros Hne Hk. unfold recordMembershipChange, publish_message. quiet_step.
  apply (confined_append whole G ok I id); [done.. | by left |]. intros r. by repeat quiet_step.
Qed.

(** *** The endpoints that write *)

Definition newcomers (members : list ConversationMember.t) : Prop :=
  Forall (fun mem => ConversationMember.ID mem = "") members.

Lemma confined_group_members ids seen members (k : list ConversationMember.t → handler) :
  newcomers members → (∀ members, newcomers members → confined (k members)) →
  confined (group_members ids seen members k).
Proof.
  intros HF Hk. revert seen members HF.
  induction ids as [|id ids IH]; intros seen members HF; cbn [group_members]; [by apply Hk|].
  case_match; [by apply IH|]. quiet_step. case_match; [|apply safe_done]. quiet_step. apply IH.
  apply Forall_app. by repeat constructor.
Qed.

Lemma confined_createDirect uid req : confined (createDirect h uid req).
Proof.
  unfold createDirect. destruct (createConversationRequest.MemberIDs req) as [|name [|]]; [apply safe_done| |apply safe_done].
  quiet_step. case_match; [|apply safe_done]. apply confined_resolve_other. intros other remote.
  case_match; [apply safe_done|]. destruct (directKeys h _ other) as [key legacy]. apply confined_existing_direct.
  assert (∀ k, confined k → confined ((if legacy != "" then existing_direct legacy else id) k)) as Hl.
  { intros k Hk. case_match; [by apply confined_existing_direct | done]. }
  apply Hl. quiet_step. apply (confined_CreateConversation whole G ok I); [by left| |intros conv Hne|intros e].
  - by destruct remote; repeat (constructor; [done|]).
  - by apply confined_provision_direct.
  - apply confined_existing_direct, safe_done.
Qed.

Lemma confined_createGroup uid req : confined (createGroup uid req).
Proof.
  unfold createGroup. quiet_step. apply confined_group_members; [by repeat constructor|]. intros members HF.
  case_match; [apply safe_done|]. quiet_step.
  apply (confined_CreateConversation whole G ok I); [by left | done |intros conv _; apply safe_done | intros e; apply safe_done].
Qed.

Lemma confined_createConversation c req : confined (createConversation h c req).
Proof.
  unfold createConversation. do 2 quiet_step. cbv zeta.
  repeat first [apply confined_createDirect | apply confined_createGroup | apply safe_done | case_match].
Qed.

Lemma confined_add_local id actor uid : id ≠ G → confined (add_local id actor uid).
Proof.
  intros Hne. unfold add_local. quiet_step. case_match; [|apply safe_done]. quiet_step.
  apply (confined_call whole G ok I); [|intros m env|intros ?].
  - intros hd m env [Hf _] Hm. by apply same_AddConversationMember; [| apply Hf | |].
  - unfold AddConversationMember. by case_match; [case_match|].
  - case_match; [|apply safe_done]. by apply confined_recordMembershipChange, safe_done.
Qed.

Lemma confined_AddRemoteMember fed conv uid domain display username (k : result conv_err unit → handler) :
  Conversation.ID conv ≠ G → (∀ r, confined (k r)) →
  confined (AddRemoteMember fed conv uid domain display username k).
Proof.
  intros Hc Hk. unfold AddRemoteMember. quiet_step. apply (confined_call whole G ok I); [|intros m env|intros ?].
  - intros hd m env [Hf _] Hm. by apply same_AddConversationMember; [| apply Hf | |].
  - unfold AddConversationMember. by case_match; [case_match|].
  - case_match; [by apply safe_ProvisionMirrorOn | apply Hk].
Qed.

Lemma confined_add_remote fed conv id actor name tgt :
  id ≠ G → Conversation.ID conv ≠ G → confined (add_remote fed conv id actor name tgt).
Proof.
  intros Hne Hc. unfold add_remote. case_match; [apply safe_done|]. apply confined_AddRemoteMember; [done|].
  intros ?. repeat first [apply confined_recordMembershipChange; [done|] | quiet_step].
Qed.

Lemma confined_addMember c id name : id ≠ G → confined (addMember h c id name).
Proof.
  intros Hne. apply safe_requireMember. intros uid mem.
  apply (confined_get_conversation whole G ok I); [done|intros conv Hc|intros e; apply safe_done].
  repeat first [by apply confined_add_remote | apply confined_add_local; done
    | apply confined_addTarget; intros ? | quiet_step].
Qed.

Lemma confined_removeMember c id target : id ≠ G → confined (removeMember c id target).
Proof.
  intros Hne. apply safe_requireMember. intros uid mem. cbv zeta. case_match; [apply safe_done|].
  apply (confined_call whole G ok I); [intros hd m env _ Hm; by apply same_RemoveConversationMember| |].
  - intros m env. unfold RemoveConversationMember, on_conv_member. by repeat case_match.
  - intros ?. case_match; [|apply safe_done]. apply confined_recordMembershipChange; [done|].
    unfold publish_deleted. by repeat quiet_step.
Qed.

(** What a call on one row of a roster leaves. *)
Lemma on_conv_member_conversations {A} m id uid (f : _ → _ → _ * A) :
  Memory.conversations (on_conv_member m id uid f).1 = Memory.conversations m.
Proof. unfold on_conv_member. by repeat case_match. Qed.

Lemma confined_setMemberRole c id target role : id ≠ G → confined (setMemberRole c id target role).
Proof.
  intros Hne. apply safe_requireMember. intros uid mem.
  repeat first
    [ apply (confined_call whole G ok I); [intros hd m env _ Hm; by apply same_SetConversationMemberRole
        | intros; apply on_conv_member_conversations | intros ?]
    | quiet_step ].
Qed.

Lemma confined_reportReceipt c id req : id ≠ G → confined (reportReceipt h c id req).
Proof.
  intros Hne. apply safe_requireMember. intros uid mem. quiet_step. cbv zeta. case_match; [apply safe_done|].
  apply (confined_call whole G ok I); [intros hd m env _ Hm; by apply same_SetConversationReceipt
    | intros; apply on_conv_member_conversations | intros ?].
  case_match; [|apply safe_done]. apply safe_publish, safe_relay_if_hub; [|apply safe_done].
  intros fed conv k Hk. by apply safe_ReportReceipt.
Qed.

Lemma confined_clearMessages c id : id ≠ G → confined (clearMessages c id).
Proof.
  intros Hne. apply safe_requireMember. intros uid mem. quiet_step.
  apply (confined_call whole G ok I); [intros hd m env _ Hm; by apply same_ClearConversationHistory
    | intros; apply on_conv_member_conversations | intros ?].
  by case_match.
Qed.

Lemma confined_uploadAttachment c id body : id ≠ G → confined (uploadAttachment h c id body).
Proof.
  intros Hne. apply safe_requireMember. intros uid mem. do 2 (case_match; try apply safe_done).
  do 2 (case_match; [apply safe_done|]).
  apply (safe_blob_put _ _ (fun nid => ∀ m, I m → unused (held_of whole G m) G nid)); [done | | | done].
  { intros env nid Henv Hn m Hm. by eapply (about_ids whole G ok I m env). }
  intros nid Hn. apply safe_store_call; [|intros ?; by repeat quiet_step].
  intros m env _ Hm. apply (about_same whole G ok I m); [|exact (about_keyed whole G ok I m Hm)|done].
  by apply same_CreateAttachment; [| apply Hn |].
Qed.

Lemma confined_deleteConversationAttachments id k :
  id ≠ G → confined k → confined (deleteConversationAttachments h id k).
Proof.
  intros Hne Hk. unfold deleteConversationAttachments. case_match; [done|]. quiet_step. case_match; [|done].
  apply safe_for_each; [intros; by quiet_step|].
  apply (confined_call whole G ok I); [intros hd m env _ Hm; by apply same_DeleteAttachments | done..].
Qed.

Lemma confined_deleteConversation c id : id ≠ G → confined (deleteConversation h c id).
Proof.
  intros Hne. apply safe_requireMember. intros uid mem.
  quiet_step. case_match; [|apply safe_done]. case_match; [apply safe_done|].
  quiet_step. case_match; [|apply safe_done].
  apply confined_deleteConversationAttachments; [done|]. apply (confined_DeleteConversation whole G ok I); [done|]. intros ?.
  case_match; [|apply safe_done]. unfold publish_deleted.
  case_match; [apply safe_PropagateDelete|]; by repeat quiet_step.
Qed.

Lemma confined_post_native uid id ciphertext contentType :
  id ≠ G → confined (post_native h uid id ciphertext contentType).
Proof.
  intros Hne. unfold post_native, membersFor, publish_message. quiet_step.
  apply (confined_append whole G ok I id); [done.. | by left |]. intros ?. case_match; [|apply safe_done].
  apply safe_relay_if_hub; [intros; by apply safe_relay|]. by repeat quiet_step.
Qed.

Lemma confined_ForwardMessage fed hub s (k : option RelayedMessage.t → handler) :
  SubmittedMessage.ConversationID s ≠ G → (∀ r, confined (k r)) → confined (ForwardMessage fed hub s k).
Proof.
  intros Hne Hk. unfold ForwardMessage. apply safe_peer. intros env Henv. cbn beta.
  destruct (Env.peers env _) as [echo|] eqn:He; [|apply Hk].
  apply (confined_append whole G ok I (SubmittedMessage.ConversationID s)); [done..| |].
  { right. intros m Hm. by eapply (about_ids whole G ok I m env Henv Hm). }
  intros ?. case_match; [by apply safe_publishLocal | apply Hk].
Qed.

Lemma confined_postMessage c id req : id ≠ G → confined (postMessage h c id req).
Proof.
  intros Hne. apply safe_requireMember. intros uid mem. cbv zeta.
  repeat first [by apply confined_post_native | apply confined_ForwardMessage; [done | intros ?] | quiet_step].
Qed.

Lemma confined_commit_native uid id req : id ≠ G → confined (commit_native h uid id req).
Proof.
  intros Hne. unfold commit_native, publish_message, observe_commit. quiet_step. cbv zeta.
  apply (confined_commit whole G ok I); [done | by intros ? _; apply control_messages_elsewhere|]. intros [e|res]; [apply safe_done|].
  case_match; [by repeat quiet_step|]. apply safe_for_each; [intros; by quiet_step|].
  apply safe_relay_if_hub; [intros; by apply safe_relay|]. by apply safe_quiet.
Qed.

Lemma confined_commit_forward fed conv uid id req : id ≠ G → confined (commit_forward fed conv uid id req).
Proof.
  intros Hne. unfold commit_forward, ForwardCommit. apply safe_peer. intros env _. cbv beta zeta.
  repeat first [apply (confined_commit whole G ok I); [done | by intros ? _; apply control_messages_elsewhere | intros ?] | quiet_step].
Qed.

Lemma confined_postMLSCommit c id req : id ≠ G → confined (postMLSCommit h c id req).
Proof.
  intros Hne. apply safe_requireMember. intros uid mem. cbv zeta.
  repeat first [by apply confined_commit_native | by apply confined_commit_forward | apply safe_mayRemove; intros ? | quiet_step].
Qed.

Lemma confined_postMLSGroupInfo c id req : id ≠ G → confined (postMLSGroupInfo c id req).
Proof.
  intros Hne. apply safe_requireMember. intros uid mem. cbv zeta.
  repeat first
    [ apply (confined_call whole G ok I); [intros hd m env _ Hm; by apply same_SetMLSGroupInfo
        | intros; unfold SetMLSGroupInfo; by repeat case_match | intros ?]
    | quiet_step ].
Qed.

Lemma confined_ResetMLSGroup id (k : _ → handler) :
  id ≠ G → (∀ r, confined (k r)) → confined (store_call (fun m _ => ResetMLSGroup m id) k).
Proof.
  intros Hne. apply safe_store_call. intros m env _ Hm.
  apply (about_same whole G ok I m); [by apply same_ResetMLSGroup | |done]. apply (about_keyed whole G ok I) in Hm. unfold ResetMLSGroup. destruct (_ !! id) as [conv|] eqn:Hc; [|done]. case_match; [done|].
  cbn. by apply (keyed_insert_same _ _ _ conv).
Qed.

Lemma confined_postMLSReset c id : id ≠ G → confined (postMLSReset h c id).
Proof.
  intros Hne. apply safe_requireMember. intros uid mem. cbv zeta.
  repeat first [apply confined_ResetMLSGroup; [done | intros ?] | quiet_step].
Qed.

(** Every request about another conversation, and every one about none. *)
Lemma confined_serve c r :
  names r ≠ Some G → confined (serve h c r).
Proof.
  intros Hne. destruct (quiet r) eqn:Hq; [by apply quiet_serve|].
  destruct r as [id r| | | | | | | | | | | | | | | | |]; try discriminate Hq; [|apply confined_createConversation].
  cbn in Hne. assert (id ≠ G) by congruence. clear Hne. destruct r; try discriminate Hq; cbn [serve serve_conversation];
    auto using confined_deleteConversation, confined_clearMessages, confined_reportReceipt, confined_uploadAttachment,
      confined_postMessage, confined_addMember, confined_setMemberRole, confined_removeMember, confined_postMLSCommit,
      confined_postMLSGroupInfo, confined_postMLSReset.
Qed.
End Elsewhere.

(** ** On the sample *)

Lemma town_unused id : id ∉ town_ids → unused (held "g" town) "g" id.
Proof.
  unfold town_ids. rewrite !not_elem_of_cons. intros (Hg & _ & H1 & H2 & H3 & H4 & Hm & _).
  repeat split; [done|..]; cbn [held_of].
  - apply map_lookup_filter_None. left. cbn. by rewrite !lookup_insert_ne, lookup_singleton_ne by congruence.
  - apply map_lookup_filter_None. left. cbn. by rewrite lookup_singleton_ne by congruence.
Qed.

(** * Outsiders

    What is on record of one conversation (itself with the state of its group,
    its roster, its log, the records of its attachments, its GroupInfo) is unaffected by
    requests of people who are not in it, however many run at once and
    whatever fails. *)

Definition outsider (hd : Held.t) (uid : string) : Prop :=
  ∀ id mem, Held.roster hd !! id = Some mem → ConversationMember.UserID mem ≠ uid.

Section Outside.
Context {B : Type} {BS : BlobStore B} {BL : BlobStoreLaws B} {RO : RangeOrder} {U : Unicode} {NU : NetUrl}
  {E : Ed25519} {HM : Hmac}.
Context (h : Handler.t) (G : string) (hd : Held.t).

Definition untouched (m : Memory.t B) : Prop := same true G hd m ∧ keyed Conversation.ID (Memory.conversations m).

#[local] Instance untouched_about : about_held true G (distinct_ids hd G) untouched.
Proof.
  split.
  - intros m m' Heq Hk [Hm _]. split; [|done]. unfold same in *. by rewrite Heq.
  - by intros m [_ Hk].
  - intros m env Henv [Hm _]. by rewrite Hm.
Qed.

Lemma outsider_refused c (k : string → ConversationMember.t → prog (World.t B) Env.t response) :
  (∀ uid, Caller.user c = Some uid → outsider hd uid) →
  safe (distinct_ids hd G) untouched (requireMember c G k).
Proof.
  intros Hout. unfold requireMember, requireUser. destruct (Caller.user c) as [uid|]; [|done].
  specialize (Hout uid eq_refl). apply safe_store_known; [|done].
  intros m [Hm _]. unfold ConversationMembership. destruct (range_find _ _) as [[i mem]|] eqn:Hr; [|done]. exfalso.
  apply range_find_Some in Hr as [Hi Hc]. apply is_conv_member_true in Hc as [Hc Hu].
  apply (Hout i mem); [|done]. rewrite <- Hm. by apply map_lookup_filter_Some.
Qed.

Lemma outsider_safe c r :
  (∀ uid, Caller.user c = Some uid → outsider hd uid) → safe (distinct_ids hd G) untouched (serve h c r).
Proof.
  intros Hout. destruct (decide (names r = Some G)) as [Hn|Hn]; [|apply (confined_serve h true G); [apply _ | exact Hn]].
  destruct (serve_member h c r G Hn) as [k ->]. by apply outsider_refused.
Qed.
End Outside.

(** C4. Whatever requests of the chat API people who are not in a conversation
    make, however many are served at once and in whatever order their calls of
    the store, the blobs, the mailbox, the limiter, the clock, the transports
    and the other hosts interleave, fail, or do their work without it being
    known: the record of the conversation with the state of its group, its
    roster with roles, receipts and watermarks, its log, the records of its
    attachments and its GroupInfo stay what they were. This is of the records and
    not of the blobs that hold what is attached: those an outsider who knows their
    ids can delete ([history_fetch_takes_photo]). Of the ids that [newID], the blob
    store and the hubs draw it is assumed that they do not collide with what the
    conversation holds. *)
Theorem outsiders_confined {B} {BS : BlobStore B} {BL : BlobStoreLaws B} {RO : RangeOrder} {U : Unicode} {NU : NetUrl}
  {E : Ed25519} {HM : Hmac} (h : Handler.t) (G : string) (w : World.t B) (reqs : list (Caller.t * chat_request)) turns :
  keyed Conversation.ID (Memory.conversations (World.store w)) →
  (∀ c r uid, (c, r) ∈ reqs → Caller.user c = Some uid → outsider (held G (World.store w)) uid) →
  Forall (fun t => distinct_ids (held G (World.store w)) G t.2) turns →
  held G (World.store (Threads.schedule w (serve_all h reqs) turns).1) = held G (World.store w).
Proof.
  intros Hk Hout Hok. set (hd := held G (World.store w)) in *.
  apply (preserves_schedule (distinct_ids hd G) (fun w => untouched G hd (World.store w))); [done | by split |].
  apply Forall_fmap, Forall_forall. intros [c r] Hin. apply outsider_safe. intros uid. by apply (Hout c r).
Qed.

(** Carol writes into her conversation with bob, asks for alice's group to be
    deleted, and starts a group of her own. *)
Definition carol_requests : list (Caller.t * chat_request) :=
  [(town_caller "carol", InConversation "d" (PostMessage (Decoded (postMessageRequest.mk "hello" ""))));
   (town_caller "carol", InConversation "g" DeleteConversationRequest);
   (town_caller "carol", CreateConversationRequest
      (Decoded (createConversationRequest.mk ConversationGroup ["alice"] "plans")))].
Definition carol_turns : list (nat * Env.t) := town_turns 3 7.

Lemma outsiders_confined_witness :
  let s := Threads.schedule town_world (town_serve carol_requests) carol_turns in
  statuses s.2 = [Some 201; Some 404; Some 201] ∧ held "g" (World.store s.1) = held "g" town.
Proof.
  split; [vm_compute; reflexivity|].
  apply (outsiders_confined town_handler "g" town_world carol_requests carol_turns).
  - apply town_keyed.
  - intros c r uid Hin Hu i mem [Hi Hc]%map_lookup_filter_Some.
    assert (uid = "carol") as ->.
    { unfold carol_requests in Hin. rewrite !elem_of_cons, elem_of_nil in Hin. naive_solver. }
    cbn in Hi, Hc. rewrite !lookup_insert_Some, lookup_singleton_Some in Hi. naive_solver.
  - apply Forall_forall. intros [i env] Hin. destruct (town_turns_fresh _ _ _ _ Hin) as (Hf & Hb & Hp).
    split_and!; eauto using town_unused.
Defined.

(** Alice attaches a photo to her group; carol, who is not in it, fetches it as a
    history of her own conversation and so deletes it: the photo's record is
    still there, and alice is told that there is no such photo. *)
Example history_fetch_takes_photo :
  let s := Threads.schedule town_world
    (town_serve [(town_caller "alice", InConversation "g" (UploadAttachment (Some "photo")));
                 (town_caller "carol", InConversation "d" (GetHistory "d.a"));
                 (town_caller "alice", InConversation "g" (GetAttachmentRequest "a"))])
    ((fun i => (i, town_env "a" Works)) <$> mjoin (replicate 7 <$> seq 0 3)) in
  (answer_of <$> s.2) = [Some (Reply 201 (BID "a")); Some (Reply 200 (BBytes "photo")); Some (Error 404 "no such photo")] ∧
  Attachment.ConversationID <$> Memory.attachments (World.store s.1) !! "a" = Some "g".
Proof. vm_compute. done. Qed.
