(* ===== verification/ChatAuthority.v ===== *)
(** * Who runs a group

    People who are not its admins cannot change who is in a group or what
    anyone may do in it, and cannot delete it; they can leave. *)

From S2P Require Import Prelude.
From S2P Require Import GoStrings.
From S2P Require Import Domain.
From S2P Require Import Threads.
From S2P Require Import Crypto.
From S2P Require Import Blob.
From S2P Require Import MlsChain.
From S2P Require Import Nodelist.
From S2P Require Import Ident.
From S2P Require Import StoreState.
From S2P Require Import StoreUsers.
From S2P Require Import StoreDevices.
From S2P Require Import StoreConversations.
From S2P Require Import StoreMls.
From S2P Require Import StoreBackup.
From S2P Require Import Calls.
From S2P Require Import Push.
From S2P Require Import Live.
From S2P Require Import PushNotify.
From S2P Require Import Peers.
From S2P Require Import ChatWorld.
From S2P Require Import ChatPush.
From S2P Require Import ConvFed.
From S2P Require Import ChatConversations.
From S2P Require Import ChatMessages.
From S2P Require Import ChatMls.
From S2P Require Import ChatKeys.
From S2P Require Import ChatCalls.
From S2P Require Import ChatFrame.
From S2P Require Import ChatServe.
From S2P Require Import ChatSample.
From S2P Require Import ChatQuiet.

From S2P Require Import ChatElsewhere.

(** ** The roster under people who are not admins *)

Section Governed.
Context {B : Type} {BS : BlobStore B} {BL : BlobStoreLaws B} {RO : RangeOrder} {U : Unicode} {NU : NetUrl}
  {E : Ed25519} {HM : Hmac}.
Context (h : Handler.t) (G : string) (roster : gmap string ConversationMember.t) (subjects : list string).
Abbreviation handler := (prog (World.t B) Env.t response).
Implicit Types (c : Caller.t) (m : Memory.t B) (k : handler) (id uid : string) (mem : ConversationMember.t).

Definition roster_of m : gmap string ConversationMember.t :=
  rows ConversationMember.ConversationID G (Memory.convMembers m).

(** The group is there; nobody has joined or been given another role; whoever
    is not among the subjects is there as before. *)
Record governed m : Prop := {
  gov_keyed : keyed Conversation.ID (Memory.conversations m);
  gov_group : ∃ conv, Memory.conversations m !! G = Some conv ∧ Conversation.Kind conv = ConversationGroup;
  gov_rows id mem : roster_of m !! id = Some mem → ∃ mem0, roster !! id = Some mem0 ∧
    ConversationMember.UserID mem = ConversationMember.UserID mem0 ∧
    ConversationMember.Role mem = ConversationMember.Role mem0;
  gov_others id mem : roster !! id = Some mem → ConversationMember.UserID mem ∉ subjects →
    roster_of m !! id = Some mem
}.

(** None of the subjects is an admin. *)
Definition commoners : Prop := ∀ id mem,
  roster !! id = Some mem → ConversationMember.UserID mem ∈ subjects → ConversationMember.Role mem ≠ RoleAdmin.

(** The ids drawn are not those of the group and its rows. *)
Definition off_roster : Env.t → Prop := distinct_ids (Held.mk None roster ∅ ∅ None) G.

#[local] Instance governed_about : about_held false G off_roster governed.
Proof.
  split.
  - intros m m' Heq Hk [_ Hg Hr Ho]. unfold held_of in Heq. injection Heq as Hc Hro Hi.
    split; [done | by rewrite Hc | unfold roster_of in *; by rewrite Hro..].
  - by intros m [].
  - assert (∀ m id, governed m → unused (Held.mk None roster ∅ ∅ None) G id → unused (held_of false G m) G id) as Hu.
    { intros m id Hm (Hne & Hr & _ & _). split; [done|]. split; [|done]. cbn in *.
      apply eq_None_not_Some. intros [mem Hi]. apply (gov_rows m Hm) in Hi as (? & Hi & _). congruence. }
    intros m env (H1 & H2 & H3) Hm. split_and!; eauto.
Qed.
Lemma governed_quiet_only : quiet_only governed.
Proof. apply (about_quiet_only false G off_roster governed). Qed.
Let HI : quiet_only governed := governed_quiet_only.
Let HB : blind_to_blobs governed := quiet_only_blobs governed HI.
Abbreviation orderly := (safe off_roster governed).

(** What leaves the rows alone, and the group a group. *)
Definition alike m m' : Prop :=
  Memory.convMembers m' = Memory.convMembers m ∧
  (keyed Conversation.ID (Memory.conversations m) → keyed Conversation.ID (Memory.conversations m')) ∧
  (∀ conv, Memory.conversations m !! G = Some conv →
     ∃ conv', Memory.conversations m' !! G = Some conv' ∧ Conversation.Kind conv' = Conversation.Kind conv).

Lemma governed_alike m m' : alike m m' → governed m → governed m'.
Proof.
  intros (Hr & Hk & Hg) [Hkm (conv & Hc & Hkind) Hrows Ho]. destruct (Hg conv Hc) as (conv' & Hc' & Hkind').
  split; [auto | exists conv'; by rewrite Hkind' | unfold roster_of in *; by rewrite Hr..].
Qed.

Lemma alike_same m m' :
  Memory.convMembers m' = Memory.convMembers m → Memory.conversations m' = Memory.conversations m → alike m m'.
Proof. intros Hr Hc. split; [done|]. rewrite Hc. eauto. Qed.

Lemma alike_update m id conv conv' :
  Memory.conversations m !! id = Some conv → Conversation.ID conv' = Conversation.ID conv →
  Conversation.Kind conv' = Conversation.Kind conv →
  alike m (m <| Memory.conversations := <[id := conv']> (Memory.conversations m) |>).
Proof.
  intros Hc Hid Hkind. split; [done|]. cbn. split; [intros; by apply (keyed_insert_same _ _ _ conv)|].
  intros x Hx. rewrite lookup_insert. case_decide as Heq; [subst; naive_solver | eauto].
Qed.

Lemma orderly_call {X} (op : Memory.t B → Env.t → memory_op B X) (k : _ → handler) :
  (∀ m env, alike m (op m env).1) → (∀ r, orderly (k r)) → orderly (store_call op k).
Proof. intros Hop. apply safe_store_call. intros m env _. apply governed_alike, Hop. Qed.

Lemma orderly_append msg (k : _ → handler) : (∀ r, orderly (k r)) → orderly (append_message msg k).
Proof.
  apply orderly_call. intros m env. unfold AppendChatMessage.
  destruct (appendChatMessageLocked m _ msg) as [m' msg'] eqn:Ha. apply append_ID in Ha as ->. by apply alike_same.
Qed.

Lemma append_all_members m l m' out : append_all m l = (m', out) → Memory.convMembers m' = Memory.convMembers m.
Proof.
  revert m m' out. induction l as [|[nid msg] l IH]; intros m m' out; cbn [append_all]; [by intros [= <- _]|].
  destruct (appendChatMessageLocked m nid msg) as [m1 msg1] eqn:Ha. apply append_ID in Ha as ->.
  destruct (append_all _ l) as [m2 out2] eqn:Hl. intros [= <- _]. by rewrite (IH _ _ _ Hl).
Qed.

Lemma alike_CommitMLSGroup m fresh id gid base msgs : alike m (CommitMLSGroup m fresh id gid base msgs).1.
Proof.
  unfold CommitMLSGroup. destruct (_ !! id) as [conv|] eqn:Hc; [|by apply alike_same]. cbv zeta.
  case_match; [by apply alike_same|]. set (conv' := conv <| Conversation.MLS := _ |>).
  destruct (append_all _ _) as [m' out] eqn:Ha. cbn [fst].
  destruct (alike_update m id conv conv' Hc eq_refl eq_refl) as (_ & Hk & Hg).
  split; [by rewrite (append_all_members _ _ _ _ Ha) | by rewrite (append_all_conversations _ _ _ _ Ha)].
Qed.
Lemma alike_ResetMLSGroup m id : alike m (ResetMLSGroup m id).1.
Proof.
  unfold ResetMLSGroup. destruct (_ !! id) as [conv|] eqn:Hc; [|by apply alike_same].
  case_match; [by apply alike_same | by apply (alike_update _ _ conv)].
Qed.

(** ** Requests about the group *)

Section Subject.
Context (c : Caller.t) (Hsub : ∀ uid, Caller.user c = Some uid → uid ∈ subjects) (Hcom : commoners).

Lemma orderly_member (k : string → ConversationMember.t → handler) :
  (∀ uid mem, uid ∈ subjects → ConversationMember.UserID mem = uid → ConversationMember.Role mem ≠ RoleAdmin →
     orderly (k uid mem)) →
  orderly (requireMember c G k).
Proof.
  intros Hk. unfold requireMember, requireUser. destruct (Caller.user c) as [uid|]; [|done].
  specialize (Hsub uid eq_refl). apply safe_store_known; [|done].
  intros m Hm. unfold ConversationMembership. destruct (range_find _ _) as [[i mem]|] eqn:Hr; [|done].
  apply range_find_Some in Hr as [Hi Hc]. apply is_conv_member_true in Hc as [Hc Hu]. apply Hk; [done..|].
  destruct (gov_rows m Hm i mem) as (mem0 & Hi0 & Hu0 & ->); [by apply map_lookup_filter_Some|].
  apply (Hcom i mem0 Hi0). congruence.
Qed.

(** A change of a subject's own row. *)
Lemma governed_on_conv_member {A} m uid (f : string → ConversationMember.t → gmap string ConversationMember.t * A) :
  uid ∈ subjects →
  (∀ i mem, (f i mem).1 = delete i (Memory.convMembers m) ∨
     ∃ mem', (f i mem).1 = <[i := mem']> (Memory.convMembers m) ∧
       ConversationMember.UserID mem' = ConversationMember.UserID mem ∧
       ConversationMember.Role mem' = ConversationMember.Role mem) →
  governed m → governed (on_conv_member m G uid f).1.
Proof.
  intros Hs Hf Hm. unfold on_conv_member. destruct (range_find _ _) as [[i mem]|] eqn:Hr; [|done].
  apply range_find_Some in Hr as [Hi Hc]. apply is_conv_member_true in Hc as [Hc Hu].
  specialize (Hf i mem). destruct (f i mem) as [t a]. cbn [fst] in *.
  assert (roster_of m !! i = Some mem) as Hrow by by apply map_lookup_filter_Some.
  assert (∀ j, j ≠ i → roster_of (m <| Memory.convMembers := t |>) !! j = roster_of m !! j) as Hother.
  { intros j Hj. unfold roster_of, rows. cbn. apply option_eq. intros x. rewrite !map_lookup_filter_Some.
    destruct Hf as [->|(mem' & -> & _)]; [by rewrite lookup_delete_ne | by rewrite lookup_insert_ne]. }
  assert (∀ x, roster_of (m <| Memory.convMembers := t |>) !! i = Some x →
            ConversationMember.UserID x = ConversationMember.UserID mem ∧
            ConversationMember.Role x = ConversationMember.Role mem) as Hself.
  { intros x [Hx _]%map_lookup_filter_Some. cbn in Hx. destruct Hf as [->|(mem' & -> & ? & ?)].
    - by rewrite lookup_delete_eq in Hx.
    - rewrite lookup_insert_eq in Hx. naive_solver. }
  destruct Hm as [Hk Hg Hrows Ho]. split; [done..| |]; intros j x Hx; destruct (decide (j = i)) as [->|Hj].
  - destruct (Hself x Hx) as [-> ->]. eauto.
  - rewrite Hother in Hx by done. eauto.
  - intros Hn. rewrite (Ho i x Hx Hn) in Hrow. congruence.
  - intros Hn. rewrite Hother by done. eauto.
Qed.

Lemma orderly_receipt uid d r (k : _ → handler) :
  uid ∈ subjects → (∀ r, orderly (k r)) → orderly (store_call (fun m _ => SetConversationReceipt m G uid d r) k).
Proof.
  intros Hs. apply safe_store_call. intros m env _. apply governed_on_conv_member; [done|].
  intros i mem. right. eexists. split; [reflexivity|]. unfold advance_receipt. by repeat case_match.
Qed.
Lemma orderly_clear uid before (k : _ → handler) :
  uid ∈ subjects → (∀ r, orderly (k r)) →
  orderly (store_call (fun m _ => ClearConversationHistory m G uid before) k).
Proof.
  intros Hs. apply safe_store_call. intros m env _. apply governed_on_conv_member; [done|].
  intros i mem. right. by eexists.
Qed.
Lemma orderly_leave uid (k : _ → handler) :
  uid ∈ subjects → (∀ r, orderly (k r)) → orderly (store_call (fun m _ => RemoveConversationMember m G uid) k).
Proof.
  intros Hs. apply safe_store_call. intros m env _. apply governed_on_conv_member; [done|]. by left.
Qed.

Lemma orderly_get_conversation (k : result (failure store_err) Conversation.t → handler) :
  (∀ conv, Conversation.Kind conv = ConversationGroup → orderly (k (Ok conv))) → (∀ e, orderly (k (Err e))) →
  orderly (get_conversation G k).
Proof.
  intros Hk Hu. apply safe_store_known; [|apply Hu]. intros m Hm. unfold ConversationByID.
  destruct (gov_group m Hm) as (conv & -> & Hkind). by apply Hk.
Qed.

Lemma orderly_commit id gid base msgs (k : _ → handler) :
  (∀ r, orderly (k r)) → orderly (commit_group id gid base msgs k).
Proof.
  intros Hk w env _ Hm.
  assert (governed (CommitMLSGroup (World.store w) (Env.fresh env) id gid base msgs).1) as Hu.
  { eapply governed_alike; [apply alike_CommitMLSGroup | done]. }
  cbv zeta. destruct (Env.backend env); (split; [done | apply Hk]).
Qed.
End Subject.
End Governed.

Ltac orderly_step :=
  lazymatch goal with
  | |- safe _ _ (append_message _ _) => apply orderly_append; intros ?
  | |- safe _ _ (commit_group _ _ _ _ _) => apply orderly_commit; intros ?
  | |- safe _ _ (store_call _ _) =>
      apply orderly_call;
        [intros; first [apply alike_ResetMLSGroup
           | apply alike_same; by first [reflexivity | unfold SetMLSGroupInfo; repeat case_match]]
        | intros ?]
  | |- safe _ _ (relay_if_hub _ _ _ _) =>
      apply safe_relay_if_hub; [intros; first [by apply safe_relay | by apply safe_ReportReceipt]|]
  | |- safe _ _ (mayRemove _ _ _ _) => apply safe_mayRemove; intros ?
  | |- safe _ _ (for_each _ _ _) => apply safe_for_each; [intros|]
  | |- safe _ _ (observe_commit _ _ _) => apply safe_quiet; [done | intros ?]
  | |- _ => quiet_step
  end.

Section Authority.
Context {B : Type} {BS : BlobStore B} {BL : BlobStoreLaws B} {RO : RangeOrder} {U : Unicode} {NU : NetUrl}
  {E : Ed25519} {HM : Hmac}.
Context (h : Handler.t) (G : string) (roster : gmap string ConversationMember.t) (subjects : list string).
Abbreviation orderly := (safe (off_roster G roster) (governed (B := B) G roster subjects)).
Let HI : quiet_only (governed (B := B) G roster subjects) := governed_quiet_only G roster subjects.
Let HB : blind_to_blobs (governed (B := B) G roster subjects) := quiet_only_blobs _ HI.
Context (c : Caller.t) (Hsub : ∀ uid, Caller.user c = Some uid → uid ∈ subjects) (Hcom : commoners roster subjects).

Lemma orderly_post_native uid ciphertext contentType : orderly (post_native h uid G ciphertext contentType).
Proof. unfold post_native, membersFor, publish_message. by repeat orderly_step. Qed.
Lemma orderly_commit_native uid req : orderly (commit_native h uid G req).
Proof.
  unfold commit_native, publish_message. cbv zeta. by repeat orderly_step.
Qed.
Lemma orderly_commit_forward fed conv uid req : orderly (commit_forward fed conv uid G req).
Proof. unfold commit_forward, ForwardCommit. cbv zeta. by repeat orderly_step. Qed.

Ltac orderly_end :=
  lazymatch goal with
  | |- safe _ _ (post_native _ _ _ _ _) => apply orderly_post_native
  | |- safe _ _ (commit_native _ _ _ _) => apply orderly_commit_native
  | |- safe _ _ (commit_forward _ _ _ _ _) => apply orderly_commit_forward
  | |- _ => orderly_step
  end.

Lemma orderly_serve r : orderly (serve h c (InConversation G r)).
Proof.
  destruct (quiet (InConversation G r)) eqn:Hq; [by apply quiet_serve|].
  destruct r; try discriminate Hq; cbn [serve serve_conversation]; clear Hq; (apply orderly_member; [done..|]);
    intros uid mem Hs Hu Ha.
  - apply orderly_get_conversation; [done.. |intros conv Hkind | done]. rewrite Hkind.
    rewrite !bool_decide_eq_true_2 by done. rewrite (bool_decide_eq_false_2 _ Ha). apply safe_done.
  - quiet_step. apply orderly_clear; [done..|]. intros ?. by repeat orderly_step.
  - quiet_step. cbv zeta. case_match; [apply safe_done|]. apply orderly_receipt; [done..|]. intros ?. by repeat orderly_step.
  - by repeat orderly_step.
  - unfold ForwardMessage. cbv zeta. by repeat orderly_end.
  - apply orderly_get_conversation; [done.. |intros conv Hkind | done]. rewrite Hkind.
    rewrite !(bool_decide_eq_true_2 (ConversationGroup = _)) by done. rewrite (bool_decide_eq_false_2 _ Ha).
    apply safe_done.
  - rewrite (bool_decide_eq_false_2 _ Ha). apply safe_done.
  - rewrite (bool_decide_eq_false_2 _ Ha), Hu. destruct (decide (userId = uid)) as [->|Hne].
    + rewrite bool_decide_eq_true_2 by done. apply orderly_leave; [done..|]. intros ?.
      unfold recordMembershipChange, publish_message, publish_deleted. by repeat orderly_step.
    + rewrite bool_decide_eq_false_2 by done. apply safe_done.
  - by repeat orderly_end.
  - by repeat orderly_step.
  - by repeat orderly_step.
Qed.
End Authority.

(** C5. Only admins run a group. Whatever requests of the chat API people who
    are not admins of it make, members or not, however many are served at once
    and in whatever order their calls interleave, fail, or do their work
    without it being known: the group is not deleted and stays a group, nobody
    comes into it, nobody in it gets another role, and everyone who is not
    among the callers is still in it with their row as it was. (A caller can
    leave, and moves their own receipts and watermark.) *)
Theorem roster_authority {B} {BS : BlobStore B} {BL : BlobStoreLaws B} {RO : RangeOrder} {U : Unicode} {NU : NetUrl}
  {E : Ed25519} {HM : Hmac} (h : Handler.t) (G : string) (conv : Conversation.t) (subjects : list string)
  (w : World.t B) (reqs : list (Caller.t * chat_request)) turns :
  let roster := roster_of G (World.store w) in
  keyed Conversation.ID (Memory.conversations (World.store w)) →
  Memory.conversations (World.store w) !! G = Some conv → Conversation.Kind conv = ConversationGroup →
  (∀ c r uid, (c, r) ∈ reqs → Caller.user c = Some uid → uid ∈ subjects) →
  commoners roster subjects →
  Forall (fun t => off_roster G roster t.2) turns →
  governed G roster subjects (World.store (Threads.schedule w (serve_all h reqs) turns).1).
Proof.
  intros roster Hk Hc Hkind Hsub Hcom Hok.
  apply (preserves_schedule (off_roster G roster) (fun w => governed G roster subjects (World.store w))); [done | |].
  - split; eauto.
  - apply Forall_fmap, Forall_forall. intros [c r] Hin. specialize (Hsub c r).
    destruct (decide (names r = Some G)) as [Hn|Hn].
    + destruct r as [id r| | | | | | | | | | | | | | | | |]; try discriminate Hn. injection Hn as ->.
      apply (orderly_serve h G roster subjects c); [intros uid; by apply Hsub | done].
    + apply (confined_serve h false G); [apply governed_about | exact Hn].
Qed.

(** Bob, who is not an admin, tries everything, and then leaves. *)
Definition bob_requests : list (Caller.t * chat_request) :=
  (fun r => (town_caller "bob", InConversation "g" r)) <$>
    [SetMemberRole "bob" (Decoded RoleAdmin); AddMember (Decoded "carol"); RemoveMember "alice";
     DeleteConversationRequest; RemoveMember "bob"].
Definition bob_turns : list (nat * Env.t) := town_turns 5 7.

Lemma roster_authority_witness :
  let s := Threads.schedule town_world (town_serve bob_requests) bob_turns in
  statuses s.2 = [Some 403; Some 403; Some 403; Some 403; Some 204] ∧
  governed "g" (roster_of "g" town) ["bob"] (World.store s.1).
Proof.
  split; [vm_compute; reflexivity|].
  apply (roster_authority town_handler "g" (town_conversation "g" ConversationGroup) ["bob"] town_world bob_requests
           bob_turns); [apply town_keyed | done | done | | |].
  - intros c r uid Hin Hu. unfold bob_requests in Hin. cbn in Hin. rewrite !elem_of_cons, elem_of_nil in Hin.
    apply elem_of_cons. naive_solver.
  - intros id mem [Hi Hc]%map_lookup_filter_Some Hu. cbn in Hi, Hc.
    rewrite !lookup_insert_Some, lookup_singleton_Some in Hi. apply elem_of_cons in Hu as [Hu|Hu%elem_of_nil]; [|done].
    intros Hr. naive_solver.
  - apply Forall_forall. intros [i env] Hin. destruct (town_turns_fresh _ _ _ _ Hin) as (Hf & Hb & Hp).
    assert (∀ id, id ∉ town_ids → unused (Held.mk None (roster_of "g" town) ∅ ∅ None) "g" id) as Hu.
    { intros id Hid. destruct (town_unused id Hid) as (Hne & Hr & _). split_and!; [done | exact Hr | done..]. }
    split_and!; eauto.
Defined.
