(* ===== verification/ChannelAccess.v ===== *)
(** * Who may do what in a channel

    [members.go] and [app.go] of [api/internal/channel]: the checks the channel
    handlers start with, and joining. *)

From S2P Require Import Prelude.
From S2P Require Import GoStrings.
From S2P Require Import Strconv.
From S2P Require Import Domain.
From S2P Require Import Threads.
From S2P Require Import StoreState.
From S2P Require Import StoreUsers.
From S2P Require Import StoreChannels.
From S2P Require Import StoreDevices.
From S2P Require Import StoreMessages.
From S2P Require Import ChannelViews.
From S2P Require Import ChatWorld.

(** The status of a device's subscription that goes with a membership's. *)
Definition subStatusFor (s : string) : string :=
  if s == MemberActive then SubActive else if s == MemberBlocked then SubBlocked else SubPending.

(** [strconv.Atoi] of a query value, kept when it is in the range. *)
Definition query_int (value : string) (fallback : Z) (p : Z → bool) : Z :=
  match ParseInt value with
  | Some n => if p n then n else fallback
  | None => fallback
  end.

Definition reply (status : Z) (b : channel_body) : response := Reply status (BChannelAPI b).

(** The answer to a call that failed. *)
Definition store_error (e : failure store_err) (msg : string) : response :=
  match e with Known ErrNotFound => Error 404 "not found" | _ => Error 500 msg end.

(** A call whose result is only whether it worked. *)
Definition or_error {W V X} (msg : string) (r : result (failure store_err) X) (k : X → prog W V response)
  : prog W V response :=
  match r with Err e => Done (store_error e msg) | Ok x => k x end.

Section Access.
Context {B : Type} {RO : RangeOrder} {U : Unicode} {R : Type}.
Abbreviation world := (World.t B).
Abbreviation handler := (prog world Env.t R).
Implicit Types (uid channelID deviceID : string) (ch : Channel.t).

Definition channelByID channelID (k : result (failure store_err) Channel.t → handler) : handler :=
  store_read (fun m => ChannelByID m channelID) k.

(** ** Guards *)

Definition ownsChannel uid channelID (k : bool → handler) : handler :=
  do! r := channelByID channelID in
  k (match r with Ok ch => Channel.OwnerID ch == uid | Err _ => false end).

(** The owner, or an active member with the admin role. *)
Definition canAdminister uid channelID (k : option Channel.t → handler) : handler :=
  do! r := channelByID channelID in
  match r with
  | Err _ => k None
  | Ok ch =>
      if Channel.OwnerID ch == uid then k (Some ch)
      else
        do! r := store_read (fun m => MembershipForUser m channelID uid) in
        k (match r with
           | Ok mem => if (ChannelMember.Status mem == MemberActive) && (ChannelMember.Role mem == RoleAdmin)
                       then Some ch else None
           | Err _ => None
           end)
  end.

Definition no_relation : channelRelation.t := channelRelation.mk false "" "none".

(** How the user is related to the channel; [None] when not at all. *)
Definition relationFor uid ch (k : option channelRelation.t → handler) : handler :=
  if Channel.OwnerID ch == uid then k (Some (channelRelation.mk true RoleAdmin MemberActive))
  else
    do! r := store_read (fun m => MembershipForUser m (Channel.ID ch) uid) in
    k (match r with
       | Err _ => None
       | Ok mem => Some (channelRelation.mk false (ChannelMember.Role mem) (ChannelMember.Status mem))
       end).

(** The owner and the active members. *)
Definition canReadChannel uid channelID (k : bool → handler) : handler :=
  do! r := channelByID channelID in
  match r with
  | Err _ => k false
  | Ok ch =>
      do! rel := relationFor uid ch in
      k (match rel with Some rel => channelRelation.Status rel == MemberActive | None => false end)
  end.

Definition messageInChannel channelID (messageID : string) (k : option Message.t → handler) : handler :=
  do! r := store_read (fun m => MessageByID m messageID) in
  k (match r with
     | Ok msg => if Message.ChannelID msg != channelID then None else Some msg
     | Err _ => None
     end).

(** [deviceID] is one of the user's; [None] when that could not be found out. *)
Definition ownsDevice uid deviceID (k : option bool → handler) : handler :=
  do! r := store_read (fun m => Ok (DevicesForUsers m [uid])) in
  k (match r with
     | Err _ => None
     | Ok devices => Some (existsb (fun d => Device.ID d == deviceID) devices)
     end).

(** ** Joining *)

Definition joining (uid : string) ch (now : time) : ChannelMember.t :=
  let status := if (Channel.SubscriptionMode ch == ModeApproval) && (Channel.OwnerID ch != uid)
                then MemberPending else MemberActive in
  ChannelMember.zero <| ChannelMember.ChannelID := Channel.ID ch |> <| ChannelMember.UserID := uid |>
    <| ChannelMember.Role := RoleUser |> <| ChannelMember.Status := status |> <| ChannelMember.CreatedAt := now |>.

Definition join uid ch deviceID (k : option ChannelMember.t → handler) : handler :=
  do! now := time_now in
  do! r := store_call (fun m env => UpsertMember m (Env.fresh env 0%nat) (joining uid ch now)) in
  match r with
  | Err _ => k None
  | Ok mem =>
      if deviceID != "" then
        do! now := time_now in
        do! r := store_call (fun m env => Subscribe m (Env.fresh env 0%nat)
                   (Subscription.zero <| Subscription.ChannelID := Channel.ID ch |>
                      <| Subscription.DeviceID := deviceID |>
                      <| Subscription.Status := subStatusFor (ChannelMember.Status mem) |>
                      <| Subscription.CreatedAt := now |>)) in
        match r with
        | Err _ => k None
        | Ok _ => k (Some mem)
        end
      else k (Some mem)
  end.

(** The trigger id first, then the phetag. *)
Definition resolveChannelRef (ref : string) (k : result (failure store_err) Channel.t → handler) : handler :=
  do! r := store_read (fun m => ChannelByPublicID m ref) in
  match r with
  | Ok ch => k (Ok ch)
  | Err _ => store_read (fun m => ChannelByAlias m (ToLower ref)) k
  end.

(** ** Decorations *)

Definition withLastMessages (channels : list Channel.t) (k : list channelView.t → handler) : handler :=
  do! r := store_read (fun m => Ok (LastMessagesByChannels m (Channel.ID <$> channels))) in
  k (channel_view (match r with Ok last => last | Err _ => ∅ end) <$> channels).

Definition withCommentCounts (msgs : list Message.t) (k : list messageView.t → handler) : handler :=
  do! r := store_read (fun m => Ok (CommentCountsByMessages m (Message.ID <$> msgs))) in
  k (message_view (match r with Ok counts => counts | Err _ => ∅ end) <$> msgs).

Definition withProfiles (members : list ChannelMember.t) (k : list subscriberView.t → handler) : handler :=
  do! r := store_read (fun m => Ok (UsersByIDs m (ChannelMember.UserID <$> members))) in
  k (subscriber_view (match r with Ok users => users | Err _ => ∅ end) <$> members).

Definition hydrateComments (comments : list Comment.t) (k : list commentView.t → handler) : handler :=
  do! r := store_read (fun m => Ok (UsersByIDs m (once (Comment.UserID <$> comments)))) in
  k (comment_view (match r with Ok users => users | Err _ => ∅ end) <$> comments).
End Access.
