(* ===== verification/ChannelMembers.v ===== *)
(** * Members of a channel

    [members.go], [join_remote.go] and the subscription handlers of [app.go],
    [api/internal/channel]. *)

From S2P Require Import Prelude.
From S2P Require Import GoStrings.
From S2P Require Import Strconv.
From S2P Require Import Domain.
From S2P Require Import Threads.
From S2P Require Import Crypto.
From S2P Require Import StoreState.
From S2P Require Import StoreUsers.
From S2P Require Import StoreChannels.
From S2P Require Import StoreDevices.
From S2P Require Import ChannelViews.
From S2P Require Import Peers.
From S2P Require Import ChatWorld.
From S2P Require Import ChannelAccess.

Module joinChannelRequest.
Record t := mk { Ref : string; DeviceID : string }.
End joinChannelRequest.

Module updateMemberRequest.
Record t := mk { Role : option string; Status : option string }.
End updateMemberRequest.

(** [AppHandler.Remote] and [AppHandler.HostDomain]: whether remote channels can
    be joined, and which hosts are peers. *)
Module RemoteChannels.
Record t := mk { IsPeer : string → bool }.
End RemoteChannels.

Section Members.
Context {B : Type} {RO : RangeOrder} {U : Unicode}.
Context (remote : option RemoteChannels.t) (HostDomain : string).
Abbreviation world := (World.t B).
Abbreviation handler := (prog world Env.t response).
Implicit Types (c : Caller.t) (channelID targetID deviceID : string).

Definition notAllowed : response := Error 403 "not allowed".
Definition ok_status : response := reply 200 (BStatus "ok").

(** ** Joining and leaving *)

Definition joinChannel c (req : decoded joinChannelRequest.t) : handler :=
  requireUser c (fun uid =>
    do! req := DecodeLimited req in
    let ref := TrimSpace (joinChannelRequest.Ref req) in
    if ref == "" then Done (Error 400 "a channel ID or phetag is required")
    else
      do! r := resolveChannelRef ref in
      match r with
      | Err _ => Done (Error 404 "channel not found")
      | Ok ch =>
          if Channel.Status ch == ChannelDisabled then Done (Error 403 "channel is disabled")
          else
            do! mem := join uid ch (joinChannelRequest.DeviceID req) in
            Done (match mem with
                  | None => Error 500 "could not join channel"
                  | Some mem => reply 201 (BJoin ch mem)
                  end)
      end).

Definition leaveChannel c channelID : handler :=
  requireUser c (fun uid =>
    do! r := channelByID channelID in
    if match r with Ok ch => Channel.OwnerID ch == uid | Err _ => false end
    then Done (Error 400 "the owner cannot leave; delete the channel instead")
    else
      do! r := store_call (fun m _ => RemoveMember m channelID uid) in
      match r with
      | Err (Known ErrNotFound) | Ok _ =>
          do! _ := store_call (fun m _ => SetSubscriptionStatusForUser m channelID uid SubBlocked) in
          Done NoContent
      | Err _ => Done (Error 500 "could not leave channel")
      end).

Definition subscribe c channelID (deviceID : decoded string) : handler :=
  requireUser c (fun uid =>
    do! deviceID := DecodeLimited deviceID in
    if deviceID == "" then Done (Error 400 "deviceId is required")
    else
      do! r := channelByID channelID in
      match r with
      | Err _ => Done (Error 404 "channel not found")
      | Ok ch =>
          do! mem := join uid ch deviceID in
          Done (match mem with
                | None => Error 500 "could not subscribe"
                | Some mem => reply 201 (BSubscribed (ChannelMember.Status mem) mem)
                end)
      end).

Definition unsubscribe c channelID deviceID : handler :=
  requireUser c (fun uid =>
    if deviceID == "" then Done (Error 400 "deviceId is required")
    else
      do! owned := ownsDevice uid deviceID in
      match owned with
      | None => Done (Error 500 "could not unsubscribe")
      | Some false => Done NoContent
      | Some true =>
          do! r := store_call (fun m _ => Unsubscribe m channelID deviceID) in
          match r with
          | Err (Known ErrNotFound) | Ok _ => Done NoContent
          | Err _ => Done (Error 500 "could not unsubscribe")
          end
      end).

Definition subscriptionStatus c channelID deviceID : handler :=
  requireUser c (fun _ =>
    if deviceID == "" then Done (reply 200 (BStatus "none"))
    else
      do! r := store_read (fun m => SubscriptionForDevice m channelID deviceID) in
      Done (reply 200 (BStatus (match r with Ok sub => Subscription.Status sub | Err _ => "none" end)))).

(** [newMirrorPublicID] of the bytes drawn. *)
Definition newMirrorPublicID (b : bytes) : string := String.append "ch_" (hex b).

(** [strings.Cut(strings.TrimSpace(ref), "@")], both parts there. *)
Definition remote_ref (ref : string) : option (string * string) :=
  let '(publicID, host, found) := Cut (TrimSpace ref) "@" in
  if negb found || (publicID == "") || (host == "") then None else Some (publicID, host).

Definition mirror_channel (uid publicID name host originPublicID : string) (now : time) : Channel.t :=
  Channel.zero <| Channel.PublicID := publicID |> <| Channel.Name := name |> <| Channel.OwnerID := uid |>
    <| Channel.SubscriptionMode := ModeOpen |> <| Channel.Status := ChannelActive |>
    <| Channel.OriginDomain := host |> <| Channel.OriginPublicID := originPublicID |> <| Channel.CreatedAt := now |>.

(** The mirror there is, or a new one. *)
Definition mirror_of (uid name host publicID : string) (k : Channel.t → handler) : handler :=
  let failed := Done (Error 500 "could not create channel") in
  do! r := store_read (fun m => ChannelByOriginPublicID m host publicID) in
  match r with
  | Ok mirror => k mirror
  | Err _ =>
      do! b := draw_random 12 in
      match b with
      | None => failed
      | Some b =>
          do! now := time_now in
          do! r := store_call (fun m env => CreateChannel m (Env.fresh env 0%nat)
                     (mirror_channel uid (newMirrorPublicID b) name host publicID now)) in
          match r with
          | Err _ => failed
          | Ok mirror => k mirror
          end
      end
  end.

Definition joinRemoteChannel c (req : decoded joinChannelRequest.t) : handler :=
  requireUser c (fun uid =>
    match remote with
    | None => Done (Error 404 "not found")
    | Some rc =>
        do! req := DecodeLimited req in
        match remote_ref (joinChannelRequest.Ref req) with
        | None => Done (Error 400 "ref must be channelPublicId@host")
        | Some (publicID, host) =>
            let host := ToLower host in
            if host == HostDomain then Done (Error 400 "that channel is local — use join")
            else if negb (RemoteChannels.IsPeer rc host) then Done (Error 404 "unknown host")
            else
              do! r := peer_do (SubscribeToRemoteChannel host publicID) in
              match r with
              | Err _ => Done (Error 404 "channel not available on that host")
              | Ok name =>
                  do! mirror := mirror_of uid name host publicID in
                  do! mem := join uid mirror (joinChannelRequest.DeviceID req) in
                  Done (match mem with
                        | None => Error 500 "could not join channel"
                        | Some mem => reply 201 (BJoin mirror mem)
                        end)
              end
        end
    end).

(** ** What a member sees *)

Definition getChannel c channelID : handler :=
  requireUser c (fun uid =>
    do! r := channelByID channelID in
    match r with
    | Err _ => Done (Error 404 "channel not found")
    | Ok ch =>
        do! rel := relationFor uid ch in
        Done (match rel with
              | None => Error 404 "channel not found"
              | Some rel => reply 200 (BRelated ch rel)
              end)
    end).

Definition membership c channelID : handler :=
  requireUser c (fun uid =>
    do! r := channelByID channelID in
    match r with
    | Err _ => Done (Error 404 "channel not found")
    | Ok ch =>
        do! rel := relationFor uid ch in
        Done (reply 200 (BRelation (default no_relation rel)))
    end).

(** The channels with the memberships that could be read. *)
Fixpoint joined_memberships (uid : string) (channels : list Channel.t) (out : list (Channel.t * ChannelMember.t))
  (k : list (Channel.t * ChannelMember.t) → handler) : handler :=
  match channels with
  | [] => k out
  | ch :: channels =>
      if Channel.OwnerID ch == uid then joined_memberships uid channels out k
      else
        do! r := store_read (fun m => MembershipForUser m (Channel.ID ch) uid) in
        joined_memberships uid channels (match r with Ok mem => out ++ [(ch, mem)] | Err _ => out end) k
  end.

(** [members[v.ID]]: of channels with the same id the last one's. *)
Definition joined_view (joined : list (Channel.t * ChannelMember.t)) (v : channelView.t) : joinedChannel.t :=
  let id := Channel.ID (channelView.Channel v) in
  let mem := foldl (fun mem cm => if Channel.ID cm.1 == id then cm.2 else mem) ChannelMember.zero joined in
  joinedChannel.mk v (ChannelMember.Role mem) (ChannelMember.Status mem).

Definition listJoinedChannels c : handler :=
  requireUser c (fun uid =>
    do! r := store_read (fun m => Ok (ChannelsForMember m uid)) in
    match r with
    | Err _ => Done (Error 500 "could not list channels")
    | Ok channels =>
        do! joined := joined_memberships uid channels [] in
        do! views := withLastMessages joined.*1 in
        Done (reply 200 (BJoined (joined_view joined <$> views)))
    end).

(** ** Moderation *)

(** What only those who run the channel may do. *)
Definition as_moderator c channelID (k : string → Channel.t → handler) : handler :=
  requireUser c (fun uid =>
    do! ch := canAdminister uid channelID in
    match ch with
    | None => Done notAllowed
    | Some ch => k uid ch
    end).

Definition list_page (channelID status : string) (offset limit : Z) (failed : string)
  (window : option (Z * Z)) : handler :=
  do! r := store_read (fun m => Ok (ListMembers m channelID status offset limit)) in
  match r with
  | Err _ => Done (Error 500 failed)
  | Ok (None, _) => Done Panicked
  | Ok (Some members, total) =>
      do! views := withProfiles members in
      Done (reply 200 (BSubscribers views total window))
  end.

Definition listApprovals c channelID : handler :=
  as_moderator c channelID (fun _ _ => list_page channelID MemberPending 0 200 "could not load approvals" None).

Definition listMembers c channelID (offset limit : string) : handler :=
  as_moderator c channelID (fun _ _ =>
    let offset := query_int offset 0 (fun n => 0 <? n) in
    let limit := query_int limit 50 (fun n => (0 <? n) && (n <=? 200)) in
    list_page channelID "" offset limit "could not load members" (Some (offset, limit))).

Definition silence (channelID userID status : string) (k : handler) : handler :=
  do! _ := store_call (fun m _ => SetSubscriptionStatusForUser m channelID userID status) in k.

Definition approveMember c channelID targetID : handler :=
  as_moderator c channelID (fun _ _ =>
    do! r := store_call (fun m _ => UpdateMemberStatus m channelID targetID MemberActive) in
    or_error "could not approve member" r (fun _ => silence channelID targetID SubActive (Done ok_status))).

Definition denyMember c channelID targetID : handler :=
  as_moderator c channelID (fun _ _ =>
    do! r := store_call (fun m _ => RemoveMember m channelID targetID) in
    or_error "could not deny member" r (fun _ => silence channelID targetID SubBlocked (Done NoContent))).

Definition valid_status (s : string) : bool := (s == MemberActive) || (s == MemberPending) || (s == MemberBlocked).

Definition updateMember c channelID targetID (req : decoded updateMemberRequest.t) : handler :=
  as_moderator c channelID (fun _ ch =>
    if targetID == Channel.OwnerID ch then Done (Error 400 "cannot modify the channel owner")
    else
      do! req := DecodeLimited req in
      let set_status :=
        match updateMemberRequest.Status req with
        | None => Done ok_status
        | Some status =>
            if negb (valid_status status) then Done (Error 400 "invalid status")
            else
              do! r := store_call (fun m _ => UpdateMemberStatus m channelID targetID status) in
              or_error "could not update member" r
                (fun _ => silence channelID targetID (subStatusFor status) (Done ok_status))
        end in
      match updateMemberRequest.Role req with
      | None => set_status
      | Some role =>
          if (role != RoleUser) && (role != RoleAdmin) then Done (Error 400 "invalid role")
          else
            do! r := store_call (fun m _ => UpdateMemberRole m channelID targetID role) in
            or_error "could not update member" r (fun _ => set_status)
      end).

Definition removeMember c channelID targetID : handler :=
  as_moderator c channelID (fun _ ch =>
    if targetID == Channel.OwnerID ch then Done (Error 400 "cannot remove the channel owner")
    else
      do! r := store_call (fun m _ => RemoveMember m channelID targetID) in
      or_error "could not remove member" r (fun _ => silence channelID targetID SubBlocked (Done NoContent))).
End Members.
