(* ===== verification/Uploads.v ===== *)
(** * Uploads and what a channel is told to send

    [api/internal/imaging/imaging.go] and [notify_input.go] of
    [api/internal/channel]: an uploaded image is decoded, fitted into a square,
    re-encoded and stored; the body of a notify request is JSON or a form with
    images. The image library and the parsers of [encoding/json] and
    [mime/multipart] are interfaces: a request comes with what they make of
    it. *)

From S2P Require Import Prelude.
From S2P Require Import GoStrings.
From S2P Require Import Domain.
From S2P Require Import Threads.
From S2P Require Import Blob.
From S2P Require Import StoreState.
From S2P Require Import ChannelViews.
From S2P Require Import ChatWorld.

(** ** Images *)

(** [github.com/disintegration/imaging], as far as it is used. *)
Class ImageLib := {
  Image : Type;
  Image_Decode : bytes → option Image;
  Image_Bounds : Image → Z * Z;
  Image_Fit : Image → Z → Z → Image;
  Image_Encode : Image → Z → option bytes
}.

(** What is documented of [Fit]: the image fits into the box. *)
Class ImageLibLaws {IL : ImageLib} : Prop := {
  Fit_bounds img w h : 0 < w → 0 < h →
    (Image_Bounds (Image_Fit img w h)).1 ≤ w ∧ (Image_Bounds (Image_Fit img w h)).2 ≤ h
}.

Definition MaxDim : Z := 1000.
Definition Quality : Z := 82.
Definition ImageContentType : string := "image/jpeg".

Section Process.
Context {IL : ImageLib}.

Definition fit (img : Image) (maxDim : Z) : Image :=
  let '(dx, dy) := Image_Bounds img in
  if (maxDim <? dx) || (maxDim <? dy) then Image_Fit img maxDim maxDim else img.

Definition Process (data : bytes) (maxDim quality : Z) : option (bytes * Z * Z) :=
  match Image_Decode data with
  | None => None
  | Some img =>
      let img := fit img maxDim in
      match Image_Encode img quality with
      | None => None
      | Some out => Some (out, (Image_Bounds img).1, (Image_Bounds img).2)
      end
  end.

(** A processed image is no larger than it may be. *)
Lemma Process_bounds {LL : ImageLibLaws} data maxDim quality out w h :
  0 < maxDim → Process data maxDim quality = Some (out, w, h) → w ≤ maxDim ∧ h ≤ maxDim.
Proof.
  intros Hm. unfold Process. destruct (Image_Decode data) as [img|]; [|done].
  destruct (Image_Encode _ _) as [o|]; [|done]. intros [= _ <- <-]. unfold fit.
  destruct (Image_Bounds img) as [dx dy] eqn:Hb. destruct (Z.ltb_spec maxDim dx), (Z.ltb_spec maxDim dy); cbn [orb];
    first [by apply Fit_bounds | rewrite Hb; by split].
Qed.
End Process.

(** ** Forms *)

Definition maxImages : nat := 10.
Definition maxImageBytes : Z := Z.shiftl 10 20.
Definition maxNotifyBytes : Z := Z.of_nat maxImages * maxImageBytes + Z.shiftl 5 20.

(** A file of a form: the size its part declares and its bytes, [None] when it
    cannot be opened. *)
Module FileHeader.
Record t := mk { Size : Z; Contents : option bytes }.
End FileHeader.

(** The parsed form of a notify request; [Data] is what [json.Unmarshal] makes
    of the trimmed field "data", when there is one. *)
Module notifyForm.
Record t := mk {
  Title : string; Body : string; CommentsAllowed : string; Data : option (option (gmap string string));
  Images : list FileHeader.t
}.
End notifyForm.

Module notifyJSON.
Record t := mk { Title : string; Body : string; Data : gmap string string; CommentsAllowed : option bool }.
End notifyJSON.

(** The body of a notify request, by its content type. *)
Inductive notify_request : Type :=
| NotifyJSON (d : decoded notifyJSON.t)
| NotifyForm (d : decoded notifyForm.t).

Module notifyInput.
Record t := mk {
  Title : string; Body : string; Data : gmap string string; Images : list MessageImage.t; CommentsAllowed : bool
}.
End notifyInput.

Definition isFalsey {U : Unicode} (v : string) : bool :=
  let v := ToLower (TrimSpace v) in (v == "false") || (v == "0") || (v == "no") || (v == "off").

Section Uploads.
Context {B : Type} {BS : BlobStore B} {U : Unicode} {IL : ImageLib}.
Context (HasBlob : bool).
Abbreviation handler := (prog (World.t B) Env.t response).

(** [httpx.Error] of a form that could not be parsed. *)
Definition form_error (too_large : string) {X} (d : decoded X) (k : X → handler) : handler :=
  match d with
  | Decoded x => k x
  | TooLarge => Done (Error 413 too_large)
  | Malformed => Done (Error 400 "invalid multipart form")
  end.

Definition put_image (out : bytes) := blob_call (B := B) (R := response) (fun b env => bs_put b (Env.newBlob env) out ImageContentType).

(** With no blob store at all the call panics. *)
Definition processUpload (fh : FileHeader.t) (k : MessageImage.t → handler) : handler :=
  if maxImageBytes <? FileHeader.Size fh then Done (Error 413 "image exceeds 10 MB")
  else match FileHeader.Contents fh with
  | None => Done (Error 400 "could not read image")
  | Some raw =>
      if maxImageBytes <? slen raw then Done (Error 413 "image exceeds 10 MB")
      else match Process raw MaxDim Quality with
      | None => Done (Error 400 "unsupported or corrupt image")
      | Some (out, width, height) =>
          if negb HasBlob then Done Panicked
          else
            do! r := put_image out in
            match r with
            | Err _ => Done (Error 503 "could not store image")
            | Ok id => k (MessageImage.mk id width height)
            end
      end
  end.

Fixpoint process_uploads (files : list FileHeader.t) (images : list MessageImage.t)
  (k : list MessageImage.t → handler) : handler :=
  match files with
  | [] => k images
  | fh :: files => do! img := processUpload fh in process_uploads files (images ++ [img]) k
  end.

Definition decodeNotify (req : notify_request) (k : notifyInput.t → handler) : handler :=
  match req with
  | NotifyJSON d =>
      do! req := DecodeLimited d in
      k (notifyInput.mk (notifyJSON.Title req) (notifyJSON.Body req) (notifyJSON.Data req) []
           (default true (notifyJSON.CommentsAllowed req)))
  | NotifyForm d =>
      do! form := form_error "upload too large" d in
      let go data :=
        if (maxImages <? length (notifyForm.Images form))%nat then Done (Error 400 "too many images (max 10)")
        else
          do! images := process_uploads (notifyForm.Images form) [] in
          k (notifyInput.mk (notifyForm.Title form) (notifyForm.Body form) data images
               (negb (isFalsey (notifyForm.CommentsAllowed form)))) in
      match notifyForm.Data form with
      | None => go ∅
      | Some None => Done (Error 400 "invalid data field (expected JSON object)")
      | Some (Some data) => go data
      end
  end.

(** A form with one file named "avatar". *)
Definition upload_avatar (multipart : option (decoded (list FileHeader.t))) (k : MessageImage.t → handler) : handler :=
  match multipart with
  | None => Done (Error 400 "expected multipart/form-data")
  | Some d =>
      do! files := form_error "image exceeds 10 MB" d in
      match files with
      | [] => Done (Error 400 "an avatar file is required")
      | fh :: _ => processUpload fh k
      end
  end.
End Uploads.
