(* ===== verification/ChannelContent.v ===== *)
(** * A channel, its keys and what it publishes

    [app.go], [comments.go], [message_delete.go], [channel_avatar.go] of
    [api/internal/channel]: the handlers of an owner, and the feed a member
    reads. *)

From S2P Require Import Prelude.
From S2P Require Import GoStrings.
From S2P Require Import Strconv.
From S2P Require Import Domain.
From S2P Require Import Threads.
From S2P Require Import Crypto.
From S2P Require Import Blob.
From S2P Require Import StoreState.
From S2P Require Import StoreUsers.
From S2P Require Import StoreChannels.
From S2P Require Import StoreDevices.
From S2P Require Import StoreMessages.
From S2P Require Import ChannelViews.
From S2P Require Import ChatWorld.
From S2P Require Import ChannelAccess.
From S2P Require Import ChannelMembers.
From S2P Require Import Uploads.

(** [time.Time.String], monotonic reading and all. *)
Class TimeText := { time_String : time → string }.

(** ** API keys: [api/internal/auth/auth.go] *)

Definition HashAPIKey (key : string) : string := hex (sha256 key).
Definition EqualAPIKey {U : Unicode} (presented storedHash : string) : bool :=
  HashAPIKey (TrimSpace presented) == storedHash.

(** The plaintext, the hash and the prefix made of the bytes drawn. *)
Definition GenerateAPIKey_of (b : bytes) : string * string * string :=
  let plaintext := String.append "phm_" (base64url b) in
  (plaintext, HashAPIKey plaintext, string_take 12 plaintext).

Module createChannelRequest.
Record t := mk { Name : string; PublicID : string; SubscriptionMode : string }.
End createChannelRequest.

Module updateChannelRequest.
Record t := mk { Name : string; SubscriptionMode : string; Alias : option string }.
End updateChannelRequest.

Module createDeviceRequest.
Record t := mk {
  Platform : string; FCMToken : string; WebPushSub : string; VoIPToken : string; CanRenderPreview : bool;
  MLSDeviceID : string
}.
End createDeviceRequest.

Definition invalid_alias : string :=
  "alias must be 2–24 characters of letters, digits, '.', '-' or '_', not start with a digit, '.' or '-', and not use the reserved 'ch_' prefix".
Definition maxCommentLen : Z := 2000.

Section Content.
Context {B : Type} {BS : BlobStore B} {RO : RangeOrder} {U : Unicode} {IL : ImageLib} {TT : TimeText}.
Context (HasBlob HasPublisher : bool) (VAPIDPublicKey HostDomain : string).
Abbreviation world := (World.t B).
Abbreviation handler := (prog world Env.t response).
Implicit Types (c : Caller.t) (channelID messageID : string).

Definition homeDomain : string := if HostDomain != "" then HostDomain else "local".
Definition meta : handler := Done (reply 200 (BMeta VAPIDPublicKey homeDomain)).

(** ** The owner's handlers *)

Definition as_owner c channelID (k : string → handler) : handler :=
  requireUser c (fun uid =>
    do! owns := ownsChannel uid channelID in
    if negb owns then Done (Error 403 "not your channel") else k uid).

Definition createChannel c (req : decoded createChannelRequest.t) : handler :=
  requireUser c (fun uid =>
    do! req := DecodeLimited req in
    let name := createChannelRequest.Name req in
    if name == "" then Done (Error 400 "name is required")
    else
      let mode := createChannelRequest.SubscriptionMode req in
      let mode := if (mode != ModeOpen) && (mode != ModeApproval) then ModeApproval else mode in
      let create publicID :=
        do! now := time_now in
        do! r := store_call (fun m env => CreateChannel m (Env.fresh env 0%nat)
                   (Channel.zero <| Channel.PublicID := publicID |> <| Channel.OwnerID := uid |>
                      <| Channel.Name := name |> <| Channel.SubscriptionMode := mode |>
                      <| Channel.Status := ChannelActive |> <| Channel.CreatedAt := now |>)) in
        Done (match r with Err _ => Error 500 "could not create channel" | Ok ch => reply 201 (BChannel ch) end) in
      if createChannelRequest.PublicID req == "" then
        do! now := time_now in
        create (String.append "ch_" (string_take 16 (HashAPIKey (String.append name (time_String now)))))
      else create (createChannelRequest.PublicID req)).

Definition listChannels c : handler :=
  requireUser c (fun uid =>
    do! r := store_read (fun m => Ok (ChannelsByOwner m uid)) in
    match r with
    | Err _ => Done (Error 500 "could not list channels")
    | Ok channels => do! views := withLastMessages channels in Done (reply 200 (BChannels views))
    end).

Definition valid_mode (mode : string) : bool := (mode == "") || (mode == ModeOpen) || (mode == ModeApproval).

Definition updateChannel c channelID (req : decoded updateChannelRequest.t) : handler :=
  as_owner c channelID (fun _ =>
    do! req := DecodeLimited req in
    let mode := updateChannelRequest.SubscriptionMode req in
    if negb (valid_mode mode) then Done (Error 400 "invalid subscriptionMode")
    else
      do! r := store_call (fun m _ => UpdateChannel m channelID (updateChannelRequest.Name req) mode) in
      match r with
      | Err _ => Done (Error 500 "could not update channel")
      | Ok ch =>
          match updateChannelRequest.Alias req with
          | None => Done (reply 200 (BChannel ch))
          | Some alias =>
              let alias := TrimSpace alias in
              if (alias != "") && negb (ValidateAlias alias) then Done (Error 400 invalid_alias)
              else
                do! r := store_call (fun m _ => SetChannelAlias m channelID alias) in
                Done (match r with
                      | Err (Known ErrAliasTaken) => Error 409 "that phetag is already taken"
                      | Err _ => Error 500 "could not update phetag"
                      | Ok ch => reply 200 (BChannel ch)
                      end)
          end
      end).

Definition deleteChannel c channelID : handler :=
  as_owner c channelID (fun _ =>
    do! r := store_call (fun m _ => DeleteChannel m channelID) in
    Done (match r with Err _ => Error 500 "could not delete channel" | Ok _ => NoContent end)).

(** *** Keys *)

Definition createKey c channelID (label : string) : handler :=
  as_owner c channelID (fun _ =>
    do! b := draw_random 24 in
    match b with
    | None => Done (Error 500 "could not generate key")
    | Some b =>
        let '(plaintext, hash, prefix) := GenerateAPIKey_of b in
        do! now := time_now in
        do! r := store_call (fun m env => CreateAPIKey m (Env.fresh env 0%nat)
                   (APIKey.zero <| APIKey.ChannelID := channelID |> <| APIKey.HashedKey := hash |>
                      <| APIKey.Prefix := prefix |> <| APIKey.Label := label |> <| APIKey.CreatedAt := now |>)) in
        Done (match r with
              | Err _ => Error 500 "could not create key"
              | Ok key => reply 201 (BKey (APIKey.ID key) (APIKey.Prefix key) plaintext)
              end)
    end).

Definition listKeys c channelID : handler :=
  as_owner c channelID (fun _ =>
    do! r := store_read (fun m => Ok (APIKeysByChannel m channelID)) in
    Done (match r with Err _ => Error 500 "could not list keys" | Ok keys => reply 200 (BKeys keys) end)).

Definition revokeKey c channelID (keyID : string) : handler :=
  as_owner c channelID (fun _ =>
    do! r := store_read (fun m => Ok (APIKeysByChannel m channelID)) in
    match r with
    | Err _ => Done (Error 500 "could not load keys")
    | Ok keys =>
        if negb (existsb (fun key => APIKey.ID key == keyID) keys) then Done (Error 404 "key not found")
        else
          do! r := store_call (fun m env => RevokeAPIKey m (Env.clock env) keyID) in
          Done (match r with Err _ => Error 500 "could not revoke key" | Ok _ => reply 200 (BRevoked keyID) end)
    end).

(** *** Publishing *)

Definition task_of (channelID : string) (i : notifyInput.t) (idempotencyKey : string) (now : time) : NotifyTask.t :=
  NotifyTask.mk channelID (notifyInput.Title i) (notifyInput.Body i) (notifyInput.Images i) (notifyInput.Data i)
    (notifyInput.CommentsAllowed i) idempotencyKey now.

Definition notifyChannel c channelID (req : notify_request) : handler :=
  requireUser c (fun uid =>
    do! ch := canAdminister uid channelID in
    match ch with
    | None => Done (Error 403 "not your channel")
    | Some ch =>
        if Channel.Status ch == ChannelDisabled then Done (Error 403 "channel is disabled")
        else
          do! i := decodeNotify HasBlob req in
          if (notifyInput.Title i == "") && (notifyInput.Body i == "") && (length (notifyInput.Images i) =? 0)%nat
          then Done (Error 400 "title, body or an image is required")
          else if negb HasPublisher then Done (Error 503 "sending is not enabled")
          else
            do! now := time_now in
            do! r := enqueue (task_of channelID i "" now) in
            Done (match r with Err _ => Error 503 "could not enqueue message" | Ok _ => reply 202 (BStatus "accepted") end)
    end).

Definition serveImage (id : string) : handler :=
  if negb HasBlob then Done (Error 404 "not found")
  else
    do! r := blob_fetch id in
    Done (match r with Err _ => Error 404 "not found" | Ok (data, contentType) => reply 200 (BImage contentType data) end).

Definition uploadChannelAvatar c channelID (multipart : option (decoded (list FileHeader.t))) : handler :=
  as_owner c channelID (fun _ =>
    if negb HasBlob then Done (Error 503 "image storage is not enabled")
    else
      do! img := upload_avatar HasBlob multipart in
      do! r := store_call (fun m _ => SetChannelAvatar m channelID (MessageImage.ID img)) in
      or_error "could not save avatar" r (fun ch => Done (reply 200 (BChannel ch)))).
Definition deleteChannelAvatar c channelID : handler :=
  as_owner c channelID (fun _ =>
    do! r := store_call (fun m _ => SetChannelAvatar m channelID "") in
    or_error "could not remove avatar" r (fun ch => Done (reply 200 (BChannel ch)))).

Definition createDevice c (req : decoded createDeviceRequest.t) : handler :=
  requireUser c (fun uid =>
    do! req := DecodeLimited req in
    do! created := time_now in
    do! now := time_now in
    do! r := store_call (fun m env => CreateDevice m (Env.fresh env 0%nat)
               (Device.zero <| Device.UserID := uid |> <| Device.Platform := createDeviceRequest.Platform req |>
                  <| Device.FCMToken := createDeviceRequest.FCMToken req |>
                  <| Device.WebPushSub := createDeviceRequest.WebPushSub req |>
                  <| Device.VoIPToken := createDeviceRequest.VoIPToken req |>
                  <| Device.CanRenderPreview := createDeviceRequest.CanRenderPreview req |>
                  <| Device.MLSDeviceID := createDeviceRequest.MLSDeviceID req |>
                  <| Device.CreatedAt := created |> <| Device.LastSeenAt := now |>)) in
    Done (match r with Err _ => Error 500 "could not register device" | Ok d => reply 201 (BDevice d) end)).

(** ** The feed *)

(** The id after which the next page starts: of a full page, the last one. *)
Definition next_cursor {A} (id : A → string) (limit : Z) (page : list A) : string :=
  if Z.of_nat (length page) =? limit then match last page with Some x => id x | None => "" end else "".

Definition page_limit (limit : string) : Z := query_int limit 50 (fun n => (0 <? n) && (n <=? 200)).

(** What only those who may read the channel are shown. *)
Definition as_reader c channelID (refused : response) (k : string → handler) : handler :=
  requireUser c (fun uid =>
    do! can := canReadChannel uid channelID in
    if negb can then Done refused else k uid).

Definition listMessages c channelID (limit cursor q around : string) : handler :=
  as_reader c channelID (Error 404 "channel not found") (fun _ =>
    let limit := page_limit limit in
    let show msgs :=
      do! views := withCommentCounts msgs in Done (reply 200 (BFeed views (next_cursor Message.ID limit msgs))) in
    if around != "" then
      do! r := store_read (fun m => Ok (MessagesAround m channelID around limit)) in
      match r with
      | Err _ => Done (Error 500 "could not load messages")
      | Ok None => Done Panicked
      | Ok (Some (Err ErrNotFound)) => Done (Error 404 "message not found")
      | Ok (Some (Err _)) => Done (Error 500 "could not load messages")
      | Ok (Some (Ok msgs)) => show msgs
      end
    else
      do! r := store_read (fun m => Ok (MessagesByChannel m channelID cursor q limit)) in
      match r with
      | Err _ => Done (Error 500 "could not load messages")
      | Ok msgs => show msgs
      end).

Definition getMessage c channelID messageID : handler :=
  as_reader c channelID (Error 404 "message not found") (fun _ =>
    do! msg := messageInChannel channelID messageID in
    match msg with
    | None => Done (Error 404 "message not found")
    | Some msg =>
        do! views := withCommentCounts [msg] in
        Done (match views with v :: _ => reply 200 (BChannelMessage v) | [] => Panicked end)
    end).

Definition deleteMessage c channelID messageID : handler :=
  as_moderator c channelID (fun _ _ =>
    do! msg := messageInChannel channelID messageID in
    match msg with
    | None => Done (Error 404 "message not found")
    | Some _ =>
        do! r := store_call (fun m _ => DeleteMessage m messageID) in
        or_error "could not delete message" r (fun _ => Done NoContent)
    end).

(** *** Comments *)

Definition listComments c channelID messageID (limit cursor : string) : handler :=
  as_reader c channelID (Error 404 "message not found") (fun _ =>
    do! msg := messageInChannel channelID messageID in
    match msg with
    | None => Done (Error 404 "message not found")
    | Some _ =>
        let limit := page_limit limit in
        do! r := store_read (fun m => Ok (CommentsByMessage m messageID cursor limit)) in
        match r with
        | Err _ => Done (Error 500 "could not load comments")
        | Ok comments =>
            do! views := hydrateComments comments in
            Done (reply 200 (BComments views (next_cursor Comment.ID limit comments)))
        end
    end).

Definition postComment c channelID messageID (body : decoded string) : handler :=
  as_reader c channelID (Error 403 "you must be an active member to comment") (fun uid =>
    do! msg := messageInChannel channelID messageID in
    match msg with
    | None => Done (Error 404 "message not found")
    | Some msg =>
        if negb (Message.CommentsAllowed msg) then Done (Error 403 "comments are closed for this message")
        else
          do! body := DecodeLimited body in
          let body := TrimSpace body in
          if body == "" then Done (Error 400 "comment body is required")
          else if maxCommentLen <? slen body then Done (Error 400 "comment is too long")
          else
            do! now := time_now in
            do! r := store_call (fun m env => CreateComment m (Env.fresh env 0%nat) (Env.clock env)
                       (Comment.mk "" (Message.ID msg) channelID uid body now)) in
            match r with
            | Err _ => Done (Error 500 "could not post comment")
            | Ok comment =>
                do! views := hydrateComments [comment] in
                Done (match views with v :: _ => reply 201 (BComment v) | [] => Panicked end)
            end
    end).

Definition deleteComment c channelID messageID (commentID : string) : handler :=
  requireUser c (fun uid =>
    let delete :=
      do! r := store_call (fun m _ => DeleteComment m commentID) in
      or_error "could not delete comment" r (fun _ => Done NoContent) in
    do! r := store_read (fun m => CommentByID m commentID) in
    match r with
    | Err _ => Done (Error 404 "comment not found")
    | Ok comment =>
        if (Comment.ChannelID comment != channelID) || (Comment.MessageID comment != messageID)
        then Done (Error 404 "comment not found")
        else if Comment.UserID comment == uid then delete
        else
          do! ch := canAdminister uid channelID in
          match ch with None => Done notAllowed | Some _ => delete end
    end).
End Content.
