(* ===== verification/ChannelProfile.v ===== *)
(** * One's own account

    [profile.go] of [api/internal/channel]. *)

From S2P Require Import Prelude.
From S2P Require Import GoStrings.
From S2P Require Import Domain.
From S2P Require Import Threads.
From S2P Require Import Crypto.
From S2P Require Import Blob.
From S2P Require Import Ident.
From S2P Require Import StoreState.
From S2P Require Import StoreUsers.
From S2P Require Import ChannelViews.
From S2P Require Import ChatWorld.
From S2P Require Import ChannelAccess.
From S2P Require Import Uploads.

Definition maxBioLen : Z := 500.
Definition maxFieldLen : Z := 200.

Definition invalid_username : string :=
  "username must be 3–30 characters of letters, digits, '.' or '_', and not start with a digit or '.'".

Section Profile.
Context {B : Type} {BS : BlobStore B} {RO : RangeOrder} {U : Unicode} {NU : NetUrl} {IL : ImageLib}.
Context (HasBlob : bool).
Abbreviation handler := (prog (World.t B) Env.t response).
Implicit Types (c : Caller.t) (uid : string).

(** An absent field reads as blank. *)
Definition deref (v : option string) : string * bool :=
  match v with None => ("", false) | Some s => (TrimSpace s, true) end.

Definition me c : handler :=
  requireUser c (fun uid =>
    do! r := store_read (fun m => UserByID m uid) in
    or_error "could not load profile" r (fun u => Done (reply 200 (BUser u)))).

(** The handle asked for is well formed and nobody else's, as far as one can
    tell before writing. *)
Definition check_username uid (username : string) (k : handler) : handler :=
  if username == "" then k
  else if negb (ValidateUsername username) then Done (Error 400 invalid_username)
  else
    do! r := store_read (fun m => UserByUsername m (ToLower username)) in
    match r with
    | Ok existing => if User.ID existing != uid then Done (Error 409 "that username is already taken") else k
    | Err (Known ErrNotFound) => k
    | Err _ => Done (Error 500 "could not update profile")
    end.

(** The last name of an account is not cleared. *)
Definition keep_a_name uid (p : UserProfileUpdate.t) (k : handler) : handler :=
  let '(username, usernameGiven) := deref (UserProfileUpdate.Username p) in
  let '(displayName, displayNameGiven) := deref (UserProfileUpdate.DisplayName p) in
  if displayNameGiven && (displayName == "") then
    let clearingUsername := usernameGiven && (username == "") in
    do! r := store_read (fun m => UserByID m uid) in
    or_error "could not update profile" r (fun current =>
      let keepsUsername := (User.Username current != "") && negb clearingUsername in
      if (username == "") && negb keepsUsername
      then Done (Error 400 "choose a display name or a username") else k)
  else k.

Definition good_website (site : string) : bool :=
  (site == "") || match url_Parse site with
                  | Some u => (URL.Scheme u == "http") || (URL.Scheme u == "https")
                  | None => false
                  end.

(** The privacy setting asked for; [None] when it is none this server knows. *)
Definition good_privacy (p : option string) : option (option string) :=
  match p with
  | None => Some None
  | Some p => let p := TrimSpace p in if Valid p then Some (Some p) else None
  end.

(** What was asked for, [p] being the body of the request. *)
Definition updateProfile c (req : decoded UserProfileUpdate.t) : handler :=
  requireUser c (fun uid =>
    do! p := DecodeLimited req in
    let field (f : UserProfileUpdate.t → option string) := (deref (f p)).1 in
    check_username uid (field UserProfileUpdate.Username)
      (if maxBioLen <? slen (field UserProfileUpdate.Bio) then Done (Error 400 "bio is too long")
       else if (maxFieldLen <? slen (field UserProfileUpdate.DisplayName))
               || (maxFieldLen <? slen (field UserProfileUpdate.Phone))
               || (maxFieldLen <? slen (field UserProfileUpdate.Website))
       then Done (Error 400 "a profile field is too long")
       else
         keep_a_name uid p
           (if negb (good_website (field UserProfileUpdate.Website))
            then Done (Error 400 "website must be an http or https URL")
            else match good_privacy (UserProfileUpdate.NotificationPrivacy p) with
            | None => Done (Error 400 "unknown notification privacy setting")
            | Some privacy =>
                do! r := store_call (fun m _ => UpdateUserProfile m uid
                           (p <| UserProfileUpdate.NotificationPrivacy := privacy |>)) in
                match r with
                | Err (Known ErrUsernameTaken) => Done (Error 409 "that username is already taken")
                | _ => or_error "could not update profile" r (fun u => Done (reply 200 (BUser u)))
                end
            end))).

Definition uploadAvatar c (multipart : option (decoded (list FileHeader.t))) : handler :=
  requireUser c (fun uid =>
    if negb HasBlob then Done (Error 503 "image storage is not enabled")
    else
      do! img := upload_avatar HasBlob multipart in
      do! r := store_call (fun m _ => SetUserAvatar m uid (MessageImage.ID img)) in
      or_error "could not save avatar" r (fun u => Done (reply 200 (BUser u)))).
Definition deleteAvatar c : handler :=
  requireUser c (fun uid =>
    do! r := store_call (fun m _ => SetUserAvatar m uid "") in
    or_error "could not remove avatar" r (fun u => Done (reply 200 (BUser u)))).
End Profile.
