(* ===== verification/ChannelAdmin.v ===== *)
(** * The admin panel

    [admin_handler.go], [admin_comments.go] and [admin_invites.go] of
    [api/internal/channel], and [session_revocation.go], which brackets the
    changes of an account with the withdrawal of its tokens. *)

From S2P Require Import Prelude.
From S2P Require Import GoStrings.
From S2P Require Import Domain.
From S2P Require Import Threads.
From S2P Require Import Crypto.
From S2P Require Import Strconv.
From S2P Require Import Password.
From S2P Require Import Otp.
From S2P Require Import Blob.
From S2P Require Import StoreState.
From S2P Require Import StoreUsers.
From S2P Require Import StoreChannels.
From S2P Require Import StoreInvites.
From S2P Require Import StoreMessages.
From S2P Require Import Auth.
From S2P Require Import AuthHandler.
From S2P Require Import ChannelViews.
From S2P Require Import ChatWorld.
From S2P Require Import ChatKeys.
From S2P Require Import ChannelAccess.
From S2P Require Import ChannelMembers.
From S2P Require Import ChannelContent.

Definition maxInviteNote : Z := 200.
Definition maxInviteTTLDays : Z := 365.

(** [time.AddDate] in UTC, where a day has 24 hours. *)
Definition AddDays (t : time) (days : Z) : time := t + days * (24 * Hour).

Module createUserRequest.
Record t := mk { Email : string; Password : string; Role : string }.
End createUserRequest.

Module updateUserRequest.
Record t := mk { Role : option string; Status : option string }.
End updateUserRequest.

Module createInviteRequest.
Record t := mk { Note : string; ExpiresInDays : Z }.
End createInviteRequest.

(** The query, the offset, the limit and the page. *)
Definition pageParams (q page limit : string) : string * Z * Z * Z :=
  let page := query_int page 1 (fun v => 0 <? v) in
  let limit := query_int limit 20 (fun v => (0 <? v) && (v <=? 100)) in
  (q, wrap64 ((page - 1) * limit), limit, page).

(** What [listComments] remembers of the channels and the messages it has
    looked up. *)
Abbreviation names := (gmap string string).

Section Admin.
Context {B : Type} {BS : BlobStore B} {RO : RangeOrder} {U : Unicode} {RC : RuneClasses} {A : Argon2} {NM : NetMail}.
Context (HasRevoker : bool) (SessionTTL : Z).
Abbreviation world := (World.t B).
Abbreviation handler := (prog world Env.t response).
Implicit Types (c : Caller.t) (targetID channelID : string).

Definition requireAdmin c (k : handler) : handler :=
  if Caller.role c != RoleAdmin then Done (Error 403 "admin access required") else k.

(** [revokeUserSessions]: whether it worked. *)
Definition revokeUserSessions targetID (k : bool → handler) : handler :=
  if negb HasRevoker || (SessionTTL <=? 0) then k false
  else
    do! now := time_now in
    let cutoff := reset_cutoff now in
    RevokeUserBefore targetID cutoff (cutoff + SessionTTL) k.

Definition ok_status : response := reply 200 (BStatus "ok").

(** A page of what was asked for; a slice out of range panics. *)
Definition with_page {X} (r : result (failure store_err) (option (list X) * Z)) (msg : string)
  (k : list X → Z → handler) : handler :=
  match r with
  | Err _ => Done (Error 500 msg)
  | Ok (None, _) => Done Panicked
  | Ok (Some page, total) => k page total
  end.

Definition stats c : handler :=
  requireAdmin c (
    do! r := store_read (fun m => Ok (AdminStats_ m 5 10)) in
    Done (match r with Err _ => Error 500 "could not load stats" | Ok stats => reply 200 (BStats stats) end)).

(** ** Accounts *)

Definition user_summary (channels : list Channel.t) (u : User.t) : userSummary.t :=
  let count := Z.of_nat (length (filter (fun ch => Channel.OwnerID ch = User.ID u) channels)) in
  userSummary.mk (if User.Status u == "" then u <| User.Status := UserActive |> else u) count.

Definition listUsers c (q page limit : string) : handler :=
  requireAdmin c (
    let '(q, offset, limit, page) := pageParams q page limit in
    do! r := store_read (fun m => Ok (AdminListUsers m q offset limit)) in
    with_page r "could not list users" (fun users total =>
      do! r := store_read (fun m => Ok (ListAllChannels m)) in
      Done (match r with
            | Err _ => Error 500 "could not list users"
            | Ok channels => reply 200 (BUserSummaries (user_summary channels <$> users) total page limit)
            end))).

Definition known_role (role : string) : bool := (role == RoleUser) || (role == RoleAdmin).
Definition known_status (status : string) : bool := (status == UserActive) || (status == UserBlocked).

(** [hash_password]: [None] when no salt could be drawn. *)
Definition hash_password (password : string) (k : option string → handler) : handler :=
  do! salt := draw_random 16 in
  k (HashPassword password <$> salt).

Definition createUser c (req : decoded createUserRequest.t) : handler :=
  requireAdmin c (
    do! req := DecodeLimited req in
    let '(email, ok) := normalizeEmail (createUserRequest.Email req) in
    if negb ok then Done (Error 400 "a valid email is required")
    else match ValidatePassword (createUserRequest.Password req) with
    | Err e => Done (Error 400 (policy_message e))
    | Ok _ =>
        let role := if createUserRequest.Role req == "" then RoleUser else createUserRequest.Role req in
        if negb (known_role role) then Done (Error 400 "invalid role")
        else
          do! r := store_read (fun m => UserByEmail m email) in
          match r with
          | Ok _ => Done (Error 409 "email already registered")
          | Err (Known ErrNotFound) =>
              do! hash := hash_password (createUserRequest.Password req) in
              match hash with
              | None => Done (Error 500 "could not create user")
              | Some hash =>
                  do! now := time_now in
                  do! r := store_call (fun m env => CreateUser m (Env.fresh env 0%nat)
                             (User.zero <| User.Email := email |> <| User.PasswordHash := hash |>
                                <| User.Role := role |> <| User.Status := UserActive |>
                                <| User.CreatedAt := now |>)) in
                  Done (match r with
                        | Err _ => Error 500 "could not create user"
                        | Ok u => reply 201 (BUserSummary (userSummary.mk u 0))
                        end)
              end
          | Err _ => Done (Error 500 "could not create user")
          end
    end).

(** The change of an account between two withdrawals of its tokens. *)
Definition bracketed targetID (msg : string) (change : handler → handler) (k : handler) : handler :=
  do! revoked := revokeUserSessions targetID in
  if negb revoked then Done (Error 500 msg)
  else
    change (
      do! revoked := revokeUserSessions targetID in
      if negb revoked then Done (Error 500 msg) else k).

Definition knownUser targetID (msg : string) (k : handler) : handler :=
  do! r := store_read (fun m => UserByID m targetID) in
  or_error msg r (fun _ => k).

(** A write of a field that may be absent. *)
Definition set_field {X} (v : option X) (write : X → Memory.t B → memory_op B unit) (msg : string) (k : handler)
  : handler :=
  match v with
  | None => k
  | Some x => do! r := store_call (fun m _ => write x m) in or_error msg r (fun _ => k)
  end.

(** The caller is told apart from the target by the id the token carries; no
    id is the empty one. *)
Definition same_user c targetID : bool := default "" (Caller.user c) == targetID.

Definition updateUser c targetID (req : decoded updateUserRequest.t) : handler :=
  requireAdmin c (
    if same_user c targetID then Done (Error 400 "cannot change your own role or status")
    else
      do! req := DecodeLimited req in
      let role := updateUserRequest.Role req in
      let status := updateUserRequest.Status req in
      if negb (match role with Some r => known_role r | None => true end) then Done (Error 400 "invalid role")
      else if negb (match status with Some s => known_status s | None => true end)
      then Done (Error 400 "invalid status")
      else if negb (bool_decide (is_Some role) || bool_decide (is_Some status)) then Done ok_status
      else
        knownUser targetID "could not update user" (
          bracketed targetID "could not update user" (fun k =>
            set_field role (fun r m => UpdateUserRole m targetID r) "could not update role" (
              set_field status (fun s m => UpdateUserStatus m targetID s) "could not update status" k))
          (Done ok_status))).

Definition resetUserPassword c targetID (newPassword : decoded string) : handler :=
  requireAdmin c (
    do! newPassword := DecodeLimited newPassword in
    match ValidatePassword newPassword with
    | Err e => Done (Error 400 (policy_message e))
    | Ok _ =>
        knownUser targetID "could not reset password" (
          do! hash := hash_password newPassword in
          match hash with
          | None => Done (Error 500 "could not reset password")
          | Some hash =>
              bracketed targetID "could not reset password" (fun k =>
                do! r := store_call (fun m _ => UpdateUserPassword m targetID hash) in
                or_error "could not reset password" r (fun _ => k))
              (Done ok_status)
          end)
    end).

Definition deleteUser c targetID : handler :=
  requireAdmin c (
    if same_user c targetID then Done (Error 400 "cannot delete your own account")
    else
      knownUser targetID "could not delete user" (
        bracketed targetID "could not delete user" (fun k =>
          do! r := store_call (fun m _ => DeleteUser m targetID) in
          or_error "could not delete user" r (fun _ => k))
        (Done NoContent))).

(** ** Channels *)

Definition channel_summary (owners : gmap string User.t) (ch : Channel.t) : channelSummary.t :=
  channelSummary.mk (if Channel.Status ch == "" then ch <| Channel.Status := ChannelActive |> else ch)
    (match owners !! Channel.OwnerID ch with Some u => User.Email u | None => "" end).

Definition adminListChannels c (q page limit : string) : handler :=
  requireAdmin c (
    let '(q, offset, limit, page) := pageParams q page limit in
    do! r := store_read (fun m => Ok (AdminListChannels m q offset limit)) in
    with_page r "could not list channels" (fun channels total =>
      do! r := store_read (fun m => Ok (UsersByIDs m (Channel.OwnerID <$> channels))) in
      let owners := match r with Ok owners => owners | Err _ => ∅ end in
      Done (reply 200 (BChannelSummaries (channel_summary owners <$> channels) total page limit)))).

Definition adminUpdateChannel c channelID (status : decoded string) : handler :=
  requireAdmin c (
    do! status := DecodeLimited status in
    if (status != ChannelActive) && (status != ChannelDisabled) then Done (Error 400 "invalid status")
    else
      do! r := store_call (fun m _ => UpdateChannelStatus m channelID status) in
      or_error "could not update channel" r (fun ch => Done (reply 200 (BChannel ch)))).

Definition adminDeleteChannel c channelID : handler :=
  requireAdmin c (
    do! r := store_call (fun m _ => DeleteChannel m channelID) in
    or_error "could not delete channel" r (fun _ => Done NoContent)).

Definition channelMessages c channelID (limit cursor q : string) : handler :=
  requireAdmin c (
    let limit := page_limit limit in
    do! r := store_read (fun m => Ok (MessagesByChannel m channelID cursor q limit)) in
    Done (match r with
          | Err _ => Error 500 "could not load messages"
          | Ok msgs => reply 200 (BRawFeed msgs (next_cursor Message.ID limit msgs))
          end)).

Definition adminListKeys c channelID : handler :=
  requireAdmin c (
    do! r := store_read (fun m => Ok (APIKeysByChannel m channelID)) in
    Done (match r with Err _ => Error 500 "could not list keys" | Ok keys => reply 200 (BKeys keys) end)).

Definition adminRevokeKey c channelID (keyID : string) : handler :=
  requireAdmin c (
    do! r := store_read (fun m => APIKeyByID m keyID) in
    match r with
    | Err _ => Done (Error 404 "not found")
    | Ok key =>
        if APIKey.ChannelID key != channelID then Done (Error 404 "not found")
        else
          do! r := store_call (fun m env => RevokeAPIKey m (Env.clock env) keyID) in
          or_error "could not revoke key" r (fun _ => Done (reply 200 (BRevoked keyID)))
    end).

(** ** Comments *)

(** The name under [id], looked up once. *)
Definition remember (known : names) (id : string) (look : Memory.t B → result store_err string)
  (k : names → handler) : handler :=
  match known !! id with
  | Some _ => k known
  | None =>
      do! r := store_read look in
      k (<[id := match r with Ok name => name | Err _ => "" end]> known)
  end.

Definition channel_name id (m : Memory.t B) : result store_err string :=
  match ChannelByID m id with Ok ch => Ok (Channel.Name ch) | Err e => Err e end.
Definition message_title id (m : Memory.t B) : result store_err string :=
  match MessageByID m id with Ok msg => Ok (Message.Title msg) | Err e => Err e end.

Fixpoint admin_comments (users : gmap string User.t) (channelNames messageTitles : names) (comments : list Comment.t)
  (k : list adminComment.t → handler) : handler :=
  match comments with
  | [] => k []
  | cm :: comments =>
      do! channelNames := remember channelNames (Comment.ChannelID cm) (channel_name (Comment.ChannelID cm)) in
      do! messageTitles := remember messageTitles (Comment.MessageID cm) (message_title (Comment.MessageID cm)) in
      do! out := admin_comments users channelNames messageTitles comments in
      k (adminComment.mk cm (match users !! Comment.UserID cm with Some u => User.Email u | None => "" end)
           (Comment.UserID cm) (default "" (channelNames !! Comment.ChannelID cm))
           (default "" (messageTitles !! Comment.MessageID cm)) :: out)
  end.

Definition adminListComments c (q page limit : string) : handler :=
  requireAdmin c (
    let '(q, offset, limit, page) := pageParams q page limit in
    do! r := store_read (fun m => Ok (AdminListComments m q offset limit)) in
    with_page r "could not list comments" (fun comments total =>
      do! r := store_read (fun m => Ok (UsersByIDs m (once (Comment.UserID <$> comments)))) in
      match r with
      | Err _ => Done (Error 500 "could not list comments")
      | Ok users =>
          do! out := admin_comments users ∅ ∅ comments in
          Done (reply 200 (BAdminComments out total page limit))
      end)).

Definition adminDeleteComment c (id : string) : handler :=
  requireAdmin c (
    do! r := store_call (fun m _ => DeleteComment m id) in
    or_error "could not delete comment" r (fun _ => Done NoContent)).

(** ** Invitations *)

Definition listInvites c (q page limit : string) : handler :=
  requireAdmin c (
    let '(q, offset, limit, page) := pageParams q page limit in
    do! r := store_read (fun m => Ok (AdminListInvites m q offset limit)) in
    with_page r "could not list invites" (fun invites total =>
      do! now := time_now in
      Done (reply 200 (BInvites ((fun i => summarizeInvite i now) <$> invites) total page limit)))).

(** The invitation made of the bytes drawn, and its code. *)
Definition new_invite (b : bytes) (note createdBy : string) (days : Z) (now : time) : Invite.t * string :=
  let code := InviteCode.GenerateCode_of b in
  (Invite.zero <| Invite.CodeHash := InviteCode.HashCode code |> <| Invite.Prefix := InviteCode.Prefix code |>
     <| Invite.Note := note |> <| Invite.CreatedBy := createdBy |> <| Invite.CreatedAt := now |>
     <| Invite.ExpiresAt := if 0 <? days then Some (AddDays now days) else None |>, code).

Definition createInvite c (req : decoded createInviteRequest.t) : handler :=
  requireAdmin c (
    do! req := DecodeLimited req in
    let note := TrimSpace (createInviteRequest.Note req) in
    let days := createInviteRequest.ExpiresInDays req in
    if maxInviteNote <? slen note then Done (Error 400 "note is too long")
    else if (days <? 0) || (maxInviteTTLDays <? days)
    then Done (Error 400 "expiry must be between 0 and 365 days")
    else
      do! b := draw_random 16 in
      match b with
      | None => Done (Error 500 "could not create invite")
      | Some b =>
          do! now := time_now in
          let '(inv, code) := new_invite b note (default "" (Caller.user c)) days now in
          do! r := store_call (fun m env => CreateInvite m (Env.fresh env 0%nat) inv) in
          Done (match r with
                | Err _ => Error 500 "could not create invite"
                | Ok created => reply 201 (BInvite (inviteSummary.mk created (Status created now) code))
                end)
      end).

Definition revokeInvite c (id : string) : handler :=
  requireAdmin c (
    do! now := time_now in
    do! r := store_call (fun m _ => RevokeInvite m id now) in
    match r with
    | Err (Known ErrNotFound) => Done (Error 404 "invite not found")
    | Err _ => Done (Error 500 "could not revoke invite")
    | Ok _ =>
        do! r := store_read (fun m => InviteByID m id) in
        match r with
        | Err _ => Done (reply 200 (BStatus "revoked"))
        | Ok inv => do! now := time_now in Done (reply 200 (BInvite (summarizeInvite inv now)))
        end
    end).
End Admin.

(** * Paging

    The pages of the admin panel: what [pageParams] of [admin_handler.go] reads
    of a query, and what [paginate] of the store makes of it. *)

(** The page that a query shows of a list. *)
Definition page_shown {A} (items : list A) (q page limit : string) : option (list A) :=
  let '(_, offset, limit, _) := pageParams q page limit in paginate items offset limit.
Definition page_size (limit : string) : Z := query_int limit 20 (fun v => (0 <? v) && (v <=? 100)).

Section Pages.
Context {A : Type}.
Implicit Types (items : list A).

Lemma query_int_sound value fallback p : p fallback = true → p (query_int value fallback p) = true.
Proof. intros Hf. unfold query_int. case_match; [|done]. by case_match. Qed.
Lemma page_size_bounds limit : 1 ≤ page_size limit ≤ 100.
Proof.
  pose proof (query_int_sound limit 20 (fun v => (0 <? v) && (v <=? 100)) eq_refl) as H.
  cbn beta in H. apply andb_true_iff in H as [H1%Z.ltb_lt H2%Z.leb_le]. unfold page_size. lia.
Qed.

(** A window of a list, whatever its offset. *)
Lemma paginate_window items offset limit :
  0 ≤ offset → 0 < limit → Z.of_nat (length items) + limit < two63 →
  paginate items offset limit = Some (take (Z.to_nat limit) (drop (Z.to_nat offset) items)).
Proof.
  intros Ho Hl Hlen. unfold paginate. rewrite (proj2 (Z.ltb_ge offset 0)) by done.
  destruct (Z.leb_spec (Z.of_nat (length items)) offset) as [Hge|Hlt].
  { rewrite drop_ge by lia. by rewrite take_nil. }
  rewrite (proj2 (Z.ltb_lt 0 limit)) by done. rewrite wrap64_id by lia. cbn [andb]. unfold go_slice.
  destruct (Z.ltb_spec (offset + limit) (Z.of_nat (length items))).
  - rewrite !(proj2 (Z.leb_le _ _)) by lia. cbn [andb]. do 3 f_equal. lia.
  - rewrite !(proj2 (Z.leb_le _ _)) by lia. cbn [andb]. f_equal. rewrite !take_ge; [done| |]; rewrite length_drop; lia.
Qed.

Lemma page_shown_window items q limit (p : nat) :
  Z.of_nat (length items) + 100 < two63 → (Z.of_nat p + 1) * 100 < two63 →
  page_shown items q (FormatInt (Z.of_nat p + 1)) limit =
    Some (take (Z.to_nat (page_size limit)) (drop (p * Z.to_nat (page_size limit)) items)).
Proof.
  intros Hlen Hp. pose proof (page_size_bounds limit) as Hs. unfold page_shown, pageParams. fold (page_size limit).
  unfold query_int at 1. rewrite ParseInt_FormatInt by (unfold two63 in *; lia).
  rewrite (proj2 (Z.ltb_lt 0 (Z.of_nat p + 1))) by lia.
  replace (Z.of_nat p + 1 - 1) with (Z.of_nat p) by lia. rewrite wrap64_id by (unfold two63 in *; nia).
  rewrite paginate_window by nia. do 3 f_equal. nia.
Qed.

Lemma windows_cover (size : nat) items n : (length items ≤ n * size)%nat →
  mjoin ((fun p => take size (drop (p * size) items)) <$> seq 0 n) = items.
Proof.
  revert items. induction n as [|n IH]; intros items Hn.
  { destruct items; [done | cbn in Hn; lia]. }
  cbn [seq fmap list_fmap mjoin list_join]. rewrite <- fmap_S_seq, <- list_fmap_compose.
  transitivity (take size items ++ drop size items); [|apply take_drop]. f_equal.
  rewrite <- (IH (drop size items)) by (rewrite length_drop; lia). f_equal. apply list_fmap_ext. intros i p _.
  cbn [compose]. rewrite drop_drop. f_equal.
Qed.
End Pages.

(** Pages have a size the server can bear and leave nothing out: whatever a
    query asks for a page size, pages have between one and a hundred rows, no
    page is out of range, and the pages one after the other are the list, each
    row once and in order. *)
Theorem pages_cover {A} (items : list A) (q limit : string) (n : nat) :
  let size := Z.to_nat (page_size limit) in
  let shown := fun p : nat => page_shown items q (FormatInt (Z.of_nat p + 1)) limit in
  Z.of_nat (length items) + 100 < two63 → (Z.of_nat n + 1) * 100 < two63 → (length items ≤ n * size)%nat →
  (1 ≤ size ≤ 100)%nat ∧
  (∀ p, (p < n)%nat → ∃ page, shown p = Some page ∧ (length page ≤ size)%nat) ∧
  mjoin ((fun p => default [] (shown p)) <$> seq 0 n) = items.
Proof.
  intros size shown Hlen Hn Hcov. pose proof (page_size_bounds limit) as Hs.
  assert (∀ p, (p < n)%nat → shown p = Some (take size (drop (p * size) items))) as Hshown.
  { intros p Hp. apply page_shown_window; [done | unfold two63 in *; lia]. }
  split_and!; [lia.. | |].
  - intros p Hp. eexists. split; [by apply Hshown|]. rewrite length_take. lia.
  - etransitivity; [|exact (windows_cover size items n Hcov)]. f_equal. apply list_fmap_ext. intros i p Hp.
    apply lookup_seq in Hp as [-> Hp]. by rewrite Hshown.
Qed.

(** Seven rows, by three. *)
Lemma pages_cover_witness :
  page_shown [1; 2; 3; 4; 5; 6; 7] "" "3" "3" = Some [7] ∧ page_shown [1; 2; 3] "" "7" "1000" = Some [] ∧
  mjoin ((fun p => default [] (page_shown [1; 2; 3; 4; 5; 6; 7] "" (FormatInt (Z.of_nat p + 1)) "3")) <$> seq 0 3)
    = [1; 2; 3; 4; 5; 6; 7].
Proof.
  split; [reflexivity|]. split; [reflexivity|]. apply (pages_cover [1; 2; 3; 4; 5; 6; 7] "" "3" 3).
  - reflexivity.
  - reflexivity.
  - vm_compute. lia.
Defined.
