(* ===== verification/Dispatch.v ===== *)
(** * Publishing a channel message

    [api/internal/message]: the dispatcher, which stores a task as a message
    and fans it out to this host's devices and to the hosts that subscribe, and
    [channel_federation.go], the other end of that. [ingest.go] of
    [api/internal/channel] is where tasks come from. *)

From S2P Require Import Prelude.
From S2P Require Import GoStrings.
From S2P Require Import Domain.
From S2P Require Import Threads.
From S2P Require Import Crypto.
From S2P Require Import Blob.
From S2P Require Import Calls.
From S2P Require Import Live.
From S2P Require Import StoreState.
From S2P Require Import StoreChannels.
From S2P Require Import StoreDevices.
From S2P Require Import StoreMessages.
From S2P Require Import PushNotify.
From S2P Require Import Peers.
From S2P Require Import ChannelViews.
From S2P Require Import ChatWorld.
From S2P Require Import ChannelAccess.
From S2P Require Import Uploads.
From S2P Require Import ChannelContent.

(** ** The dispatcher *)

(** Whether the fields that may be nil are set. *)
Module Dispatcher.
Record t := mk { Live : bool; Peers : bool; Blobs : bool }.
End Dispatcher.

Definition message_of (task : NotifyTask.t) (now : time) : Message.t :=
  Message.mk "" (NotifyTask.ChannelID task) (NotifyTask.Title task) (NotifyTask.Body task) (NotifyTask.Images task)
    (NotifyTask.Data task) (NotifyTask.CommentsAllowed task) now.

Definition delivery_of (msg : Message.t) (r : Result.t) (now : time) : Delivery.t :=
  Delivery.mk "" (Message.ID msg) (Result.DeviceID r) (Result.Status r) (Result.Error r) now.

Definition live_message (msg : Message.t) : Event.t :=
  Event.zero <| Event.ChannelID := Message.ChannelID msg |> <| Event.Message := msg |>.

Section Dispatch.
Context {B : Type} {BS : BlobStore B} {RO : RangeOrder} {R : Type}.
Context (d : Dispatcher.t).
Abbreviation handler := (prog (World.t B) Env.t R).
Implicit Types (msg : Message.t) (task : NotifyTask.t).

Definition pruneDeadAddresses (results : list Result.t) (k : handler) : handler :=
  for_each (GoneDeviceIDs results) (fun id k => do! _ := store_call (fun m _ => DeleteDevice m id) in k) k.

Definition record_delivery msg (r : Result.t) (k : handler) : handler :=
  do! now := time_now in
  do! _ := store_call (fun m env => CreateDelivery m (Env.fresh env 0%nat) (Env.clock env) (delivery_of msg r now)) in k.

Definition DeliverLocally msg (k : handler) : handler :=
  do! r := store_read (fun m => Ok (ActiveDevicesForChannel m (Message.ChannelID msg))) in
  let live := if Dispatcher.Live d then publish (live_message msg) k else k in
  match (match r with Ok devices => devices | Err _ => [] end) with
  | [] => live
  | devices =>
      do! results := push_message msg devices in
      for_each results (record_delivery msg) (pruneDeadAddresses results live)
  end.

Fixpoint load_images (images : list MessageImage.t) (out : list RemoteImage.t) (k : list RemoteImage.t → handler)
  : handler :=
  match images with
  | [] => k out
  | img :: images =>
      do! r := blob_fetch (MessageImage.ID img) in
      load_images images
        (match r with
         | Err _ => out
         | Ok (data, contentType) =>
             out ++ [RemoteImage.mk (MessageImage.Width img) (MessageImage.Height img) contentType data]
         end) k
  end.

Definition remoteImages msg (k : list RemoteImage.t → handler) : handler :=
  if negb (Dispatcher.Blobs d) then k [] else load_images (Message.Images msg) [] k.

Definition fanOutToPeers msg (k : handler) : handler :=
  if negb (Dispatcher.Peers d) then k
  else
    do! r := store_read (fun m => Ok (RemoteSubscriberHosts m (Message.ChannelID msg))) in
    match r with
    | Err _ | Ok [] => k
    | Ok hosts =>
        do! r := store_read (fun m => ChannelByID m (Message.ChannelID msg)) in
        match r with
        | Err _ => k
        | Ok ch =>
            if Channel_IsMirror ch then k
            else
              do! images := remoteImages msg in
              let out := RemoteMessage.mk (Channel.PublicID ch) (Message.Title msg) (Message.Body msg) images
                           (Message.CreatedAt msg) in
              for_each hosts (fun host k => do! _ := peer_do (DeliverToPeer host out) in k) k
        end
    end.

(** On an error the broker gives the task up: RabbitMQ puts it on the dead-letter queue,
    the in-memory broker drops it. *)
Definition Handle task (k : result (failure store_err) unit → handler) : handler :=
  do! now := time_now in
  do! r := store_call (fun m env => CreateMessage m (Env.fresh env 0%nat) (message_of task now)) in
  match r with
  | Err e => k (Err e)
  | Ok msg => DeliverLocally msg (fanOutToPeers msg (k (Ok tt)))
  end.

(** ** Channels of other hosts *)

Inductive channel_fed_err : Type := ErrNotFederatable | ErrNoMirror | ChannelStoreFailed (e : failure store_err).

Definition RecordRemoteSubscriber (channelPublicID peerDomain : string) (k : result channel_fed_err string → handler)
  : handler :=
  do! r := store_read (fun m => ChannelByPublicID m channelPublicID) in
  match r with
  | Err e => k (Err (ChannelStoreFailed e))
  | Ok ch =>
      if (Channel.SubscriptionMode ch != ModeOpen) || Channel_IsMirror ch then k (Err ErrNotFederatable)
      else
        do! r := store_call (fun m env => AddRemoteSubscription m (Env.fresh env 0%nat) (Env.clock env) (Channel.ID ch)
                   peerDomain) in
        k (match r with Err e => Err (ChannelStoreFailed e) | Ok _ => Ok (Channel.Name ch) end)
  end.

Definition put_remote_image (img : RemoteImage.t) :=
  blob_call (B := B) (R := R) (fun b env => bs_put b (Env.newBlob env) (RemoteImage.Data img) (RemoteImage.ContentType img)).

Fixpoint store_images (images : list RemoteImage.t) (out : list MessageImage.t) (k : list MessageImage.t → handler)
  : handler :=
  match images with
  | [] => k out
  | img :: images =>
      if slen (RemoteImage.Data img) =? 0 then store_images images out k
      else
        do! r := put_remote_image img in
        store_images images
          (match r with
           | Err _ => out
           | Ok id => out ++ [MessageImage.mk id (RemoteImage.Width img) (RemoteImage.Height img)]
           end) k
  end.

(** [blobs] is whether the service has a blob store. *)
Definition rehostImages (blobs : bool) (images : list RemoteImage.t) (k : list MessageImage.t → handler) : handler :=
  if negb blobs then k [] else store_images images [] k.

(** The time the message is filed under: the origin's when it lies in the
    past. *)
Definition arrival (sent now : time) : time := if negb (IsZero sent) && Before sent now then sent else now.

Definition DeliverRemoteMessage (blobs : bool) (originDomain : string) (rm : RemoteMessage.t)
  (k : result channel_fed_err unit → handler) : handler :=
  do! r := store_read (fun m => ChannelByOriginPublicID m originDomain (RemoteMessage.ChannelPublicID rm)) in
  match r with
  | Err _ => k (Err ErrNoMirror)
  | Ok ch =>
      do! now := time_now in
      do! images := rehostImages blobs (RemoteMessage.Images rm) in
      do! r := store_call (fun m env => CreateMessage m (Env.fresh env 0%nat)
                 (Message.zero <| Message.ChannelID := Channel.ID ch |> <| Message.Title := RemoteMessage.Title rm |>
                    <| Message.Body := RemoteMessage.Body rm |> <| Message.Images := images |>
                    <| Message.CreatedAt := arrival (RemoteMessage.CreatedAt rm) now |>)) in
      match r with
      | Err e => k (Err (ChannelStoreFailed e))
      | Ok msg => DeliverLocally msg (k (Ok tt))
      end
  end.
End Dispatch.

(** ** The trigger endpoint *)

Section Ingest.
Context {B : Type} {BS : BlobStore B} {RO : RangeOrder} {U : Unicode} {IL : ImageLib}.
Context (HasBlob HasLimiter HasDedup : bool).
Abbreviation handler := (prog (World.t B) Env.t response).

Definition key_opens (presented : string) (key : APIKey.t) : bool :=
  bool_decide (APIKey.RevokedAt key = None) && EqualAPIKey presented (APIKey.HashedKey key).

Definition validKey (channelID presented : string) (k : bool → handler) : handler :=
  do! r := store_read (fun m => Ok (APIKeysByChannel m channelID)) in
  k (match r with Err _ => false | Ok keys => existsb (key_opens presented) keys end).

(** [limited]: over the channel's budget or not. *)
Definition limited (channelID : string) (k : bool → handler) : handler :=
  if negb HasLimiter then k false else do! ok := limiter_allows channelID in k (negb ok).

(** Whether the idempotency store knows the request; one that cannot be asked
    does not. *)
Definition repeated (channelID idemKey : string) (k : bool → handler) : handler :=
  if (idemKey != "") && HasDedup then
    do! seen := dedup_seen (String.append channelID (String ":" idemKey)) Window in k (default false seen)
  else k false.

Definition bad_credentials : response := Error 401 "invalid channel or key".

Definition notify (publicID apiKey idemKey : string) (req : notify_request) : handler :=
  let apiKey := TrimSpace apiKey in
  if apiKey == "" then Done (Error 401 "missing X-Api-Key")
  else
    do! r := store_read (fun m => ChannelByPublicID m publicID) in
    match r with
    | Err _ => Done bad_credentials
    | Ok ch =>
        do! valid := validKey (Channel.ID ch) apiKey in
        if negb valid then Done bad_credentials
        else if Channel.Status ch == ChannelDisabled then Done (Error 403 "channel is disabled")
        else
          do! over := limited (Channel.ID ch) in
          if over then Done (Error 429 "rate limit exceeded")
          else
            let idemKey := TrimSpace idemKey in
            do! seen := repeated (Channel.ID ch) idemKey in
            if seen then Done (reply 202 (BStatus "accepted"))
            else
              do! i := decodeNotify HasBlob req in
              if (TrimSpace (notifyInput.Title i) == "") && (TrimSpace (notifyInput.Body i) == "")
                 && (length (notifyInput.Images i) =? 0)%nat
              then Done (Error 400 "title, body or an image is required")
              else
                do! now := time_now in
                do! r := enqueue (task_of (Channel.ID ch) i idemKey now) in
                Done (match r with
                      | Err _ => Error 503 "could not enqueue notification"
                      | Ok _ => reply 202 (BStatus "accepted")
                      end)
    end.
End Ingest.
