(* ===== verification/FedServe.v ===== *)
(** * The host-to-host API

    [handler.go], [channels.go], [keypackages.go], [conversations.go] of
    [api/internal/federation], the adapters of [api/cmd/app/main.go], and the
    services they call: [ConvFed] and [Dispatch]. Each route but the public
    directory runs only for a caller whose signature the node list vouches for. *)

From S2P Require Import Prelude.
From S2P Require Import GoStrings.
From S2P Require Import Domain.
From S2P Require Import Threads.
From S2P Require Import Crypto.
From S2P Require Import Blob.
From S2P Require Import Nodelist.
From S2P Require Import Calls.
From S2P Require Import Federation.
From S2P Require Import StoreState.
From S2P Require Import StoreUsers.
From S2P Require Import StoreMls.
From S2P Require Import PushNotify.
From S2P Require Import Peers.
From S2P Require Import ChatWorld.
From S2P Require Import ChatPush.
From S2P Require Import ConvFed.
From S2P Require Import Dispatch.

(** ** Requests and answers *)

Inductive fed_route : Type :=
| Directory | Liveness | UserExistsRoute | ResolveUserRoute | ChannelSubscribe | ChannelDelivery | ClaimKeyPackagesRoute
| ConvProvision | ConvRelay | ConvSubmitMessage | ConvSubmitCommit | ConvSubmitReceipt | ConvRelayReceipt
| ConvCallSignal | ConvCallNudge | ConvTurn | ConvDelete.

(** What [json.Unmarshal] makes of a body, [None] when it is an error; an
    absent field has the zero value. *)
Class PeerJson := {
  body_field : string → bytes → option string;
  body_message : bytes → option RemoteMessage.t;
  body_spec : bytes → option MirrorSpec.t;
  body_relay : bytes → option (string * list RelayedMessage.t);
  body_submitted : bytes → option SubmittedMessage.t;
  body_commit : bytes → option SubmittedCommit.t;
  body_receipt : bytes → option ReceiptUpdate.t;
  body_signal : bytes → option CallSignalRelay.t;
  body_nudge : bytes → option CallNudge.t
}.

Inductive fed_body : Type :=
| FDirectory (origin : string) (endpoints : list (string * string))
| FLiveness (origin peer : string)
| FExists (exists_ : bool)
| FUser (u : RemoteUser.t)
| FName (name : string)
| FDone
| FDelivered (count : nat)
| FPackages (packages : list ClaimedKeyPackage.t)
| FMessage (m : RelayedMessage.t)
| FCommit (r : CommitResult.t)
| FGrant (g : TurnGrant.t).

Inductive fed_response : Type :=
| FedError (status : Z) (message : string)
| FedReply (b : fed_body)
| FedPanicked
| NotMounted.

(** The optional services that are set, and whether there is a replay guard. *)
Module FedHandler.
Record t := mk {
  Origin : string; Channels : option Dispatcher.t; ChannelBlobs : bool; KeyPackages : bool;
  Conversations : option ConvFederation.t; Replay : bool
}.
End FedHandler.

(** The data of an [http.Request] that the routes look at. *)
Definition maxFedBody : Z := Z.shiftl 1 20.
Definition read_body (body : bytes) : bytes := string_take (Z.to_nat maxFedBody) body.

(** The idempotency store as a replay guard: it may not answer. *)
#[global] Instance dedup_guard {RO : RangeOrder} : ReplayGuard (gmap string time * fault) := {|
  guard_Seen g now key window :=
    let '(marked, seen) := Seen g.1 now key window in
    match g.2 with
    | Works => ((marked, Works), Some seen)
    | NotDone => (g, None)
    | AnswerLost => ((marked, AnswerLost), None)
    end
|}.

Section FedServe.
Context {B : Type} {BS : BlobStore B} {RO : RangeOrder} {GO : GroupOrder} {U : Unicode} {E : Ed25519} {HM : Hmac}
  {PJ : PeerJson}.
Context (f : FedHandler.t) (h : Handler.t) (nodes : NodeStore.t).
Abbreviation handler := (prog (World.t B) Env.t fed_response).

(** [verified]: [k] is given the proven caller and the bytes the signature
    covers. [body] is what there is to read, [None] when reading it fails. The
    clock is read three times: for the skew, by the node list, and by the replay
    guard. *)
Definition verified (req : Request.t) (body : option bytes) (k : string → bytes → handler) : handler :=
  match body with
  | None => Done (FedError 400 "unreadable body")
  | Some body =>
  let body := read_body body in
  do! now := time_now in
  do! looked := time_now in
  Act (fun w env =>
         match Verify (fun domain => NodeStore.KeyFor nodes domain looked) req body now (FedHandler.Origin f)
                 (if FedHandler.Replay f then Some (World.seen w, Env.backend env) else None) (Env.clock env) with
         | None => (w, None)
         | Some (guard, r) =>
             (match guard with Some g => w <| World.seen := g.1 |> | None => w end, Some r)
         end)
      (fun r => match r with
                | None => Done FedPanicked
                | Some (Err _) => Done (FedError 401 "unauthorized")
                | Some (Ok v) => k (Verified.Origin v) body
                end)
  end.

(** A body that does not decode, or lacks what it must name. *)
Definition decoded_as {X} (d : option X) (names_it : X → bool) (msg : string) (k : X → handler) : handler :=
  match d with
  | Some x => if names_it x then k x else Done (FedError 400 msg)
  | None => Done (FedError 400 msg)
  end.
Definition named (s : string) : bool := s != "".

(** The answer of a service. *)
Definition served {Er X} (status : Z) (msg : string) (b : X → fed_body) (r : result Er X) : handler :=
  Done (match r with Err _ => FedError status msg | Ok x => FedReply (b x) end).
Definition done (x : unit) : fed_body := FDone.

(** ** Users: [userResolver] of [main.go] *)

Definition UserExists (localID : string) (k : bool → handler) : handler :=
  do! r := store_read (fun m => UserByID m localID) in k (match r with Ok _ => true | Err _ => false end).
Definition ResolveUsername (usernameLower : string) (k : option RemoteUser.t → handler) : handler :=
  do! r := store_read (fun m => UserByUsername m usernameLower) in
  k (match r with
     | Ok u => Some (RemoteUser.mk (User.ID u) (User.DisplayName u) (User.Username u))
     | Err _ => None
     end).

Definition directory : handler :=
  Done (FedReply (FDirectory (FedHandler.Origin f)
    ([("liveness", "/federation/v1/liveness"); ("userExists", "/federation/v1/user-exists");
      ("resolveUser", "/federation/v1/resolve-user")]
     ++ (if FedHandler.Channels f is Some _
         then [("channelSubscribe", "/federation/v1/channel-subscribe");
               ("channelDelivery", "/federation/v1/channel-delivery")] else [])
     ++ (if FedHandler.KeyPackages f then [("claimKeyPackages", "/federation/v1/claim-key-packages")] else [])
     ++ (if FedHandler.Conversations f is Some _
         then [("conversationRelay", "/federation/v1/conversation-relay");
               ("conversationSubmitMessage", "/federation/v1/conversation-submit-message");
               ("conversationSubmitCommit", "/federation/v1/conversation-submit-commit")] else [])))).

Definition userExists (body : bytes) : handler :=
  do! id := decoded_as (body_field "userId" body) named "userId required" in
  do! there := UserExists id in
  Done (FedReply (FExists there)).

Definition resolveUser (body : bytes) : handler :=
  do! username := decoded_as (body_field "username" body) named "username required" in
  do! u := ResolveUsername (ToLower (TrimSpace username)) in
  Done (match u with None => FedError 404 "no such user" | Some u => FedReply (FUser u) end).

(** ** Channels *)

Definition channelSubscribe (caller : string) (body : bytes) : handler :=
  do! id := decoded_as (body_field "channelPublicId" body) named "channelPublicId required" in
  RecordRemoteSubscriber id caller (served 404 "channel not available" FName).

Definition channelDelivery (d : Dispatcher.t) (caller : string) (body : bytes) : handler :=
  do! msg := decoded_as (body_message body) (fun m => named (RemoteMessage.ChannelPublicID m)) "malformed message" in
  DeliverRemoteMessage d (FedHandler.ChannelBlobs f) caller msg (served 404 "no such channel" done).

(** ** Key packages: [keyPackageAdapter] of [main.go] *)

Definition DevicesWithKeyPackagesOf (userID : string) (k : list string → handler) : handler :=
  do! r := store_read (fun m => Ok (DevicesWithKeyPackages m [userID])) in
  k (match r with Err _ => [] | Ok byUser => default [] (byUser !! userID) end).

Fixpoint claim_each (userID : string) (devices : list string) (out : list ClaimedKeyPackage.t)
  (k : list ClaimedKeyPackage.t → handler) : handler :=
  match devices with
  | [] => k out
  | deviceID :: devices =>
      do! r := store_call (fun m _ => ClaimKeyPackage m userID deviceID) in
      claim_each userID devices
        (match r with
         | Err _ => out
         | Ok kp => if slen (MLSKeyPackage.KeyPackage kp) =? 0 then out
                    else out ++ [ClaimedKeyPackage.mk deviceID (MLSKeyPackage.KeyPackage kp)]
         end) k
  end.

Definition claimKeyPackages (body : bytes) : handler :=
  do! userID := decoded_as (body_field "userId" body) named "userId required" in
  do! devices := DevicesWithKeyPackagesOf userID in
  match devices with
  | [] => Done (FedError 404 "no key packages for that user")
  | _ =>
      do! out := claim_each userID devices [] in
      Done (match out with [] => FedError 404 "no key packages available" | _ => FedReply (FPackages out) end)
  end.

(** ** Conversations *)

Section Conversations.
Context (c : ConvFederation.t) (caller : string) (body : bytes).

Definition convDelete : handler :=
  do! id := decoded_as (body_field "conversationId" body) named "conversationId required" in
  DeleteMirror caller id (served 500 "could not delete mirror" done).

Definition convProvision : handler :=
  do! spec := decoded_as (body_spec body)
    (fun s => named (MirrorSpec.ConversationID s) && named (MirrorSpec.LocalUserID s))
    "conversationId and localUserId required" in
  ProvisionMirror c caller spec (served 500 "could not provision mirror" done).

Definition convRelay : handler :=
  do! req := decoded_as (body_relay body) (fun r => named r.1) "malformed relay" in
  DeliverRelayed c caller req.1 req.2 (served 404 "no such mirror" (fun _ => FDelivered (length req.2))).

Definition convSubmitMessage : handler :=
  do! s := decoded_as (body_submitted body) (fun s => named (SubmittedMessage.ConversationID s)) "malformed submission" in
  SubmitMessage c caller s (served 403 "could not accept message" FMessage).

Definition convSubmitCommit : handler :=
  do! s := decoded_as (body_commit body) (fun s => named (SubmittedCommit.ConversationID s)) "malformed submission" in
  SubmitCommit c caller s (served 403 "could not accept commit" FCommit).

Definition receipt_named (s : ReceiptUpdate.t) : bool :=
  named (ReceiptUpdate.ConversationID s) && named (ReceiptUpdate.UserID s).
Definition convSubmitReceipt : handler :=
  do! s := decoded_as (body_receipt body) receipt_named "malformed receipt" in
  SubmitReceipt c caller s (served 403 "could not accept receipt" done).
Definition convRelayReceipt : handler :=
  do! s := decoded_as (body_receipt body) receipt_named "malformed receipt" in
  DeliverReceipt c caller s (served 404 "no such mirror" done).

Definition convCallSignal : handler :=
  do! s := decoded_as (body_signal body)
    (fun s => named (CallSignalRelay.ConversationID s) && named (CallSignalRelay.CallID s)
              && named (CallSignalRelay.FromUserID s)) "malformed call signal" in
  DeliverCallSignal c (RingForCall h) caller s (served 403 "could not accept call signal" done).
Definition convCallNudge : handler :=
  do! s := decoded_as (body_nudge body)
    (fun s => named (CallNudge.ConversationID s) && named (CallNudge.CallID s)) "malformed call nudge" in
  DeliverCallNudge c caller s (served 404 "no such conversation" done).

Definition convTurn : handler :=
  do! id := decoded_as (body_field "conversationId" body) named "conversationId required" in
  TurnCredentials c caller id (served 403 "no turn for this conversation" FGrant).
End Conversations.

(** ** Routing *)

(** What a proven caller is answered. *)
Definition fed_handler (r : fed_route) (caller : string) (body : bytes) : handler :=
  match r, FedHandler.Channels f, FedHandler.Conversations f with
  | Liveness, _, _ => Done (FedReply (FLiveness (FedHandler.Origin f) caller))
  | UserExistsRoute, _, _ => userExists body
  | ResolveUserRoute, _, _ => resolveUser body
  | ChannelSubscribe, Some _, _ => channelSubscribe caller body
  | ChannelDelivery, Some d, _ => channelDelivery d caller body
  | ClaimKeyPackagesRoute, _, _ => if FedHandler.KeyPackages f then claimKeyPackages body else Done NotMounted
  | ConvProvision, _, Some c => convProvision c caller body
  | ConvRelay, _, Some c => convRelay c caller body
  | ConvSubmitMessage, _, Some c => convSubmitMessage c caller body
  | ConvSubmitCommit, _, Some c => convSubmitCommit c caller body
  | ConvSubmitReceipt, _, Some c => convSubmitReceipt c caller body
  | ConvRelayReceipt, _, Some c => convRelayReceipt c caller body
  | ConvCallSignal, _, Some c => convCallSignal c caller body
  | ConvCallNudge, _, Some c => convCallNudge c caller body
  | ConvTurn, _, Some c => convTurn c caller body
  | ConvDelete, _, Some c => convDelete caller body
  | _, _, _ => Done NotMounted
  end.

(** Whether [Register] mounts the route. *)
Definition mounted (r : fed_route) : bool :=
  match r with
  | Directory | Liveness | UserExistsRoute | ResolveUserRoute => true
  | ChannelSubscribe | ChannelDelivery => bool_decide (is_Some (FedHandler.Channels f))
  | ClaimKeyPackagesRoute => FedHandler.KeyPackages f
  | _ => bool_decide (is_Some (FedHandler.Conversations f))
  end.

Definition fed_serve (r : fed_route) (req : Request.t) (body : option bytes) : handler :=
  match r with
  | Directory => directory
  | _ => if negb (mounted r) then Done NotMounted else verified req body (fed_handler r)
  end.
End FedServe.
