(* ===== verification/ChannelFrame.v ===== *)
(** * The channel API around the store

    What the channel handlers do besides the calls that change the store, for
    any property of the store: the counterpart of [ChatFrame]. *)

From S2P Require Import Prelude.
From S2P Require Import GoStrings.
From S2P Require Import Domain.
From S2P Require Import Threads.
From S2P Require Import Crypto.
From S2P Require Import Password.
From S2P Require Import Blob.
From S2P Require Import StoreState.
From S2P Require Import StoreUsers.
From S2P Require Import StoreChannels.
From S2P Require Import StoreDevices.
From S2P Require Import StoreMessages.
From S2P Require Import ChannelViews.
From S2P Require Import ChatWorld.
From S2P Require Import ChatFrame.
From S2P Require Import ChatQuiet.
From S2P Require Import ChannelAccess.
From S2P Require Import ChannelMembers.
From S2P Require Import Uploads.
From S2P Require Import ChannelContent.
From S2P Require Import ChannelProfile.
From S2P Require Import ChannelAdmin.

(** ** Reading a body

    It puts blobs and does nothing else, whatever is to be shown of it. *)

Section Body.
Context {B : Type} {BS : BlobStore B} {RO : RangeOrder} {U : Unicode} {IL : ImageLib}.
Context (HasBlob : bool).
Abbreviation handler := (prog (World.t B) Env.t response).
Context (P : handler → Prop) (P_done : ∀ r, P (Done r))
  (P_blob : ∀ X op (k : result (failure blob_err) X → handler), (∀ r, P (k r)) → P (blob_call op k)).

Lemma through_processUpload fh (k : MessageImage.t → handler) : (∀ img, P (k img)) → P (processUpload HasBlob fh k).
Proof.
  intros Hk. unfold processUpload. repeat (case_match; [by apply P_done|]). case_match; [|by apply P_done].
  case_match; [by apply P_done|]. case_match; [|by apply P_done]. case_match. case_match. case_match; [by apply P_done|].
  apply P_blob. intros [id|e]; [apply Hk | apply P_done].
Qed.
Lemma through_process_uploads files images (k : list MessageImage.t → handler) :
  (∀ imgs, P (k imgs)) → P (process_uploads HasBlob files images k).
Proof.
  intros Hk. revert images. induction files as [|fh files IH]; intros images; cbn [process_uploads]; [apply Hk|].
  by apply through_processUpload.
Qed.
Lemma through_form_error {X} msg (d : decoded X) (k : X → handler) : (∀ x, P (k x)) → P (form_error msg d k).
Proof. intros Hk. destruct d; [apply Hk | apply P_done..]. Qed.
Lemma through_decodeNotify req (k : notifyInput.t → handler) : (∀ i, P (k i)) → P (decodeNotify HasBlob req k).
Proof.
  intros Hk. destruct req as [d|d]; cbn [decodeNotify].
  - destruct d; [apply Hk | apply P_done..].
  - apply through_form_error. intros form. cbv zeta.
    assert (∀ data, P (if (maxImages <? length (notifyForm.Images form))%nat then Done (Error 400 "too many images (max 10)")
      else do! images := process_uploads HasBlob (notifyForm.Images form) [] in
           k (notifyInput.mk (notifyForm.Title form) (notifyForm.Body form) data images
                (negb (isFalsey (notifyForm.CommentsAllowed form)))))) as Hgo.
    { intros data. case_match; [apply P_done | apply through_process_uploads; auto]. }
    destruct (notifyForm.Data form) as [[data|]|]; [apply Hgo | apply P_done | apply Hgo].
Qed.
Lemma through_upload_avatar multipart (k : MessageImage.t → handler) :
  (∀ img, P (k img)) → P (upload_avatar HasBlob multipart k).
Proof.
  intros Hk. unfold upload_avatar. case_match; [|apply P_done]. apply through_form_error. intros files.
  case_match; [apply P_done | by apply through_processUpload].
Qed.
End Body.

(** ** Helpers that only read *)

Section Frame.
Context {B : Type} {BS : BlobStore B} {RO : RangeOrder} {U : Unicode} {RC : RuneClasses} {IL : ImageLib}.
Context (ok : Env.t → Prop) (I : Memory.t B → Prop) (HB : blind_to_blobs I).
Abbreviation handler := (prog (World.t B) Env.t response).
Implicit Types (c : Caller.t) (id uid : string) (k : handler).

Lemma safe_relationFor uid ch (k : option channelRelation.t → handler) :
  (∀ r, safe ok I (k r)) → safe ok I (relationFor uid ch k).
Proof. intros Hk. unfold relationFor. by repeat safe_step. Qed.
Lemma safe_canReadChannel uid id (k : bool → handler) : (∀ b, safe ok I (k b)) → safe ok I (canReadChannel uid id k).
Proof.
  intros Hk. unfold canReadChannel, channelByID. safe_step. case_match; [|apply Hk].
  apply safe_relationFor. intros r'. by case_match.
Qed.
Lemma safe_or_error {X} msg (r : result (failure store_err) X) (k : X → handler) :
  (∀ x, safe ok I (k x)) → safe ok I (or_error msg r k).
Proof. intros Hk. destruct r; [apply Hk | apply safe_done]. Qed.
Lemma safe_decodeNotify HasBlob req (k : notifyInput.t → handler) :
  (∀ i, safe ok I (k i)) → safe ok I (decodeNotify HasBlob req k).
Proof. apply through_decodeNotify; [done | intros X op f; by apply safe_blob]. Qed.
Lemma safe_upload_avatar HasBlob multipart (k : MessageImage.t → handler) :
  (∀ img, safe ok I (k img)) → safe ok I (upload_avatar HasBlob multipart k).
Proof. apply through_upload_avatar; [done | intros X op f; by apply safe_blob]. Qed.
Lemma safe_joined_memberships uid channels out (k : list (Channel.t * ChannelMember.t) → handler) :
  (∀ l, safe ok I (k l)) → safe ok I (joined_memberships uid channels out k).
Proof.
  intros Hk. revert out. induction channels as [|ch channels IH]; intros out; cbn [joined_memberships]; [apply Hk|].
  case_match; [apply IH|]. safe_step. apply IH.
Qed.
End Frame.

(** One step of a handler, up to the guards and the calls that change the
    store. *)
Ltac channel_step :=
  lazymatch goal with
  | |- safe _ _ (DecodeLimited _ _) => apply safe_DecodeLimited; intros ?
  | |- safe _ _ (as_owner _ _ _) => unfold as_owner
  | |- safe _ _ (as_moderator _ _ _) => unfold as_moderator
  | |- safe _ _ (as_reader _ _ _ _) => unfold as_reader
  | |- safe _ _ (canReadChannel _ _ _) => apply safe_canReadChannel; intros ?
  | |- safe _ _ (relationFor _ _ _) => apply safe_relationFor; intros ?
  | |- safe _ _ (or_error _ _ _) => apply safe_or_error; intros ?
  | |- safe _ _ (decodeNotify _ _ _) => apply safe_decodeNotify; [assumption | intros ?]
  | |- safe _ _ (upload_avatar _ _ _) => apply safe_upload_avatar; [assumption | intros ?]
  | |- safe _ _ (joined_memberships _ _ _ _) => apply safe_joined_memberships; intros ?
  | |- safe _ _ (channelByID _ _) => unfold channelByID
  | |- safe _ _ (resolveChannelRef _ _) => unfold resolveChannelRef
  | |- safe _ _ (ownsDevice _ _ _) => unfold ownsDevice
  | |- safe _ _ (withLastMessages _ _) => unfold withLastMessages
  | |- safe _ _ (withCommentCounts _ _) => unfold withCommentCounts
  | |- safe _ _ (withProfiles _ _) => unfold withProfiles
  | |- safe _ _ (hydrateComments _ _) => unfold hydrateComments
  | |- safe _ _ (list_page _ _ _ _ _ _) => unfold list_page
  | |- safe _ _ (silence _ _ _ _) => unfold silence
  | |- safe _ _ (check_username _ _ _) => unfold check_username
  | |- safe _ _ (keep_a_name _ _ _) => unfold keep_a_name
  | |- _ => safe_step
  end.
