(* ===== verification/ChannelServe.v ===== *)
(** * The app API

    [Routes] of [api/internal/channel/app.go] and [Register] of
    [admin_handler.go] with the token middleware in front, as one request type
    and the handler each request reaches; and the live stream. *)

From S2P Require Import Prelude.
From S2P Require Import GoStrings.
From S2P Require Import Domain.
From S2P Require Import Threads.
From S2P Require Import Crypto.
From S2P Require Import Password.
From S2P Require Import Blob.
From S2P Require Import Auth.
From S2P Require Import Tokens.
From S2P Require Import AuthHandler.
From S2P Require Import Ident.
From S2P Require Import StoreState.
From S2P Require Import StoreUsers.
From S2P Require Import StoreConversations.
From S2P Require Import Live.
From S2P Require Import ChannelViews.
From S2P Require Import ChatWorld.
From S2P Require Import ConvFed.
From S2P Require Import ChatServe.
From S2P Require Import ChannelAccess.
From S2P Require Import ChannelMembers.
From S2P Require Import Uploads.
From S2P Require Import ChannelContent.
From S2P Require Import ChannelProfile.
From S2P Require Import ChannelAdmin.

(** ** Configuration *)

(** [Admin] is [AdminHandler.Revoker] being set and [SessionTTL]. *)
Module AppHandler.
Record t := mk {
  Tokens : TokenManager.t; HasPublisher : bool; HasBlob : bool; Admin : option (bool * Z); Chat : option Handler.t;
  VAPIDPublicKey : string; Remote : option RemoteChannels.t; HostDomain : string
}.
End AppHandler.

(** ** Requests *)

(** What is asked of a channel. *)
Inductive in_channel : Type :=
| GetChannel
| UpdateChannelRequest (req : decoded updateChannelRequest.t)
| DeleteChannelRequest
| DeleteMessageRequest (messageId : string)
| UploadChannelAvatar (multipart : option (decoded (list FileHeader.t)))
| DeleteChannelAvatar
| CreateKey (label : string)
| ListKeys
| RevokeKey (keyId : string)
| NotifyChannel (req : notify_request)
| SubscribeRequest (deviceID : decoded string)
| UnsubscribeRequest (deviceID : string)
| SubscriptionStatus (deviceID : string)
| Membership
| LeaveChannel
| ListApprovals
| ApproveMember (userId : string)
| DenyMember (userId : string)
| ListSubscribers (offset limit : string)
| UpdateSubscriber (userId : string) (req : decoded updateMemberRequest.t)
| RemoveSubscriber (userId : string)
| ListFeed (limit cursor q around : string)
| GetFeedMessage (messageId : string)
| ListComments (messageId limit cursor : string)
| PostComment (messageId : string) (body : decoded string)
| DeleteCommentRequest (messageId commentId : string).

Inductive channel_request : Type :=
| InChannel (id : string) (r : in_channel)
| Meta
| Me
| UpdateProfile (req : decoded UserProfileUpdate.t)
| UploadAvatar (multipart : option (decoded (list FileHeader.t)))
| DeleteAvatar
| CreateChannelRequest (req : decoded createChannelRequest.t)
| ListChannels
| JoinChannel (req : decoded joinChannelRequest.t)
| JoinRemoteChannel (req : decoded joinChannelRequest.t)
| ListJoinedChannels
| CreateDeviceRequest (req : decoded createDeviceRequest.t).

Inductive admin_request : Type :=
| Stats
| AdminUsers (q page limit : string)
| AdminCreateUser (req : decoded createUserRequest.t)
| AdminUpdateUser (id : string) (req : decoded updateUserRequest.t)
| AdminResetPassword (id : string) (newPassword : decoded string)
| AdminDeleteUser (id : string)
| AdminInvites (q page limit : string)
| AdminCreateInvite (req : decoded createInviteRequest.t)
| AdminRevokeInvite (id : string)
| AdminChannels (q page limit : string)
| AdminUpdateChannel (id : string) (status : decoded string)
| AdminDeleteChannel (id : string)
| AdminChannelMessages (id limit cursor q : string)
| AdminKeys (id : string)
| AdminRevokeKey (id keyId : string)
| AdminComments (q page limit : string)
| AdminDeleteComment (id : string).

Inductive protected_request : Type :=
| ChannelRequest (r : channel_request)
| AdminRequest (r : admin_request)
| ChatRequest (r : chat_request).

Section App.
Context {B : Type} {BS : BlobStore B} {RO : RangeOrder} {U : Unicode} {RC : RuneClasses} {NU : NetUrl} {NM : NetMail}
  {A : Argon2} {E : Ed25519} {J : Jwt} {HM : Hmac} {IL : ImageLib} {TT : TimeText}.
Context (h : AppHandler.t).
Abbreviation world := (World.t B).
Abbreviation handler := (prog world Env.t response).
Implicit Types (c : Caller.t) (id : string).

Definition serve_in_channel c id (r : in_channel) : handler :=
  match r with
  | GetChannel => getChannel c id
  | UpdateChannelRequest req => updateChannel c id req
  | DeleteChannelRequest => deleteChannel c id
  | DeleteMessageRequest messageId => deleteMessage c id messageId
  | UploadChannelAvatar multipart => uploadChannelAvatar (AppHandler.HasBlob h) c id multipart
  | DeleteChannelAvatar => deleteChannelAvatar c id
  | CreateKey label => createKey c id label
  | ListKeys => listKeys c id
  | RevokeKey keyId => revokeKey c id keyId
  | NotifyChannel req => notifyChannel (AppHandler.HasBlob h) (AppHandler.HasPublisher h) c id req
  | SubscribeRequest deviceID => subscribe c id deviceID
  | UnsubscribeRequest deviceID => unsubscribe c id deviceID
  | SubscriptionStatus deviceID => subscriptionStatus c id deviceID
  | Membership => membership c id
  | LeaveChannel => leaveChannel c id
  | ListApprovals => listApprovals c id
  | ApproveMember userId => approveMember c id userId
  | DenyMember userId => denyMember c id userId
  | ListSubscribers offset limit => listMembers c id offset limit
  | UpdateSubscriber userId req => updateMember c id userId req
  | RemoveSubscriber userId => removeMember c id userId
  | ListFeed limit cursor q around => listMessages c id limit cursor q around
  | GetFeedMessage messageId => getMessage c id messageId
  | ListComments messageId limit cursor => listComments c id messageId limit cursor
  | PostComment messageId body => postComment c id messageId body
  | DeleteCommentRequest messageId commentId => deleteComment c id messageId commentId
  end.

Definition serve_channel c (r : channel_request) : handler :=
  match r with
  | InChannel id r => serve_in_channel c id r
  | Meta => meta (AppHandler.VAPIDPublicKey h) (AppHandler.HostDomain h)
  | Me => me c
  | UpdateProfile req => updateProfile c req
  | UploadAvatar multipart => uploadAvatar (AppHandler.HasBlob h) c multipart
  | DeleteAvatar => deleteAvatar c
  | CreateChannelRequest req => createChannel c req
  | ListChannels => listChannels c
  | JoinChannel req => joinChannel c req
  | JoinRemoteChannel req => joinRemoteChannel (AppHandler.Remote h) (AppHandler.HostDomain h) c req
  | ListJoinedChannels => listJoinedChannels c
  | CreateDeviceRequest req => createDevice c req
  end.

Definition serve_admin (HasRevoker : bool) (SessionTTL : Z) c (r : admin_request) : handler :=
  match r with
  | Stats => stats c
  | AdminUsers q page limit => listUsers c q page limit
  | AdminCreateUser req => createUser c req
  | AdminUpdateUser id req => updateUser HasRevoker SessionTTL c id req
  | AdminResetPassword id newPassword => resetUserPassword HasRevoker SessionTTL c id newPassword
  | AdminDeleteUser id => deleteUser HasRevoker SessionTTL c id
  | AdminInvites q page limit => listInvites c q page limit
  | AdminCreateInvite req => createInvite c req
  | AdminRevokeInvite id => revokeInvite c id
  | AdminChannels q page limit => adminListChannels c q page limit
  | AdminUpdateChannel id status => adminUpdateChannel c id status
  | AdminDeleteChannel id => adminDeleteChannel c id
  | AdminChannelMessages id limit cursor q => channelMessages c id limit cursor q
  | AdminKeys id => adminListKeys c id
  | AdminRevokeKey id keyId => adminRevokeKey c id keyId
  | AdminComments q page limit => adminListComments c q page limit
  | AdminDeleteComment id => adminDeleteComment c id
  end.

(** The two parts of the API that need not be there. *)
Definition not_mounted : response := Error 404 "404 page not found".
Definition serve_protected c (r : protected_request) : handler :=
  match r with
  | ChannelRequest r => serve_channel c r
  | AdminRequest r =>
      match AppHandler.Admin h with
      | Some (HasRevoker, SessionTTL) => serve_admin HasRevoker SessionTTL c r
      | None => Done not_mounted
      end
  | ChatRequest r => match AppHandler.Chat h with Some ch => serve ch c r | None => Done not_mounted end
  end.
End App.

(** ** The middleware

    [main.go] gives the token manager the revoker and the account store. *)

Section Authorized.
Context {B : Type} {RO : RangeOrder} {U : Unicode} {E : Ed25519} {J : Jwt} {R : Type}.
Context (m : TokenManager.t).
Abbreviation world := (World.t B).
Abbreviation handler := (prog world Env.t R).
Implicit Types (claims : Claims.t).

(** [Revoked]: the revoker drops the entries that have gone stale. *)
Definition denied claims (k : bool → handler) : handler :=
  Act (fun w env =>
         let '(r, denied) := TokenManager.Revoked (Some (Revoker.mk tt (World.revoked w) (World.userCutoff w))) claims
                               (Env.clock env) in
         (match r with
          | Some r => w <| World.revoked := Revoker.revoked r |> <| World.userCutoff := Revoker.userCutoff r |>
          | None => w
          end, denied)) k.

(** [AuthorizeClaims]: the role the account has now, [None] when the token is
    not to be honoured. *)
Definition authorize claims (k : option string → handler) : handler :=
  do! denied := denied claims in
  if denied then k None
  else
    do! r := store_read (fun m => UserByID m (Claims.Subject claims)) in
    k (match r with
       | Err _ => None
       | Ok u => if User.Status u == UserBlocked then None
                 else Some (if User.Role u == "" then RoleUser else User.Role u)
       end).

(** The claims of a token, read at the time that is. *)
Definition parse_claims (token : string) (k : option Claims.t → handler) : handler :=
  do! now := time_now in
  k (match TokenManager.ParseClaims m token AccessToken now with Ok claims => Some claims | Err _ => None end).

(** [Middleware]; [UserIDFromContext] takes an empty id for none. *)
Definition caller_of claims (role : string) : Caller.t :=
  Caller.mk (if Claims.Subject claims == "" then None else Some (Claims.Subject claims)) role (Claims.SID claims).

Definition with_token (authorization : string) (refused : R) (k : Caller.t → handler) : handler :=
  if negb (HasPrefix authorization "Bearer ") then Done refused
  else
    let token := TrimSpace (string_drop 7 authorization) in
    if token == "" then Done refused
    else
      do! parsed := parse_claims token in
      match parsed with
      | None => Done refused
      | Some claims =>
          do! role := authorize claims in
          match role with None => Done refused | Some role => k (caller_of claims role) end
      end.

(** ** The live stream *)

Definition streamHeartbeatMin : Z := 20 * Second.
Definition streamHeartbeatMax : Z := 40 * Second.
Definition streamExpiryJitter : Z := 180 * Second.

(** [nextHeartbeat] and [jitteredExpiry], of what [rand.N] draws below the
    bound it is given. *)
Definition nextHeartbeat (draw : Z → Z) : Z := streamHeartbeatMin + draw (streamHeartbeatMax - streamHeartbeatMin).
Definition jitteredExpiry (remaining : Z) (draw : Z → Z) : Z :=
  let jitter := Z.min streamExpiryJitter (Z.quot remaining 5) in
  if jitter <=? 0 then remaining else remaining - draw jitter.

(** What may wake an open stream: the heartbeat, an event from the bus, or the
    end of the connection or of the token's life. *)
Inductive stream_wake : Type := Beat | Arrives (e : Event.t) | Over.

(** What goes down the wire. *)
Inductive stream_line : Type := Comment_ | Data (e : Event.t).

(** Whether the event is for this user. *)
Definition for_user (uid : string) (e : Event.t) (k : bool → handler) : handler :=
  if Event.ConversationID e != "" then
    match Event.Recipients e with
    | [] => do! r := store_read (fun m => ConversationMembership m (Event.ConversationID e) uid) in
            k (match r with Ok _ => true | Err _ => false end)
    | recipients => k (bool_decide (uid ∈ recipients))
    end
  else canReadChannel uid (Event.ChannelID e) k.

(** The loop of [stream]: what it has written when it returns. *)
Fixpoint stream_loop claims (wakes : list stream_wake) (out : list stream_line)
  (k : list stream_line → handler) : handler :=
  match wakes with
  | [] | Over :: _ => k out
  | Beat :: wakes =>
      do! role := authorize claims in
      match role with None => k out | Some _ => stream_loop claims wakes (out ++ [Comment_]) k end
  | Arrives e :: wakes =>
      do! role := authorize claims in
      match role with
      | None => k out
      | Some _ =>
          do! mine := for_user (Claims.Subject claims) e in
          stream_loop claims wakes (if mine then out ++ [Data (e <| Event.Recipients := [] |>)] else out) k
      end
  end.

(** The result is [None] for the 401, and what was written otherwise. *)
Definition stream (token : string) (wakes : list stream_wake) (k : option (list stream_line) → handler) : handler :=
  do! parsed := parse_claims token in
  match parsed with
  | None => k None
  | Some claims =>
      do! role := authorize claims in
      match role with
      | None => k None
      | Some _ => stream_loop claims wakes [Comment_] (fun out => k (Some out))
      end
  end.
End Authorized.

(** ** Everything *)

Inductive app_request : Type :=
| ServeImage (id : string)
| Protected (authorization : string) (r : protected_request).

Section Serve.
Context {B : Type} {BS : BlobStore B} {RO : RangeOrder} {U : Unicode} {RC : RuneClasses} {NU : NetUrl} {NM : NetMail}
  {A : Argon2} {E : Ed25519} {J : Jwt} {HM : Hmac} {IL : ImageLib} {TT : TimeText}.
Context (h : AppHandler.t).

Definition unauthorized : response := Error 401 "unauthorized".

Definition app_serve (r : app_request) : prog (World.t B) Env.t response :=
  match r with
  | ServeImage id => serveImage (AppHandler.HasBlob h) id
  | Protected authorization r =>
      with_token (AppHandler.Tokens h) authorization unauthorized (fun c => serve_protected h c r)
  end.
End Serve.
