(* ===== verification/ChannelSample.v ===== *)
(** * A small host with a channel

    A channel with its owner, a member and a key, and instances of the
    parameters, on which the witnesses of the app API evaluate. *)

From S2P Require Import Prelude.
From S2P Require Import GoStrings.
From S2P Require Import Domain.
From S2P Require Import Threads.
From S2P Require Import Crypto.
From S2P Require Import Password.
From S2P Require Import Blob.
From S2P Require Import Auth.
From S2P Require Import Tokens.
From S2P Require Import AuthHandler.
From S2P Require Import Registration.
From S2P Require Import Ident.
From S2P Require Import StoreState.
From S2P Require Import Peers.
From S2P Require Import ChatWorld.
From S2P Require Import ChatSample.
From S2P Require Import Uploads.
From S2P Require Import ChannelContent.
From S2P Require Import ChannelServe.

(** "news" is alice's; bob is its member; its key opens with "phm_k". *)
Definition square_member (id uid role status : string) : ChannelMember.t :=
  ChannelMember.zero <| ChannelMember.ID := id |> <| ChannelMember.ChannelID := "news" |>
    <| ChannelMember.UserID := uid |> <| ChannelMember.Role := role |> <| ChannelMember.Status := status |>.
Definition square_channel : Channel.t :=
  Channel.zero <| Channel.ID := "news" |> <| Channel.PublicID := "ch_news" |> <| Channel.OwnerID := "alice" |>
    <| Channel.Name := "News" |> <| Channel.SubscriptionMode := ModeOpen |> <| Channel.Status := ChannelActive |>.
Definition square_key : APIKey.t :=
  APIKey.zero <| APIKey.ID := "k1" |> <| APIKey.ChannelID := "news" |> <| APIKey.HashedKey := HashAPIKey "phm_k" |>.
Definition square_message : Message.t :=
  Message.zero <| Message.ID := "p1" |> <| Message.ChannelID := "news" |> <| Message.Title := "hello" |>
    <| Message.CommentsAllowed := true |> <| Message.CreatedAt := 5 |>.
Definition square_device (id uid : string) : Device.t :=
  Device.zero <| Device.ID := id |> <| Device.UserID := uid |>.
Definition square_subscription : Subscription.t :=
  Subscription.zero <| Subscription.ID := "s1" |> <| Subscription.ChannelID := "news" |>
    <| Subscription.DeviceID := "d1" |> <| Subscription.Status := SubActive |>.

Definition square : Memory.t BlobMemory.t :=
  town
    <| Memory.channels := {["news" := square_channel]} |> <| Memory.apiKeys := {["k1" := square_key]} |>
    <| Memory.messages := {["p1" := square_message]} |>
    <| Memory.members := {["b1" := square_member "b1" "bob" RoleUser MemberActive]} |>
    <| Memory.devices := {["d1" := square_device "d1" "bob"]} |>
    <| Memory.subscriptions := {["s1" := square_subscription]} |>.
Definition square_world : World.t BlobMemory.t := World.init square.

(** Images and texts of times that do for these requests. *)
Definition square_images : ImageLib := {|
  Image := unit; Image_Decode _ := None; Image_Bounds _ := (0, 0); Image_Fit _ _ _ := tt; Image_Encode _ _ := None
|}.
Definition square_times : TimeText := {| time_String _ := "now" |}.

Definition square_handler : AppHandler.t :=
  AppHandler.mk sample_manager true true (Some (true, Hour)) (Some town_handler) "" None "".
Definition square_serve (c : Caller.t) (r : protected_request) : prog (World.t BlobMemory.t) Env.t response :=
  @serve_protected _ _ order_fwd ascii_only ascii_classes simple_url mail_any toy_argon2 toy_ed25519 town_hmac
    square_images square_times square_handler c r.

Definition square_ids : list string := ["news"; "k1"; "p1"; "b1"; "d1"; "s1"].

Lemma square_turns_fresh k n i env : (i, env) ∈ town_turns k n → ∀ j, Env.fresh env j ∉ square_ids.
Proof.
  intros Hin j. apply list_elem_of_join in Hin as (l & Hl & Hin).
  apply list_elem_of_fmap in Hin as (p & -> & Hp). apply list_elem_of_fmap in Hl as (i' & [= -> ->] & _).
  apply elem_of_take in Hp as (x & Hp & _). apply list_elem_of_lookup_2 in Hp. cbn [Env.fresh town_env].
  repeat (apply elem_of_cons in Hp as [->|Hp]); [..|by apply elem_of_nil in Hp];
    unfold square_ids; rewrite !not_elem_of_cons; destruct j as [|[|j]]; (split_and!; [discriminate..|apply not_elem_of_nil]).
Qed.

(** *** Somebody with a token *)

(** "uid", who has a token, writes with bob in "d", and is neither in "g" nor in
    "news". *)
Definition porch : Memory.t BlobMemory.t :=
  square <| Memory.users := <["uid" := town_user "uid"]> (Memory.users square) |>
    <| Memory.convMembers := <["r5" := town_member "r5" "d" "uid" RoleUser]> (Memory.convMembers square) |>.
Definition porch_world : World.t BlobMemory.t := World.init porch.
Definition porch_env : Env.t :=
  Env.mk (1000 * Second) Works (fun _ => true) (town_id "a") (Ok "a") (fun _ _ => []) (fun _ _ => []) (fun _ => None) unreachable.

Lemma porch_tokens now claims :
  TokenManager.ParseClaims (E := toy_ed25519) (J := sample_jwt) sample_manager "access" AccessToken now = Ok claims →
  Claims.Subject claims = "uid".
Proof.
  unfold TokenManager.ParseClaims. generalize (TokenManager.keyfunc sample_manager now). intros f.
  cbn [jwt_ParseWithClaims sample_jwt toy_jwt]. unfold toy_parse. cbn [toy_find sample_tokens].
  rewrite bool_decide_true by done. set (c := TokenManager.claims_at _ _ _ _ _ _ _).
  destruct (_ && _); [|done]. assert (Claims.Subject c = "uid") as Hc by done. clearbody c.
  repeat (case_match; [done|]). by intros [= <-].
Qed.
Lemma porch_no_token token now claims : toy_find sample_tokens token = None →
  TokenManager.ParseClaims (E := toy_ed25519) (J := sample_jwt) sample_manager token AccessToken now ≠ Ok claims.
Proof.
  intros Ht. unfold TokenManager.ParseClaims. cbn [jwt_ParseWithClaims sample_jwt toy_jwt]. unfold toy_parse. by rewrite Ht.
Qed.
