(* ===== verification/ChatBystander.v ===== *)
(** * Conversations beside channels

    What is held of channels (their records, keys, feeds and members) is
    nothing the chat API writes. *)

From S2P Require Import Prelude.
From S2P Require Import GoStrings.
From S2P Require Import Domain.
From S2P Require Import Threads.
From S2P Require Import Crypto.
From S2P Require Import Blob.
From S2P Require Import MlsChain.
From S2P Require Import Nodelist.
From S2P Require Import Ident.
From S2P Require Import StoreState.
From S2P Require Import StoreUsers.
From S2P Require Import StoreDevices.
From S2P Require Import StoreConversations.
From S2P Require Import StoreMls.
From S2P Require Import StoreBackup.
From S2P Require Import Calls.
From S2P Require Import Live.
From S2P Require Import PushNotify.
From S2P Require Import Peers.
From S2P Require Import ChatWorld.
From S2P Require Import ChatPush.
From S2P Require Import ConvFed.
From S2P Require Import ChatConversations.
From S2P Require Import ChatMessages.
From S2P Require Import ChatMls.
From S2P Require Import ChatKeys.
From S2P Require Import ChatCalls.
From S2P Require Import ChatFrame.
From S2P Require Import ChatServe.
From S2P Require Import ChatQuiet.

(** The tables the channels are held in. *)
Definition channel_part {B} (m : Memory.t B) :=
  (Memory.channels m, Memory.apiKeys m, Memory.messages m, Memory.members m).

(** With the accounts: what no chat request touches. *)
Definition bystander_part {B} (m : Memory.t B) := (channel_part m, Memory.users m).

(** A property of them. *)
Definition bystander_only {B} (I : Memory.t B → Prop) : Prop := ∀ m m', I m → bystander_part m' = bystander_part m → I m'.

Section Aside.
Context {B : Type} {BS : BlobStore B} {RO : RangeOrder} {U : Unicode} {NU : NetUrl} {E : Ed25519} {HM : Hmac}.
Context (h : Handler.t) (ok : Env.t → Prop) (I : Memory.t B → Prop) (HI : bystander_only I).
Abbreviation handler := (prog (World.t B) Env.t response).
Abbreviation aside := (safe ok I).
Implicit Types (c : Caller.t) (m : Memory.t B) (k : handler) (id uid : string).

Lemma bystander_only_quiet : quiet_only I.
Proof.
  intros m m' [= _ _ _ _ _ Hc Hk Hf Hm Hu] H. apply (HI m); [done|]. unfold bystander_part, channel_part. congruence.
Qed.
Let HQ : quiet_only I := bystander_only_quiet.
Let HB : blind_to_blobs I := quiet_only_blobs I HQ.

Lemma aside_call {X} (op : Memory.t B → Env.t → memory_op B X) (k : _ → handler) :
  (∀ m env, bystander_part (op m env).1 = bystander_part m) → (∀ r, aside (k r)) → aside (store_call op k).
Proof. intros Hop. apply safe_store_call. intros m env _ Hm. by apply (HI m). Qed.

(** ** The operations of the store *)

Lemma append_part m nid msg : bystander_part (appendChatMessageLocked m nid msg).1 = bystander_part m.
Proof. done. Qed.
Lemma append_all_part l : ∀ m, bystander_part (append_all m l).1 = bystander_part m.
Proof.
  induction l as [|[nid msg] l IH]; intros m; cbn [append_all]; [done|].
  destruct (appendChatMessageLocked m nid msg) as [m' msg'] eqn:He. specialize (IH m').
  destruct (append_all m' l) as [m2 out]. cbn [fst] in *. rewrite IH. injection He as <- _. done.
Qed.
Lemma AppendChatMessage_part m nid msg : bystander_part (AppendChatMessage m nid msg).1 = bystander_part m.
Proof. done. Qed.
Lemma CommitMLSGroup_part m fresh cid gid base msgs : bystander_part (CommitMLSGroup m fresh cid gid base msgs).1 = bystander_part m.
Proof.
  unfold CommitMLSGroup. case_match; [|done]. case_match; [done|]. cbv zeta.
  match goal with |- context [append_all ?m' ?l] => pose proof (append_all_part l m') as Hp; destruct (append_all m' l) end.
  exact Hp.
Qed.
Lemma ResetMLSGroup_part m id : bystander_part (ResetMLSGroup m id).1 = bystander_part m.
Proof. unfold ResetMLSGroup. by repeat case_match. Qed.
Lemma SetMLSGroupInfo_part m id gid epoch info : bystander_part (SetMLSGroupInfo m id gid epoch info).1 = bystander_part m.
Proof. unfold SetMLSGroupInfo. by repeat case_match. Qed.
Lemma on_conv_member_part {A} m id uid (f : _ → _ → _ * A) : bystander_part (on_conv_member m id uid f).1 = bystander_part m.
Proof. unfold on_conv_member. case_match; [|done]. case_match. by case_match. Qed.
Lemma AddConversationMember_part m nid mem : bystander_part (AddConversationMember m nid mem).1 = bystander_part m.
Proof. unfold AddConversationMember. by repeat case_match. Qed.
Lemma DeleteAttachments_part m id : bystander_part (DeleteAttachments m id).1 = bystander_part m.
Proof. unfold DeleteAttachments. by repeat case_match. Qed.

Ltac aside_op :=
  first [reflexivity | apply on_conv_member_part | apply AddConversationMember_part | apply ResetMLSGroup_part
    | apply SetMLSGroupInfo_part | apply DeleteAttachments_part | apply AppendChatMessage_part].

(** ** The helpers that write *)

Lemma aside_append msg (k : _ → handler) : (∀ r, aside (k r)) → aside (append_message msg k).
Proof. intros Hk. apply aside_call; [intros; aside_op | done]. Qed.
Lemma aside_commit id gid base msgs (k : _ → handler) : (∀ r, aside (k r)) → aside (commit_group id gid base msgs k).
Proof.
  intros Hk w env _ Hw. split; [|apply Hk]. cbn beta zeta.
  assert (I (CommitMLSGroup (World.store w) (Env.fresh env) id gid base msgs).1) as Hc
    by (eapply HI; [exact Hw | apply CommitMLSGroup_part]).
  by destruct (Env.backend env).
Qed.

Ltac aside_step :=
  lazymatch goal with
  | |- safe _ _ (requireMember _ _ _) => apply safe_requireMember; intros ? ?
  | |- safe _ _ (requireUser _ _) => apply safe_requireUser; intros ?
  | |- safe _ _ (DecodeLimited _ _) => apply safe_DecodeLimited; intros ?
  | |- safe _ _ (append_message _ _) => apply aside_append; intros ?
  | |- safe _ _ (commit_group _ _ _ _ _) => apply aside_commit; intros ?
  | |- safe _ _ (membersView _ _) => apply safe_membersView; intros ?
  | |- safe _ _ (mayRemove _ _ _ _) => apply safe_mayRemove; intros ?
  | |- safe _ _ (relay_if_hub _ _ _ _) => apply safe_relay_if_hub; [intros ? ? ? ?|]
  | |- safe _ _ (for_each _ _ _) => apply safe_for_each; [intros ? ? ?|]
  | |- safe _ _ (store_call _ _) => apply aside_call; [intros ? ?; aside_op | intros ?]
  | |- _ => safe_helper
  end.

Lemma aside_addTarget fed raw (k : result target_err resolvedTarget.t → handler) :
  (∀ r, aside (k r)) → aside (addTarget h fed raw k).
Proof. intros Hk. unfold addTarget, ResolveRemoteUser. repeat first [apply Hk | aside_step]. Qed.
Lemma aside_resolve_other name (k : User.t → bool → handler) : (∀ u r, aside (k u r)) → aside (resolve_other h name k).
Proof. intros Hk. unfold resolve_other. repeat first [apply Hk | apply aside_addTarget; intros ? | aside_step]. Qed.
Lemma aside_existing_direct key k : aside k → aside (existing_direct key k).
Proof. intros Hk. unfold existing_direct. repeat first [apply Hk | aside_step]. Qed.
Lemma aside_recordMembershipChange id actor subj action k : aside k → aside (recordMembershipChange id actor subj action k).
Proof.
  intros Hk. unfold recordMembershipChange, membersFor, publish_message.
  repeat first [apply Hk | aside_step].
Qed.
Lemma aside_group_members ids seen members (k : list ConversationMember.t → handler) :
  (∀ members, aside (k members)) → aside (group_members ids seen members k).
Proof.
  intros Hk. revert seen members. induction ids as [|i ids IH]; intros seen members; cbn [group_members]; [apply Hk|].
  repeat first [apply IH | aside_step].
Qed.
Lemma aside_AddRemoteMember fed conv uid domain display username (k : result conv_err unit → handler) :
  (∀ r, aside (k r)) → aside (AddRemoteMember fed conv uid domain display username k).
Proof. intros Hk. unfold AddRemoteMember. repeat first [apply Hk | aside_step]. Qed.
Lemma aside_ForwardMessage fed hub s (k : option RelayedMessage.t → handler) :
  (∀ r, aside (k r)) → aside (ForwardMessage fed hub s k).
Proof. intros Hk. unfold ForwardMessage. repeat first [apply Hk | aside_step]. Qed.
Lemma aside_ForwardCommit fed hub s (k : result conv_err CommitResult.t → handler) :
  (∀ r, aside (k r)) → aside (ForwardCommit fed hub s k).
Proof. intros Hk. unfold ForwardCommit. repeat first [apply Hk | aside_step]. Qed.

(** ** The endpoints *)

Ltac aside_helper :=
  lazymatch goal with
  | |- safe _ _ (addTarget _ _ _ _) => apply aside_addTarget; intros ?
  | |- safe _ _ (resolve_other _ _ _) => apply aside_resolve_other; intros ? ?
  | |- safe _ _ (existing_direct _ _) => apply aside_existing_direct
  | |- safe _ _ (recordMembershipChange _ _ _ _ _) => apply aside_recordMembershipChange
  | |- safe _ _ (group_members _ _ _ _) => apply aside_group_members; intros ?
  | |- safe _ _ (AddRemoteMember _ _ _ _ _ _ _) => apply aside_AddRemoteMember; intros ?
  | |- safe _ _ (ForwardMessage _ _ _ _) => apply aside_ForwardMessage; intros ?
  | |- safe _ _ (ForwardCommit _ _ _ _) => apply aside_ForwardCommit; intros ?
  | |- safe _ _ (Act _ _) => apply safe_quiet; [done | intros ?]
  | H : safe _ _ ?k |- safe _ _ ?k => exact H
  | |- _ => aside_step
  end.

Lemma aside_createConversation c req : aside (createConversation h c req).
Proof.
  unfold createConversation, createDirect, createGroup, provision_direct.
  repeat aside_helper.
Qed.
Lemma aside_addMember c id name : aside (addMember h c id name).
Proof.
  unfold addMember, add_local, add_remote.
  repeat aside_helper.
Qed.
Lemma aside_removeMember c id target : aside (removeMember c id target).
Proof. unfold removeMember, publish_deleted. repeat aside_helper. Qed.
Lemma aside_deleteConversation c id : aside (deleteConversation h c id).
Proof. unfold deleteConversation, deleteConversationAttachments, publish_deleted. repeat aside_helper. Qed.
Lemma aside_postMessage c id req : aside (postMessage h c id req).
Proof.
  unfold postMessage, post_native, membersFor, publish_message.
  repeat aside_helper.
Qed.
Lemma aside_postMLSCommit c id req : aside (postMLSCommit h c id req).
Proof.
  unfold postMLSCommit, commit_native, commit_forward, publish_message, observe_commit.
  repeat aside_helper.
Qed.
Lemma aside_others c id r : quiet (InConversation id r) = false → aside (serve_conversation h c id r).
Proof.
  intros Hr. destruct r; try discriminate Hr; clear Hr; cbn [serve_conversation];
    [apply aside_deleteConversation | unfold clearMessages | unfold reportReceipt | unfold uploadAttachment
    | apply aside_postMessage | apply aside_addMember | unfold setMemberRole | apply aside_removeMember
    | apply aside_postMLSCommit | unfold postMLSGroupInfo | unfold postMLSReset]; repeat aside_helper.
Qed.

Lemma aside_serve c r : aside (serve h c r).
Proof.
  destruct (quiet r) eqn:Hq; [by apply quiet_serve|].
  destruct r; try discriminate Hq; cbn [serve]; [by apply aside_others | apply aside_createConversation].
Qed.
End Aside.
