(* ===== verification/ChannelAuthority.v ===== *)
(** * Who runs a channel

    People who neither own a channel nor are among its active admins cannot
    change it, its keys, its feed or anyone else's membership, and do not become
    its admins, whatever they ask of the channel API and of the admin panel. *)

From S2P Require Import Prelude.
From S2P Require Import GoStrings.
From S2P Require Import Domain.
From S2P Require Import Threads.
From S2P Require Import Crypto.
From S2P Require Import Password.
From S2P Require Import Blob.
From S2P Require Import Auth.
From S2P Require Import Tokens.
From S2P Require Import AuthHandler.
From S2P Require Import Registration.
From S2P Require Import Ident.
From S2P Require Import StoreState.
From S2P Require Import ChatServe.
From S2P Require Import ChatBystander.
From S2P Require Import StoreUsers.
From S2P Require Import StoreChannels.
From S2P Require Import StoreInvites.
From S2P Require Import StoreDevices.
From S2P Require Import StoreMessages.
From S2P Require Import Peers.
From S2P Require Import ChannelViews.
From S2P Require Import ChatWorld.
From S2P Require Import ChatFrame.
From S2P Require Import ChatQuiet.
From S2P Require Import ChatElsewhere.
From S2P Require Import ChatSample.
From S2P Require Import ChannelAccess.
From S2P Require Import ChannelMembers.
From S2P Require Import Uploads.
From S2P Require Import ChannelContent.
From S2P Require Import ChannelProfile.
From S2P Require Import ChannelAdmin.
From S2P Require Import ChannelFrame.
From S2P Require Import ChannelServe.
From S2P Require Import ChannelSample.

(** ** What is held of a channel *)

(** Its record, its keys, its feed, and the memberships of the people who are
    not among the [subjects]. *)
Module ChannelHeld.
Record t := mk {
  channel : option Channel.t; keys : gmap string APIKey.t; feed : gmap string Message.t;
  others : gmap string ChannelMember.t
}.
End ChannelHeld.

Definition others_of (subjects : list string) (G : string) (t : gmap string ChannelMember.t) : gmap string ChannelMember.t :=
  filter (fun kv => ChannelMember.ChannelID kv.2 = G ∧ ChannelMember.UserID kv.2 ∉ subjects) t.

Definition channel_held {B} (subjects : list string) (G : string) (m : Memory.t B) : ChannelHeld.t :=
  ChannelHeld.mk (Memory.channels m !! G) (rows APIKey.ChannelID G (Memory.apiKeys m))
    (rows Message.ChannelID G (Memory.messages m)) (others_of subjects G (Memory.members m)).

(** Someone who may moderate by virtue of a membership. *)
Definition runs (mem : ChannelMember.t) : Prop :=
  ChannelMember.Status mem = MemberActive ∧ ChannelMember.Role mem = RoleAdmin.

(** The ids drawn are not in use. *)
Definition free_ids (hd : ChannelHeld.t) (G : string) (env : Env.t) : Prop := ∀ i,
  let id := Env.fresh env i in
  id ≠ G ∧ ChannelHeld.keys hd !! id = None ∧ ChannelHeld.feed hd !! id = None ∧ ChannelHeld.others hd !! id = None.

Section Store.
Context {B : Type} {BS : BlobStore B} {RO : RangeOrder} {U : Unicode}.
Context (subjects : list string) (G : string) (hd : ChannelHeld.t).
Implicit Types (m : Memory.t B) (id uid : string) (mem : ChannelMember.t).

(** What is held is the same, and none of the subjects runs the channel. *)
Record kept m : Prop := {
  kept_held : channel_held subjects G m = hd;
  kept_keys : keyed APIKey.ID (Memory.apiKeys m);
  kept_subjects : ∀ id mem, Memory.members m !! id = Some mem → ChannelMember.ChannelID mem = G →
    ChannelMember.UserID mem ∈ subjects → ¬ runs mem
}.

Lemma kept_part m m' : kept m → channel_part m' = channel_part m → kept m'.
Proof.
  intros [H1 H2 H3] [= Hc Hk Hf Hm]. split; unfold channel_held in *; by rewrite ?Hc, ?Hk, ?Hf, ?Hm.
Qed.
Lemma kept_blobs : blind_to_blobs kept.
Proof. intros m b Hm. by apply (kept_part _ _ Hm). Qed.

Lemma kept_channel m ch : kept m → Memory.channels m !! G = Some ch → ChannelHeld.channel hd = Some ch.
Proof. intros [<- _ _]. done. Qed.

(** *** Keys, the feed and the record *)

Lemma kept_channels m t : kept m → t !! G = Memory.channels m !! G → kept (m <| Memory.channels := t |>).
Proof. intros [H1 H2 H3] Ht. split; [|done..]. rewrite <- H1. unfold channel_held. cbn. by rewrite Ht. Qed.
Lemma kept_apiKeys m t : kept m → keyed APIKey.ID t →
  rows APIKey.ChannelID G t = rows APIKey.ChannelID G (Memory.apiKeys m) → kept (m <| Memory.apiKeys := t |>).
Proof. intros [H1 H2 H3] Hk Ht. split; [|done..]. rewrite <- H1. unfold channel_held. cbn. by rewrite Ht. Qed.
Lemma kept_messages m t : kept m →
  rows Message.ChannelID G t = rows Message.ChannelID G (Memory.messages m) → kept (m <| Memory.messages := t |>).
Proof. intros [H1 H2 H3] Ht. split; [|done..]. rewrite <- H1. unfold channel_held. cbn. by rewrite Ht. Qed.

(** *** Members *)

(** A row of another channel, or of a subject who does not run this one. *)
Definition harmless mem : Prop :=
  ChannelMember.ChannelID mem ≠ G ∨ (ChannelMember.UserID mem ∈ subjects ∧ ¬ runs mem).

Lemma kept_members m t : kept m → others_of subjects G t = others_of subjects G (Memory.members m) →
  (∀ id mem, t !! id = Some mem → Memory.members m !! id = Some mem ∨ harmless mem) →
  kept (m <| Memory.members := t |>).
Proof.
  intros [H1 H2 H3] Ht Hrows. split; [|done|].
  - rewrite <- H1. unfold channel_held. cbn. by rewrite Ht.
  - intros id mem Hid Hc Hu. destruct (Hrows _ _ Hid) as [Hi|[Hi|[_ Hi]]]; [by eapply H3 | done..].
Qed.

Lemma others_None t id : (∀ mem, t !! id = Some mem → ChannelMember.ChannelID mem ≠ G ∨ ChannelMember.UserID mem ∈ subjects) →
  others_of subjects G t !! id = None.
Proof. intros H. apply map_lookup_filter_None. right. intros mem Hid [Hc Hu]. destruct (H mem Hid); naive_solver. Qed.

Lemma kept_member_insert m id mem : kept m → harmless mem → others_of subjects G (Memory.members m) !! id = None →
  kept (m <| Memory.members := <[id := mem]> (Memory.members m) |>).
Proof.
  intros Hm Hh Hid. apply kept_members; [done| |].
  - unfold others_of. rewrite map_filter_insert_False by (destruct Hh; naive_solver).
    rewrite map_filter_delete. by apply delete_id.
  - intros id' mem' [[-> ->]|[_ Hi]]%lookup_insert_Some; auto.
Qed.
Lemma kept_member_delete m id mem : kept m → Memory.members m !! id = Some mem →
  ChannelMember.ChannelID mem ≠ G ∨ ChannelMember.UserID mem ∈ subjects →
  kept (m <| Memory.members := delete id (Memory.members m) |>).
Proof.
  intros Hm Hi Hh. apply kept_members; [done| |].
  - unfold others_of. rewrite map_filter_delete. apply delete_id, others_None. congruence.
  - intros id' mem' [_ Hi']%lookup_delete_Some. auto.
Qed.

(** *** The operations *)

Lemma kept_CreateChannel m nid ch : kept m → Channel.ID ch = "" → nid ≠ G → kept (CreateChannel m nid ch).1.
Proof.
  intros Hm Hid Hn. unfold CreateChannel. rewrite bool_decide_true by done. cbn.
  apply kept_channels; [done|]. by apply lookup_insert_ne.
Qed.

(** The updates of the record of another channel. *)
Lemma kept_channel_update m id (f : Channel.t → Channel.t) : kept m → id ≠ G →
  kept (m <| Memory.channels := alter f id (Memory.channels m) |>).
Proof. intros Hm Hid. apply kept_channels; [done|]. by apply lookup_alter_ne. Qed.

Lemma kept_channel_insert m id ch : kept m → id ≠ G →
  kept (m <| Memory.channels := <[id := ch]> (Memory.channels m) |>).
Proof. intros Hm Hid. apply kept_channels; [done|]. by apply lookup_insert_ne. Qed.

Lemma kept_UpdateChannel m id name mode : kept m → id ≠ G → kept (UpdateChannel m id name mode).1.
Proof. intros Hm Hid. unfold UpdateChannel. case_match; [by apply kept_channel_insert | done]. Qed.
Lemma kept_SetChannelAlias m id alias : kept m → id ≠ G → kept (SetChannelAlias m id alias).1.
Proof. intros Hm Hid. unfold SetChannelAlias. repeat case_match; first [by apply kept_channel_insert | done]. Qed.
Lemma kept_SetChannelAvatar m id avatar : kept m → id ≠ G → kept (SetChannelAvatar m id avatar).1.
Proof.
  intros Hm Hid. unfold SetChannelAvatar. case_match; [|done]. cbn zeta. cbn [fst].
  pose proof (kept_channel_insert m id (t <| Channel.AvatarID := avatar |>) Hm Hid) as H'. case_match; [|done].
  by apply (kept_part _ _ H').
Qed.

Lemma kept_DeleteChannel m id : kept m → id ≠ G → kept (DeleteChannel m id).1.
Proof.
  intros Hm Hid. unfold DeleteChannel. case_match; [|done]. cbn zeta. cbn [fst].
  assert (kept (m <| Memory.channels := delete id (Memory.channels m) |>
    <| Memory.apiKeys := range_delete (fun k => APIKey.ChannelID k == id) (Memory.apiKeys m) |>
    <| Memory.messages := range_delete (fun msg => Message.ChannelID msg == id) (Memory.messages m) |>
    <| Memory.members := range_delete (fun mem => ChannelMember.ChannelID mem == id) (Memory.members m) |>)) as H'.
  2:{ by apply (kept_part _ _ H'). }
  assert (∀ A (conv : A → string) x, (conv x == id) = true → conv x ≠ G) as Hne by (intros A conv x ->%bool_decide_eq_true; done).
  refine (kept_members _ _ (kept_messages _ _ (kept_apiKeys _ _ (kept_channels _ _ Hm _) _ _) _) _ _).
  - by apply lookup_delete_ne.
  - apply keyed_range_delete, Hm.
  - by apply rows_range_delete, Hne.
  - by apply rows_range_delete, Hne.
  - apply map_eq. intros i. apply option_eq. intros x. unfold others_of.
    rewrite !map_lookup_filter_Some, range_delete_Some. cbn [snd]. rewrite bool_decide_eq_false. naive_solver.
  - intros i mem [Hi _]%range_delete_Some. by left.
Qed.

Lemma kept_CreateAPIKey m nid key : kept m → APIKey.ID key = "" → APIKey.ChannelID key ≠ G →
  ChannelHeld.keys hd !! nid = None → kept (CreateAPIKey m nid key).1.
Proof.
  intros Hm Hid Hc Hn. unfold CreateAPIKey. rewrite bool_decide_true by done. cbn.
  apply kept_apiKeys; [done | apply keyed_insert_at; [apply Hm | done] |]. apply rows_insert; [done|].
  by rewrite <- (kept_held _ Hm) in Hn.
Qed.

(** A key that was seen on another channel is none of this one's. *)
Definition foreign_key id : Prop := ChannelHeld.keys hd !! id = None.
Lemma foreign_key_seen m cid id : kept m → cid ≠ G →
  existsb (fun key => APIKey.ID key == id) (APIKeysByChannel m cid) = true → foreign_key id.
Proof.
  intros Hm Hc (key & Hin & Hid)%existsb_exists. apply bool_decide_eq_true in Hid as <-.
  apply list_elem_of_In, elem_of_range_filter in Hin as (Hk & i & Hi). apply bool_decide_eq_true in Hk.
  pose proof (kept_keys _ Hm _ _ Hi) as <-. unfold foreign_key. rewrite <- (kept_held _ Hm).
  apply rows_None. intros key' Hk'. cbn in *. congruence.
Qed.
Lemma kept_RevokeAPIKey m now id : kept m → foreign_key id → kept (RevokeAPIKey m now id).1.
Proof.
  intros Hm Hf. unfold RevokeAPIKey. destruct (Memory.apiKeys m !! id) as [key|] eqn:Hk; [|done].
  destruct (APIKey.RevokedAt key); [done|]. cbn.
  assert (APIKey.ChannelID key ≠ G) as Hc.
  { intros Hc. unfold foreign_key in Hf. rewrite <- (kept_held _ Hm) in Hf. cbn in Hf.
    apply map_lookup_filter_None in Hf as [Hf|Hf]; [congruence | by eapply Hf]. }
  apply kept_apiKeys; [done | by eapply keyed_insert_same; [apply Hm | ..] | by eapply rows_update].
Qed.

Definition foreign_message id : Prop := ChannelHeld.feed hd !! id = None.
Lemma foreign_message_seen m id msg : kept m → Memory.messages m !! id = Some msg → Message.ChannelID msg ≠ G →
  foreign_message id.
Proof.
  intros Hm Hi Hc. unfold foreign_message. rewrite <- (kept_held _ Hm). apply rows_None. intros msg' Hi'. congruence.
Qed.
Lemma kept_DeleteMessage m id : kept m → foreign_message id → kept (DeleteMessage m id).1.
Proof.
  intros Hm Hf. unfold DeleteMessage. destruct (Memory.messages m !! id) as [msg|] eqn:Hi; [|done]. cbn zeta. cbn [fst].
  assert (kept (m <| Memory.messages := delete id (Memory.messages m) |>)) as H'; [|by apply (kept_part _ _ H')].
  apply kept_messages; [done|]. eapply rows_delete; [done|]. intros Hc.
  unfold foreign_message in Hf. rewrite <- (kept_held _ Hm) in Hf. cbn in Hf.
  apply map_lookup_filter_None in Hf as [Hf|Hf]; [congruence | by eapply Hf].
Qed.

Lemma kept_UpsertMember m nid mem : kept m → ChannelMember.ID mem = "" → harmless mem →
  ChannelHeld.others hd !! nid = None → kept (UpsertMember m nid mem).1.
Proof.
  intros Hm Hid Hh Hn. unfold UpsertMember. case_match; [by case_match|]. rewrite bool_decide_true by done. cbn.
  apply kept_member_insert; [done..|]. by rewrite <- (kept_held _ Hm) in Hn.
Qed.

Lemma kept_on_member m cid uid (f : ChannelMember.t → ChannelMember.t) : kept m → cid ≠ G →
  (∀ mem, ChannelMember.ChannelID (f mem) = ChannelMember.ChannelID mem) →
  kept (on_member m cid uid (fun id mem => <[id := f mem]> (Memory.members m))).1.
Proof.
  intros Hm Hc Hf. unfold on_member. destruct (range_find _ _) as [[i mem]|] eqn:Hr; [|done].
  apply range_find_Some in Hr as [Hi [Hcid _]%is_member_true]. cbn.
  apply kept_member_insert; [done | left; rewrite Hf; congruence |]. apply others_None. intros mem' Hi'. left. congruence.
Qed.
Lemma kept_RemoveMember m cid uid : kept m → cid ≠ G ∨ uid ∈ subjects → kept (RemoveMember m cid uid).1.
Proof.
  intros Hm Hc. unfold RemoveMember, on_member. destruct (range_find _ _) as [[i mem]|] eqn:Hr; [|done].
  apply range_find_Some in Hr as [Hi [Hcid Hu]%is_member_true]. cbn.
  eapply kept_member_delete; [done..|]. destruct Hc as [Hc|Hc]; [left | right]; congruence.
Qed.
End Store.

(** ** The channel API in their hands *)

Section Handlers.
Context {B : Type} {BS : BlobStore B} {RO : RangeOrder} {U : Unicode} {RC : RuneClasses} {NU : NetUrl} {NM : NetMail}
  {A : Argon2} {E : Ed25519} {HM : ConvFed.Hmac} {IL : ImageLib} {TT : TimeText}.
Context (h : AppHandler.t) (subjects : list string) (G : string) (hd : ChannelHeld.t) (ch0 : Channel.t).
Context (Hch : ChannelHeld.channel hd = Some ch0) (Howner : Channel.OwnerID ch0 ∉ subjects).
Abbreviation handler := (prog (World.t B) Env.t response).
Abbreviation still := (safe (B := B) (R := response) (free_ids hd G) (kept subjects G hd)).
Implicit Types (c : Caller.t) (id uid : string) (k : handler).
Let HB : blind_to_blobs (B := B) (kept subjects G hd) := kept_blobs subjects G hd.

(** *** Calls elsewhere *)

Lemma still_elsewhere {X} (op : Memory.t B → Env.t → memory_op B X) (k : _ → handler) :
  (∀ m env, channel_part (op m env).1 = channel_part m) → (∀ r, still (k r)) → still (store_call op k).
Proof. intros Hop. apply safe_store_call. intros m env _ Hm. by apply (kept_part _ _ _ m). Qed.

Lemma Subscribe_part (m : Memory.t B) nid s : channel_part (Subscribe m nid s).1 = channel_part m.
Proof. unfold Subscribe. by repeat case_match. Qed.
Lemma Unsubscribe_part (m : Memory.t B) cid did : channel_part (Unsubscribe m cid did).1 = channel_part m.
Proof. unfold Unsubscribe. by repeat case_match. Qed.
Lemma CreateDevice_part (m : Memory.t B) nid d : channel_part (CreateDevice m nid d).1 = channel_part m.
Proof. unfold CreateDevice. by repeat case_match. Qed.
Lemma CreateComment_part (m : Memory.t B) nid now cm : channel_part (CreateComment m nid now cm).1 = channel_part m.
Proof. done. Qed.
Lemma DeleteComment_part (m : Memory.t B) id : channel_part (DeleteComment m id).1 = channel_part m.
Proof. unfold DeleteComment. by case_match. Qed.
Lemma UpdateUserProfile_part (m : Memory.t B) uid p : channel_part (UpdateUserProfile m uid p).1 = channel_part m.
Proof. unfold UpdateUserProfile. by repeat case_match. Qed.
Lemma SetUserAvatar_part (m : Memory.t B) uid a : channel_part (SetUserAvatar m uid a).1 = channel_part m.
Proof. unfold SetUserAvatar. by repeat case_match. Qed.

(** *** Guards *)

Lemma kept_owner m ch uid : kept subjects G hd m → ChannelByID (B := B) m G = Ok ch → uid ∈ subjects → Channel.OwnerID ch ≠ uid.
Proof.
  intros Hm. unfold ChannelByID. destruct (Memory.channels m !! G) as [ch'|] eqn:Hg; [|done]. intros [= ->] Hu Ho.
  apply (kept_channel _ _ _ _ _ Hm) in Hg. congruence.
Qed.

Lemma still_ownsChannel uid id (k : bool → handler) :
  uid ∈ subjects → still (k false) → (id ≠ G → still (k true)) → still (ownsChannel uid id k).
Proof.
  intros Hu Hf Ht. apply safe_store_known; [|done]. intros m Hm. destruct (ChannelByID m id) as [ch|e] eqn:Hr; [|done].
  cbn [lift]. destruct (bool_decide_reflect (Channel.OwnerID ch = uid)) as [Ho|]; [|done].
  apply Ht. intros ->. by eapply kept_owner.
Qed.

Lemma still_canAdminister uid id (k : option Channel.t → handler) :
  uid ∈ subjects → still (k None) → (id ≠ G → ∀ ch, still (k (Some ch))) → still (canAdminister uid id k).
Proof.
  intros Hu Hn Hs. apply safe_store_known; [|done]. intros m Hm. destruct (ChannelByID m id) as [ch|e] eqn:Hr; [|done].
  cbn [lift]. case_bool_decide as Ho; [apply Hs; intros ->; by eapply kept_owner|].
  apply safe_store_known; [|done]. intros m' Hm'. destruct (MembershipForUser m' id uid) as [mem|e] eqn:Hmem; [|done].
  cbn [lift]. destruct ((ChannelMember.Status mem == MemberActive) && _) eqn:Hruns; [|done]. apply Hs. intros ->.
  apply andb_true_iff in Hruns as [Hst%bool_decide_eq_true Hro%bool_decide_eq_true].
  unfold MembershipForUser in Hmem. destruct (range_find _ _) as [[i mem']|] eqn:Hf; [|done]. injection Hmem as ->.
  apply range_find_Some in Hf as [Hi [Hc Hx]%is_member_true].
  eapply (kept_subjects _ _ _ _ Hm'); [done.. | by rewrite Hx | done].
Qed.

Lemma still_messageInChannel cid id (k : option Message.t → handler) :
  still (k None) → (cid ≠ G → ∀ msg, foreign_message hd id → still (k (Some msg))) →
  (cid = G → ∀ msg, still (k (Some msg))) → still (messageInChannel cid id k).
Proof.
  intros Hn Hs Hg. apply safe_store_known; [|done]. intros m Hm. unfold MessageByID.
  destruct (Memory.messages m !! id) as [msg|] eqn:Hi; cbn [lift]; [|done].
  destruct (bool_decide_reflect (Message.ChannelID msg = cid)) as [Hc|]; cbn [negb]; [|done].
  destruct (decide (cid = G)) as [HG|HG]; [by apply Hg|]. apply Hs; [done|].
  eapply (foreign_message_seen subjects); [done..|]. congruence.
Qed.

Lemma still_join uid ch deviceID (k : option ChannelMember.t → handler) :
  uid ∈ subjects → (∀ r, still (k r)) → still (join uid ch deviceID k).
Proof.
  intros Hu Hk. unfold join. safe_step. apply safe_store_call.
  - intros m env Henv Hm. apply kept_UpsertMember; [done | done | right; split; [done|] | by apply (Henv 0%nat)].
    intros [_ Hr]. discriminate.
  - intros r. case_match; [|apply Hk]. case_match; [|apply Hk]. safe_step. apply still_elsewhere; [|by intros; case_match].
    intros. apply Subscribe_part.
Qed.

(** *** One step of a handler *)

Definition subject c : Prop := ∀ uid, Caller.user c = Some uid → uid ∈ subjects.
Lemma still_requireUser c (k : string → handler) : subject c → (∀ uid, uid ∈ subjects → still (k uid)) → still (requireUser c k).
Proof. intros Hc Hk. unfold requireUser. destruct (Caller.user c) as [uid|] eqn:Hu; [apply Hk, Hc, Hu | apply safe_done]. Qed.

Ltac still_call :=
  apply still_elsewhere; [intros ? ?; first [reflexivity | apply Subscribe_part | apply Unsubscribe_part
    | apply CreateDevice_part | apply CreateComment_part | apply DeleteComment_part | apply UpdateUserProfile_part
    | apply SetUserAvatar_part] | intros ?].

Ltac still_step :=
  lazymatch goal with
  | |- safe _ _ (requireUser _ _) => apply still_requireUser; [assumption | intros ? ?]
  | |- safe _ _ (ownsChannel _ _ _) => apply still_ownsChannel; [assumption | cbn [negb] | intros ?; cbn [negb]]
  | |- safe _ _ (canAdminister _ _ _) => apply still_canAdminister; [assumption | | intros ? ?]
  | |- safe _ _ (messageInChannel _ _ _) => apply still_messageInChannel; [| intros ? ? ? | intros ? ?]
  | |- safe _ _ (join _ _ _ _) => apply still_join; [assumption | intros ?]
  | |- safe _ _ (store_call _ _) => still_call
  | |- _ => channel_step
  end.

Lemma still_CreateChannel ch (k : _ → handler) : Channel.ID ch = "" → (∀ r, still (k r)) →
  still (store_call (fun m env => CreateChannel m (Env.fresh env 0%nat) ch) k).
Proof.
  intros Hid Hk. apply safe_store_call; [|done]. intros m env Henv Hm. apply kept_CreateChannel; [done..|]. apply (Henv 0%nat).
Qed.
Lemma still_mirror_of uid name host pub (k : Channel.t → handler) : (∀ ch, still (k ch)) → still (mirror_of uid name host pub k).
Proof.
  intros Hk. unfold mirror_of. cbv zeta. safe_step. case_match; [apply Hk|]. safe_step.
  case_match; [|apply safe_done]. safe_step. apply still_CreateChannel; [done|].
  intros r'; case_match; [apply Hk | apply safe_done].
Qed.
Lemma still_on_member id uid (f : ChannelMember.t → ChannelMember.t) op (k : _ → handler) : id ≠ G →
  (∀ mem, ChannelMember.ChannelID (f mem) = ChannelMember.ChannelID mem) →
  (∀ m, op m = on_member m id uid (fun i mem => <[i := f mem]> (Memory.members m))) →
  (∀ r, still (k r)) → still (store_call (fun m _ => op m) k).
Proof.
  intros Hid Hf Hop Hk. apply safe_store_call; [|done]. intros m env _ Hm. rewrite Hop. by apply kept_on_member.
Qed.
Lemma still_RemoveMember id uid (k : _ → handler) : id ≠ G ∨ uid ∈ subjects →
  (∀ r, still (k r)) → still (store_call (fun m _ => RemoveMember m id uid) k).
Proof. intros Hid Hk. apply safe_store_call; [|done]. intros m env _ Hm. by apply kept_RemoveMember. Qed.
Lemma still_other {X} (op : Memory.t B → memory_op B X) (k : _ → handler) :
  (∀ m, kept subjects G hd m → kept subjects G hd (op m).1) → (∀ r, still (k r)) → still (store_call (fun m _ => op m) k).
Proof. intros Hop Hk. apply safe_store_call; [|done]. intros m env _. apply Hop. Qed.

(** *** The routes *)

(** The calls that write what is held. *)
Ltac still_write :=
  lazymatch goal with
  | Hid : ?id ≠ G |- safe _ _ (store_call (fun m _ => UpdateMemberStatus m ?id ?uid ?v) _) =>
      apply (still_on_member id uid (fun mem => mem <| ChannelMember.Status := v |>)); [done.. | intros ?]
  | Hid : ?id ≠ G |- safe _ _ (store_call (fun m _ => UpdateMemberRole m ?id ?uid ?v) _) =>
      apply (still_on_member id uid (fun mem => mem <| ChannelMember.Role := v |>)); [done.. | intros ?]
  | |- safe _ _ (store_call (fun m _ => RemoveMember m _ _) _) => apply still_RemoveMember; [by auto | intros ?]
  | |- safe _ _ (store_call _ _) =>
      apply still_other; [intros ? ?; first [by apply kept_UpdateChannel | by apply kept_SetChannelAlias
        | by apply kept_SetChannelAvatar | by apply kept_DeleteChannel | by apply kept_DeleteMessage] | intros ?]
  end.
Ltac still_all := repeat first [still_step | still_write | congruence].

Lemma still_createKey c id label : subject c → still (createKey c id label).
Proof.
  intros Hc. unfold createKey. do 3 still_step; [still_all|]. still_step. case_match; [|apply safe_done].
  case_match. case_match. still_step. apply safe_store_call; [|intros r; apply safe_done].
  intros m env Henv Hm. apply kept_CreateAPIKey; [done..|]. apply (Henv 0%nat).
Qed.
Lemma still_revokeKey c id keyId : subject c → still (revokeKey c id keyId).
Proof.
  intros Hc. unfold revokeKey. do 3 still_step; [still_all|]. apply safe_store_known; [|apply safe_done].
  intros m Hm. cbn [lift]. destruct (existsb _ _) eqn:Hs; cbn [negb]; [|apply safe_done].
  eapply foreign_key_seen in Hs; [|done..]. apply safe_store_call; [|intros r; apply safe_done].
  intros m' env _ Hm'. by apply kept_RevokeAPIKey.
Qed.

Lemma still_in_channel c id r : subject c → still (serve_in_channel h c id r).
Proof.
  intros Hc. destruct r; cbn [serve_in_channel];
    [unfold getChannel | unfold updateChannel | unfold deleteChannel | unfold deleteMessage | unfold uploadChannelAvatar
    | unfold deleteChannelAvatar | by apply still_createKey | unfold listKeys | by apply still_revokeKey
    | unfold notifyChannel | unfold subscribe | unfold unsubscribe | unfold subscriptionStatus | unfold membership
    | unfold leaveChannel | unfold listApprovals | unfold approveMember | unfold denyMember | unfold listMembers
    | unfold updateMember | unfold removeMember | unfold listMessages | unfold getMessage | unfold listComments
    | unfold postComment | unfold deleteComment]; still_all.
Qed.

Lemma still_serve_channel c r : subject c → still (serve_channel h c r).
Proof.
  intros Hc. destruct r; cbn [serve_channel]; [by apply still_in_channel | unfold meta | unfold me | unfold updateProfile
    | unfold uploadAvatar | unfold deleteAvatar | unfold createChannel | unfold listChannels | unfold joinChannel
    | unfold joinRemoteChannel | unfold listJoinedChannels | unfold createDevice];
    repeat first [still_step | apply still_mirror_of; intros ?
      | apply still_CreateChannel; [done | intros ?]].
Qed.

(** *** The admin panel, and the rest *)

Lemma still_requireAdmin c (k : handler) : Caller.role c ≠ RoleAdmin → still (requireAdmin c k).
Proof. intros Hc. unfold requireAdmin. rewrite bool_decide_false by done. apply safe_done. Qed.
Lemma still_serve_admin HasRevoker SessionTTL c r : Caller.role c ≠ RoleAdmin →
  still (serve_admin HasRevoker SessionTTL c r).
Proof. intros Hc. destruct r; by apply still_requireAdmin. Qed.

Lemma still_serve_protected c r : subject c → Caller.role c ≠ RoleAdmin → still (serve_protected h c r).
Proof.
  intros Hc Hr. destruct r as [r|r|r]; cbn [serve_protected].
  - by apply still_serve_channel.
  - case_match; [|apply safe_done]. case_match. by apply still_serve_admin.
  - case_match; [|apply safe_done]. apply aside_serve. intros m m' Hm [= ? ? ? ? _]. apply (kept_part _ _ _ m); [done|]. unfold channel_part. congruence.
Qed.
End Handlers.

(** ** Who runs a channel *)

Definition serve_each {B} {BS : BlobStore B} {RO : RangeOrder} {U : Unicode} {RC : RuneClasses} {NU : NetUrl}
  {NM : NetMail} {A : Argon2} {E : Ed25519} {HM : ConvFed.Hmac} {IL : ImageLib} {TT : TimeText} (h : AppHandler.t)
  (reqs : list (Caller.t * protected_request)) : list (prog (World.t B) Env.t response) :=
  (fun cr => serve_protected h cr.1 cr.2) <$> reqs.

(** A channel answers to those who run it. *)
Theorem channel_authority {B} {BS : BlobStore B} {RO : RangeOrder} {U : Unicode} {RC : RuneClasses} {NU : NetUrl}
  {NM : NetMail} {A : Argon2} {E : Ed25519} {HM : ConvFed.Hmac} {IL : ImageLib} {TT : TimeText} (h : AppHandler.t)
  (G : string) (ch : Channel.t) (subjects : list string) (w : World.t B) (reqs : list (Caller.t * protected_request)) turns :
  let hd := channel_held subjects G (World.store w) in
  keyed APIKey.ID (Memory.apiKeys (World.store w)) →
  (∀ id mem, Memory.members (World.store w) !! id = Some mem → ChannelMember.ChannelID mem = G →
     ChannelMember.UserID mem ∈ subjects → ¬ runs mem) →
  Memory.channels (World.store w) !! G = Some ch → Channel.OwnerID ch ∉ subjects →
  (∀ c r, (c, r) ∈ reqs → Caller.role c ≠ RoleAdmin ∧ subject subjects c) →
  Forall (fun t => free_ids hd G t.2) turns →
  kept subjects G hd (World.store (Threads.schedule w (serve_each h reqs) turns).1).
Proof.
  intros hd Hkeys Hrun Hc Howner Hsub Hok.
  assert (kept subjects G hd (World.store w)) as Hkept by done.
  apply (preserves_schedule (free_ids hd G) (fun w => kept subjects G hd (World.store w))); [done..|].
  apply Forall_fmap, Forall_forall. intros [c r] [Hr Hs]%Hsub.
  eapply (still_serve_protected h subjects G hd ch); [by apply (kept_channel _ _ _ _ _ Hkept) | done..].
Qed.

(** Bob, a member, and carol, who joins, try what only the owner may. *)
Definition square_requests : list (Caller.t * protected_request) :=
  ((fun r => (town_caller "bob", ChannelRequest (InChannel "news" r))) <$>
    [UpdateSubscriber "bob" (Decoded (updateMemberRequest.mk (Some RoleAdmin) None));
     CreateKey "mine"; DeleteMessageRequest "p1"; LeaveChannel]) ++
  ((fun r => (town_caller "carol", r)) <$>
    [ChannelRequest (JoinChannel (Decoded (joinChannelRequest.mk "ch_news" ""))); AdminRequest (AdminDeleteChannel "news")]).
Definition square_each : list (prog (World.t BlobMemory.t) Env.t response) := (fun cr => square_serve cr.1 cr.2) <$> square_requests.
Definition square_turns : list (nat * Env.t) := town_turns 6 8.

Lemma channel_authority_witness :
  let s := Threads.schedule square_world square_each square_turns in
  statuses s.2 = [Some 403; Some 403; Some 403; Some 204; Some 201; Some 403] ∧
  kept ["bob"; "carol"] "news" (channel_held ["bob"; "carol"] "news" square) (World.store s.1).
Proof.
  split; [vm_compute; reflexivity|].
  apply (@channel_authority _ _ order_fwd ascii_only ascii_classes simple_url mail_any toy_argon2 toy_ed25519
           town_hmac square_images square_times square_handler "news" square_channel ["bob"; "carol"] square_world
           square_requests square_turns).
  - intros id key Hk. cbn in Hk. apply lookup_singleton_Some in Hk as [<- <-]. done.
  - intros id mem Hi _ _ [_ Hr]. cbn in Hi. apply lookup_singleton_Some in Hi as [<- <-]. discriminate Hr.
  - done.
  - rewrite !not_elem_of_cons. split_and!; [done | done | apply not_elem_of_nil].
  - intros c r Hin. unfold square_requests in Hin. cbn [app fmap list_fmap] in Hin. rewrite !elem_of_cons, elem_of_nil in Hin.
    unfold subject. setoid_rewrite elem_of_cons. setoid_rewrite elem_of_cons.
    destruct_or?; naive_solver.
  - apply Forall_forall. intros [i env] Hin j. pose proof (square_turns_fresh _ _ _ _ Hin j) as Hf.
    unfold square_ids in Hf. rewrite !not_elem_of_cons in Hf.
    destruct Hf as (Hn & Hk & Hp & Hb & _). split_and!; [done|..].
    + apply map_lookup_filter_None. left. by apply lookup_singleton_ne.
    + apply map_lookup_filter_None. left. by apply lookup_singleton_ne.
    + apply map_lookup_filter_None. left. by apply lookup_singleton_ne.
Defined.
