(* ===== verification/PeerIsolation.v ===== *)
(** * Conversations and the hosts that take no part in them

    What is held of a conversation stands whatever hosts ask that neither hub it
    nor are the home of one of its members, over the whole host-to-host API. *)

From S2P Require Import Prelude.
From S2P Require Import GoStrings.
From S2P Require Import Domain.
From S2P Require Import Threads.
From S2P Require Import Crypto.
From S2P Require Import Blob.
From S2P Require Import MlsChain.
From S2P Require Import Nodelist.
From S2P Require Import Strconv.
From S2P Require Import Federation.
From S2P Require Import StoreState.
From S2P Require Import StoreUsers.
From S2P Require Import StoreDevices.
From S2P Require Import StoreMessages.
From S2P Require Import StoreConversations.
From S2P Require Import StoreMls.
From S2P Require Import Calls.
From S2P Require Import Peers.
From S2P Require Import ChatWorld.
From S2P Require Import ChatPush.
From S2P Require Import ConvFed.
From S2P Require Import ChatFrame.
From S2P Require Import ChatSample.
From S2P Require Import ChatElsewhere.
From S2P Require Import Dispatch.
From S2P Require Import FedServe.

(** ** Hosts and what they ask *)

(** Neither the hub nor the home of a member. *)
Definition stranger (hd : Held.t) (host : string) : Prop :=
  (∀ conv, Held.conversation hd = Some conv → Conversation.HubDomain conv ≠ host) ∧
  (∀ id mem, Held.roster hd !! id = Some mem → ConversationMember.Domain mem ≠ host).

Section Asked.
Context {PJ : PeerJson}.
Implicit Types (r : fed_route) (body : option bytes).

(** A request to stand up a mirror of [G]. *)
Definition provisions (G : string) r body : Prop :=
  r = ConvProvision ∧ ∃ b spec, body = Some b ∧ body_spec (read_body b) = Some spec ∧ MirrorSpec.ConversationID spec = G.

(** The messages it relays bear no id that is in use in [G]. *)
Definition relays_anew (hd : Held.t) (G : string) r body : Prop :=
  ∀ b id msgs, r = ConvRelay → body = Some b → body_relay (read_body b) = Some (id, msgs) →
    Forall (fun rm => RelayedMessage.ID rm = "" ∨ unused hd G (RelayedMessage.ID rm)) msgs.
End Asked.

(** ** The service in their hands *)

Section Strangers.
Context {B : Type} {BS : BlobStore B} {RO : RangeOrder} {GO : GroupOrder} {U : Unicode} {E : Ed25519} {HM : Hmac}
  {PJ : PeerJson}.
Context (f : FedHandler.t) (h : Handler.t) (nodes : NodeStore.t) (G : string) (hd : Held.t).
Context (conv0 : Conversation.t) (Hconv : Held.conversation hd = Some conv0).
Context (reliable : Prop).
Abbreviation handler := (prog (World.t B) Env.t fed_response).
Implicit Types (k : handler) (m : Memory.t B) (id uid host : string).

(** The ids drawn are not in use; where it matters, the store answers. *)
Definition sound_env (env : Env.t) : Prop := distinct_ids hd G env ∧ (reliable → Env.backend env = Works).
Definition intact m : Prop := same true G hd m ∧ keyed Conversation.ID (Memory.conversations m).

#[local] Instance intact_about : about_held true G sound_env intact.
Proof.
  split.
  - intros m m' Heq Hk [Hm _]. split; [|done]. unfold same in *. by rewrite Heq.
  - by intros m [_ Hk].
  - intros m env [Henv _] [Hm _]. by rewrite Hm.
Qed.
Abbreviation firm := (safe (B := B) (R := fed_response) sound_env intact).
#[local] Lemma intact_blobs : blind_to_blobs intact.
Proof. intros m b Hm. exact Hm. Qed.
Let HB : blind_to_blobs intact := intact_blobs.

(** *** What a stranger is told *)

Lemma intact_conversation m : intact m → Memory.conversations m !! G = Some conv0.
Proof. intros [Hm _]. by rewrite <- Hconv, <- Hm. Qed.
Lemma intact_members m host : intact m → stranger hd host →
  existsb (fun mem => ConversationMember.Domain mem == host) (ConversationMembers m G) = false.
Proof.
  intros [Hm _] [_ Hs]. apply not_true_iff_false. rewrite existsb_exists. intros (mem & Hin & Hd%bool_decide_eq_true).
  apply list_elem_of_In, elem_of_sort_slice in Hin.
  apply elem_of_range_filter in Hin as (Hc%bool_decide_eq_true & i & Hi).
  apply (Hs i mem); [|done]. rewrite <- Hm. by apply map_lookup_filter_Some.
Qed.

Lemma firm_conversation (k : _ → handler) : firm (k (Ok conv0)) → firm (k (Err Unavailable)) → firm (get_conversation G k).
Proof.
  intros Hk Hu. apply safe_store_known; [|done]. intros m Hm. unfold ConversationByID. by rewrite (intact_conversation m Hm).
Qed.
(** The store does answer. *)
Lemma firm_conversation_there (k : _ → handler) : reliable → firm (k (Ok conv0)) → firm (get_conversation G k).
Proof.
  intros Hr Hk w env [_ Henv] Hm. unfold faulty. rewrite (Henv Hr). split; [done|]. cbn.
  unfold ConversationByID. by rewrite (intact_conversation _ Hm).
Qed.
Lemma firm_isMember uid host (k : bool → handler) : stranger hd host → firm (k false) → firm (isMemberFromHost G uid host k).
Proof.
  intros [_ Hs] Hk. apply safe_store_known; [|done]. intros m [Hm _]. unfold ConversationMembership.
  destruct (range_find _ _) as [[i mem]|] eqn:Hr; [|done]. cbn.
  apply range_find_Some in Hr as [Hi Hc]. apply is_conv_member_true in Hc as [Hc Hu].
  rewrite bool_decide_false; [done|]. apply (Hs i mem). rewrite <- Hm. by apply map_lookup_filter_Some.
Qed.
Lemma firm_isMember_any id uid host (k : bool → handler) : (∀ b, firm (k b)) → firm (isMemberFromHost id uid host k).
Proof. intros Hk. apply safe_store_read. intros r. apply Hk. Qed.

(** *** Calls that leave the conversation alone *)

Lemma firm_call {X} (op : Memory.t B → Env.t → memory_op B X) (k : _ → handler) :
  (∀ m env, held_of true G (op m env).1 = held_of true G m ∧ Memory.conversations (op m env).1 = Memory.conversations m) →
  (∀ r, firm (k r)) → firm (store_call op k).
Proof.
  intros Hop. apply (confined_call true G sound_env intact).
  - intros hd' m env _ Hm. unfold same in *. by rewrite (proj1 (Hop m env)).
  - intros m env. apply Hop.
Qed.
Lemma DeleteDevice_held m id :
  held_of true G (DeleteDevice m id).1 = held_of true G m ∧ Memory.conversations (DeleteDevice m id).1 = Memory.conversations m.
Proof. unfold DeleteDevice. by repeat case_match. Qed.
Lemma AddRemoteSubscription_held m nid now cid host :
  held_of true G (StoreChannels.AddRemoteSubscription m nid now cid host).1 = held_of true G m ∧
  Memory.conversations (StoreChannels.AddRemoteSubscription m nid now cid host).1 = Memory.conversations m.
Proof. unfold StoreChannels.AddRemoteSubscription. by repeat case_match. Qed.
Lemma ClaimKeyPackage_held m uid did :
  held_of true G (ClaimKeyPackage m uid did).1 = held_of true G m ∧
  Memory.conversations (ClaimKeyPackage m uid did).1 = Memory.conversations m.
Proof.
  unfold ClaimKeyPackage. repeat case_match; done.
Qed.

(** *** Users, channels, key packages *)

Lemma firm_decoded {X} (d : option X) names_it msg (k : X → handler) :
  (∀ x, d = Some x → firm (k x)) → firm (decoded_as d names_it msg k).
Proof. intros Hk. unfold decoded_as. case_match; [|apply safe_done]. case_match; [auto | apply safe_done]. Qed.
Lemma firm_served {Er X} status msg (b : X → fed_body) (r : result Er X) : firm (served status msg b r).
Proof. apply safe_done. Qed.

Lemma firm_DeliverLocally d msg k : firm k → firm (DeliverLocally d msg k).
Proof.
  intros Hk. unfold DeliverLocally, pruneDeadAddresses, record_delivery. safe_step. cbv zeta.
  assert (firm (if Dispatcher.Live d then publish (live_message msg) k else k)) as Hl by (by repeat safe_step).
  revert Hl. generalize (if Dispatcher.Live d then publish (live_message msg) k else k). intros live Hl.
  destruct (match r with Ok devices => devices | Err _ => [] end) as [|device devices]; [exact Hl|]. safe_step. apply safe_for_each.
  - intros x k' Hk'. safe_step. by apply firm_call.
  - apply safe_for_each; [|exact Hl]. intros x k' Hk'. apply firm_call; [|done]. intros m env. apply DeleteDevice_held.
Qed.
Lemma firm_store_images images out (k : list MessageImage.t → handler) :
  (∀ imgs, firm (k imgs)) → firm (store_images images out k).
Proof.
  intros Hk. revert out. induction images as [|img images IH]; intros out; cbn [store_images]; [apply Hk|].
  case_match; [apply IH|]. apply safe_blob; [done|]. intros r. apply IH.
Qed.

Lemma firm_rehostImages blobs images (k : list MessageImage.t → handler) :
  (∀ imgs, firm (k imgs)) → firm (rehostImages blobs images k).
Proof. intros Hk. unfold rehostImages. case_match; [apply Hk | by apply firm_store_images]. Qed.

Lemma firm_channelSubscribe caller body : firm (channelSubscribe caller body).
Proof.
  unfold channelSubscribe, RecordRemoteSubscriber. apply firm_decoded. intros id _. safe_step.
  case_match; [|apply firm_served]. case_match; [apply firm_served|].
  apply firm_call; [intros; apply AddRemoteSubscription_held | intros; apply firm_served].
Qed.
Lemma firm_channelDelivery d caller body : firm (channelDelivery f d caller body).
Proof.
  unfold channelDelivery, DeliverRemoteMessage. apply firm_decoded. intros msg _. safe_step.
  case_match; [|apply firm_served]. safe_step.
  apply firm_rehostImages. intros imgs. apply firm_call; [done|]. intros r'. case_match; [|apply firm_served].
  apply firm_DeliverLocally, firm_served.
Qed.

Lemma firm_claim_each uid devices out (k : list ClaimedKeyPackage.t → handler) :
  (∀ l, firm (k l)) → firm (claim_each uid devices out k).
Proof.
  intros Hk. revert out. induction devices as [|d devices IH]; intros out; cbn [claim_each]; [apply Hk|].
  apply firm_call; [intros; apply ClaimKeyPackage_held | intros; apply IH].
Qed.
Lemma firm_claimKeyPackages body : firm (claimKeyPackages body).
Proof.
  unfold claimKeyPackages, DevicesWithKeyPackagesOf. apply firm_decoded. intros uid _. safe_step.
  case_match; [apply safe_done|]. apply firm_claim_each. intros out. apply safe_done.
Qed.

(** *** Conversations *)

Section Conversations.
Context (c : ConvFederation.t) (caller : string) (Hs : stranger hd caller).

Lemma firm_ProvisionMirror spec (k : _ → handler) :
  (MirrorSpec.ConversationID spec = G → reliable) → (∀ r, firm (k r)) → firm (ProvisionMirror c caller spec k).
Proof.
  intros Hr Hk. unfold ProvisionMirror. destruct (decide (MirrorSpec.ConversationID spec = G)) as [HG|Hne].
  { rewrite HG. apply firm_conversation_there; [by apply Hr | apply Hk]. }
  apply safe_store_read. intros [conv|e]; [apply Hk|]. unfold checkMirrorSpec. safe_step.
  repeat (case_match; try apply Hk; []). safe_step.
  apply (confined_CreateConversation true G sound_env intact); [by right | | intros; apply Hk..].
  unfold mirror_members. constructor; [done|]. apply Forall_fmap, Forall_true. done.
Qed.

Lemma firm_DeleteMirror id (k : _ → handler) : (∀ r, firm (k r)) → firm (DeleteMirror caller id k).
Proof.
  intros Hk. unfold DeleteMirror. destruct (decide (id = G)) as [->|Hne].
  - apply firm_conversation; [|apply Hk]. apply safe_store_known; [|apply Hk]. intros m Hm. cbn [lift].
    unfold peerInConversation. rewrite (intact_members m caller Hm Hs), bool_decide_false; [apply Hk|].
    by apply Hs.
  - apply safe_store_read. intros [conv|e]; [|apply Hk]. apply safe_get_members. intros [members|e]; [|apply Hk].
    case_match; [apply Hk|]. apply (confined_DeleteConversation true G sound_env intact); [done|]. intros [[]|e]; [|apply Hk].
    apply safe_publish, Hk.
Qed.

Lemma firm_applyRelayedCommit conv msgs commit (k : _ → handler) : Conversation.ID conv ≠ G →
  Forall (fun rm => RelayedMessage.ID rm = "" ∨ unused hd G (RelayedMessage.ID rm)) msgs →
  (∀ r, firm (k r)) → firm (applyRelayedCommit c conv caller msgs commit k).
Proof.
  intros Hne Hids Hk. unfold applyRelayedCommit. apply safe_get_group. intros [state|e]; [|apply Hk]. cbv zeta.
  case_match; [apply Hk|]. case_match; [apply Hk|].
  apply (confined_commit true G sound_env intact); [done | |].
  { intros hd' (m & [Hm _] & ->). rewrite Hm. apply Forall_fmap. eapply Forall_impl; [exact Hids|]. intros rm Hrm.
    split; [exact Hrm | done]. }
  intros [e|res]; [apply Hk|]. case_match; [case_match; apply Hk|].
  apply safe_for_each; [|apply Hk]. intros. by apply safe_publishLocal.
Qed.
Lemma firm_DeliverRelayed id msgs (k : _ → handler) :
  Forall (fun rm => RelayedMessage.ID rm = "" ∨ unused hd G (RelayedMessage.ID rm)) msgs →
  (∀ r, firm (k r)) → firm (DeliverRelayed c caller id msgs k).
Proof.
  intros Hids Hk. unfold DeliverRelayed. destruct (decide (id = G)) as [->|Hne].
  { apply firm_conversation; [|apply Hk]. rewrite bool_decide_false; [apply Hk|]. by apply Hs. }
  apply (confined_get_conversation true G sound_env intact); [done | | intros; apply Hk]. intros conv Hc.
  case_match; [apply Hk|]. case_match; [by apply firm_applyRelayedCommit|].
  revert Hids. generalize (Hk (Ok tt)). generalize (k (Ok tt)). clear -Hne HB.
  induction msgs as [|rm msgs IH]; intros k Hk Hids; cbn [for_each]; [done|]. apply Forall_cons in Hids as [Hrm Hids].
  specialize (IH k Hk Hids).
  apply (confined_append true G sound_env intact id); [done | done | | intros [stored|e]; [by apply safe_publishLocal | done]].
  destruct Hrm as [Hrm|Hrm]; [by left | right]. intros m [Hm _]. by rewrite Hm.
Qed.

Lemma firm_relayExcept conv msgs k : firm k → firm (relayExcept c conv caller msgs k).
Proof.
  intros Hk. unfold relayExcept. case_match; [done|]. cbv zeta. apply safe_hosts. intros hosts.
  apply safe_for_each; [|done]. intros. case_match; [done | by apply safe_tell].
Qed.

Lemma firm_SubmitMessage s (k : _ → handler) : (∀ r, firm (k r)) → firm (SubmitMessage c caller s k).
Proof.
  intros Hk. unfold SubmitMessage. cbv zeta. destruct (decide (SubmittedMessage.ConversationID s = G)) as [->|Hne].
  { apply firm_conversation; [|apply Hk]. case_match; [apply Hk|]. apply firm_isMember; [done|]. apply Hk. }
  apply safe_get_conversation. intros [conv|e]; [|apply Hk]. case_match; [apply Hk|].
  apply firm_isMember_any. intros ok. case_match; [apply Hk|]. safe_step.
  apply (confined_append true G sound_env intact (SubmittedMessage.ConversationID s)); [done | done | by left |].
  intros [stored|e]; [|apply Hk]. apply safe_publishLocal, firm_relayExcept, Hk.
Qed.
Lemma firm_SubmitCommit s (k : _ → handler) : (∀ r, firm (k r)) → firm (SubmitCommit c caller s k).
Proof.
  intros Hk. unfold SubmitCommit. cbv zeta. destruct (decide (SubmittedCommit.ConversationID s = G)) as [->|Hne].
  { apply firm_conversation; [|apply Hk]. case_match; [apply Hk|]. apply firm_isMember; [done|]. apply Hk. }
  apply safe_get_conversation. intros [conv|e]; [|apply Hk]. case_match; [apply Hk|].
  apply firm_isMember_any. intros ok. case_match; [apply Hk|]. safe_step.
  apply (confined_commit true G sound_env intact); [done | by intros ? _; apply control_messages_elsewhere |].
  intros [e|res]; [apply Hk|]. case_match; [case_match; apply Hk|].
  apply safe_for_each; [intros; by apply safe_publishLocal|]. apply firm_relayExcept, Hk.
Qed.

Lemma firm_applyReceipt s (k : _ → handler) :
  ReceiptUpdate.ConversationID s ≠ G → (∀ r, firm (k r)) → firm (applyReceipt c s k).
Proof.
  intros Hne Hk. unfold applyReceipt. apply (confined_call true G sound_env intact).
  - intros hd' m env _ Hm. by apply same_SetConversationReceipt.
  - intros m env. apply on_conv_member_conversations.
  - intros [receipt|e]; [|apply Hk]. case_match; [apply safe_publish|]; apply Hk.
Qed.
Lemma firm_SubmitReceipt s (k : _ → handler) : (∀ r, firm (k r)) → firm (SubmitReceipt c caller s k).
Proof.
  intros Hk. unfold SubmitReceipt. destruct (decide (ReceiptUpdate.ConversationID s = G)) as [->|Hne].
  { apply firm_conversation; [|apply Hk]. case_match; [apply Hk|]. apply firm_isMember; [done|]. apply Hk. }
  apply safe_get_conversation. intros [conv|e]; [|apply Hk]. case_match; [apply Hk|].
  apply firm_isMember_any. intros ok. case_match; [apply Hk|]. apply firm_applyReceipt; [done|].
  intros [[]|e]; [|apply Hk]. apply safe_relayReceipt, Hk.
Qed.
Lemma firm_DeliverReceipt s (k : _ → handler) : (∀ r, firm (k r)) → firm (DeliverReceipt c caller s k).
Proof.
  intros Hk. unfold DeliverReceipt. destruct (decide (ReceiptUpdate.ConversationID s = G)) as [->|Hne].
  { apply firm_conversation; [|apply Hk]. rewrite bool_decide_false; [apply Hk|]. by apply Hs. }
  apply safe_get_conversation. intros [conv|e]; [|apply Hk]. case_match; [apply Hk | by apply firm_applyReceipt].
Qed.

Lemma firm_nudgeCall id callID uid seq k : firm k → firm (nudgeCall c id callID uid seq k).
Proof.
  intros Hk. unfold nudgeCall. case_match; [done|]. apply safe_get_members. intros [members|e]; [|done].
  by apply safe_publish.
Qed.
Lemma firm_DeliverCallSignal s (k : _ → handler) :
  (∀ r, firm (k r)) → firm (DeliverCallSignal c (RingForCall h) caller s k).
Proof.
  intros Hk. unfold DeliverCallSignal. cbv zeta. case_match; [apply Hk|].
  apply safe_get_conversation. intros [conv|e]; [|apply Hk]. apply firm_isMember_any. intros ok. case_match; [apply Hk|].
  safe_step. case_match; [|apply Hk]. apply firm_nudgeCall. case_match; [apply safe_ringMembers|]; apply Hk.
Qed.
Lemma firm_DeliverCallNudge s (k : _ → handler) : (∀ r, firm (k r)) → firm (DeliverCallNudge c caller s k).
Proof.
  intros Hk. unfold DeliverCallNudge. apply safe_get_conversation. intros [conv|e]; [|apply Hk]. apply firm_nudgeCall, Hk.
Qed.
Lemma firm_TurnCredentials id (k : _ → handler) : (∀ r, firm (k r)) → firm (TurnCredentials c caller id k).
Proof.
  intros Hk. unfold TurnCredentials. apply safe_get_members. intros [members|e]; [|apply Hk]. case_match; [apply Hk|].
  cbv zeta. case_match; [apply Hk|]. safe_step. case_match. apply Hk.
Qed.
End Conversations.

(** *** The whole API *)

Lemma firm_fed_handler r caller body : stranger hd caller → (provisions G r (Some body) → reliable) →
  relays_anew hd G r (Some body) →
  firm (fed_handler f h r caller (read_body body)).
Proof.
  intros Hs Hp Hr. unfold fed_handler.
  destruct r; try apply safe_done; repeat (case_match; try apply safe_done; []);
    first [apply firm_channelSubscribe | apply firm_channelDelivery | apply firm_claimKeyPackages
          | unfold userExists, resolveUser, convDelete, convProvision, convRelay, convSubmitMessage, convSubmitCommit,
              convSubmitReceipt, convRelayReceipt, convCallSignal, convCallNudge, convTurn;
            apply firm_decoded; intros x Hx].
  - unfold UserExists. safe_step. apply safe_done.
  - unfold ResolveUsername. safe_step. apply safe_done.
  - apply firm_ProvisionMirror; [|intros; apply firm_served]. intros HG. apply Hp. split; [done|]. by exists body, x.
  - destruct x as [id msgs]. apply firm_DeliverRelayed; [done | by eapply Hr | intros; apply firm_served].
  - apply firm_SubmitMessage; [done | intros; apply firm_served].
  - apply firm_SubmitCommit; [done | intros; apply firm_served].
  - apply firm_SubmitReceipt; [done | intros; apply firm_served].
  - apply firm_DeliverReceipt; [done | intros; apply firm_served].
  - apply firm_DeliverCallSignal. intros; apply firm_served.
  - apply firm_DeliverCallNudge. intros; apply firm_served.
  - apply firm_TurnCredentials. intros; apply firm_served.
  - apply firm_DeleteMirror; [done | intros; apply firm_served].
Qed.

Lemma firm_verified req body (k : string → bytes → handler) :
  (∀ b, body = Some b → firm (k (Request.Get req HeaderOrigin) (read_body b))) → firm (verified f nodes req body k).
Proof.
  intros Hk. unfold verified. destruct body as [body|]; [|apply safe_done]. specialize (Hk body eq_refl). cbv zeta.
  intros w0 env0 _ Hw0. split; [exact Hw0|]. intros w1 env1 _ Hw1. split; [exact Hw1|].
  intros w env _ Hw. destruct (Federation.Verify _ _ _ _ _ _ _) as [[guard r]|] eqn:Hv; [|by split; [|apply safe_done]].
  split; [by destruct guard|]. destruct r as [v|e]; [|apply safe_done].
  apply Verify_accepts in Hv as (ts & sig & key & Ha). rewrite (acc_result _ _ _ _ _ _ _ _ _ _ _ _ Ha). exact Hk.
Qed.

Lemma firm_fed_serve r req body :
  stranger hd (Request.Get req HeaderOrigin) → (provisions G r body → reliable) → relays_anew hd G r body →
  firm (fed_serve f h nodes r req body).
Proof.
  intros Hs Hp Hr. unfold fed_serve.
  destruct r; [apply safe_done|..]; (case_match; [apply safe_done | apply firm_verified; intros b ->; by apply firm_fed_handler]).
Qed.
End Strangers.

(** ** Isolation between hosts *)

Definition fed_serve_all {B} {BS : BlobStore B} {RO : RangeOrder} {GO : GroupOrder} {U : Unicode} {E : Ed25519} {HM : Hmac}
  {PJ : PeerJson} (f : FedHandler.t) (h : Handler.t) (nodes : NodeStore.t)
  (reqs : list (fed_route * Request.t * option bytes)) : list (prog (World.t B) Env.t fed_response) :=
  (fun r => fed_serve f h nodes r.1.1 r.1.2 r.2) <$> reqs.

(** C3. A conversation is out of reach of the hosts that take no part in it:
    whatever requests come in over the host-to-host API in the name of hosts
    that neither hub the conversation nor are the home of one of its members,
    however many are served at once and whichever calls fail, the record of the
    conversation with the state of its group, its roster, its log, the records of
    its attachments and its GroupInfo stay what they were. Three things are asked: the
    ids that are drawn meanwhile, and those other hosts give to what they echo, are
    not in use in the conversation ([distinct_ids]: random ids are fresh); no
    relayed message bears an id that the conversation already uses
    ([known_id_overwrites] shows that the in-memory store does not see to
    that); and when somebody asks for a mirror under the conversation's own id,
    the store answers ([unanswered_read_overwrites]). *)
Theorem peers_confined {B} {BS : BlobStore B} {RO : RangeOrder} {GO : GroupOrder} {U : Unicode} {E : Ed25519} {HM : Hmac}
  {PJ : PeerJson} (f : FedHandler.t) (h : Handler.t) (nodes : NodeStore.t) (G : string) (conv : Conversation.t)
  (w : World.t B) (reqs : list (fed_route * Request.t * option bytes)) turns :
  let hd := held G (World.store w) in
  keyed Conversation.ID (Memory.conversations (World.store w)) →
  Memory.conversations (World.store w) !! G = Some conv →
  (∀ r req body, (r, req, body) ∈ reqs → stranger hd (Request.Get req HeaderOrigin) ∧ relays_anew hd G r body) →
  Forall (fun t => sound_env G hd (∃ r req body, (r, req, body) ∈ reqs ∧ provisions G r body) t.2) turns →
  held G (World.store (Threads.schedule w (fed_serve_all f h nodes reqs) turns).1) = hd.
Proof.
  intros hd Hk Hc Hreqs Hok. set (reliable := ∃ r req body, _) in *.
  apply (preserves_schedule (sound_env G hd reliable) (fun w => intact G hd (World.store w))); [done | by split |].
  apply Forall_fmap, Forall_forall. intros [[r req] body] Hin. destruct (Hreqs r req body Hin) as [Hs Hr].
  apply (firm_fed_serve f h nodes G hd conv Hc reliable); [done | | done]. intros Hp. by exists r, req, body.
Qed.

(** ** A host and its peers *)

(** "a.example" and "b.example" are on the node list. *)
Definition port_nodes : NodeStore.t :=
  NodeStore.mk "" (NodeList.mk 1 0 Hour
    ((fun d => Node.mk d (ed_public (Ed25519 := toy_ed25519) d) "") <$> ["a.example"; "b.example"])) true.
Definition port_federation : ConvFederation.t :=
  ConvFederation.mk true true "town.example" None None None true false ICEConfig.zero.
Definition port_handler : FedHandler.t :=
  FedHandler.mk "town.example" None false true (Some port_federation) true.

(** Bodies are called by name. *)
Definition port_spec (id hub : string) : MirrorSpec.t :=
  MirrorSpec.mk id ConversationGroup "" "" "bob" [RemoteMember.mk "ann" hub "Ann" "ann"] None.
Definition port_message (id text : string) : RelayedMessage.t :=
  RelayedMessage.zero <| RelayedMessage.ID := id |> <| RelayedMessage.SenderID := "ann" |>
    <| RelayedMessage.Ciphertext := text |>.
Definition port_json : PeerJson := {|
  body_field _ body := Some body; body_message _ := None;
  body_spec body := if body == "shared" then Some (port_spec "shared" "a.example")
                    else if body == "theirs" then Some (port_spec "g" "a.example") else None;
  body_relay body := if body == "news" then Some ("shared", [port_message "x1" "hello"])
                     else if body == "forged" then Some ("shared", [port_message "m1" "forged"]) else None;
  body_submitted _ := None; body_commit _ := None; body_receipt _ := None; body_signal _ := None; body_nudge _ := None
|}.

(** A request of [origin], signed. *)
Definition port_signed (origin nonce : string) (body : bytes) : Request.t :=
  Sign (U := ascii_only) (E := toy_ed25519) (Request.mk "POST" "/federation/v1" ∅) origin "town.example" "k1" origin body 100 nonce.
Definition port_request (r : fed_route) (origin nonce : string) (body : bytes) : fed_route * Request.t * option bytes :=
  (r, port_signed origin nonce body, Some body).
Definition port_serve : list (fed_route * Request.t * option bytes) → list (prog (World.t BlobMemory.t) Env.t fed_response) :=
  @fed_serve_all _ _ order_fwd group_order_fwd ascii_only toy_ed25519 town_hmac port_json port_handler town_handler port_nodes.

(** A host stands up a mirror, relays to it, and tries its hand at "g": to
    delete it and to stand up a mirror in its place. *)
Definition port_requests : list (fed_route * Request.t * option bytes) :=
  [port_request ConvProvision "a.example" "n1" "shared"; port_request ConvRelay "a.example" "n2" "news";
   port_request ConvDelete "a.example" "n3" "g"; port_request ConvProvision "a.example" "n4" "theirs";
   port_request ConvDelete "c.example" "n5" "g"].
Definition port_turns : list (nat * Env.t) :=
  mjoin ((fun i => replicate 10 (i, town_env (default "" (town_prefixes !! i)) Works)) <$> seq 0 5).

Definition fed_answers {W V} (ps : list (prog W V fed_response)) : list (option fed_response) := answer_of <$> ps.

Lemma port_turns_fresh i env : (i, env) ∈ port_turns → Env.backend env = Works ∧
  (∀ j, Env.fresh env j ∉ town_ids) ∧ (∀ id, Env.newBlob env = Ok id → id ∉ town_ids) ∧
  (∀ hub s echo, Env.peers env (SubmitMessageToHub hub s) = Ok echo → RelayedMessage.ID echo ∉ town_ids).
Proof.
  intros Hin. apply list_elem_of_join in Hin as (l & Hl & Hin).
  apply list_elem_of_fmap in Hin as (k & -> & Hk). apply elem_of_replicate in Hl as [[= -> ->] _].
  apply list_elem_of_In, in_seq in Hk as [_ Hk]. split; [done|].
  apply (town_turns_fresh 10 10 0). unfold town_turns. apply list_elem_of_join.
  eexists. split; [|apply list_elem_of_fmap; exists (default "" (town_prefixes !! k)); split; [reflexivity|]].
  - apply list_elem_of_fmap. exists 0%nat. split; [done|]. apply list_elem_of_In, in_seq. lia.
  - do 5 (destruct k as [|k]; [apply list_elem_of_In; cbn; tauto|]). lia.
Qed.

Lemma town_stranger host : host ≠ "" → stranger (held "g" town) host.
Proof.
  intros Hne. split.
  - intros conv. cbn. intros [= <-]. by apply not_eq_sym.
  - intros id mem [Hi Hc]%map_lookup_filter_Some. cbn in Hi. rewrite !lookup_insert_Some, lookup_singleton_Some in Hi.
    naive_solver.
Qed.

Lemma port_origin origin nonce body : Request.Get (port_signed origin nonce body) HeaderOrigin = origin.
Proof.
  destruct (Sign_headers (U := ascii_only) (E := toy_ed25519) (Request.mk "POST" "/federation/v1" ∅) origin "town.example"
    "k1" origin body 100 nonce) as (_ & _ & H & _). exact H.
Qed.
Lemma port_asks : Forall (fun q =>
  (Request.Get q.1.2 HeaderOrigin = "a.example" ∨ Request.Get q.1.2 HeaderOrigin = "c.example") ∧
  relays_anew (PJ := port_json) (held "g" town) "g" q.1.1 q.2) port_requests.
Proof.
  unfold port_requests, port_request. rewrite !Forall_cons, Forall_nil. cbn [fst snd]. rewrite !port_origin.
  split_and!; try (by left); try (by right); try exact I; intros b id msgs Hr Hs Hb; try discriminate Hr.
  injection Hs as <-. vm_compute in Hb. injection Hb as <- <-. apply Forall_singleton. right. apply town_unused. unfold town_ids.
  rewrite !not_elem_of_cons. split_and!; [discriminate..|apply not_elem_of_nil].
Qed.

Lemma peers_confined_witness :
  let s := Threads.schedule town_world (port_serve port_requests) port_turns in
  fed_answers s.2 = [Some (FedReply FDone); Some (FedReply (FDelivered 1)); Some (FedReply FDone); Some (FedReply FDone);
                     Some (FedError 401 "unauthorized")] ∧
  held "g" (World.store s.1) = held "g" town.
Proof.
  split; [vm_compute; reflexivity|].
  apply (@peers_confined _ _ order_fwd group_order_fwd ascii_only toy_ed25519 town_hmac port_json port_handler town_handler
           port_nodes "g" (town_conversation "g" ConversationGroup) town_world port_requests port_turns).
  - apply town_keyed.
  - done.
  - intros r req body Hin. pose proof (proj1 (Forall_forall _ _) port_asks _ Hin) as [Ho Hr]. split; [|exact Hr].
    cbn [fst snd] in Ho. apply town_stranger. by destruct Ho as [-> | ->].
  - apply Forall_forall. intros [i env] Hin. destruct (port_turns_fresh _ _ Hin) as (Hw & Hf & Hb & Hp).
    split; [|done]. split_and!; eauto using town_unused.
Defined.

(** A mirror's hub relays a message under an id that another conversation
    uses: the message of that conversation is gone. *)
Example known_id_overwrites :
  let s := Threads.schedule town_world
    (port_serve [port_request ConvProvision "a.example" "n1" "shared"; port_request ConvRelay "a.example" "n2" "forged"])
    (take 20 port_turns) in
  fed_answers s.2 = [Some (FedReply FDone); Some (FedReply (FDelivered 1))] ∧
  ChatMessage.ConversationID <$> (Memory.chatMessages town !! "m1") = Some "g" ∧
  ChatMessage.ConversationID <$> (Memory.chatMessages (World.store s.1) !! "m1") = Some "shared".
Proof. vm_compute. done. Qed.

(** The store does not answer whether the conversation is there, and a mirror
    is written over it: its hub is now the host that asked. *)
Example unanswered_read_overwrites :
  let turns := replicate 3 (0%nat, town_env "a" Works) ++ (0%nat, town_env "a" NotDone) :: replicate 8 (0%nat, town_env "b" Works) in
  let s := Threads.schedule town_world (port_serve [port_request ConvProvision "a.example" "n1" "theirs"]) turns in
  fed_answers s.2 = [Some (FedReply FDone)] ∧
  Conversation.HubDomain <$> (Memory.conversations (World.store s.1) !! "g") = Some "a.example".
Proof. vm_compute. done. Qed.

(** ** Requests that are not signed *)

Section Forged.
Context {B : Type} {BS : BlobStore B} {RO : RangeOrder} {GO : GroupOrder} {U : Unicode} {E : Ed25519} {HM : Hmac}
  {PJ : PeerJson}.
Context (f : FedHandler.t) (h : Handler.t) (nodes : NodeStore.t).

(** At no time does its signature, over what is read of its body, verify under
    a key that the node list has for the host it names. *)
Definition unsigned (req : Request.t) (body : option bytes) : Prop := ∀ b now key sig, body = Some b →
  NodeStore.KeyFor nodes (Request.Get req HeaderOrigin) now = Ok (Some key) →
  base64url_decode (TrimRight (Request.Get req HeaderSignature) "=") = Some sig →
  ed_verify key (signed_string req (read_body b) (FedHandler.Origin f)) sig = false.

Lemma Verify_unsigned {G} {RG : ReplayGuard G} req body destination (replay : option G) now looked clock guard r :
  (∀ key sig, NodeStore.KeyFor nodes (Request.Get req HeaderOrigin) looked = Ok (Some key) →
     base64url_decode (TrimRight (Request.Get req HeaderSignature) "=") = Some sig →
     ed_verify key (signed_string req body destination) sig = false) →
  Federation.Verify (fun domain => NodeStore.KeyFor nodes domain looked) req body now destination replay clock = Some (guard, r) →
  guard = replay ∧ ∃ e, r = Err e.
Proof.
  intros Hu. unfold Federation.Verify.
  destruct ((Request.Get req HeaderOrigin == "") || _ || _ || _ || _); [intros [= <- <-]; eauto|].
  destruct (ParseInt _) as [ts|]; [|intros [= <- <-]; eauto]. destruct (stale now ts); [intros [= <- <-]; eauto|].
  destruct (base64url_decode _) as [sig|] eqn:Hsig; [|intros [= <- <-]; eauto].
  destruct (slen sig != _); [intros [= <- <-]; eauto|]. destruct (NodeStore.KeyFor _ _ _) as [[key|]|e] eqn:Hk;
    [|cbn; intros [= <- <-]; eauto|intros [= <- <-]; eauto].
  cbn [from_option id default]. destruct (slen key != _); [intros [= <- <-]; eauto|].
  unfold ed25519_Verify. destruct (_ =? _); [|done]. unfold signed_string in Hu. rewrite (Hu key sig) by done.
  intros [= <- <-]. eauto.
Qed.

(** What may be answered to a request that nobody has signed: the route is
    public, or not there, or the body cannot be read, or it is refused. *)
Definition turned_away (r : fed_route) (body : option bytes) (answer : fed_response) : Prop :=
  match r, mounted f r, body with
  | Directory, _, _ => ∃ origin endpoints, answer = FedReply (FDirectory origin endpoints)
  | _, false, _ => answer = NotMounted
  | _, true, None => answer = FedError 400 "unreadable body"
  | _, true, Some _ => answer = FedError 401 "unauthorized"
  end.

Lemma verified_unsigned (w0 : World.t B) req body k : unsigned req body →
  Threads.yields (fun _ => True) (fun w => w = w0)
    (fun answer => match body with
                   | None => answer = FedError 400 "unreadable body"
                   | Some _ => answer = FedError 401 "unauthorized"
                   end) (verified f nodes req body k).
Proof.
  intros Hu. unfold verified. destruct body as [body|]; [|done]. cbv zeta.
  intros ? env0 _ ->. split; [done|]. intros ? env1 _ ->. split; [done|]. intros ? env _ ->. cbn.
  destruct (Verify_returns (fun domain => NodeStore.KeyFor nodes domain (Env.clock env1)) req (read_body body)
    (Env.clock env0) (FedHandler.Origin f) (if FedHandler.Replay f then Some (World.seen w0, Env.backend env) else None)
    (Env.clock env)) as [[guard a] Hv]. rewrite Hv.
  apply Verify_unsigned in Hv as [-> [e ->]]; [|intros key sig; by apply Hu].
  split; [by destruct (FedHandler.Replay f), w0 | done].
Qed.

Lemma fed_serve_unsigned (w0 : World.t B) r req body : unsigned req body →
  Threads.yields (fun _ => True) (fun w => w = w0) (turned_away r body) (fed_serve f h nodes r req body).
Proof.
  intros Hu. pose proof (verified_unsigned w0 req body (fed_handler f h r) Hu) as Hv. unfold fed_serve, turned_away.
  destruct r; [by do 2 eexists|..]; (destruct (mounted f _); [by destruct body | done]).
Qed.
End Forged.

(** C6. Without the signature of a listed host nothing happens: requests whose
    signature never verifies under the key that the node list has for the host
    they name change nothing of the server, whatever they ask and however they
    interleave (not even the memory of the nonces that have been used). Each is
    answered by a 404 where its route is not there, by a 400 where its body cannot
    be read, else by a 401; only the public directory is served. *)
Theorem unsigned_turned_away {B} {BS : BlobStore B} {RO : RangeOrder} {GO : GroupOrder} {U : Unicode} {E : Ed25519}
  {HM : Hmac} {PJ : PeerJson} (f : FedHandler.t) (h : Handler.t) (nodes : NodeStore.t) (w : World.t B)
  (reqs : list (fed_route * Request.t * option bytes)) turns :
  (∀ r req body, (r, req, body) ∈ reqs → unsigned f nodes req body) →
  let s := Threads.schedule w (fed_serve_all f h nodes reqs) turns in
  s.1 = w ∧
  ∀ i r req body answer, reqs !! i = Some (r, req, body) → s.2 !! i = Some (Done answer) → turned_away f r body answer.
Proof.
  intros Hu s.
  destruct (Threads.yields_schedule_each (fun _ => True) (fun w' => w' = w) turns w (fed_serve_all f h nodes reqs)
    ((fun q => turned_away f q.1.1 q.2) <$> reqs)) as [Hw Hps]; [by apply Forall_true | done | |].
  - apply Forall2_fmap, Forall_Forall2_diag, Forall_forall. intros [[r req] body] Hin.
    by apply fed_serve_unsigned, (Hu r).
  - split; [exact Hw|]. intros i r req body answer Hi Ha.
    assert (((fun q => turned_away f q.1.1 q.2) <$> reqs) !! i = Some (turned_away f r body)) as Ht
      by (by rewrite list_lookup_fmap, Hi).
    exact (Forall2_lookup_lr _ _ _ _ _ _ Hps Ht Ha).
Qed.

(** Requests in the name of "a.example" that "b.example" has signed, one
    that nobody has, and one that breaks off. *)
Definition port_forged (r : fed_route) (body : bytes) : fed_route * Request.t * option bytes :=
  (r, Sign (U := ascii_only) (E := toy_ed25519) (Request.mk "POST" "/federation/v1" ∅) "a.example" "town.example" "k1"
        "b.example" body 100 "n9", Some body).
Definition port_forgeries : list (fed_route * Request.t * option bytes) :=
  [port_forged ConvDelete "g"; port_forged ConvProvision "shared"; port_forged ChannelSubscribe "ch_news";
   (ConvDelete, Request.mk "POST" "/federation/v1" ∅, Some "g"); (ConvDelete, Request.mk "POST" "/federation/v1" ∅, None)].

Lemma unsigned_turned_away_witness :
  let s := Threads.schedule town_world (port_serve port_forgeries) port_turns in
  fed_answers s.2 = [Some (FedError 401 "unauthorized"); Some (FedError 401 "unauthorized"); Some NotMounted;
                     Some (FedError 401 "unauthorized"); Some (FedError 400 "unreadable body")] ∧ s.1 = town_world.
Proof.
  split; [vm_compute; reflexivity|].
  apply (@unsigned_turned_away _ _ order_fwd group_order_fwd ascii_only toy_ed25519 town_hmac port_json port_handler
           town_handler port_nodes town_world port_forgeries port_turns).
  intros r req body Hin b now key sig Hb Hk Hs.
  unfold NodeStore.KeyFor in Hk. cbn [NodeStore.loaded port_nodes negb] in Hk. case_match; [done|].
  unfold port_forgeries, port_forged in Hin. rewrite !elem_of_cons, elem_of_nil in Hin.
  destruct_or? Hin; try done; injection Hin as -> -> ->; try discriminate Hb; injection Hb as <-; vm_compute in Hk; try discriminate Hk; injection Hk as <-;
    vm_compute in Hs; injection Hs as <-; vm_compute; reflexivity.
Defined.
