(* ===== verification/IngestSafety.v ===== *)
(** * The trigger endpoint

    Who can have a notification sent, and how often: requests reach the queue
    only with a key of their channel, and once for an idempotency key. *)

From S2P Require Import Prelude.
From S2P Require Import GoStrings.
From S2P Require Import Domain.
From S2P Require Import Threads.
From S2P Require Import Crypto.
From S2P Require Import Blob.
From S2P Require Import Calls.
From S2P Require Import Federation.
From S2P Require Import StoreState.
From S2P Require Import StoreChannels.
From S2P Require Import ChannelViews.
From S2P Require Import ChatWorld.
From S2P Require Import ChatSample.
From S2P Require Import ChannelAccess.
From S2P Require Import Uploads.
From S2P Require Import ChannelContent.
From S2P Require Import ChannelFrame.
From S2P Require Import ChannelSample.
From S2P Require Import Dispatch.

(** A request: the channel's public id, the headers and the body. *)
Module Trigger.
Record t := mk { publicID : string; apiKey : string; idemKey : string; body : notify_request }.
End Trigger.

Section Ingest.
Context {B : Type} {BS : BlobStore B} {RO : RangeOrder} {U : Unicode} {IL : ImageLib}.
Context (HasBlob HasLimiter HasDedup : bool).
Abbreviation world := (World.t B).
Abbreviation handler := (prog world Env.t response).
Implicit Types (w : world) (k : handler) (t : Trigger.t) (task : NotifyTask.t).

Definition serve_trigger t : handler :=
  notify HasBlob HasLimiter HasDedup (Trigger.publicID t) (Trigger.apiKey t) (Trigger.idemKey t) (Trigger.body t).

(** ** Authority *)

(** The channel with a public id, and whether a key opens it. *)
Definition named m publicID cid : Prop := ∃ ch, ChannelByPublicID (B := B) m publicID = Ok ch ∧ Channel.ID ch = cid.
Definition opened m cid apiKey : Prop := existsb (key_opens apiKey) (APIKeysByChannel (B := B) m cid) = true.

(** Neither a channel nor a key that was not there before. *)
Definition no_more m0 m : Prop :=
  (∀ p cid, named m p cid → named m0 p cid) ∧ (∀ cid a, opened m cid a → opened m0 cid a).

Lemma no_more_refl m : no_more m m.
Proof. done. Qed.
Lemma no_more_trans m0 m1 m2 : no_more m0 m1 → no_more m1 m2 → no_more m0 m2.
Proof. intros [H1 H2] [H3 H4]. split; auto. Qed.

(** What the other parties may do: anything, but for new channels and keys, and
    for tasks. *)
Definition others w w' : Prop := no_more (World.store w) (World.store w') ∧ World.tasks w' = World.tasks w.

Section Authority.
Context (w0 : world) (reqs : list Trigger.t).

Definition asked_for task : Prop := ∃ t, t ∈ reqs ∧
  named (World.store w0) (Trigger.publicID t) (NotifyTask.ChannelID task) ∧
  opened (World.store w0) (NotifyTask.ChannelID task) (TrimSpace (Trigger.apiKey t)).
Definition in_order w : Prop :=
  no_more (World.store w0) (World.store w) ∧
  ∃ new, World.tasks w = World.tasks w0 ++ new ∧ Forall asked_for new.

Definition authority w (gs : list unit) : Prop := in_order w.
Abbreviation orderly := (Threads.keeps (W := world) (fun w (_ : unit) => in_order w) (fun _ _ w' _ => in_order w') (fun _ _ => True) tt).

Lemma orderly_act {X} (op : world → Env.t → world * X) (Q : X → Prop) (k : X → handler) :
  (∀ w env, in_order w → in_order (op w env).1 ∧ Q (op w env).2) → (∀ a, Q a → orderly (k a)) → orderly (Act op k).
Proof.
  intros Hop Hk w env w' a Hw Ho. destruct (Hop w env Hw) as [Hw' Ha]. rewrite Ho in Hw', Ha. exists tt. auto.
Qed.
Lemma orderly_store w m : in_order w → no_more (World.store w) m → in_order (w <| World.store := m |>).
Proof. intros [Hn Ht] Hm. split; [by eapply no_more_trans | exact Ht]. Qed.
Lemma orderly_read {X} (op : Memory.t B → result store_err X) (Q : X → Prop) (k : _ → handler) :
  (∀ w x, in_order w → op (World.store w) = Ok x → Q x) → (∀ x, Q x → orderly (k (Ok x))) → (∀ e, orderly (k (Err e))) →
  orderly (store_read op k).
Proof.
  intros Hop Hk He. apply (orderly_act _ (fun r => match r with Ok x => Q x | Err _ => True end)); [|intros [x|e]; auto].
  intros w env Hw. unfold faulty. cbn [fst snd]. specialize (Hop w).
  destruct (Env.backend env); (split; [by apply (orderly_store w)|]); [|done..]. destruct (op (World.store w)); cbn; auto.
Qed.
Lemma orderly_blob {X} op (k : result (failure blob_err) X → handler) : (∀ r, orderly (k r)) → orderly (blob_call op k).
Proof.
  intros Hk. apply (orderly_act _ (fun _ => True)); [|auto]. intros w env Hw. split; [|done]. unfold faulty.
  destruct (Memory.blobs (World.store w)) as [b|]; [|by destruct (Env.backend env)].
  destruct (op b env) as [b' r]. destruct (Env.backend env); [|done|]; by apply orderly_store.
Qed.

Lemma orderly_notify t : t ∈ reqs → orderly (serve_trigger t).
Proof.
  intros Ht. unfold serve_trigger, notify. case_match; [done|].
  apply (orderly_read _ (fun ch => named (World.store w0) (Trigger.publicID t) (Channel.ID ch))); [| |done].
  { intros w ch [[Hn _] _] Hch. apply Hn. by exists ch. }
  intros ch Hch.
  apply (orderly_read _ (fun keys => existsb (key_opens (TrimSpace (Trigger.apiKey t))) keys = true →
    opened (World.store w0) (Channel.ID ch) (TrimSpace (Trigger.apiKey t)))); [| |done].
  { intros w keys [[_ Ho] _] [= <-]. apply Ho. }
  intros keys Hkeys. cbn [negb]. destruct (existsb _ keys); [|done]. specialize (Hkeys eq_refl). cbn [negb].
  case_match; [done|].
  assert (∀ k : bool → handler, (∀ b, orderly (k b)) → orderly (limited HasLimiter (Channel.ID ch) k)) as Hlim.
  { intros k Hk. unfold limited. case_match; [apply Hk|]. by apply (orderly_act _ (fun _ => True)). }
  apply Hlim. intros []; [done|].
  assert (∀ key (k : bool → handler), (∀ b, orderly (k b)) → orderly (repeated HasDedup (Channel.ID ch) key k)) as Hrep.
  { intros key k Hk. unfold repeated. case_match; [|apply Hk]. apply (orderly_act _ (fun _ => True)); [|auto].
    intros w env Hw. split; [|done]. unfold faulty. destruct (Seen (World.seen w) (Env.clock env) _ _).
    by destruct (Env.backend env). }
  apply Hrep. intros []; [done|]. apply (through_decodeNotify HasBlob _ (fun _ => I) (fun X op f => orderly_blob op f)).
  intros i. case_match; [done|]. apply (orderly_act _ (fun _ => True)); [done|]. intros now _.
  apply (orderly_act _ (fun _ => True)); [|done]. intros w env [Hn (new & Hw & Hnew)]. split; [|done].
  unfold faulty. destruct (Env.backend env); (split; [done|]); [|by exists new|];
    (exists (new ++ [task_of (Channel.ID ch) i (TrimSpace (Trigger.idemKey t)) now]); cbn; rewrite Hw, app_assoc;
     split; [done|]; apply Forall_app; split; [done|]; apply Forall_singleton; by exists t).
Qed.
End Authority.

(** C8. A notification is sent only with a key of its channel: whatever reaches
    the trigger endpoint, however many requests are served at once, whatever
    calls fail, and whatever the rest of the server does meanwhile short of
    adding channels, keys or tasks (keys are revoked, channels deleted,
    messages posted), every task that has come into the queue is for the
    channel of one of the requests, and the key that this request presented is
    the channel's and not revoked. *)
Theorem trigger_needs_key (w : world) (reqs : list Trigger.t) w' ps' :
  rtc (Threads.system_step others) (w, serve_trigger <$> reqs) (w', ps') →
  ∃ new, World.tasks w' = World.tasks w ++ new ∧
    Forall (fun task => ∃ t, t ∈ reqs ∧ named (World.store w) (Trigger.publicID t) (NotifyTask.ChannelID task) ∧
              opened (World.store w) (NotifyTask.ChannelID task) (TrimSpace (Trigger.apiKey t))) new.
Proof.
  intros Hsteps.
  destruct (Threads.rely_guarantee (Env := Env.t) (R := response) (authority w reqs) (fun w' (_ : unit) => in_order w reqs w')
    (fun _ _ w' _ => in_order w reqs w') (fun _ _ => True) others) with (s := (w, serve_trigger <$> reqs)) (s' := (w', ps'))
    (gs := (fun _ => tt) <$> reqs) as (gs & [_ Htasks] & _); [done | done | | done | | | exact Htasks].
  - intros w1 gs w2 [Hn (new & Ht & Hnew)] [Hn' Ht']. split; [by eapply no_more_trans|]. exists new. by rewrite Ht'.
  - split; [apply no_more_refl|]. exists []. by rewrite app_nil_r.
  - cbn [snd]. apply Forall2_fmap, Forall_Forall2_diag, Forall_forall. intros t Ht. by apply orderly_notify.
Qed.

(** ** Idempotency keys *)

Section Once.
Context (cid key : string) (t0 : time).
Hypothesis Hkey : key ≠ "".
Hypothesis Hdedup : HasDedup = true.

Definition under_key task : Prop := NotifyTask.ChannelID task = cid ∧ NotifyTask.IdempotencyKey task = key.
#[export] Instance under_key_dec task : Decision (under_key task).
Proof. apply and_dec; apply _. Defined.

Definition seen_key : string := String.append cid (String ":" key).
(** The key is remembered to the end of the day that starts at [t0]. *)
Definition marked (seen : gmap string time) : bool :=
  match seen !! seen_key : option time with Some until => t0 + Window <=? until | None => false end.
Definition debt w : nat := length (filter under_key (World.tasks w)) + (if marked (World.seen w) then 0 else 1).

(** The calls are answered, and it is the same day. *)
Definition that_day (env : Env.t) : Prop := Env.backend env = Works ∧ t0 ≤ Env.clock env < t0 + Window.
Abbreviation pays_for := (Threads.pays (W := world) (R := response) that_day debt).

Lemma marked_true seen : marked seen = true ↔ ∃ until, seen !! seen_key = Some until ∧ t0 + Window ≤ until.
Proof.
  unfold marked. destruct (seen !! seen_key) as [until|]; [rewrite Z.leb_le|]; naive_solver.
Qed.
Lemma Seen_marked seen now other : now < t0 + Window → marked seen = true → marked (Seen seen now other Window).1 = true.
Proof.
  rewrite !marked_true. intros Hn (until & Hs & Hu). exists until. split; [|done].
  destruct (Seen seen now other Window) as [seen' dup] eqn:He. eapply Seen_keeps; [done.. | lia].
Qed.
(** The first request marks the key, the others are told. *)
Lemma Seen_first seen now : t0 ≤ now < t0 + Window → (Seen seen now seen_key Window).2 = false →
  marked seen = false ∧ marked (Seen seen now seen_key Window).1 = true.
Proof.
  destruct (Seen seen now seen_key Window) as [seen' dup] eqn:He. cbn [fst snd]. intros Hn ->. split.
  - apply not_true_iff_false. rewrite marked_true. intros (until & Hs & Hu). pose proof (Seen_dup _ _ _ _ _ _ He Hs). lia.
  - apply marked_true. eexists. split; [by eapply Seen_marks | lia].
Qed.

Lemma pays_quiet {X} g (op : world → Env.t → world * X) (k : X → handler) :
  (∀ w env, that_day env → World.tasks (op w env).1 = World.tasks w ∧ World.seen (op w env).1 = World.seen w) →
  (∀ a, pays_for g (k a)) → pays_for g (Act op k).
Proof.
  intros Hop Hk w env Henv. exists g. split; [|apply Hk]. destruct (Hop w env Henv) as [Ht Hs]. unfold debt. rewrite Ht, Hs. lia.
Qed.
Lemma pays_read {X} g (op : Memory.t B → result store_err X) (k : _ → handler) :
  (∀ r, pays_for g (k r)) → pays_for g (store_read op k).
Proof. intros Hk. apply pays_quiet; [|done]. intros w env [Hw _]. unfold faulty. by rewrite Hw. Qed.
Lemma pays_blob {X} g op (k : result (failure blob_err) X → handler) :
  (∀ r, pays_for g (k r)) → pays_for g (blob_call op k).
Proof.
  intros Hk. apply pays_quiet; [|done]. intros w env [Hw _]. unfold faulty. rewrite Hw.
  destruct (Memory.blobs (World.store w)) as [b|]; [|done]. by destruct (op b env).
Qed.

(** One that holds an allowance, or whose task is another. *)
Lemma pays_enqueue g i now ch idemKey : (under_key (task_of ch i idemKey now) → g = 1%nat) →
  ∀ k : _ → handler, (∀ r, pays_for 0 (k r)) → pays_for g (enqueue (task_of ch i idemKey now) k).
Proof.
  intros Hg k Hk w env [Hw _]. exists 0%nat. split; [|apply Hk]. unfold faulty. rewrite Hw. unfold debt. cbn.
  rewrite filter_app, length_app. cbn. case_decide as Hu; cbn; [rewrite (Hg Hu)|]; lia.
Qed.
Lemma under_key_task ch i idemKey now : under_key (task_of ch i idemKey now) ↔ ch = cid ∧ idemKey = key.
Proof. done. Qed.

Lemma pays_repeated ch idemKey (k : bool → handler) :
  pays_for 0 (k true) → (∀ g, (ch = cid ∧ idemKey = key → g = 1%nat) → pays_for g (k false)) →
  pays_for 0 (repeated HasDedup ch idemKey k).
Proof.
  intros Hk Hgo. unfold repeated. rewrite Hdedup, andb_true_r.
  destruct (idemKey != "") eqn:Hi; [|apply Hgo; intros [_ ->]; by rewrite bool_decide_false in Hi].
  intros w env [Hw Hc]. unfold faulty. rewrite Hw.
  destruct (Seen (World.seen w) (Env.clock env) _ Window) as [seen dup] eqn:Hs. cbn [fst snd lift default].
  assert (marked (World.seen w) = true → marked seen = true) as Hm.
  { intros Hm. apply (Seen_marked _ (Env.clock env) (String.append ch (String ":" idemKey))) in Hm; [|lia]. by rewrite Hs in Hm. }
  destruct (decide (ch = cid ∧ idemKey = key)) as [[-> ->]|Hne].
  - destruct dup.
    + exists 0%nat. split; [|done]. unfold debt. cbn. destruct (marked (World.seen w)); [rewrite Hm by done; lia|].
      destruct (marked seen); lia.
    + destruct (Seen_first (World.seen w) (Env.clock env)) as [H1 H2]; [done | fold seen_key in Hs; by rewrite Hs|].
      fold seen_key in Hs. rewrite Hs in H2. cbn in H2. exists 1%nat. split; [|by apply Hgo]. unfold debt. cbn. rewrite H1, H2. lia.
  - exists 0%nat. split; [|destruct dup; [done | by apply Hgo]]. unfold debt. cbn.
    destruct (marked (World.seen w)); [rewrite Hm by done; lia|]. destruct (marked seen); lia.
Qed.

Lemma pays_notify t : pays_for 0 (serve_trigger t).
Proof.
  unfold serve_trigger, notify. case_match; [done|]. apply pays_read. intros [ch|e]; [|done].
  apply pays_read. intros [keys|e]; [|done]. case_match; [done|]. case_match; [done|].
  assert (∀ k : bool → handler, (∀ b, pays_for 0 (k b)) → pays_for 0 (limited HasLimiter (Channel.ID ch) k)) as Hlim.
  { intros k Hk. unfold limited. case_match; [apply Hk|]. by apply pays_quiet. }
  apply Hlim. intros []; [done|].
  assert (∀ g, (Channel.ID ch = cid ∧ TrimSpace (Trigger.idemKey t) = key → g = 1%nat) → pays_for g
    (do! i := decodeNotify HasBlob (Trigger.body t) in
     if (TrimSpace (notifyInput.Title i) == "") && (TrimSpace (notifyInput.Body i) == "")
        && (length (notifyInput.Images i) =? 0)%nat
     then Done (Error 400 "title, body or an image is required")
     else
       do! now := time_now in
       do! r := enqueue (task_of (Channel.ID ch) i (TrimSpace (Trigger.idemKey t)) now) in
       Done (match r with
             | Err _ => Error 503 "could not enqueue notification"
             | Ok _ => reply 202 (BStatus "accepted")
             end))) as Hgo.
  { intros g Hg. apply (through_decodeNotify HasBlob (pays_for g) (fun _ => I) (fun X op f => pays_blob g op f)).
    intros i. case_match; [done|]. apply pays_quiet; [done|]. intros now. by apply pays_enqueue. }
  apply pays_repeated; [done | exact Hgo].
Qed.
End Once.

(** C10. A publisher's retries make one notification: over any interleaving of
    requests at the trigger endpoint that are served within the window of the
    idempotency store, whose calls are answered, the queue gains at most one
    task for a channel and a non-empty idempotency key, and none if the key is
    remembered from before. *)
Theorem trigger_once (cid key : string) (t0 : time) (w : world) (reqs : list Trigger.t) turns :
  key ≠ "" → HasDedup = true → Forall (fun turn => that_day t0 turn.2) turns →
  let new := filter (under_key cid key) (World.tasks (Threads.schedule w (serve_trigger <$> reqs) turns).1) in
  (length new ≤ length (filter (under_key cid key) (World.tasks w)) + (if marked cid key t0 (World.seen w) then 0 else 1))%nat.
Proof.
  intros Hkey Hd Hok new.
  assert (Forall2 (Threads.pays (that_day t0) (debt cid key t0)) ((fun _ => 0%nat) <$> reqs) (serve_trigger <$> reqs)) as Hpays.
  { apply Forall2_fmap, Forall_Forall2_diag, Forall_true. intros t. by apply pays_notify. }
  pose proof (Threads.pays_schedule (that_day t0) (debt cid key t0) turns w _ _ Hok Hpays) as Hle.
  assert (sum_list ((fun _ => 0%nat) <$> reqs) = 0%nat) as Hz by (clear; induction reqs; done).
  rewrite Hz in Hle. unfold debt in Hle. subst new. lia.
Qed.
End Ingest.

(** ** At a small host *)

Definition square_trigger : Trigger.t → prog (World.t BlobMemory.t) Env.t response :=
  @serve_trigger _ _ order_fwd ascii_only square_images true true true.
Definition json (title : string) : notify_request := NotifyJSON (Decoded (notifyJSON.mk title "" ∅ None)).

(** A retry, an unknown key, and another notification. *)
Definition square_triggers : list Trigger.t :=
  [Trigger.mk "ch_news" "phm_k" "day1" (json "one"); Trigger.mk "ch_news" "phm_k" "day1" (json "one");
   Trigger.mk "ch_news" "phm_x" "day1" (json "one"); Trigger.mk "ch_news" " phm_k" "day2" (json "two")].
Definition square_trigger_turns : list (nat * Env.t) := town_turns 4 8.
Definition square_triggered : World.t BlobMemory.t * list (prog (World.t BlobMemory.t) Env.t response) :=
  Threads.schedule square_world (square_trigger <$> square_triggers) square_trigger_turns.

Lemma town_turns_that_day k n : Forall (fun turn => that_day 100 turn.2) (town_turns k n).
Proof.
  apply Forall_forall. intros [i env] Hin. apply list_elem_of_join in Hin as (l & Hl & Hin).
  apply list_elem_of_fmap in Hin as (p & -> & Hp). apply list_elem_of_fmap in Hl as (i' & [= -> ->] & _).
  by vm_compute.
Qed.

Lemma trigger_needs_key_witness :
  statuses square_triggered.2 = [Some 202; Some 202; Some 401; Some 202] ∧
  ∃ new, World.tasks square_triggered.1 = [] ++ new ∧
    Forall (fun task => ∃ t, t ∈ square_triggers ∧ named (RO := order_fwd) square (Trigger.publicID t) (NotifyTask.ChannelID task) ∧
              opened (RO := order_fwd) (U := ascii_only) square (NotifyTask.ChannelID task) (TrimSpace (U := ascii_only) (Trigger.apiKey t))) new.
Proof.
  split; [vm_compute; reflexivity|].
  apply (@trigger_needs_key _ _ order_fwd ascii_only square_images true true true square_world square_triggers
           square_triggered.1 square_triggered.2).
  rewrite <- surjective_pairing. apply Threads.schedule_steps.
Defined.

Lemma trigger_once_witness :
  (length (World.tasks square_triggered.1) = 2)%nat ∧
  (length (filter (under_key "news" "day1") (World.tasks square_triggered.1)) ≤ 1)%nat.
Proof.
  split; [vm_compute; reflexivity|].
  apply (@trigger_once _ _ order_fwd ascii_only square_images true true true "news" "day1" 100 square_world square_triggers
           square_trigger_turns).
  - discriminate.
  - reflexivity.
  - apply town_turns_that_day.
Defined.

(** The key is remembered before the task is queued: when the queue refuses the
    task, the retry is told that it was accepted, and nothing is sent. *)
Example refused_then_accepted :
  let r := Trigger.mk "ch_news" "phm_k" "day1" (json "one") in
  let s := Threads.schedule square_world (square_trigger <$> [r; r])
    (replicate 5 (0%nat, town_env "a" Works) ++ [(0%nat, town_env "a" NotDone)] ++ replicate 8 (1%nat, town_env "b" Works)) in
  statuses s.2 = [Some 503; Some 202] ∧ World.tasks s.1 = [].
Proof. vm_compute. done. Qed.
