(* ===== verification/StreamPrivacy.v ===== *)
(** * Who is shown what on the live stream

    A stream shows its user only what is theirs at the moment it is written,
    and stops when the token is no longer honoured. *)

From S2P Require Import Prelude.
From S2P Require Import GoStrings.
From S2P Require Import Domain.
From S2P Require Import Threads.
From S2P Require Import Crypto.
From S2P Require Import Blob.
From S2P Require Import Auth.
From S2P Require Import Tokens.
From S2P Require Import AuthHandler.
From S2P Require Import StoreState.
From S2P Require Import StoreUsers.
From S2P Require Import StoreChannels.
From S2P Require Import StoreConversations.
From S2P Require Import Live.
From S2P Require Import Peers.
From S2P Require Import ChannelViews.
From S2P Require Import ChatWorld.
From S2P Require Import ChatSample.
From S2P Require Import ChannelAccess.
From S2P Require Import ChannelSample.
From S2P Require Import ChannelServe.

Section Privacy.
Context {B : Type} {RO : RangeOrder} {U : Unicode} {E : Ed25519} {J : Jwt}.
Context (tokens : TokenManager.t).
Abbreviation world := (World.t B).
Abbreviation handler := (prog world Env.t (option (list stream_line))).
Implicit Types (w : world) (e : Event.t) (uid : string) (m : Memory.t B).

(** An event that is not the user's: they are not among its recipients, or not
    in its conversation, or neither own its channel nor are an active member. *)
Definition barred uid e m : Prop :=
  if decide (Event.ConversationID e = "") then
    (∀ ch, Memory.channels m !! Event.ChannelID e = Some ch →
       Channel.ID ch = Event.ChannelID e ∧ Channel.OwnerID ch ≠ uid) ∧
    (∀ id mem, Memory.members m !! id = Some mem → ChannelMember.ChannelID mem = Event.ChannelID e →
       ChannelMember.UserID mem = uid → ChannelMember.Status mem ≠ MemberActive)
  else
    match Event.Recipients e with
    | [] => ∀ id mem, Memory.convMembers m !! id = Some mem → ConversationMember.ConversationID mem = Event.ConversationID e →
              ConversationMember.UserID mem ≠ uid
    | recipients => uid ∉ recipients
    end.

(** What the rest of the server may do: anything that does not make one of the
    [secrets] the user's. *)
Definition keeps_secrets uid (secrets : list Event.t) w w' : Prop :=
  ∀ e, e ∈ secrets → barred uid e (World.store w) → barred uid e (World.store w').

Section Stream.
Context (uid : string) (secrets : list Event.t) (wakes : list stream_wake).
Hypothesis Haddressed : ∀ e, e ∈ secrets → Event.ConversationID e ≠ "" → Event.Recipients e ≠ [] → uid ∉ Event.Recipients e.
Definition still_barred w : Prop := ∀ e, e ∈ secrets → barred uid e (World.store w).

(** What a line may show. *)
Definition shown (seen : list stream_wake) (line : stream_line) : Prop :=
  match line with
  | Comment_ => True
  | Data e' => ∃ e, Arrives e ∈ seen ∧ (e ∉ secrets) ∧ e' = (e <| Event.Recipients := [] |>)
  end.
Definition shown_only (out : option (list stream_line)) : Prop := ∀ lines, out = Some lines → Forall (shown wakes) lines.

Abbreviation discreet := (Threads.keeps (W := world) (fun w (_ : unit) => still_barred w)
  (fun _ _ w' _ => still_barred w') (fun _ => shown_only) tt).

Lemma discreet_act {X} (op : world → Env.t → world * X) (Q : X → Prop) (k : X → handler) :
  (∀ w env, still_barred w → World.store (op w env).1 = World.store w ∧ Q (op w env).2) →
  (∀ a, Q a → discreet (k a)) → discreet (Act op k).
Proof.
  intros Hop Hk w env w' a Hw Ho. destruct (Hop w env Hw) as [Hw' Ha]. rewrite Ho in Hw', Ha. exists tt.
  split; [|by apply Hk]. intros e He. cbn in Hw'. rewrite Hw'. by apply Hw.
Qed.
Lemma discreet_read {X} (op : Memory.t B → result store_err X) (Q : X → Prop) (k : result (failure store_err) X → handler) :
  (∀ w x, still_barred w → op (World.store w) = Ok x → Q x) → (∀ x, Q x → discreet (k (Ok x))) →
  (∀ err, discreet (k (Err err))) → discreet (store_read op k).
Proof.
  intros Hop Hk He. apply (discreet_act _ (fun r => match r with Ok x => Q x | Err _ => True end)); [|intros [x|e]; auto].
  intros w env Hw. unfold faulty. cbn [fst snd]. specialize (Hop w).
  destruct (Env.backend env); (split; [done|]); [|done..]. destruct (op (World.store w)); cbn; auto.
Qed.
Lemma discreet_any {X} (op : Memory.t B → result store_err X) (k : result (failure store_err) X → handler) :
  (∀ r, discreet (k r)) → discreet (store_read op k).
Proof. intros Hk. by apply (discreet_read _ (fun _ => True)). Qed.

Lemma discreet_authorize claims (k : option string → handler) : (∀ r, discreet (k r)) → discreet (authorize claims k).
Proof.
  intros Hk. unfold authorize, denied. apply (discreet_act _ (fun _ => True)).
  { intros w env Hw. split; [|done]. destruct (TokenManager.Revoked _ _ _) as [[r|] b]; done. }
  intros b _. case_match; [apply Hk|]. apply discreet_any. intros r. apply Hk.
Qed.

(** A secret is none of the user's. *)
Lemma discreet_for_user e (k : bool → handler) : discreet (k false) → (e ∉ secrets → discreet (k true)) →
  discreet (for_user uid e k).
Proof.
  intros Hf Ht. unfold for_user.
  assert (∀ b, (e ∈ secrets → b = false) → discreet (k b)) as Hk.
  { intros [] Hb; [|exact Hf]. apply Ht. intros He. by specialize (Hb He). }
  case_bool_decide as Hc; cbn [negb].
  - unfold canReadChannel, channelByID.
    apply (discreet_read _ (fun ch => e ∈ secrets → Channel.ID ch = Event.ChannelID e ∧ Channel.OwnerID ch ≠ uid)).
    { intros w ch Hw Hch He. specialize (Hw e He). unfold barred in Hw. rewrite decide_True in Hw by done.
      unfold ChannelByID in Hch. destruct (_ !! _) as [ch'|] eqn:Hl; [|done]. injection Hch as ->.
      by apply Hw. }
    2:{ intros err. exact Hf. }
    intros ch Hch. unfold relationFor. case_bool_decide as Ho.
    + apply Hk. intros He. destruct (Hch He) as [_ Hne]. by destruct Hne.
    + apply (discreet_read _ (fun mem => e ∈ secrets → ChannelMember.Status mem ≠ MemberActive));
        [|intros mem Hmem; apply Hk; intros He; by rewrite bool_decide_false by auto | intros err; exact Hf].
      intros w mem Hw Hm He. destruct (Hch He) as [Hid _]. specialize (Hw e He). unfold barred in Hw.
      rewrite decide_True in Hw by done. unfold MembershipForUser in Hm.
      destruct (range_find _ _) as [[i mem']|] eqn:Hr; [|done]. injection Hm as ->.
      apply range_find_Some in Hr as [Hi [Hc' Hu]%is_member_true]. rewrite Hid in Hc'.
      by apply (proj2 Hw i mem).
  - destruct (Event.Recipients e) as [|r rs] eqn:Hrs.
    + apply (discreet_read _ (fun _ => e ∉ secrets)); [|intros mem He; auto | intros err; exact Hf].
      intros w mem Hw Hm He. specialize (Hw e He). unfold barred in Hw. rewrite decide_False, Hrs in Hw by done.
      unfold ConversationMembership in Hm. destruct (range_find _ _) as [[i mem']|] eqn:Hr; [|done].
      apply range_find_Some in Hr as [Hi [Hc' Hu]%is_conv_member_true]. by apply (Hw i mem').
    + apply Hk. intros He. apply bool_decide_eq_false. rewrite <- Hrs. apply Haddressed; [done..|]. by rewrite Hrs.
Qed.

(** The loop over what is still to come, of a token of the user. *)
Lemma discreet_loop claims todo out : Claims.Subject claims = uid →
  (∀ wake, wake ∈ todo → wake ∈ wakes) → Forall (shown wakes) out →
  discreet (stream_loop claims todo out (fun out => Done (Some out))).
Proof.
  intros Hu. revert out. induction todo as [|wake todo IH]; intros out Hin Hout; cbn [stream_loop].
  { by intros lines [= <-]. }
  assert (∀ x, x ∈ todo → x ∈ wakes) as Htodo by (intros x Hx; apply Hin; by right).
  assert (discreet (Done (Some out) : handler)) as Hover by (by intros lines [= <-]).
  destruct wake as [|e|]; [| |exact Hover].
  - apply discreet_authorize. intros [role|]; [|exact Hover]. apply IH; [done|].
    apply Forall_app. split; [done | by apply Forall_singleton].
  - apply discreet_authorize. intros [role|]; [|exact Hover]. rewrite Hu.
    apply discreet_for_user; [by apply IH|]. intros He. apply IH; [done|]. apply Forall_app. split; [done|].
    apply Forall_singleton. exists e. split_and!; [apply Hin; by left | done | done].
Qed.

Lemma discreet_stream token :
  (∀ now claims, TokenManager.ParseClaims tokens token AccessToken now = Ok claims → Claims.Subject claims = uid) →
  discreet (stream tokens token wakes Done).
Proof.
  intros Hu. unfold stream, parse_claims. apply (discreet_act _ (fun _ => True)); [done|]. intros now _.
  destruct (TokenManager.ParseClaims tokens token AccessToken now) as [claims|err] eqn:Hc; [|by intros lines].
  apply discreet_authorize. intros [role|]; [|by intros lines]. apply discreet_loop; [by eapply Hu | done|].
  by apply Forall_singleton.
Qed.
End Stream.

(** C9. A stream shows nobody what is not theirs: whatever arrives on the bus,
    while the rest of the server does anything that does not make one of the
    [secrets] the user's (they are not in its conversation, or not among the
    people it is addressed to, or neither own its channel nor are an active
    member of it, over every interleaving with the checks of the stream), what
    is written is only heartbeats and other events that arrived, each without
    the list of the people it is addressed to. *)
Theorem stream_private (uid token : string) (secrets : list Event.t) (wakes : list stream_wake)
  (w w' : world) lines :
  (∀ now claims, TokenManager.ParseClaims tokens token AccessToken now = Ok claims → Claims.Subject claims = uid) →
  (∀ e, e ∈ secrets → barred uid e (World.store w)) →
  rtc (Threads.system_step (keeps_secrets uid secrets)) (w, [stream tokens token wakes Done]) (w', [Done (Some lines)]) →
  Forall (shown secrets wakes) lines.
Proof.
  intros Htok Hsec Hsteps.
  destruct (Threads.rely_guarantee (Env := Env.t) (R := option (list stream_line)) (fun w (_ : list unit) => still_barred uid secrets w)
    (fun w' (_ : unit) => still_barred uid secrets w') (fun _ _ w' _ => still_barred uid secrets w')
    (fun _ => shown_only secrets wakes) (keeps_secrets uid secrets)) with (s := (w, [stream tokens token wakes Done : handler]))
    (s' := (w', [Done (Some lines) : handler])) (gs := [tt]) as (gs & _ & Hps); [done | done | | done | exact Hsec | | ].
  - intros w1 gs w2 Hw Hr e He. apply Hr; [done | by apply Hw].
  - constructor; [|constructor]. apply discreet_stream; [|exact Htok]. intros e He Hc Hr. specialize (Hsec e He).
    unfold barred in Hsec. rewrite decide_False in Hsec by done. by destruct (Event.Recipients e).
  - cbn [snd] in Hps. apply Forall2_cons_inv_r in Hps as (g & gs' & Hpost & _ & _). by apply Hpost.
Qed.
End Privacy.

(** ** At a small host *)

Definition of_conversation (id : string) (recipients : list string) : Event.t :=
  Event.zero <| Event.ConversationID := id |> <| Event.Recipients := recipients |>.
Definition of_channel (id : string) : Event.t := Event.zero <| Event.ChannelID := id |>.
Definition porch_secrets : list Event.t := [of_conversation "g" []; of_channel "news"; of_conversation "g" ["alice"; "bob"]].
Definition porch_wakes : list stream_wake :=
  [Arrives (of_conversation "g" []); Arrives (of_conversation "d" []); Beat; Arrives (of_channel "news");
   Arrives (of_conversation "g" ["alice"; "bob"]); Arrives (of_conversation "e" ["uid"]); Over].
Definition porch_stream : prog (World.t BlobMemory.t) Env.t (option (list stream_line)) :=
  stream (RO := order_fwd) (E := toy_ed25519) (J := sample_jwt) sample_manager "access" porch_wakes Done.
Definition porch_lines : list stream_line :=
  [Comment_; Data (of_conversation "d" []); Comment_; Data (of_conversation "e" [])].

Lemma porch_barred : Forall (fun e => barred "uid" e porch) porch_secrets.
Proof.
  unfold porch_secrets. rewrite !Forall_cons, Forall_nil. split_and!; [| | |done].
  - change (∀ id mem, Memory.convMembers porch !! id = Some mem → ConversationMember.ConversationID mem = "g" →
              ConversationMember.UserID mem ≠ "uid").
    intros id mem Hi. cbn in Hi. rewrite !lookup_insert_Some, lookup_singleton_Some in Hi. naive_solver.
  - split.
    + intros ch Hc. cbn in Hc. apply lookup_singleton_Some in Hc as [_ <-]. done.
    + intros id mem Hi. cbn in Hi. apply lookup_singleton_Some in Hi as [_ <-]. done.
  - change ("uid" ∉ ["alice"; "bob"]). rewrite !not_elem_of_cons. split_and!; [discriminate..|apply not_elem_of_nil].
Qed.

Lemma stream_private_witness :
  let s := Threads.schedule porch_world [porch_stream] (replicate 30 (0%nat, porch_env)) in
  s.2 = [Done (Some porch_lines)] ∧ Forall (shown porch_secrets porch_wakes) porch_lines.
Proof.
  intros s. assert (s.2 = [Done (Some porch_lines)]) as Hs by (vm_compute; reflexivity). split; [exact Hs|].
  apply (stream_private (RO := order_fwd) (E := toy_ed25519) (J := sample_jwt) sample_manager "uid" "access" porch_secrets
           porch_wakes porch_world s.1).
  - apply porch_tokens.
  - intros e He. exact (proj1 (Forall_forall _ _) porch_barred e He).
  - rewrite <- Hs, <- surjective_pairing. apply Threads.schedule_steps.
Defined.
