(* ===== verification/Standing.v ===== *)
(** * Who may do what on the server

    Nobody but an administrator changes what an account may do: over the whole
    app API, behind its tokens. *)

From S2P Require Import Prelude.
From S2P Require Import GoStrings.
From S2P Require Import Domain.
From S2P Require Import Threads.
From S2P Require Import Crypto.
From S2P Require Import Password.
From S2P Require Import Blob.
From S2P Require Import Auth.
From S2P Require Import Tokens.
From S2P Require Import AuthHandler.
From S2P Require Import Registration.
From S2P Require Import Ident.
From S2P Require Import StoreState.
From S2P Require Import ChatServe.
From S2P Require Import ChatBystander.
From S2P Require Import StoreUsers.
From S2P Require Import StoreChannels.
From S2P Require Import StoreInvites.
From S2P Require Import StoreDevices.
From S2P Require Import StoreMessages.
From S2P Require Import Peers.
From S2P Require Import ChannelViews.
From S2P Require Import ChatWorld.
From S2P Require Import ChatFrame.
From S2P Require Import ChatQuiet.
From S2P Require Import ChatSample.
From S2P Require Import ChannelAccess.
From S2P Require Import ChannelMembers.
From S2P Require Import Uploads.
From S2P Require Import ChannelContent.
From S2P Require Import ChannelProfile.
From S2P Require Import ChannelAdmin.
From S2P Require Import ChannelFrame.
From S2P Require Import ChannelServe.
From S2P Require Import ChannelSample.
From S2P Require Import ChannelAuthority.

(** ** What an account may do *)

(** The role, whether it is blocked, and what opens it. *)
Module Credentials.
Record t := mk { Role : string; Status : string; Email : string; PasswordHash : string }.
Definition of_user (u : User.t) : t := mk (User.Role u) (User.Status u) (User.Email u) (User.PasswordHash u).
End Credentials.

Definition standing {B} (m : Memory.t B) : gmap string Credentials.t := Credentials.of_user <$> Memory.users m.

Section Store.
Context {B : Type} {BS : BlobStore B} {RO : RangeOrder} {U : Unicode}.
Implicit Types (m : Memory.t B).

(** Calls that do not touch the accounts. *)
Lemma UpdateChannel_users m id name mode : Memory.users (UpdateChannel m id name mode).1 = Memory.users m.
Proof. unfold UpdateChannel. by repeat case_match. Qed.
Lemma SetChannelAlias_users m id alias : Memory.users (SetChannelAlias m id alias).1 = Memory.users m.
Proof. unfold SetChannelAlias. by repeat case_match. Qed.
Lemma SetChannelAvatar_users m id avatar : Memory.users (SetChannelAvatar m id avatar).1 = Memory.users m.
Proof. unfold SetChannelAvatar. cbv zeta. case_match; [|done]. cbn [fst]. by case_match. Qed.
Lemma DeleteChannel_users m id : Memory.users (DeleteChannel m id).1 = Memory.users m.
Proof. unfold DeleteChannel. by case_match. Qed.
Lemma RevokeAPIKey_users m now id : Memory.users (RevokeAPIKey m now id).1 = Memory.users m.
Proof. unfold RevokeAPIKey. by repeat case_match. Qed.
Lemma DeleteMessage_users m id : Memory.users (DeleteMessage m id).1 = Memory.users m.
Proof. unfold DeleteMessage. by case_match. Qed.
Lemma UpsertMember_users m nid mem : Memory.users (UpsertMember m nid mem).1 = Memory.users m.
Proof. unfold UpsertMember. case_match; [by case_match | done]. Qed.
Lemma on_member_users m id uid f : Memory.users (on_member m id uid f).1 = Memory.users m.
Proof. unfold on_member. case_match; [by case_match | done]. Qed.
Lemma Subscribe_users m nid s : Memory.users (Subscribe m nid s).1 = Memory.users m.
Proof. unfold Subscribe. by repeat case_match. Qed.
Lemma Unsubscribe_users m cid did : Memory.users (Unsubscribe m cid did).1 = Memory.users m.
Proof. unfold Unsubscribe. by repeat case_match. Qed.
Lemma CreateDevice_users m nid d : Memory.users (CreateDevice m nid d).1 = Memory.users m.
Proof. unfold CreateDevice. by repeat case_match. Qed.
Lemma DeleteComment_users m id : Memory.users (DeleteComment m id).1 = Memory.users m.
Proof. unfold DeleteComment. by case_match. Qed.

(** Calls that change how a user is shown. *)
Lemma standing_shown m uid u u' : Memory.users m !! uid = Some u → Credentials.of_user u' = Credentials.of_user u →
  standing (m <| Memory.users := <[uid := u']> (Memory.users m) |>) = standing m.
Proof.
  intros Hu Hc. unfold standing. cbn. rewrite fmap_insert, Hc. apply insert_id. by rewrite lookup_fmap, Hu.
Qed.
Lemma apply_profile_credentials u p : Credentials.of_user (apply_profile u p) = Credentials.of_user u.
Proof. unfold apply_profile. by repeat case_match. Qed.
Lemma UpdateUserProfile_standing m uid p : standing (UpdateUserProfile m uid p).1 = standing m.
Proof.
  unfold UpdateUserProfile. destruct (Memory.users m !! uid) as [u|] eqn:Hu; [|done].
  destruct (UserProfileUpdate.Username p) as [name|]; cbv zeta.
  - destruct (_ && _); [done|]. cbn [fst]. apply (standing_shown m uid u); [done|]. by rewrite apply_profile_credentials.
  - cbn [fst]. apply (standing_shown m uid u); [done|]. apply apply_profile_credentials.
Qed.
Lemma SetUserAvatar_standing m uid avatar : standing (SetUserAvatar m uid avatar).1 = standing m.
Proof.
  unfold SetUserAvatar. destruct (Memory.users m !! uid) as [u|] eqn:Hu; [|done]. cbv zeta. cbn [fst].
  set (u' := u <| User.AvatarID := avatar |>). pose proof (standing_shown m uid u u' Hu eq_refl) as Hs.
  rewrite <- Hs. by destruct (_ && _).
Qed.
End Store.

Create Rewrite HintDb users.
#[local] Hint Rewrite @UpdateChannel_users @SetChannelAlias_users @SetChannelAvatar_users @DeleteChannel_users
  @RevokeAPIKey_users @DeleteMessage_users @UpsertMember_users @on_member_users @Subscribe_users @Unsubscribe_users
  @CreateDevice_users @DeleteComment_users : users.

(** ** The API in the hands of the others *)

Section Handlers.
Context {B : Type} {BS : BlobStore B} {RO : RangeOrder} {U : Unicode} {RC : RuneClasses} {NU : NetUrl} {NM : NetMail}
  {A : Argon2} {E : Ed25519} {J : Jwt} {HM : ConvFed.Hmac} {IL : ImageLib} {TT : TimeText}.
Context (h : AppHandler.t) (st : gmap string Credentials.t).
Abbreviation handler := (prog (World.t B) Env.t response).
Definition has_standing (m : Memory.t B) : Prop := standing m = st.
Abbreviation steady := (safe (B := B) (R := response) (fun _ => True) has_standing).
Implicit Types (c : Caller.t) (id uid : string) (k : handler).

#[local] Lemma steady_blobs : blind_to_blobs (B := B) has_standing.
Proof. intros m b Hm. exact Hm. Qed.
Let HB : blind_to_blobs (B := B) has_standing := steady_blobs.

Lemma steady_call {X} (op : Memory.t B → Env.t → memory_op B X) (k : _ → handler) :
  (∀ m env, standing (op m env).1 = standing m) → (∀ r, steady (k r)) → steady (store_call op k).
Proof. intros Hop. apply safe_store_call. intros m env _ Hm. unfold has_standing in *. by rewrite Hop. Qed.

Ltac steady_op :=
  first [reflexivity | apply UpdateUserProfile_standing | apply SetUserAvatar_standing
    | unfold standing, UpdateMemberStatus, UpdateMemberRole, RemoveMember; autorewrite with users; reflexivity].
Ltac steady_step :=
  lazymatch goal with
  | |- safe _ _ (requireUser _ _) => apply safe_requireUser; intros ?
  | |- safe _ _ (ownsChannel _ _ _) => unfold ownsChannel
  | |- safe _ _ (canAdminister _ _ _) => unfold canAdminister
  | |- safe _ _ (messageInChannel _ _ _) => unfold messageInChannel
  | |- safe _ _ (join _ _ _ _) => unfold join
  | |- safe _ _ (mirror_of _ _ _ _ _) => unfold mirror_of
  | |- safe _ _ (store_call _ _) => apply steady_call; [intros ? ?; steady_op | intros ?]
  | |- _ => channel_step
  end.

(** *** The routes *)

Lemma steady_in_channel c id r : steady (serve_in_channel h c id r).
Proof.
  destruct r; cbn [serve_in_channel];
    [unfold getChannel | unfold updateChannel | unfold deleteChannel | unfold deleteMessage | unfold uploadChannelAvatar
    | unfold deleteChannelAvatar | unfold createKey | unfold listKeys | unfold revokeKey
    | unfold notifyChannel | unfold subscribe | unfold unsubscribe | unfold subscriptionStatus | unfold membership
    | unfold leaveChannel | unfold listApprovals | unfold approveMember | unfold denyMember | unfold listMembers
    | unfold updateMember | unfold removeMember | unfold listMessages | unfold getMessage | unfold listComments
    | unfold postComment | unfold deleteComment]; repeat steady_step.
Qed.
Lemma steady_serve_channel c r : steady (serve_channel h c r).
Proof.
  destruct r; cbn [serve_channel]; [apply steady_in_channel | unfold meta | unfold me | unfold updateProfile
    | unfold uploadAvatar | unfold deleteAvatar | unfold createChannel | unfold listChannels | unfold joinChannel
    | unfold joinRemoteChannel | unfold listJoinedChannels | unfold createDevice]; repeat steady_step.
Qed.

Lemma steady_serve_protected c r : Caller.role c ≠ RoleAdmin → steady (serve_protected h c r).
Proof.
  intros Hr. destruct r as [r|r|r]; cbn [serve_protected].
  - apply steady_serve_channel.
  - case_match; [|apply safe_done]. case_match.
    destruct r; cbn [serve_admin]; unfold stats, listUsers, createUser, updateUser, resetUserPassword, deleteUser,
      listInvites, createInvite, revokeInvite, adminListChannels, adminUpdateChannel, adminDeleteChannel,
      channelMessages, adminListKeys, adminRevokeKey, adminListComments, adminDeleteComment, requireAdmin;
      rewrite bool_decide_false by done; apply safe_done.
  - case_match; [|apply safe_done]. apply aside_serve. intros m m' Hm [= _ _ _ _ Hu]. unfold has_standing, standing in *.
    by rewrite Hu.
Qed.

(** *** Behind the tokens *)

(** Nobody who presents this token is an administrator. *)
Definition no_admin (authorization : string) : Prop := ∀ now claims cred,
  TokenManager.ParseClaims (AppHandler.Tokens h) (TrimSpace (string_drop 7 authorization)) AccessToken now = Ok claims →
  st !! Claims.Subject claims = Some cred → Credentials.Role cred ≠ RoleAdmin.

Lemma steady_authorize claims (k : option string → handler) :
  (∀ cred, st !! Claims.Subject claims = Some cred → Credentials.Role cred ≠ RoleAdmin) →
  steady (k None) → (∀ role, role ≠ RoleAdmin → steady (k (Some role))) → steady (authorize claims k).
Proof.
  intros Hno Hn Hk. unfold authorize, denied. apply safe_quiet.
  { intros w env. destruct (TokenManager.Revoked _ _ _) as [[r|] b]; done. }
  intros []; [exact Hn|]. apply safe_store_known; [|exact Hn]. intros m Hm. unfold UserByID.
  destruct (Memory.users m !! Claims.Subject claims) as [u|] eqn:Hu; [|exact Hn]. cbn [lift].
  case_bool_decide; [exact Hn|]. apply Hk. unfold has_standing, standing in Hm.
  specialize (Hno (Credentials.of_user u)). rewrite <- Hm, lookup_fmap, Hu in Hno. specialize (Hno eq_refl).
  cbn in Hno. by case_bool_decide.
Qed.

Lemma steady_app_serve r : (∀ authorization p, r = Protected authorization p → no_admin authorization) →
  steady (app_serve h r).
Proof.
  intros Hno. destruct r as [id|authorization p]; cbn [app_serve].
  - unfold serveImage. case_match; [apply safe_done|]. apply safe_blob; [done|]. intros r'. apply safe_done.
  - specialize (Hno authorization p eq_refl). unfold with_token. case_match; [apply safe_done|]. cbv zeta.
    case_match; [apply safe_done|]. unfold parse_claims. apply safe_time. intros now.
    destruct (TokenManager.ParseClaims _ _ _ now) as [claims|e] eqn:Hc; [|apply safe_done].
    apply steady_authorize; [intros cred; by eapply Hno | apply safe_done|]. intros role Hr.
    by apply steady_serve_protected.
Qed.
End Handlers.

(** C1. Nobody but an administrator changes what an account may do: whatever is
    asked of the app API (chat, channels, profiles, the admin panel) with
    tokens of accounts that are not administrators', or with no valid token,
    however many requests are served at once and whatever calls fail, no account
    appears or disappears, and each keeps its role, its block, its address and
    its password. In particular nobody becomes an administrator. *)
Theorem no_escalation {B} {BS : BlobStore B} {RO : RangeOrder} {U : Unicode} {RC : RuneClasses} {NU : NetUrl}
  {NM : NetMail} {A : Argon2} {E : Ed25519} {J : Jwt} {HM : ConvFed.Hmac} {IL : ImageLib} {TT : TimeText}
  (h : AppHandler.t) (w : World.t B) (reqs : list app_request) turns :
  (∀ authorization p, Protected authorization p ∈ reqs → no_admin h (standing (World.store w)) authorization) →
  standing (World.store (Threads.schedule w (app_serve h <$> reqs) turns).1) = standing (World.store w).
Proof.
  intros Hno. apply (preserves_schedule (fun _ => True) (fun w' => has_standing (standing (World.store w)) (World.store w')));
    [by apply Forall_true | done |].
  apply Forall_fmap, Forall_forall. intros r Hin. apply steady_app_serve. intros authorization p ->. by eapply Hno.
Qed.

(** ** Channels, behind the tokens *)

Section Channels.
Context {B : Type} {BS : BlobStore B} {RO : RangeOrder} {U : Unicode} {RC : RuneClasses} {NU : NetUrl} {NM : NetMail}
  {A : Argon2} {E : Ed25519} {J : Jwt} {HM : ConvFed.Hmac} {IL : ImageLib} {TT : TimeText}.
Context (h : AppHandler.t) (st : gmap string Credentials.t) (subjects : list string) (G : string) (hd : ChannelHeld.t)
  (ch0 : Channel.t).
Context (Hch : ChannelHeld.channel hd = Some ch0) (Howner : Channel.OwnerID ch0 ∉ subjects).

(** The token is one of the subjects'. *)
Definition borne_by (authorization : string) : Prop := ∀ now claims,
  TokenManager.ParseClaims (AppHandler.Tokens h) (TrimSpace (string_drop 7 authorization)) AccessToken now = Ok claims →
  Claims.Subject claims ∈ subjects.

Definition kept_in_standing (m : Memory.t B) : Prop := kept subjects G hd m ∧ has_standing st m.
Abbreviation both := (safe (B := B) (R := response) (free_ids hd G) kept_in_standing).

Lemma both_serve_protected c r : subject subjects c → Caller.role c ≠ RoleAdmin → both (serve_protected h c r).
Proof.
  intros Hs Hr. pose proof (still_serve_protected h subjects G hd ch0 Hch Howner c r Hs Hr) as H1.
  pose proof (steady_serve_protected h st c r Hr) as H2. pose proof (preserves_and _ _ _ _ _ H1 H2) as H3.
  eapply preserves_weaken; [| |exact H3]; done.
Qed.
Lemma both_app_serve r :
  (∀ authorization p, r = Protected authorization p → borne_by authorization ∧ no_admin h st authorization) →
  both (app_serve h r).
Proof.
  intros Hno. destruct r as [id|authorization p]; cbn [app_serve].
  - unfold serveImage. case_match; [apply safe_done|]. apply safe_blob; [|intros r'; apply safe_done].
    intros m b [Hk Hs]. split; [by apply kept_blobs | exact Hs].
  - destruct (Hno authorization p eq_refl) as [Hb Ha]. unfold with_token. case_match; [apply safe_done|]. cbv zeta.
    case_match; [apply safe_done|]. unfold parse_claims. apply safe_time. intros now.
    destruct (TokenManager.ParseClaims _ _ _ now) as [claims|e] eqn:Hc; [|apply safe_done].
    unfold authorize, denied. apply safe_quiet.
    { intros w env. destruct (TokenManager.Revoked _ _ _) as [[r|] b]; done. }
    intros []; [apply safe_done|]. apply safe_store_known; [|apply safe_done]. intros m [_ Hm]. unfold UserByID.
    destruct (Memory.users m !! Claims.Subject claims) as [u|] eqn:Hu; [|apply safe_done]. cbn [lift].
    destruct (User.Status u == UserBlocked); [apply safe_done|]. apply both_serve_protected.
    + intros uid Hu'. unfold caller_of in Hu'. cbn in Hu'. destruct (Claims.Subject claims == ""); [done|].
      injection Hu' as <-. by eapply Hb.
    + cbn. clear H H0. specialize (Ha now claims (Credentials.of_user u) Hc). unfold has_standing, standing in Hm.
      rewrite <- Hm, lookup_fmap, Hu in Ha. specialize (Ha eq_refl). cbn in Ha. by case_bool_decide.
Qed.
End Channels.

(** C2. A channel answers to those who run it: whatever is asked of the app API
    (channels, admin panel, chat) with tokens of people who neither own a
    channel nor are among its active admins nor are administrators of the
    server, in any interleaving and whatever calls fail, the channel's record,
    its keys, its feed and everybody else's memberships stay as they were, and
    none of these people comes to run it. *)
Theorem channel_governed {B} {BS : BlobStore B} {RO : RangeOrder} {U : Unicode} {RC : RuneClasses} {NU : NetUrl}
  {NM : NetMail} {A : Argon2} {E : Ed25519} {J : Jwt} {HM : ConvFed.Hmac} {IL : ImageLib} {TT : TimeText}
  (h : AppHandler.t) (G : string) (ch : Channel.t) (subjects : list string) (w : World.t B) (reqs : list app_request) turns :
  let hd := channel_held subjects G (World.store w) in
  keyed APIKey.ID (Memory.apiKeys (World.store w)) →
  (∀ id mem, Memory.members (World.store w) !! id = Some mem → ChannelMember.ChannelID mem = G →
     ChannelMember.UserID mem ∈ subjects → ¬ runs mem) →
  Memory.channels (World.store w) !! G = Some ch → Channel.OwnerID ch ∉ subjects →
  (∀ authorization p, Protected authorization p ∈ reqs →
     borne_by h subjects authorization ∧ no_admin h (standing (World.store w)) authorization) →
  Forall (fun t => free_ids hd G t.2) turns →
  kept subjects G hd (World.store (Threads.schedule w (app_serve h <$> reqs) turns).1).
Proof.
  intros hd Hkeys Hrun Hc Howner Hsub Hok.
  assert (kept subjects G hd (World.store w)) as Hkept by done.
  apply (preserves_schedule (free_ids hd G) (fun w' => kept_in_standing (standing (World.store w)) subjects G hd (World.store w')));
    [done | by split |].
  apply Forall_fmap, Forall_forall. intros r Hin.
  eapply both_app_serve; [by apply (kept_channel _ _ _ _ _ Hkept) | done |]. intros authorization p ->. by eapply Hsub.
Qed.

(** "uid" asks to be made an administrator, changes how they are shown, and asks
    again without a token; somebody asks with a token that nobody has issued. *)
Definition porch_profile : UserProfileUpdate.t :=
  UserProfileUpdate.mk (Some "ulla") None None None None None.
Definition porch_promotion : admin_request := AdminUpdateUser "uid" (Decoded (updateUserRequest.mk (Some RoleAdmin) None)).
Definition porch_requests : list app_request :=
  [Protected "Bearer access" (AdminRequest porch_promotion);
   Protected "Bearer access" (ChannelRequest (UpdateProfile (Decoded porch_profile)));
   Protected "" (AdminRequest porch_promotion);
   Protected "Bearer forged" (ChatRequest ListConversations)].
(** As [square_handler], with the tokens of [sample_manager]. *)
Definition porch_serve : app_request → prog (World.t BlobMemory.t) Env.t response :=
  @app_serve _ _ order_fwd ascii_only ascii_classes simple_url mail_any toy_argon2 toy_ed25519 sample_jwt town_hmac
    square_images square_times square_handler.
Definition porch_turns : list (nat * Env.t) := mjoin ((fun i => replicate 12 (i, porch_env)) <$> seq 0 4).

(** The token after "Bearer ", if there is one that anybody has issued. *)
Lemma porch_bearers : Forall (fun r => match r with
    | ServeImage _ => True
    | Protected authorization _ =>
        let token := TrimSpace (U := ascii_only) (string_drop 7 authorization) in
        token = "access" ∨ toy_find sample_tokens token = None
    end) porch_requests.
Proof. unfold porch_requests. rewrite !Forall_cons, Forall_nil. split_and!; vm_compute; auto. Qed.

Lemma porch_access now claims : TokenManager.ParseClaims (E := toy_ed25519) (J := sample_jwt) sample_manager
    (TrimSpace (U := ascii_only) (string_drop 7 "Bearer access")) AccessToken now = Ok claims → Claims.Subject claims = "uid".
Proof.
  assert (TrimSpace (U := ascii_only) (string_drop 7 "Bearer access") = "access") as -> by (vm_compute; reflexivity).
  apply porch_tokens.
Qed.

Lemma porch_no_admin authorization p : Protected authorization p ∈ porch_requests →
  no_admin (E := toy_ed25519) (J := sample_jwt) (U := ascii_only) square_handler (standing porch) authorization.
Proof.
  intros Hin now claims cred Hc Hst. pose proof (proj1 (Forall_forall _ _) porch_bearers _ Hin) as Ht. cbv zeta in Ht.
  cbn beta iota in Ht. revert Ht Hc. generalize (TrimSpace (U := ascii_only) (string_drop 7 authorization)). intros token.
  intros [->|Ht] Hc; [|by destruct (porch_no_token _ _ _ Ht Hc)].
  rewrite (porch_tokens _ _ Hc) in Hst. unfold standing in Hst. rewrite lookup_fmap in Hst. vm_compute in Hst.
  by injection Hst as <-.
Qed.

Lemma no_escalation_witness :
  let s := Threads.schedule porch_world (porch_serve <$> porch_requests) porch_turns in
  statuses s.2 = [Some 403; Some 200; Some 401; Some 401] ∧
  User.Username <$> (Memory.users (World.store s.1) !! "uid") = Some "ulla" ∧
  standing (World.store s.1) = standing porch.
Proof.
  split; [vm_compute; reflexivity|]. split; [vm_compute; reflexivity|].
  apply (@no_escalation _ _ order_fwd ascii_only ascii_classes simple_url mail_any toy_argon2 toy_ed25519 sample_jwt town_hmac
           square_images square_times square_handler porch_world porch_requests porch_turns).
  apply porch_no_admin.
Defined.

(** "uid" joins "news", and tries what only its owner may. *)
Definition porch_intrusion : list app_request :=
  (fun r => Protected "Bearer access" (ChannelRequest r)) <$>
    [JoinChannel (Decoded (joinChannelRequest.mk "ch_news" ""));
     InChannel "news" (UpdateSubscriber "uid" (Decoded (updateMemberRequest.mk (Some RoleAdmin) None)));
     InChannel "news" (CreateKey "mine"); InChannel "news" (DeleteMessageRequest "p1")].

Lemma porch_free env : (∃ i, (i, env) ∈ porch_turns) → free_ids (channel_held ["uid"] "news" porch) "news" env.
Proof.
  intros (i & Hin) j. apply list_elem_of_join in Hin as (l & Hl & Hin). apply list_elem_of_fmap in Hin as (k & -> & _).
  apply elem_of_replicate in Hl as [[= _ ->] _].
  assert (∀ s, Env.fresh porch_env j ≠ String "n" s ∧ Env.fresh porch_env j ≠ String "k" s ∧ Env.fresh porch_env j ≠ String "p" s ∧
    Env.fresh porch_env j ≠ String "b" s) as Hne by (intros s; destruct j as [|[|j]]; done).
  split_and!; [apply Hne | | |]; apply map_lookup_filter_None; left; apply lookup_singleton_ne, not_eq_sym; apply Hne.
Qed.

Lemma channel_governed_witness :
  let s := Threads.schedule porch_world (porch_serve <$> porch_intrusion) porch_turns in
  statuses s.2 = [Some 201; Some 403; Some 403; Some 403] ∧
  kept ["uid"] "news" (channel_held ["uid"] "news" porch) (World.store s.1).
Proof.
  split; [vm_compute; reflexivity|].
  apply (@channel_governed _ _ order_fwd ascii_only ascii_classes simple_url mail_any toy_argon2 toy_ed25519 sample_jwt town_hmac
           square_images square_times square_handler "news" square_channel ["uid"] porch_world porch_intrusion porch_turns).
  - intros id key Hk. cbn in Hk. apply lookup_singleton_Some in Hk as [<- <-]. done.
  - intros id mem Hi _ _ [_ Hr]. cbn in Hi. apply lookup_singleton_Some in Hi as [<- <-]. discriminate Hr.
  - done.
  - intros H. apply list_elem_of_singleton in H. discriminate H.
  - intros authorization p Hin. assert (Protected authorization p ∈ porch_intrusion) as Hin' by done.
    apply list_elem_of_fmap in Hin as (r & [= -> _] & _). split.
    + intros now claims Hc. apply porch_access in Hc. rewrite Hc. by apply list_elem_of_singleton.
    + apply (porch_no_admin _ (AdminRequest porch_promotion)). by left.
  - apply Forall_forall. intros [i env] Hin. apply porch_free. by exists i.
Defined.
