(* ===== verification/FedClient.v ===== *)
(** * Calling another host

    [api/internal/federation/client.go] and the client halves of
    [conversations.go], [keypackages.go], [channels.go] and [users.go]: a call is
    a signed request, and its answer what the peer's JSON says. [net/http] and
    [encoding/json] are interfaces. With the server half ([FedServe]), a call is
    shown to be a call of the service at the other end. *)

From Stdlib Require Import Ascii.
From S2P Require Import Prelude.
From S2P Require Import GoStrings.
From S2P Require Import Domain.
From S2P Require Import Threads.
From S2P Require Import Crypto.
From S2P Require Import Strconv.
From S2P Require Import Blob.
From S2P Require Import Nodelist.
From S2P Require Import Calls.
From S2P Require Import Federation.
From S2P Require Import StoreState.
From S2P Require Import StoreChannels.
From S2P Require Import Peers.
From S2P Require Import ChatWorld.
From S2P Require Import ChatPush.
From S2P Require Import ConvFed.
From S2P Require Import Dispatch.
From S2P Require Import FedServe.
From S2P Require Import ChatSample.
From S2P Require Import PeerIsolation.

(** ** The HTTP client *)

(** A response; reading its body may fail. Errors are their text. *)
Module HttpResponse.
Record t := mk { StatusCode : Z; Body : result string bytes }.
End HttpResponse.

(** [http.NewRequest] and the path of the URL; what [http.Client.Do] comes back
    with is the argument [net] of a call. *)
Class HttpUrl := { NewRequest : string → string → result string string }.
Definition network : Type := string → Request.t → bytes → result string HttpResponse.t.

(** What [json.Marshal] writes of a request, [None] when it refuses, and what a
    reply decodes to. *)
Class PeerWire := {
  json_spec : MirrorSpec.t → option bytes;
  json_relay : string → list RelayedMessage.t → option bytes;
  json_submitted : SubmittedMessage.t → option bytes;
  json_commit : SubmittedCommit.t → option bytes;
  json_receipt : ReceiptUpdate.t → option bytes;
  json_signal : CallSignalRelay.t → option bytes;
  json_nudge : CallNudge.t → option bytes;
  json_message : RemoteMessage.t → option bytes;
  json_reply : fed_body → bytes;
  json_error : string → bytes;
  reply_message : bytes → result string RelayedMessage.t;
  reply_commit : bytes → result string CommitResult.t;
  reply_grant : bytes → result string TurnGrant.t;
  reply_packages : bytes → result string (list ClaimedKeyPackage.t);
  reply_user : bytes → result string RemoteUser.t;
  reply_name : bytes → result string string
}.

(** [map[string]string{key: value}] *)
Definition json_field (key value : string) : option bytes := Some (marshal_map {[key := value]}).

Definition PeerBaseURL (domain : string) : string := String.append "https://" domain.

Module Client.
Record t := mk { origin : string; keyID : string; key : bytes; PeerURL : string → string }.
End Client.
Definition NewClient (origin keyID : string) (key : bytes) : Client.t := Client.mk origin keyID key PeerBaseURL.

Definition maxReply : Z := Z.shiftl 1 20.

Section Client.
Context {U : Unicode} {E : Ed25519} {HU : HttpUrl} {PW : PeerWire}.
(** The client, the clock, what [rand.Read] draws, and the network. *)
Context (c : Client.t) (now : time) (random : result string bytes) (net : network).

(** [reqBody] is [None] for nil. *)
Definition Do (peer method path : string) (reqBody : option bytes) : result string bytes :=
  let url := String.append (Client.PeerURL c peer) path in
  let? urlPath := NewRequest method url in
  let req := Request.mk method urlPath ∅ in
  let req := if reqBody is Some _ then Request.Set_ req "Content-Type" "application/json" else req in
  let? nonce := random in
  let req := Sign req (Client.origin c) peer (Client.keyID c) (Client.key c) (default "" reqBody) now nonce in
  let? resp := net url req (default "" reqBody) in
  let? body := HttpResponse.Body resp in
  if (HttpResponse.StatusCode resp <? 200) || (300 <=? HttpResponse.StatusCode resp)
  then Err (Join ["federation: "; method; " "; peer; path; ": peer returned "; FormatInt (HttpResponse.StatusCode resp)] "")
  else Ok (string_take (Z.to_nat maxReply) body).

Definition GetJSON {X} (decode : bytes → result string X) (peer path : string) : result string X :=
  let? body := Do peer "GET" path None in decode body.

(** [decode] is what unmarshalling into [out] does; for a nil [out],
    [ignored]. *)
Definition PostJSON {X} (decode : bytes → result string X) (peer path : string) (in_ : option bytes) : result string X :=
  match in_ with
  | None => Err "json: unsupported value"
  | Some reqBody => let? respBody := Do peer "POST" path (Some reqBody) in decode respBody
  end.
Definition ignored (body : bytes) : result string unit := Ok tt.

(** The calls. *)
Definition ProvisionRemoteMirror peer spec := PostJSON ignored peer "/federation/v1/conversation-provision" (json_spec spec).
Definition DeleteConversationOnPeer peer id :=
  PostJSON ignored peer "/federation/v1/conversation-delete" (json_field "conversationId" id).
Definition RelayToPeer peer id msgs := PostJSON ignored peer "/federation/v1/conversation-relay" (json_relay id msgs).
Definition SubmitMessageToHub hub s :=
  PostJSON reply_message hub "/federation/v1/conversation-submit-message" (json_submitted s).
Definition SubmitCommitToHub hub s := PostJSON reply_commit hub "/federation/v1/conversation-submit-commit" (json_commit s).
Definition SubmitReceiptToHub hub s := PostJSON ignored hub "/federation/v1/conversation-submit-receipt" (json_receipt s).
Definition RelayReceiptToPeer peer s := PostJSON ignored peer "/federation/v1/conversation-relay-receipt" (json_receipt s).
Definition RelayCallSignalToPeer peer s := PostJSON ignored peer "/federation/v1/conversation-call-signal" (json_signal s).
Definition RelayCallNudgeToPeer peer s := PostJSON ignored peer "/federation/v1/conversation-call-nudge" (json_nudge s).
Definition RequestTurnFromPeer peer id :=
  PostJSON reply_grant peer "/federation/v1/conversation-turn" (json_field "conversationId" id).
Definition ClaimRemoteKeyPackages home userID :=
  PostJSON reply_packages home "/federation/v1/claim-key-packages" (json_field "userId" userID).
Definition SubscribeToRemoteChannel origin id :=
  PostJSON reply_name origin "/federation/v1/channel-subscribe" (json_field "channelPublicId" id).
Definition DeliverToPeer peer msg := PostJSON ignored peer "/federation/v1/channel-delivery" (json_message msg).

(** The error, as far as callers tell errors apart. *)
Definition failed {X} (r : result string X) : result peer_err X :=
  match r with Ok x => Ok x | Err _ => Err ErrPeer end.

Definition ResolveRemoteUser (home username : string) : result peer_err RemoteUser.t :=
  match PostJSON reply_user home "/federation/v1/resolve-user" (json_field "username" username) with
  | Err e => if Contains e "returned 404" then Err ErrRemoteUserNotFound else Err ErrPeer
  | Ok out => if RemoteUser.UserID out == "" then Err ErrRemoteUserNotFound else Ok out
  end.

(** A call of the interface the services are given. *)
Definition call (q : peer_call) : result peer_err (peer_answer q) :=
  match q with
  | Peers.ProvisionRemoteMirror peer spec => failed (ProvisionRemoteMirror peer spec)
  | Peers.RelayToPeer peer id msgs => failed (RelayToPeer peer id msgs)
  | Peers.SubmitMessageToHub hub s => failed (SubmitMessageToHub hub s)
  | Peers.SubmitCommitToHub hub s => failed (SubmitCommitToHub hub s)
  | Peers.SubmitReceiptToHub hub s => failed (SubmitReceiptToHub hub s)
  | Peers.RelayReceiptToPeer peer s => failed (RelayReceiptToPeer peer s)
  | Peers.RelayCallSignalToPeer peer s => failed (RelayCallSignalToPeer peer s)
  | Peers.RelayCallNudgeToPeer peer s => failed (RelayCallNudgeToPeer peer s)
  | Peers.RequestTurnFromPeer peer id => failed (RequestTurnFromPeer peer id)
  | ClaimRemoteKeyPackagesFrom home userID => failed (ClaimRemoteKeyPackages home userID)
  | ResolveRemoteUserAt home username => ResolveRemoteUser home username
  | Peers.DeleteConversationOnPeer peer id => failed (DeleteConversationOnPeer peer id)
  | Peers.SubscribeToRemoteChannel origin id => failed (SubscribeToRemoteChannel origin id)
  | Peers.DeliverToPeer peer msg => failed (DeliverToPeer peer msg)
  end.
End Client.

(** ** The other end *)

(** A response on the wire. A handler that panics drops the connection; the
    mux answers for a path it has no route for. *)
Definition http_of {PW : PeerWire} (r : fed_response) : result string HttpResponse.t :=
  match r with
  | FedError status msg => Ok (HttpResponse.mk status (Ok (json_error msg)))
  | FedReply b => Ok (HttpResponse.mk 200 (Ok (json_reply b)))
  | FedPanicked => Err "EOF"
  | NotMounted => Ok (HttpResponse.mk 404 (Ok "404 page not found"))
  end.

(** The path a route is mounted at. *)
Definition route_path (r : fed_route) : string :=
  match r with
  | Directory => "/.well-known/pheme-federation"
  | Liveness => "/federation/v1/liveness"
  | UserExistsRoute => "/federation/v1/user-exists"
  | ResolveUserRoute => "/federation/v1/resolve-user"
  | ChannelSubscribe => "/federation/v1/channel-subscribe"
  | ChannelDelivery => "/federation/v1/channel-delivery"
  | ClaimKeyPackagesRoute => "/federation/v1/claim-key-packages"
  | ConvProvision => "/federation/v1/conversation-provision"
  | ConvRelay => "/federation/v1/conversation-relay"
  | ConvSubmitMessage => "/federation/v1/conversation-submit-message"
  | ConvSubmitCommit => "/federation/v1/conversation-submit-commit"
  | ConvSubmitReceipt => "/federation/v1/conversation-submit-receipt"
  | ConvRelayReceipt => "/federation/v1/conversation-relay-receipt"
  | ConvCallSignal => "/federation/v1/conversation-call-signal"
  | ConvCallNudge => "/federation/v1/conversation-call-nudge"
  | ConvTurn => "/federation/v1/conversation-turn"
  | ConvDelete => "/federation/v1/conversation-delete"
  end.

(** The route a call is for, the host it goes to, and its body. *)
Definition route_of (q : peer_call) : fed_route :=
  match q with
  | Peers.ProvisionRemoteMirror _ _ => ConvProvision
  | Peers.RelayToPeer _ _ _ => ConvRelay
  | Peers.SubmitMessageToHub _ _ => ConvSubmitMessage
  | Peers.SubmitCommitToHub _ _ => ConvSubmitCommit
  | Peers.SubmitReceiptToHub _ _ => ConvSubmitReceipt
  | Peers.RelayReceiptToPeer _ _ => ConvRelayReceipt
  | Peers.RelayCallSignalToPeer _ _ => ConvCallSignal
  | Peers.RelayCallNudgeToPeer _ _ => ConvCallNudge
  | Peers.RequestTurnFromPeer _ _ => ConvTurn
  | ClaimRemoteKeyPackagesFrom _ _ => ClaimKeyPackagesRoute
  | ResolveRemoteUserAt _ _ => ResolveUserRoute
  | Peers.DeleteConversationOnPeer _ _ => ConvDelete
  | Peers.SubscribeToRemoteChannel _ _ => ChannelSubscribe
  | Peers.DeliverToPeer _ _ => ChannelDelivery
  end.
Definition callee (q : peer_call) : string :=
  match q with
  | Peers.ProvisionRemoteMirror p _ | Peers.RelayToPeer p _ _ | Peers.SubmitMessageToHub p _
  | Peers.SubmitCommitToHub p _ | Peers.SubmitReceiptToHub p _ | Peers.RelayReceiptToPeer p _
  | Peers.RelayCallSignalToPeer p _ | Peers.RelayCallNudgeToPeer p _ | Peers.RequestTurnFromPeer p _
  | ClaimRemoteKeyPackagesFrom p _ | ResolveRemoteUserAt p _ | Peers.DeleteConversationOnPeer p _
  | Peers.SubscribeToRemoteChannel p _ | Peers.DeliverToPeer p _ => p
  end.
Definition body_of {PW : PeerWire} (q : peer_call) : option bytes :=
  match q with
  | Peers.ProvisionRemoteMirror _ spec => json_spec spec
  | Peers.RelayToPeer _ id msgs => json_relay id msgs
  | Peers.SubmitMessageToHub _ s => json_submitted s
  | Peers.SubmitCommitToHub _ s => json_commit s
  | Peers.SubmitReceiptToHub _ s | Peers.RelayReceiptToPeer _ s => json_receipt s
  | Peers.RelayCallSignalToPeer _ s => json_signal s
  | Peers.RelayCallNudgeToPeer _ s => json_nudge s
  | ClaimRemoteKeyPackagesFrom _ id => json_field "userId" id
  | ResolveRemoteUserAt _ username => json_field "username" username
  | Peers.RequestTurnFromPeer _ id | Peers.DeleteConversationOnPeer _ id => json_field "conversationId" id
  | Peers.SubscribeToRemoteChannel _ id => json_field "channelPublicId" id
  | Peers.DeliverToPeer _ msg => json_message msg
  end.

(** The body decodes to what was encoded. *)
Definition survives {PJ : PeerJson} (q : peer_call) (body : bytes) : Prop :=
  match q with
  | Peers.ProvisionRemoteMirror _ spec => body_spec body = Some spec
  | Peers.RelayToPeer _ id msgs => body_relay body = Some (id, msgs)
  | Peers.SubmitMessageToHub _ s => body_submitted body = Some s
  | Peers.SubmitCommitToHub _ s => body_commit body = Some s
  | Peers.SubmitReceiptToHub _ s | Peers.RelayReceiptToPeer _ s => body_receipt body = Some s
  | Peers.RelayCallSignalToPeer _ s => body_signal body = Some s
  | Peers.RelayCallNudgeToPeer _ s => body_nudge body = Some s
  | ClaimRemoteKeyPackagesFrom _ id => body_field "userId" body = Some id
  | ResolveRemoteUserAt _ username => body_field "username" body = Some username
  | Peers.RequestTurnFromPeer _ id | Peers.DeleteConversationOnPeer _ id => body_field "conversationId" body = Some id
  | Peers.SubscribeToRemoteChannel _ id => body_field "channelPublicId" body = Some id
  | Peers.DeliverToPeer _ msg => body_message body = Some msg
  end.

(** A reply fits the call, within the size the client reads, and decodes to
    what was encoded. *)
Definition reply_survives {PW : PeerWire} (q : peer_call) (b : fed_body) : Prop :=
  slen (json_reply b) ≤ maxReply ∧
  match q, b with
  | Peers.SubmitMessageToHub _ _, FMessage m => reply_message (json_reply b) = Ok m
  | Peers.SubmitCommitToHub _ _, FCommit r => reply_commit (json_reply b) = Ok r
  | Peers.RequestTurnFromPeer _ _, FGrant g => reply_grant (json_reply b) = Ok g
  | ClaimRemoteKeyPackagesFrom _ _, FPackages l => reply_packages (json_reply b) = Ok l
  | ResolveRemoteUserAt _ _, FUser u => reply_user (json_reply b) = Ok u
  | Peers.SubscribeToRemoteChannel _ _, FName n => reply_name (json_reply b) = Ok n
  | Peers.SubmitMessageToHub _ _, _ | Peers.SubmitCommitToHub _ _, _ | Peers.RequestTurnFromPeer _ _, _
  | ClaimRemoteKeyPackagesFrom _ _, _ | ResolveRemoteUserAt _ _, _ | Peers.SubscribeToRemoteChannel _ _, _ => False
  | _, _ => True
  end.

(** What the caller is to make of the service's response. The text of an
    unsuccessful status is searched for "returned 404". *)
Definition says_404 (status : Z) : bool := HasPrefix (FormatInt status) "404".
Definition answered (q : peer_call) (r : fed_response) : result peer_err (peer_answer q) :=
  match q, r with
  | Peers.SubmitMessageToHub _ _, FedReply (FMessage m) => Ok m
  | Peers.SubmitCommitToHub _ _, FedReply (FCommit res) => Ok res
  | Peers.RequestTurnFromPeer _ _, FedReply (FGrant g) => Ok g
  | ClaimRemoteKeyPackagesFrom _ _, FedReply (FPackages l) => Ok l
  | Peers.SubscribeToRemoteChannel _ _, FedReply (FName n) => Ok n
  | ResolveRemoteUserAt _ _, FedReply (FUser u) =>
      if RemoteUser.UserID u == "" then Err ErrRemoteUserNotFound else Ok u
  | ResolveRemoteUserAt _ _, FedError status _ => if says_404 status then Err ErrRemoteUserNotFound else Err ErrPeer
  | ResolveRemoteUserAt _ _, NotMounted => Err ErrRemoteUserNotFound
  | Peers.ProvisionRemoteMirror _ _, FedReply _ | Peers.RelayToPeer _ _ _, FedReply _
  | Peers.SubmitReceiptToHub _ _, FedReply _ | Peers.RelayReceiptToPeer _ _, FedReply _
  | Peers.RelayCallSignalToPeer _ _, FedReply _ | Peers.RelayCallNudgeToPeer _ _, FedReply _
  | Peers.DeleteConversationOnPeer _ _, FedReply _ | Peers.DeliverToPeer _ _, FedReply _ => Ok tt
  | _, _ => Err ErrPeer
  end.

(** The service a call is for, asked by [origin]: no HTTP, no JSON. *)
Section Service.
Context {B : Type} {BS : BlobStore B} {RO : RangeOrder} {GO : GroupOrder} {U : Unicode} {E : Ed25519} {HM : Hmac}.
Context (f : FedHandler.t) (h : Handler.t) (conf : ConvFederation.t) (d : Dispatcher.t) (origin : string).
Abbreviation handler := (prog (World.t B) Env.t fed_response).

(** A request that lacks what it must name is refused. *)
Definition naming (named_ : bool) (msg : string) (p : handler) : handler :=
  if named_ then p else Done (FedError 400 msg).

Definition service (q : peer_call) : handler :=
  match q with
  | Peers.ProvisionRemoteMirror _ spec =>
      naming (named (MirrorSpec.ConversationID spec) && named (MirrorSpec.LocalUserID spec))
        "conversationId and localUserId required"
        (ProvisionMirror conf origin spec (served 500 "could not provision mirror" done))
  | Peers.RelayToPeer _ id msgs =>
      naming (named id) "malformed relay"
        (DeliverRelayed conf origin id msgs (served 404 "no such mirror" (fun _ => FDelivered (length msgs))))
  | Peers.SubmitMessageToHub _ s =>
      naming (named (SubmittedMessage.ConversationID s)) "malformed submission"
        (SubmitMessage conf origin s (served 403 "could not accept message" FMessage))
  | Peers.SubmitCommitToHub _ s =>
      naming (named (SubmittedCommit.ConversationID s)) "malformed submission"
        (SubmitCommit conf origin s (served 403 "could not accept commit" FCommit))
  | Peers.SubmitReceiptToHub _ s =>
      naming (receipt_named s) "malformed receipt" (SubmitReceipt conf origin s (served 403 "could not accept receipt" done))
  | Peers.RelayReceiptToPeer _ s =>
      naming (receipt_named s) "malformed receipt" (DeliverReceipt conf origin s (served 404 "no such mirror" done))
  | Peers.RelayCallSignalToPeer _ s =>
      naming (named (CallSignalRelay.ConversationID s) && named (CallSignalRelay.CallID s)
              && named (CallSignalRelay.FromUserID s)) "malformed call signal"
        (DeliverCallSignal conf (RingForCall h) origin s (served 403 "could not accept call signal" done))
  | Peers.RelayCallNudgeToPeer _ s =>
      naming (named (CallNudge.ConversationID s) && named (CallNudge.CallID s)) "malformed call nudge"
        (DeliverCallNudge conf origin s (served 404 "no such conversation" done))
  | Peers.RequestTurnFromPeer _ id =>
      naming (named id) "conversationId required"
        (TurnCredentials conf origin id (served 403 "no turn for this conversation" FGrant))
  | ClaimRemoteKeyPackagesFrom _ userID =>
      naming (named userID) "userId required"
        (do! devices := DevicesWithKeyPackagesOf userID in
         match devices with
         | [] => Done (FedError 404 "no key packages for that user")
         | _ => do! out := claim_each userID devices [] in
                Done (match out with [] => FedError 404 "no key packages available" | _ => FedReply (FPackages out) end)
         end)
  | ResolveRemoteUserAt _ username =>
      naming (named username) "username required"
        (do! u := ResolveUsername (ToLower (TrimSpace username)) in
         Done (match u with None => FedError 404 "no such user" | Some u => FedReply (FUser u) end))
  | Peers.DeleteConversationOnPeer _ id =>
      naming (named id) "conversationId required" (DeleteMirror origin id (served 500 "could not delete mirror" done))
  | Peers.SubscribeToRemoteChannel _ id =>
      naming (named id) "channelPublicId required"
        (RecordRemoteSubscriber id origin (served 404 "channel not available" FName))
  | Peers.DeliverToPeer _ msg =>
      naming (named (RemoteMessage.ChannelPublicID msg)) "malformed message"
        (DeliverRemoteMessage d (FedHandler.ChannelBlobs f) origin msg (served 404 "no such channel" done))
  end.

(** Behind the signature, a route that is mounted runs the service its call is
    for. *)
Lemma fed_handler_service {PJ : PeerJson} q body :
  FedHandler.Conversations f = Some conf → FedHandler.Channels f = Some d → FedHandler.KeyPackages f = true →
  survives q body → fed_handler f h (route_of q) origin body = service q.
Proof.
  intros Hc Hd Hk Hs. unfold fed_handler. rewrite Hc, Hd, Hk.
  destruct q; cbn [survives] in Hs; cbn [route_of service];
    unfold convProvision, convRelay, convSubmitMessage, convSubmitCommit, convSubmitReceipt, convRelayReceipt,
      convCallSignal, convCallNudge, convTurn, convDelete, claimKeyPackages, resolveUser, channelSubscribe,
      channelDelivery, decoded_as, naming; rewrite Hs; cbn [fst snd]; reflexivity.
Qed.
End Service.

(** ** Lemmas: searching the text of an error *)

Lemma HasPrefix_spaceless x y : free_of " " x = true → (9 ≤ String.length x)%nat →
  HasPrefix (String.append x y) "returned 404" = false.
Proof.
  intros Hx Hl. do 9 (destruct x as [|? x]; [cbn in Hl; lia|]).
  unfold free_of in Hx. cbn [all_bytes] in Hx. repeat (apply andb_true_iff in Hx as [? Hx]).
  cbn [String.append HasPrefix]. rewrite !andb_false_iff.
  do 8 right. left. by apply negb_true_iff.
Qed.

Lemma Contains_cons a s sub : Contains (String a s) sub = HasPrefix (String a s) sub || Contains s sub.
Proof. done. Qed.

Lemma Contains_spaceless x y : free_of " " x = true →
  Contains (String.append x (String.append "/federation/v1/resolve-user: peer returned " y)) "returned 404"
  = HasPrefix y "404" || Contains y "returned 404".
Proof.
  unfold free_of. induction x as [|a x IH]; intros Hx; [reflexivity|].
  pose proof (HasPrefix_spaceless (String.append (String a x) "/federation/v1/resolve-user:")
    (String.append " peer returned " y)) as H.
  cbn [all_bytes] in Hx. apply andb_true_iff in Hx as [Ha Hx].
  change (String.append (String a x) ?z) with (String a (String.append x z)).
  rewrite Contains_cons, (IH Hx). rewrite append_assoc in H.
  change (String.append (String a x) ?z) with (String a (String.append x z)) in H.
  cbn [String.append] in H |- *. rewrite H; [done| |].
  - unfold free_of. cbn [all_bytes]. by rewrite Ha, all_bytes_append, Hx.
  - cbn [String.length]. rewrite length_append. cbn. lia.
Qed.

Lemma Contains_digits y : all_bytes is_digit y = true → Contains y "returned 404" = false.
Proof.
  induction y as [|a y IH]; [done|]. cbn [all_bytes]. intros [Ha Hy]%andb_true_iff.
  rewrite Contains_cons, (IH Hy), orb_false_r. cbn [HasPrefix].
  rewrite bool_decide_false; [done|]. by intros ->.
Qed.

(** What the client finds in the text of an unsuccessful status. *)
Lemma returned_404 peer status : free_of " " peer = true → 0 ≤ status →
  Contains (Join ["federation: "; "POST"; " "; peer; "/federation/v1/resolve-user"; ": peer returned "; FormatInt status] "")
    "returned 404" = says_404 status.
Proof.
  intros Hp Hs. cbn [Join]. cbn [String.append].
  do 17 (rewrite Contains_cons;
    lazymatch goal with |- context [HasPrefix ?s ?p || _] => change (HasPrefix s p) with false end; cbn [orb]).
  set (y := FormatInt status).
  etransitivity; [exact (Contains_spaceless peer y Hp)|]. unfold y.
  rewrite Contains_digits; [apply orb_false_r|].
  unfold FormatInt. destruct (Z.ltb_spec status 0); [lia|]. by apply format_digits_digits.
Qed.

(** ** Lemmas: a request and its answer *)

Section EndToEnd.
Context {U : Unicode} {E : Ed25519} {HU : HttpUrl} {PW : PeerWire}.
Context (c : Client.t) (now : time) (random : bytes).
Implicit Types (q : peer_call) (net : network).

(** The request the client sends. *)
Definition request (peer path : string) (body : bytes) : Request.t :=
  Sign (Request.Set_ (Request.mk "POST" path ∅) "Content-Type" "application/json")
    (Client.origin c) peer (Client.keyID c) (Client.key c) body now random.
Definition base_is_plain (peer path : string) : Prop :=
  NewRequest "POST" (String.append (Client.PeerURL c peer) path) = Ok path.

(** A response the client can make something of. *)
Definition reaches_back q (r : fed_response) : Prop :=
  match r with FedError status _ => 300 ≤ status | FedReply b => reply_survives q b | _ => True end.

Definition status_text (peer path : string) (status : Z) : string :=
  Join ["federation: "; "POST"; " "; peer; path; ": peer returned "; FormatInt status] "".

Lemma PostJSON_sent {X} (decode : bytes → result string X) net peer path body r :
  base_is_plain peer path →
  net (String.append (Client.PeerURL c peer) path) (request peer path body) body = http_of r →
  match r with FedError status _ => 300 ≤ status | FedReply b => slen (json_reply b) ≤ maxReply | _ => True end →
  PostJSON c now (Ok random) net decode peer path (Some body) =
  match r with
  | FedReply b => decode (json_reply b)
  | FedError status _ => Err (status_text peer path status)
  | FedPanicked => Err "EOF"
  | NotMounted => Err (status_text peer path 404)
  end.
Proof.
  intros Hu Hn Hr. unfold PostJSON, Do, base_is_plain, status_text in *. cbn [default]. rewrite Hu. cbn [result_bind].
  match goal with |- context [net ?u ?req ?b] => change (net u req b) with (net u (request peer path body) body) end.
  rewrite Hn.
  destruct r; cbn [http_of result_bind HttpResponse.Body HttpResponse.StatusCode]; try done.
  - replace (300 <=? status) with true by (symmetry; by apply Z.leb_le). by rewrite orb_true_r.
  - cbn. rewrite string_take_whole; [done|]. revert Hr. unfold slen. generalize maxReply. lia.
Qed.

(** The client returns what the response says. *)
Lemma call_answered net q body r :
  body_of q = Some body → free_of " " (callee q) = true → base_is_plain (callee q) (route_path (route_of q)) →
  net (String.append (Client.PeerURL c (callee q)) (route_path (route_of q)))
    (request (callee q) (route_path (route_of q)) body) body = http_of r →
  reaches_back q r → call c now (Ok random) net q = answered q r.
Proof.
  intros Hb Hp Hu Hn Hr.
  assert (match r with FedError status _ => 300 ≤ status | FedReply b => slen (json_reply b) ≤ maxReply | _ => True end)
    as Hr' by (destruct r; try done; apply Hr).
  destruct q; cbn [body_of callee route_of route_path] in *; cbn [call];
    unfold ProvisionRemoteMirror, RelayToPeer, SubmitMessageToHub, SubmitCommitToHub, SubmitReceiptToHub,
      RelayReceiptToPeer, RelayCallSignalToPeer, RelayCallNudgeToPeer, RequestTurnFromPeer, ClaimRemoteKeyPackages,
      ResolveRemoteUser, DeleteConversationOnPeer, SubscribeToRemoteChannel, DeliverToPeer; rewrite Hb;
    rewrite (PostJSON_sent _ _ _ _ _ r) by done; clear Hn Hr'.
  all: destruct r as [status ?|b| |]; cbn [failed answered ignored reaches_back] in *; try reflexivity.
  all: try (destruct b; try (by destruct Hr as [_ []]); destruct Hr as [_ ->]; done).
  - unfold status_text. rewrite returned_404; [done..|lia].
  - unfold status_text. by rewrite returned_404.
Qed.
End EndToEnd.

(** ** A call is a call of the service *)

Section Composition.
Context {B : Type} {BS : BlobStore B} {RO : RangeOrder} {GO : GroupOrder} {U : Unicode} {E : Ed25519} {HM : Hmac}
  {PJ : PeerJson} {HU : HttpUrl} {PW : PeerWire}.
(** The calling host's client, clock and nonce; the host called. *)
Context (c : Client.t) (now : time) (random : bytes).
Context (f : FedHandler.t) (h : Handler.t) (nodes : NodeStore.t).
Abbreviation world := (World.t B).

(** The host called vouches for the caller's key when it looks it up, its clock
    is near when the request comes in, and it has not seen the nonce when it
    marks it; its replay guard answers. *)
Record on_terms (w : world) (arrival looking marking : Env.t) (peer : string) : Prop := {
  vouched : NodeStore.KeyFor nodes (Client.origin c) (Env.clock looking) = Ok (Some (ed_public (Client.key c)));
  named_so : ToLower (TrimSpace (FedHandler.Origin f)) = ToLower (TrimSpace peer);
  in_time : unixTime (Unix now) - MaxSkew ≤ Env.clock arrival ≤ unixTime (Unix now) + MaxSkew;
  unseen : FedHandler.Replay f = true → Env.backend marking = Works ∧
    (Seen (World.seen w) (Env.clock marking) (replay_key (Client.origin c) (base64url random)) (2 * MaxSkew)).2 = false
}.
Record identity : Prop := {
  id_origin : Client.origin c ≠ ""; id_key : Client.keyID c ≠ ""; id_nonce : random ≠ "";
  id_clock : - two63 < Unix now < two63
}.

(** The host after it has marked the nonce. *)
Definition marked (w : world) (env : Env.t) : world :=
  if FedHandler.Replay f
  then w <| World.seen := (Seen (World.seen w) (Env.clock env) (replay_key (Client.origin c) (base64url random)) (2 * MaxSkew)).1 |>
  else w.

(** Three calls into a request it is the proven caller's. *)
Lemma verified_request w arrival looking marking envs last peer path body k :
  identity → on_terms w arrival looking marking peer → slen body ≤ maxFedBody →
  run (verified f nodes (request c now random peer path body) (Some body) k) w (arrival :: looking :: marking :: envs) last =
  run (k (Client.origin c) body) (marked w marking) envs last.
Proof.
  intros [Ho Hk Hr Hn] [Hv Hd Ht Hu] Hl. unfold verified, time_now.
  assert (read_body body = body) as ->.
  { apply string_take_whole. revert Hl. unfold slen. generalize maxFedBody. lia. }
  cbn [run tail]. unfold request.
  rewrite (Verify_Sign _ (Client.origin c) peer (Client.keyID c) (Client.key c) body now random _ _ _ _ _
    (if FedHandler.Replay f then Some (World.seen (marked w marking), Works) else None) Ho Hk Hr Hn Hv Hd Ht).
  - unfold marked. by destruct (FedHandler.Replay f).
  - unfold check_replay, marked. destruct (FedHandler.Replay f); [|reflexivity]. destruct Hu as [-> Hu]; [done|].
    cbn [guard_Seen dedup_guard fst snd]. destruct (Seen _ _ _ _) as [g b]. cbn in Hu. by rewrite Hu.
Qed.

(** C7. A call is a call of the service at the other end: when the host called
    vouches for the caller's key, its clock is near and the nonce is new to it
    (each at the moment it looks),
    when the body is no larger than it reads and the JSON of both directions
    says what was encoded, then what the client returns is what the service's
    response says, run for the caller on what the caller asked; what the call
    does there is what the service does, beside marking the nonce. *)
Theorem call_is_service conf d q body w arrival looking marking envs last :
  identity → on_terms w arrival looking marking (callee q) →
  FedHandler.Conversations f = Some conf → FedHandler.Channels f = Some d → FedHandler.KeyPackages f = true →
  free_of " " (callee q) = true → base_is_plain c (callee q) (route_path (route_of q)) →
  body_of q = Some body → slen body ≤ maxFedBody → survives q body →
  let served_ := run (service f h conf d (Client.origin c) q) (marked w marking) envs last in
  reaches_back q served_.2 →
  let answer (req : Request.t) (sent : bytes) :=
    run (fed_serve f h nodes (route_of q) req (Some sent)) w (arrival :: looking :: marking :: envs) last in
  call c now (Ok random) (fun _ req sent => http_of (answer req sent).2) q = answered q served_.2 ∧
  (answer (request c now random (callee q) (route_path (route_of q)) body) body).1 = served_.1.
Proof.
  intros Hid Hterms Hc Hd Hk Hp Hu Hb Hl Hs served_ Hr answer.
  assert (answer (request c now random (callee q) (route_path (route_of q)) body) body = served_) as Ha.
  { unfold answer, fed_serve.
    assert (mounted f (route_of q) = true) as -> by (unfold mounted; rewrite Hc, Hd, Hk; by destruct q).
    transitivity (run (verified f nodes (request c now random (callee q) (route_path (route_of q)) body) (Some body)
      (fed_handler f h (route_of q))) w (arrival :: looking :: marking :: envs) last); [by destruct q|].
    rewrite (verified_request _ _ _ _ _ _ _ _ _ _ Hid Hterms Hl).
    by rewrite (fed_handler_service f h conf d (Client.origin c) q body Hc Hd Hk Hs). }
  split; [|by rewrite Ha]. apply (call_answered c now random _ q body served_.2); try done.
  cbn beta. by rewrite Ha.
Qed.
End Composition.

(** ** Witness

    [a.example] asks [town.example] for a mirror of "shared"; bodies and replies
    are called by name. *)
Definition wire_url : HttpUrl := {| NewRequest _ url := Ok (string_drop (String.length "https://town.example") url) |}.
Definition wire_json : PeerWire := {|
  json_spec _ := Some "shared"; json_relay _ _ := Some "news"; json_submitted _ := None; json_commit _ := None;
  json_receipt _ := None; json_signal _ := None; json_nudge _ := None; json_message _ := None;
  json_reply _ := "{}"; json_error msg := msg;
  reply_message _ := Err "json"; reply_commit _ := Err "json"; reply_grant _ := Err "json";
  reply_packages _ := Err "json"; reply_user _ := Err "json"; reply_name _ := Err "json"
|}.
Definition wire_client : Client.t := NewClient "a.example" "k1" "a.example".
Definition wire_handler : FedHandler.t :=
  FedHandler.mk "town.example" (Some (Dispatcher.mk false false false)) false true (Some port_federation) true.
Definition wire_call : peer_call := Peers.ProvisionRemoteMirror "town.example" (port_spec "shared" "a.example").
Definition wire_serve : fed_route → Request.t → option bytes → prog (World.t BlobMemory.t) Env.t fed_response :=
  fed_serve (RO := order_fwd) (U := ascii_only) (E := toy_ed25519) (HM := town_hmac) (PJ := port_json) wire_handler town_handler port_nodes.
Definition wire_answer (req : Request.t) (sent : bytes) : World.t BlobMemory.t * fed_response :=
  run (wire_serve ConvProvision req (Some sent)) town_world [town_env "a" Works; town_env "a" Works; town_env "a" Works]
    (town_env "b" Works).
Definition wire_network : network := fun _ req sent => @http_of wire_json (wire_answer req sent).2.

Lemma call_is_service_witness :
  @call ascii_only toy_ed25519 wire_url wire_json wire_client 100 (Ok "nonce") wire_network wire_call = Ok () ∧
  is_Some (Memory.conversations (World.store (wire_answer (@request ascii_only toy_ed25519 wire_client 100 "nonce"
    "town.example" "/federation/v1/conversation-provision" "shared") "shared").1) !! "shared").
Proof.
  destruct (call_is_service (RO := order_fwd) (U := ascii_only) (E := toy_ed25519) (HM := town_hmac) (PJ := port_json)
    (HU := wire_url) (PW := wire_json) wire_client 100 "nonce" wire_handler town_handler port_nodes port_federation (Dispatcher.mk false false false)
    wire_call "shared" town_world (town_env "a" Works) (town_env "a" Works) (town_env "a" Works) [] (town_env "b" Works)) as [H1 H2]; try reflexivity.
  - split; [discriminate..|]. vm_compute. done.
  - split; [reflexivity.. | vm_compute; split; discriminate |]. intros _. vm_compute. done.
  - vm_compute. discriminate.
  - vm_compute. split; [discriminate | exact I].
  - split; [exact H1|].
    refine (eq_ind_r (fun m => is_Some (Memory.conversations (World.store m) !! "shared")) _ H2).
    vm_compute. by eexists.
Defined.
