(* ===== verification/RateLimit.v ===== *)
(** * Rate limits

    [api/internal/ratelimit/ratelimit.go]: the token bucket, one per key, and
    the loop that drops idle buckets. How many requests it lets through is
    bounded over any stretch of time, with the rounding of [float64] and the
    dropped buckets accounted for. *)

From Stdlib Require Import QArith Qround Qabs Qpower Lqa.
From S2P Require Import Prelude.

(** * float64

    Go's [float64] is IEEE 754 binary64: the result of an operation is the
    exact result rounded to the nearest number with a significand of 53 bits,
    ties to even. A finite [float64] is its value, a rational; the computations
    of the program stay far from overflow, so infinities and NaN are left
    out. *)

Definition float64 : Type := Q.
#[global] Bind Scope Q_scope with float64.

Definition pow2 (e : Z) : Q := Qpower 2 e.

(** The nearest integer, ties to even. *)
Definition nearest (x : Q) : Z :=
  let f := Qfloor x in
  match Qcompare (x - inject_Z f) (1 # 2) with
  | Lt => f
  | Gt => f + 1
  | Eq => if Z.even f then f else f + 1
  end.

(** The [e] with [2^e <= x < 2^(e+1)], for a positive [x]. *)
Definition binade (x : Q) : Z :=
  let e := Z.log2 (Qnum x) - Z.log2 (Zpos (Qden x)) in
  if Qle_bool (pow2 e) x then e else e - 1.

(** The spacing of the numbers near [x] is [2^(spacing x)]; numbers below the
    smallest normal one are [2^-1074] apart. *)
Definition spacing (x : Q) : Z := Z.max (binade x - 52) (-1074).

Definition round_pos (x : Q) : Q := inject_Z (nearest (x * pow2 (- spacing x))) * pow2 (spacing x).
Definition rnd (x : Q) : float64 :=
  match Qcompare x 0 with Eq => 0%Q | Gt => round_pos x | Lt => (- round_pos (- x))%Q end.

(** The operations, and the conversion of an integer. *)
Definition fadd (x y : float64) : float64 := rnd (x + y).
Definition fsub (x y : float64) : float64 := rnd (x - y).
Definition fmul (x y : float64) : float64 := rnd (x * y).
Definition fdiv (x y : float64) : float64 := rnd (x / y).
Definition of_int (n : Z) : float64 := rnd (inject_Z n).
Definition flt (x y : float64) : bool := negb (Qle_bool y x).
(** [min(x, y)] *)
Definition fmin (x y : float64) : float64 := if flt y x then y else x.

(** The numbers nearest to 0.1 and 1/3, and two sums whose exact value lies
    halfway between two numbers. *)
Example rnd_tenth : (rnd (1 # 10) == 3602879701896397 # 36028797018963968)%Q.
Proof. reflexivity. Qed.
Example rnd_third : (fdiv 1 3 == 6004799503160661 # 18014398509481984)%Q.
Proof. reflexivity. Qed.
Example rnd_even : (fadd (inject_Z (2 ^ 53)) 1 == inject_Z (2 ^ 53))%Q ∧
  (fadd (inject_Z (2 ^ 53 + 2)) 1 == inject_Z (2 ^ 53 + 4))%Q.
Proof. split; reflexivity. Qed.

(** ** Lemmas: the error of a rounding *)

(** Half the spacing at 1, and half the spacing of the smallest numbers. *)
Definition unit_error : Q := pow2 (-53).
Definition tiny : Q := pow2 (-1075).

Lemma pow2_pos e : (0 < pow2 e)%Q.
Proof. by apply Qpower_0_lt. Qed.
Lemma pow2_plus a b : (pow2 (a + b) == pow2 a * pow2 b)%Q.
Proof. by apply Qpower_plus. Qed.
Lemma pow2_neg e : (pow2 (- e) * pow2 e == 1)%Q.
Proof. rewrite <- pow2_plus. by replace (- e + e) with 0 by lia. Qed.
Lemma pow2_mono a b : a ≤ b → (pow2 a <= pow2 b)%Q.
Proof. intros H. apply Qpower_le_compat_l; [done|]. discriminate. Qed.
Lemma pow2_nat n : 0 ≤ n → (pow2 n == inject_Z (2 ^ n))%Q.
Proof. intros H. unfold pow2. by rewrite Zpower_Qpower. Qed.

Lemma nearest_error x : (Qabs (inject_Z (nearest x) - x) <= 1 # 2)%Q.
Proof.
  pose proof (Qfloor_le x) as H1. pose proof (Qlt_floor x) as H2.
  assert (inject_Z (Qfloor x + 1) == inject_Z (Qfloor x) + 1)%Q as H3 by (rewrite inject_Z_plus; reflexivity).
  apply Qabs_Qle_condition. unfold nearest.
  destruct (Qcompare_spec (x - inject_Z (Qfloor x)) (1 # 2)); [destruct (Z.even _)|..]; rewrite ?H3 in *; split; lra.
Qed.

Lemma nearest_nonneg x : (0 <= x)%Q → 0 ≤ nearest x.
Proof.
  intros H. assert (0 ≤ Qfloor x) as Hf by (apply (Qfloor_resp_le 0) in H; exact H).
  unfold nearest. destruct (Qcompare _ _); [destruct (Z.even _)|..]; lia.
Qed.

Lemma binade_le x : (0 < x)%Q → (pow2 (binade x) <= x)%Q.
Proof.
  destruct x as [n d]. unfold binade. cbn [Qnum Qden]. intros Hx.
  assert (0 < n) as Hn by (unfold Qlt in Hx; cbn in Hx; lia).
  destruct (Qle_bool _ _) eqn:E; [by apply Qle_bool_iff|]. clear E.
  pose proof (Z.log2_spec n Hn) as [Hln _]. pose proof (Z.log2_spec (Zpos d) (Pos2Z.is_pos d)) as [_ Hld].
  pose proof (Z.log2_nonneg n) as Hn0. pose proof (Z.log2_nonneg (Zpos d)) as Hd0.
  set (a := Z.log2 n) in *. set (b := Z.log2 (Zpos d)) in *.
  assert (pow2 (a - b - 1) * pow2 (b + 1) == pow2 a)%Q as Hp by (rewrite <- pow2_plus; by replace (a - b - 1 + (b + 1)) with a by lia).
  assert (pow2 a <= inject_Z n)%Q as H1 by (rewrite pow2_nat by done; by rewrite <- Zle_Qle).
  assert (inject_Z (Zpos d) <= pow2 (b + 1))%Q as H2 by (rewrite pow2_nat by lia; rewrite <- Zle_Qle; lia).
  assert (n # d == inject_Z n / inject_Z (Zpos d))%Q as -> by (by rewrite Qmake_Qdiv).
  apply Qle_shift_div_l; [by rewrite <- (Zlt_Qlt 0)|]. pose proof (pow2_pos (a - b - 1)). nra.
Qed.

Lemma round_pos_error x : (0 < x)%Q → (Qabs (round_pos x - x) <= x * unit_error + tiny)%Q.
Proof.
  intros Hx. unfold round_pos. set (u := spacing x).
  pose proof (nearest_error (x * pow2 (- u))) as Hm%Qabs_Qle_condition. set (m := inject_Z (nearest _)) in *.
  pose proof (pow2_neg u) as Hu. pose proof (pow2_pos u) as Hp.
  assert (pow2 u * (1 # 2) <= x * unit_error + tiny)%Q as Hb.
  { assert (pow2 u * (1 # 2) == pow2 (u - 1))%Q as -> by (unfold Z.sub; rewrite pow2_plus; reflexivity).
    pose proof (binade_le x Hx) as He. unfold u, spacing.
    pose proof (pow2_pos (-53)). pose proof (pow2_pos (-1075)). unfold unit_error, tiny.
    destruct (Z.max_spec (binade x - 52) (-1074)) as [[_ ->]|[_ ->]].
    - change (-1074 - 1) with (-1075). nra.
    - replace (binade x - 52 - 1) with (binade x + - 53) by lia. rewrite pow2_plus. nra. }
  apply Qabs_Qle_condition.
  assert (x == x * pow2 (- u) * pow2 u)%Q as Hxu by (rewrite <- Qmult_assoc, Hu; ring).
  set (y := (x * pow2 (- u))%Q) in *. split; nra.
Qed.

(** What rounding adds at most. *)
Lemma rnd_upper x : (0 <= x)%Q → (rnd x <= x + x * unit_error + tiny)%Q.
Proof.
  intros Hx. unfold rnd. pose proof (pow2_pos (-1075)) as Ht. fold tiny in Ht.
  destruct (Qcompare_spec x 0) as [H|H|H]; [rewrite H; lra | lra |].
  pose proof (round_pos_error x H) as Hm%Qabs_Qle_condition. lra.
Qed.

Lemma rnd_nonneg x : (0 <= x)%Q → (0 <= rnd x)%Q.
Proof.
  intros Hx. unfold rnd. destruct (Qcompare_spec x 0) as [H|H|H]; [done | lra |].
  unfold round_pos. pose proof (pow2_pos (spacing x)). pose proof (pow2_pos (- spacing x)).
  apply Qmult_le_0_compat; [|lra]. rewrite <- (Zle_Qle 0). apply nearest_nonneg. nra.
Qed.

Lemma flt_false x y : flt x y = false ↔ (y <= x)%Q.
Proof. unfold flt. rewrite negb_false_iff. apply Qle_bool_iff. Qed.
Lemma fmin_le x y : (fmin x y <= x)%Q ∧ (fmin x y <= y)%Q.
Proof.
  unfold fmin. destruct (flt y x) eqn:E; [|apply flt_false in E; lra].
  unfold flt in E. apply negb_true_iff in E.
  assert (¬ (x <= y)%Q) by (intros H; apply Qle_bool_iff in H; congruence). split; lra.
Qed.
Lemma fmin_nonneg x y : (0 <= x)%Q → (0 <= y)%Q → (0 <= fmin x y)%Q.
Proof. unfold fmin. by destruct (flt y x). Qed.

(** Small integers are numbers. *)
Lemma nearest_int x m : (x == inject_Z m)%Q → nearest x = m.
Proof.
  intros Hx. unfold nearest. assert (Qfloor x = m) as -> by (rewrite (Qfloor_comp _ _ Hx); apply Qfloor_Z).
  destruct (Qcompare_spec (x - inject_Z m) (1 # 2)); [lra | done | lra].
Qed.

Lemma binade_int n : 0 < n → binade (inject_Z n) ≤ Z.log2 n.
Proof. intros Hn. unfold binade. cbn [Qnum Qden inject_Z]. change (Z.log2 1) with 0. destruct (Qle_bool _ _); lia. Qed.

Lemma of_int_exact n : 0 < n < 2 ^ 53 → (of_int n == inject_Z n)%Q.
Proof.
  intros [Hn Hl]. unfold of_int, rnd.
  assert (0 < inject_Z n)%Q as Hq by (by rewrite <- (Zlt_Qlt 0)).
  destruct (Qcompare_spec (inject_Z n) 0); [lra | lra |]. unfold round_pos. set (s := spacing (inject_Z n)).
  assert (s ≤ 0) as Hs.
  { unfold s, spacing. pose proof (binade_int n Hn). apply Z.log2_lt_pow2 in Hl; [|done]. lia. }
  assert (inject_Z n * pow2 (- s) == inject_Z (n * 2 ^ (- s)))%Q as He.
  { rewrite pow2_nat by lia. by rewrite inject_Z_mult. }
  rewrite (nearest_int _ _ He), <- He, <- Qmult_assoc, pow2_neg. ring.
Qed.

(** * Rate limits *)

Module Bucket.
Record t := mk { tokens : float64; last : time; lastAccess : time }.
End Bucket.

Module TokenBucket.
Record t := mk { rate : float64; capacity : float64; buckets : gmap string Bucket.t }.
#[global] Instance eta : Eta t := fun r => mk (rate r) (capacity r) (buckets r).
End TokenBucket.

Definition NewTokenBucket (ratePerSec capacity : float64) : TokenBucket.t := TokenBucket.mk ratePerSec capacity ∅.

(** [Duration.Seconds] *)
Definition Seconds (d : Z) : float64 :=
  fadd (of_int (Z.quot d Second)) (fdiv (of_int (Z.rem d Second)) (inject_Z 1000000000)).

Section RateLimit.
Implicit Types (t : TokenBucket.t) (key : string) (now : time).

Definition refilled t (b : Bucket.t) now : float64 :=
  fmin (TokenBucket.capacity t)
       (fadd (Bucket.tokens b) (fmul (Seconds (Sub now (Bucket.last b))) (TokenBucket.rate t))).

(** The lock is held throughout. *)
Definition Allow t key now : TokenBucket.t * bool :=
  match TokenBucket.buckets t !! key with
  | None =>
      (t <| TokenBucket.buckets := <[key := Bucket.mk (fsub (TokenBucket.capacity t) 1) now now]> (TokenBucket.buckets t) |>,
       true)
  | Some b =>
      let tokens := refilled t b now in
      let '(tokens, ok) := if flt tokens 1 then (tokens, false) else (fsub tokens 1, true) in
      (t <| TokenBucket.buckets := <[key := Bucket.mk tokens now now]> (TokenBucket.buckets t) |>, ok)
  end.

(** One tick of [evictLoop]. *)
Definition idleAfter : Z := 10 * Minute.
Definition evict t now : TokenBucket.t :=
  let cutoff := now - idleAfter in
  t <| TokenBucket.buckets := filter (fun kv => ¬ Bucket.lastAccess kv.2 < cutoff) (TokenBucket.buckets t) |>.

(** ** Over time

    A tick reads the clock at [now] and gets the lock at [locked]. *)
Inductive event : Type := Call (key : string) (now : time) | Tick (now locked : time).
Definition at_ (e : event) : time := match e with Call _ now => now | Tick _ locked => locked end.

(** The limiter after the events, and how often it has allowed [key]. *)
Definition after (t : TokenBucket.t) (e : event) : TokenBucket.t * option bool :=
  match e with
  | Call key now => let '(t, ok) := Allow t key now in (t, Some ok)
  | Tick now _ => (evict t now, None)
  end.
Fixpoint allowed (key : string) (t : TokenBucket.t) (es : list event) : Z :=
  match es with
  | [] => 0
  | e :: es =>
      let r := after t e in
      (match e, r.2 with Call k _, Some true => if k == key then 1 else 0 | _, _ => 0 end) + allowed key r.1 es
  end.
Fixpoint calls (key : string) (es : list event) : Z :=
  match es with
  | [] => 0
  | Call k _ :: es => (if k == key then 1 else 0) + calls key es
  | Tick _ _ :: es => calls key es
  end.

(** The clock does not go back. *)
Definition timely (from_ : time) (e : event) : Prop :=
  from_ ≤ at_ e ∧ match e with Call _ _ => True | Tick now locked => now ≤ locked end.
Fixpoint in_order (from_ : time) (es : list event) : Prop :=
  match es with [] => True | e :: es => timely from_ e ∧ in_order (at_ e) es end.
Definition ends (from_ : time) (es : list event) : time := foldl (fun _ e => at_ e) from_ es.
Definition after_all (t : TokenBucket.t) (es : list event) : TokenBucket.t := foldl (fun t e => (after t e).1) t es.
End RateLimit.

(** ** Lemmas: sequences of events *)

Lemma allowed_app key es1 es2 : ∀ t, allowed key t (es1 ++ es2) = allowed key t es1 + allowed key (after_all t es1) es2.
Proof.
  induction es1 as [|e es1 IH]; intros t; [done|]. cbn [app allowed]. rewrite IH. cbn [after_all foldl].
  fold (after_all (after t e).1 es1). lia.
Qed.
Lemma after_all_app es1 es2 t : after_all t (es1 ++ es2) = after_all (after_all t es1) es2.
Proof. apply foldl_app. Qed.
Lemma allowed_nonneg key es : ∀ t, 0 ≤ allowed key t es.
Proof.
  induction es as [|e es IH]; intros t; cbn [allowed]; [done|]. specialize (IH (after t e).1).
  destruct e; [|lia]. destruct ((after t _).2) as [[]|]; [destruct (_ == _)|..]; lia.
Qed.
Lemma calls_app key es1 es2 : calls key (es1 ++ es2) = calls key es1 + calls key es2.
Proof. induction es1 as [|[k now|now locked] es1 IH]; cbn [app calls]; lia. Qed.

(** ** Lemmas: what one call adds

    In exact arithmetic a call would find [rate] tokens for every second since
    the last one. *)

Definition secs (d : Z) : Q := d # 1000000000.
Definition spread : Q := pow2 (-50).

Lemma tiny_small : (0 < tiny)%Q ∧ (tiny <= unit_error)%Q.
Proof. split; [apply pow2_pos | by apply pow2_mono]. Qed.
Lemma unit_error_val : (unit_error == 1 # 9007199254740992)%Q.
Proof. reflexivity. Qed.
Lemma spread_val : (spread == 8 # 9007199254740992)%Q.
Proof. reflexivity. Qed.

Lemma secs_split d : (secs d == inject_Z (Z.quot d Second) + inject_Z (Z.rem d Second) / inject_Z 1000000000)%Q.
Proof.
  pose proof (Z.quot_rem' d Second) as H. set (q := Z.quot d Second) in *. set (r := Z.rem d Second) in *.
  unfold secs, Second in *. rewrite Qmake_Qdiv, H, inject_Z_plus, inject_Z_mult.
  change (inject_Z (Zpos 1000000000)) with (inject_Z 1000000000). field.
Qed.

Lemma Seconds_bound d : 0 ≤ d →
  (0 <= Seconds d)%Q ∧ (Seconds d <= secs d + secs d * (4 # 9007199254740992) + 5 * tiny)%Q.
Proof.
  intros Hd. pose proof (secs_split d) as Hs. destruct tiny_small as [Ht Ht1]. rewrite unit_error_val in Ht1.
  pose proof (Z.quot_pos d Second Hd eq_refl) as Hq. pose proof (Z.rem_nonneg d Second ltac:(discriminate) Hd) as Hr.
  unfold Seconds, fadd, fdiv, of_int.
  set (q := Z.quot d Second) in *. set (r := Z.rem d Second) in *.
  rewrite Zle_Qle in Hq, Hr. change (inject_Z 0) with 0%Q in Hq, Hr.
  pose proof (rnd_upper _ Hq) as Hq1. pose proof (rnd_nonneg _ Hq) as Hq2.
  pose proof (rnd_upper _ Hr) as Hr1. pose proof (rnd_nonneg _ Hr) as Hr2.
  assert (rnd (inject_Z r) / inject_Z 1000000000 == rnd (inject_Z r) * (1 # 1000000000))%Q as Hdiv by (unfold Qdiv; reflexivity).
  assert (inject_Z r / inject_Z 1000000000 == inject_Z r * (1 # 1000000000))%Q as Hdiv' by (unfold Qdiv; reflexivity).
  assert (0 <= rnd (inject_Z r) / inject_Z 1000000000)%Q as Hb by (rewrite Hdiv; lra).
  pose proof (rnd_upper _ Hb) as Hb1. pose proof (rnd_nonneg _ Hb) as Hb2.
  set (b := rnd (rnd (inject_Z r) / inject_Z 1000000000)) in *.
  assert (0 <= rnd (inject_Z q) + b)%Q as Hab by lra.
  pose proof (rnd_upper _ Hab) as Hab1. pose proof (rnd_nonneg _ Hab) as Hab2.
  rewrite unit_error_val in *. rewrite Hdiv' in Hs. rewrite Hdiv in Hb1. split; [done|]. lra.
Qed.

(** The budget after a call, whether or not it was let through. *)
Lemma spend_bound t b now :
  (0 <= TokenBucket.rate t)%Q → (1 <= TokenBucket.capacity t)%Q →
  (0 <= Bucket.tokens b <= TokenBucket.capacity t)%Q → Bucket.last b ≤ now →
  (0 <= refilled t b now <= TokenBucket.capacity t)%Q ∧
  (refilled t b now <= Bucket.tokens b + secs (now - Bucket.last b) * TokenBucket.rate t * (1 + spread)
     + (TokenBucket.capacity t + TokenBucket.rate t + 1) * (6 # 9007199254740992))%Q.
Proof.
  intros Hr Hc [Ht0 Ht1] Hl. destruct tiny_small as [Hy Hy1]. unfold refilled.
  set (x := fadd _ _). destruct (fmin_le (TokenBucket.capacity t) x) as [H1 H2].
  assert (0 ≤ Sub now (Bucket.last b) ≤ now - Bucket.last b) as [Hs0 Hs1] by (unfold Sub, two63; lia).
  destruct (Seconds_bound _ Hs0) as [Hn Hu]. set (s := Seconds _) in *.
  assert (secs (Sub now (Bucket.last b)) <= secs (now - Bucket.last b))%Q as Hm by (unfold secs, Qle; cbn; lia).
  set (S := secs (now - Bucket.last b)) in *. set (S0 := secs (Sub _ _)) in *.
  set (r := TokenBucket.rate t) in *. set (cap := TokenBucket.capacity t) in *. set (k := Bucket.tokens b) in *.
  assert (0 <= S0)%Q as HS0 by (unfold S0, secs, Qle; cbn; lia).
  assert (0 <= s * r)%Q as Hsr by (by apply Qmult_le_0_compat).
  pose proof (rnd_upper _ Hsr) as Ha. pose proof (rnd_nonneg _ Hsr) as Ha0. fold (fmul s r) in Ha, Ha0.
  assert (0 <= k + fmul s r)%Q as Hb0 by lra.
  pose proof (rnd_upper _ Hb0) as Hb. pose proof (rnd_nonneg _ Hb0) as Hb1. fold (fadd k (fmul s r)) in Hb, Hb1. fold x in Hb, Hb1.
  assert (s * r <= S * r + S * r * (4 # 9007199254740992) + 5 * (tiny * r))%Q as Hsr'.
  { assert (s <= S + S * (4 # 9007199254740992) + 5 * tiny)%Q as Hle by lra.
    apply (Qmult_le_compat_r _ _ r) in Hle; [|done].
    assert ((S + S * (4 # 9007199254740992) + 5 * tiny) * r ==
      S * r + S * r * (4 # 9007199254740992) + 5 * (tiny * r))%Q as <- by ring. done. }
  assert (0 <= S * r)%Q as HSr by (apply Qmult_le_0_compat; lra).
  assert (0 <= tiny * r <= unit_error * r)%Q as [Hz0 Hz1].
  { split; [apply Qmult_le_0_compat; lra | by apply Qmult_le_compat_r]. }
  rewrite unit_error_val in *. rewrite spread_val.
  set (y := (S * r)%Q) in *. set (z := (tiny * r)%Q) in *.
  split; [split; [apply fmin_nonneg; lra | done]|].
  assert (y * (1 + (8 # 9007199254740992)) == y + y * (8 # 9007199254740992))%Q as -> by ring.
  lra.
Qed.

Definition rounding (t : TokenBucket.t) : Q := ((TokenBucket.capacity t + TokenBucket.rate t + 1) * spread)%Q.
Definition dripped (t : TokenBucket.t) (d : Z) : Q := (secs d * TokenBucket.rate t * (1 + spread))%Q.
Definition taken (ok : bool) : Z := if ok then 1 else 0.

(** The buckets at [now]. *)
Record sane (t : TokenBucket.t) (now : time) : Prop := {
  sane_rate : (0 <= TokenBucket.rate t)%Q;
  sane_capacity : (1 <= TokenBucket.capacity t <= 4503599627370496)%Q;
  sane_buckets : map_Forall (fun _ b => (0 <= Bucket.tokens b <= TokenBucket.capacity t)%Q ∧
    Bucket.lastAccess b = Bucket.last b ∧ Bucket.last b ≤ now) (TokenBucket.buckets t)
}.

Lemma fsub_1 x c : (1 <= x <= c)%Q → (c <= 4503599627370496)%Q →
  (0 <= fsub x 1 <= c)%Q ∧ (fsub x 1 <= x - 1 + (c + 1) * (1 # 9007199254740992))%Q.
Proof.
  intros [H1 H2] Hc. destruct tiny_small as [Ht Ht1]. assert (0 <= x - 1)%Q as Hx by lra.
  pose proof (rnd_upper _ Hx) as Hu. pose proof (rnd_nonneg _ Hx). fold (fsub x 1) in *.
  rewrite unit_error_val in *. split; [split|]; [done|lra..].
Qed.

(** What a call leaves in the bucket, with what it took: no more than a full
    bucket, and no more than there was with what has dripped in. *)
Lemma Allow_spec t key now τ : sane t τ → τ ≤ now →
  ∃ tokens ok, Allow t key now =
    (t <| TokenBucket.buckets := <[key := Bucket.mk tokens now now]> (TokenBucket.buckets t) |>, ok) ∧
    (0 <= tokens <= TokenBucket.capacity t)%Q ∧
    (tokens + inject_Z (taken ok) <= TokenBucket.capacity t + rounding t)%Q ∧
    match TokenBucket.buckets t !! key with
    | None => True
    | Some b => (tokens + inject_Z (taken ok) <= Bucket.tokens b + dripped t (now - Bucket.last b) + rounding t)%Q
    end.
Proof.
  intros [Hr [Hc Hc2] Hb] Hl. unfold Allow, rounding, dripped.
  destruct (TokenBucket.buckets t !! key) as [b|] eqn:Ek.
  - destruct (Hb _ _ Ek) as (Ht & Ha & Hlast).
    destruct (spend_bound t b now Hr Hc Ht ltac:(lia)) as [[H0 H1] H2]. destruct (flt (refilled t b now) 1) eqn:E.
    + do 2 eexists. split; [reflexivity|]. change (inject_Z (taken false)) with 0%Q. repeat split; rewrite ?spread_val in *; lra.
    + apply flt_false in E. destruct (fsub_1 _ _ (conj E H1) Hc2) as [[H3 H4] H5].
      do 2 eexists. split; [reflexivity|]. change (inject_Z (taken true)) with 1%Q. repeat split; rewrite ?spread_val in *; lra.
  - destruct (fsub_1 (TokenBucket.capacity t) _ (conj Hc (Qle_refl _)) Hc2) as [[H3 H4] H5].
    do 2 eexists. split; [reflexivity|]. change (inject_Z (taken true)) with 1%Q. repeat split; rewrite ?spread_val in *; lra.
Qed.

Lemma evict_lookup t now key : TokenBucket.buckets (evict t now) !! key =
  match TokenBucket.buckets t !! key with
  | Some b => if decide (Bucket.lastAccess b < now - idleAfter) then None else Some b
  | None => None
  end.
Proof.
  unfold evict. cbn. destruct (TokenBucket.buckets t !! key) as [b|] eqn:E.
  - destruct (decide _) as [H|H]; [apply map_lookup_filter_None | apply map_lookup_filter_Some]; cbn; [right|done].
    intros b' Hb'. rewrite E in Hb'. injection Hb' as <-. cbn. tauto.
  - apply map_lookup_filter_None. by left.
Qed.

(** The rate and the capacity are settings; the buckets stay sane. *)
Lemma after_settings t e : TokenBucket.rate (after t e).1 = TokenBucket.rate t ∧
  TokenBucket.capacity (after t e).1 = TokenBucket.capacity t.
Proof.
  destruct e as [key now|now locked]; [|done]. cbn [after]. unfold Allow.
  destruct (_ !! key); [|done]. by destruct (flt _ _).
Qed.

Lemma sane_after t τ e : sane t τ → timely τ e → sane (after t e).1 (at_ e).
Proof.
  intros Hs [Hle Hnow]. pose proof Hs as [Hr Hc Hb]. destruct (after_settings t e) as [H1 H2].
  split; rewrite ?H1, ?H2; try done. clear H1 H2. intros k b Hk. destruct e as [key now|now locked]; cbn [after at_] in *.
  - destruct (Allow_spec t key now τ Hs Hle) as (x & ok & E & Hx & _). rewrite E in Hk. cbn in Hk.
    apply lookup_insert_Some in Hk as [[<- <-]|[_ Hk]]; cbn; [split; [done|lia]|].
    destruct (Hb _ _ Hk) as (? & ? & ?). split; [done|]. lia.
  - cbn [fst] in Hk. rewrite evict_lookup in Hk. destruct (_ !! k) as [b'|] eqn:E; [|done].
    destruct (decide _); [done|]. injection Hk as ->. destruct (Hb _ _ E) as (? & ? & ?). split; [done|]. lia.
Qed.

(** ** The account of a key

    From [t0] on: [a] calls let through, [k] buckets dropped, [n] calls made. A
    bucket last used before [t0] is still to be counted. *)
Definition paid (t : TokenBucket.t) (d k n : Z) : Q :=
  (TokenBucket.capacity t * inject_Z k + dripped t d + inject_Z n * rounding t)%Q.
Definition account (key : string) (t0 : time) (t : TokenBucket.t) (now : time) (a k n : Z) : Prop :=
  t0 ≤ now ∧ 0 ≤ k ∧ 0 ≤ n ∧
  match TokenBucket.buckets t !! key with
  | None => k * idleAfter ≤ now - t0 ∧ (inject_Z a <= paid t (now - t0) k n)%Q
  | Some b =>
      (Bucket.last b < t0 ∧ a = 0 ∧ k = 0) ∨
      (t0 ≤ Bucket.last b ∧ k * idleAfter ≤ Bucket.last b - t0 ∧
       (inject_Z a + Bucket.tokens b <= paid t (Bucket.last b - t0) (k + 1) n)%Q)
  end.

Lemma dripped_plus t d d' : (dripped t (d + d') == dripped t d + dripped t d')%Q.
Proof.
  unfold dripped. assert (secs (d + d') == secs d + secs d')%Q as -> by (unfold secs, Qeq; cbn; lia). ring.
Qed.
Lemma dripped_nonneg t d : (0 <= TokenBucket.rate t)%Q → 0 ≤ d → (0 <= dripped t d)%Q.
Proof.
  intros Hr Hd. unfold dripped. apply Qmult_le_0_compat; [apply Qmult_le_0_compat; [|done]|].
  - unfold secs, Qle. cbn. lia.
  - rewrite spread_val. lra.
Qed.
Lemma paid_mono t d d' k n : (0 <= TokenBucket.rate t)%Q → d ≤ d' → (paid t d k n <= paid t d' k n)%Q.
Proof.
  intros Hr Hd. unfold paid. pose proof (dripped_nonneg t (d' - d) Hr ltac:(lia)) as H.
  pose proof (dripped_plus t d (d' - d)) as E. replace (d + (d' - d)) with d' in E by lia. lra.
Qed.
Lemma paid_call t d k n : (paid t d k (n + 1) == paid t d k n + rounding t)%Q.
Proof. unfold paid. rewrite inject_Z_plus. change (inject_Z 1) with 1%Q. ring. Qed.
Lemma paid_bucket t d k n : (paid t d (k + 1) n == paid t d k n + TokenBucket.capacity t)%Q.
Proof. unfold paid. rewrite inject_Z_plus. change (inject_Z 1) with 1%Q. ring. Qed.
Lemma paid_drip t d d' k n : (paid t (d + d') k n == paid t d k n + dripped t d')%Q.
Proof. unfold paid. rewrite dripped_plus. ring. Qed.
Lemma rounding_nonneg t now : sane t now → (0 <= rounding t)%Q.
Proof. intros [Hr [Hc _] _]. unfold rounding. rewrite spread_val. lra. Qed.
Lemma paid_0 t now n : sane t now → 0 ≤ n → (0 <= paid t 0 0 n)%Q.
Proof.
  intros Hs Hn. pose proof (rounding_nonneg t now Hs) as H. unfold paid.
  assert (dripped t 0 == 0)%Q as -> by reflexivity. change (inject_Z 0) with 0%Q.
  rewrite Zle_Qle in Hn. change (inject_Z 0) with 0%Q in Hn.
  pose proof (Qmult_le_0_compat _ _ Hn H). lra.
Qed.

Definition passed (key : string) (e : event) (ok : option bool) : Z :=
  match e, ok with Call k _, Some true => if k == key then 1 else 0 | _, _ => 0 end.
Definition called (key : string) (e : event) : Z := match e with Call k _ => if k == key then 1 else 0 | _ => 0 end.

Lemma account_call key t0 t now0 now a k n : sane t now0 → now0 ≤ now → account key t0 t now0 a k n →
  ∃ k', account key t0 (Allow t key now).1 now (a + taken (Allow t key now).2) k' (n + 1).
Proof.
  intros Hs Hle (H0 & Hk & Hn & Ha). pose proof Hs as [Hr [Hc _] _].
  destruct (Allow_spec t key now now0 Hs Hle) as (x & ok & E & Hx & Hfull & Hdrip).
  pose proof (rounding_nonneg t now0 Hs) as Hround. rewrite E. cbn [fst snd]. exists k.
  unfold account. cbn [TokenBucket.buckets upd TokenBucket.eta eta_of].
  cbn. rewrite lookup_insert_eq. cbn [Bucket.last Bucket.tokens].
  change (paid (TokenBucket.mk (TokenBucket.rate t) (TokenBucket.capacity t) _)) with (paid t).
  do 3 (split; [lia|]). right. rewrite inject_Z_plus, paid_call.
  destruct (TokenBucket.buckets t !! key) as [b|] eqn:Ek.
  - destruct (sane_buckets t now0 Hs _ _ Ek) as (Ht & _ & Hlast). destruct Ha as [(Hl & -> & ->)|(Hl & Hki & Ha)].
    + split; [lia|]. split; [lia|]. pose proof (paid_0 t now0 n Hs Hn) as Hp.
      pose proof (paid_mono t 0 (now - t0) 0 n Hr ltac:(lia)) as Hm. rewrite paid_bucket. change (inject_Z 0) with 0%Q. lra.
    + split; [lia|]. split; [lia|]. replace (now - t0) with (Bucket.last b - t0 + (now - Bucket.last b)) by lia.
      rewrite paid_drip. lra.
  - destruct Ha as [Hki Ha]. split; [lia|]. split; [lia|]. rewrite paid_bucket.
    pose proof (paid_mono t (now0 - t0) (now - t0) k n Hr ltac:(lia)). lra.
Qed.

(** Time passes, and a bucket may be dropped. *)
Lemma account_later key t0 t t' now0 now a k n : (0 <= TokenBucket.rate t)%Q → now0 ≤ now →
  TokenBucket.rate t' = TokenBucket.rate t → TokenBucket.capacity t' = TokenBucket.capacity t →
  TokenBucket.buckets t' !! key = TokenBucket.buckets t !! key →
  account key t0 t now0 a k n → account key t0 t' now a k n.
Proof.
  intros Hr Hle H1 H2 H3 (H0 & Hk & Hn & Ha). unfold account, paid, dripped, rounding in *. rewrite H1, H2, H3.
  do 3 (split; [lia|]). destruct (TokenBucket.buckets t !! key) as [b|]; [done|]. destruct Ha as [Hki Ha].
  split; [lia|]. pose proof (paid_mono t (now0 - t0) (now - t0) k n Hr ltac:(lia)) as H.
  unfold paid, dripped, rounding in H. lra.
Qed.

Lemma account_evict key t0 t now0 now locked a k n : sane t now0 → now0 ≤ locked → now ≤ locked →
  account key t0 t now0 a k n → ∃ k', account key t0 (evict t now) locked a k' n.
Proof.
  intros Hs Hle Hnow Hacc. pose proof Hs as [Hr [Hc _] Hb]. pose proof (evict_lookup t now key) as He.
  destruct (TokenBucket.buckets t !! key) as [b|] eqn:Ek; [destruct (decide _) as [Hd|Hd]|];
    [|exists k; apply (account_later key t0 t (evict t now) now0); try done; by rewrite He, Ek..].
  destruct (Hb _ _ Ek) as ([Ht _] & Hlast & _). destruct Hacc as (H0 & Hk & Hn & Ha). rewrite Ek in Ha.
  destruct Ha as [(Hl & -> & ->)|(Hl & Hki & Ha)]; [exists 0 | exists (k + 1)]; unfold account; rewrite He;
    unfold idleAfter, Minute, Second in *; do 3 (split; [lia|]); (split; [lia|]); change (paid (evict t now)) with (paid t).
  - pose proof (paid_0 t now0 n Hs Hn). pose proof (paid_mono t 0 (locked - t0) 0 n Hr ltac:(lia)).
    change (inject_Z 0) with 0%Q. lra.
  - pose proof (paid_mono t (Bucket.last b - t0) (locked - t0) (k + 1) n Hr ltac:(lia)). lra.
Qed.

Lemma account_after key t0 t now0 e a k n : sane t now0 → timely now0 e → account key t0 t now0 a k n →
  ∃ k', account key t0 (after t e).1 (at_ e) (a + passed key e (after t e).2) k' (n + called key e).
Proof.
  intros Hs [Hle Hnow] Hacc. destruct e as [k0 now|now locked]; cbn [after at_ passed called] in *.
  - destruct (Allow t k0 now) as [t' ok] eqn:E. cbn [fst snd].
    destruct (decide (k0 = key)) as [->|Hne].
    + destruct (account_call key t0 t now0 now a k n Hs Hle Hacc) as [k' H]. exists k'. rewrite E in H. cbn in H.
      rewrite bool_decide_true by done. by destruct ok.
    + exists k. rewrite bool_decide_false by done. replace (match ok with true | _ => 0 end) with 0 by (by destruct ok).
      rewrite !Z.add_0_r. destruct (Allow_spec t k0 now now0 Hs Hle) as (x & ok' & E' & _). rewrite E in E'.
      injection E' as -> _. apply (account_later key t0 t _ now0); try done; [apply Hs|]. cbn. by rewrite lookup_insert_ne.
  - rewrite !Z.add_0_r. by apply (account_evict key t0 t now0 now locked a k n).
Qed.

Lemma account_all key t0 es : ∀ t now a k n, sane t now → in_order now es → account key t0 t now a k n →
  ∃ k', account key t0 (after_all t es) (ends now es) (a + allowed key t es) k' (n + calls key es).
Proof.
  induction es as [|e es IH]; intros t now a k n Hs Hes Hacc.
  - exists k. cbn. by rewrite !Z.add_0_r.
  - destruct Hes as [He Hes]. destruct (account_after key t0 t now e a k n Hs He Hacc) as [k1 Hacc'].
    destruct (IH _ _ _ _ _ (sane_after _ _ _ Hs He) Hes Hacc') as [k2 H]. exists k2.
    cbn [after_all foldl ends allowed]. fold (after_all (after t e).1 es). fold (ends (at_ e) es).
    replace (a + (_ + allowed key (after t e).1 es)) with (a + passed key e (after t e).2 + allowed key (after t e).1 es)
      by (unfold passed; destruct e; lia).
    replace (n + calls key (e :: es)) with (n + called key e + calls key es) by (destruct e; cbn; lia). done.
Qed.

Lemma sane_all es : ∀ t now, sane t now → in_order now es → sane (after_all t es) (ends now es).
Proof.
  induction es as [|e es IH]; intros t now Hs Hes; [done|]. destruct Hes as [He Hes].
  apply IH; [by eapply sane_after | done].
Qed.

Lemma after_all_settings es : ∀ t, TokenBucket.rate (after_all t es) = TokenBucket.rate t ∧
  TokenBucket.capacity (after_all t es) = TokenBucket.capacity t.
Proof.
  induction es as [|e es IH]; intros t; [done|]. destruct (after_settings t e) as [<- <-]. apply IH.
Qed.

Lemma account_start key t now : sane t now → account key now t now 0 0 0.
Proof.
  intros Hs. pose proof Hs as [_ _ Hb]. do 3 (split; [lia|]). pose proof (paid_0 t now 0 Hs ltac:(lia)) as Hp.
  rewrite Z.sub_diag. destruct (_ !! key) as [b|] eqn:E; [|done]. destruct (Hb _ _ E) as ([H1 H2] & _ & H3).
  destruct (decide (Bucket.last b < now)); [by left|]. assert (Bucket.last b = now) as -> by lia.
  right. split; [lia|]. rewrite Z.sub_diag. split; [done|]. rewrite paid_bucket. change (inject_Z 0) with 0%Q in *. lra.
Qed.

Lemma account_total key t0 t now a k n : sane t now → account key t0 t now a k n →
  (inject_Z a <= TokenBucket.capacity t * (1 + inject_Z (now - t0) / inject_Z idleAfter) + dripped t (now - t0)
    + inject_Z n * rounding t)%Q.
Proof.
  intros Hs (H0 & Hk & Hn & Ha). pose proof Hs as [Hr [Hc _] Hb].
  assert (∀ d, k * idleAfter ≤ d → d ≤ now - t0 → (inject_Z k <= inject_Z (now - t0) / inject_Z idleAfter)%Q) as Hki.
  { intros d H1 H2. apply Qle_shift_div_l; [done|]. rewrite <- inject_Z_mult, <- Zle_Qle. lia. }
  set (share := (inject_Z (now - t0) / inject_Z idleAfter)%Q) in *.
  assert (0 <= share)%Q as Hshare.
  { unfold share. apply Qle_shift_div_l; [done|]. rewrite Qmult_0_l. rewrite <- (Zle_Qle 0). lia. }
  pose proof (paid_0 t now n Hs Hn) as Hp. pose proof (dripped_nonneg t (now - t0) Hr ltac:(lia)) as Hd.
  assert (∀ d, k * idleAfter ≤ d → 0 ≤ d ≤ now - t0 → (inject_Z a <= paid t d (k + 1) n)%Q →
    (inject_Z a <= TokenBucket.capacity t * (1 + share) + dripped t (now - t0) + inject_Z n * rounding t)%Q) as Hfin.
  { intros d H1 [_ H2] H3. specialize (Hki d H1 H2). pose proof (paid_mono t d (now - t0) (k + 1) n Hr H2) as Hm.
    rewrite !paid_bucket in *. unfold paid in *. nra. }
  destruct (TokenBucket.buckets t !! key) as [b|] eqn:E.
  - destruct (Hb _ _ E) as ([Ht _] & _ & Hl). destruct Ha as [(_ & -> & ->)|(H1 & H2 & Ha)].
    + apply (Hfin 0); [lia..|]. rewrite paid_bucket. change (inject_Z 0) with 0%Q. lra.
    + apply (Hfin (Bucket.last b - t0)); [lia..|]. lra.
  - destruct Ha as [H1 Ha]. apply (Hfin (now - t0)); [lia..|]. rewrite paid_bucket. lra.
Qed.

(** How many calls a key gets through, from any moment on: a full budget,
    what drips in at the configured rate, and one more budget for every ten
    minutes of the stretch, since a bucket that has been idle for that long is
    dropped and starts full; the rounding of floating point adds less than
    (capacity + rate + 1) 2^-50 per call made. *)
Lemma limiter_bound key ratePerSec capacity before es start :
  let t := after_all (NewTokenBucket ratePerSec capacity) before in
  (0 <= ratePerSec)%Q → (1 <= capacity <= 4503599627370496)%Q →
  in_order zero_time before → start = ends zero_time before → in_order start es →
  let stretch := ends start es - start in
  (inject_Z (allowed key t es) <=
   capacity * (1 + inject_Z stretch / inject_Z idleAfter) + secs stretch * ratePerSec * (1 + spread)
   + inject_Z (calls key es) * ((capacity + ratePerSec + 1) * spread))%Q.
Proof.
  intros t Hr Hc Hb -> Hes stretch.
  assert (sane (NewTokenBucket ratePerSec capacity) zero_time) as H0 by (split; [done | done | apply map_Forall_empty]).
  pose proof (sane_all before _ _ H0 Hb) as Hs. fold t in Hs. set (start := ends zero_time before) in *.
  destruct (after_all_settings before (NewTokenBucket ratePerSec capacity)) as [Er Ec]. fold t in Er, Ec.
  destruct (account_all key start es t start 0 0 0 Hs Hes (account_start key t start Hs)) as [k Ha].
  pose proof (account_total key start _ _ _ _ _ (sane_all es t start Hs Hes) Ha) as H.
  destruct (after_all_settings es t) as [Er' Ec']. unfold dripped, rounding in H. rewrite Er', Ec', Er, Ec in H. exact H.
Qed.

(** ** Examples

    The limiter of the credential endpoints: a burst of eight, one more every
    two minutes. *)
Definition drip : float64 := fdiv 1 (of_int 120).
Definition auth_bucket : TokenBucket.t := NewTokenBucket drip (of_int 8).
Definition tries (n : nat) (now : time) : list event := replicate n (Call "acct" now).

Example burst_of_eight : allowed "acct" auth_bucket (tries 20 Minute) = 8.
Proof. vm_compute. reflexivity. Qed.

(** Eleven minutes later five are back; but a bucket that has been idle for ten
    minutes may have been dropped by then, and all eight are. *)
Example idle_refill :
  allowed "acct" auth_bucket (tries 20 Minute ++ tries 20 (12 * Minute)) = 13 ∧
  allowed "acct" auth_bucket (tries 20 Minute ++ [Tick (12 * Minute) (12 * Minute)] ++ tries 20 (12 * Minute)) = 16.
Proof. vm_compute. done. Qed.
