(* ===== verification/ClientIP.v ===== *)
(** * Whose request it is

    [api/internal/httpx/clientip.go], with the parts of package [net] it uses:
    reading an address ([net.ParseIP], [net/netip]) and splitting a port off. *)

From Stdlib Require Import Ascii.
From S2P Require Import Prelude.
From S2P Require Import GoStrings.
From S2P Require Import Domain.
From S2P Require Import Crypto.
From S2P Require Import Strconv.
From S2P Require Import Ident.
From S2P Require Import Nodelist.

(** ** Package net *)

(** The sixteen bytes of an address; one of four is written with this prefix. *)
Definition v4_prefix : list Z := [0; 0; 0; 0; 0; 0; 0; 0; 0; 0; 255; 255].
Definition parse_v4 (s : string) : option (list Z) :=
  if dotted_address s then Some (decimal 0 <$> Split s ".") else None.

(** A field of hexadecimal digits at the head of a string: at most four, its
    value and what follows; [None] when there is none or more. *)
Fixpoint hex_field (n : nat) (acc : Z) (s : string) : option (Z * string) :=
  match s with
  | EmptyString => Some (acc, s)
  | String c s' =>
      match unhex c, n with
      | None, _ => Some (acc, s)
      | Some d, S n => hex_field n (acc * 16 + d) s'
      | Some _, O => None
      end
  end.
Definition field (s : string) : option (Z * string) :=
  match s with
  | String c _ => if unhex c is Some _ then hex_field 4 0 s else None
  | EmptyString => None
  end.

(** The bytes before and after the ellipsis, put together. *)
Definition filled (ip : list Z) (ellipsis : option nat) : option (list Z) :=
  match ellipsis, decide (length ip < 16)%nat with
  | None, left _ | Some _, right _ => None
  | None, right _ => Some ip
  | Some e, left _ => Some (take e ip ++ replicate (16 - length ip) 0 ++ drop e ip)
  end.

(** The fields of [parseIPv6]; sixteen bytes are eight fields. *)
Fixpoint v6_fields (n : nat) (ip : list Z) (ellipsis : option nat) (s : string) : option (list Z) :=
  match n with
  | O => None
  | S n =>
      match field s with
      | None => None
      | Some (acc, s') =>
          match s' with
          | String "." _ =>
              if bool_decide (ellipsis = None) && negb (length ip =? 12)%nat then None
              else if (16 <? length ip + 4)%nat then None
              else match parse_v4 s with None => None | Some v4 => filled (ip ++ v4) ellipsis end
          | _ =>
              let ip := ip ++ [Z.shiftr acc 8; Z.land acc 255] in
              match s' with
              | EmptyString => filled ip ellipsis
              | String ":" EmptyString => None
              | String ":" (String ":" rest) =>
                  if ellipsis is Some _ then None
                  else if rest == "" then filled ip (Some (length ip))
                  else v6_fields n ip (Some (length ip)) rest
              | String ":" rest => v6_fields n ip ellipsis rest
              | _ => None
              end
          end
      end
  end.
Definition parse_v6 (s : string) : option (list Z) :=
  match s with
  | String ":" (String ":" rest) => if rest == "" then Some (replicate 16 0) else v6_fields 8 [] (Some 0%nat) rest
  | _ => v6_fields 8 [] None s
  end.

(** The first of the bytes [.:%] decides; an address with a zone is none to
    [net.ParseIP]. *)
Fixpoint address_kind (s : string) : option ascii :=
  match s with
  | EmptyString => None
  | String c s' => if (c == "."%char) || (c == ":"%char) || (c == "%"%char) then Some c else address_kind s'
  end.
Definition ParseIP (s : string) : option (list Z) :=
  match address_kind s with
  | Some "."%char => v4 ← parse_v4 s; Some (v4_prefix ++ v4)
  | Some ":"%char => if Contains s "%" then None else parse_v6 s
  | _ => None
  end.

(** [ip.To4()] *)
Definition To4 (ip : list Z) : option (list Z) := if bool_decide (take 12 ip = v4_prefix) then Some (drop 12 ip) else None.
Definition IsLoopback (ip : list Z) : bool :=
  match To4 ip with
  | Some v4 => nth 0 v4 0 =? 127
  | None => bool_decide (ip = replicate 15 0 ++ [1])
  end.
Definition IsPrivate (ip : list Z) : bool :=
  match To4 ip with
  | Some v4 => (nth 0 v4 0 =? 10) || (nth 0 v4 0 =? 172) && (Z.land (nth 1 v4 0) 240 =? 16)
               || (nth 0 v4 0 =? 192) && (nth 1 v4 0 =? 168)
  | None => Z.land (nth 0 ip 0) 254 =? 252
  end.
Definition IsLinkLocalUnicast (ip : list Z) : bool :=
  match To4 ip with
  | Some v4 => (nth 0 v4 0 =? 169) && (nth 1 v4 0 =? 254)
  | None => (nth 0 ip 0 =? 254) && (Z.land (nth 1 ip 0) 192 =? 128)
  end.

(** [net.SplitHostPort]; [None] for its errors. *)
Definition SplitHostPort (hostport : string) : option (string * string) :=
  match hostport with
  | String "[" rest =>
      match Cut rest "]" with
      | (host, String ":" port, true) =>
          if free_of ":" port && free_of "[" host && free_of "[" port && free_of "]" port
          then Some (host, port) else None
      | _ => None
      end
  | _ =>
      match CutLast hostport ":" with
      | Some (host, port) =>
          if free_of ":" host && free_of "[" hostport && free_of "]" hostport then Some (host, port) else None
      | None => None
      end
  end.

(** ** Package httpx *)

(** The data of an [http.Request] the address is read from: a header's first
    value, "" when there is none. *)
Module HttpRequest.
Record t := mk { Header : gmap string string; RemoteAddr : string }.
Definition Get (r : t) (name : string) : string := default "" (Header r !! name).
End HttpRequest.

Section ClientIP.
Context {U : Unicode}.

Definition forwarded_for (r : HttpRequest.t) : string :=
  let xff := HttpRequest.Get r "X-Forwarded-For" in
  if xff == "" then ""
  else let '(first, _, found) := Cut xff "," in if found then TrimSpace first else TrimSpace xff.

Definition ClientIP (r : HttpRequest.t) (trustProxy : bool) : string :=
  let direct := match SplitHostPort (HttpRequest.RemoteAddr r) with
                | Some (host, _) => host
                | None => HttpRequest.RemoteAddr r
                end in
  if trustProxy then
    if forwarded_for r != "" then forwarded_for r
    else let real := TrimSpace (HttpRequest.Get r "X-Real-Ip") in
         if real != "" then real else direct
  else direct.

Definition ClientIPIsDistinct (ip : string) (trustProxy : bool) : bool :=
  if trustProxy then true
  else match ParseIP ip with
       | None => false
       | Some addr => negb (IsLoopback addr) && negb (IsPrivate addr) && negb (IsLinkLocalUnicast addr)
       end.
End ClientIP.

Example ParseIP_v4 : ParseIP "192.168.0.1" = Some (v4_prefix ++ [192; 168; 0; 1]) ∧ ParseIP "1.2.3" = None ∧
  ParseIP "01.2.3.4" = None ∧ ParseIP "host" = None.
Proof. vm_compute. done. Qed.
Example ParseIP_v6 : ParseIP "fe80::1" = Some ([254; 128] ++ replicate 13 0 ++ [1]) ∧
  ParseIP "::ffff:10.0.0.1" = Some (v4_prefix ++ [10; 0; 0; 1]) ∧ ParseIP "::" = Some (replicate 16 0) ∧
  ParseIP "1:2:3:4:5:6:7:8" = Some [0; 1; 0; 2; 0; 3; 0; 4; 0; 5; 0; 6; 0; 7; 0; 8] ∧
  ParseIP "1:2:3:4:5:6:7::" = Some [0; 1; 0; 2; 0; 3; 0; 4; 0; 5; 0; 6; 0; 7; 0; 0] ∧
  ParseIP "1::2::3" = None ∧ ParseIP "1:2:3:4:5:6:7:8:9" = None ∧ ParseIP "12345::" = None ∧ ParseIP "fe80::1%eth0" = None.
Proof. vm_compute. done. Qed.
Example distinct_callers :
  (λ ip, ClientIPIsDistinct ip false) <$> ["127.0.0.1"; "::1"; "10.1.2.3"; "172.17.0.2"; "172.32.0.2"; "fd00::1"; "fe80::1"; "::ffff:127.0.0.1"; "8.8.8.8"; "2001:db8::1"; "pipe"]
  = [false; false; false; false; true; false; false; false; true; true; false].
Proof. vm_compute. reflexivity. Qed.

(** ** Lemmas *)

Lemma CutLast_free sep a b : free_of sep b = true → CutLast (String.append a (String sep b)) sep = Some (a, b).
Proof.
  intros Hb. assert (CutLast b sep = None) as Hn.
  { unfold free_of in Hb. induction b as [|c b IH]; [done|]. cbn [all_bytes CutLast] in *.
    apply andb_true_iff in Hb as [Hc Hb]. rewrite (IH Hb). apply negb_true_iff, bool_decide_eq_false in Hc.
    by rewrite bool_decide_false. }
  induction a as [|c a IH]; cbn [String.append CutLast]; [by rewrite Hn, bool_decide_true | by rewrite IH].
Qed.
