(* ===== verification/Bootstrap.v ===== *)
(** * Starting a process

    [api/internal/bootstrap/bootstrap.go]: which implementation of each service
    a configuration asks for, and the secrets and keys it starts with;
    [ParseHostKey] and [NewHostKey] of [auth/token.go], [NewSharedSecret] of
    [auth/auth.go]. What a constructor connects to is another service: whether
    it answers is an argument. *)

From Stdlib Require Import Ascii QArith.
From S2P Require Import Prelude.
From S2P Require Import GoStrings.
From S2P Require Import Domain.
From S2P Require Import Crypto.
From S2P Require Import Ident.
From S2P Require Import Nodelist.
From S2P Require Import Auth.
From S2P Require Import Tokens.
From S2P Require Import Federation.
From S2P Require Import FedClient.
From S2P Require Import RateLimit.
From S2P Require Import Config.

(** ** Keys

    A private key is identified with its seed. *)

Inductive key_err : Type := ErrNotBase64 | ErrKeySize (size : Z).

Section Keys.
Context {U : Unicode}.

Definition decode_key (size : Z) (encoded : string) : result key_err bytes :=
  match base64url_decode (TrimRight encoded "=") with
  | None => Err ErrNotBase64
  | Some b => if slen b != size then Err (ErrKeySize (slen b)) else Ok b
  end.

(** [Ok None] is the nil key beside a nil error. *)
Definition ParseHostKey (encoded : string) : result key_err (option bytes) :=
  let encoded := TrimSpace encoded in
  if encoded == "" then Ok None
  else let? seed := decode_key SeedSize encoded in Ok (Some seed).

Definition parseCoordKey (encoded : string) : result key_err bytes := decode_key PublicKeySize (TrimSpace encoded).
End Keys.

(** [seed] and [b] are what [rand.Read] draws. *)
Definition NewHostKey_of (seed : bytes) : bytes * string := (seed, base64url seed).
Definition NewSharedSecret_of (b : bytes) : string := base64url b.

(** ** Services *)

(** What has to be reached or read before a service is there. *)
Inductive connection : Type :=
| ToMongo (uri db : string) | ToGridFS (uri db : string) | ToRabbit (uri queue : string)
| ToFCM (credentials apiURL : string) | ToAPNs (keyFile keyID teamID bundleID : string) (production : bool)
| ToSMTP (host : string) (port : Z) (from_ user pass : string) (insecure : bool).

Inductive blob_service : Type := GridFS (uri db : string) | BlobInMemory.
Inductive store_service : Type := MongoStore (uri db : string) (blobs : blob_service) | StoreInMemory (blobs : blob_service).
(** A queue in memory belongs to the call that made it. *)
Inductive queue_service : Type := RabbitQueue (uri queue : string) | QueueInMemory.
Inductive live_service : Type := RedisBus (channel : string) | MemoryBus.
Inductive mailbox_service : Type := RedisMailbox (prefix : string) | MailboxInMemory.
Inductive limiter_service : Type := RedisLimiter (rate burst : float64) (prefix : string) | BucketInMemory (t : TokenBucket.t).
Inductive dedup_service : Type := RedisDedup (prefix : string) | DedupInMemory.
Inductive codes_service : Type := RedisCodes (prefix : string) | CodesInMemory.
Inductive mail_service : Type := SMTP (host : string) (port : Z) (from_ user pass : string) (insecure : bool) | MailLog.
Record web_push := WebPush { vapidPublic : string; vapidPrivate : string; vapidSubject : string; webAPI : string }.
Inductive push_service : Type :=
| PushLog
| Multi (fcm : option (string * string)) (web : option web_push) (voip : bool).

Inductive boot_err : Type :=
| UnknownDriver (what name : string)
| Unreachable (c : connection)
| BadKey (what : string) (e : key_err)
| NoFile (path : string)
| BadNodelist (e : node_err).

Module Builder.
Record t := mk { blob : option blob_service; tokens : option TokenManager.t }.
#[global] Instance eta : Eta t := fun r => mk (blob r) (tokens r).
Definition New : t := mk None None.
End Builder.

(** The values printed in the repository. *)
Definition knownPlaceholderSecrets : list string :=
  ["dev-insecure-change-me"; "change-me"; "change-me-32+chars"; "changeme"; "secret"].

Section Bootstrap.
Context {U : Unicode} {E : Ed25519}.
Context (cfg : Config.t) (reaches : connection → bool).
Implicit Types (b : Builder.t).

Definition connected {X} (c : connection) (x : X) : result boot_err X := if reaches c then Ok x else Err (Unreachable c).

Definition Blob b : Builder.t * result boot_err blob_service :=
  match Builder.blob b with
  | Some bs => (b, Ok bs)
  | None =>
      let made :=
        if Config.BlobDriver cfg == "gridfs"
        then connected (ToGridFS (Config.MongoURI cfg) (Config.MongoDB cfg)) (GridFS (Config.MongoURI cfg) (Config.MongoDB cfg))
        else if (Config.BlobDriver cfg == "memory") || (Config.BlobDriver cfg == "") then Ok BlobInMemory
        else Err (UnknownDriver "blob" (Config.BlobDriver cfg)) in
      (match made with Ok bs => b <| Builder.blob := Some bs |> | Err _ => b end, made)
  end.

Definition Store b : Builder.t * result boot_err store_service :=
  let '(b, r) := Blob b in
  (b, let? bs := r in
      if Config.StoreDriver cfg == "mongo"
      then connected (ToMongo (Config.MongoURI cfg) (Config.MongoDB cfg)) (MongoStore (Config.MongoURI cfg) (Config.MongoDB cfg) bs)
      else if (Config.StoreDriver cfg == "memory") || (Config.StoreDriver cfg == "") then Ok (StoreInMemory bs)
      else Err (UnknownDriver "store" (Config.StoreDriver cfg))).

Definition queue : result boot_err queue_service :=
  if Config.BrokerDriver cfg == "rabbit"
  then connected (ToRabbit (Config.RabbitURI cfg) (Config.Queue cfg)) (RabbitQueue (Config.RabbitURI cfg) (Config.Queue cfg))
  else if (Config.BrokerDriver cfg == "memory") || (Config.BrokerDriver cfg == "") then Ok QueueInMemory
  else Err (UnknownDriver "broker" (Config.BrokerDriver cfg)).
Definition Publisher : result boot_err queue_service := queue.
Definition Consumer : result boot_err queue_service := queue.

Definition Live : result boot_err live_service :=
  if Config.LiveDriver cfg == "redis" then Ok (RedisBus (Config.Exchange cfg))
  else if (Config.LiveDriver cfg == "memory") || (Config.LiveDriver cfg == "") then Ok MemoryBus
  else Err (UnknownDriver "live" (Config.LiveDriver cfg)).

Definition CallMailbox : mailbox_service :=
  if Config.LiveDriver cfg == "redis" then RedisMailbox "pheme:call" else MailboxInMemory.

Definition limiter (rate burst : float64) (prefix : string) : limiter_service :=
  if Config.RateLimitDriver cfg == "redis" then RedisLimiter rate burst prefix
  else BucketInMemory (NewTokenBucket rate burst).
Definition Limiter : limiter_service := limiter (of_int 20) (of_int 40) "pheme:rl".

(** Settings that make no sense are replaced. *)
Definition auth_burst : Z := if Config.AuthRateBurst cfg <=? 0 then 8 else Config.AuthRateBurst cfg.
Definition auth_refill : Z := if Config.AuthRateRefillSeconds cfg <=? 0 then 120 else Config.AuthRateRefillSeconds cfg.
Definition auth_rate : float64 := fdiv 1%Q (of_int auth_refill).
Definition AuthLimiter : limiter_service := limiter auth_rate (of_int auth_burst) "pheme:rl:auth".

Definition Dedup : dedup_service :=
  if Config.RateLimitDriver cfg == "redis" then RedisDedup "pheme:idem:" else DedupInMemory.
Definition Codes : codes_service := if Config.OTPDriver cfg == "redis" then RedisCodes "pheme:otp" else CodesInMemory.

(** Whether iPhones can be rung; a key that does not load only goes to the
    log. *)
Definition voip : bool :=
  (Config.APNsKeyFile cfg != "") &&
  reaches (ToAPNs (Config.APNsKeyFile cfg) (Config.APNsKeyID cfg) (Config.APNsTeamID cfg) (Config.APNsBundleID cfg)
             (Config.APNsProduction cfg)).

Definition fcm (k : string * string → push_service) : result boot_err push_service :=
  let c := (Config.FCMCredentialsFile cfg, Config.PublicAPIURL cfg) in connected (ToFCM c.1 c.2) (k c).
Definition Push : result boot_err push_service :=
  let web := WebPush (Config.VAPIDPublicKey cfg) (Config.VAPIDPrivateKey cfg) (Config.VAPIDSubject cfg) (Config.PublicAPIURL cfg) in
  let driver := Config.PushDriver cfg in
  if driver == "fcm" then fcm (fun c => Multi (Some c) None voip)
  else if driver == "webpush" then Ok (Multi None (Some web) voip)
  else if driver == "both" then fcm (fun c => Multi (Some c) (Some web) voip)
  else if (driver == "log") || (driver == "") then Ok PushLog
  else Err (UnknownDriver "push" driver).

Definition Mailer : result boot_err mail_service :=
  let '(host, port, from_, user, pass, insecure) :=
    (Config.SMTPHost cfg, Config.SMTPPort cfg, Config.SMTPFrom cfg, Config.SMTPUser cfg, Config.SMTPPass cfg,
     Config.SMTPInsecureTLS cfg) in
  if Config.MailDriver cfg == "smtp"
  then connected (ToSMTP host port from_ user pass insecure) (SMTP host port from_ user pass insecure)
  else if (Config.MailDriver cfg == "log") || (Config.MailDriver cfg == "") then Ok MailLog
  else Err (UnknownDriver "mail" (Config.MailDriver cfg)).

(** [None] is a panic: the process does not start. [random] is what
    [NewSharedSecret] draws, if it can. *)
Definition jwtSecret (random : option bytes) : option string :=
  let secret := TrimSpace (Config.JWTSecret cfg) in
  if bool_decide (ToLower secret ∈ knownPlaceholderSecrets) then None
  else if secret == "" then NewSharedSecret_of <$> random
  else Some secret.

Definition Tokens b (random : option bytes) : option (Builder.t * TokenManager.t) :=
  match Builder.tokens b with
  | Some m => Some (b, m)
  | None =>
      match jwtSecret random with
      | None => None
      | Some secret =>
          let m := TokenManager.NewTokenManager secret (Config.AccessTokenTTL cfg) (Config.RefreshTokenTTL cfg) in
          let m := if IsZero (Config.LegacyHS256Until cfg) then m
                   else TokenManager.AllowLegacyHS256Until m (Config.LegacyHS256Until cfg) in
          match ParseHostKey (Config.HostKey cfg) with
          | Err _ => None
          | Ok None => Some (b <| Builder.tokens := Some m |>, m)
          | Ok (Some key) =>
              if Config.HostDomain cfg == "" then None
              else let m := TokenManager.UseHostKey m key (Config.HostDomain cfg) in
                   Some (b <| Builder.tokens := Some m |>, m)
          end
      end
  end.

(** [Ok None] is no federation; [None] a panic of [ed25519.Verify].
    [read_file] is [os.ReadFile]. *)
Definition Nodelist {J : ListJSON} (read_file : string → option string) (now : time)
  : option (result boot_err (option NodeStore.t)) :=
  let key := Config.NodelistCoordKey cfg in
  let path := Config.NodelistPath cfg in
  if (key == "") || (path == "") then Some (Ok None)
  else match parseCoordKey key with
  | Err e => Some (Err (BadKey "nodelist coordinator key" e))
  | Ok coord =>
      match read_file path with
      | None => Some (Err (NoFile path))
      | Some doc =>
          match NodeStore.Replace (NodeStore.NewStore coord) doc now with
          | None => None
          | Some (_, Err e) => Some (Err (BadNodelist e))
          | Some (s, Ok _) => Some (Ok (Some s))
          end
      end
  end.

Definition peer_override (m : gmap string string) (pair : string) : gmap string string :=
  let '(domain, url, ok) := Cut (TrimSpace pair) "=" in
  let domain := TrimSpace domain in
  let url := TrimSpace url in
  if ok && (domain != "") && (url != "") then <[domain := TrimRight url "/"]> m else m.
Definition parsePeerURLs (l : string) : gmap string string :=
  if TrimSpace l == "" then ∅ else foldl peer_override ∅ (Split l ",").

Definition FederationClient : result boot_err (option Client.t) :=
  match ParseHostKey (Config.HostKey cfg) with
  | Err e => Err (BadKey "host key" e)
  | Ok None => Ok None
  | Ok (Some key) =>
      if Config.HostDomain cfg == "" then Ok None
      else
        let client := NewClient (Config.HostDomain cfg) (HostKeyID (ed_public key)) key in
        let overrides := parsePeerURLs (Config.PeerURLs cfg) in
        Ok (Some (if (0 <? size overrides)%nat
                  then Client.mk (Client.origin client) (Client.keyID client) (Client.key client)
                         (fun domain => default (PeerBaseURL domain) (overrides !! domain))
                  else client))
  end.
End Bootstrap.

(** ** Keys as text *)

Section KeyText.
Context {U : Unicode}.

Definition blanks (s : string) : Prop := all_bytes (fun c => is_ascii c && is_space c) s = true.

Lemma skip_space_blanks a s : blanks a → skip_space (String.append a s) = skip_space s.
Proof.
  unfold blanks. induction a as [|c a IH]; [done|]. cbn [all_bytes String.append skip_space].
  intros [[-> ->]%andb_true_iff Ha]%andb_true_iff. cbn [negb]. by apply IH.
Qed.

(** Blanks around a printable string are trimmed. *)
Lemma TrimSpace_blanks a s b : blanks a → blanks b → all_bytes printable s = true →
  TrimSpace (String.append a (String.append s b)) = s.
Proof.
  intros Ha Hb Hs. unfold TrimSpace. rewrite skip_space_blanks by done.
  destruct s as [|c s].
  - cbn [String.append]. rewrite <- (append_nil_r b), skip_space_blanks by done. done.
  - pose proof Hs as Hs'. cbn [all_bytes] in Hs'. apply andb_true_iff in Hs' as [Hc _]. apply printable_plain in Hc as [H1 H2].
    cbn [String.append skip_space]. rewrite H1, H2. cbn [negb].
    change (String c (String.append s b)) with (String.append (String c s) b). rewrite rev_string_append.
    rewrite skip_space_blanks by (unfold blanks; by rewrite all_bytes_rev).
    rewrite skip_space_printable by (by rewrite all_bytes_rev). apply rev_string_involutive.
Qed.

Lemma TrimLeft_skip a s cutset : all_bytes (fun c => mem_byte c cutset) a = true →
  TrimLeft (String.append a s) cutset = TrimLeft s cutset.
Proof. induction a as [|c a IH]; [done|]. cbn [all_bytes String.append TrimLeft]. by intros [-> Ha%IH]%andb_true_iff. Qed.

Lemma TrimRight_pad x pad : all_bytes (fun c => mem_byte c "=") pad = true →
  TrimRight (String.append (base64url x) pad) "=" = base64url x.
Proof.
  intros Hp. transitivity (TrimRight (base64url x) "="); [|apply TrimRight_base64url].
  unfold TrimRight. by rewrite rev_string_append, TrimLeft_skip by (by rewrite all_bytes_rev).
Qed.

(** A key as an operator may write it: with blanks around it, and padded. *)
Definition written (a pad b encoded : string) : string := String.append a (String.append (String.append encoded pad) b).
Definition padding (pad : string) : Prop := all_bytes (fun c => mem_byte c "=") pad = true.

Lemma decode_written a pad b size k : blanks a → padding pad → blanks b → slen k = size → 0 < size →
  TrimSpace (written a pad b (base64url k)) ≠ "" ∧
  decode_key size (TrimSpace (written a pad b (base64url k))) = Ok k.
Proof.
  intros Ha Hp Hb Hs Hpos. unfold written. rewrite TrimSpace_blanks; [|done..|].
  - split.
    + pose proof (base64url_nonempty k) as Hn. destruct (base64url k); [|done].
      destruct Hn; [|done]. intros ->. unfold slen in Hs. cbn in Hs. lia.
    + unfold decode_key. by rewrite TrimRight_pad, base64url_roundtrip, Hs, bool_decide_true.
  - rewrite all_bytes_append. apply andb_true_iff. split.
    + eapply all_bytes_impl, base64url_alphabet. intros c. destruct c as [[] [] [] [] [] [] [] []]; vm_compute; done.
    + eapply all_bytes_impl, Hp. intros c. cbn [mem_byte]. rewrite orb_false_r. intros ->%bool_decide_eq_true. done.
Qed.
End KeyText.

(** A host key that [NewHostKey] prints is the key [ParseHostKey] reads, also
    with blanks around it and with the padding other tools write; and the
    public half a coordinator publishes reads back as the coordinator's key. *)
Theorem host_key_roundtrip {U : Unicode} seed pub a pad b :
  blanks a → padding pad → blanks b → slen seed = SeedSize → slen pub = PublicKeySize →
  ParseHostKey (written a pad b (NewHostKey_of seed).2) = Ok (Some (NewHostKey_of seed).1) ∧
  parseCoordKey (written a pad b (base64url pub)) = Ok pub.
Proof.
  intros Ha Hp Hb Hs Hpub. cbn [NewHostKey_of fst snd].
  destruct (decode_written a pad b SeedSize seed Ha Hp Hb Hs ltac:(done)) as [Hne Hd].
  destruct (decode_written a pad b PublicKeySize pub Ha Hp Hb Hpub ltac:(done)) as [_ Hd'].
  unfold ParseHostKey, parseCoordKey. rewrite bool_decide_false by done. by rewrite Hd, Hd'.
Qed.

(** ** What a process that has started accepts *)

Section Started.
Context {U : Unicode} {E : Ed25519} {J : Jwt}.
Context (cfg : Config.t) (random : option bytes).

(** The secret is the operator's, and none of the placeholders the program knows,
    or one drawn for this process. *)
Lemma jwtSecret_sound secret : jwtSecret cfg random = Some secret →
  (secret = TrimSpace (Config.JWTSecret cfg) ∧ secret ≠ "" ∧ ToLower secret ∉ knownPlaceholderSecrets) ∨
  (TrimSpace (Config.JWTSecret cfg) = "" ∧ ∃ r, random = Some r ∧ secret = base64url r).
Proof.
  unfold jwtSecret. case_bool_decide as Hp; [done|]. case_bool_decide as He; [|intros [= <-]; auto].
  right. split; [done|]. destruct random as [r|]; [|done]. injection H as <-. by exists r.
Qed.

(** C24. What a process that has started accepts: a token signed with the host's
    own key, when one is configured, or with the shared secret. The secret is
    the operator's, in no spelling one of the five placeholders the program
    knows (knownPlaceholderSecrets; others the repository prints are accepted,
    see [printed_secret_accepted]), or was drawn for this process; beside a host
    key it counts only until the configured date. A host key comes with a
    domain, and the tokens name no other. *)
Theorem started_tokens b m tok want now c :
  Tokens cfg Builder.New random = Some (b, m) → TokenManager.ParseClaims m tok want now = Ok c →
  ∃ k hostKey, jwt_signed tok k ∧ ParseHostKey (Config.HostKey cfg) = Ok hostKey ∧
  match k with
  | VerifyPublic pub => ∃ key, hostKey = Some key ∧ pub = ed_public key
  | VerifySecret s =>
      s ≠ "" ∧ (s = TrimSpace (Config.JWTSecret cfg) ∧ ToLower s ∉ knownPlaceholderSecrets ∨
                TrimSpace (Config.JWTSecret cfg) = "" ∧ ∃ r, random = Some r ∧ s = base64url r) ∧
      (is_Some hostKey → now < Config.LegacyHS256Until cfg)
  end ∧
  (is_Some hostKey → Config.HostDomain cfg ≠ "" ∧
     (Claims.Issuer c = "" ∨ Claims.Issuer c = Config.HostDomain cfg) ∧
     (Claims.Audience c = [] ∨ Config.HostDomain cfg ∈ Claims.Audience c)).
Proof.
  unfold Tokens. cbn [Builder.tokens Builder.New]. destruct (jwtSecret cfg random) as [secret|] eqn:Es; [|done].
  apply jwtSecret_sound in Es. set (m0 := if IsZero _ then _ else _).
  assert (TokenManager.secret m0 = secret ∧ TokenManager.verifyKey m0 = None ∧
    TokenManager.legacyUntil m0 = Config.LegacyHS256Until cfg) as (Hs0 & Hv0 & Hl0).
  { unfold m0. destruct (IsZero _) eqn:Ez; [|done]. apply bool_decide_eq_true in Ez. by rewrite Ez. }
  clearbody m0. intros Ht (h & k & [Hread Hkey Hsigned Hlive Htype Hiss Haud])%ParseClaims_accepted.
  exists k. destruct (ParseHostKey (Config.HostKey cfg)) as [[key|]|]; [..|done].
  - exists (Some key). split; [done|]. split; [done|]. case_bool_decide as Hd; [done|]. injection Ht as <- <-.
    unfold TokenManager.keyfunc in Hkey. cbn in Hkey, Hiss, Haud. split.
    + destruct (JwtHeader.Method h).
      * destruct (TokenManager.legacyHS256Allowed _ now) eqn:Ea; [|done]. cbn in Hkey.
        rewrite Hs0 in Hkey. destruct (Z.eqb_spec (slen secret) 0) as [|Hne]; [done|]. injection Hkey as <-.
        split; [intros ->; done|]. split; [naive_solver|]. intros _.
        unfold TokenManager.legacyHS256Allowed in Ea. apply andb_true_iff in Ea as [_ Ea]. cbn in Ea.
        rewrite Hl0 in Ea. by apply Z.ltb_lt in Ea.
      * destruct (_ != _); [done|]. injection Hkey as <-. by exists key.
      * done.
    + intros _. split; [done|]. naive_solver.
  - exists None. split; [done|]. split; [done|]. injection Ht as <- <-. split; [|by intros []].
    unfold TokenManager.keyfunc in Hkey. rewrite Hs0, Hv0 in Hkey. destruct (JwtHeader.Method h); [|done..].
    destruct (_ && _); [done|]. destruct (Z.eqb_spec (slen secret) 0) as [|Hne]; [done|]. injection Hkey as <-.
    split; [intros ->; done|]. split; [naive_solver | by intros []].
Qed.
End Started.

(** ** Witnesses *)

(** Thirty-two bytes. *)
Definition sample_seed : bytes := "0123456789abcdef0123456789abcdef".
Lemma host_key_roundtrip_witness :
  ParseHostKey (U := ascii_only) (written " " "=" (String "010" "") (NewHostKey_of sample_seed).2) = Ok (Some sample_seed) ∧
  parseCoordKey (U := ascii_only) (written " " "=" (String "010" "") (base64url sample_seed)) = Ok sample_seed.
Proof. apply (host_key_roundtrip (U := ascii_only) sample_seed sample_seed); reflexivity. Defined.

(** An environment with a host key, and one that keeps a placeholder. *)
Definition no_dates : Rfc3339 := {| parse_rfc3339 _ := None |}.
Definition sample_environ : gmap string string :=
  {["PHEME_HOST_KEY" := base64url sample_seed; "PHEME_HOST_DOMAIN" := "a.example"; "PHEME_JWT_SECRET" := "old"]}.
Definition sample_config : Config.t := Load (U := ascii_only) (R3 := no_dates) sample_environ.
Definition started : option (Builder.t * TokenManager.t) :=
  Tokens (U := ascii_only) (E := toy_ed25519) sample_config Builder.New None.

Example placeholder_refused :
  Tokens (U := ascii_only) (E := toy_ed25519)
    (Load (U := ascii_only) (R3 := no_dates) {["PHEME_JWT_SECRET" := " Change-Me "]}) Builder.New None = None.
Proof. vm_compute. reflexivity. Qed.

(** The secret of the browser tests, which web/playwright.config.ts prints, is
    not among the placeholders: a host starts with it. *)
Example printed_secret_accepted :
  TokenManager.secret ∘ snd <$> Tokens (U := ascii_only) (E := toy_ed25519)
    (Load (U := ascii_only) (R3 := no_dates) {["PHEME_JWT_SECRET" := "e2e-test-secret"]}) Builder.New None =
  Some "e2e-test-secret".
Proof. vm_compute. reflexivity. Qed.

Definition started_manager : TokenManager.t := match started with Some (_, m) => m | None => sample_manager end.
Definition started_issued : list toy_token :=
  [("access", (JwtHeader.mk MethodEd25519 (TokenManager.keyID started_manager),
     TokenManager.claims_at started_manager "uid" "user" "sid" AccessToken Minute (1000 * Second), SignPrivate sample_seed))].
Lemma started_issued_distinct : NoDup started_issued.*1.
Proof. cbn. repeat constructor; set_solver. Qed.
Definition started_jwt : Jwt (E := toy_ed25519) := toy_jwt (E := toy_ed25519) started_issued started_issued_distinct.

Lemma started_tokens_witness :
  ∃ b c, started = Some (b, started_manager) ∧
    TokenManager.ParseClaims (E := toy_ed25519) (J := started_jwt) started_manager "access" AccessToken (1001 * Second) = Ok c ∧
    (Claims.Issuer c = "" ∨ Claims.Issuer c = "a.example").
Proof.
  do 2 eexists. match goal with |- ?P ∧ ?Q ∧ _ =>
    assert P as H by (vm_compute; reflexivity); assert Q as H' by (vm_compute; reflexivity) end.
  split; [exact H|]. split; [exact H'|].
  destruct (started_tokens (U := ascii_only) (E := toy_ed25519) (J := started_jwt) sample_config None _ _ _ _ _ _ H H')
    as (k & hostKey & _ & Hk & _ & Hd).
  assert (hostKey = Some sample_seed) as -> by (vm_compute in Hk; by injection Hk as <-).
  exact (proj1 (proj2 (Hd (ex_intro _ _ eq_refl)))).
Defined.
