(* ===== verification/Throttle.v ===== *)
(** * The throttle of the credential endpoints

    [allow] of [api/internal/channel/auth_handler.go] over the limiter a process
    starts with: how often an account can be tried. *)

From Stdlib Require Import QArith Lqa.
From S2P Require Import Prelude.
From S2P Require Import GoStrings.
From S2P Require Import Domain.
From S2P Require Import Threads.
From S2P Require Import Crypto.
From S2P Require Import Tokens.
From S2P Require Import AuthHandler.
From S2P Require Import ClientIP.
From S2P Require Import RateLimit.
From S2P Require Import Config.
From S2P Require Import Bootstrap.

(** ** One request *)

(** A request for an account, whose two questions to the limiter are asked at
    [first] and [second]. *)
Module Attempt.
Record t := mk { action : string; account : string; req : HttpRequest.t; first : time; second : time }.
End Attempt.

Section Throttle.
Context {U : Unicode}.
Context (trustProxy : bool).
Implicit Types (t : TokenBucket.t) (a : Attempt.t).

Definition account_key (action account : string) : string := Join ["auth"; action; "acct"; ToLower account] ":".
Definition address_key (action ip : string) : string := Join ["auth"; action; "ip"; ip] ":".

(** The address that tells the caller from others, if one does. *)
Definition address (r : HttpRequest.t) : option string :=
  let ip := ClientIP r trustProxy in if ClientIPIsDistinct ip trustProxy then Some ip else None.

(** [allow] when there is a limiter. *)
Definition allowed_in t a : TokenBucket.t * bool :=
  let by_address t now :=
    match address (Attempt.req a) with
    | None => (t, true)
    | Some ip => Allow t (address_key (Attempt.action a) ip) now
    end in
  if Attempt.account a != "" then
    let '(t, ok) := Allow t (account_key (Attempt.action a) (Attempt.account a)) (Attempt.first a) in
    if ok then by_address t (Attempt.second a) else (t, false)
  else by_address t (Attempt.first a).

(** It is what the handler's [allow] does when the environment answers as the
    bucket does. *)
Lemma allow_allowed {B} {BS : Blob.BlobStore B} {RO : RangeOrder} h a k (w : World.t B) t e1 e2 envs last :
  Handler.Limited h = true → Attempt.account a ≠ "" →
  (∀ key, Env.allows e1 key = (Allow t key (Attempt.first a)).2) →
  (∀ key, Env.allows e2 key =
     (Allow (Allow t (account_key (Attempt.action a) (Attempt.account a)) (Attempt.first a)).1 key (Attempt.second a)).2) →
  ∃ rest, run (allow h (Attempt.action a) (Attempt.account a) (address (Attempt.req a)) k) w (e1 :: e2 :: envs) last =
    if (allowed_in t a).2 then run k w rest last else (w, tooMany).
Proof.
  intros Hl Ha H1 H2. unfold allow, allowed_in, limiter_allows. rewrite Hl, bool_decide_false by done. cbn [negb].
  cbn [run tail]. fold (account_key (Attempt.action a) (Attempt.account a)). rewrite H1.
  destruct (Allow t _ _) as [t1 ok] eqn:E. cbn [fst snd]. destruct ok; [|by exists []].
  destruct (address (Attempt.req a)) as [ip|]; [|by exists (e2 :: envs)].
  cbn [run tail]. fold (address_key (Attempt.action a) ip). rewrite H2. cbn [fst].
  destruct (Allow t1 _ _) as [t2 ok]. cbn [snd]. exists envs. by destruct ok.
Qed.

(** ** Many *)

(** Requests as they reach the limiter, between its ticks. *)
Inductive arrival : Type := Try (a : Attempt.t) | Sweep (now locked : time).

Definition limiter_after t (x : arrival) : TokenBucket.t :=
  match x with Try a => (allowed_in t a).1 | Sweep now _ => evict t now end.

(** How many requests for the account pass. *)
Fixpoint passes (action account : string) t (xs : list arrival) : Z :=
  match xs with
  | [] => 0
  | x :: xs =>
      match x with
      | Try a => if (Attempt.action a == action) && (Attempt.account a != "")
                    && (ToLower (Attempt.account a) == ToLower account) && (allowed_in t a).2 then 1 else 0
      | Sweep _ _ => 0
      end + passes action account (limiter_after t x) xs
  end.

(** The questions a request asks. *)
Definition questions t (x : arrival) : list event :=
  match x with
  | Sweep now locked => [Tick now locked]
  | Try a =>
      let by_address now :=
        match address (Attempt.req a) with None => [] | Some ip => [Call (address_key (Attempt.action a) ip) now] end in
      if Attempt.account a != "" then
        let key := account_key (Attempt.action a) (Attempt.account a) in
        Call key (Attempt.first a) :: (if (Allow t key (Attempt.first a)).2 then by_address (Attempt.second a) else [])
      else by_address (Attempt.first a)
  end.
Fixpoint trace t (xs : list arrival) : list event :=
  match xs with [] => [] | x :: xs => questions t x ++ trace (limiter_after t x) xs end.

Lemma after_questions t x : after_all t (questions t x) = limiter_after t x.
Proof.
  destruct x as [a|now locked]; [|done]. unfold limiter_after, questions, allowed_in, after_all.
  destruct (Attempt.account a != "").
  - cbn [foldl]. unfold after at 2. destruct (Allow t _ _) as [t1 ok]. cbn [fst snd]. destruct ok; [|done].
    destruct (address _) as [ip|]; [|done]. cbn [foldl after]. by destruct (Allow t1 _ _).
  - destruct (address _) as [ip|]; [|done]. cbn [foldl after]. by destruct (Allow t _ _).
Qed.

Lemma passes_allowed action account xs : ∀ t,
  passes action account t xs ≤ allowed (account_key action account) t (trace t xs).
Proof.
  induction xs as [|x xs IH]; intros t; [done|]. cbn [passes trace]. rewrite allowed_app, after_questions.
  apply Z.add_le_mono; [|apply IH].
  pose proof (allowed_nonneg (account_key action account) (questions t x) t) as Hn.
  destruct x as [a|now locked]; [|done]. destruct (_ && (allowed_in t a).2) eqn:E; [|done].
  apply andb_true_iff in E as [[[Ha%bool_decide_eq_true Hne]%andb_true_iff Hl%bool_decide_eq_true]%andb_true_iff Hok].
  assert (account_key (Attempt.action a) (Attempt.account a) = account_key action account) as Hk
    by (unfold account_key; by rewrite Ha, Hl).
  unfold questions in *. unfold allowed_in in *. rewrite Hne in *. rewrite Hk in *. cbn [allowed after].
  destruct (Allow t (account_key action account) (Attempt.first a)) as [t1 ok]. cbn [fst snd] in *.
  destruct ok; [|done]. rewrite bool_decide_true by done. pose proof (allowed_nonneg (account_key action account)
    match address (Attempt.req a) with None => [] | Some ip => [Call (address_key (Attempt.action a) ip) (Attempt.second a)] end t1). lia.
Qed.

Lemma calls_trace key xs : ∀ t, calls key (trace t xs) ≤ 2 * Z.of_nat (length xs).
Proof.
  induction xs as [|x xs IH]; intros t; [done|]. cbn [trace length]. rewrite calls_app. specialize (IH (limiter_after t x)).
  enough (calls key (questions t x) ≤ 2) by lia. destruct x as [a|now locked]; [|done]. unfold questions.
  repeat case_match; cbn [calls]; repeat case_bool_decide; lia.
Qed.
End Throttle.

Lemma in_order_ends es : ∀ start, in_order start es → start ≤ ends start es.
Proof.
  induction es as [|e es IH]; intros start H; [done|]. destruct H as [[H _] Hes]. cbn [ends foldl].
  specialize (IH _ Hes). unfold ends in IH. lia.
Qed.
Lemma calls_nonneg key es : 0 ≤ calls key es.
Proof. induction es as [|[k now|now locked] es IH]; cbn [calls]; [done|destruct (_ == _); lia|done]. Qed.

(** ** The budget of an account *)

Section Budget.
Context {U : Unicode} {E : Crypto.Ed25519}.
Context (cfg : Config.t).

(** The settings, as far as they make sense. *)
Record sensible : Prop := {
  in_memory : Config.RateLimitDriver cfg ≠ "redis";
  burst_small : Config.AuthRateBurst cfg ≤ 2 ^ 52;
  refill_small : Config.AuthRateRefillSeconds cfg ≤ 2 ^ 52
}.

Lemma auth_burst_range : sensible → 1 ≤ auth_burst cfg ≤ 2 ^ 52.
Proof. intros [_ H _]. unfold auth_burst. destruct (Z.leb_spec (Config.AuthRateBurst cfg) 0); lia. Qed.
Lemma auth_refill_range : sensible → 1 ≤ auth_refill cfg ≤ 2 ^ 52.
Proof. intros [_ _ H]. unfold auth_refill. destruct (Z.leb_spec (Config.AuthRateRefillSeconds cfg) 0); lia. Qed.

(** One token for every [auth_refill] seconds, and a little. *)
Lemma auth_rate_bound : sensible →
  (0 <= auth_rate cfg)%Q ∧ (auth_rate cfg <= / inject_Z (auth_refill cfg) * (1 + (2 # 9007199254740992)))%Q ∧
  (/ inject_Z (auth_refill cfg) <= 1)%Q.
Proof.
  intros Hs. pose proof (auth_refill_range Hs) as Hr. unfold auth_rate, fdiv. set (R := auth_refill cfg) in *.
  pose proof (of_int_exact R ltac:(lia)) as He.
  assert (1 <= inject_Z R)%Q as H1 by (rewrite <- (Zle_Qle 1); lia).
  assert (0 < inject_Z R)%Q as H0 by lra.
  assert (1 / of_int R == / inject_Z R)%Q as Hd by (rewrite He; unfold Qdiv; ring).
  pose proof (Qinv_lt_0_compat _ H0) as Hi.
  assert (/ inject_Z R <= 1)%Q as Hi1.
  { apply (Qmult_le_l _ _ (inject_Z R)); [done|]. rewrite Qmult_inv_r by lra. lra. }
  assert (0 <= 1 / of_int R)%Q as Hn by (rewrite Hd; lra).
  split; [by apply rnd_nonneg|]. split; [|done]. pose proof (rnd_upper _ Hn) as Hu.
  assert (tiny <= / inject_Z R * unit_error)%Q as Ht.
  { assert (inject_Z R <= pow2 52)%Q as H2 by (rewrite pow2_nat by done; rewrite <- Zle_Qle; lia).
    assert (pow2 (-52) <= / inject_Z R)%Q as H3.
    { apply (Qmult_le_l _ _ (inject_Z R)); [done|]. rewrite Qmult_inv_r by lra.
      assert (pow2 52 * pow2 (-52) == 1)%Q as Hp by reflexivity. pose proof (pow2_pos (-52)). nra. }
    assert (tiny <= pow2 (-52) * unit_error)%Q as H4 by (unfold tiny, unit_error; rewrite <- pow2_plus; by apply pow2_mono).
    assert (0 < unit_error)%Q by apply pow2_pos. nra. }
  rewrite Hd in Hu at 2 3. rewrite unit_error_val in *. lra.
Qed.

(** C31. Guessing at an account is throttled by the limiter in memory, which is
    the one of a host whose PHEME_RATELIMIT_DRIVER is not "redis" (the limiter
    over Redis is not held to this: see [Redis.skewed_clocks_refill]), with a
    burst and a refill in seconds of at most 2^52 ([sensible]): whoever asks,
    from whatever addresses and however the name is spelled, the requests of one
    kind for an account that get past the throttle of one process are, over any
    stretch of time, at most
    the burst the configuration allows, one for every refill interval, and one
    burst more for every ten minutes (an idle bucket is dropped, and the next
    one starts full); floating point adds less than (burst + 3) 2^-49 for each
    request that arrives, for any account, or sweep of the limiter. *)
Theorem credential_budget trustProxy action account before xs start :
  sensible →
  let t0 := NewTokenBucket (auth_rate cfg) (of_int (auth_burst cfg)) in
  let t := after_all t0 (trace trustProxy t0 before) in
  in_order zero_time (trace trustProxy t0 before) → start = ends zero_time (trace trustProxy t0 before) →
  in_order start (trace trustProxy t xs) →
  let stretch := ends start (trace trustProxy t xs) - start in
  AuthLimiter cfg = BucketInMemory t0 ∧
  (inject_Z (passes trustProxy action account t xs) <=
   inject_Z (auth_burst cfg) * (1 + inject_Z stretch / inject_Z idleAfter)
   + secs stretch / inject_Z (auth_refill cfg) * (1 + pow2 (-49))
   + inject_Z (Z.of_nat (length xs)) * ((inject_Z (auth_burst cfg) + 3) * pow2 (-49)))%Q.
Proof.
  intros Hs t0 t Hb Hst Hx stretch.
  split; [unfold AuthLimiter, limiter; by rewrite bool_decide_false by (apply in_memory, Hs)|].
  destruct (auth_rate_bound Hs) as (Hr0 & Hr1 & Hr2). pose proof (auth_burst_range Hs) as Hburst.
  pose proof (of_int_exact (auth_burst cfg) ltac:(lia)) as He.
  assert (1 <= inject_Z (auth_burst cfg) <= 4503599627370496)%Q as [Hc1 Hc2].
  { rewrite <- (Zle_Qle 1), <- (Zle_Qle _ 4503599627370496). lia. }
  pose proof (limiter_bound (account_key action account) (auth_rate cfg) (of_int (auth_burst cfg))
    (trace trustProxy t0 before) (trace trustProxy t xs) start Hr0 ltac:(rewrite He; lra) Hb Hst Hx) as H.
  cbv zeta in H. fold t0 in H. fold t in H. fold stretch in H.
  pose proof (passes_allowed trustProxy action account xs t) as Hp. rewrite Zle_Qle in Hp.
  pose proof (calls_trace trustProxy (account_key action account) xs t) as Hn. rewrite Zle_Qle, inject_Z_mult in Hn.
  pose proof (in_order_ends _ _ Hx) as Hlater. assert (0 ≤ stretch) as Hst0 by (unfold stretch; lia).
  assert (0 <= secs stretch)%Q as Hsecs by (unfold secs, Qle; cbn; lia).
  rewrite He in H. set (n := inject_Z (calls _ _)) in *. set (R := inject_Z (auth_refill cfg)) in *.
  set (m := inject_Z (Z.of_nat (length xs))) in *. change (inject_Z 2) with 2%Q in Hn.
  set (C := inject_Z (auth_burst cfg)) in *. set (r := auth_rate cfg) in *. set (s := secs stretch) in *.
  set (share := (inject_Z stretch / inject_Z idleAfter)%Q) in *.
  assert (0 <= n)%Q as Hn0.
  { unfold n. rewrite <- (Zle_Qle 0). apply calls_nonneg. }
  assert (pow2 (-49) == 16 # 9007199254740992)%Q as -> by reflexivity. rewrite spread_val in H.
  assert (s * r * (1 + (8 # 9007199254740992)) <= s / R * (1 + (16 # 9007199254740992)))%Q as H1.
  { unfold Qdiv. set (i := (/ R)%Q) in *.
    assert (s * r <= s * i * (1 + (2 # 9007199254740992)))%Q as Hsr.
    { rewrite <- Qmult_assoc. rewrite !(Qmult_comm s). by apply Qmult_le_compat_r. }
    assert (0 <= s * i)%Q as Hsi by (apply Qmult_le_0_compat; [done|]; lra). lra. }
  assert (n * ((C + r + 1) * (8 # 9007199254740992)) <= m * ((C + 3) * (16 # 9007199254740992)))%Q as H2.
  { assert ((C + r + 1) * (8 # 9007199254740992) <= (C + 3) * (8 # 9007199254740992))%Q as Hcr by lra.
    assert (0 <= (C + r + 1) * (8 # 9007199254740992))%Q as Hcr0 by lra. nra. }
  lra.
Qed.
End Budget.

(** ** Witness

    Ten tries at an account within ten seconds, from ten addresses. *)
Definition default_config : Config.t := Load (U := ascii_only) (R3 := no_dates) ∅.
Definition guess (i : nat) : arrival :=
  let now := Minute + Z.of_nat i * Second in
  Try (Attempt.mk "login" (if Nat.even i then "bob@a.example" else "Bob@A.example")
    (HttpRequest.mk ∅ (String.append "8.8.8." (String (Ascii.ascii_of_nat (48 + i)) ":4000"))) now now).
Definition guesses : list arrival := guess <$> seq 0 10.
Definition guess_bucket : TokenBucket.t := NewTokenBucket (auth_rate default_config) (of_int (auth_burst default_config)).

Example eight_guesses : passes (U := ascii_only) false "login" "bob@a.example" guess_bucket guesses = 8.
Proof. vm_compute. reflexivity. Qed.

Lemma credential_budget_witness :
  (inject_Z (passes (U := ascii_only) false "login" "bob@a.example" guess_bucket guesses) <=
   inject_Z 8 * (1 + inject_Z (Minute + 9 * Second) / inject_Z idleAfter)
   + secs (Minute + 9 * Second) / inject_Z 120 * (1 + pow2 (-49)) + inject_Z 10 * ((inject_Z 8 + 3) * pow2 (-49)))%Q.
Proof.
  refine (proj2 (credential_budget (U := ascii_only) default_config false "login" "bob@a.example" [] guesses zero_time
    _ _ _ _)).
  - split; vm_compute; discriminate.
  - exact I.
  - reflexivity.
  - vm_compute. repeat split; discriminate.
Defined.
