(* ===== verification/Replication.v ===== *)
(** * A mirror follows its hub

    What the hub of a conversation commits and appends, and what the mirror makes
    of the relays ([DeliverRelayed] of [api/internal/chat/convfed.go]): while the
    relays arrive, in order, the mirror holds the hub's log and the head of its
    chain. A reset of the group, and a relay of a commit that is lost, end that
    for good. *)

From S2P Require Import Prelude.
From S2P Require Import GoStrings.
From S2P Require Import Domain.
From S2P Require Import Threads.
From S2P Require Import Crypto.
From S2P Require Import Blob.
From S2P Require Import MlsChain.
From S2P Require Import StoreState.
From S2P Require Import StoreUsers.
From S2P Require Import StoreConversations.
From S2P Require Import StoreMls.
From S2P Require Import Live.
From S2P Require Import PushNotify.
From S2P Require Import Peers.
From S2P Require Import ChatWorld.
From S2P Require Import ConvFed.
From S2P Require Import ChatSample.

(** ** What the hub does *)

(** A message, or a commit with its Welcome; the clock, and the ids the store
    draws. *)
Inductive hub_op : Type :=
| Post (sender : string) (ciphertext : bytes) (contentType : string) (now : time) (fresh : nat → string)
| Commit (sender groupID : string) (baseEpoch : Z) (welcome commit : bytes) (now : time) (fresh : nat → string).

Section Hub.
Context {B : Type} {RO : RangeOrder}.
Implicit Types (m : Memory.t B) (cid : string) (msg : ChatMessage.t).

(** The store's part of [postMessage] and [SubmitMessage], of [postMLSCommit] and
    [SubmitCommit]; what they relay. *)
Definition hub_step m cid (op : hub_op) : Memory.t B * list ChatMessage.t :=
  match op with
  | Post sender ciphertext contentType now fresh =>
      let '(m, msg) := appendChatMessageLocked m (fresh 0%nat)
                         (ChatMessage.mk "" cid sender ciphertext contentType now 0 "" 0 "") in (m, [msg])
  | Commit sender groupID baseEpoch welcome commit now fresh =>
      let '(m, r) := CommitMLSGroup m fresh cid groupID baseEpoch
        (control_messages cid sender groupID welcome commit (wrap64 (baseEpoch + 1)) now) in
      (m, match cr_err r with None => cr_stored r | Some _ => [] end)
  end.

(** ** Two stores in step *)

(** The messages of a conversation, by id. *)
Definition log m cid : gmap string ChatMessage.t :=
  filter (fun kv => ChatMessage.ConversationID kv.2 = cid) (Memory.chatMessages m).

(** The head of its chain. *)
Definition head (s : MLSGroupState.t) : string * Z * bytes :=
  (MLSGroupState.GroupID s, MLSGroupState.Epoch s, MLSGroupState.ChainHash s).

(** The mirror has the head of the hub, and its log but for the messages that
    are older than the mirror. *)
Record in_step (old : gset string) (hubDomain cid : string) (hub mirror : Memory.t B) : Prop := {
  step_group : ∃ c c', Memory.conversations hub !! cid = Some c ∧ Memory.conversations mirror !! cid = Some c' ∧
    head (Conversation.MLS c) = head (Conversation.MLS c') ∧ Conversation.HubDomain c' = hubDomain ∧
    Conversation.ID c' = cid;
  step_log : log mirror cid = filter (fun kv => kv.1 ∉ old) (log hub cid)
}.

(** ** Lemmas: appending *)

Definition insert_all (l : list ChatMessage.t) (t : gmap string ChatMessage.t) : gmap string ChatMessage.t :=
  foldl (fun t msg => <[ChatMessage.ID msg := msg]> t) t l.

Lemma append_all_inserts l : ∀ m m' out, append_all m l = (m', out) →
  m' = m <| Memory.chatMessages := insert_all out (Memory.chatMessages m) |>.
Proof.
  induction l as [|[nid msg] l IH]; intros m m' out; cbn [append_all]; [intros [= <- <-]; by destruct m|].
  destruct (appendChatMessageLocked m nid msg) as [m1 msg1] eqn:E1.
  destruct (append_all m1 l) as [m2 out2] eqn:E2. intros [= <- <-].
  rewrite (IH _ _ _ E2), (append_ID _ _ _ _ _ E1). done.
Qed.

(** A message that has its id and its number is stored as it is. *)
Definition numbered msg : Prop := ChatMessage.ID msg ≠ "" ∧ ChatMessage.Seq msg ≠ 0.

Lemma append_numbered m nid msg : numbered msg → appendChatMessageLocked m nid msg =
  (m <| Memory.chatMessages := <[ChatMessage.ID msg := msg]> (Memory.chatMessages m) |>, msg).
Proof.
  intros [Hid Hseq]. unfold appendChatMessageLocked, or_fresh. rewrite bool_decide_false by done.
  destruct msg; cbn in *. destruct (Z.eqb_spec Seq 0); [done|]. done.
Qed.

Lemma append_all_numbered fresh l : Forall numbered l → ∀ i m, append_all m (with_fresh fresh i l) =
  (m <| Memory.chatMessages := insert_all l (Memory.chatMessages m) |>, l).
Proof.
  induction 1 as [|msg l Hmsg Hl IH]; intros i m; cbn [with_fresh append_all]; [by destruct m|].
  rewrite append_numbered by done. by rewrite IH.
Qed.

(** What inserting messages of the conversation does to its log. *)
Lemma filter_insert_all (P : string * ChatMessage.t → Prop) `{∀ x, Decision (P x)} l t :
  Forall (fun msg => P (ChatMessage.ID msg, msg)) l → filter P (insert_all l t) = insert_all l (filter P t).
Proof.
  revert t. induction l as [|msg l IH]; intros t Hl; [done|]. apply Forall_cons in Hl as [Hmsg Hl].
  change (insert_all (msg :: l) ?u) with (insert_all l (<[ChatMessage.ID msg := msg]> u)).
  rewrite (IH _ Hl). by rewrite map_filter_insert_True.
Qed.

Lemma log_insert_all m cid l : Forall (fun msg => ChatMessage.ConversationID msg = cid) l →
  log (m <| Memory.chatMessages := insert_all l (Memory.chatMessages m) |>) cid = insert_all l (log m cid).
Proof. intros Hl. unfold log. cbn. by apply filter_insert_all. Qed.

(** ** Lemmas: a step of the hub *)

(** The ids are new, and numbers are left. *)
Definition room m cid (op : hub_op) : Prop :=
  let fresh := match op with Post _ _ _ _ fresh | Commit _ _ _ _ _ _ fresh => fresh end in
  (∀ i, (i < 2)%nat → fresh i ≠ "" ∧ Memory.chatMessages m !! fresh i = None) ∧ fresh 0%nat ≠ fresh 1%nat ∧
  maxMessageSeqLocked m cid + 2 < two63.

(** What is relayed of an operation: the messages as they were stored. *)
Definition sent cid (hash : bytes) (op : hub_op) (msgs : list ChatMessage.t) : Prop :=
  Forall numbered msgs ∧ Forall (fun msg => ChatMessage.ConversationID msg = cid) msgs ∧
  match op with
  | Post _ _ contentType _ _ => ∃ msg, msgs = [msg] ∧ ChatMessage.ContentType msg = contentType
  | Commit _ groupID baseEpoch _ commit _ _ =>
      ∃ front msg, msgs = front ++ [msg] ∧ Forall (fun x => ChatMessage.ContentType x = ContentTypeMLSWelcome) front ∧
        ChatMessage.ContentType msg = ContentTypeMLSCommit ∧ ChatMessage.Ciphertext msg = commit ∧
        ChatMessage.MLSEpoch msg = wrap64 (baseEpoch + 1) ∧ ChatMessage.MLSGroupID msg = groupID ∧
        ChatMessage.MLSChainHash msg = hash
  end.

(** A message gets its id and its number, and keeps the rest. *)
Definition placed (id : string) msg msg' : Prop :=
  ∃ n, n ≠ 0 ∧ msg' = (msg <| ChatMessage.ID := id |>) <| ChatMessage.Seq := n |>.

Lemma append_placed m nid msg m' msg' : nid ≠ "" → ChatMessage.ID msg = "" → ChatMessage.Seq msg = 0 →
  maxMessageSeqLocked m (ChatMessage.ConversationID msg) + 1 < two63 →
  appendChatMessageLocked m nid msg = (m', msg') → placed nid msg msg'.
Proof.
  intros Hn Hid Hseq Hroom. unfold appendChatMessageLocked, or_fresh. rewrite Hid, bool_decide_true by done. cbn.
  rewrite Hseq. cbn. intros [= _ <-]. pose proof (maxMessageSeq_nonneg m (ChatMessage.ConversationID msg)).
  eexists. split; [|reflexivity]. rewrite wrap64_id by (unfold two63 in *; lia). lia.
Qed.

Lemma placed_numbered id msg msg' : id ≠ "" → placed id msg msg' → numbered msg'.
Proof. intros Hid (n & Hn & ->). by split. Qed.

Lemma hub_post m cid sender ciphertext contentType now fresh m' msgs :
  let op := Post sender ciphertext contentType now fresh in
  room m cid op → hub_step m cid op = (m', msgs) →
  m' = m <| Memory.chatMessages := insert_all msgs (Memory.chatMessages m) |> ∧ sent cid "" op msgs ∧
  Forall (fun msg => ChatMessage.ID msg = fresh 0%nat ∨ ChatMessage.ID msg = fresh 1%nat) msgs.
Proof.
  intros op (Hfresh & _ & Hroom). cbn [hub_step op]. set (msg := ChatMessage.mk _ _ _ _ _ _ _ _ _ _).
  destruct (appendChatMessageLocked m (fresh 0%nat) msg) as [m1 msg1] eqn:E. intros [= <- <-].
  destruct (Hfresh 0%nat ltac:(lia)) as [Hne Hnew].
  assert (maxMessageSeqLocked m (ChatMessage.ConversationID msg) + 1 < two63) as Hr by (change (ChatMessage.ConversationID msg) with cid; lia).
  pose proof (append_placed _ _ _ _ _ Hne (eq_refl : ChatMessage.ID msg = "") (eq_refl : ChatMessage.Seq msg = 0) Hr E) as Hp.
  split; [by rewrite (append_ID _ _ _ _ _ E)|]. pose proof (placed_numbered _ _ _ Hne Hp). destruct Hp as (n & Hn & ->).
  split; [|constructor; [by left|constructor]]. split; [by constructor|]. split; [by constructor|]. by eexists.
Qed.

(** The messages of a commit, stamped and appended. *)
Lemma hub_append_control m cid sender groupID welcome commit epoch now hash fresh m' msgs :
  (∀ i, (i < 2)%nat → fresh i ≠ "" ∧ Memory.chatMessages m !! fresh i = None) → fresh 0%nat ≠ fresh 1%nat →
  maxMessageSeqLocked m cid + 2 < two63 →
  append_all m (with_fresh fresh 0 (stampChainHash (control_messages cid sender groupID welcome commit epoch now) hash)) = (m', msgs) →
  Forall numbered msgs ∧ Forall (fun msg => ChatMessage.ConversationID msg = cid) msgs ∧
  (∃ front msg, msgs = front ++ [msg] ∧ Forall (fun x => ChatMessage.ContentType x = ContentTypeMLSWelcome) front ∧
    ChatMessage.ContentType msg = ContentTypeMLSCommit ∧ ChatMessage.Ciphertext msg = commit ∧
    ChatMessage.MLSEpoch msg = epoch ∧ ChatMessage.MLSGroupID msg = groupID ∧ ChatMessage.MLSChainHash msg = hash) ∧
  Forall (fun msg => ChatMessage.ID msg = fresh 0%nat ∨ ChatMessage.ID msg = fresh 1%nat) msgs.
Proof.
  intros Hfresh Hne Hroom. unfold control_messages.
  destruct (Hfresh 0%nat ltac:(lia)) as [H0 Hnew0]. destruct (Hfresh 1%nat ltac:(lia)) as [H1 Hnew1].
  destruct (0 <? slen welcome); cbn [app stampChainHash fmap list_fmap with_fresh append_all];
    set (m1 := stamp hash (ChatMessage.mk "" cid sender _ _ _ _ _ _ _));
    [set (m2 := stamp hash (ChatMessage.mk "" cid sender commit _ _ _ _ _ _))|].
  - destruct (appendChatMessageLocked m _ m1) as [s1 msg1] eqn:E1.
    destruct (appendChatMessageLocked s1 _ m2) as [s2 msg2] eqn:E2. intros [= <- <-].
    assert (maxMessageSeqLocked m (ChatMessage.ConversationID m1) + 1 < two63) as Hroom0
      by (replace (ChatMessage.ConversationID m1) with cid by done; lia).
    assert (maxMessageSeqLocked s1 (ChatMessage.ConversationID m2) + 1 < two63) as Hroom1.
    { destruct (append_position m _ m1 s1 msg1 (ChatMessage.ConversationID m2) eq_refl Hnew0 Hroom0 E1) as (_ & _ & ->).
      replace (ChatMessage.ConversationID m2) with cid by done. destruct (in_conversation _ _); lia. }
    pose proof (append_placed _ _ _ _ _ H0 (eq_refl : ChatMessage.ID m1 = "") (eq_refl : ChatMessage.Seq m1 = 0) Hroom0 E1) as P1.
    pose proof (append_placed _ _ _ _ _ H1 (eq_refl : ChatMessage.ID m2 = "") (eq_refl : ChatMessage.Seq m2 = 0) Hroom1 E2) as P2.
    pose proof (placed_numbered _ _ _ H0 P1). pose proof (placed_numbered _ _ _ H1 P2).
    destruct P1 as (n1 & _ & ->), P2 as (n2 & _ & ->).
    split; [by repeat (constructor; try done)|]. split; [by repeat (constructor; try done)|]. split; [|repeat (apply Forall_cons; split; [by auto|]); by apply Forall_nil].
    eexists [_], _. split; [reflexivity|]. split; [by repeat (constructor; try done)|]. done.
  - destruct (appendChatMessageLocked m _ m1) as [s1 msg1] eqn:E1. intros [= <- <-].
    assert (maxMessageSeqLocked m (ChatMessage.ConversationID m1) + 1 < two63) as Hroom0
      by (replace (ChatMessage.ConversationID m1) with cid by done; lia).
    pose proof (append_placed _ _ _ _ _ H0 (eq_refl : ChatMessage.ID m1 = "") (eq_refl : ChatMessage.Seq m1 = 0) Hroom0 E1) as P1.
    pose proof (placed_numbered _ _ _ H0 P1). destruct P1 as (n1 & _ & ->).
    split; [by repeat (constructor; try done)|]. split; [by repeat (constructor; try done)|]. split; [|repeat (apply Forall_cons; split; [by auto|]); by apply Forall_nil].
    eexists [], _. split; [reflexivity|]. split; [by constructor|]. done.
Qed.

Lemma commitCiphertext_control cid sender groupID welcome commit epoch now :
  commitCiphertext (control_messages cid sender groupID welcome commit epoch now) = commit.
Proof. unfold control_messages. by destruct (0 <? slen welcome). Qed.

Lemma hub_commit m cid c sender groupID baseEpoch welcome commit now fresh m' msgs :
  let op := Commit sender groupID baseEpoch welcome commit now fresh in
  Memory.conversations m !! cid = Some c → room m cid op → hub_step m cid op = (m', msgs) →
  let s' := advance (Conversation.MLS c) groupID baseEpoch commit in
  (may_commit (Conversation.MLS c) groupID baseEpoch = false ∧ m' = m ∧ msgs = []) ∨
  (may_commit (Conversation.MLS c) groupID baseEpoch = true ∧
   m' = (m <| Memory.conversations := <[cid := c <| Conversation.MLS := s' |>]> (Memory.conversations m) |>)
          <| Memory.chatMessages := insert_all msgs (Memory.chatMessages m) |> ∧
   sent cid (MLSGroupState.ChainHash s') op msgs ∧
   Forall (fun msg => ChatMessage.ID msg = fresh 0%nat ∨ ChatMessage.ID msg = fresh 1%nat) msgs).
Proof.
  intros op Hc (Hfresh & Hne & Hroom) Hstep s'. cbn [hub_step op] in Hstep. unfold CommitMLSGroup in Hstep. rewrite Hc in Hstep.
  destruct (may_commit _ _ _); cbn [negb] in Hstep; [right|left; by injection Hstep as <- <-].
  rewrite commitCiphertext_control in Hstep. fold s' in Hstep.
  set (m1 := m <| Memory.conversations := _ |>) in Hstep.
  destruct (append_all m1 _) as [m2 stored] eqn:Ea. cbn [cr_err cr_stored] in Hstep. injection Hstep as <- <-.
  split; [done|]. pose proof (append_all_inserts _ _ _ _ Ea) as Hm.
  destruct (hub_append_control m1 cid _ _ _ _ _ _ _ _ _ _ Hfresh Hne Hroom Ea) as (H1 & H2 & H3 & H4).
  by split_and!.
Qed.
End Hub.

(** ** Lemmas: what the mirror makes of a relay *)

(** The message comes out as it went in. *)
Lemma fromRelayed_toRelayed {E : Ed25519} (conf : ConvFederation.t) domain cid msg :
  ChatMessage.ConversationID msg = cid → fromRelayed cid (toRelayed conf domain msg) = msg.
Proof. intros <-. by destruct msg. Qed.

Lemma from_all {E : Ed25519} (conf : ConvFederation.t) domain cid (msgs : list ChatMessage.t) :
  Forall (fun msg => ChatMessage.ConversationID msg = cid) msgs →
  fromRelayed cid <$> (toRelayed conf domain <$> msgs) = msgs.
Proof.
  induction 1 as [|msg msgs Hmsg _ IH]; [done|]. rewrite !fmap_cons. f_equal; [by apply fromRelayed_toRelayed|done].
Qed.

(** The commit of a batch, its bytes, and its link. *)
Definition welcomes_then msgs (commit : ChatMessage.t) : Prop :=
  ∃ front, msgs = front ++ [commit] ∧ Forall (fun x => ChatMessage.ContentType x = ContentTypeMLSWelcome) front ∧
    ChatMessage.ContentType commit = ContentTypeMLSCommit.

Lemma find_commit_last {E : Ed25519} (conf : ConvFederation.t) domain msgs commit :
  welcomes_then msgs commit → find_commit (toRelayed conf domain <$> msgs) = Some (toRelayed conf domain commit).
Proof.
  intros (front & -> & Hf & Hc). induction Hf as [|x front Hx _ IH]; unfold find_commit in *; cbn.
  - by rewrite Hc, bool_decide_true.
  - by rewrite Hx, bool_decide_false.
Qed.
Lemma commitCiphertext_last msgs commit : welcomes_then msgs commit → commitCiphertext msgs = ChatMessage.Ciphertext commit.
Proof.
  intros (front & -> & Hf & Hc). induction Hf as [|x front Hx _ IH]; cbn.
  - by rewrite Hc, bool_decide_true.
  - by rewrite Hx, bool_decide_false.
Qed.
Lemma stamp_last msgs commit hash :
  welcomes_then msgs commit → ChatMessage.MLSChainHash commit = hash → stampChainHash msgs hash = msgs.
Proof.
  intros (front & -> & Hf & Hc) <-. unfold stampChainHash. induction Hf as [|x front Hx _ IH]; cbn; unfold stamp.
  - rewrite Hc, bool_decide_true by done. by destruct commit.
  - rewrite Hx, bool_decide_false by done. by f_equal.
Qed.

Section Mirror.
Context {B : Type} {RO : RangeOrder} {E : Ed25519}.
Context (hubConf mirrorConf : ConvFederation.t) (hubDomain cid : string) (old : gset string).
Abbreviation program := (prog (World.t B) Env.t (result conv_err unit)).
Implicit Types (w : World.t B) (m : Memory.t B) (msg : ChatMessage.t) (msgs : list ChatMessage.t) (op : hub_op).

(** What the mirror runs for a relay; a refused commit is not relayed. *)
Definition delivery msgs : program :=
  match msgs with
  | [] => Done (Ok tt)
  | _ => DeliverRelayed mirrorConf hubDomain cid (toRelayed hubConf (ConvFederation.HostDomain hubConf) <$> msgs) Done
  end.

(** The mirror does not check the hub's signature, or holds its key. *)
Definition vouched : Prop :=
  ConvFederation.Keys mirrorConf = None ∨
  ∃ keyFor key, ConvFederation.Keys mirrorConf = Some keyFor ∧ ConvFederation.HostKey hubConf = Some key ∧
    keyFor hubDomain = Some (ed_public key).

(** The store answers. *)
Definition works (env : Env.t) : Prop := Env.backend env = Works.

Lemma vouched_verifies s groupID baseEpoch commit : vouched →
  verifyHubSig mirrorConf hubDomain (MLSGroupState.ChainHash (advance s groupID baseEpoch commit))
    (sign_link hubConf (MLSGroupState.ChainHash (advance s groupID baseEpoch commit))) = true.
Proof.
  unfold verifyHubSig, sign_link. intros [-> | (keyFor & key & -> & -> & ->)]; [done|].
  cbn [advance MLSGroupState.ChainHash]. rewrite Link_length. apply chain_Verify_Sign.
Qed.

(** A call of a store that answers. *)
Lemma wp_works {X} (op : Memory.t B → Env.t → memory_op B X) (k : result (failure store_err) X → program) w m r Q :
  (∀ env, op (World.store w) env = (m, r)) → wp works (k (lift r)) (w <| World.store := m |>) Q →
  wp works (store_call op k) w Q.
Proof. intros Hop Hk env Henv. cbv beta. unfold faulty. by rewrite Henv, Hop. Qed.
Lemma wp_reads {X} (op : Memory.t B → result store_err X) (k : result (failure store_err) X → program) w r Q :
  op (World.store w) = r → wp works (k (lift r)) w Q → wp works (store_read op k) w Q.
Proof. intros Hop Hk. apply (wp_works _ _ _ (World.store w) r); [by intros _; rewrite Hop|]. by destruct w. Qed.

Lemma wp_publishLocal l (k : program) w Q :
  (∀ w', World.store w' = World.store w → wp works k w' Q) → wp works (for_each l (publishLocal mirrorConf cid) k) w Q.
Proof.
  revert w. induction l as [|msg l IH]; intros w Hk; cbn [for_each]; [by apply Hk|].
  unfold publishLocal at 1. destruct (negb _); [by apply IH|]. intros env _. cbn. apply IH. intros w' Hw'. by apply Hk.
Qed.

Lemma in_step_append (hub mirror : Memory.t B) msgs :
  in_step old hubDomain cid hub mirror →
  Forall (fun msg => ChatMessage.ConversationID msg = cid) msgs → Forall (fun msg => ChatMessage.ID msg ∉ old) msgs →
  in_step old hubDomain cid (hub <| Memory.chatMessages := insert_all msgs (Memory.chatMessages hub) |>)
    (mirror <| Memory.chatMessages := insert_all msgs (Memory.chatMessages mirror) |>).
Proof.
  intros [Hg Hl] Hc Hnew. split; [exact Hg|]. rewrite !log_insert_all by done. rewrite Hl.
  by rewrite filter_insert_all.
Qed.

Lemma mirror_posts w (hub : Memory.t B) msg :
  in_step old hubDomain cid hub (World.store w) → numbered msg → ChatMessage.ConversationID msg = cid →
  ChatMessage.ContentType msg ≠ ContentTypeMLSCommit →
  wp works (delivery [msg]) w (fun w' r => r = Ok tt ∧
    World.store w' = (World.store w) <| Memory.chatMessages := insert_all [msg] (Memory.chatMessages (World.store w)) |>).
Proof.
  intros [(c & c' & _ & Hc' & _ & Hd & _) _] Hn Hcid Ht. cbn [delivery fmap list_fmap]. unfold DeliverRelayed.
  apply (wp_reads _ _ _ (Ok c')); [unfold ConversationByID; by rewrite Hc'|]. cbn [lift].
  rewrite Hd, bool_decide_true by done. cbn [negb]. unfold find_commit. cbn [List.find].
  change (RelayedMessage.ContentType (toRelayed _ _ msg)) with (ChatMessage.ContentType msg). rewrite bool_decide_false by done.
  cbn [for_each]. rewrite fromRelayed_toRelayed by done.
  eapply wp_works; [intros env; unfold AppendChatMessage; by rewrite append_numbered|].
  apply (wp_publishLocal [msg]). intros w' Hw'. cbn [wp]. by rewrite Hw'.
Qed.

(** The head a commit leaves depends on the head it found. *)
Lemma same_head_commit s s' groupID baseEpoch commit : head s = head s' →
  may_commit s groupID baseEpoch = may_commit s' groupID baseEpoch ∧
  head (advance s groupID baseEpoch commit) = head (advance s' groupID baseEpoch commit).
Proof. unfold head, may_commit, advance. cbn. intros [= -> -> ->]. done. Qed.

Lemma mirror_commits w (c' : Conversation.t) s groupID baseEpoch msgs commit :
  Memory.conversations (World.store w) !! cid = Some c' → Conversation.HubDomain c' = hubDomain → Conversation.ID c' = cid →
  head s = head (Conversation.MLS c') → may_commit s groupID baseEpoch = true → 0 ≤ baseEpoch < two63 - 1 →
  Forall numbered msgs → Forall (fun msg => ChatMessage.ConversationID msg = cid) msgs →
  welcomes_then msgs commit → ChatMessage.MLSEpoch commit = wrap64 (baseEpoch + 1) →
  ChatMessage.MLSGroupID commit = groupID →
  let s' := advance s groupID baseEpoch (ChatMessage.Ciphertext commit) in
  ChatMessage.MLSChainHash commit = MLSGroupState.ChainHash s' → vouched →
  wp works (delivery msgs) w (fun w' r => r = Ok tt ∧
    World.store w' = ((World.store w) <| Memory.conversations :=
        <[cid := c' <| Conversation.MLS := advance (Conversation.MLS c') groupID baseEpoch (ChatMessage.Ciphertext commit) |>]>
          (Memory.conversations (World.store w)) |>)
      <| Memory.chatMessages := insert_all msgs (Memory.chatMessages (World.store w)) |>).
Proof.
  intros Hc Hd Hid Hhead Hmay Hb Hn Hcid Hlast He Hg s' Hh Hv. unfold delivery.
  destruct msgs as [|x l]; [by destruct Hlast as ([|??] & [=] & _)|]. set (msgs := x :: l) in *. clearbody msgs. subst s'.
  destruct (same_head_commit _ _ groupID baseEpoch (ChatMessage.Ciphertext commit) Hhead) as [Hmay' Hhead'].
  unfold DeliverRelayed. apply (wp_reads _ _ _ (Ok c')); [unfold ConversationByID; by rewrite Hc|]. cbn [lift].
  rewrite Hd, bool_decide_true by done. cbn [negb]. rewrite (find_commit_last _ _ _ _ Hlast). unfold applyRelayedCommit.
  rewrite Hid, from_all by done. set (rm := toRelayed _ _ commit).
  apply (wp_reads _ _ _ (Ok (Conversation.MLS c'))); [unfold MLSGroupState_; by rewrite Hc|]. cbn [lift].
  change (RelayedMessage.MLSEpoch rm) with (ChatMessage.MLSEpoch commit).
  change (RelayedMessage.MLSGroupID rm) with (ChatMessage.MLSGroupID commit).
  change (RelayedMessage.Ciphertext rm) with (ChatMessage.Ciphertext commit).
  change (RelayedMessage.ChainHash rm) with (ChatMessage.MLSChainHash commit).
  change (RelayedMessage.ChainSig rm) with (sign_link hubConf (ChatMessage.MLSChainHash commit)).
  rewrite He, Hg, Hh. injection Hhead as Hg' He' Hh'.
  rewrite <- Hh', bool_decide_true by done. cbn [negb]. rewrite (vouched_verifies s groupID baseEpoch _ Hv). cbn [negb].
  assert (wrap64 (wrap64 (baseEpoch + 1) - 1) = baseEpoch) as ->
    by (unfold two63 in *; rewrite (wrap64_id (baseEpoch + 1)), wrap64_id by (unfold two63; lia); lia).
  intros env Henv. cbv beta. rewrite Henv. cbn [fst snd].
  assert (∀ fresh, CommitMLSGroup (World.store w) fresh cid groupID baseEpoch msgs =
    (((World.store w) <| Memory.conversations :=
        <[cid := c' <| Conversation.MLS := advance (Conversation.MLS c') groupID baseEpoch (ChatMessage.Ciphertext commit) |>]>
          (Memory.conversations (World.store w)) |>)
      <| Memory.chatMessages := insert_all msgs (Memory.chatMessages (World.store w)) |>,
     mk_commit (advance (Conversation.MLS c') groupID baseEpoch (ChatMessage.Ciphertext commit)) msgs None)) as ->.
  { intros fresh. unfold CommitMLSGroup. rewrite Hc, <- Hmay', Hmay, (commitCiphertext_last _ _ Hlast). cbn [negb].
    rewrite (stamp_last _ _ _ Hlast); [by rewrite append_all_numbered|]. rewrite Hh. by injection Hhead'. }
  cbn [fst snd cr_err cr_stored]. apply wp_publishLocal. intros w' Hw'. cbn [wp]. by rewrite Hw'.
Qed.

(** ** A hub, its mirror, and whatever else their stores are used for *)

(** What the handlers have checked of an operation. *)
Definition checked op : Prop :=
  match op with
  | Post _ _ contentType _ _ => contentType ≠ ContentTypeMLSCommit
  | Commit _ _ baseEpoch _ _ _ _ => 0 ≤ baseEpoch < two63 - 1
  end.
Definition drawn op : nat → string := match op with Post _ _ _ _ fresh | Commit _ _ _ _ _ _ fresh => fresh end.

(** The conversation keeps its chain and its log, whatever else it is that
    changes: its other fields, its members, other conversations. *)
Definition leaves (m m' : Memory.t B) : Prop :=
  (∀ c, Memory.conversations m !! cid = Some c → ∃ c', Memory.conversations m' !! cid = Some c' ∧
    head (Conversation.MLS c') = head (Conversation.MLS c) ∧
    Conversation.HubDomain c' = Conversation.HubDomain c ∧ Conversation.ID c' = Conversation.ID c) ∧
  log m' cid = log m cid.

(** The hub does something, and the mirror takes what it relays, with an answer;
    or one of the two is used for something else. *)
Inductive course : Memory.t B * World.t B → list (result conv_err unit) → Memory.t B * World.t B → Prop :=
| course_nil s : course s [] s
| course_relay s answers hub w op hub' msgs envs last w' r :
    course s answers (hub, w) →
    room hub cid op → checked op → drawn op 0%nat ∉ old → drawn op 1%nat ∉ old →
    hub_step hub cid op = (hub', msgs) → Forall works (last :: envs) →
    run (delivery msgs) w envs last = (w', r) →
    course s (answers ++ [r]) (hub', w')
| course_elsewhere s answers hub w hub' w' :
    course s answers (hub, w) → leaves hub hub' → leaves (World.store w) (World.store w') →
    course s answers (hub', w').

Lemma in_step_leaves hub mirror hub' mirror' : in_step old hubDomain cid hub mirror → leaves hub hub' → leaves mirror mirror' →
  in_step old hubDomain cid hub' mirror'.
Proof.
  intros [(c & c' & Hc & Hc' & Hhead & Hd & Hid) Hl] [Hc1 Hl1] [Hc2 Hl2]. split; [|by rewrite Hl1, Hl2].
  destruct (Hc1 c Hc) as (d & Hd1 & Hh1 & _ & _), (Hc2 c' Hc') as (d' & Hd2 & Hh2 & Hhd2 & Hid2).
  exists d, d'. by rewrite Hh1, Hh2, Hhd2, Hid2.
Qed.

Lemma drawn_new (msgs : list ChatMessage.t) (fresh : nat → string) : fresh 0%nat ∉ old → fresh 1%nat ∉ old →
  Forall (fun msg => ChatMessage.ID msg = fresh 0%nat ∨ ChatMessage.ID msg = fresh 1%nat) msgs →
  Forall (fun msg => ChatMessage.ID msg ∉ old) msgs.
Proof. intros H0 H1 Hm. eapply Forall_impl; [exact Hm|]. by intros msg [-> | ->]. Qed.

Lemma mirror_takes hub w op hub' msgs : vouched →
  in_step old hubDomain cid hub (World.store w) → room hub cid op → checked op →
  drawn op 0%nat ∉ old → drawn op 1%nat ∉ old → hub_step hub cid op = (hub', msgs) →
  wp works (delivery msgs) w (fun w' r => r = Ok tt ∧ in_step old hubDomain cid hub' (World.store w')).
Proof.
  intros Hv Hin Hroom Hok H0 H1 Hstep. destruct op as [sender ct ty now fresh|sender gid base welcome commit now fresh]; cbn in Hok, H0, H1.
  - destruct (hub_post _ _ _ _ _ _ _ _ _ Hroom Hstep) as (-> & (Hn & Hc & msg & -> & Ht) & Hids).
    eapply wp_mono; [|apply (mirror_posts _ _ _ Hin)].
    + intros w' r [-> ->]. split; [done|]. apply in_step_append; [done..|]. by eapply drawn_new.
    + by inversion Hn.
    + by inversion Hc.
    + by rewrite Ht.
  - pose proof Hin as [(c & c' & Hc & Hc' & Hhead & Hd & Hid) _].
    destruct (hub_commit _ _ _ _ _ _ _ _ _ _ _ _ Hc Hroom Hstep) as [(_ & -> & ->)|(Hmay & -> & Hsent & Hids)]; [done|].
    destruct Hsent as (Hn & Hcid & front & msg & Heq & Hf & Ht & Hct & He & Hg & Hh).
    eapply wp_mono; [|apply (mirror_commits w c' (Conversation.MLS c) gid base msgs msg); try done; [by exists front|by rewrite Hct]].
    intros w' r [-> ->]. split; [done|]. pose proof (drawn_new _ _ H0 H1 Hids) as Hnew.
    pose proof (in_step_append _ _ _ Hin Hcid Hnew) as [_ Hlog]. split; [|exact Hlog].
    eexists _, _. cbn. rewrite !lookup_insert_eq. split_and!; [reflexivity|reflexivity| |exact Hd|exact Hid]. cbn [Conversation.MLS]. rewrite Hct. by apply same_head_commit.
Qed.

End Mirror.

(** ** At a hub and its mirror *)

(** Conversation "g" of the sample town, and another host's mirror of it. *)
Definition hub_conf : ConvFederation.t :=
  ConvFederation.mk true true "hub.example" (Some "seed") None None false false ICEConfig.zero.
Definition mirror_conf : ConvFederation.t :=
  ConvFederation.mk true true "mirror.example" None
    (Some (fun d => if d == "hub.example" then Some (ed_public (Ed25519 := toy_ed25519) "seed") else None))
    None false false ICEConfig.zero.
Definition mirror_world : World.t BlobMemory.t :=
  World.init ((Memory.NewMemory (Some BlobMemory.NewMemory))
    <| Memory.conversations := {["g" := (town_conversation "g" ConversationGroup) <| Conversation.HubDomain := "hub.example" |>]} |>).
Definition first_commit : hub_op := Commit "alice" "mls" 0 "welcome" "commit" 10 (town_id "a").
Definition second_commit : hub_op := Commit "alice" "mls" 1 "" "update" 11 (town_id "b").
Definition first_post : hub_op := Post "bob" "hello" "application/octet-stream" 12 (town_id "c").
(** The group is started again. *)
Definition new_group : hub_op := Commit "alice" "mls2" 0 "welcome" "again" 13 (town_id "e").

Definition relay (msgs : list ChatMessage.t) (w : World.t BlobMemory.t) : World.t BlobMemory.t * result conv_err unit :=
  run (delivery (RO := order_fwd) (E := toy_ed25519)
         hub_conf mirror_conf "hub.example" "g" msgs) w [] (town_env "z" Works).
Definition at_hub (op : hub_op) (m : Memory.t BlobMemory.t) : Memory.t BlobMemory.t * list ChatMessage.t :=
  hub_step (RO := order_fwd) m "g" op.

(** The hub does each, and the mirror takes what it relays; the second relay is
    lost. *)
Definition relayed_all (ops : list hub_op) : Memory.t BlobMemory.t * World.t BlobMemory.t * list (result conv_err unit) :=
  foldl (fun '(m, w, out) op => let '(m, msgs) := at_hub op m in let '(w, r) := relay msgs w in (m, w, out ++ [r]))
    (town, mirror_world, []) ops.

Example three_relays : (relayed_all [first_commit; second_commit; first_post]).2 = [Ok tt; Ok tt; Ok tt].
Proof. vm_compute. reflexivity. Qed.

(** The hub retires the group, of which the mirror hears nothing: the commit that
    starts the next group is refused, with every message of its batch. *)
Example reset_strands_mirror :
  let '(m, w, _) := relayed_all [first_commit] in
  let m := (ResetMLSGroup m "g").1 in
  let '(m, msgs) := at_hub new_group m in
  (length msgs, (relay msgs w).2) = (2%nat, Err errChainMismatch).
Proof. vm_compute. reflexivity. Qed.

(** So is every commit after one whose relay was lost. *)
Example lost_commit_strands :
  let '(m, lost) := at_hub first_commit town in
  let '(m, msgs) := at_hub second_commit m in
  (length lost, length msgs, (relay msgs mirror_world).2) = (2%nat, 1%nat, Err errChainMismatch).
Proof. vm_compute. reflexivity. Qed.

Lemma sample_room m op : drawn op 0%nat ≠ "" → drawn op 1%nat ≠ "" → drawn op 0%nat ≠ drawn op 1%nat →
  Memory.chatMessages m !! drawn op 0%nat = None → Memory.chatMessages m !! drawn op 1%nat = None →
  maxMessageSeqLocked (RO := order_fwd) (B := BlobMemory.t) m "g" + 2 < two63 → room (RO := order_fwd) m "g" op.
Proof. intros H0 H1 Hne Hn0 Hn1 Hm. split_and!; [|done..]. intros [|[|i]] Hi; [done..|lia]. Qed.

