(* ===== verification/Bson.v ===== *)
(** * The document database

    What [store_mongo*.go] of [api/internal/store] takes from the MongoDB driver:
    documents, queries and updates as it writes them, and the driver as a class:
    its answers to the commands the code sends. Each command is one step,
    also those on many documents, for which the server promises it of each. The operators mean what the manual of the database
    says they mean; which of several matching documents is taken is left open. *)

From S2P Require Import Prelude.
From S2P Require Import GoStrings.
From S2P Require Import Domain.

(** ** Values and documents *)

(** A value in an embedded document. *)
Inductive scalar : Type := SString (s : string) | SInt (n : Z).
#[export] Instance scalar_eq_dec : EqDecision scalar.
Proof. solve_decision. Defined.

(** A date counts milliseconds from 1970; [BMap] is an embedded document of strings,
    [BRows] an array of embedded documents. *)
Inductive bson : Type :=
| BString (s : string)
| BInt (n : Z)
| BBool (b : bool)
| BDate (ms : Z)
| BBinary (b : bytes)
| BNull
| BStrings (l : list string)
| BMap (m : gmap string string)
| BRows (l : list (list (string * scalar))).

#[export] Instance bson_eq_dec : EqDecision bson.
Proof. solve_decision. Defined.

(** A document without its [_id], under which its collection keeps it; an id the
    server draws stands for its hexadecimal digits, as the driver decodes it. *)
Abbreviation doc := (gmap string bson).
Abbreviation collection := (gmap string doc).
Abbreviation database := (gmap string collection).

Definition field (id : string) (d : doc) (k : string) : option bson := if k == "_id" then Some (BString id) else d !! k.

(** Comparison within a type. *)
Definition bson_lt (x y : bson) : bool :=
  match x, y with
  | BString a, BString b => str_lt a b
  | BInt a, BInt b => a <? b
  | BDate a, BDate b => a <? b
  | BBool a, BBool b => negb a && b
  | _, _ => false
  end.
(** The order of types in a sort; a missing field sorts as null. *)
Definition type_rank (v : bson) : Z :=
  match v with
  | BNull => 0 | BInt _ => 1 | BString _ => 2 | BMap _ => 3 | BStrings _ | BRows _ => 4 | BBinary _ => 5 | BBool _ => 6 | BDate _ => 7
  end.
Definition sort_lt (x y : option bson) : bool :=
  let x := default BNull x in let y := default BNull y in
  (type_rank x <? type_rank y) || ((type_rank x =? type_rank y) && bson_lt x y).

(** ** Queries *)

(** [{k: v}], [$ne], [$gt], [$lt], [$in], [$nin], [$exists], and a regular expression
    that a string must match; a field that is missing is not equal to a value, nor
    above or below it. *)
Inductive condition : Type :=
| CEq (v : bson)
| CNe (v : bson)
| CGt (v : bson)
| CLt (v : bson)
| CIn (l : list string)
| CNin (l : list string)
| CExists (b : bool)
| CRegex (found_in : string → bool).

Definition is_in (v : option bson) (l : list string) : bool :=
  match v with Some (BString s) => bool_decide (s ∈ l) | _ => false end.
Definition meets (v : option bson) (c : condition) : bool :=
  match c with
  | CEq x => v == Some x
  | CNe x => v != Some x
  | CGt x => match v with Some y => bson_lt x y | None => false end
  | CLt x => match v with Some y => bson_lt y x | None => false end
  | CIn l => is_in v l
  | CNin l => negb (is_in v l)
  | CExists b => Bool.eqb (bool_decide (is_Some v)) b
  | CRegex found_in => match v with Some (BString s) => found_in s | _ => false end
  end.

Inductive query : Type :=
| Anything
| Where (k : string) (c : condition)
| And (p q : query)
| Or (p q : query).

Fixpoint matches (q : query) (id : string) (d : doc) : bool :=
  match q with
  | Anything => true
  | Where k c => meets (field id d k) c
  | And p q => matches p id d && matches q id d
  | Or p q => matches p id d || matches q id d
  end.

(** A [bson.M] of fields that are equal to values. *)
Definition equals (l : list (string * bson)) : query := foldr (fun kv q => And (Where kv.1 (CEq kv.2)) q) Anything l.

(** ** Updates *)

(** [$push] is with [$each] one string, at [$position] 0, and a [$slice]. *)
Inductive update : Type :=
| USet (k : string) (v : bson)
| USetOnInsert (k : string) (v : bson)
| UInc (k : string) (n : Z)
| UMax (k : string) (v : bson)
| UUnset (k : string)
| UPushFront (k : string) (s : string) (slice : nat).

(** [None] where the server refuses. *)
Definition apply_update (inserting : bool) (d : doc) (u : update) : option doc :=
  match u with
  | USet k v => Some (<[k := v]> d)
  | USetOnInsert k v => Some (if inserting then <[k := v]> d else d)
  | UInc k n =>
      match d !! k with
      | None => Some (<[k := BInt n]> d)
      | Some (BInt z) => if (- two63 <=? z + n) && (z + n <? two63) then Some (<[k := BInt (z + n)]> d) else None
      | Some _ => None
      end
  | UMax k v => Some (if sort_lt (d !! k) (Some v) then <[k := v]> d else d)
  | UUnset k => Some (delete k d)
  | UPushFront k s slice =>
      match d !! k with
      | None => Some (<[k := BStrings (take slice [s])]> d)
      | Some (BStrings l) => Some (<[k := BStrings (take slice (s :: l))]> d)
      | Some _ => None
      end
  end.
Definition apply_updates (inserting : bool) (us : list update) (d : doc) : option doc :=
  foldl (fun d u => d ← d; apply_update inserting d u) (Some d) us.

(** What an upsert starts from: the fields its query sets equal. *)
Fixpoint upsert_base (q : query) (d : doc) : doc :=
  match q with
  | Where k (CEq v) => if k == "_id" then d else <[k := v]> d
  | And p q => upsert_base q (upsert_base p d)
  | _ => d
  end.
(** The id a query or an update gives it. *)
Fixpoint query_id (q : query) : option string :=
  match q with
  | Where k (CEq (BString s)) => if k == "_id" then Some s else None
  | And p q => match query_id p with Some s => Some s | None => query_id q end
  | _ => None
  end.
Definition update_id (us : list update) : option string :=
  foldr (fun u r => match u with
                    | USetOnInsert k (BString s) | USet k (BString s) => if k == "_id" then Some s else r
                    | _ => r
                    end) None us.
Definition without_id (us : list update) : list update :=
  List.filter (fun u => match u with USetOnInsert k _ | USet k _ => k != "_id" | _ => true end) us.

(** ** Unique indexes *)

(** Its keys, and which documents it holds. *)
Record index := mk_index { ix_keys : list string; ix_partial : query }.
Definition clash (ix : index) (id : string) (d : doc) (id' : string) (d' : doc) : bool :=
  matches (ix_partial ix) id d && matches (ix_partial ix) id' d'
  && forallb (fun k => field id d k == field id' d' k) (ix_keys ix).
(** Another document has the keys of this one. *)
Definition clashes (ixs : list index) (t : collection) (id : string) (d : doc) : bool :=
  existsb (fun kd => (kd.1 != id) && existsb (fun ix => clash ix id d kd.1 kd.2) ixs) (map_to_list t).

(** ** Commands *)

(** A key of a sort, and whether it ascends. *)
Definition sort_keys : Type := list (string * bool).
Fixpoint sorts_before (ks : sort_keys) (x y : string * doc) : bool :=
  match ks with
  | [] => false
  | (k, asc) :: ks =>
      let a := field x.1 x.2 k in let b := field y.1 y.2 k in
      let lt := if asc then sort_lt a b else sort_lt b a in
      let gt := if asc then sort_lt b a else sort_lt a b in
      lt || (negb gt && sorts_before ks x y)
  end.

(** The [Group] commands are the aggregations the code runs, each after a [$match]:
    [$sort], [$group] by a key with [$first], and [$replaceRoot]; [$group] by keys;
    [$group] by a key with a count, and perhaps [$sort] by it and [$limit]; [$sort],
    [$group] by a key with the ids of its documents, and [$match] on those with two
    values of another field. [BulkWrite] is of upserts, unordered. *)
Inductive command : Type → Type :=
| InsertOne (c id : string) (d : doc) : command unit
| InsertMany (c : string) (ordered : bool) (ds : list (string * doc)) : command unit
| FindOne (c : string) (q : query) : command (string * doc)
| Find (c : string) (q : query) (ks : sort_keys) (skip : nat) (limit : option nat) : command (list (string * doc))
| UpdateOne (c : string) (q : query) (us : list update) (upsert : bool) : command Z
| FindOneAndUpdate (c : string) (q : query) (us : list update) : command (string * doc)
| FindOneAndDelete (c : string) (q : query) : command (string * doc)
| DeleteOne (c : string) (q : query) : command Z
| DeleteMany (c : string) (q : query) : command Z
| CountDocuments (c : string) (q : query) : command Z
| GroupFirst (c : string) (q : query) (ks : sort_keys) (key : string) : command (list (string * doc))
| GroupKeys (c : string) (q : query) (keys : list string) : command (list (list (option bson)))
| BulkWrite (c : string) (ups : list (query * list update)) : command unit
| UpdateMany (c : string) (q : query) (us : list update) : command Z
| GroupCount (c : string) (q : query) (key : string) (top : option nat) : command (list (option bson * Z))
| GroupIds (c : string) (q : query) (ks : sort_keys) (key other : string) : command (list (list string)).

(** The errors the code tells apart; [Refused] is any other. *)
Inductive mongo_err : Type := ErrNoDocuments | ErrDuplicateKey | Refused.

Definition coll (t : database) (c : string) : collection := default ∅ (t !! c).

(** ** What the server may answer *)

Definition matching (s : collection) (q : query) : list (string * doc) :=
  filter (fun kd => matches q kd.1 kd.2 = true) (map_to_list s).
Definition sorted (ks : sort_keys) (l : list (string * doc)) : Prop :=
  StronglySorted (fun x y => sorts_before ks y x = false) l.

(** Any of the documents that match, or none does. *)
Definition one (s : collection) (q : query) (found : string → doc → Prop) (none : Prop) : Prop :=
  (∃ id d, s !! id = Some d ∧ matches q id d = true ∧ found id d) ∨
  ((∀ id d, s !! id = Some d → matches q id d = false) ∧ none).

Definition insert_doc (ixs : list index) (s : collection) (id : string) (d : doc) : option collection :=
  if bool_decide (s !! id = None) && negb (clashes ixs s id d) then Some (<[id := d]> s) else None.
Fixpoint insert_docs (ixs : list index) (ordered : bool) (s : collection) (ds : list (string * doc)) : collection * bool :=
  match ds with
  | [] => (s, true)
  | (id, d) :: ds =>
      match insert_doc ixs s id d with
      | Some s => insert_docs ixs ordered s ds
      | None => if ordered then (s, false) else ((insert_docs ixs ordered s ds).1, false)
      end
  end.

(** A document that is there, updated. *)
Definition update_doc (ixs : list index) (s : collection) (id : string) (d : doc) (us : list update)
  : collection * result mongo_err (string * doc) :=
  match apply_updates false us d with
  | None => (s, Err Refused)
  | Some d => if clashes ixs s id d then (s, Err ErrDuplicateKey) else (<[id := d]> s, Ok (id, d))
  end.
(** A document that an upsert makes; [drawn] is the id the server draws. *)
Definition upsert_doc (ixs : list index) (s : collection) (drawn : string) (q : query) (us : list update)
  : collection * result mongo_err Z :=
  let id := default (default drawn (query_id q)) (update_id us) in
  match apply_updates true (without_id us) (upsert_base q ∅) with
  | None => (s, Err Refused)
  | Some d => match insert_doc ixs s id d with Some s => (s, Ok 0) | None => (s, Err ErrDuplicateKey) end
  end.

Definition map_ok {X Y} (f : X → Y) (r : result mongo_err X) : result mongo_err Y :=
  match r with Ok x => Ok (f x) | Err e => Err e end.

Definition updates_one (ixs : list index) (s : collection) (q : query) (us : list update) (upsert : bool) (s' : collection)
  (r : result mongo_err Z) : Prop :=
  one s q (fun id d => let u := update_doc ixs s id d us in s' = u.1 ∧ r = map_ok (fun _ => 1) u.2)
    (if upsert then ∃ drawn, s !! drawn = None ∧ (s', r) = upsert_doc ixs s drawn q us else s' = s ∧ r = Ok 0).

(** In some order; an error does not stop the rest. *)
Inductive bulk (ixs : list index) : collection → list (query * list update) → collection → bool → Prop :=
| bulk_nil s : bulk ixs s [] s true
| bulk_cons s q us ups s1 r s2 ok :
    updates_one ixs s q us true s1 r → bulk ixs s1 ups s2 ok → bulk ixs s ((q, us) :: ups) s2 (is_ok r && ok).

(** The first document for each value of a key, of those that are listed. *)
Definition firsts (key : string) (l : list (string * doc)) : list (string * doc) :=
  foldl (fun out kd => if existsb (fun x => field x.1 x.2 key == field kd.1 kd.2 key) out then out else out ++ [kd]) [] l.
(** How many documents have each value of a key. *)
Definition counts (key : string) (l : list (string * doc)) : list (option bson * Z) :=
  let values := (fun kd => field kd.1 kd.2 key) <$> l in
  (fun v => (v, Z.of_nat (length (List.filter (fun x => x == v) values)))) <$> remove_dups values.
(** The ids under each value of a key that comes with two values of another field. *)
Definition shared_ids (key other : string) (l : list (string * doc)) : list (list string) :=
  omap (fun v =>
          let group := List.filter (fun kd => field kd.1 kd.2 key == v) l in
          if (1 <? length (remove_dups ((fun kd => field kd.1 kd.2 other) <$> group)))%nat then Some group.*1 else None)
    (remove_dups ((fun kd => field kd.1 kd.2 key) <$> l)).
(** Documents updated one after the other, up to one that cannot be. *)
Fixpoint update_docs (ixs : list index) (us : list update) (s : collection) (l : list (string * doc)) : collection * option mongo_err :=
  match l with
  | [] => (s, None)
  | (id, d) :: l => match update_doc ixs s id d us with (s, Ok _) => update_docs ixs us s l | (s, Err e) => (s, Some e) end
  end.
Definition group_key (keys : list string) (kd : string * doc) : list (option bson) := (fun k => field kd.1 kd.2 k) <$> keys.

(** The collection of a command. *)
Definition collection_of {A} (c : command A) : string :=
  match c with
  | InsertOne c _ _ | InsertMany c _ _ | FindOne c _ | Find c _ _ _ _ | UpdateOne c _ _ _ | FindOneAndUpdate c _ _
  | FindOneAndDelete c _ | DeleteOne c _ | DeleteMany c _ | CountDocuments c _ | GroupFirst c _ _ _ | GroupKeys c _ _
  | BulkWrite c _ | UpdateMany c _ _ | GroupCount c _ _ _ | GroupIds c _ _ _ _ => c
  end.

(** [s] becomes [s'], and the answer is [r]. *)
Definition permits {A} (ixs : list index) (s : collection) (c : command A) (s' : collection)
  : result mongo_err A → Prop :=
  match c in command A return result mongo_err A → Prop with
  | InsertOne _ id d => fun r =>
      match insert_doc ixs s id d with Some s1 => s' = s1 ∧ r = Ok tt | None => s' = s ∧ r = Err ErrDuplicateKey end
  | InsertMany _ ordered ds => fun r =>
      let '(s1, ok) := insert_docs ixs ordered s ds in s' = s1 ∧ r = if ok then Ok tt else Err ErrDuplicateKey
  | FindOne _ q => fun r => s' = s ∧ one s q (fun id d => r = Ok (id, d)) (r = Err ErrNoDocuments)
  | Find _ q ks skip limit => fun r =>
      s' = s ∧ ∃ l, l ≡ₚ matching s q ∧ sorted ks l ∧
        r = Ok (match limit with Some n => take n (drop skip l) | None => drop skip l end)
  | UpdateOne _ q us upsert => fun r => updates_one ixs s q us upsert s' r
  | FindOneAndUpdate _ q us => fun r =>
      one s q (fun id d => (s', r) = update_doc ixs s id d us) (s' = s ∧ r = Err ErrNoDocuments)
  | FindOneAndDelete _ q => fun r =>
      one s q (fun id d => s' = delete id s ∧ r = Ok (id, d)) (s' = s ∧ r = Err ErrNoDocuments)
  | DeleteOne _ q => fun r => one s q (fun id d => s' = delete id s ∧ r = Ok 1) (s' = s ∧ r = Ok 0)
  | DeleteMany _ q => fun r =>
      s' = filter (fun kd => matches q kd.1 kd.2 = false) s ∧ r = Ok (Z.of_nat (length (matching s q)))
  | CountDocuments _ q => fun r => s' = s ∧ r = Ok (Z.of_nat (length (matching s q)))
  | GroupFirst _ q ks key => fun r => s' = s ∧ ∃ l, l ≡ₚ matching s q ∧ sorted ks l ∧ ∃ out, out ≡ₚ firsts key l ∧ r = Ok out
  | GroupKeys _ q keys => fun r =>
      s' = s ∧ ∃ out, out ≡ₚ remove_dups (group_key keys <$> matching s q) ∧ r = Ok out
  | BulkWrite _ ups => fun r =>
      ∃ ups' ok, ups' ≡ₚ ups ∧ bulk ixs s ups' s' ok ∧ (if ok : bool then r = Ok tt else ∃ e, r = Err e ∧ e ≠ ErrNoDocuments)
  | UpdateMany _ q us => fun r =>
      ∃ l, l ≡ₚ matching s q ∧ let '(s1, e) := update_docs ixs us s l in
        s' = s1 ∧ r = match e with None => Ok (Z.of_nat (length l)) | Some e => Err e end
  | GroupCount _ q key top => fun r =>
      s' = s ∧ ∃ out, out ≡ₚ counts key (matching s q) ∧
        match top with
        | None => r = Ok out
        | Some n => StronglySorted (fun x y => y.2 <= x.2) out ∧ r = Ok (take n out)
        end
  | GroupIds _ q ks key other => fun r =>
      s' = s ∧ ∃ l, l ≡ₚ matching s q ∧ sorted ks l ∧ ∃ out, out ≡ₚ shared_ids key other l ∧ r = Ok out
  end.

(** ** The driver

    One [Database]; [mongo_indexes] are the unique indexes of its collections. *)
Class Mongo (mongo_indexes : string → list index) := {
  mdb : Type;
  contents : mdb → database;
  execute {A} : mdb → command A → mdb * result mongo_err A;
  executes {A} (m : mdb) (c : command A) :
    let '(m', r) := execute m c in
    permits (mongo_indexes (collection_of c)) (coll (contents m) (collection_of c)) c (coll (contents m') (collection_of c)) r ∧
    (∀ other, other ≠ collection_of c → coll (contents m') other = coll (contents m) other)
}.

(** ** A database in memory *)

Lemma bson_lt_asym x y : bson_lt x y = true → bson_lt y x = false.
Proof.
  destruct x as [a|a|p|a|a| |a|a|a], y as [b|b|q|b|b| |b|b|b]; cbn; try done.
  - apply str_lt_asym.
  - rewrite Z.ltb_lt, Z.ltb_ge. lia.
  - by destruct p, q.
  - rewrite Z.ltb_lt, Z.ltb_ge. lia.
Qed.
Lemma bson_lt_negtrans x y z : type_rank x = type_rank y → type_rank y = type_rank z →
  bson_lt y x = false → bson_lt z y = false → bson_lt z x = false.
Proof.
  destruct x as [a|a|p|a|a| |a|a|a]; destruct y as [b|b|q|b|b| |b|b|b]; try done;
    destruct z as [e|e|o|e|e| |e|e|e]; try done; intros _ _; cbn; try done.
  - apply str_lt_trans_neg.
  - rewrite !Z.ltb_ge. lia.
  - by destruct p, q, o.
  - rewrite !Z.ltb_ge. lia.
Qed.
Lemma sort_lt_asym x y : sort_lt x y = true → sort_lt y x = false.
Proof.
  unfold sort_lt. cbv zeta. set (a := default BNull x). set (b := default BNull y).
  intros [H%Z.ltb_lt|[He%Z.eqb_eq H%bson_lt_asym]%andb_true_iff]%orb_true_iff; apply orb_false_iff; split.
  - apply Z.ltb_ge. lia.
  - apply andb_false_iff. left. apply Z.eqb_neq. lia.
  - apply Z.ltb_ge. lia.
  - by rewrite H, andb_false_r.
Qed.
Lemma sort_lt_negtrans x y z : sort_lt y x = false → sort_lt z y = false → sort_lt z x = false.
Proof.
  unfold sort_lt. cbv zeta. set (a := default BNull x). set (b := default BNull y). set (c := default BNull z).
  intros [H1%Z.ltb_ge H2]%orb_false_iff [H3%Z.ltb_ge H4]%orb_false_iff. apply orb_false_iff. split; [apply Z.ltb_ge; lia|].
  apply andb_false_iff. destruct (type_rank c =? type_rank a) eqn:E; [right|by left]. apply Z.eqb_eq in E.
  apply (bson_lt_negtrans _ b); [lia..| |].
  - apply andb_false_iff in H2 as [H2%Z.eqb_neq|H2]; [lia|done].
  - apply andb_false_iff in H4 as [H4%Z.eqb_neq|H4]; [lia|done].
Qed.

Lemma sorts_before_asym ks x y : sorts_before ks x y = true → sorts_before ks y x = false.
Proof.
  induction ks as [|[k asc] ks IH]; cbn [sorts_before]; [done|].
  set (a := field x.1 x.2 k). set (b := field y.1 y.2 k).
  pose proof (sort_lt_asym a b). pose proof (sort_lt_asym b a).
  destruct asc, (sort_lt a b) eqn:E1, (sort_lt b a) eqn:E2; cbn; auto; naive_solver.
Qed.
Lemma sorts_before_negtrans ks x y z :
  sorts_before ks y x = false → sorts_before ks z y = false → sorts_before ks z x = false.
Proof.
  induction ks as [|[k asc] ks IH]; cbn [sorts_before]; [done|]. cbv zeta.
  set (before := fun u v => if asc then sort_lt u v else sort_lt v u).
  assert (∀ u v w, before v u = false → before w v = false → before w u = false) as Hn
    by (intros u v w; subst before; cbn beta; destruct asc; [apply sort_lt_negtrans|intros H1 H2; by eapply sort_lt_negtrans]).
  set (a := field x.1 x.2 k). set (b := field y.1 y.2 k). set (c := field z.1 z.2 k).
  change (before b a || negb (before a b) && sorts_before ks y x = false →
          before c b || negb (before b c) && sorts_before ks z y = false →
          before c a || negb (before a c) && sorts_before ks z x = false).
  intros [H1 H2]%orb_false_iff [H3 H4]%orb_false_iff. apply orb_false_iff. split; [by eapply Hn|].
  destruct (before a c) eqn:Hac; [done|]. rewrite (Hn b c a H3 Hac) in H2. rewrite (Hn c a b Hac H1) in H4. cbn in *. auto.
Qed.

Definition listed (s : collection) (q : query) (ks : sort_keys) : list (string * doc) := sort_slice (sorts_before ks) (matching s q).
Definition first_match (s : collection) (q : query) : option (string * doc) := hd_error (matching s q).

Lemma listed_spec s q ks : listed s q ks ≡ₚ matching s q ∧ sorted ks (listed s q ks).
Proof.
  split; [apply sort_slice_perm|]. apply sort_slice_sorted; [apply sorts_before_asym|apply sorts_before_negtrans].
Qed.

Lemma elem_of_matching s q id d : (id, d) ∈ matching s q ↔ s !! id = Some d ∧ matches q id d = true.
Proof. unfold matching. rewrite list_elem_of_filter. rewrite (elem_of_map_to_list (M := gmap string) s). cbn. tauto. Qed.

Lemma first_match_one s q found (none : Prop) :
  match first_match s q with Some (id, d) => found id d | None => none end → one s q found none.
Proof.
  unfold first_match, one. destruct (matching s q) as [|[id d] l] eqn:E; cbn [hd_error]; intros H.
  - right. split; [|done]. intros id d Hd. apply not_true_iff_false. intros Hm.
    assert ((id, d) ∈ matching s q) as Hin by (by apply elem_of_matching). rewrite E in Hin. by apply not_elem_of_nil in Hin.
  - left. exists id, d. assert ((id, d) ∈ matching s q) as [??]%elem_of_matching by (rewrite E; left). done.
Qed.

Definition memory_update (ixs : list index) (s : collection) (q : query) (us : list update) (upsert : bool)
  : collection * result mongo_err Z :=
  match first_match s q with
  | Some (id, d) => let u := update_doc ixs s id d us in (u.1, map_ok (fun _ => 1) u.2)
  | None => if upsert then upsert_doc ixs s (fresh (dom s)) q us else (s, Ok 0)
  end.
Fixpoint memory_bulk (ixs : list index) (s : collection) (ups : list (query * list update)) : collection * bool :=
  match ups with
  | [] => (s, true)
  | (q, us) :: ups =>
      let '(s, r) := memory_update ixs s q us true in
      let '(s, ok) := memory_bulk ixs s ups in (s, is_ok r && ok)
  end.

Definition memory_run {A} (ixs : list index) (s : collection) (c : command A) : collection * result mongo_err A :=
  match c in command A return collection * result mongo_err A with
  | InsertOne _ id d => match insert_doc ixs s id d with Some s => (s, Ok tt) | None => (s, Err ErrDuplicateKey) end
  | InsertMany _ ordered ds =>
      let '(s, ok) := insert_docs ixs ordered s ds in (s, if ok then Ok tt else Err ErrDuplicateKey)
  | FindOne _ q => (s, match first_match s q with Some kd => Ok kd | None => Err ErrNoDocuments end)
  | Find _ q ks skip limit =>
      let l := listed s q ks in (s, Ok (match limit with Some n => take n (drop skip l) | None => drop skip l end))
  | UpdateOne _ q us upsert => memory_update ixs s q us upsert
  | FindOneAndUpdate _ q us =>
      match first_match s q with Some (id, d) => update_doc ixs s id d us | None => (s, Err ErrNoDocuments) end
  | FindOneAndDelete _ q =>
      match first_match s q with Some (id, d) => (delete id s, Ok (id, d)) | None => (s, Err ErrNoDocuments) end
  | DeleteOne _ q => match first_match s q with Some (id, d) => (delete id s, Ok 1) | None => (s, Ok 0) end
  | DeleteMany _ q =>
      (filter (fun kd => matches q kd.1 kd.2 = false) s, Ok (Z.of_nat (length (matching s q))))
  | CountDocuments _ q => (s, Ok (Z.of_nat (length (matching s q))))
  | GroupFirst _ q ks key => (s, Ok (firsts key (listed s q ks)))
  | GroupKeys _ q keys => (s, Ok (remove_dups (group_key keys <$> matching s q)))
  | BulkWrite _ ups => let '(s, ok) := memory_bulk ixs s ups in (s, if ok then Ok tt else Err ErrDuplicateKey)
  | UpdateMany _ q us =>
      let l := matching s q in
      let '(s, e) := update_docs ixs us s l in (s, match e with None => Ok (Z.of_nat (length l)) | Some e => Err e end)
  | GroupCount _ q key top =>
      let out := sort_slice (fun x y => y.2 <? x.2) (counts key (matching s q)) in
      (s, Ok (match top with None => out | Some n => take n out end))
  | GroupIds _ q ks key other => (s, Ok (shared_ids key other (listed s q ks)))
  end.

Lemma memory_update_one ixs s q us upsert :
  updates_one ixs s q us upsert (memory_update ixs s q us upsert).1 (memory_update ixs s q us upsert).2.
Proof.
  unfold memory_update. apply first_match_one. destruct (first_match s q) as [[id d]|]; [done|].
  destruct upsert; [|done]. exists (fresh (dom s)). split; [|by destruct (upsert_doc _ _ _ _ _)].
  apply not_elem_of_dom, is_fresh.
Qed.
Lemma memory_bulk_spec ixs ups : ∀ s, bulk ixs s ups (memory_bulk ixs s ups).1 (memory_bulk ixs s ups).2.
Proof.
  induction ups as [|[q us] ups IH]; intros s; cbn [memory_bulk]; [constructor|].
  pose proof (memory_update_one ixs s q us true) as Hu. destruct (memory_update ixs s q us true) as [s1 r].
  specialize (IH s1). destruct (memory_bulk ixs s1 ups) as [s2 ok]. by econstructor.
Qed.

Lemma memory_run_permitted {A} ixs s (c : command A) : permits ixs s c (memory_run ixs s c).1 (memory_run ixs s c).2.
Proof.
  destruct c; cbn [permits memory_run fst snd].
  - by destruct (insert_doc _ _ _ _).
  - by destruct (insert_docs _ _ _ _).
  - split; [done|]. apply first_match_one. by destruct (first_match _ _) as [[id d]|].
  - split; [done|]. destruct (listed_spec s q ks) as [Hp Hs]. by exists (listed s q ks).
  - apply memory_update_one.
  - apply first_match_one. destruct (first_match _ _) as [[id d]|]; [|done]. by destruct (update_doc _ _ _ _ _).
  - apply first_match_one. by destruct (first_match _ _) as [[id d]|].
  - apply first_match_one. by destruct (first_match _ _) as [[id d]|].
  - done.
  - done.
  - split; [done|]. destruct (listed_spec s q ks) as [Hp Hs]. exists (listed s q ks). split_and!; [done..|]. by eexists.
  - split; [done|]. by eexists.
  - pose proof (memory_bulk_spec ixs ups s) as Hb. destruct (memory_bulk ixs s ups) as [s' ok]. exists ups, ok.
    split_and!; [done..|]. destruct ok; [done|]. by exists ErrDuplicateKey.
  - exists (matching s q). split; [done|]. by destruct (update_docs ixs us s (matching s q)).
  - split; [done|]. eexists. split; [apply sort_slice_perm|]. destruct top; [|done]. split; [|done].
    apply (StronglySorted_weaken _ _ _ (fun x y H => proj1 (Z.ltb_ge _ _) H)), sort_slice_sorted; [intros x y H|intros x y z H1 H2].
    + apply Z.ltb_lt in H. apply Z.ltb_ge. lia.
    + apply Z.ltb_ge in H1, H2. apply Z.ltb_ge. lia.
  - split; [done|]. destruct (listed_spec s q ks) as [Hp Hs]. exists (listed s q ks). split_and!; [done..|]. by eexists.
Qed.

Lemma coll_insert (t : gmap string collection) c s other : coll (<[c := s]> t) other = if bool_decide (other = c) then s else coll t other.
Proof. unfold coll. case_bool_decide as H; [by rewrite H, lookup_insert_eq|by rewrite lookup_insert_ne]. Qed.

(** What the witnesses run on. *)
Definition memory_execute (ixs : string → list index) {A} (t : database) (c : command A) : database * result mongo_err A :=
  let '(s, r) := memory_run (ixs (collection_of c)) (coll t (collection_of c)) c in (<[collection_of c := s]> t, r).
Definition memory_mongo (ixs : string → list index) : Mongo ixs.
Proof.
  refine {| mdb := database; contents t := t; execute A := memory_execute ixs |}.
  intros A t c. unfold memory_execute.
  pose proof (memory_run_permitted (ixs (collection_of c)) (coll t (collection_of c)) c) as H.
  destruct (memory_run _ _ c) as [s r]. cbn [fst snd] in H. split.
  - by rewrite coll_insert, bool_decide_true.
  - intros other Ho. by rewrite coll_insert, bool_decide_false.
Defined.
