(* ===== verification/MongoStore.v ===== *)
(** * The store over MongoDB: conversations and MLS

    [store_mongo_conversations.go] and [store_mongo_keypackages.go] of
    [api/internal/store], with the indexes [store_mongo.go] creates: every method a
    program of the commands it sends. Other methods, and other processes, act between
    two commands of one; a command may fail before or after the server has run it. *)

From S2P Require Import Prelude.
From S2P Require Import GoStrings.
From S2P Require Import Domain.
From S2P Require Import Threads.
From S2P Require Import MlsChain.
From S2P Require Import StoreState.
From S2P Require Import StoreConversations.
From S2P Require Import StoreMls.
From S2P Require Import Bson.

(** ** Indexes

    The unique ones of [ensureIndexes]. *)
Definition unique_indexes (c : string) : list index :=
  let when_set k := Where k (CExists true) in
  if c == "users" then [mk_index ["email"] Anything; mk_index ["usernameLower"] (when_set "usernameLower")]
  else if c == "channels" then [mk_index ["publicId"] Anything; mk_index ["aliasLower"] (when_set "aliasLower")]
  else if c == "invites" then [mk_index ["codeHash"] Anything]
  else if c == "devices" then
    [mk_index ["userId"; "webPushEndpoint"] (when_set "webPushEndpoint"); mk_index ["fcmToken"] (when_set "fcmToken");
     mk_index ["webPushEndpoint"] (when_set "webPushEndpoint")]
  else if c == "channelMembers" then [mk_index ["channelId"; "userId"] Anything]
  else if c == "remoteSubscriptions" then [mk_index ["channelId"; "peerDomain"] Anything]
  else if c == "conversations" then [mk_index ["directKey"] (when_set "directKey")]
  else if c == "conversationMembers" then [mk_index ["conversationId"; "userId"] Anything]
  else if c == "mlsKeyPackages" then [mk_index ["userId"; "deviceId"; "lastResort"] (Where "lastResort" (CEq (BBool true)))]
  else if c == "mlsKeyBackups" then [mk_index ["userId"] Anything]
  else if c == "mlsKeyBackupTail" then [mk_index ["userId"; "conversationId"; "messageId"] Anything]
  else [].

(** ** Documents

    A field of a struct under its [bson] tag; [None] is a field that [omitempty]
    leaves out. *)
Definition str (k s : string) : string * option bson := (k, Some (BString s)).
Definition int (k : string) (n : Z) : string * option bson := (k, Some (BInt n)).
Definition bin (k : string) (b : bytes) : string * option bson := (k, Some (BBinary b)).
Definition BTime (t : time) : bson := BDate ((t - unixEpoch) / 1000000).
Definition date (k : string) (t : time) : string * option bson := (k, Some (BTime t)).
Definition str_ (k s : string) : string * option bson := (k, if s == "" then None else Some (BString s)).
Definition int_ (k : string) (n : Z) : string * option bson := (k, if n =? 0 then None else Some (BInt n)).
Definition bin_ (k : string) (b : bytes) : string * option bson := (k, if b == "" then None else Some (BBinary b)).
Definition date_ (k : string) (t : time) : string * option bson := (k, if IsZero t then None else Some (BTime t)).
Definition bool_ (k : string) (b : bool) : string * option bson := (k, if b then Some (BBool true) else None).
Definition strs_ (k : string) (l : list string) : string * option bson :=
  (k, match l with [] => None | _ => Some (BStrings l) end).

Definition make_doc (l : list (string * option bson)) : doc :=
  foldr (fun kv d => match kv.2 with Some v => <[kv.1 := v]> d | None => d end) ∅ l.

(** Decoding: a field that is missing or null is the zero value. *)
Definition get_str (d : doc) (k : string) : string := match d !! k with Some (BString s) => s | _ => "" end.
Definition get_int (d : doc) (k : string) : Z := match d !! k with Some (BInt n) => n | _ => 0 end.
Definition get_bin (d : doc) (k : string) : bytes := match d !! k with Some (BBinary b) => b | _ => "" end.
Definition get_date (d : doc) (k : string) : time :=
  match d !! k with Some (BDate ms) => unixEpoch + ms * 1000000 | _ => zero_time end.
Definition get_bool (d : doc) (k : string) : bool := match d !! k with Some (BBool b) => b | _ => false end.
Definition get_strs (d : doc) (k : string) : list string := match d !! k with Some (BStrings l) => l | _ => [] end.

Definition conversation_doc (c : Conversation.t) : doc :=
  let s := Conversation.MLS c in
  make_doc [str "kind" (Conversation.Kind c); str_ "title" (Conversation.Title c); str_ "avatarId" (Conversation.AvatarID c);
            str "createdBy" (Conversation.CreatedBy c); str_ "directKey" (Conversation.DirectKey c);
            date "createdAt" (Conversation.CreatedAt c); str_ "hubDomain" (Conversation.HubDomain c);
            str_ "mlsGroupId" (MLSGroupState.GroupID s); int_ "mlsEpoch" (MLSGroupState.Epoch s);
            strs_ "mlsPriorGroupIds" (MLSGroupState.PriorGroupIDs s); bin_ "mlsChainHash" (MLSGroupState.ChainHash s)].
Definition group_of_doc (d : doc) : MLSGroupState.t :=
  MLSGroupState.mk (get_str d "mlsGroupId") (get_int d "mlsEpoch") (get_strs d "mlsPriorGroupIds") (get_bin d "mlsChainHash").
Definition conversation_of (kd : string * doc) : Conversation.t :=
  let d := kd.2 in
  Conversation.mk kd.1 (get_str d "kind") (get_str d "title") (get_str d "avatarId") (get_str d "createdBy")
    (get_str d "directKey") (get_date d "createdAt") (get_str d "hubDomain") (group_of_doc d).

Definition member_doc (m : ConversationMember.t) : doc :=
  make_doc [str "conversationId" (ConversationMember.ConversationID m); str "userId" (ConversationMember.UserID m);
            str_ "domain" (ConversationMember.Domain m); str_ "displayName" (ConversationMember.DisplayName m);
            str_ "username" (ConversationMember.Username m); str "role" (ConversationMember.Role m);
            date "joinedAt" (ConversationMember.JoinedAt m); date_ "clearedAt" (ConversationMember.ClearedAt m);
            int_ "deliveredSeq" (ConversationMember.DeliveredSeq m); int_ "readSeq" (ConversationMember.ReadSeq m);
            int_ "joinSeq" (ConversationMember.JoinSeq m)].
Definition member_of (kd : string * doc) : ConversationMember.t :=
  let d := kd.2 in
  ConversationMember.mk kd.1 (get_str d "conversationId") (get_str d "userId") (get_str d "domain") (get_str d "displayName")
    (get_str d "username") (get_str d "role") (get_date d "joinedAt") (get_date d "clearedAt") (get_int d "deliveredSeq")
    (get_int d "readSeq") (get_int d "joinSeq").

Definition message_doc (msg : ChatMessage.t) : doc :=
  make_doc [str "conversationId" (ChatMessage.ConversationID msg); str "senderId" (ChatMessage.SenderID msg);
            bin "ciphertext" (ChatMessage.Ciphertext msg); str "contentType" (ChatMessage.ContentType msg);
            date "createdAt" (ChatMessage.CreatedAt msg); int_ "mlsEpoch" (ChatMessage.MLSEpoch msg);
            str_ "mlsGroupId" (ChatMessage.MLSGroupID msg); int_ "seq" (ChatMessage.Seq msg);
            bin_ "mlsChainHash" (ChatMessage.MLSChainHash msg)].
Definition message_of (kd : string * doc) : ChatMessage.t :=
  let d := kd.2 in
  ChatMessage.mk kd.1 (get_str d "conversationId") (get_str d "senderId") (get_bin d "ciphertext") (get_str d "contentType")
    (get_date d "createdAt") (get_int d "mlsEpoch") (get_str d "mlsGroupId") (get_int d "seq") (get_bin d "mlsChainHash").

Definition attachment_doc (a : Attachment.t) : doc :=
  make_doc [str "conversationId" (Attachment.ConversationID a); int "size" (Attachment.Size a);
            date "createdAt" (Attachment.CreatedAt a)].
Definition attachment_of (kd : string * doc) : Attachment.t :=
  Attachment.mk kd.1 (get_str kd.2 "conversationId") (get_int kd.2 "size") (get_date kd.2 "createdAt").

Definition package_doc (kp : MLSKeyPackage.t) : doc :=
  make_doc [str "userId" (MLSKeyPackage.UserID kp); str "deviceId" (MLSKeyPackage.DeviceID kp);
            bin "keyPackage" (MLSKeyPackage.KeyPackage kp); date "createdAt" (MLSKeyPackage.CreatedAt kp);
            bool_ "lastResort" (MLSKeyPackage.LastResort kp)].
Definition package_of (kd : string * doc) : MLSKeyPackage.t :=
  let d := kd.2 in
  MLSKeyPackage.mk kd.1 (get_str d "userId") (get_str d "deviceId") (get_bin d "keyPackage") (get_date d "createdAt")
    (get_bool d "lastResort").

Definition device_of (kd : string * doc) : MLSDevice.t :=
  let d := kd.2 in
  MLSDevice.mk kd.1 (get_str d "userId") (get_str d "deviceId") (get_str d "label") (get_str d "sessionId")
    (get_date d "createdAt") (get_date d "lastSeenAt")
    (match d !! "revokedAt" with Some (BDate _) => Some (get_date d "revokedAt") | _ => None end).

Definition backup_doc (b : MLSKeyBackup.t) : doc :=
  make_doc [str "userId" (MLSKeyBackup.UserID b); str "deviceId" (MLSKeyBackup.DeviceID b); bin "salt" (MLSKeyBackup.Salt b);
            bin "nonce" (MLSKeyBackup.Nonce b); str "ciphertextBlobId" (MLSKeyBackup.CiphertextBlobID b);
            bin_ "transcriptSalt" (MLSKeyBackup.TranscriptSalt b); bin_ "transcriptNonce" (MLSKeyBackup.TranscriptNonce b);
            str_ "transcriptBlobId" (MLSKeyBackup.TranscriptBlobID b);
            int_ "transcriptMessages" (MLSKeyBackup.TranscriptMessages b); date "updatedAt" (MLSKeyBackup.UpdatedAt b)].
Definition backup_of (kd : string * doc) : MLSKeyBackup.t :=
  let d := kd.2 in
  MLSKeyBackup.mk kd.1 (get_str d "userId") (get_str d "deviceId") (get_bin d "salt") (get_bin d "nonce")
    (get_str d "ciphertextBlobId") (get_bin d "transcriptSalt") (get_bin d "transcriptNonce") (get_str d "transcriptBlobId")
    (get_int d "transcriptMessages") (get_date d "updatedAt").

(** [$set] of a whole entry, whose [ID] has been cleared. *)
Definition tail_set (e : MLSKeyBackupTailEntry.t) : list update :=
  [USet "userId" (BString (MLSKeyBackupTailEntry.UserID e)); USet "deviceId" (BString (MLSKeyBackupTailEntry.DeviceID e));
   USet "conversationId" (BString (MLSKeyBackupTailEntry.ConversationID e));
   USet "messageId" (BString (MLSKeyBackupTailEntry.MessageID e)); USet "salt" (BBinary (MLSKeyBackupTailEntry.Salt e));
   USet "nonce" (BBinary (MLSKeyBackupTailEntry.Nonce e)); USet "ciphertext" (BBinary (MLSKeyBackupTailEntry.Ciphertext e));
   USet "createdAt" (BTime (MLSKeyBackupTailEntry.CreatedAt e))].
Definition tail_of_doc (kd : string * doc) : MLSKeyBackupTailEntry.t :=
  let d := kd.2 in
  MLSKeyBackupTailEntry.mk kd.1 (get_str d "userId") (get_str d "deviceId") (get_str d "conversationId") (get_str d "messageId")
    (get_bin d "salt") (get_bin d "nonce") (get_bin d "ciphertext") (get_date d "createdAt").

(** ** Calls *)

(** What a command meets: whether the server can be reached, what [mongoID] draws,
    the clock. *)
Module MongoEnv.
Record t := mk { backend : fault; fresh : string; clock : time }.
End MongoEnv.

(** A command, under what it meets. *)
Definition sends {MD : Mongo unique_indexes} {A} (c : command A) (w : mdb (Mongo := MD)) (env : MongoEnv.t)
  : mdb (Mongo := MD) * result (failure mongo_err) A :=
  let '(w', r) := execute w c in
  match MongoEnv.backend env with
  | Works => (w', lift r)
  | NotDone => (w, Err Unavailable)
  | AnswerLost => (w', Err Unavailable)
  end.

Abbreviation answer X := (result (failure store_err) X).
Definition mapErr (e : failure mongo_err) : failure store_err :=
  match e with Known ErrNoDocuments => Known ErrNotFound | _ => Unavailable end.
Definition IsDuplicateKeyError (e : failure mongo_err) : bool :=
  match e with Known ErrDuplicateKey => true | _ => false end.
(** The answer of a command, [f] of what it found. *)
Definition mapped {X Y} (f : X → Y) (r : result (failure mongo_err) X) : answer Y :=
  match r with Ok x => Ok (f x) | Err e => Err (mapErr e) end.
(** [ErrNotFound] when nothing matched. *)
Definition some_matched (r : result (failure mongo_err) Z) : answer unit :=
  match r with Err e => Err (mapErr e) | Ok n => if n =? 0 then Err (Known ErrNotFound) else Ok tt end.

Definition mongoID {W R} (k : string → prog W MongoEnv.t R) : prog W MongoEnv.t R := Act (fun w env => (w, MongoEnv.fresh env)) k.
(** An id is drawn for what has none. *)
Definition with_id {W R} (id : string) (k : string → prog W MongoEnv.t R) : prog W MongoEnv.t R :=
  if id == "" then mongoID k else k id.
Definition time_now {W R} (k : time → prog W MongoEnv.t R) : prog W MongoEnv.t R := Act (fun w env => (w, MongoEnv.clock env)) k.

Section Calls.
Context {MD : Mongo unique_indexes} {R : Type}.
Abbreviation handler := (prog (mdb (Mongo := MD)) MongoEnv.t R).

Definition mongo {A} (c : command A) (k : result (failure mongo_err) A → handler) : handler := Act (sends c) k.

(** ** Conversations *)

(** The rows of the members, each with its floor. *)
Fixpoint member_rows (conversationID : string) (members : list ConversationMember.t) (docs : list (string * doc))
  (k : list (string * doc) → handler) : handler :=
  match members with
  | [] => k docs
  | mem :: members =>
      do! id := with_id (ConversationMember.ID mem) in
      let mem := withReceiptFloor (mem <| ConversationMember.ID := id |> <| ConversationMember.ConversationID := conversationID |>) in
      member_rows conversationID members (docs ++ [(id, member_doc mem)]) k
  end.

Definition CreateConversation (c : Conversation.t) (members : list ConversationMember.t) (k : answer Conversation.t → handler)
  : handler :=
  do! id := with_id (Conversation.ID c) in
  let c := c <| Conversation.ID := id |> in
  do! r := mongo (InsertOne "conversations" id (conversation_doc c)) in
  match r with
  | Err e => k (Err (if IsDuplicateKeyError e then Known ErrAliasTaken else mapErr e))
  | Ok _ =>
      do! docs := member_rows id members [] in
      match docs with
      | [] => k (Ok c)
      | _ =>
          do! r := mongo (InsertMany "conversationMembers" true docs) in
          k (match r with Err e => Err (mapErr e) | Ok _ => Ok c end)
      end
  end.

Definition ConversationByID (id : string) (k : answer Conversation.t → handler) : handler :=
  do! r := mongo (FindOne "conversations" (equals [("_id", BString id)])) in k (mapped conversation_of r).

Definition ConversationByDirectKey (directKey : string) (k : answer Conversation.t → handler) : handler :=
  if directKey == "" then k (Err (Known ErrNotFound))
  else do! r := mongo (FindOne "conversations" (equals [("directKey", BString directKey)])) in k (mapped conversation_of r).

Definition members_of (q : query) (ks : sort_keys) (k : answer (list ConversationMember.t) → handler) : handler :=
  do! r := mongo (Find "conversationMembers" q ks 0 None) in k (mapped (fmap member_of) r).

Definition LastChatMessagesByConversations (conversationIDs : list string)
  (k : answer (gmap string ChatMessage.t) → handler) : handler :=
  match conversationIDs with
  | [] => k (Ok ∅)
  | _ =>
      do! r := mongo (GroupFirst "chatMessages"
        (And (Where "conversationId" (CIn conversationIDs)) (Where "contentType" (CNin MLSProtocolContentTypes)))
        [("conversationId", true); ("createdAt", false)] "conversationId") in
      k (mapped (foldl (fun out kd => <[ChatMessage.ConversationID (message_of kd) := message_of kd]> out) ∅) r)
  end.

(** Newest activity first; a stable sort. *)
Definition activity (last : gmap string ChatMessage.t) (c : Conversation.t) : Z :=
  match last !! Conversation.ID c with
  | Some msg => UnixNano (ChatMessage.CreatedAt msg)
  | None => UnixNano (Conversation.CreatedAt c)
  end.
Definition sortConversationsByActivity (convs : list Conversation.t) (last : gmap string ChatMessage.t) : list Conversation.t :=
  sort_slice (fun x y => activity last y <? activity last x) convs.

Definition ConversationsForUser (userID : string) (k : answer (list Conversation.t) → handler) : handler :=
  do! r := members_of (equals [("userId", BString userID)]) [] in
  match r with
  | Err e => k (Err e)
  | Ok [] => k (Ok [])
  | Ok memberships =>
      let ids := ConversationMember.ConversationID <$> memberships in
      do! r := mongo (Find "conversations" (Where "_id" (CIn ids)) [] 0 None) in
      match r with
      | Err e => k (Err (mapErr e))
      | Ok out =>
          do! r := LastChatMessagesByConversations ids in
          k (match r with Err e => Err e | Ok last => Ok (sortConversationsByActivity (conversation_of <$> out) last) end)
      end
  end.

Definition ConversationMembers (conversationID : string) (k : answer (list ConversationMember.t) → handler) : handler :=
  members_of (equals [("conversationId", BString conversationID)]) [("joinedAt", true)] k.

Definition of_member (conversationID userID : string) : query :=
  equals [("conversationId", BString conversationID); ("userId", BString userID)].

Definition ConversationMembership (conversationID userID : string) (k : answer ConversationMember.t → handler) : handler :=
  do! r := mongo (FindOne "conversationMembers" (of_member conversationID userID)) in k (mapped member_of r).

Definition AddConversationMember (mem : ConversationMember.t) (k : answer ConversationMember.t → handler) : handler :=
  let cid := ConversationMember.ConversationID mem in
  do! r := ConversationMembership cid (ConversationMember.UserID mem) in
  match r with
  | Ok existing => k (Ok existing)
  | Err _ =>
      do! id := with_id (ConversationMember.ID mem) in
      let mem := mem <| ConversationMember.ID := id |> in
      let insert mem :=
        let mem := withReceiptFloor mem in
        do! r := mongo (InsertOne "conversationMembers" id (member_doc mem)) in
        match r with
        | Err e => if IsDuplicateKeyError e then ConversationMembership cid (ConversationMember.UserID mem) k else k (Err (mapErr e))
        | Ok _ => k (Ok mem)
        end in
      if ConversationMember.JoinSeq mem =? 0 then
        do! r := mongo (FindOne "conversations" (equals [("_id", BString cid)])) in
        insert (match r with Ok kd => mem <| ConversationMember.JoinSeq := get_int kd.2 "msgSeq" |> | Err _ => mem end)
      else insert mem
  end.

Definition RemoveConversationMember (conversationID userID : string) (k : answer unit → handler) : handler :=
  do! r := mongo (DeleteOne "conversationMembers" (of_member conversationID userID)) in k (some_matched r).

(** [UpdateOne] of a member's row. *)
Definition set_member (conversationID userID : string) (us : list update) (k : answer unit → handler) : handler :=
  do! r := mongo (UpdateOne "conversationMembers" (of_member conversationID userID) us false) in k (some_matched r).
Definition SetConversationMemberRole (conversationID userID role : string) (k : answer unit → handler) : handler :=
  set_member conversationID userID [USet "role" (BString role)] k.
Definition ClearConversationHistory (conversationID userID : string) (before : time) (k : answer unit → handler) : handler :=
  set_member conversationID userID [USet "clearedAt" (BTime before)] k.

Definition DeleteConversation (conversationID : string) (k : answer unit → handler) : handler :=
  do! r := mongo (DeleteMany "chatMessages" (equals [("conversationId", BString conversationID)])) in
  match r with
  | Err e => k (Err (mapErr e))
  | Ok _ =>
      do! r := mongo (DeleteMany "conversationMembers" (equals [("conversationId", BString conversationID)])) in
      match r with
      | Err e => k (Err (mapErr e))
      | Ok _ => do! r := mongo (DeleteOne "conversations" (equals [("_id", BString conversationID)])) in k (mapped (fun _ => tt) r)
      end
  end.

(** The counter in the conversation gives the sequence number; without a
    conversation it stays 0. *)
Definition AppendChatMessage (msg : ChatMessage.t) (k : answer ChatMessage.t → handler) : handler :=
  do! id := with_id (ChatMessage.ID msg) in
  let msg := msg <| ChatMessage.ID := id |> in
  let insert msg :=
    do! r := mongo (InsertOne "chatMessages" id (message_doc msg)) in
    k (match r with Err e => Err (mapErr e) | Ok _ => Ok msg end) in
  if ChatMessage.Seq msg =? 0 then
    do! r := mongo (FindOneAndUpdate "conversations" (equals [("_id", BString (ChatMessage.ConversationID msg))]) [UInc "msgSeq" 1]) in
    match r with
    | Ok kd => insert (msg <| ChatMessage.Seq := get_int kd.2 "msgSeq" |>)
    | Err e =>
        match mapErr e with
        | Known ErrNotFound => insert (msg <| ChatMessage.Seq := 0 |>)
        | e => k (Err e)
        end
    end
  else insert msg.

Definition advanced (deliveredSeq readSeq : Z) : list update :=
  (if 0 <? deliveredSeq then [UMax "deliveredSeq" (BInt deliveredSeq)] else [])
  ++ (if 0 <? readSeq then [UMax "readSeq" (BInt readSeq)] else []).

Definition SetConversationReceipt (conversationID userID : string) (deliveredSeq readSeq : Z)
  (k : answer ConversationReceipt.t → handler) : handler :=
  let read :=
    do! r := mongo (FindOne "conversationMembers" (of_member conversationID userID)) in
    k (mapped (fun kd => ConversationReceipt.mk userID (get_int kd.2 "deliveredSeq") (get_int kd.2 "readSeq")) r) in
  match advanced deliveredSeq readSeq with
  | [] => read
  | us =>
      do! r := set_member conversationID userID us in
      match r with Err e => k (Err e) | Ok _ => read end
  end.

(** Strictly before the anchor, in the order of the sort. *)
Definition before_anchor (anchor : ChatMessage.t) : query :=
  let at_ := BTime (ChatMessage.CreatedAt anchor) in
  Or (Where "createdAt" (CLt at_)) (And (Where "createdAt" (CEq at_)) (Where "seq" (CLt (BInt (ChatMessage.Seq anchor))))).

Definition ChatMessagesByConversation (conversationID cursor : string) (limit : Z) (after : time)
  (k : answer (list ChatMessage.t) → handler) : handler :=
  let base := And (Where "conversationId" (CEq (BString conversationID))) (Where "contentType" (CNin MLSProtocolContentTypes)) in
  let base := if IsZero after then base else And base (Where "createdAt" (CGt (BTime after))) in
  let page q :=
    do! r := mongo (Find "chatMessages" q [("createdAt", false); ("seq", false)] 0
                      (if 0 <? limit then Some (Z.to_nat limit) else None)) in
    k (mapped (fmap message_of) r) in
  if cursor == "" then page base
  else
    do! r := mongo (FindOne "chatMessages" (equals [("_id", BString cursor)])) in
    page (match r with Ok kd => And base (before_anchor (message_of kd)) | Err _ => base end).

Definition CreateAttachment (a : Attachment.t) (k : answer unit → handler) : handler :=
  do! now := (fun k => if IsZero (Attachment.CreatedAt a) then time_now k else k (Attachment.CreatedAt a)) in
  do! r := mongo (InsertOne "attachments" (Attachment.ID a) (attachment_doc (a <| Attachment.CreatedAt := now |>))) in k (mapped id r).
Definition GetAttachment (id : string) (k : answer Attachment.t → handler) : handler :=
  do! r := mongo (FindOne "attachments" (equals [("_id", BString id)])) in k (mapped attachment_of r).
Definition ListAttachmentIDs (conversationID : string) (k : answer (list string) → handler) : handler :=
  do! r := mongo (Find "attachments" (equals [("conversationId", BString conversationID)]) [] 0 None) in k (mapped (fmap fst) r).
Definition DeleteAttachments (conversationID : string) (k : answer unit → handler) : handler :=
  do! r := mongo (DeleteMany "attachments" (equals [("conversationId", BString conversationID)])) in k (mapped (fun _ => tt) r).

(** ** KeyPackages *)

Fixpoint package_rows (packages : list MLSKeyPackage.t) (docs : list (string * doc)) (k : list (string * doc) → handler) : handler :=
  match packages with
  | [] => k docs
  | kp :: packages => do! id := with_id (MLSKeyPackage.ID kp) in package_rows packages (docs ++ [(id, package_doc kp)]) k
  end.
Definition AddKeyPackages (packages : list MLSKeyPackage.t) (k : answer unit → handler) : handler :=
  match packages with
  | [] => k (Ok tt)
  | _ =>
      do! docs := package_rows packages [] in
      do! r := mongo (InsertMany "mlsKeyPackages" false docs) in
      k (match r with Err e => if IsDuplicateKeyError e then Ok tt else Err (mapErr e) | Ok _ => Ok tt end)
  end.

Definition of_device (userID deviceID : string) : query := equals [("userId", BString userID); ("deviceId", BString deviceID)].
Definition last_resort : query := Where "lastResort" (CEq (BBool true)).
Definition single_use : query := Where "lastResort" (CNe (BBool true)).

Definition DeleteKeyPackages (userID deviceID : string) (k : answer unit → handler) : handler :=
  do! r := mongo (DeleteMany "mlsKeyPackages" (of_device userID deviceID)) in k (mapped (fun _ => tt) r).
Definition HasLastResortKeyPackage (userID deviceID : string) (k : answer bool → handler) : handler :=
  do! r := mongo (CountDocuments "mlsKeyPackages" (And (of_device userID deviceID) last_resort)) in
  k (mapped (fun n => 0 <? n) r).
Definition CountKeyPackages (userID deviceID : string) (k : answer Z → handler) : handler :=
  do! r := mongo (CountDocuments "mlsKeyPackages" (And (of_device userID deviceID) single_use)) in k (mapped id r).

Definition ClaimKeyPackage (userID deviceID : string) (k : answer MLSKeyPackage.t → handler) : handler :=
  do! r := mongo (FindOneAndDelete "mlsKeyPackages" (And (of_device userID deviceID) single_use)) in
  match mapped package_of r with
  | Err (Known ErrNotFound) =>
      do! r := mongo (FindOne "mlsKeyPackages" (And (of_device userID deviceID) last_resort)) in k (mapped package_of r)
  | r => k r
  end.

(** A row of [$group]: the user, the device. *)
Definition see_device (out : gmap string (list string)) (row : list (option bson)) : gmap string (list string) :=
  match row with
  | [Some (BString user); Some (BString device)] =>
      if device == "" then out else <[user := default [] (out !! user) ++ [device]]> out
  | _ => out
  end.
Definition DevicesWithKeyPackages (userIDs : list string) (k : answer (gmap string (list string)) → handler) : handler :=
  match userIDs with
  | [] => k (Ok ∅)
  | _ =>
      do! r := mongo (GroupKeys "mlsKeyPackages" (Where "userId" (CIn userIDs)) ["userId"; "deviceId"]) in
      k (mapped (fun rows => sort_slice str_lt <$> foldl see_device ∅ rows) r)
  end.

(** ** MLS groups *)

Definition MLSControlMessagesSince (conversationID groupID : string) (sinceEpoch : Z)
  (k : answer (list ChatMessage.t) → handler) : handler :=
  let q := And (Where "conversationId" (CEq (BString conversationID))) (Where "mlsEpoch" (CGt (BInt sinceEpoch))) in
  let q := if groupID == "" then q
           else And q (Or (Where "mlsGroupId" (CEq (BString groupID)))
                          (Or (Where "mlsGroupId" (CExists false)) (Where "mlsGroupId" (CEq (BString ""))))) in
  do! r := mongo (Find "chatMessages" q [("mlsEpoch", true); ("contentType", false); ("createdAt", true)] 0 None) in
  k (mapped (fmap message_of) r).

Definition MLSGroupState_ (conversationID : string) (k : answer MLSGroupState.t → handler) : handler :=
  do! r := ConversationByID conversationID in k (match r with Ok c => Ok (Conversation.MLS c) | Err e => Err e end).

Definition SetMLSGroupInfo (conversationID groupID : string) (epoch : Z) (groupInfo : bytes) (k : answer unit → handler) : handler :=
  do! r := MLSGroupState_ conversationID in
  match r with
  | Err e => k (Err e)
  | Ok state =>
      if MLSGroupState.GroupID state != groupID then k (Ok tt)
      else
        do! r := mongo (FindOne "mlsGroupInfo" (equals [("_id", BString conversationID)])) in
        let newer := match r with Ok kd => (get_str kd.2 "groupId" == groupID) && (epoch <=? get_int kd.2 "epoch") | Err _ => false end in
        if newer then k (Ok tt)
        else
          do! r := mongo (UpdateOne "mlsGroupInfo" (equals [("_id", BString conversationID)])
                            [USet "groupId" (BString groupID); USet "epoch" (BInt epoch); USet "groupInfo" (BBinary groupInfo)] true) in
          k (mapped (fun _ => tt) r)
  end.

(** A state that cannot be read does not make the information stale. *)
Definition MLSGroupInfo_ (conversationID : string) (k : answer MLSGroupInfo.t → handler) : handler :=
  do! r := mongo (FindOne "mlsGroupInfo" (equals [("_id", BString conversationID)])) in
  match r with
  | Err _ => k (Err (Known ErrNotFound))
  | Ok kd =>
      let info := MLSGroupInfo.mk (get_str kd.2 "groupId") (get_int kd.2 "epoch") (get_bin kd.2 "groupInfo") in
      if slen (MLSGroupInfo.GroupInfo info) =? 0 then k (Err (Known ErrNotFound))
      else
        do! r := MLSGroupState_ conversationID in
        k (match r with
           | Ok state =>
               if (MLSGroupState.GroupID state != MLSGroupInfo.GroupID info) || (MLSGroupInfo.Epoch info <? MLSGroupState.Epoch state)
               then Err (Known ErrNotFound) else Ok info
           | Err _ => Ok info
           end)
  end.

(** The state the caller commits against. *)
Definition commit_filter (conversationID groupID : string) (baseEpoch : Z) : query :=
  And (Where "_id" (CEq (BString conversationID)))
      (if baseEpoch =? 0 then Or (Where "mlsGroupId" (CExists false)) (Where "mlsGroupId" (CEq (BString "")))
       else And (Where "mlsGroupId" (CEq (BString groupID))) (Where "mlsEpoch" (CEq (BInt baseEpoch)))).
Definition set_group (groupID : string) (epoch : Z) (chainHash : bson) : list update :=
  [USet "mlsGroupId" (BString groupID); USet "mlsEpoch" (BInt epoch); USet "mlsChainHash" chainHash].

(** Best effort. *)
Definition rollbackMLSGroup (conversationID groupID : string) (baseEpoch : Z) (prevHash : bytes) (k : handler) : handler :=
  let restore := if baseEpoch =? 0 then set_group "" 0 BNull else set_group groupID baseEpoch (BBinary prevHash) in
  do! _ := mongo (UpdateOne "conversations"
    (equals [("_id", BString conversationID); ("mlsGroupId", BString groupID); ("mlsEpoch", BInt (wrap64 (baseEpoch + 1)))])
    restore false) in
  k.

Fixpoint appendChatMessages (msgs stored : list ChatMessage.t) (k : answer (list ChatMessage.t) → handler) : handler :=
  match msgs with
  | [] => k (Ok stored)
  | msg :: msgs =>
      do! r := AppendChatMessage msg in
      match r with Err e => k (Err e) | Ok saved => appendChatMessages msgs (stored ++ [saved]) k end
  end.

(** What the commit answers: the state, what was stored, and the error. *)
Record mongo_commit := mk_answer {
  mc_state : MLSGroupState.t; mc_stored : list ChatMessage.t; mc_err : option (failure store_err)
}.
Definition no_commit (e : failure store_err) : mongo_commit := mk_answer MLSGroupState.zero [] (Some e).

(** The head of the chain; a read that fails counts as none. *)
Definition read_head (conversationID : string) (baseEpoch : Z) (k : bytes → handler) : handler :=
  if baseEpoch =? 0 then k ""
  else do! r := MLSGroupState_ conversationID in k (match r with Ok s => MLSGroupState.ChainHash s | Err _ => "" end).

Definition CommitMLSGroup (conversationID groupID : string) (baseEpoch : Z) (msgs : list ChatMessage.t)
  (k : mongo_commit → handler) : handler :=
  do! prevHash := read_head conversationID baseEpoch in
  let epoch := wrap64 (baseEpoch + 1) in
  let newHash := Link prevHash epoch groupID (commitCiphertext msgs) in
  let msgs := stampChainHash msgs newHash in
  do! r := mongo (FindOneAndUpdate "conversations" (commit_filter conversationID groupID baseEpoch)
                    (set_group groupID epoch (BBinary newHash))) in
  match r with
  | Err e =>
      match mapErr e with
      | Known ErrNotFound =>
          do! r := MLSGroupState_ conversationID in
          k (match r with Err e => no_commit e | Ok current => mk_answer current [] (Some (Known ErrEpochConflict)) end)
      | e => k (no_commit e)
      end
  | Ok updated =>
      do! r := appendChatMessages msgs [] in
      match r with
      | Err e => rollbackMLSGroup conversationID groupID baseEpoch prevHash (k (no_commit e))
      | Ok stored => k (mk_answer (group_of_doc updated.2) stored None)
      end
  end.

Definition ResetMLSGroup (conversationID : string) (k : answer MLSGroupState.t → handler) : handler :=
  do! r := MLSGroupState_ conversationID in
  match r with
  | Err e => k (Err e)
  | Ok current =>
      let groupID := MLSGroupState.GroupID current in
      if groupID == "" then k (Ok current)
      else
        do! r := mongo (FindOneAndUpdate "conversations"
          (equals [("_id", BString conversationID); ("mlsGroupId", BString groupID)])
          [USet "mlsGroupId" (BString ""); USet "mlsEpoch" (BInt 0); UPushFront "mlsPriorGroupIds" groupID maxPriorGroups]) in
        match mapped (fun kd => group_of_doc kd.2) r with
        | Err (Known ErrNotFound) => MLSGroupState_ conversationID k
        | r => k r
        end
  end.

Definition MLSHistoryOffers (conversationID : string) (limit : Z) (k : answer (list ChatMessage.t) → handler) : handler :=
  let limit := if (limit <=? 0) || (50 <? limit) then 20 else limit in
  do! r := mongo (Find "chatMessages"
    (equals [("conversationId", BString conversationID); ("contentType", BString ContentTypeMLSHistoryOffer)])
    [("createdAt", false)] 0 (Some (Z.to_nat limit))) in
  k (mapped (fmap message_of) r).

(** ** Key backups *)

Definition of_user (userID : string) : query := equals [("userId", BString userID)].

Definition PutKeyBackup (b : MLSKeyBackup.t) (k : answer unit → handler) : handler :=
  do! id := mongoID in
  do! r := mongo (UpdateOne "mlsKeyBackups" (of_user (MLSKeyBackup.UserID b))
    [USet "deviceId" (BString (MLSKeyBackup.DeviceID b)); USet "salt" (BBinary (MLSKeyBackup.Salt b));
     USet "nonce" (BBinary (MLSKeyBackup.Nonce b)); USet "ciphertextBlobId" (BString (MLSKeyBackup.CiphertextBlobID b));
     USet "transcriptSalt" (BBinary (MLSKeyBackup.TranscriptSalt b)); USet "transcriptNonce" (BBinary (MLSKeyBackup.TranscriptNonce b));
     USet "transcriptBlobId" (BString (MLSKeyBackup.TranscriptBlobID b));
     USet "transcriptMessages" (BInt (MLSKeyBackup.TranscriptMessages b)); USet "updatedAt" (BTime (MLSKeyBackup.UpdatedAt b));
     USetOnInsert "_id" (BString id); USetOnInsert "userId" (BString (MLSKeyBackup.UserID b))] true) in
  k (mapped (fun _ => tt) r).
Definition GetKeyBackup (userID : string) (k : answer MLSKeyBackup.t → handler) : handler :=
  do! r := mongo (FindOne "mlsKeyBackups" (of_user userID)) in k (mapped backup_of r).

Definition newest_versions : sort_keys := [("updatedAt", false)].
(** What has been read is returned beside the error of a deletion. *)
Fixpoint delete_versions (pruned all : list MLSKeyBackup.t) (k : list MLSKeyBackup.t * option (failure store_err) → handler)
  : handler :=
  match pruned with
  | [] => k (all, None)
  | v :: pruned =>
      do! r := mongo (DeleteOne "mlsKeyBackupVersions" (equals [("_id", BString (MLSKeyBackup.ID v))])) in
      match r with Err e => k (all, Some (mapErr e)) | Ok _ => delete_versions pruned all k end
  end.
Definition ArchiveKeyBackup (b : MLSKeyBackup.t) (keep : Z) (k : list MLSKeyBackup.t * option (failure store_err) → handler)
  : handler :=
  do! id := mongoID in
  do! r := mongo (InsertOne "mlsKeyBackupVersions" id (backup_doc b)) in
  match r with
  | Err e => k ([], Some (mapErr e))
  | Ok _ =>
      if keep <? 0 then k ([], None)
      else
        do! r := mongo (Find "mlsKeyBackupVersions" (of_user (MLSKeyBackup.UserID b)) newest_versions (Z.to_nat keep) None) in
        match r with
        | Err e => k ([], Some (mapErr e))
        | Ok l => let pruned := backup_of <$> l in delete_versions pruned pruned k
        end
  end.
Definition ListKeyBackupVersions (userID : string) (k : answer (list MLSKeyBackup.t) → handler) : handler :=
  do! r := mongo (Find "mlsKeyBackupVersions" (of_user userID) newest_versions 0 None) in k (mapped (fmap backup_of) r).
Definition KeyBackupVersion (userID versionID : string) (k : answer MLSKeyBackup.t → handler) : handler :=
  do! r := mongo (FindOne "mlsKeyBackupVersions" (equals [("_id", BString versionID); ("userId", BString userID)])) in
  k (mapped backup_of r).

Definition tail_key (e : MLSKeyBackupTailEntry.t) : query :=
  equals [("userId", BString (MLSKeyBackupTailEntry.UserID e)); ("conversationId", BString (MLSKeyBackupTailEntry.ConversationID e));
          ("messageId", BString (MLSKeyBackupTailEntry.MessageID e))].
Definition AppendKeyBackupTail (entries : list MLSKeyBackupTailEntry.t) (k : answer unit → handler) : handler :=
  match entries with
  | [] => k (Ok tt)
  | _ => do! r := mongo (BulkWrite "mlsKeyBackupTail" ((fun e => (tail_key e, tail_set e)) <$> entries)) in k (mapped id r)
  end.
Definition ListKeyBackupTail (userID : string) (k : answer (list MLSKeyBackupTailEntry.t) → handler) : handler :=
  do! r := mongo (Find "mlsKeyBackupTail" (of_user userID) [("createdAt", true)] 0 None) in k (mapped (fmap tail_of_doc) r).
Definition TruncateKeyBackupTail (userID : string) (before : time) (k : answer Z → handler) : handler :=
  do! r := mongo (DeleteMany "mlsKeyBackupTail" (And (of_user userID) (Where "createdAt" (CLt (BTime before))))) in k (mapped id r).
Definition CountKeyBackupTail (userID : string) (k : answer Z → handler) : handler :=
  do! r := mongo (CountDocuments "mlsKeyBackupTail" (of_user userID)) in k (mapped id r).

(** ** Devices *)

Definition upsertDeviceSet (d : MLSDevice.t) : list update :=
  [USet "label" (BString (MLSDevice.Label d)); USet "lastSeenAt" (BTime (MLSDevice.LastSeenAt d))]
  ++ (if MLSDevice.SessionID d == "" then [] else [USet "sessionId" (BString (MLSDevice.SessionID d))]).
Definition UpsertMLSDevice (d : MLSDevice.t) (k : answer unit → handler) : handler :=
  do! id := mongoID in
  do! r := mongo (UpdateOne "mlsDevices" (of_device (MLSDevice.UserID d) (MLSDevice.DeviceID d))
    (upsertDeviceSet d ++
     [USetOnInsert "_id" (BString id); USetOnInsert "userId" (BString (MLSDevice.UserID d));
      USetOnInsert "deviceId" (BString (MLSDevice.DeviceID d)); USetOnInsert "createdAt" (BTime (MLSDevice.CreatedAt d))]) true) in
  k (mapped (fun _ => tt) r).
Definition ListMLSDevices (userID : string) (k : answer (list MLSDevice.t) → handler) : handler :=
  do! r := mongo (Find "mlsDevices" (of_user userID) [("lastSeenAt", false)] 0 None) in k (mapped (fmap device_of) r).
Definition DeleteMLSDevice (userID deviceID : string) (k : answer unit → handler) : handler :=
  do! r := mongo (DeleteOne "mlsDevices" (of_device userID deviceID)) in k (mapped (fun _ => tt) r).
(** A blank id would name the rows of the whole account. *)
Definition DeletePushDevicesForMLSDevice (userID mlsDeviceID : string) (k : answer Z → handler) : handler :=
  if mlsDeviceID == "" then k (Ok 0)
  else do! r := mongo (DeleteMany "devices" (equals [("userId", BString userID); ("mlsDeviceId", BString mlsDeviceID)])) in
       k (mapped id r).
Definition RevokeMLSDevice (userID deviceID : string) (at_ : time) (k : answer unit → handler) : handler :=
  do! r := mongo (UpdateOne "mlsDevices" (of_device userID deviceID) [USet "revokedAt" (BTime at_)] false) in k (some_matched r).
Definition RevokedDeviceIDs (userIDs : list string) (k : answer (gmap string (list string)) → handler) : handler :=
  match userIDs with
  | [] => k (Ok ∅)
  | _ =>
      do! r := mongo (Find "mlsDevices" (And (Where "userId" (CIn userIDs)) (Where "revokedAt" (CExists true))) [] 0 None) in
      k (mapped (foldl (fun out kd => let d := device_of kd in
           <[MLSDevice.UserID d := default [] (out !! MLSDevice.UserID d) ++ [MLSDevice.DeviceID d]]> out) ∅) r)
  end.
Definition DeleteDevice (deviceID : string) (k : answer unit → handler) : handler :=
  do! r := mongo (DeleteOne "devices" (equals [("_id", BString deviceID)])) in k (mapped (fun _ => tt) r).

(** ** Revocations *)

Definition RevokeUserTokensBefore (userID : string) (cutoff expiresAt : time) (k : answer unit → handler) : handler :=
  do! r := mongo (UpdateOne "revokedUsers" (of_user userID)
                    [USet "cutoff" (BTime cutoff); USet "expiresAt" (BTime expiresAt)] true) in k (mapped (fun _ => tt) r).
Definition ActiveUserRevocations (now : time) (k : answer (gmap string time) → handler) : handler :=
  do! r := mongo (Find "revokedUsers" (Where "expiresAt" (CGt (BTime now))) [] 0 None) in
  k (mapped (foldl (fun out kd => <[get_str kd.2 "userId" := get_date kd.2 "cutoff"]> out) ∅) r).
Definition RevokeSession (sessionID : string) (expiresAt : time) (k : answer unit → handler) : handler :=
  do! id := mongoID in
  do! r := mongo (UpdateOne "revokedSessions" (equals [("sessionId", BString sessionID)])
    [USet "sessionId" (BString sessionID); USet "expiresAt" (BTime expiresAt); USetOnInsert "_id" (BString id)] true) in
  k (mapped (fun _ => tt) r).
Definition ActiveRevokedSessions (now : time) (k : answer (list string) → handler) : handler :=
  do! r := mongo (Find "revokedSessions" (Where "expiresAt" (CGt (BTime now))) [] 0 None) in
  k (mapped (fmap (fun kd => get_str kd.2 "sessionId")) r).
End Calls.
