(* ===== verification/MongoRace.v ===== *)
(** * Commits that race over MongoDB

    Any number of commits and resets of the MLS group of a conversation, each between
    the commands of the others, of whatever else the database is used for, and of a
    server that fails them before or after it has run them: of the commits that name
    the same group and epoch at most one is accepted. *)

From S2P Require Import Prelude.
From S2P Require Import GoStrings.
From S2P Require Import Domain.
From S2P Require Import Threads.
From S2P Require Import MlsChain.
From S2P Require Import StoreState.
From S2P Require Import StoreMls.
From S2P Require Import Bson.
From S2P Require Import MongoStore.

(** ** Lemmas: what a command leaves of a document *)

Section Commands.
Context {MD : Mongo unique_indexes}.
Implicit Types (w : mdb (Mongo := MD)) (d : doc) (q : query) (us : list update).

Lemma execute_spec {A} w (c : command A) :
  permits (unique_indexes (collection_of c)) (coll (contents w) (collection_of c)) c
    (coll (contents (execute w c).1) (collection_of c)) (execute w c).2 ∧
  (∀ other, other ≠ collection_of c → coll (contents (execute w c).1) other = coll (contents w) other).
Proof. pose proof (executes w c) as H. by destruct (execute w c). Qed.

(** One document of the database. *)
Definition at_ w (c id : string) : option doc := coll (contents w) c !! id.

(** A command that only looks. *)
Definition looks {A} (c : command A) : bool :=
  match c with
  | FindOne _ _ | Find _ _ _ _ _ | CountDocuments _ _ | GroupFirst _ _ _ _ | GroupKeys _ _ _ => true
  | _ => false
  end.
Lemma at_looks {A} w (c : command A) name id : looks c = true → at_ (execute w c).1 name id = at_ w name id.
Proof.
  intros Hc. destruct (execute_spec w c) as [Hp Ho]. unfold at_. destruct (decide (name = collection_of c)) as [->|Hne]; [|by rewrite Ho].
  destruct c; try done; cbn [permits collection_of] in *; destruct Hp as [Hs _]; by rewrite Hs.
Qed.
Lemma at_other {A} w (c : command A) name id : collection_of c ≠ name → at_ (execute w c).1 name id = at_ w name id.
Proof. intros Hc. destruct (execute_spec w c) as [_ Ho]. unfold at_. by rewrite Ho. Qed.

Lemma matches_id id q i d : matches (And (Where "_id" (CEq (BString id))) q) i d = true → i = id ∧ matches q i d = true.
Proof.
  cbn [matches meets]. change (field i d "_id") with (Some (BString i)). intros [H1 H2]%andb_true_iff.
  split; [|done]. by apply bool_decide_eq_true in H1 as [= ->].
Qed.

(** What an update by id may do. *)
Inductive updated (w w' : mdb (Mongo := MD)) (name id : string) q us : option doc → Prop :=
| updated_none : (∀ d, at_ w name id = Some d → matches q id d = false) → at_ w' name id = at_ w name id → updated w w' name id q us None
| updated_refused : at_ w' name id = at_ w name id → updated w w' name id q us None
| updated_done d d' : at_ w name id = Some d → matches q id d = true → apply_updates false us d = Some d' →
    at_ w' name id = Some d' → updated w w' name id q us (Some d').

Lemma find_one_and_update w name id q us :
  let q' := And (Where "_id" (CEq (BString id))) q in
  let '(w', r) := execute w (FindOneAndUpdate name q' us) in
  (∃ d', r = Ok (id, d') ∧ updated w w' name id q' us (Some d')) ∨
  (r = Err ErrNoDocuments ∧ (∀ d, at_ w name id = Some d → matches q' id d = false) ∧ at_ w' name id = at_ w name id) ∨
  (∃ e, r = Err e ∧ e ≠ ErrNoDocuments ∧ at_ w' name id = at_ w name id).
Proof.
  intros q'. destruct (execute_spec w (FindOneAndUpdate name q' us)) as [Hp _]. destruct (execute w _) as [w' r].
  cbn [permits fst snd collection_of] in Hp. destruct Hp as [(i & d & Hd & Hm & Hu)|(Hn & Hs & ->)].
  - destruct (matches_id _ _ _ _ Hm) as [-> _]. unfold update_doc in Hu.
    destruct (apply_updates false us d) as [d'|] eqn:Ha; [destruct (clashes _ _ id d')|]; injection Hu as Hs ->.
    + right. right. exists ErrDuplicateKey. split_and!; [done..|]. unfold at_. by rewrite Hs.
    + left. exists d'. split; [done|]. eapply updated_done; try done. unfold at_. by rewrite Hs, lookup_insert_eq.
    + right. right. exists Refused. split_and!; [done..|]. unfold at_. by rewrite Hs.
  - right. left. split_and!; [done| |unfold at_; by rewrite Hs]. intros d Hd. by apply Hn.
Qed.

Lemma update_one w name id q us :
  let q' := And (Where "_id" (CEq (BString id))) q in
  let '(w', r) := execute w (UpdateOne name q' us false) in
  (∃ d', updated w w' name id q' us (Some d')) ∨ at_ w' name id = at_ w name id.
Proof.
  intros q'. destruct (execute_spec w (UpdateOne name q' us false)) as [Hp _]. destruct (execute w _) as [w' r].
  cbn [permits fst snd collection_of] in Hp. destruct Hp as [(i & d & Hd & Hm & Hs & Hr)|(Hn & Hs & ->)].
  - destruct (matches_id _ _ _ _ Hm) as [-> _]. unfold update_doc in Hs.
    destruct (apply_updates false us d) as [d'|] eqn:Ha; [destruct (clashes _ _ id d')|]; cbn [fst] in Hs;
      [right; unfold at_; by rewrite Hs| |right; unfold at_; by rewrite Hs].
    left. exists d'. eapply updated_done; try done. unfold at_. by rewrite Hs, lookup_insert_eq.
  - right. unfold at_. by rewrite Hs.
Qed.

(** An update of another document. *)
Lemma find_one_and_update_other w name id id' q us : id' ≠ id →
  at_ (execute w (FindOneAndUpdate name (And (Where "_id" (CEq (BString id'))) q) us)).1 name id = at_ w name id.
Proof.
  intros Hne. destruct (execute_spec w (FindOneAndUpdate name (And (Where "_id" (CEq (BString id'))) q) us)) as [Hp _].
  destruct (execute w _) as [w' r]. cbn [permits fst snd collection_of] in *. unfold at_.
  destruct Hp as [(i & d & Hd & Hm & Hu)|(Hn & Hs & ->)]; [|by rewrite Hs].
  destruct (matches_id _ _ _ _ Hm) as [-> _]. unfold update_doc in Hu.
  destruct (apply_updates false us d) as [d'|] eqn:Ha; [destruct (clashes _ _ id' d')|]; injection Hu as Hs _; rewrite Hs; [done| |done].
  by rewrite lookup_insert_ne.
Qed.
End Commands.

(** ** The race *)

Inductive request : Type :=
| Commit (groupID : string) (baseEpoch : Z) (msgs : list ChatMessage.t)
| Reset.

Section Race.
Context {MD : Mongo unique_indexes} (cid : string).
Implicit Types (w : mdb (Mongo := MD)) (d : doc).

Definition serve (r : request) : prog (mdb (Mongo := MD)) MongoEnv.t mongo_commit :=
  match r with
  | Commit groupID baseEpoch msgs => CommitMLSGroup cid groupID baseEpoch msgs Done
  | Reset => ResetMLSGroup cid (fun r => Done (match r with Ok s => mk_answer s [] None | Err e => no_commit e end))
  end.
Definition accepted (a : mongo_commit) : Prop := mc_err a = None.

(** The group the conversation is in, and its epoch. *)
Definition group_at w : option (string * Z) :=
  (fun d => (get_str d "mlsGroupId", get_int d "mlsEpoch")) <$> at_ w "conversations" cid.
(** Whatever else is done to the database leaves them alone. *)
Definition same_group w w' : Prop := group_at w' = group_at w.

(** ** Lemmas: where a commit is

    It has not tried, it has moved the epoch, or it can do neither any more. *)
Inductive phase : Type := Idle | Holding | Spent.
Definition ghost : Type := request * phase.

(** The state a commit names. *)
Definition based_on (s : option (string * Z)) (groupID : string) (baseEpoch : Z) : Prop :=
  if baseEpoch =? 0 then ∃ e, s = Some ("", e) else s = Some (groupID, baseEpoch).

Definition step w (g : ghost) w' (g' : ghost) : Prop :=
  g'.1 = g.1 ∧
  ((same_group w w' ∧ (g'.2 = g.2 ∨ g'.2 = Spent)) ∨
   (∃ gid b msgs, g.1 = Commit gid b msgs ∧ g.2 = Idle ∧ g'.2 ≠ Idle ∧ based_on (group_at w) gid b ∧
      group_at w' = Some (gid, b + 1)) ∨
   (∃ gid b msgs, g.1 = Commit gid b msgs ∧ g.2 = Holding ∧ g'.2 = Spent ∧ group_at w = Some (gid, b + 1) ∧
      group_at w' = Some (if b =? 0 then "" else gid, b)) ∨
   (g'.2 = g.2 ∧ ∃ e, group_at w' = Some ("", e))).
(** An accepted commit has moved the epoch and not put it back. *)
Definition ends (g : ghost) (a : mongo_commit) : Prop :=
  match g.1 with Commit _ _ _ => accepted a → g.2 = Holding | Reset => True end.
Abbreviation keeps := (Threads.keeps (W := mdb (Mongo := MD)) (Env := MongoEnv.t) (fun _ _ => True) step ends).
Abbreviation program := (prog (mdb (Mongo := MD)) MongoEnv.t mongo_commit).
Implicit Types (g : ghost).

Lemma step_quiet w g w' : same_group w w' → step w g w' g.
Proof. intros H. split; [done|]. left. auto. Qed.

(** A command whatever the server does. *)
Lemma keeps_mongo {A} (c : command A) (k : result (failure mongo_err) A → program) g :
  (∀ w, ∃ g', step w g (execute w c).1 g' ∧ keeps g' (k (lift (execute w c).2))) →
  (∀ w, ∃ g', step w g (execute w c).1 g' ∧ keeps g' (k (Err Unavailable))) →
  keeps g (k (Err Unavailable)) → keeps g (mongo c k).
Proof.
  intros Hok Hlost Hdown w env w' a _. cbn. unfold sends. specialize (Hok w). specialize (Hlost w). destruct (execute w c) as [w1 r].
  destruct (MongoEnv.backend env); intros [= <- <-]; [done| |done]. exists g. split; [by apply step_quiet|done].
Qed.
Lemma keeps_same {A} (c : command A) (k : result (failure mongo_err) A → program) g :
  (∀ w, same_group w (execute w c).1) → (∀ r, keeps g (k r)) → keeps g (mongo c k).
Proof. intros Hc Hk. apply keeps_mongo; [intros w|intros w|done]; exists g; (split; [by apply step_quiet|done]). Qed.
Lemma same_looks {A} (c : command A) w : looks c = true → same_group w (execute w c).1.
Proof. intros Hc. unfold same_group, group_at. by rewrite at_looks. Qed.
Lemma same_elsewhere {A} (c : command A) w : collection_of c ≠ "conversations" → same_group w (execute w c).1.
Proof. intros Hc. unfold same_group, group_at. by rewrite at_other. Qed.

Lemma keeps_id id (k : string → program) g : (∀ id, keeps g (k id)) → keeps g (with_id id k).
Proof.
  intros Hk. unfold with_id. case_bool_decide; [|done]. intros w env w' a _ [= <- <-]. exists g. split; [by apply step_quiet|done].
Qed.

(** The counter of the messages is another field. *)
Lemma get_other (d : doc) (k k' : string) v : k ≠ k' → (get_str (<[k := v]> d) k' = get_str d k') ∧ (get_int (<[k := v]> d) k' = get_int d k').
Proof. intros Hk. unfold get_str, get_int. by rewrite !lookup_insert_ne. Qed.
Lemma apply_inc inserting k n d d' : apply_updates inserting [UInc k n] d = Some d' → ∃ z, d' = <[k := BInt z]> d.
Proof.
  unfold apply_updates. cbn. destruct (d !! k) as [[]|]; try done; [|intros [= <-]; by eexists].
  case_match; [|done]. intros [= <-]. by eexists.
Qed.
Lemma same_counter w id : same_group w (execute w (FindOneAndUpdate "conversations" (equals [("_id", BString id)]) [UInc "msgSeq" 1])).1.
Proof.
  unfold same_group, group_at. cbn [equals foldr fst snd]. destruct (decide (id = cid)) as [->|Hne]; [|by rewrite find_one_and_update_other].
  pose proof (find_one_and_update w "conversations" cid Anything [UInc "msgSeq" 1]) as H. cbn zeta in H.
  destruct (execute _ _) as [w' r]. cbn [fst]. destruct H as [(d' & _ & Hu)|[(_ & _ & ->)|(e & _ & _ & ->)]]; [|done..].
  inversion Hu as [| |d d1 Hd Hm Ha Hd' Heq]; subst. rewrite Hd, Hd'. cbn [fmap option_fmap option_map]. f_equal.
  destruct (apply_inc _ _ _ _ _ Ha) as [z ->].
  rewrite (proj1 (get_other d "msgSeq" "mlsGroupId" (BInt z) ltac:(done))). by rewrite (proj2 (get_other d "msgSeq" "mlsEpoch" (BInt z) ltac:(done))).
Qed.

Lemma keeps_append msg (k : _ → program) g : (∀ r, keeps g (k r)) → keeps g (AppendChatMessage msg k).
Proof.
  intros Hk. apply keeps_id. intros id. cbv zeta.
  assert (∀ m, keeps g (mongo (InsertOne "chatMessages" id (message_doc m))
    (fun r => k (match r with Err e => Err (mapErr e) | Ok _ => Ok m end)))) as Hins
    by (intros m; apply keeps_same; [intros w; by apply same_elsewhere|]; intros r; apply Hk).
  destruct (_ =? 0); [|apply Hins]. apply keeps_same; [intros w; apply same_counter|].
  intros [kd|e]; [apply Hins|]. destruct (mapErr e) as [[]|]; first [apply Hins|apply Hk].
Qed.
Lemma keeps_appends msgs (k : _ → program) g : (∀ r, keeps g (k r)) → ∀ stored, keeps g (appendChatMessages msgs stored k).
Proof.
  intros Hk. induction msgs as [|msg msgs IH]; intros stored; cbn [appendChatMessages]; [apply Hk|].
  apply keeps_append. intros [saved|e]; [apply IH|apply Hk].
Qed.
Lemma keeps_state (k : _ → program) g : (∀ r, keeps g (k r)) → keeps g (MLSGroupState_ cid k).
Proof. intros Hk. apply keeps_same; [intros w; by apply same_looks|]. intros r. apply Hk. Qed.

(** The read of the state before a commit. *)
Lemma keeps_head b (k : bytes → program) g : (∀ h, keeps g (k h)) → keeps g (read_head cid b k).
Proof. intros Hk. unfold read_head. destruct (b =? 0); [apply Hk|]. apply keeps_state. intros r. apply Hk. Qed.

Lemma commit_filter_based w gid b d :
  at_ w "conversations" cid = Some d → matches (commit_filter cid gid b) cid d = true → based_on (group_at w) gid b.
Proof.
  intros Hd [_ Hm]%matches_id. unfold based_on, group_at. rewrite Hd. destruct (b =? 0).
  - exists (get_int d "mlsEpoch"). cbn [matches meets] in Hm. change (field cid d "mlsGroupId") with (d !! "mlsGroupId") in Hm.
    cbn. do 2 f_equal. unfold get_str.
    destruct (d !! "mlsGroupId") as [[]|]; try done. by apply orb_true_iff in Hm as [Hm|Hm%bool_decide_eq_true]; [|injection Hm as ->].
  - cbn [matches meets] in Hm. change (field cid d "mlsGroupId") with (d !! "mlsGroupId") in Hm.
    change (field cid d "mlsEpoch") with (d !! "mlsEpoch") in Hm. apply andb_true_iff in Hm as [H1%bool_decide_eq_true H2%bool_decide_eq_true].
    cbn. unfold get_str, get_int. by rewrite H1, H2.
Qed.
Lemma set_group_at w' d gid e h d' : at_ w' "conversations" cid = Some d' →
  apply_updates false (set_group gid e h) d = Some d' → group_at w' = Some (gid, e).
Proof.
  intros Hd' [= <-]. unfold group_at. rewrite Hd'. cbn. unfold get_str, get_int.
  rewrite (lookup_insert_ne _ _ "mlsGroupId"), (lookup_insert_ne _ _ "mlsGroupId"), lookup_insert_eq by done.
  by rewrite (lookup_insert_ne _ _ "mlsEpoch"), lookup_insert_eq.
Qed.

(** A program that ends in an error is done with the epoch. *)
Lemma keeps_error g e : keeps g (Done (no_commit e)).
Proof. cbn. unfold ends. by destruct (g.1). Qed.
Lemma keeps_conflict g : keeps g (MLSGroupState_ cid (fun r =>
  Done (match r with Err e => no_commit e | Ok current => mk_answer current [] (Some (Known ErrEpochConflict)) end))).
Proof. apply keeps_state. intros [s|e]; [|apply keeps_error]. cbn. unfold ends. by destruct (g.1). Qed.

Lemma keeps_rollback gid b prev msgs e : wrap64 (b + 1) = b + 1 →
  keeps (Commit gid b msgs, Holding) (rollbackMLSGroup cid gid b prev (Done (no_commit e))).
Proof.
  intros Hb. unfold rollbackMLSGroup. rewrite Hb. set (us := if b =? 0 then _ else _).
  assert (∀ w, ∃ g', step w (Commit gid b msgs, Holding) (execute w (UpdateOne "conversations"
    (equals [("_id", BString cid); ("mlsGroupId", BString gid); ("mlsEpoch", BInt (b + 1))]) us false)).1 g') as Hs.
  { intros w. cbn [equals foldr fst snd]. pose proof (update_one w "conversations" cid
      (And (Where "mlsGroupId" (CEq (BString gid))) (And (Where "mlsEpoch" (CEq (BInt (b + 1)))) Anything)) us) as H. cbn zeta in H.
    destruct (execute w _) as [w' r]. cbn [fst]. destruct H as [[d' Hu]|Hsame].
    - inversion Hu as [| |d d1 Hd Hm Ha Hd' Heq]; subst d1. exists (Commit gid b msgs, Spent). split; [done|]. right. right. left.
      exists gid, b, msgs. split_and!; [done..| |].
      + apply matches_id in Hm as [_ Hm]. cbn [matches meets] in Hm. change (field cid d "mlsGroupId") with (d !! "mlsGroupId") in Hm.
        change (field cid d "mlsEpoch") with (d !! "mlsEpoch") in Hm.
        apply andb_true_iff in Hm as [H1%bool_decide_eq_true [H2%bool_decide_eq_true _]%andb_true_iff].
        unfold group_at. rewrite Hd. cbn. unfold get_str, get_int. by rewrite H1, H2.
      + subst us. destruct (b =? 0) eqn:E; [apply Z.eqb_eq in E as ->|]; by eapply set_group_at.
    - exists (Commit gid b msgs, Holding). apply step_quiet. unfold same_group, group_at. by rewrite Hsame. }
  apply keeps_mongo; [intros w|intros w|]; try apply keeps_error; destruct (Hs w) as [g' Hg']; exists g'; (split; [done|apply keeps_error]).
Qed.

Lemma keeps_commit gid b msgs : wrap64 (b + 1) = b + 1 → keeps (Commit gid b msgs, Idle) (serve (Commit gid b msgs)).
Proof.
  intros Hb. apply keeps_head. intros prev. cbv zeta. rewrite Hb. set (us := set_group _ _ _).
  assert (∀ w, let '(w', r) := execute w (FindOneAndUpdate "conversations" (commit_filter cid gid b) us) in
    (∃ kd, r = Ok kd ∧ based_on (group_at w) gid b ∧ group_at w' = Some (gid, b + 1)) ∨
    (∃ e, r = Err e ∧ same_group w w')) as Hx.
  { intros w. unfold commit_filter. pose proof (find_one_and_update w "conversations" cid
      (if b =? 0 then Or (Where "mlsGroupId" (CExists false)) (Where "mlsGroupId" (CEq (BString "")))
       else And (Where "mlsGroupId" (CEq (BString gid))) (Where "mlsEpoch" (CEq (BInt b)))) us) as H. cbn zeta in H.
    destruct (execute w _) as [w' r]. destruct H as [(d' & -> & Hu)|[(-> & _ & Hs)|(e & -> & _ & Hs)]].
    - left. eexists. inversion Hu as [| |d d1 Hd Hm Ha Hd' Heq]; subst d1. split_and!; [done|by eapply commit_filter_based|by eapply set_group_at].
    - right. eexists. split; [done|]. unfold same_group, group_at. by rewrite Hs.
    - right. eexists. split; [done|]. unfold same_group, group_at. by rewrite Hs. }
  assert (∀ w w' ph, based_on (group_at w) gid b → group_at w' = Some (gid, b + 1) → ph ≠ Idle →
    step w (Commit gid b msgs, Idle) w' (Commit gid b msgs, ph)) as Hwin.
  { intros w w' ph H1 H2 Hph. split; [done|]. right. left. by exists gid, b, msgs. }
  apply keeps_mongo; [intros w|intros w|apply keeps_error]; specialize (Hx w); destruct (execute w _) as [w' r]; cbn [fst snd];
    destruct Hx as [(kd & -> & H1 & H2)|(e & -> & Hs)].
  - exists (Commit gid b msgs, Holding). split; [by apply Hwin|]. cbn [lift]. apply keeps_appends. intros [stored|e]; [|by apply keeps_rollback].
    done.
  - exists (Commit gid b msgs, Idle). split; [by apply step_quiet|]. cbn [lift].
    destruct (mapErr (Known e)) as [[]|]; first [apply keeps_conflict|apply keeps_error].
  - exists (Commit gid b msgs, Spent). split; [by apply Hwin|]. apply keeps_error.
  - exists (Commit gid b msgs, Idle). split; [by apply step_quiet|]. apply keeps_error.
Qed.

Lemma keeps_reset ph : keeps (Reset, ph) (serve Reset).
Proof.
  assert (∀ a, keeps (Reset, ph) (Done a)) as Hd by (intros a; done).
  apply keeps_state. intros [s|e]; [|apply Hd]. cbv zeta. case_bool_decide; [apply Hd|].
  set (us := [USet "mlsGroupId" (BString ""); _; _]).
  assert (∀ w, step w (Reset, ph) (execute w (FindOneAndUpdate "conversations"
    (equals [("_id", BString cid); ("mlsGroupId", BString (MLSGroupState.GroupID s))]) us)).1 (Reset, ph)) as Hs.
  { intros w. cbn [equals foldr fst snd]. pose proof (find_one_and_update w "conversations" cid
      (And (Where "mlsGroupId" (CEq (BString (MLSGroupState.GroupID s)))) Anything) us) as Hu. cbn zeta in Hu.
    destruct (execute w _) as [w' r]. cbn [fst].
    destruct Hu as [(d' & _ & Hu)|[(_ & _ & Hsm)|(e & _ & _ & Hsm)]]; [|apply step_quiet; unfold same_group, group_at; by rewrite Hsm..].
    inversion Hu as [| |d d1 Hd' Hm Ha Hd'' Heq]; subst d1. split; [done|]. right. right. right. split; [done|]. exists 0.
    unfold group_at. rewrite Hd''. cbn. unfold apply_updates in Ha. cbn in Ha. unfold get_str, get_int.
    assert (∀ v, d' = <["mlsPriorGroupIds" := v]> (<["mlsEpoch" := BInt 0]> (<["mlsGroupId" := BString ""]> d)) →
      Some (match d' !! "mlsGroupId" with Some (BString s) => s | _ => "" end, match d' !! "mlsEpoch" with Some (BInt n) => n | _ => 0 end)
      = Some ("", 0)) as Hv by (intros v ->; by simplify_map_eq).
    destruct (_ !! "mlsPriorGroupIds") as [[]|] in Ha; try done; injection Ha as <-; by eapply Hv. }
  apply keeps_mongo; [intros w|intros w|apply Hd]; exists (Reset, ph); (split; [apply Hs|]); [|apply Hd].
  destruct (execute w _) as [w' r]. cbn [snd]. destruct r as [kd|[]]; [apply Hd| |apply Hd..]. apply keeps_state. intros [s'|e]; apply Hd.
Qed.

(** ** Lemmas: all of them together *)

Definition sound_request (rq : request) : Prop :=
  match rq with Commit gid b _ => gid ≠ "" ∧ 0 ≤ b < two63 - 1 | Reset => True end.
(** A group that is set up is set up by one commit, and is not there before. *)
Definition establishes (rq : request) (gid : string) : Prop := ∃ msgs, rq = Commit gid 0 msgs.
Definition new_groups w (rqs : list request) : Prop :=
  (∀ i j ri rj gid, rqs !! i = Some ri → rqs !! j = Some rj → establishes ri gid → establishes rj gid → i = j) ∧
  (∀ r gid e, r ∈ rqs → establishes r gid → group_at w ≠ Some (gid, e)).

(** One that has moved the epoch of a group from [b]. *)
Definition holds g gid (b : Z) : Prop := ∃ msgs, g = (Commit gid b msgs, Holding).
Record race w (gs : list ghost) : Prop := {
  race_sound : Forall (fun g => sound_request g.1) gs;
  race_establishers : ∀ i j gi gj gid, gs !! i = Some gi → gs !! j = Some gj → establishes gi.1 gid → establishes gj.1 gid → i = j;
  race_ahead : ∀ i g gid b, gs !! i = Some g → holds g gid b → ∀ e, group_at w = Some (gid, e) → b < e;
  race_single : ∀ i j gi gj gid b, gs !! i = Some gi → gs !! j = Some gj → holds gi gid b → holds gj gid b → i = j;
  race_known : ∀ j gj gid, gs !! j = Some gj → establishes gj.1 gid → gj.2 = Idle →
    (∀ e, group_at w ≠ Some (gid, e)) ∧ (∀ i gi b, gs !! i = Some gi → ¬ holds gi gid b)
}.

Lemma race_same w w' gs : race w gs → same_group w w' → race w' gs.
Proof. intros [H1 H2 H3 H4 H5] Hs. unfold same_group in Hs. split; [done..| |done|]; by rewrite Hs. Qed.

Lemma holds_Holding g gid b : holds g gid b → g.2 = Holding.
Proof. by intros [msgs ->]. Qed.
Lemma race_named w gs j gj gid : race w gs → gs !! j = Some gj → (∃ b, holds gj gid b) ∨ establishes gj.1 gid → gid ≠ "".
Proof.
  intros [Hs _ _ _ _] Hj. pose proof (proj1 (Forall_lookup _ _) Hs _ _ Hj) as H. cbv beta in H.
  intros [(b & msgs & ->)|(msgs & Heq)]; [by destruct H|]. rewrite Heq in H. by destruct H.
Qed.

(** Nothing new is held, and no group appears. *)
Lemma race_less w w' gs i g g' : race w gs → gs !! i = Some g → g'.1 = g.1 →
  (g'.2 = Idle → g.2 = Idle) → (∀ gid b, holds g' gid b → holds g gid b) →
  (∀ gid b j gj e, j ≠ i ∨ g' = g → gs !! j = Some gj → holds gj gid b → group_at w' = Some (gid, e) → b < e) →
  (∀ gid e, gid ≠ "" → group_at w' = Some (gid, e) → ∃ e', group_at w = Some (gid, e')) →
  (∀ gid b, holds g' gid b → g' = g) →
  race w' (<[i := g']> gs).
Proof.
  intros Hr Hi H1 Hidle Hh Hahead Hgrp Heq. pose proof Hr as [R1 R2 R3 R4 R5].
  assert (∀ j gj, <[i := g']> gs !! j = Some gj → ∃ gj0, gs !! j = Some gj0 ∧ gj.1 = gj0.1 ∧ (gj.2 = Idle → gj0.2 = Idle) ∧
    (∀ gid b, holds gj gid b → holds gj0 gid b)) as Hold.
  { intros j gj [(-> & -> & _)|[Hne Hj]]%list_lookup_insert_Some; [by exists g|by exists gj]. }
  split.
  - apply Forall_insert; [done|]. rewrite H1. exact (proj1 (Forall_lookup _ _) R1 _ _ Hi).
  - intros j k gj gk gid (gj0 & Hj & E1 & _)%Hold (gk0 & Hk & E2 & _)%Hold. rewrite E1, E2. by apply R2.
  - intros j gj gid b Hj Hb e He. apply list_lookup_insert_Some in Hj as [(-> & -> & _)|[Hne Hj]].
    + pose proof (Heq _ _ Hb) as ->. eapply Hahead; eauto.
    + eapply Hahead; eauto.
  - intros j k gj gk gid b (gj0 & Hj & _ & _ & E1)%Hold (gk0 & Hk & _ & _ & E2)%Hold Hbj Hbk. eapply R4; eauto.
  - intros j gj gid Hj Hest Hid. destruct (Hold _ _ Hj) as (gj0 & Hj0 & E1 & E2 & _). rewrite E1 in Hest.
    destruct (R5 _ _ _ Hj0 Hest (E2 Hid)) as [Hg Hn]. split.
    + intros e He. destruct (Hgrp gid e) as [e' He']; [by eapply (race_named w gs); eauto|done|]. by eapply Hg.
    + intros k gk b (gk0 & Hk & _ & _ & E3)%Hold Hb. by eapply Hn, E3.
Qed.

(** One more commit moves the epoch. *)
Lemma race_win w w' gs i g g' gid b msgs : race w gs → gs !! i = Some g → g'.1 = g.1 → g.1 = Commit gid b msgs →
  g.2 = Idle → g'.2 ≠ Idle → based_on (group_at w) gid b → group_at w' = Some (gid, b + 1) → race w' (<[i := g']> gs).
Proof.
  intros Hr Hi H1 Eg Ep Ep' Hb Hw'. pose proof Hr as [R1 R2 R3 R4 R5].
  assert (sound_request (Commit gid b msgs)) as [Hgid Hb0]
    by (pose proof (proj1 (Forall_lookup _ _) R1 _ _ Hi) as H; cbv beta in H; by rewrite Eg in H).
  assert (∀ j gj, <[i := g']> gs !! j = Some gj → j = i ∧ gj = g' ∨ j ≠ i ∧ gs !! j = Some gj) as Hold.
  { intros j gj [(-> & -> & _)|[Hne Hj]]%list_lookup_insert_Some; auto. }
  assert (∀ gid' b', holds g' gid' b' → gid' = gid ∧ b' = b) as Hself.
  { intros gid' b' [m ->]. cbn in H1. rewrite Eg in H1. by injection H1. }
  assert (∀ j gj b', gs !! j = Some gj → holds gj gid b' → b' < b) as Hothers.
  { intros j gj b' Hj Hh. unfold based_on in Hb. destruct (b =? 0) eqn:E; [apply Z.eqb_eq in E as ->|by eapply R3].
    destruct (R5 _ _ gid Hi) as [_ Hn]; [by exists msgs|done|]. by destruct (Hn _ _ _ Hj Hh). }
  split.
  - apply Forall_insert; [done|]. rewrite H1. exact (proj1 (Forall_lookup _ _) R1 _ _ Hi).
  - intros j k gj gk gid' [[-> ->]|[? Hj]]%Hold [[-> ->]|[? Hk]]%Hold; rewrite ?H1; eauto.
  - intros j gj gid' b' [[-> ->]|[? Hj]]%Hold Hh e He; rewrite Hw' in He; injection He as <- <-.
    + apply Hself in Hh as [_ ->]. lia.
    + specialize (Hothers _ _ _ Hj Hh). lia.
  - intros j k gj gk gid' b' [[-> ->]|[? Hj]]%Hold [[-> ->]|[? Hk]]%Hold Hhj Hhk; [done| | |by eapply R4].
    + apply Hself in Hhj as [-> ->]. specialize (Hothers _ _ _ Hk Hhk). lia.
    + apply Hself in Hhk as [-> ->]. specialize (Hothers _ _ _ Hj Hhj). lia.
  - intros j gj gid' [[-> ->]|[Hne Hj]]%Hold Hest Hid; [done|].
    assert (gid' ≠ gid) as Hgg.
    { intros ->. unfold based_on in Hb. destruct (b =? 0) eqn:E.
      - apply Z.eqb_eq in E as ->. apply Hne. eapply R2; eauto. by exists msgs.
      - destruct (R5 _ _ _ Hj Hest Hid) as [Hn _]. by eapply Hn. }
    destruct (R5 _ _ _ Hj Hest Hid) as [_ Hn]. split; [intros e He; rewrite Hw' in He; congruence|].
    intros k gk b' [[-> ->]|[? Hk]]%Hold Hh; [by apply Hself in Hh as [? _]|by eapply Hn].
Qed.

Lemma race_step w gs i g w' g' : race w gs → gs !! i = Some g → step w g w' g' → race w' (<[i := g']> gs).
Proof.
  intros Hr Hi [H1 Hcases]. pose proof Hr as [R1 R2 R3 R4 R5].
  destruct Hcases as [[Hs Hph]|[Hwin|[Hundo|[Hph [e0 He0]]]]].
  - assert (∀ gid b, holds g' gid b → g' = g) as Heq.
    { intros gid b [msgs ->]. destruct g as [rq ph]. cbn in *. by destruct Hph as [<-|]; [subst|]. }
    eapply (race_less w _ _ _ g); eauto.
    + by destruct Hph as [->| ->].
    + intros gid b Hb. by rewrite <- (Heq _ _ Hb).
    + intros gid b j gj e _ Hj Hb He. rewrite Hs in He. by eapply R3.
    + intros gid e _ He. rewrite Hs in He. by exists e.
  - destruct Hwin as (gid & b & msgs & Eg & Ep & Ep' & Hb & Hw'). by eapply race_win.
  - destruct Hundo as (gid & b & msgs & Eg & Ep & Ep' & Hw & Hw').
    assert (∀ gid' b', ¬ holds g' gid' b') as Hno by (intros gid' b' Hb%holds_Holding; congruence).
    assert (holds g gid b) as Hg by (exists msgs; rewrite (surjective_pairing g); congruence).
    assert (gid ≠ "") as Hne by (eapply (race_named w gs); eauto).
    eapply (race_less w _ _ _ g); eauto.
    + by rewrite Ep'.
    + intros gid' b' Hb. by destruct (Hno _ _ Hb).
    + intros gid' b' j gj e [Hji|Hj] Hj' Hb He; [|by rewrite Hj, Ep in Ep']. rewrite Hw' in He.
      assert (gid' ≠ "") as Hne' by (eapply (race_named w gs); eauto). destruct (b =? 0); injection He as <- <-; [done|].
      pose proof (R3 _ _ _ _ Hj' Hb _ Hw). assert (b' ≠ b) by (intros ->; apply Hji; by eapply R4). lia.
    + intros gid' e Hne' He. rewrite Hw' in He. destruct (b =? 0); injection He as <- <-; [done|]. by eexists.
    + intros gid' b' Hb. by destruct (Hno _ _ Hb).
  - assert (g' = g) as -> by (rewrite (surjective_pairing g), (surjective_pairing g'); congruence). rewrite list_insert_id by done. split; [done..| |done|].
    + intros j gj gid b Hj Hb e He. rewrite He0 in He. injection He as <- <-. exfalso. eapply (race_named w gs); eauto.
    + intros j gj gid Hj Hest Hid. destruct (R5 _ _ _ Hj Hest Hid) as [_ Hn]. split; [|done].
      intros e He. rewrite He0 in He. injection He as <- <-. eapply (race_named w gs); eauto.
Qed.

Lemma race_starts w rqs : Forall sound_request rqs → new_groups w rqs → race w ((fun r => (r, Idle)) <$> rqs).
Proof.
  intros Hs [H1 H2].
  assert (∀ j gj, ((fun r => (r, Idle)) <$> rqs : list ghost) !! j = Some gj → ∃ r, rqs !! j = Some r ∧ gj = (r, Idle)) as Hold.
  { intros j gj Hj. apply list_lookup_fmap_Some in Hj as (r & -> & Hr). by exists r. }
  assert (∀ r gid b, ¬ holds (r, Idle) gid b) as Hno by (intros r gid b [msgs ?]; done).
  split.
  - by apply Forall_fmap.
  - intros i j gi gj gid (ri & Hi & ->)%Hold (rj & Hj & ->)%Hold. by eapply H1.
  - intros i g gid b (r & _ & ->)%Hold Hb. by destruct (Hno _ _ _ Hb).
  - intros i j gi gj gid b (r & _ & ->)%Hold _ Hb. by destruct (Hno _ _ _ Hb).
  - intros j gj gid (r & Hj & ->)%Hold Hest _. split.
    + intros e. eapply H2; [by eapply list_elem_of_lookup_2|done].
    + intros i gi b (r' & _ & ->)%Hold. apply Hno.
Qed.

(** The requests of a pool do not change. *)
Lemma race_run w rqs w' ps : Forall sound_request rqs → new_groups w rqs →
  rtc (system_step same_group) (w, serve <$> rqs) (w', ps) →
  ∃ gs, race w' gs ∧ gs.*1 = rqs ∧ Forall2 keeps gs ps.
Proof.
  intros Hs Hn Hr.
  destruct (rely_guarantee (Env := MongoEnv.t) (R := mongo_commit) (fun w gs => race w gs ∧ gs.*1 = rqs) (fun _ _ => True) step ends same_group) with
    (s := (w, serve <$> rqs)) (s' := (w', ps)) (gs := (fun r => (r, Idle)) <$> rqs) as (gs & [HJ Hf] & HF).
  - done.
  - intros w1 gs i g w2 g' [HJ Hf] Hi Ht. split; [by eapply race_step|]. rewrite list_fmap_insert.
    destruct Ht as [-> _]. rewrite list_insert_id; [done|]. apply list_lookup_fmap_Some. by exists g.
  - intros w1 gs w2 [HJ Hf] Hsm. split; [by eapply race_same|done].
  - done.
  - split; [by apply race_starts|]. cbn. rewrite <- list_fmap_compose. unfold compose. cbn. by rewrite list_fmap_id.
  - cbn [snd]. apply Forall2_fmap. apply Forall_Forall2_diag. eapply Forall_impl; [exact Hs|].
    intros [gid b msgs|] Hrq; [|apply keeps_reset]. apply keeps_commit. destruct Hrq as [_ Hb]. apply wrap64_id. unfold two63 in *. lia.
  - by exists gs.
Qed.
End Race.

(** C14. Over MongoDB, whatever the order in which the commands of any number of commits
    and resets of a conversation's MLS group reach the server, whatever else uses the
    database meanwhile without touching the group, and whichever commands fail before or
    after the server has run them: once a commit that names a group and an epoch has been
    answered as accepted, no other that names the same two is. The group of a commit at
    epoch 0 is one that only it sets up. *)
Theorem mongo_one_winner {MD : Mongo unique_indexes} cid (w w' : mdb (Mongo := MD)) (rqs : list request)
  (ps : list (prog (mdb (Mongo := MD)) MongoEnv.t mongo_commit)) i j gid b msgs msgs' a a'
  (Hsound : Forall sound_request rqs) (Hnew : new_groups cid w rqs)
  (Hrun : rtc (system_step (same_group cid)) (w, serve cid <$> rqs) (w', ps))
  (Hi : rqs !! i = Some (Commit gid b msgs)) (Hj : rqs !! j = Some (Commit gid b msgs')) (Hij : i ≠ j)
  (Hai : ps !! i = Some (Done a)) (Haj : ps !! j = Some (Done a')) (Ha : accepted a) :
  ¬ accepted a'.
Proof.
  intros Ha'. destruct (race_run cid w rqs w' ps Hsound Hnew Hrun) as (gs & HJ & Hf & HF).
  assert (∀ k m x, rqs !! k = Some (Commit gid b m) → ps !! k = Some (Done x) → accepted x →
    ∃ g, gs !! k = Some g ∧ holds g gid b) as Hh.
  { intros k m x Hk Hd Hx. destruct (Forall2_lookup_r _ _ _ _ _ HF Hd) as ([rq ph] & Hg & Hpost). exists (rq, ph). split; [done|].
    rewrite <- Hf in Hk. apply list_lookup_fmap_Some in Hk as (g & Hk & Hg'). pose proof (eq_trans (eq_sym Hg') Hg) as [= ->].
    cbn in Hk. subst rq. exists m. f_equal. by apply Hpost. }
  destruct (Hh _ _ _ Hi Hai Ha) as (gi & Hgi & Hhi), (Hh _ _ _ Hj Haj Ha') as (gj & Hgj & Hhj).
  apply Hij. by eapply (race_single _ _ _ HJ).
Qed.

(** ** KeyPackages

    Claims of any devices of any users, each between the commands of the others. *)

Section Claims.
Context {MD : Mongo unique_indexes} (published : gset string).
Implicit Types (w : mdb (Mongo := MD)).
Abbreviation claimant := (prog (mdb (Mongo := MD)) MongoEnv.t (result (failure store_err) MLSKeyPackage.t)).

Definition claim (device : string * string) : claimant := ClaimKeyPackage device.1 device.2 Done.
(** Anything else may be done to the packages but to publish one again. *)
Definition no_return w w' : Prop :=
  ∀ id, id ∈ published → at_ w "mlsKeyPackages" id = None → at_ w' "mlsKeyPackages" id = None.
(** One of the packages that were there, and that only one claim may use. *)
Definition handed_out (a : result (failure store_err) MLSKeyPackage.t) (id : string) : Prop :=
  ∃ kp, a = Ok kp ∧ MLSKeyPackage.ID kp = id ∧ MLSKeyPackage.LastResort kp = false ∧ id ∈ published.

(** What a claim has taken. *)
Definition taken : Type := option string.
Definition taking w (g : taken) w' (g' : taken) : Prop :=
  no_return w w' ∧ (g' = g ∨ ∃ id, g' = Some id ∧ at_ w "mlsKeyPackages" id ≠ None ∧ at_ w' "mlsKeyPackages" id = None).
Definition told (g : taken) (a : result (failure store_err) MLSKeyPackage.t) : Prop := ∀ id, handed_out a id → g = Some id.
Record shelf w (gs : list taken) : Prop := {
  shelf_gone : ∀ i id, gs !! i = Some (Some id) → id ∈ published → at_ w "mlsKeyPackages" id = None;
  shelf_once : ∀ i j id, gs !! i = Some (Some id) → gs !! j = Some (Some id) → id ∈ published → i = j
}.

Lemma no_return_refl w : no_return w w.
Proof. by intros id _. Qed.
Lemma shelf_rely w gs w' : shelf w gs → no_return w w' → shelf w' gs.
Proof. intros [H1 H2] Hn. split; [|done]. intros i id Hi Hp. apply Hn; [done|by eapply H1]. Qed.
Lemma shelf_taking w gs i g w' g' : shelf w gs → gs !! i = Some g → taking w g w' g' → shelf w' (<[i := g']> gs).
Proof.
  intros Hs Hi [Hn [->|(id & -> & Hin & Hout)]]; [rewrite list_insert_id by done; by eapply shelf_rely|].
  destruct (shelf_rely _ _ _ Hs Hn) as [H1 H2]. destruct Hs as [H0 _]. split.
  - intros j id' [(_ & [= ->] & _)|[_ Hj]]%list_lookup_insert_Some Hp; [done|by eapply H1].
  - intros j k id' [(-> & [= ->] & _)|[Hj Hj']]%list_lookup_insert_Some [(-> & Hk & _)|[Hk Hk']]%list_lookup_insert_Some Hp; [done| | |by eapply H2].
    + by destruct Hin; eapply H0.
    + injection Hk as ->. by destruct Hin; eapply H0.
Qed.

(** A command of [ClaimKeyPackage] on its collection. *)
Lemma find_one_and_delete w name q :
  let '(w', r) := execute w (FindOneAndDelete name q) in
  (∀ id, at_ w name id = None → at_ w' name id = None) ∧
  match r with
  | Ok (id, d) => at_ w name id ≠ None ∧ at_ w' name id = None ∧ matches q id d = true
  | Err _ => True
  end.
Proof.
  destruct (execute_spec w (FindOneAndDelete name q)) as [Hp _]. destruct (execute w _) as [w' r].
  cbn [permits fst snd collection_of] in Hp. unfold at_. destruct Hp as [(i & d & Hd & Hm & Hs & ->)|(Hn & Hs & ->)].
  - rewrite Hs. split_and!; [|by rewrite Hd|by rewrite lookup_delete_eq|done].
    intros id Hid. destruct (decide (id = i)) as [->|]; [by rewrite lookup_delete_eq|by rewrite lookup_delete_ne].
  - by rewrite Hs.
Qed.
Lemma find_one w name q : let r := (execute w (FindOne name q)).2 in
  match r with Ok (id, d) => matches q id d = true | Err _ => True end.
Proof.
  destruct (execute_spec w (FindOne name q)) as [Hp _]. destruct (execute w _) as [w' r].
  cbn [permits fst snd collection_of] in *. by destruct Hp as [_ [(i & d & Hd & Hm & ->)|(Hn & ->)]].
Qed.

Lemma keeps_claim device : Threads.keeps (fun _ _ => True) taking told None (claim device).
Proof.
  set (last_look := fun r => Done (mapped package_of r) : claimant).
  assert (Threads.keeps (fun _ _ => True) taking told None
    (mongo (FindOne "mlsKeyPackages" (And (of_device device.1 device.2) last_resort)) last_look)) as Hlast.
  { intros w env w' a _. pose proof (find_one w "mlsKeyPackages" (And (of_device device.1 device.2) last_resort)) as Hr.
    cbn beta zeta in Hr. assert (no_return w (execute w (FindOne "mlsKeyPackages" (And (of_device device.1 device.2) last_resort))).1) as Hn
      by (intros id _ Hid; by rewrite at_looks). unfold sends. destruct (execute w _) as [w1 r]. cbn [fst snd] in *.
    assert (∀ r', match r' with Ok kd => r = Ok kd | Err _ => True end → told None (mapped package_of r')) as Ht.
    { intros [[id d]|e] Hr' id' (kp & [= <-] & _ & Hl & _). subst r. apply andb_true_iff in Hr as [_ Hr]. cbn [matches meets] in Hr.
      apply bool_decide_eq_true in Hr. change (get_bool d "lastResort" = false) in Hl. change (d !! "lastResort" = Some (BBool true)) in Hr.
      unfold get_bool in Hl. by rewrite Hr in Hl. }
    destruct (MongoEnv.backend env); intros [= <- <-]; exists None;
      (split; [split; [first [exact Hn|apply no_return_refl]|by left]|]); apply Ht; by destruct r as [[]|]. }
  intros w env w' a _. set (q := And (of_device device.1 device.2) single_use).
  pose proof (find_one_and_delete w "mlsKeyPackages" q) as Hx. unfold sends. destruct (execute w _) as [w1 r]. destruct Hx as [Hn Hr].
  assert (taking w None w1 None) as Hquiet by (split; [intros id _; apply Hn|by left]).
  assert (∀ e, told None (mapped package_of (Err e))) as He by (intros e id (kp & [=] & _)).
  destruct (MongoEnv.backend env); intros [= <- <-].
  - destruct r as [[id d]|e].
    + destruct Hr as (Hin & Hout & _). exists (Some id). split; [split; [intros i _; apply Hn|right; by exists id]|].
      by intros id' (kp & [= <-] & <- & _).
    + exists None. split; [done|]. cbn. destruct e; first [exact Hlast|apply (He Unavailable)].
  - exists None. split; [split; [apply no_return_refl|by left]|]. exact (He Unavailable).
  - exists None. split; [done|]. exact (He Unavailable).
Qed.
End Claims.

(** C26. Over MongoDB, whatever the order in which the commands of any number of claims
    reach the server, whatever else removes or publishes KeyPackages meanwhile, and
    whichever commands fail before or after the server has run them: no two claims are
    answered with the same of the single-use packages that were published when they
    start. *)
Theorem mongo_claims_single_use {MD : Mongo unique_indexes} published (w w' : mdb (Mongo := MD)) devices ps i j a a' id
  (Hrun : rtc (system_step (no_return published)) (w, claim <$> devices) (w', ps)) (Hij : i ≠ j)
  (Hi : ps !! i = Some (Done a)) (Hj : ps !! j = Some (Done a')) (Ha : handed_out published a id) :
  ¬ handed_out published a' id.
Proof.
  intros Ha'. destruct (rely_guarantee (Env := MongoEnv.t) (shelf published) (fun _ _ => True) (taking published) (told published)
    (no_return published)) with (s := (w, claim <$> devices)) (s' := (w', ps)) (gs := (fun _ => None) <$> devices : list taken) as (gs & [_ Honce] & HF).
  - done.
  - intros w1 gs k g w2 g'. apply shelf_taking.
  - intros w1 gs w2. apply shelf_rely.
  - done.
  - assert (∀ k id', ((fun _ => None) <$> devices : list taken) !! k ≠ Some (Some id')) as Hno.
    { intros k id' Hk. apply list_lookup_fmap_Some in Hk as (? & [=] & _). }
    split; [intros k id' Hk; by destruct (Hno k id')|intros k m id' Hk; by destruct (Hno k id')].
  - apply Forall2_fmap, Forall_Forall2_diag, Forall_forall. intros device _. apply keeps_claim.
  - destruct (Forall2_lookup_r _ _ _ _ _ HF Hi) as (gi & Hgi & Hti), (Forall2_lookup_r _ _ _ _ _ HF Hj) as (gj & Hgj & Htj).
    rewrite (Hti _ Ha) in Hgi. rewrite (Htj _ Ha') in Hgj. apply Hij. eapply Honce; [done..|]. by destruct Ha as (? & _ & _ & _ & ?).
Qed.

(** ** On a database in memory *)

#[local] Instance here : Mongo unique_indexes := memory_mongo unique_indexes.
Abbreviation memory := (mdb (Mongo := here)).

Definition room (gid : string) (epoch : Z) : memory :=
  {["conversations" := {["c" := conversation_doc (Conversation.mk "c" "direct" "" "" "u" "" unixEpoch "" (MLSGroupState.mk gid epoch [] "head"))]}]}.
Definition says (id body : string) : ChatMessage.t := ChatMessage.mk id "c" "u" body ContentTypeMLSCommit unixEpoch 6 "g" 0 "".
Definition met (backend : fault) : MongoEnv.t := MongoEnv.mk backend "" 0.
Definition works : MongoEnv.t := met Works.

Definition rivals : list request := [Commit "g" 5 [says "m1" "one"]; Commit "g" 5 [says "m2" "two"]; Reset].
(** Both read the head, the second moves the epoch; a reset comes last. *)
Definition turns : list (nat * MongoEnv.t) :=
  [(0, works); (1, works); (1, works); (0, works); (1, works); (0, works); (1, works); (2, works); (2, works)]%nat.
Definition fought := schedule (room "g" 5) (serve "c" <$> rivals) turns.
Definition answer_of {W Env R} (ps : list (prog W Env R)) (i : nat) : option R :=
  match ps !! i with Some (Done a) => Some a | _ => None end.
Definition won (a : mongo_commit) : bool := match mc_err a with None => true | Some _ => false end.

Lemma answer_of_Done {W Env R} (ps : list (prog W Env R)) i a : answer_of ps i = Some a → ps !! i = Some (Done a).
Proof. unfold answer_of. destruct (ps !! i) as [[r|]|]; naive_solver. Qed.
Lemma won_accepted a : won a = true → accepted a.
Proof. unfold won, accepted. by destruct (mc_err a). Qed.
Lemma fought_ends : won <$> answer_of fought.2 1 = Some true ∧ won <$> answer_of fought.2 0 = Some false.
Proof. by vm_compute. Qed.

Theorem mongo_one_winner_witness : ∃ a a', answer_of fought.2 1 = Some a ∧ answer_of fought.2 0 = Some a' ∧
  accepted a ∧ ¬ accepted a'.
Proof.
  destruct fought_ends as [(a & Ha & Hw)%fmap_Some_1 (a' & Ha' & _)%fmap_Some_1]. exists a, a'.
  pose proof (won_accepted a (eq_sym Hw)) as Hacc.
  split; [exact Ha|]. split; [exact Ha'|]. split; [exact Hacc|].
  assert (∀ r gid, r ∈ rivals → ¬ establishes r gid) as Hno
    by (intros r gid Hr [m ->]; repeat (apply elem_of_cons in Hr as [[=]|Hr]); by apply not_elem_of_nil in Hr).
  eapply (mongo_one_winner "c" (room "g" 5) fought.1 rivals fought.2 1 0 "g" 5);
    [| | |reflexivity|reflexivity|done|by apply answer_of_Done|by apply answer_of_Done|exact Hacc].
  - repeat constructor; done.
  - split; [|intros r gid e Hr He; by destruct (Hno r gid)]. intros i j ri rj gid Hi _ He _.
    destruct (Hno ri gid); [by eapply list_elem_of_lookup_2|done].
  - rewrite <- surjective_pairing. apply schedule_steps.
Defined.

(** One package of a device and its last resort, claimed by two. *)
Definition packages : memory :=
  {["mlsKeyPackages" := {["p1" := package_doc (MLSKeyPackage.mk "p1" "u" "d" "once" 0 false);
                          "p2" := package_doc (MLSKeyPackage.mk "p2" "u" "d" "again" 0 true)]}]}.
Definition claimed := schedule packages (claim <$> [("u", "d"); ("u", "d")]) [(1, works); (0, works); (0, works)]%nat.

Theorem mongo_claims_single_use_witness : ∃ a a', claimed.2 !! 1%nat = Some (Done a) ∧ claimed.2 !! 0%nat = Some (Done a') ∧
  handed_out {["p1"]} a "p1" ∧ ¬ handed_out {["p1"]} a' "p1".
Proof.
  do 2 eexists. split; [vm_compute; reflexivity|]. split; [vm_compute; reflexivity|]. apply and_wlog_r.
  - eexists. split; [reflexivity|]. split; [reflexivity|]. split; [reflexivity|]. by apply elem_of_singleton.
  - intros Ha. eapply (mongo_claims_single_use {["p1"]} packages claimed.1 [("u", "d"); ("u", "d")] claimed.2 1 0);
      [|done|reflexivity|reflexivity|exact Ha]. rewrite <- surjective_pairing. apply schedule_steps.
Defined.

(** The epoch of the conversation, the head of its chain, and what was appended to its log. *)
Definition outcome (s : memory * list (prog memory MongoEnv.t mongo_commit)) : option (Z * bytes) * list string :=
  ((fun d => (get_int d "mlsEpoch", get_bin d "mlsChainHash")) <$> coll s.1 "conversations" !! "c",
   (map_to_list (coll s.1 "chatMessages")).*1).
Definition lost : MongoEnv.t := met AnswerLost.
Definition down : MongoEnv.t := met NotDone.
Definition commits (msgs : list (list ChatMessage.t)) : list (prog memory MongoEnv.t mongo_commit) :=
  (fun m => serve "c" (Commit "g" 5 m)) <$> msgs.

(** The epoch moves and the answer is lost: no commit is in the log, the caller is told
    of a failure, and the epoch is not put back. *)
Example lost_answer_strands :
  let s := schedule (room "g" 5) (commits [[says "m1" "one"]]) [(0, works); (0, lost)]%nat in
  (fst <$> (outcome s).1, (outcome s).2, won <$> answer_of s.2 0) = (Some 6, [], Some false).
Proof. by vm_compute. Qed.

(** A head that cannot be read counts as none: the commit is accepted and its link
    starts a chain of its own. *)
Example unread_head_accepted :
  let s := schedule (room "g" 5) (commits [[says "m1" "one"]]) [(0, down); (0, works); (0, works); (0, works)]%nat in
  (outcome s, won <$> answer_of s.2 0) = ((Some (6, Link "" 6 "g" "one"), ["m1"]), Some true).
Proof. by vm_compute. Qed.

(** The second reads the head while the first is about to put its epoch back: the
    filter sees epoch 5 again, and the link of the accepted commit is on the hash of one
    that is not in the log. *)
Example head_of_undone_commit :
  let s := schedule (room "g" 5) (commits [[says "m1" "one"]; [says "m2" "two"]])
    [(0, works); (0, works); (1, works); (0, down); (0, works); (1, works); (1, works); (1, works)]%nat in
  (outcome s, won <$> answer_of s.2 0, won <$> answer_of s.2 1) =
  ((Some (6, Link (Link "head" 6 "g" "one") 6 "g" "two"), ["m2"]), Some false, Some true).
Proof. by vm_compute. Qed.

(** The welcome is appended and the commit is not: the epoch is put back, the welcome
    stays. *)
Example undone_commit_leaves_welcome :
  let s := schedule (room "g" 5) (commits [[says "m1" "one"; says "m2" "two"]])
    [(0, works); (0, works); (0, works); (0, works); (0, down); (0, works)]%nat in
  (outcome s, won <$> answer_of s.2 0) = ((Some (5, "head"), ["m1"]), Some false).
Proof. by vm_compute. Qed.

(** A reset leaves the head of the chain of the group that it retires. *)
Example reset_leaves_head :
  outcome (schedule (room "g" 5) [serve "c" Reset] [(0, works); (0, works)]%nat) = (Some (0, "head"), []).
Proof. by vm_compute. Qed.
