(* ===== verification/MongoDirectory.v ===== *)
(** * The store over MongoDB: accounts, channels and devices

    [store_mongo.go] of [api/internal/store]: every method a program of the commands
    it sends, as in [MongoStore], and of the deletions it asks of the blob store. *)

From S2P Require Import Prelude.
From S2P Require Import GoStrings.
From S2P Require Import Domain.
From S2P Require Import Threads.
From S2P Require Import Blob.
From S2P Require Import StoreState.
From S2P Require Import StoreInvites.
From S2P Require Import Bson.
From S2P Require Import MongoStore.
From S2P Require Import MongoRace.

(** ** Documents *)

Definition flag (k : string) (b : bool) : string * option bson := (k, Some (BBool b)).
Definition stamp_ (k : string) (t : option time) : string * option bson := (k, BTime <$> t).
Definition get_stamp (d : doc) (k : string) : option time :=
  match d !! k with Some (BDate _) => Some (get_date d k) | _ => None end.

Definition user_doc (u : User.t) : doc :=
  make_doc [str "email" (User.Email u); str "passwordHash" (User.PasswordHash u); str "role" (User.Role u);
            str "status" (User.Status u); str_ "domain" (User.Domain u); str_ "username" (User.Username u);
            str_ "usernameLower" (User.UsernameLower u); str_ "displayName" (User.DisplayName u); str_ "bio" (User.Bio u);
            str_ "phone" (User.Phone u); str_ "website" (User.Website u); str_ "avatarId" (User.AvatarID u);
            str_ "notificationPrivacy" (User.NotificationPrivacy u); date "createdAt" (User.CreatedAt u)].
Definition user_of (kd : string * doc) : User.t :=
  let s := get_str kd.2 in
  User.mk kd.1 (s "email") (s "passwordHash") (s "role") (s "status") (s "domain") (s "username") (s "usernameLower")
    (s "displayName") (s "bio") (s "phone") (s "website") (s "avatarId") (s "notificationPrivacy") (get_date kd.2 "createdAt").

Definition channel_doc (c : Channel.t) : doc :=
  make_doc [str "publicId" (Channel.PublicID c); str "ownerId" (Channel.OwnerID c); str "name" (Channel.Name c);
            str_ "alias" (Channel.Alias c); str_ "aliasLower" (Channel.AliasLower c); str_ "avatarId" (Channel.AvatarID c);
            str "subscriptionMode" (Channel.SubscriptionMode c); str "status" (Channel.Status c);
            date "createdAt" (Channel.CreatedAt c); str_ "originDomain" (Channel.OriginDomain c);
            str_ "originPublicId" (Channel.OriginPublicID c)].
Definition channel_of (kd : string * doc) : Channel.t :=
  let s := get_str kd.2 in
  Channel.mk kd.1 (s "publicId") (s "ownerId") (s "name") (s "alias") (s "aliasLower") (s "avatarId") (s "subscriptionMode")
    (s "status") (get_date kd.2 "createdAt") (s "originDomain") (s "originPublicId").

Definition channel_member_doc (m : ChannelMember.t) : doc :=
  make_doc [str "channelId" (ChannelMember.ChannelID m); str "userId" (ChannelMember.UserID m);
            str "role" (ChannelMember.Role m); str "status" (ChannelMember.Status m); date "createdAt" (ChannelMember.CreatedAt m)].
Definition channel_member_of (kd : string * doc) : ChannelMember.t :=
  let s := get_str kd.2 in
  ChannelMember.mk kd.1 (s "channelId") (s "userId") (s "role") (s "status") (get_date kd.2 "createdAt").

Definition api_key_doc (k : APIKey.t) : doc :=
  make_doc [str "channelId" (APIKey.ChannelID k); str "hashedKey" (APIKey.HashedKey k); str "prefix" (APIKey.Prefix k);
            str "label" (APIKey.Label k); date "createdAt" (APIKey.CreatedAt k); stamp_ "revokedAt" (APIKey.RevokedAt k)].
Definition api_key_of (kd : string * doc) : APIKey.t :=
  let s := get_str kd.2 in
  APIKey.mk kd.1 (s "channelId") (s "hashedKey") (s "prefix") (s "label") (get_date kd.2 "createdAt") (get_stamp kd.2 "revokedAt").

Definition invite_doc (i : Invite.t) : doc :=
  make_doc [str "codeHash" (Invite.CodeHash i); str "prefix" (Invite.Prefix i); str_ "note" (Invite.Note i);
            str "createdBy" (Invite.CreatedBy i); date "createdAt" (Invite.CreatedAt i); stamp_ "expiresAt" (Invite.ExpiresAt i);
            stamp_ "usedAt" (Invite.UsedAt i); str_ "usedBy" (Invite.UsedBy i); stamp_ "revokedAt" (Invite.RevokedAt i)].
Definition invite_of (kd : string * doc) : Invite.t :=
  let s := get_str kd.2 in
  Invite.mk kd.1 (s "codeHash") (s "prefix") (s "note") (s "createdBy") (get_date kd.2 "createdAt")
    (get_stamp kd.2 "expiresAt") (get_stamp kd.2 "usedAt") (s "usedBy") (get_stamp kd.2 "revokedAt").

Definition push_device_doc (d : Device.t) : doc :=
  make_doc [str "userId" (Device.UserID d); str "platform" (Device.Platform d); str_ "fcmToken" (Device.FCMToken d);
            str_ "webPushSub" (Device.WebPushSub d); str_ "voipToken" (Device.VoIPToken d);
            str_ "webPushEndpoint" (Device.WebPushEndpoint d); bool_ "canRenderPreview" (Device.CanRenderPreview d);
            str_ "mlsDeviceId" (Device.MLSDeviceID d); date "createdAt" (Device.CreatedAt d); date "lastSeenAt" (Device.LastSeenAt d)].
Definition push_device_of (kd : string * doc) : Device.t :=
  let s := get_str kd.2 in
  Device.mk kd.1 (s "userId") (s "platform") (s "fcmToken") (s "webPushSub") (s "voipToken") (s "webPushEndpoint")
    (get_bool kd.2 "canRenderPreview") (s "mlsDeviceId") (get_date kd.2 "createdAt") (get_date kd.2 "lastSeenAt").

Definition subscription_doc (s : Subscription.t) : doc :=
  make_doc [str "channelId" (Subscription.ChannelID s); str "deviceId" (Subscription.DeviceID s);
            str "status" (Subscription.Status s); date "createdAt" (Subscription.CreatedAt s)].
Definition subscription_of (kd : string * doc) : Subscription.t :=
  let s := get_str kd.2 in
  Subscription.mk kd.1 (s "channelId") (s "deviceId") (s "status") (get_date kd.2 "createdAt").

Definition image_row (i : MessageImage.t) : list (string * scalar) :=
  [("id", SString (MessageImage.ID i)); ("width", SInt (MessageImage.Width i)); ("height", SInt (MessageImage.Height i))].
Definition image_of_row (row : list (string * scalar)) : MessageImage.t :=
  let m : gmap string scalar := list_to_map row in
  MessageImage.mk (match m !! "id" with Some (SString s) => s | _ => "" end)
    (match m !! "width" with Some (SInt n) => n | _ => 0 end) (match m !! "height" with Some (SInt n) => n | _ => 0 end).
Definition post_doc (m : Message.t) : doc :=
  make_doc [str "channelId" (Message.ChannelID m); str "title" (Message.Title m); str "body" (Message.Body m);
            ("images", match Message.Images m with [] => None | l => Some (BRows (image_row <$> l)) end);
            ("data", if bool_decide (Message.Data m = ∅) then None else Some (BMap (Message.Data m)));
            flag "commentsAllowed" (Message.CommentsAllowed m); date "createdAt" (Message.CreatedAt m)].
Definition post_of (kd : string * doc) : Message.t :=
  let s := get_str kd.2 in
  Message.mk kd.1 (s "channelId") (s "title") (s "body")
    (match kd.2 !! "images" with Some (BRows l) => image_of_row <$> l | _ => [] end)
    (match kd.2 !! "data" with Some (BMap m) => m | _ => ∅ end) (get_bool kd.2 "commentsAllowed") (get_date kd.2 "createdAt").

Definition comment_doc (c : Comment.t) : doc :=
  make_doc [str "messageId" (Comment.MessageID c); str "channelId" (Comment.ChannelID c); str "userId" (Comment.UserID c);
            str "body" (Comment.Body c); date "createdAt" (Comment.CreatedAt c)].
Definition comment_of (kd : string * doc) : Comment.t :=
  let s := get_str kd.2 in
  Comment.mk kd.1 (s "messageId") (s "channelId") (s "userId") (s "body") (get_date kd.2 "createdAt").

Definition delivery_doc (d : Delivery.t) : doc :=
  make_doc [str "messageId" (Delivery.MessageID d); str "deviceId" (Delivery.DeviceID d); str "status" (Delivery.Status d);
            str_ "error" (Delivery.Error d); date "sentAt" (Delivery.SentAt d)].

(** ** What the code gets from elsewhere *)

(** Package regexp as the server has it: whether a text has a quoted pattern in it,
    apart from case. *)
Class Regexps := { found_in : string → string → bool }.
(** [json.Unmarshal] of a web push subscription: its endpoint, [None] for an error. *)
Class PushJson := { sub_endpoint : string → option string }.

Definition webPushEndpoint {PJ : PushJson} (webPushSub : string) : string :=
  if webPushSub == "" then "" else default "" (sub_endpoint webPushSub).

(** ** Calls *)

Section Calls.
Context {MD : Mongo unique_indexes} {B : Type} {BS : BlobStore B} {U : Unicode} {RX : Regexps} {PJ : PushJson} {R : Type}.
(** The database, and the blob store if there is one. *)
Abbreviation world := (mdb (Mongo := MD) * option B)%type.
Abbreviation handler := (prog world MongoEnv.t R).

Definition mongo {A} (c : command A) (k : result (failure mongo_err) A → handler) : handler :=
  Act (fun w env => let '(db, r) := sends c w.1 env in ((db, w.2), r)) k.
(** [deleteBlobs]: best effort. *)
Definition drop_blobs (ids : list string) (k : handler) : handler :=
  Act (fun w _ => ((w.1, deleteBlobs w.2 ids), tt)) (fun _ => k).
(** A command whose error is returned. *)
Definition returns {A X} (c : command A) (k : answer X → handler) (next : A → handler) : handler :=
  do! r := mongo c in match r with Err e => k (Err (mapErr e)) | Ok a => next a end.

Definition with_key (id : string) : query := equals [("_id", BString id)].
Definition among (key : string) (ids : list string) : query := Where key (CIn ids).
Definition newest_first : sort_keys := [("createdAt", false)].
Definition up_to (limit : Z) : option nat := if 0 <? limit then Some (Z.to_nat limit) else None.
(** One document, decoded; all that match. *)
Definition find {X} (c : string) (q : query) (of_doc : string * doc → X) (k : answer X → handler) : handler :=
  do! r := mongo (FindOne c q) in k (mapped of_doc r).
Definition find_all {X} (c : string) (q : query) (ks : sort_keys) (limit : option nat) (of_doc : string * doc → X)
  (k : answer (list X) → handler) : handler :=
  do! r := mongo (Find c q ks 0 limit) in k (mapped (fmap of_doc) r).
(** [ErrNotFound] when nothing is matched, or deleted. *)
Definition update_some (c : string) (q : query) (us : list update) (k : answer unit → handler) : handler :=
  do! r := mongo (UpdateOne c q us false) in k (some_matched r).
Definition delete_some (c : string) (q : query) (k : answer unit → handler) : handler :=
  do! r := mongo (DeleteOne c q) in k (some_matched r).

(** A page of a listing, newest first, and how many there are. *)
Definition findPaged {X} (c : string) (filter : query) (offset limit : Z) (of_doc : string * doc → X)
  (k : answer (list X * Z) → handler) : handler :=
  returns (CountDocuments c filter) k (fun total =>
  do! r := mongo (Find c filter newest_first (Z.to_nat offset) (up_to limit)) in
  k (mapped (fun out => (of_doc <$> out, total)) r)).

(** ** Start-up *)

Fixpoint release_groups (groups : list (list string)) (k : answer unit → handler) : handler :=
  match groups with
  | [] => k (Ok tt)
  | (_ :: previous) :: groups =>
      match previous with
      | [] => release_groups groups k
      | _ => returns (DeleteMany "devices" (among "_id" previous)) k (fun _ => release_groups groups k)
      end
  | [] :: groups => release_groups groups k
  end.
Fixpoint release_fields (fields : list string) (k : answer unit → handler) : handler :=
  match fields with
  | [] => k (Ok tt)
  | field :: fields =>
      returns (GroupIds "devices" (And (Where field (CExists true)) (Where field (CNe (BString "")))) newest_first field "userId") k
        (fun groups =>
           do! r := release_groups groups in
           match r with Err e => k (Err e) | Ok _ => release_fields fields k end)
  end.
Definition releaseSharedPushAddresses (k : answer unit → handler) : handler :=
  release_fields ["fcmToken"; "webPushEndpoint"] k.
Definition migrate (k : answer unit → handler) : handler :=
  returns (UpdateMany "messages" (Where "commentsAllowed" (CExists false)) [USet "commentsAllowed" (BBool true)]) k
    (fun _ => releaseSharedPushAddresses k).

(** ** Users *)

Definition CreateUser (u : User.t) (k : answer User.t → handler) : handler :=
  do! id := with_id (User.ID u) in
  let u := WithNewUserDefaults (u <| User.ID := id |>) in
  returns (InsertOne "users" id (user_doc u)) k (fun _ => k (Ok u)).
Definition UserByID (id : string) (k : answer User.t → handler) : handler := find "users" (with_key id) user_of k.
Definition UserByEmail (email : string) (k : answer User.t → handler) : handler :=
  find "users" (equals [("email", BString email)]) user_of k.
Definition UserByUsername (usernameLower : string) (k : answer User.t → handler) : handler :=
  if usernameLower == "" then k (Err (Known ErrNotFound))
  else find "users" (equals [("usernameLower", BString usernameLower)]) user_of k.
Definition UsersByIDs (ids : list string) (k : answer (gmap string User.t) → handler) : handler :=
  match ids with
  | [] => k (Ok ∅)
  | _ =>
      do! r := find_all "users" (among "_id" ids) [] None user_of in
      k (match r with Err e => Err e | Ok users => Ok (foldl (fun out u => <[User.ID u := u]> out) ∅ users) end)
  end.

(** The fields of [UpdateUserProfile]; a nil pointer is left alone. *)
Definition profile_set (p : UserProfileUpdate.t) : list update :=
  let trimmed key value := match value with Some s => [USet key (BString (TrimSpace s))] | None => [] end in
  trimmed "displayName" (UserProfileUpdate.DisplayName p) ++ trimmed "bio" (UserProfileUpdate.Bio p)
  ++ trimmed "phone" (UserProfileUpdate.Phone p) ++ trimmed "website" (UserProfileUpdate.Website p).
Definition username_set (username : option string) : list update :=
  match username with
  | None => []
  | Some name =>
      let trimmed := TrimSpace name in let lower := ToLower trimmed in
      if lower == "" then [UUnset "username"; UUnset "usernameLower"]
      else [USet "username" (BString trimmed); USet "usernameLower" (BString lower)]
  end.
Definition privacy_set (privacy : option string) : list update :=
  match privacy with Some s => [USet "notificationPrivacy" (BString s)] | None => [] end.
Definition UpdateUserProfile (userID : string) (p : UserProfileUpdate.t) (k : answer User.t → handler) : handler :=
  let lower := match UserProfileUpdate.Username p with Some s => ToLower (TrimSpace s) | None => "" end in
  let update :=
    match profile_set p ++ username_set (UserProfileUpdate.Username p) ++ privacy_set (UserProfileUpdate.NotificationPrivacy p) with
    | [] => UserByID userID k
    | us =>
        do! r := mongo (UpdateOne "users" (with_key userID) us false) in
        match r with
        | Err e => k (Err (if IsDuplicateKeyError e then Known ErrUsernameTaken else mapErr e))
        | Ok n => if n =? 0 then k (Err (Known ErrNotFound)) else UserByID userID k
        end
    end in
  if lower == "" then update
  else
    do! r := mongo (FindOne "users" (And (Where "usernameLower" (CEq (BString lower))) (Where "_id" (CNe (BString userID))))) in
    match r with
    | Ok _ => k (Err (Known ErrUsernameTaken))
    | Err (Known ErrNoDocuments) => update
    | Err e => k (Err (mapErr e))
    end.

(** What [SetUserAvatar] and [SetChannelAvatar] share. *)
Definition set_avatar {X} (c id avatarID : string) (avatar : X → string) (by_id : (answer X → handler) → handler)
  (k : answer X → handler) : handler :=
  do! r := by_id in
  match r with
  | Err e => k (Err e)
  | Ok prev =>
      returns (UpdateOne c (with_key id) [if avatarID == "" then UUnset "avatarId" else USet "avatarId" (BString avatarID)] false) k (fun _ =>
      if (avatar prev != "") && (avatar prev != avatarID) then drop_blobs [avatar prev] (by_id k) else by_id k)
  end.
Definition SetUserAvatar (userID avatarID : string) (k : answer User.t → handler) : handler :=
  set_avatar "users" userID avatarID User.AvatarID (UserByID userID) k.

Definition set_user (userID key value : string) (k : answer unit → handler) : handler :=
  update_some "users" (with_key userID) [USet key (BString value)] k.
Definition UpdateUserRole (userID role : string) (k : answer unit → handler) : handler := set_user userID "role" role k.
Definition UpdateUserStatus (userID status : string) (k : answer unit → handler) : handler := set_user userID "status" status k.
Definition UpdateUserPassword (userID passwordHash : string) (k : answer unit → handler) : handler :=
  set_user userID "passwordHash" passwordHash k.

Definition ListUsers (k : answer (list User.t) → handler) : handler := find_all "users" Anything newest_first None user_of k.
(** A search box: nothing in it matches all. *)
Definition searched (query_ : string) (in_fields : condition → query) : query :=
  let q := TrimSpace query_ in if q == "" then Anything else in_fields (CRegex (found_in q)).
Definition AdminListUsers (query_ : string) (offset limit : Z) (k : answer (list User.t * Z) → handler) : handler :=
  findPaged "users" (searched query_ (Where "email")) offset limit user_of k.
Definition SearchUsers (query_ : string) (limit : Z) (k : answer (list User.t) → handler) : handler :=
  let q := TrimSpace query_ in
  if q == "" then k (Ok [])
  else find_all "users"
         (And (Where "status" (CEq (BString UserActive)))
              (Or (Where "username" (CRegex (found_in q))) (Where "displayName" (CRegex (found_in q)))))
         [("username", true)] (up_to limit) user_of k.

(** ** Channels *)

Definition CreateChannel (c : Channel.t) (k : answer Channel.t → handler) : handler :=
  do! id := with_id (Channel.ID c) in
  let c := c <| Channel.ID := id |> in returns (InsertOne "channels" id (channel_doc c)) k (fun _ => k (Ok c)).
Definition ChannelByID (id : string) (k : answer Channel.t → handler) : handler := find "channels" (with_key id) channel_of k.
Definition ChannelByPublicID (publicId : string) (k : answer Channel.t → handler) : handler :=
  find "channels" (equals [("publicId", BString publicId)]) channel_of k.
Definition ChannelByAlias (aliasLower : string) (k : answer Channel.t → handler) : handler :=
  if aliasLower == "" then k (Err (Known ErrNotFound))
  else find "channels" (equals [("aliasLower", BString aliasLower)]) channel_of k.
Definition ChannelByOriginPublicID (originDomain originPublicID : string) (k : answer Channel.t → handler) : handler :=
  find "channels" (equals [("originDomain", BString originDomain); ("originPublicId", BString originPublicID)]) channel_of k.
Definition SetChannelAvatar (channelID avatarID : string) (k : answer Channel.t → handler) : handler :=
  set_avatar "channels" channelID avatarID Channel.AvatarID (ChannelByID channelID) k.

Definition AddRemoteSubscription (channelID peerDomain : string) (k : answer unit → handler) : handler :=
  do! now := time_now in
  do! r := mongo (UpdateOne "remoteSubscriptions" (equals [("channelId", BString channelID); ("peerDomain", BString peerDomain)])
    [USetOnInsert "channelId" (BString channelID); USetOnInsert "peerDomain" (BString peerDomain);
     USetOnInsert "createdAt" (BTime now)] true) in
  k (mapped (fun _ => tt) r).
Definition RemoteSubscriberHosts (channelID : string) (k : answer (list string) → handler) : handler :=
  find_all "remoteSubscriptions" (equals [("channelId", BString channelID)]) [] None (fun kd => get_str kd.2 "peerDomain") k.

Definition SetChannelAlias (channelID alias : string) (k : answer Channel.t → handler) : handler :=
  let trimmed := TrimSpace alias in let lower := ToLower trimmed in
  let us := if lower == "" then [UUnset "alias"; UUnset "aliasLower"]
            else [USet "alias" (BString trimmed); USet "aliasLower" (BString lower)] in
  let update :=
    do! r := mongo (UpdateOne "channels" (with_key channelID) us false) in
    match r with
    | Err e => k (Err (if IsDuplicateKeyError e then Known ErrAliasTaken else mapErr e))
    | Ok n => if n =? 0 then k (Err (Known ErrNotFound)) else ChannelByID channelID k
    end in
  if lower == "" then update
  else
    do! r := mongo (FindOne "channels" (And (Where "aliasLower" (CEq (BString lower))) (Where "_id" (CNe (BString channelID))))) in
    match r with
    | Ok _ => k (Err (Known ErrAliasTaken))
    | Err (Known ErrNoDocuments) => update
    | Err e => k (Err (mapErr e))
    end.

Definition ChannelsByOwner (ownerID : string) (k : answer (list Channel.t) → handler) : handler :=
  find_all "channels" (equals [("ownerId", BString ownerID)]) [] None channel_of k.
Definition UpdateChannel (id name mode : string) (k : answer Channel.t → handler) : handler :=
  match (if name == "" then [] else [USet "name" (BString name)])
        ++ (if mode == "" then [] else [USet "subscriptionMode" (BString mode)]) with
  | [] => ChannelByID id k
  | us => returns (UpdateOne "channels" (with_key id) us false) k (fun _ => ChannelByID id k)
  end.
Definition UpdateChannelStatus (id status : string) (k : answer Channel.t → handler) : handler :=
  do! r := update_some "channels" (with_key id) [USet "status" (BString status)] in
  match r with Err e => k (Err e) | Ok _ => ChannelByID id k end.

(** The rows of a channel in each of the collections. *)
Fixpoint delete_rows (colls : list string) (q : query) (k : answer unit → handler) (next : handler) : handler :=
  match colls with
  | [] => next
  | c :: colls => returns (DeleteMany c q) k (fun _ => delete_rows colls q k next)
  end.
Definition DeleteChannel (id : string) (k : answer unit → handler) : handler :=
  returns (Find "messages" (equals [("channelId", BString id)]) [] 0 None) k (fun out =>
  let msgs := post_of <$> out in
  do! r := ChannelByID id in
  let avatar := match r with Ok prev => if Channel.AvatarID prev == "" then [] else [Channel.AvatarID prev] | Err _ => [] end in
  let imageIDs := avatar ++ (MessageImage.ID <$> concat (Message.Images <$> msgs)) in
  let rest :=
    delete_rows ["messages"; "subscriptions"; "apiKeys"; "channelMembers"; "comments"] (equals [("channelId", BString id)]) k
      (do! r := delete_some "channels" (with_key id) in
       match r with Err e => k (Err e) | Ok _ => drop_blobs imageIDs (k (Ok tt)) end) in
  match msgs with
  | [] => rest
  | _ => returns (DeleteMany "deliveries" (among "messageId" (Message.ID <$> msgs))) k (fun _ => rest)
  end).

Fixpoint delete_owned (channels : list Channel.t) (k : answer unit → handler) (next : handler) : handler :=
  match channels with
  | [] => next
  | c :: channels =>
      do! r := DeleteChannel (Channel.ID c) in
      match r with Err e => k (Err e) | Ok _ => delete_owned channels k next end
  end.
Definition DeleteUser (userID : string) (k : answer unit → handler) : handler :=
  let of_user := equals [("userId", BString userID)] in
  do! r := UserByID userID in
  match r with
  | Err e => k (Err e)
  | Ok prev =>
      do! r := ChannelsByOwner userID in
      match r with
      | Err e => k (Err e)
      | Ok channels =>
          delete_owned channels k (
          returns (Find "devices" of_user [] 0 None) k (fun devices =>
          let rest :=
            returns (DeleteMany "channelMembers" of_user) k (fun _ =>
            returns (DeleteMany "comments" of_user) k (fun _ =>
            do! r := delete_some "users" (with_key userID) in
            match r with
            | Err e => k (Err e)
            | Ok _ => if User.AvatarID prev == "" then k (Ok tt) else drop_blobs [User.AvatarID prev] (k (Ok tt))
            end)) in
          match devices with
          | [] => rest
          | _ =>
              returns (DeleteMany "subscriptions" (among "deviceId" devices.*1)) k (fun _ =>
              returns (DeleteMany "devices" of_user) k (fun _ => rest))
          end))
      end
  end.

(** ** Keys and invitations *)

Definition CreateAPIKey (key : APIKey.t) (k : answer APIKey.t → handler) : handler :=
  do! id := with_id (APIKey.ID key) in
  let key := key <| APIKey.ID := id |> in returns (InsertOne "apiKeys" id (api_key_doc key)) k (fun _ => k (Ok key)).
Definition APIKeyByID (keyID : string) (k : answer APIKey.t → handler) : handler := find "apiKeys" (with_key keyID) api_key_of k.
Definition APIKeysByChannel (channelID : string) (k : answer (list APIKey.t) → handler) : handler :=
  find_all "apiKeys" (equals [("channelId", BString channelID)]) [] None api_key_of k.

(** Nothing matched: the row is missing, or in the state [refusal] names. *)
Definition matched_or (c id : string) (refusal : answer unit) (n : Z) (k : answer unit → handler) : handler :=
  if n =? 0 then
    returns (CountDocuments c (with_key id)) k (fun count => k (if count =? 0 then Err (Known ErrNotFound) else refusal))
  else k (Ok tt).
Definition RevokeAPIKey (keyID : string) (k : answer unit → handler) : handler :=
  do! now := time_now in
  returns (UpdateOne "apiKeys" (And (with_key keyID) (Where "revokedAt" (CExists false))) [USet "revokedAt" (BTime now)] false) k
    (fun n => matched_or "apiKeys" keyID (Ok tt) n k).

Definition CreateInvite (i : Invite.t) (k : answer Invite.t → handler) : handler :=
  do! id := with_id (Invite.ID i) in
  let i := i <| Invite.ID := id |> in returns (InsertOne "invites" id (invite_doc i)) k (fun _ => k (Ok i)).
Definition InviteByCodeHash (codeHash : string) (k : answer Invite.t → handler) : handler :=
  if codeHash == "" then k (Err (Known ErrNotFound)) else find "invites" (equals [("codeHash", BString codeHash)]) invite_of k.
Definition InviteByID (id : string) (k : answer Invite.t → handler) : handler := find "invites" (with_key id) invite_of k.
Definition AdminListInvites (query_ : string) (offset limit : Z) (k : answer (list Invite.t * Z) → handler) : handler :=
  findPaged "invites" (searched query_ (fun c => Or (Where "note" c) (Where "prefix" c))) offset limit invite_of k.

(** Unused, unrevoked and unexpired, as the filter says it. *)
Definition redeemable_at (id : string) (at_ : time) : query :=
  And (Where "_id" (CEq (BString id)))
    (And (Where "usedAt" (CExists false))
      (And (Where "revokedAt" (CExists false))
           (Or (Where "expiresAt" (CExists false)) (Where "expiresAt" (CGt (BTime at_)))))).
Definition ConsumeInvite (id userID : string) (now : time) (k : answer unit → handler) : handler :=
  returns (UpdateOne "invites" (redeemable_at id now) [USet "usedAt" (BTime now); USet "usedBy" (BString userID)] false) k
    (fun n => matched_or "invites" id (Err (Known ErrInviteSpent)) n k).
Definition ReleaseInvite (id : string) (k : answer unit → handler) : handler :=
  update_some "invites" (with_key id) [UUnset "usedAt"; UUnset "usedBy"] k.
Definition RevokeInvite (id : string) (now : time) (k : answer unit → handler) : handler :=
  returns (UpdateOne "invites" (And (with_key id) (Where "revokedAt" (CExists false))) [USet "revokedAt" (BTime now)] false) k
    (fun n => matched_or "invites" id (Ok tt) n k).

(** ** Push devices *)

(** The part of a registration that names the handset. *)
Definition pushAddress (d : Device.t) : option query :=
  let endpoint := webPushEndpoint (Device.WebPushSub d) in
  if endpoint != "" then Some (equals [("webPushEndpoint", BString endpoint)])
  else if Device.FCMToken d != "" then Some (equals [("fcmToken", BString (Device.FCMToken d))])
  else None.
Definition devicePushIdentity (d : Device.t) : option query :=
  let user := ("userId", BString (Device.UserID d)) in
  let endpoint := webPushEndpoint (Device.WebPushSub d) in
  if endpoint != "" then Some (equals [user; ("webPushEndpoint", BString endpoint)])
  else if Device.FCMToken d != "" then Some (equals [user; ("fcmToken", BString (Device.FCMToken d))])
  else None.
Definition releasePushAddress (d : Device.t) (k : answer unit → handler) : handler :=
  if Device.UserID d == "" then k (Ok tt)
  else match pushAddress d with
       | None => k (Ok tt)
       | Some address =>
           returns (DeleteMany "devices" (And address (Where "userId" (CNe (BString (Device.UserID d)))))) k (fun _ => k (Ok tt))
       end.

(** What a registration of a known address changes, in the row and in the answer. *)
Definition refresh_set (d : Device.t) : list update :=
  let given key s := if s == "" then [] else [USet key (BString s)] in
  [USet "lastSeenAt" (BTime (Device.LastSeenAt d)); USet "canRenderPreview" (BBool (Device.CanRenderPreview d))]
  ++ given "mlsDeviceId" (Device.MLSDeviceID d) ++ given "webPushSub" (Device.WebPushSub d)
  ++ given "fcmToken" (Device.FCMToken d) ++ given "voipToken" (Device.VoIPToken d).
Definition refreshed (d existing : Device.t) : Device.t :=
  let given s old := if s == "" then old else s in
  existing <| Device.LastSeenAt := Device.LastSeenAt d |> <| Device.CanRenderPreview := Device.CanRenderPreview d |>
           <| Device.MLSDeviceID := given (Device.MLSDeviceID d) (Device.MLSDeviceID existing) |>
           <| Device.WebPushSub := given (Device.WebPushSub d) (Device.WebPushSub existing) |>
           <| Device.FCMToken := given (Device.FCMToken d) (Device.FCMToken existing) |>
           <| Device.VoIPToken := given (Device.VoIPToken d) (Device.VoIPToken existing) |>.

(** The end of [CreateDevice]. *)
Definition register_device (d : Device.t) (k : answer Device.t → handler) : handler :=
  do! id := with_id (Device.ID d) in
  let d := d <| Device.ID := id |> in
  do! r := mongo (InsertOne "devices" id (push_device_doc d)) in
  match r with
  | Ok _ => k (Ok d)
  | Err e =>
      match (if IsDuplicateKeyError e then devicePushIdentity d else None) with
      | Some filter =>
          do! r := mongo (FindOne "devices" filter) in
          k (match r with Ok winner => Ok (push_device_of winner) | Err _ => Err (mapErr e) end)
      | None => k (Err (mapErr e))
      end
  end.
Definition CreateDevice (d : Device.t) (k : answer Device.t → handler) : handler :=
  do! r := releasePushAddress d in
  match r with
  | Err e => k (Err e)
  | Ok _ =>
      match devicePushIdentity d with
      | None => register_device d k
      | Some filter =>
          do! r := mongo (FindOne "devices" filter) in
          match r with
          | Ok existing =>
              returns (UpdateOne "devices" (with_key existing.1) (refresh_set d) false) k
                (fun _ => k (Ok (refreshed d (push_device_of existing))))
          | Err (Known ErrNoDocuments) =>
              let endpoint := webPushEndpoint (Device.WebPushSub d) in
              register_device (if endpoint != "" then d <| Device.WebPushEndpoint := endpoint |> else d) k
          | Err e => k (Err (mapErr e))
          end
      end
  end.

Definition DevicesForUsers (userIDs : list string) (k : answer (list Device.t) → handler) : handler :=
  match userIDs with [] => k (Ok []) | _ => find_all "devices" (among "userId" userIDs) [] None push_device_of k end.

(** ** Subscriptions *)

Definition of_subscription (channelID deviceID : string) : query :=
  equals [("channelId", BString channelID); ("deviceId", BString deviceID)].
Definition Subscribe (s : Subscription.t) (k : answer Subscription.t → handler) : handler :=
  let filter := of_subscription (Subscription.ChannelID s) (Subscription.DeviceID s) in
  do! r := mongo (FindOne "subscriptions" filter) in
  match r with
  | Ok existing =>
      returns (UpdateOne "subscriptions" filter [USet "status" (BString (Subscription.Status s))] false) k
        (fun _ => k (Ok ((subscription_of existing) <| Subscription.Status := Subscription.Status s |>)))
  | Err (Known ErrNoDocuments) =>
      do! id := with_id (Subscription.ID s) in
      let s := s <| Subscription.ID := id |> in
      returns (InsertOne "subscriptions" id (subscription_doc s)) k (fun _ => k (Ok s))
  | Err e => k (Err (mapErr e))
  end.
Definition SubscriptionForDevice (channelID deviceID : string) (k : answer Subscription.t → handler) : handler :=
  find "subscriptions" (of_subscription channelID deviceID) subscription_of k.
Definition Unsubscribe (channelID deviceID : string) (k : answer unit → handler) : handler :=
  delete_some "subscriptions" (of_subscription channelID deviceID) k.
Definition SetSubscriptionStatusForUser (channelID userID status : string) (k : answer unit → handler) : handler :=
  returns (Find "devices" (equals [("userId", BString userID)]) [] 0 None) k (fun devices =>
  match devices with
  | [] => k (Ok tt)
  | _ =>
      returns (UpdateMany "subscriptions" (And (equals [("channelId", BString channelID)]) (among "deviceId" devices.*1))
                 [USet "status" (BString status)]) k (fun _ => k (Ok tt))
  end).
Definition ActiveDevicesForChannel (channelID : string) (k : answer (list Device.t) → handler) : handler :=
  do! r := find_all "subscriptions" (equals [("channelId", BString channelID); ("status", BString SubActive)]) [] None subscription_of in
  match r with
  | Err e => k (Err e)
  | Ok [] => k (Ok [])
  | Ok subscriptions => find_all "devices" (among "_id" (Subscription.DeviceID <$> subscriptions)) [] None push_device_of k
  end.

(** ** Members of channels *)

Definition of_channel_member (channelID userID : string) : query :=
  equals [("channelId", BString channelID); ("userId", BString userID)].
Definition UpsertMember (mem : ChannelMember.t) (k : answer ChannelMember.t → handler) : handler :=
  let filter := of_channel_member (ChannelMember.ChannelID mem) (ChannelMember.UserID mem) in
  do! r := mongo (FindOne "channelMembers" filter) in
  match r with
  | Ok existing => k (Ok (channel_member_of existing))
  | Err (Known ErrNoDocuments) =>
      do! id := with_id (ChannelMember.ID mem) in
      let mem := mem <| ChannelMember.ID := id |> in
      do! r := mongo (InsertOne "channelMembers" id (channel_member_doc mem)) in
      match r with
      | Ok _ => k (Ok mem)
      | Err e =>
          if IsDuplicateKeyError e then
            do! r := mongo (FindOne "channelMembers" filter) in
            k (match r with Ok raced => Ok (channel_member_of raced) | Err _ => Err (mapErr e) end)
          else k (Err (mapErr e))
      end
  | Err e => k (Err (mapErr e))
  end.
Definition MembershipForUser (channelID userID : string) (k : answer ChannelMember.t → handler) : handler :=
  find "channelMembers" (of_channel_member channelID userID) channel_member_of k.
Definition ListMembers (channelID status : string) (offset limit : Z) (k : answer (list ChannelMember.t * Z) → handler) : handler :=
  let filter := equals [("channelId", BString channelID)] in
  let filter := if status == "" then filter else And filter (Where "status" (CEq (BString status))) in
  findPaged "channelMembers" filter offset limit channel_member_of k.
Definition UpdateMemberStatus (channelID userID status : string) (k : answer unit → handler) : handler :=
  update_some "channelMembers" (of_channel_member channelID userID) [USet "status" (BString status)] k.
Definition UpdateMemberRole (channelID userID role : string) (k : answer unit → handler) : handler :=
  update_some "channelMembers" (of_channel_member channelID userID) [USet "role" (BString role)] k.
Definition RemoveMember (channelID userID : string) (k : answer unit → handler) : handler :=
  delete_some "channelMembers" (of_channel_member channelID userID) k.
Definition ChannelsForMember (userID : string) (k : answer (list Channel.t) → handler) : handler :=
  do! r := find_all "channelMembers" (equals [("userId", BString userID)]) [] None channel_member_of in
  match r with
  | Err e => k (Err e)
  | Ok [] => k (Ok [])
  | Ok members => find_all "channels" (among "_id" (ChannelMember.ChannelID <$> members)) newest_first None channel_of k
  end.

(** ** Messages of channels *)

(** The time of a row that has none. *)
Definition with_time (t : time) (k : time → handler) : handler := if IsZero t then time_now k else k t.

Definition CreateMessage (msg : Message.t) (k : answer Message.t → handler) : handler :=
  do! id := with_id (Message.ID msg) in
  do! now := with_time (Message.CreatedAt msg) in
  let msg := msg <| Message.ID := id |> <| Message.CreatedAt := now |> in
  returns (InsertOne "messages" id (post_doc msg)) k (fun _ => k (Ok msg)).
Definition MessageByID (id : string) (k : answer Message.t → handler) : handler := find "messages" (with_key id) post_of k.

(** What is older than the row of the cursor, if there is one. *)
Definition before_cursor (c cursor : string) (filter : query) (k : query → handler) : handler :=
  if cursor == "" then k filter
  else
    do! r := mongo (FindOne c (with_key cursor)) in
    k (match r with Ok anchor => And filter (Where "createdAt" (CLt (BTime (get_date anchor.2 "createdAt")))) | Err _ => filter end).
Definition MessagesByChannel (channelID cursor query_ : string) (limit : Z) (k : answer (list Message.t) → handler) : handler :=
  let filter := And (equals [("channelId", BString channelID)])
                    (searched query_ (fun c => Or (Where "title" c) (Where "body" c))) in
  do! filter := before_cursor "messages" cursor filter in
  find_all "messages" filter newest_first (up_to limit) post_of k.

(** The driver takes a limit of 0 for none. *)
Definition messageWindow (channelID : string) (createdAt : condition) (ascending : bool) (limit : Z)
  (k : answer (list Message.t) → handler) : handler :=
  find_all "messages" (And (Where "channelId" (CEq (BString channelID))) (Where "createdAt" createdAt))
    [("createdAt", ascending)] (up_to limit) post_of k.
Definition MessagesAround (channelID messageID : string) (limit : Z) (k : answer (list Message.t) → handler) : handler :=
  do! r := MessageByID messageID in
  match r with
  | Err e => k (Err e)
  | Ok centre =>
      if Message.ChannelID centre != channelID then k (Err (Known ErrNotFound))
      else
        let limit := if limit <=? 0 then 50 else limit in
        let half := limit / 2 in
        let at_ := BTime (Message.CreatedAt centre) in
        do! newer := messageWindow channelID (CGt at_) true half in
        match newer with
        | Err e => k (Err e)
        | Ok newer =>
            do! older := messageWindow channelID (CLt at_) false half in
            k (match older with Err e => Err e | Ok older => Ok (rev newer ++ centre :: older) end)
        end
  end.

Definition LastMessagesByChannels (channelIDs : list string) (k : answer (gmap string Message.t) → handler) : handler :=
  match channelIDs with
  | [] => k (Ok ∅)
  | _ =>
      do! r := mongo (GroupFirst "messages" (among "channelId" channelIDs) [("channelId", true); ("createdAt", false)] "channelId") in
      k (mapped (foldl (fun out kd => <[Message.ChannelID (post_of kd) := post_of kd]> out) ∅) r)
  end.
Definition CreateDelivery (d : Delivery.t) (k : answer Delivery.t → handler) : handler :=
  do! id := with_id (Delivery.ID d) in
  do! now := with_time (Delivery.SentAt d) in
  let d := d <| Delivery.ID := id |> <| Delivery.SentAt := now |> in
  returns (InsertOne "deliveries" id (delivery_doc d)) k (fun _ => k (Ok d)).
Definition DeleteMessage (id : string) (k : answer unit → handler) : handler :=
  do! r := MessageByID id in
  match r with
  | Err e => k (Err e)
  | Ok msg =>
      delete_rows ["comments"; "deliveries"] (equals [("messageId", BString id)]) k
        (do! r := delete_some "messages" (with_key id) in
         match r with Err e => k (Err e) | Ok _ => drop_blobs (MessageImage.ID <$> Message.Images msg) (k (Ok tt)) end)
  end.

(** ** Comments *)

Definition CreateComment (c : Comment.t) (k : answer Comment.t → handler) : handler :=
  do! id := with_id (Comment.ID c) in
  do! now := with_time (Comment.CreatedAt c) in
  let c := c <| Comment.ID := id |> <| Comment.CreatedAt := now |> in
  returns (InsertOne "comments" id (comment_doc c)) k (fun _ => k (Ok c)).
Definition CommentByID (id : string) (k : answer Comment.t → handler) : handler := find "comments" (with_key id) comment_of k.
Definition CommentsByMessage (messageID cursor : string) (limit : Z) (k : answer (list Comment.t) → handler) : handler :=
  do! filter := before_cursor "comments" cursor (equals [("messageId", BString messageID)]) in
  find_all "comments" filter newest_first (up_to limit) comment_of k.
(** A row of a count; a value that is missing or no string decodes to [""]. *)
Definition counted (row : option bson * Z) : string * Z := (match row.1 with Some (BString s) => s | _ => "" end, row.2).
Definition CommentCountsByMessages (messageIDs : list string) (k : answer (gmap string Z) → handler) : handler :=
  match messageIDs with
  | [] => k (Ok ∅)
  | _ =>
      do! r := mongo (GroupCount "comments" (among "messageId" messageIDs) "messageId" None) in
      k (mapped (foldl (fun out row => <[(counted row).1 := (counted row).2]> out) ∅) r)
  end.
Definition DeleteComment (id : string) (k : answer unit → handler) : handler := delete_some "comments" (with_key id) k.
Definition AdminListComments (query_ : string) (offset limit : Z) (k : answer (list Comment.t * Z) → handler) : handler :=
  findPaged "comments" (searched query_ (Where "body")) offset limit comment_of k.

(** ** Administration *)

Definition ListAllChannels (k : answer (list Channel.t) → handler) : handler :=
  find_all "channels" Anything newest_first None channel_of k.
Definition AdminListChannels (query_ : string) (offset limit : Z) (k : answer (list Channel.t * Z) → handler) : handler :=
  findPaged "channels" (searched query_ (Where "name")) offset limit channel_of k.

Definition maxInt (a b : Z) : Z := if b <? a then a else b.
Fixpoint count_rows (colls : list string) (counts : list Z) {X} (k : answer X → handler) (next : list Z → handler) : handler :=
  match colls with
  | [] => next counts
  | c :: colls => returns (CountDocuments c Anything) k (fun n => count_rows colls (counts ++ [n]) k next)
  end.
Fixpoint name_volumes (grouped : list (string * Z)) (top : list ChannelVolume.t) (k : list ChannelVolume.t → handler) : handler :=
  match grouped with
  | [] => k top
  | g :: grouped =>
      do! r := ChannelByID g.1 in
      name_volumes grouped (top ++ [ChannelVolume.mk g.1 (match r with Ok ch => Channel.Name ch | Err _ => g.1 end) g.2]) k
  end.
Definition AdminStats_ (topN recentN : Z) (k : answer AdminStats.t → handler) : handler :=
  count_rows ["users"; "channels"; "messages"; "deliveries"; "devices"] [] k (fun counts =>
  let count i := default 0 (counts !! i) in
  returns (GroupCount "messages" Anything "channelId" (Some (Z.to_nat (maxInt topN 1)))) k (fun grouped =>
  do! top := name_volumes (counted <$> grouped) [] in
  do! r := find_all "messages" Anything newest_first (up_to (maxInt recentN 1)) post_of in
  k (match r with
     | Err e => Err e
     | Ok recent => Ok (AdminStats.mk (count 0%nat) (count 1%nat) (count 2%nat) (count 3%nat) (count 4%nat) top recent)
     end))).
End Calls.

(** ** Invitations as the in-memory store keeps them *)

Inductive invite_request : Type :=
| Mint (i : Invite.t)
| Redeem (id userID : string) (now : time)
| Withdraw (id : string) (now : time)
| GiveBack (id : string).

Section Invites.
Context {MD : Mongo unique_indexes} {B : Type} {BS : BlobStore B}.
Abbreviation world := (mdb (Mongo := MD) * option B)%type.
Abbreviation program := (prog world MongoEnv.t (answer unit)).
Implicit Types (w : world) (d : doc).

Definition serve_invite (rq : invite_request) : program :=
  match rq with
  | Mint i => CreateInvite i (fun r => Done (match r with Ok _ => Ok tt | Err e => Err e end))
  | Redeem id userID now => ConsumeInvite id userID now Done
  | Withdraw id now => RevokeInvite id now Done
  | GiveBack id => ReleaseInvite id Done
  end.

Definition invite_rows w : collection := coll (contents w.1) "invites".
Definition rows_of (t : collection) : gmap string Invite.t := map_imap (fun id d => Some (invite_of (id, d))) t.
(** The in-memory store with the same invitations. *)
Definition memory_of w : Memory.t B := (Memory.NewMemory w.2) <| Memory.invites := rows_of (invite_rows w) |>.
(** The times of a row are times. *)
Definition dated d : Prop :=
  Forall (fun k => match d !! k with None | Some (BDate _) => True | _ => False end) ["expiresAt"; "usedAt"; "revokedAt"].
Definition well_dated w : Prop := map_Forall (fun _ d => dated d) (invite_rows w).

(** The database counts milliseconds. *)
Definition to_ms (t : time) : time := unixEpoch + (t - unixEpoch) / 1000000 * 1000000.
(** The call of the in-memory store a request comes down to. *)
Definition comes_to (rq : invite_request) (c : invite_call) : Prop :=
  match rq with
  | Mint i => ∃ id, (Invite.ID i ≠ "" → id = Invite.ID i) ∧ c = CallCreate id (invite_of (id, invite_doc i))
  | Redeem id userID now => c = CallConsume id userID (to_ms now)
  | Withdraw id now => c = CallRevoke id (to_ms now)
  | GiveBack id => c = CallRelease id
  end.

(** *** Rows *)

Lemma invite_rows_insert (t : collection) id d : rows_of (<[id := d]> t) = <[id := invite_of (id, d)]> (rows_of t).
Proof. exact (map_imap_insert (fun id d => Some (invite_of (id, d))) id d t). Qed.
Lemma rows_lookup (t : collection) id : rows_of t !! id = (fun d => invite_of (id, d)) <$> t !! id.
Proof. unfold rows_of. rewrite map_lookup_imap. by destruct (t !! id). Qed.

Definition does (c : invite_call) (t t' : gmap string Invite.t) : Prop :=
  ∀ m : Memory.t B, Memory.invites m = t → Memory.invites (invite_step m c).1 = t' ∧ (invite_step m c).2 = true.

Lemma dated_stamp d k : dated d → k ∈ ["expiresAt"; "usedAt"; "revokedAt"] →
  (d !! k = None ∧ get_stamp d k = None) ∨ ∃ ms, d !! k = Some (BDate ms) ∧ get_stamp d k = Some (unixEpoch + ms * 1000000).
Proof.
  intros Hd Hk. pose proof (proj1 (Forall_forall _ _) Hd k Hk) as H. cbv beta in H. unfold get_stamp, get_date.
  destruct (d !! k) as [[]|]; try done; [right; by eexists|by left].
Qed.

(** The filter of [ConsumeInvite] is the rule of the in-memory store. *)
Lemma redeemable_matches id d now : dated d → matches (redeemable_at id now) id d = true →
  Redeemable (invite_of (id, d)) (to_ms now) = true.
Proof.
  intros Hd [_ Hm]%matches_id. cbn [matches meets] in Hm.
  change (field id d "usedAt") with (d !! "usedAt") in Hm. change (field id d "revokedAt") with (d !! "revokedAt") in Hm.
  change (field id d "expiresAt") with (d !! "expiresAt") in Hm.
  apply andb_true_iff in Hm as [Hu [Hr He]%andb_true_iff]. apply Redeemable_spec. cbn [invite_of Invite.UsedAt Invite.RevokedAt Invite.ExpiresAt snd].
  destruct (dated_stamp d "usedAt" Hd ltac:(set_solver)) as [[_ Hu']|(ms & Hu' & _)]; [|by rewrite Hu' in Hu].
  destruct (dated_stamp d "revokedAt" Hd ltac:(set_solver)) as [[_ Hr']|(ms & Hr' & _)]; [|by rewrite Hr' in Hr].
  split; [done|]. split; [done|].
  destruct (dated_stamp d "expiresAt" Hd ltac:(set_solver)) as [[_ ->]|(ms & He' & ->)]; [done|]. intros e [= <-].
  rewrite He' in He. cbn in He. apply Z.ltb_lt in He. unfold to_ms. lia.
Qed.

Lemma dated_other d k v : k ∉ ["expiresAt"; "usedAt"; "revokedAt"] → dated d → dated (<[k := v]> d).
Proof.
  intros Hk Hd. apply Forall_forall. intros k' Hk'. pose proof (proj1 (Forall_forall _ _) Hd k' Hk') as H.
  rewrite lookup_insert_ne by (by intros ->). exact H.
Qed.
Lemma dated_date d k ms : dated d → dated (<[k := BDate ms]> d).
Proof.
  intros Hd. apply Forall_forall. intros k' Hk'. pose proof (proj1 (Forall_forall _ _) Hd k' Hk') as H.
  rewrite lookup_insert. by case_decide.
Qed.
Lemma dated_delete d k : dated d → dated (delete k d).
Proof.
  intros Hd. apply Forall_forall. intros k' Hk'. pose proof (proj1 (Forall_forall _ _) Hd k' Hk') as H.
  rewrite lookup_delete. by case_decide.
Qed.
Lemma dated_invite_doc i : dated (invite_doc i).
Proof.
  destruct i as [id h p n cb ca [e|] [u|] ub [r|]]; unfold dated, invite_doc, make_doc, str, str_, date, stamp_; cbn;
    destruct (n == ""), (ub == ""); cbn; repeat constructor; by simplify_map_eq.
Qed.

(** *** What the commands do *)

Lemma does_create id i t : t !! id = None →
  does (CallCreate id (invite_of (id, invite_doc i))) (rows_of t) (rows_of (<[id := invite_doc i]> t)).
Proof.
  intros _ m Hm. rewrite invite_rows_insert, <- Hm. cbn [invite_step]. unfold StoreInvites.CreateInvite.
  destruct (decide (id = "")) as [->|Hne]; [split; reflexivity|].
  change (Invite.ID (invite_of (id, invite_doc i))) with id. rewrite (bool_decide_false (id = "")) by done. split; reflexivity.
Qed.
Lemma does_consume id uid now t d : t !! id = Some d → dated d → matches (redeemable_at id now) id d = true →
  does (CallConsume id uid (to_ms now)) (rows_of t)
    (rows_of (<[id := <["usedBy" := BString uid]> (<["usedAt" := BTime now]> d)]> t)).
Proof.
  intros Hd Hdt Hm m Em. cbn [invite_step]. unfold StoreInvites.ConsumeInvite. rewrite Em, rows_lookup, Hd. cbn [fmap option_fmap option_map].
  rewrite (redeemable_matches _ _ _ Hdt Hm). cbn. rewrite invite_rows_insert. split; [|done]. f_equal.
  unfold invite_of, get_str, get_stamp, get_date, BTime, to_ms. cbn [fst snd]. by simplify_map_eq.
Qed.
Lemma does_release id t d : t !! id = Some d →
  does (CallRelease id) (rows_of t) (rows_of (<[id := delete "usedBy" (delete "usedAt" d)]> t)).
Proof.
  intros Hd m Em. cbn [invite_step]. unfold StoreInvites.ReleaseInvite. rewrite Em, rows_lookup, Hd. cbn. rewrite invite_rows_insert. split; [|done]. f_equal.
  unfold invite_of, get_str, get_stamp, get_date. cbn [fst snd]. by simplify_map_eq.
Qed.
Lemma does_revoke id now t d : t !! id = Some d → d !! "revokedAt" = None →
  does (CallRevoke id (to_ms now)) (rows_of t) (rows_of (<[id := <["revokedAt" := BTime now]> d]> t)).
Proof.
  intros Hd Hr m Em. cbn [invite_step]. unfold StoreInvites.RevokeInvite. rewrite Em, rows_lookup, Hd. cbn [fmap option_fmap option_map].
  assert (Invite.RevokedAt (invite_of (id, d)) = None) as -> by (unfold invite_of, get_stamp; cbn; by rewrite Hr).
  cbn. rewrite invite_rows_insert. split; [|done]. f_equal.
  unfold invite_of, get_str, get_stamp, get_date, BTime, to_ms. cbn [fst snd]. by simplify_map_eq.
Qed.

(** An update of the row with an id. *)
Lemma update_by_id (db : mdb (Mongo := MD)) q us id : (∀ i d, matches q i d = true → i = id) →
  let '(db', r) := execute db (UpdateOne "invites" q us false) in
  (∃ d d', coll (contents db) "invites" !! id = Some d ∧ matches q id d = true ∧ apply_updates false us d = Some d' ∧
     coll (contents db') "invites" = <[id := d']> (coll (contents db) "invites") ∧ r = Ok 1) ∨
  (coll (contents db') "invites" = coll (contents db) "invites" ∧
   ((r = Ok 0 ∧ ∀ d, coll (contents db) "invites" !! id = Some d → matches q id d = false) ∨ ∃ e, r = Err e)).
Proof.
  intros Hq. destruct (execute_spec db (UpdateOne "invites" q us false)) as [Hp _]. destruct (execute db _) as [db' r].
  cbn [permits fst snd collection_of] in Hp. destruct Hp as [(i & d & Hd & Hm & Hs & Hr)|(Hno & Hs & ->)];
    [|right; split; [done|]; left; split; [done|]; intros d; apply Hno].
  pose proof (Hq _ _ Hm) as ->. unfold update_doc in Hs, Hr. destruct (apply_updates false us d) as [d'|] eqn:Ha.
  - destruct (clashes _ _ id d'); cbn in Hs, Hr; [right; split; [done|right; by eexists]|]. left. by exists d, d'.
  - right. split; [exact Hs|]. right. eexists. exact Hr.
Qed.

(** *** What a request leaves of every row *)

Definition row_has (key : string) w (id : string) : Prop := ∃ d, invite_rows w !! id = Some d ∧ is_Some (d !! key).
(** Rows stay; what is revoked stays so, and what is used unless it is given back. *)
Definition lasting (rq : invite_request) w w' : Prop := ∀ id,
  (is_Some (invite_rows w !! id) → is_Some (invite_rows w' !! id)) ∧
  (row_has "revokedAt" w id → row_has "revokedAt" w' id) ∧
  (rq ≠ GiveBack id → row_has "usedAt" w id → row_has "usedAt" w' id).
(** What is withdrawn is revoked; what is redeemed was not used, and is. *)
Definition took (rq : invite_request) w w' : Prop :=
  match rq with
  | Withdraw id _ => row_has "revokedAt" w' id
  | Redeem id _ _ => ¬ row_has "usedAt" w id ∧ row_has "usedAt" w' id
  | _ => True
  end.
(** A revocation of what is revoked has nothing to do, nor one of what is not there. *)
Definition nothing_to_do w (rq : invite_request) : Prop :=
  match rq with Withdraw id _ => row_has "revokedAt" w id ∨ invite_rows w !! id = None | _ => False end.

Lemma row_has_same key w w' id : invite_rows w' = invite_rows w → row_has key w' id ↔ row_has key w id.
Proof. unfold row_has. by intros ->. Qed.
Lemma row_has_insert key w w' id d id' :
  invite_rows w' = <[id := d]> (invite_rows w) → (id = id' → row_has key w id' → is_Some (d !! key)) →
  row_has key w id' → row_has key w' id'.
Proof.
  intros Hw' Hd Hh. unfold row_has. rewrite Hw'. destruct (decide (id = id')) as [->|Hne].
  - exists d. rewrite lookup_insert_eq. auto.
  - destruct Hh as (d0 & H0 & H1). exists d0. by rewrite lookup_insert_ne.
Qed.
Lemma lasting_insert rq w w' id d d' :
  invite_rows w !! id = Some d → invite_rows w' = <[id := d']> (invite_rows w) →
  (is_Some (d !! "revokedAt") → is_Some (d' !! "revokedAt")) →
  (rq ≠ GiveBack id → is_Some (d !! "usedAt") → is_Some (d' !! "usedAt")) → lasting rq w w'.
Proof.
  intros Hd Hw' Hr Hu id'. split; [|split].
  - rewrite Hw'. intros H. apply lookup_insert_is_Some'. by right.
  - eapply row_has_insert; [exact Hw'|]. intros <- (d0 & H0 & H1). rewrite Hd in H0. injection H0 as <-. auto.
  - intros Hrq. eapply row_has_insert; [exact Hw'|]. intros <- (d0 & H0 & H1). rewrite Hd in H0. injection H0 as <-. auto.
Qed.
Lemma lasting_new rq w w' id d :
  invite_rows w !! id = None → invite_rows w' = <[id := d]> (invite_rows w) → lasting rq w w'.
Proof.
  intros Hd Hw' id'. split; [rewrite Hw'; intros H; apply lookup_insert_is_Some'; by right|].
  split; [|intros _]; (eapply row_has_insert; [exact Hw'|]; intros <- (d0 & H0 & _); by rewrite Hd in H0).
Qed.

(** *** Each request is one call of the in-memory store *)

(** Not done yet, done, or found to have nothing to do. *)
Inductive progress : Type := Pending | Made | Idle.
Abbreviation holder := (invite_request * progress)%type.
Definition rows_same w w' : Prop := invite_rows w' = invite_rows w.
(** A command leaves the rows alone, or does what the request comes down to, once. *)
Definition step_of w (g : holder) w' (g' : holder) : Prop :=
  g'.1 = g.1 ∧
  ((rows_same w w' ∧ g'.2 = g.2) ∨
   (rows_same w w' ∧ g.2 = Pending ∧ g'.2 = Idle ∧ nothing_to_do w g.1) ∨
   (g.2 = Pending ∧ g'.2 = Made ∧ well_dated w' ∧ lasting g.1 w w' ∧ took g.1 w w' ∧
    ∃ c, comes_to g.1 c ∧ does c (rows_of (invite_rows w)) (rows_of (invite_rows w')))).
(** What is answered without an error is done, or had nothing to do. *)
Definition told_ok (g : holder) (a : answer unit) : Prop :=
  a = Ok tt → g.2 = Made ∨ g.2 = Idle ∧ ∃ id now, g.1 = Withdraw id now.
Abbreviation keeps := (Threads.keeps (W := world) (Env := MongoEnv.t) (fun w (_ : holder) => well_dated w) step_of told_ok).
Implicit Types (g : holder).

Lemma keeps_done_err g e : keeps g (Done (Err e)).
Proof. by intros [=]. Qed.
Lemma keeps_command {A} (c : command A) (k : result (failure mongo_err) A → program) g :
  (∀ w, well_dated w → ∃ g', step_of w g ((execute w.1 c).1, w.2) g' ∧ keeps g' (k (lift (execute w.1 c).2)) ∧ keeps g' (k (Err Unavailable))) →
  keeps g (k (Err Unavailable)) → keeps g (mongo c k).
Proof.
  intros Hc Hk w env w' a Hw. cbn beta. unfold sends. destruct (Hc w Hw) as (g' & Hs & H1 & H2). destruct (execute w.1 c) as [db r].
  destruct (MongoEnv.backend env); intros [= <- <-]; [by exists g'| |by exists g']. exists g. split; [|done]. split; [done|]. by left.
Qed.
Lemma keeps_quiet {A} (c : command A) (k : result (failure mongo_err) A → program) g :
  looks c = true → (∀ r, keeps g (k r)) → keeps g (mongo c k).
Proof.
  intros Hc Hk. apply keeps_command; [|apply Hk]. intros w _. exists g. split; [|split; apply Hk]. split; [done|]. left. split; [|done].
  unfold rows_same, invite_rows. destruct (execute_spec w.1 c) as [Hp Ho]. cbn [fst].
  destruct (decide (collection_of c = "invites")) as [E|E]; [|by apply Ho]. rewrite <- E.
  destruct c; try done; cbn [permits collection_of] in *; by destruct Hp as [Hs _].
Qed.

(** The requests that update a row. *)
Lemma keeps_update rq id q us (f : doc → doc) (k : result (failure mongo_err) Z → program) :
  (∀ i d, matches q i d = true → i = id) →
  (∀ d, apply_updates false us d = Some (f d)) → (∀ d, dated d → dated (f d)) →
  (∀ t d, t !! id = Some d → dated d → matches q id d = true → ∃ c, comes_to rq c ∧ does c (rows_of t) (rows_of (<[id := f d]> t))) →
  (∀ w w' d, invite_rows w !! id = Some d → matches q id d = true → invite_rows w' = <[id := f d]> (invite_rows w) →
     lasting rq w w' ∧ took rq w w') →
  keeps (rq, Made) (k (Ok 1)) →
  (∀ w, (∀ d, invite_rows w !! id = Some d → matches q id d = false) →
     keeps (rq, Pending) (k (Ok 0)) ∨ nothing_to_do w rq ∧ keeps (rq, Idle) (k (Ok 0))) →
  (∀ g e, keeps g (k (Err e))) → keeps (rq, Pending) (mongo (UpdateOne "invites" q us false) k).
Proof.
  intros Hq Hf Hdt Hdo Hlast H1 H0 He. apply keeps_command; [|apply He]. intros w Hw. pose proof (update_by_id w.1 q us id Hq) as Hx.
  destruct (execute w.1 _) as [db r]. destruct Hx as [(d & d' & Hd & Hm & Ha & Hs & ->)|[Hs Hr]].
  - rewrite Hf in Ha. injection Ha as <-. exists (rq, Made). split; [|by split; [exact H1|apply He]]. split; [done|]. right. right.
    split; [done|]. split; [done|]. destruct (Hlast w (db, w.2) d Hd Hm Hs) as [Hl Ht]. unfold well_dated, invite_rows in *. cbn [fst].
    rewrite Hs. pose proof (map_Forall_lookup_1 _ _ _ _ Hw Hd) as Hdd.
    split; [apply map_Forall_insert_2; [by apply Hdt|done]|]. split; [exact Hl|]. split; [exact Ht|]. by apply Hdo.
  - assert (∀ p, keeps (rq, Pending) (k (lift p)) → ∃ g' : holder, step_of w (rq, Pending) (db, w.2) g' ∧ keeps g' (k (lift p)) ∧ keeps g' (k (Err Unavailable))) as Hp.
    { intros p Hp. exists (rq, Pending). split; [split; [done|]; left; by split|]. split; [done|apply He]. }
    destruct Hr as [[-> Hno]|[e ->]]; [|apply Hp, He]. destruct (H0 w Hno) as [Hk|[Hn Hk]]; [by apply Hp|].
    exists (rq, Idle). split; [split; [done|]; right; left; by split|]. split; [done|apply He].
Qed.

Lemma keeps_matched_or g id refusal n : (n = 0 → told_ok g refusal) → (n ≠ 0 → told_ok g (Ok tt)) →
  keeps g (matched_or "invites" id refusal n Done).
Proof.
  intros H0 H1. unfold matched_or. destruct (Z.eqb_spec n 0) as [E|E]; [|by apply H1].
  apply keeps_quiet; [done|]. intros [count|e]; [|apply keeps_done_err]. destruct (count =? 0); [apply keeps_done_err|by apply H0].
Qed.
Lemma keeps_returned {A} (c : command A) (k : A → program) g :
  keeps g (mongo c (fun r => match r with Err e => Done (Err (mapErr e)) | Ok a => k a end)) → keeps g (returns c Done k).
Proof. done. Qed.

Lemma keeps_mint i : keeps (Mint i, Pending) (serve_invite (Mint i)).
Proof.
  assert (∀ id, (Invite.ID i ≠ "" → id = Invite.ID i) →
    keeps (Mint i, Pending) (returns (InsertOne "invites" id (invite_doc i)) Done (fun _ => Done (Ok tt)))) as Hins.
  { intros id Hid. apply keeps_command; [|apply keeps_done_err]. intros w Hw.
    destruct (execute_spec w.1 (InsertOne "invites" id (invite_doc i))) as [Hp _]. destruct (execute w.1 _) as [db r].
    cbn [permits fst snd collection_of] in Hp. unfold insert_doc in Hp. case_bool_decide as Hn; cbn [andb] in Hp;
      [destruct (clashes _ _ id _); cbn [negb] in Hp|]; destruct Hp as [Hs ->].
    - exists (Mint i, Pending). split; [split; [done|]; left; by split|]. split; apply keeps_done_err.
    - exists (Mint i, Made). split; [|split; [by left|apply keeps_done_err]]. split; [done|]. right. right. split; [done|]. split; [done|].
      assert (lasting (Mint i) w (db, w.2)) as Hl by (by eapply lasting_new).
      unfold well_dated, invite_rows in *. cbn [fst]. rewrite Hs. split; [|split; [exact Hl|split; [done|]]].
      + apply map_Forall_insert_2; [apply dated_invite_doc|done].
      + eexists. split; [by exists id|]. by apply does_create.
    - exists (Mint i, Pending). split; [split; [done|]; left; by split|]. split; apply keeps_done_err. }
  unfold serve_invite, CreateInvite, with_id. case_bool_decide as E; [|by apply Hins]. intros w env w' id _ [= <- <-].
  exists (Mint i, Pending). split; [split; [done|]; left; by split|]. by apply (Hins (MongoEnv.fresh env)).
Qed.
Lemma keeps_redeem id uid now : keeps (Redeem id uid now, Pending) (serve_invite (Redeem id uid now)).
Proof.
  eapply keeps_update with (id := id) (f := fun d => <["usedBy" := BString uid]> (<["usedAt" := BTime now]> d)).
  - by intros i d [-> _]%matches_id.
  - done.
  - intros d Hd. apply dated_other; [set_solver|]. by apply dated_date.
  - intros t d Ht Hd Hm. eexists. split; [done|]. by apply does_consume.
  - intros w w' d Hd Hm Hw'. split.
    + eapply lasting_insert; [exact Hd|exact Hw'| |]; intros; by simplify_map_eq.
    + split; [|exists (<["usedBy" := BString uid]> (<["usedAt" := BTime now]> d)); rewrite Hw', lookup_insert_eq; by simplify_map_eq].
      intros (d0 & H0 & [v Hv]). rewrite Hd in H0. injection H0 as <-. apply matches_id in Hm as [_ Hm].
      cbn [matches meets] in Hm. change (field id d "usedAt") with (d !! "usedAt") in Hm. by rewrite Hv in Hm.
  - apply keeps_matched_or; [done|by left].
  - intros w _. left. by apply keeps_matched_or.
  - intros g e. apply keeps_done_err.
Qed.
Lemma keeps_withdraw id now : keeps (Withdraw id now, Pending) (serve_invite (Withdraw id now)).
Proof.
  eapply keeps_update with (id := id) (f := fun d => <["revokedAt" := BTime now]> d).
  - intros i d Hm. cbn [matches] in Hm. apply andb_true_iff in Hm as [[-> _]%matches_id _]. done.
  - done.
  - intros d Hd. by apply dated_date.
  - intros t d Ht Hd Hm. eexists. split; [done|]. apply does_revoke; [done|]. cbn [matches meets] in Hm. apply andb_true_iff in Hm as [_ Hm].
    change (field id d "revokedAt") with (d !! "revokedAt") in Hm. by destruct (d !! "revokedAt").
  - intros w w' d Hd Hm Hw'. split.
    + eapply lasting_insert; [exact Hd|exact Hw'| |]; intros; by simplify_map_eq.
    + exists (<["revokedAt" := BTime now]> d). rewrite Hw', lookup_insert_eq. by simplify_map_eq.
  - apply keeps_matched_or; [done|by left].
  - intros w Hno. right. split; [|apply keeps_matched_or; intros _ _; right; eauto].
    cbn. destruct (invite_rows w !! id) as [d|] eqn:Hd; [|by right]. left. exists d. split; [done|].
    specialize (Hno d eq_refl). unfold with_key, equals in Hno. cbn in Hno. rewrite bool_decide_true in Hno by done. cbn in Hno.
    change (field id d "revokedAt") with (d !! "revokedAt") in Hno. by destruct (d !! "revokedAt").
  - intros g e. apply keeps_done_err.
Qed.
Lemma keeps_give_back id : keeps (GiveBack id, Pending) (serve_invite (GiveBack id)).
Proof.
  eapply keeps_update with (id := id) (f := fun d => delete "usedBy" (delete "usedAt" d)).
  - by intros i d [-> _]%matches_id.
  - done.
  - intros d Hd. by apply dated_delete, dated_delete.
  - intros t d Ht Hd Hm. eexists. split; [done|]. by apply does_release.
  - intros w w' d Hd Hm Hw'. split; [|done]. eapply lasting_insert; [exact Hd|exact Hw'| |]; intros; by simplify_map_eq.
  - by left.
  - intros w _. left. apply keeps_done_err.
  - intros g e. apply keeps_done_err.
Qed.
Lemma keeps_invite rq : keeps (rq, Pending) (serve_invite rq).
Proof. destruct rq; auto using keeps_mint, keeps_redeem, keeps_withdraw, keeps_give_back. Qed.

(** *** The calls made so far *)

Lemma invite_run_snoc (m : Memory.t B) cs c :
  (invite_run m (cs ++ [c])).1 = (invite_step (invite_run m cs).1 c).1 ∧
  (invite_run m (cs ++ [c])).2 = (invite_run m cs).2 ++ [(invite_step (invite_run m cs).1 c).2].
Proof.
  revert m. induction cs as [|c' cs IH]; intros m; cbn [app invite_run].
  - cbn [fst snd]. by destruct (invite_step m c) as [m' ok].
  - destruct (invite_step m c') as [m1 ok1]. specialize (IH m1). destruct (invite_run m1 (cs ++ [c])) as [m2 oks].
    destruct (invite_run m1 cs) as [m3 oks']. cbn in *. by destruct IH as [-> ->].
Qed.

(** The calls a run of requests has made of the store [m], each by the request of its
    number, all of them successful, and what they have made of the invitations. *)
Record logged (m : Memory.t B) w (gs : list holder) (log : list (nat * invite_call)) : Prop := {
  logged_once : NoDup log.*1;
  logged_calls : ∀ i c, (i, c) ∈ log → ∃ rq, gs !! i = Some (rq, Made) ∧ comes_to rq c;
  logged_all : ∀ i rq, gs !! i = Some (rq, Made) → i ∈ log.*1;
  logged_rows : rows_of (invite_rows w) = Memory.invites (invite_run m log.*2).1;
  logged_ok : Forall (fun ok => ok = true) (invite_run m log.*2).2
}.

Lemma logged_same m w w' gs log : logged m w gs log → rows_same w w' → logged m w' gs log.
Proof. intros [H1 H2 H3 H4 H5] Hs. split; try done. by rewrite Hs. Qed.
(** A request that has nothing to do makes no call. *)
Lemma logged_idle m w gs log i rq : logged m w gs log → gs !! i = Some (rq, Pending) → logged m w (<[i := (rq, Idle)]> gs) log.
Proof.
  intros [L1 L2 L3 L4 L5] Hi. split; try done.
  - intros j c Hin. destruct (L2 _ _ Hin) as (rq' & Hj & Hc). exists rq'. split; [|done]. rewrite list_lookup_insert_ne; [done|].
    intros ->. congruence.
  - intros j rq' [(_ & [=] & _)|[_ Hj]]%list_lookup_insert_Some. by eapply L3.
Qed.
Lemma logged_call m w gs log i rq w' c : logged m w gs log → gs !! i = Some (rq, Pending) → comes_to rq c →
  does c (rows_of (invite_rows w)) (rows_of (invite_rows w')) → logged m w' (<[i := (rq, Made)]> gs) (log ++ [(i, c)]).
Proof.
  intros [L1 L2 L3 L4 L5] Hi Hc Hd. destruct (Hd _ (eq_sym L4)) as [Hr Hok].
  assert (i ∉ log.*1) as Hnew.
  { intros ([i' c'] & -> & Hin)%list_elem_of_fmap_1. destruct (L2 _ _ Hin) as (rq' & Hi' & _). cbn in Hi, Hi'. congruence. }
  pose proof (lookup_lt_Some _ _ _ Hi) as Hlen. split.
  - rewrite fmap_app. apply NoDup_app. split_and!; [done|by intros x Hx ->%list_elem_of_singleton|apply NoDup_singleton].
  - intros j c' [Hin|[= -> ->]%list_elem_of_singleton]%elem_of_app.
    + destruct (L2 _ _ Hin) as (rq' & Hj & Hcj). exists rq'. split; [|done]. rewrite list_lookup_insert_ne; [done|].
      intros ->. congruence.
    + exists rq. split; [|done]. by apply list_lookup_insert_eq.
  - intros j rq' [(-> & _ & _)|[_ Hj]]%list_lookup_insert_Some; rewrite fmap_app, elem_of_app; [right; by left|left; by eapply L3].
  - rewrite fmap_app. cbn [fmap list_fmap snd]. by rewrite (proj1 (invite_run_snoc _ _ _)).
  - rewrite fmap_app. cbn [fmap list_fmap snd]. rewrite (proj2 (invite_run_snoc _ _ _)). apply Forall_app. by rewrite Forall_singleton.
Qed.
Lemma logged_start w rqs : logged (memory_of w) w ((fun rq => (rq, Pending)) <$> rqs) [].
Proof.
  split; [constructor|by intros i c ?%not_elem_of_nil| |done|constructor].
  intros i rq Hi. apply list_lookup_fmap_Some in Hi as (rq' & [=] & _).
Qed.

(** What the requests have come to: who withdrew finds the invitation revoked, unless it
    was not there at first; and of those that redeem one that nobody gives back, one has
    done it, since when it is used. *)
Record settled w0 w (rqs : list invite_request) (gs : list holder) : Prop := {
  settled_there id : is_Some (invite_rows w0 !! id) → is_Some (invite_rows w !! id);
  settled_made i id now : gs !! i = Some (Withdraw id now, Made) → row_has "revokedAt" w id;
  settled_idle i id now : gs !! i = Some (Withdraw id now, Idle) → row_has "revokedAt" w id ∨ invite_rows w0 !! id = None;
  settled_used i id uid now : GiveBack id ∉ rqs → gs !! i = Some (Redeem id uid now, Made) → row_has "usedAt" w id;
  settled_once i j id uid now uid' now' : GiveBack id ∉ rqs →
    gs !! i = Some (Redeem id uid now, Made) → gs !! j = Some (Redeem id uid' now', Made) → i = j
}.

Lemma settled_same w0 w w' rqs gs : settled w0 w rqs gs → rows_same w w' → settled w0 w' rqs gs.
Proof. intros [H1 H2 H3 H4 H5] Hs. split; unfold row_has in *; rewrite ?Hs; eauto. Qed.
Lemma settled_idles w0 w rqs gs i rq : settled w0 w rqs gs → gs !! i = Some (rq, Pending) → nothing_to_do w rq →
  settled w0 w rqs (<[i := (rq, Idle)]> gs).
Proof.
  intros [H1 H2 H3 H4 H5] Hi Hn. split.
  - done.
  - intros k id now [(_ & [=] & _)|[_ Hk]]%list_lookup_insert_Some. eauto.
  - intros k id now [(_ & [= ->] & _)|[_ Hk]]%list_lookup_insert_Some; [|eauto].
    destruct Hn as [Hn|Hn]; [by left|right]. apply eq_None_not_Some. intros [d Hd]%H1. by rewrite Hn in Hd.
  - intros k id uid now Hg [(_ & [=] & _)|[_ Hk]]%list_lookup_insert_Some. eauto.
  - intros k j id uid now uid' now' Hg [(_ & [=] & _)|[_ Hk]]%list_lookup_insert_Some
      [(_ & [=] & _)|[_ Hj]]%list_lookup_insert_Some. eauto.
Qed.
Lemma settled_call w0 w w' rqs gs i rq : settled w0 w rqs gs → rq ∈ rqs → gs !! i = Some (rq, Pending) →
  lasting rq w w' → took rq w w' → settled w0 w' rqs (<[i := (rq, Made)]> gs).
Proof.
  intros [H1 H2 H3 H4 H5] Hrq Hi Hl Ht. split.
  - intros id H. by apply Hl, H1.
  - intros k id now [(_ & [= ->] & _)|[_ Hk]]%list_lookup_insert_Some; [exact Ht|]. by eapply Hl, H2.
  - intros k id now [(_ & [=] & _)|[_ Hk]]%list_lookup_insert_Some. destruct (H3 _ _ _ Hk); [left; by apply Hl|by right].
  - intros k id uid now Hg [(_ & [= ->] & _)|[_ Hk]]%list_lookup_insert_Some; [apply Ht|].
    apply Hl; [by intros ->|by eapply H4].
  - intros k j id uid now uid' now' Hg [(-> & [= ->] & _)|[_ Hk]]%list_lookup_insert_Some
      [(-> & E & _)|[_ Hj]]%list_lookup_insert_Some; [done|..|by eapply H5].
    + exfalso. by eapply Ht, H4.
    + injection E as ->. exfalso. by eapply Ht, H4.
Qed.

Definition run_so_far w0 (rqs : list invite_request) w (gs : list holder) : Prop :=
  well_dated w ∧ gs.*1 = rqs ∧ (∃ log, logged (memory_of w0) w gs log) ∧ settled w0 w rqs gs.

Lemma run_so_far_step w0 rqs w gs i g w' g' : run_so_far w0 rqs w gs → gs !! i = Some g → step_of w g w' g' →
  run_so_far w0 rqs w' (<[i := g']> gs).
Proof.
  intros (Hw & Hf & [log Hl] & Hs) Hi [H1 Hstep].
  assert ((<[i := g']> gs).*1 = rqs) as Hf'.
  { rewrite list_fmap_insert, list_insert_id; [done|]. apply list_lookup_fmap_Some. exists g. by rewrite H1. }
  destruct g as [rq p], g' as [rq' p']. cbn in H1, Hstep. subst rq'.
  assert (rq ∈ rqs) as Hrq.
  { rewrite <- Hf. eapply list_elem_of_lookup_2, list_lookup_fmap_Some. by exists (rq, p). }
  destruct Hstep as [[Hsame ->]|[(Hsame & -> & -> & Hn)|(-> & -> & Hw' & Hlast & Ht & c & Hc & Hd)]].
  - rewrite list_insert_id by done. split; [unfold well_dated; by rewrite Hsame|]. split; [done|].
    split; [exists log; by eapply logged_same|by eapply settled_same].
  - split; [unfold well_dated; by rewrite Hsame|]. split; [done|].
    split; [exists log; by eapply logged_same, Hsame; apply logged_idle|]. by eapply settled_same, Hsame; apply settled_idles.
  - split; [done|]. split; [done|]. split; [by eexists; eapply logged_call|by eapply settled_call].
Qed.
Lemma run_so_far_run w rqs w' ps : well_dated w → rtc (system_step rows_same) (w, serve_invite <$> rqs) (w', ps) →
  ∃ gs, run_so_far w rqs w' gs ∧ Forall2 keeps gs ps.
Proof.
  intros Hw Hr.
  apply (rely_guarantee (Env := MongoEnv.t) (R := answer unit) (run_so_far w rqs) (fun w1 _ => well_dated w1) step_of told_ok rows_same) with
    (s := (w, serve_invite <$> rqs)) (s' := (w', ps)) (gs := (fun rq => (rq, Pending)) <$> rqs).
  - by intros w1 gs i g [Hw1 _].
  - intros w1 gs i g w2 g'. apply run_so_far_step.
  - intros w1 gs w2 (Hw1 & Hf & [log Hl] & Hset) Hs. split; [unfold well_dated; by rewrite Hs|]. split; [done|].
    split; [exists log; by eapply logged_same|by eapply settled_same].
  - done.
  - split; [done|]. split; [|split; [exists []; apply logged_start|]].
    + rewrite <- list_fmap_compose. unfold compose. cbn. by rewrite list_fmap_id.
    + split; [done|..]; intros; by match goal with H : (_ <$> _) !! _ = Some _ |- _ => apply list_lookup_fmap_Some in H as (? & [=] & _) end.
  - apply Forall2_fmap, Forall_Forall2_diag, Forall_forall. intros rq _. apply keeps_invite.
Qed.
(** A request that was answered without an error. *)
Lemma answered_ok (rqs : list invite_request) (gs : list holder) (ps : list program) i rq :
  gs.*1 = rqs → Forall2 keeps gs ps → rqs !! i = Some rq → ps !! i = Some (Done (Ok tt)) →
  gs !! i = Some (rq, Made) ∨ gs !! i = Some (rq, Idle) ∧ ∃ id now, rq = Withdraw id now.
Proof.
  intros <- HF Hi Hd. apply list_lookup_fmap_Some in Hi as ([rq' p] & -> & Hg).
  destruct (Forall2_lookup_r _ _ _ _ _ HF Hd) as (g & Hg' & Hpost). pose proof (eq_trans (eq_sym Hg) Hg') as [= <-].
  destruct (Hpost eq_refl) as [E|[E Hw]]; cbn in E; subst p; [by left|right]. by split.
Qed.
End Invites.


(** C17. Over MongoDB, of the requests that redeem one invitation, whatever else is asked
    of the invitations meanwhile (others created, revoked, redeemed, released; this one
    revoked, or even created), at most one is answered without an error, unless the
    invitation itself is released. *)
Theorem mongo_invite_once {MD : Mongo unique_indexes} {B : Type} (w w' : mdb (Mongo := MD) * option B) rqs ps id i j uid uid' now now'
  (Hw : well_dated w) (Hrun : rtc (system_step rows_same) (w, serve_invite <$> rqs) (w', ps))
  (Hkept : GiveBack id ∉ rqs)
  (Hi : rqs !! i = Some (Redeem id uid now)) (Hj : rqs !! j = Some (Redeem id uid' now')) (Hij : i ≠ j)
  (Hdone : ps !! i = Some (Done (Ok tt))) :
  ps !! j ≠ Some (Done (Ok tt)).
Proof.
  intros Hdone'. destruct (run_so_far_run w rqs w' ps Hw Hrun) as (gs & (_ & Hf & _ & Hs) & HF).
  destruct (answered_ok _ _ _ _ _ Hf HF Hi Hdone) as [Hg|[_ (? & ? & [=])]].
  destruct (answered_ok _ _ _ _ _ Hf HF Hj Hdone') as [Hg'|[_ (? & ? & [=])]].
  apply Hij. by eapply (settled_once _ _ _ _ Hs).
Qed.

(** ** On a database in memory *)

#[local] Instance tables : Unicode := ascii_only.
#[local] Instance patterns : Regexps := {| found_in q s := Contains (ToLower s) (ToLower q) |}.
#[local] Instance subscriptions : PushJson := {| sub_endpoint s := Some s |}.
#[local] Instance here : Mongo unique_indexes := memory_mongo unique_indexes.
Abbreviation memory := (mdb (Mongo := here) * option BlobMemory.t)%type.
Definition met (backend : fault) : MongoEnv.t := MongoEnv.mk backend "" 0.
Definition works : MongoEnv.t := met Works.
Definition holding (c : string) (rows : list (string * doc)) : memory := ({[c := list_to_map rows]}, None).

Definition invitation : memory :=
  holding "invites" [("i1", invite_doc (Invite.mk "i1" "hash" "AB" "" "admin" unixEpoch None None "" None))].
Definition askers : list invite_request :=
  [Redeem "i1" "alice" unixEpoch; Redeem "i1" "bob" unixEpoch; Withdraw "i1" unixEpoch; Withdraw "i1" unixEpoch;
   Mint (Invite.mk "" "hash2" "CD" "" "admin" unixEpoch None None "" None)].
(** The answer of the first is that of the second command; the second sees the row spent,
    as the second revocation sees it revoked. *)
Definition asked := schedule invitation (serve_invite <$> askers)
  [(1, works); (0, works); (0, works); (2, works); (3, works); (3, works);
   (4, MongoEnv.mk Works "i2" 0%Z); (4, works)]%nat.

Lemma invitation_dated : well_dated invitation.
Proof. apply map_Forall_insert_2; [apply dated_invite_doc|]. apply map_Forall_empty. Qed.
Lemma asked_run : rtc (system_step rows_same) (invitation, serve_invite <$> askers) (asked.1, asked.2).
Proof. rewrite <- surjective_pairing. apply schedule_steps. Qed.


Theorem mongo_invite_once_witness :
  asked.2 !! 1%nat = Some (Done (Ok tt)) ∧ asked.2 !! 0%nat = Some (Done (Err (Known ErrInviteSpent))) ∧
  asked.2 !! 0%nat ≠ Some (Done (Ok tt)).
Proof.
  assert (asked.2 !! 1%nat = Some (Done (Ok tt))) as H1 by (vm_compute; reflexivity).
  split; [exact H1|]. split; [vm_compute; reflexivity|].
  eapply (mongo_invite_once invitation asked.1 askers asked.2 "i1" 1 0);
    [exact invitation_dated|exact asked_run| |reflexivity..|done|exact H1].
  unfold askers. rewrite !not_elem_of_cons. repeat (split; [discriminate|]). apply not_elem_of_nil.
Defined.

(** A revocation that finds no invitation, and, when it looks whether there is one, finds
    one just created: it is answered without an error, and nothing is revoked. *)
Example revoked_too_early :
  let s := schedule (holding "invites" [] : memory)
    (serve_invite <$> [Withdraw "i1" unixEpoch; Mint (Invite.mk "i1" "hash" "AB" "" "admin" unixEpoch None None "" None)])
    [(0, works); (1, works); (0, works)]%nat in
  s.2 = [Done (Ok tt); Done (Ok tt)] ∧ Invite.RevokedAt <$> rows_of (invite_rows s.1) !! "i1" = Some None.
Proof. by vm_compute. Qed.

Definition ran {X} (w : memory) (p : (X → prog memory MongoEnv.t X) → prog memory MongoEnv.t X) : X := (run (p Done) w [] works).2.

Definition post (id : string) (ms : Z) : string * doc :=
  (id, post_doc (Message.mk id "ch" "" "" [] ∅ true (unixEpoch + ms * 1000000))).
Definition wall : memory := holding "messages" [post "m1" 1; post "m2" 2; post "m3" 2].
Definition shown (r : answer (list Message.t)) : option (list string) :=
  match r with Ok l => Some (Message.ID <$> l) | Err _ => None end.

(** Two messages of one millisecond: the page after one of them begins behind the other,
    which no page of one message shows. *)
Example equal_times_skipped :
  let page cursor := shown (ran wall (MessagesByChannel "ch" cursor "" 1)) in
  page "" = Some ["m2"] ∧ page "m2" = Some ["m1"] ∧ page "m1" = Some [].
Proof. by vm_compute. Qed.

(** Half of a window of one message is none, which the driver takes for all: the whole
    channel. *)
Example window_of_one :
  length <$> shown (ran wall (MessagesAround "ch" "m1" 1)) = Some 3%nat.
Proof. by vm_compute. Qed.

(** Two accounts register one handset at the same time: the loser looks for the winner
    under its own account, finds nothing, and its registration fails. *)
Definition registers (id user : string) : prog memory MongoEnv.t (result (failure store_err) Device.t) :=
  CreateDevice (Device.mk id user "android" "token" "" "" "" false "" unixEpoch unixEpoch) Done.
Example racing_accounts :
  let s := schedule (holding "devices" []) [registers "d1" "alice"; registers "d2" "bob"]
    [(0, works); (1, works); (0, works); (1, works); (0, works); (1, works); (1, works)]%nat in
  (match s.2 !! 0%nat with Some (Done (Ok d)) => Some (Device.ID d) | _ => None end, s.2 !! 1%nat) = (Some "d1", Some (Done (Err Unavailable))).
Proof. by vm_compute. Qed.
