(* ===== verification/Redis.v ===== *)
(** * Over Redis: pending codes, call signals, idempotency keys, rate limits

    [otp/otp_redis.go], [calls/mailbox_redis.go], [idempotency/idempotency_redis.go]
    and [ratelimit/ratelimit_redis.go] of [api/internal], each method a program of the
    commands it sends; the server and its client are a class, with the commands these
    packages send, as its manual describes them. *)

From S2P Require Import Prelude.
From S2P Require Import GoStrings.
From S2P Require Import Strconv.
From S2P Require Import Domain.
From S2P Require Import Threads.
From S2P Require Import Otp.
From S2P Require Import Calls.
From S2P Require Import RateLimit.

(** ** Keys and commands *)

Inductive redis_value : Type :=
| RString (s : string)
| RHash (h : gmap string string)
| RList (l : list string).
(** A key, what it holds, and when it expires. *)
Abbreviation keyspace := (gmap string (redis_value * option time)).

(** [Nil] is the reply for a key that is not there. *)
Inductive redis_err : Type := Nil | WrongType | NotInteger.

(** An expiry given in whole milliseconds or in whole seconds; the client makes one of
    less. *)
Definition Millisecond : Z := 1000000.
Definition whole_millis (ttl : Z) : Z := if ttl <? Millisecond then Millisecond else Z.quot ttl Millisecond * Millisecond.
Definition whole_seconds (ttl : Z) : Z := if (0 <? ttl) && (ttl <? Second) then Second else Z.quot ttl Second * Second.

Inductive command : Type → Type :=
| Exists (key : string) : command Z
| Get (key : string) : command string
| SetNX (key value : string) (ttl : Z) : command bool
| Del (key : string) : command unit
| Expire (key : string) (ttl : Z) : command unit
| HSet (key : string) (fields : list (string * string)) : command unit
| HGetAll (key : string) : command (gmap string string)
| HMGet (key : string) (fields : list string) : command (list (option string))
| HIncrBy (key field : string) (n : Z) : command Z
| RPush (key value : string) : command Z
| LRange (key : string) (start : nat) : command (list string).

(** A script stops at the first command that fails. *)
Inductive script (A : Type) : Type :=
| Return (a : A)
| Throw (e : redis_err)
| Call {X : Type} (c : command X) (k : X → script A).
Arguments Return {A}. Arguments Throw {A}. Arguments Call {A X}.

(** One command, a transaction, or a script. *)
Inductive request : Type → Type :=
| One {A} (c : command A) : request A
| TxPipeline (cs : list (command unit)) : request unit
| Eval {A} (s : script A) : request A.

(** ** What the server does *)

(** The keys that are there at a time. *)
Definition live (now : time) (ks : keyspace) : keyspace :=
  filter (fun kv => match kv.2.2 with Some deadline => now <=? deadline | None => true end = true) ks.

Definition run_command {A} (now : time) (ks : keyspace) (c : command A) : keyspace * result redis_err A :=
  match c in command A return keyspace * result redis_err A with
  | Exists key => (ks, Ok (if bool_decide (is_Some (ks !! key)) then 1 else 0))
  | Get key => (ks, match ks !! key with None => Err Nil | Some (RString s, _) => Ok s | Some _ => Err WrongType end)
  | SetNX key value ttl =>
      match ks !! key with Some _ => (ks, Ok false) | None => (<[key := (RString value, if ttl =? 0 then None else Some (now + whole_millis ttl))]> ks, Ok true) end
  | Del key => (delete key ks, Ok tt)
  | Expire key ttl =>
      (if whole_seconds ttl <=? 0 then delete key ks
       else alter (fun v => (v.1, Some (now + whole_seconds ttl))) key ks, Ok tt)
  | HSet key fields =>
      match ks !! key with
      | None => (<[key := (RHash (list_to_map (rev fields)), None)]> ks, Ok tt)
      | Some (RHash h, d) => (<[key := (RHash (list_to_map (rev fields) ∪ h), d)]> ks, Ok tt)
      | Some _ => (ks, Err WrongType)
      end
  | HGetAll key => (ks, match ks !! key with None => Ok ∅ | Some (RHash h, _) => Ok h | Some _ => Err WrongType end)
  | HMGet key fields =>
      (ks, match ks !! key with
           | None => Ok ((fun _ => None) <$> fields)
           | Some (RHash h, _) => Ok ((fun f => h !! f) <$> fields)
           | Some _ => Err WrongType
           end)
  | HIncrBy key field n =>
      match ks !! key with
      | None => (<[key := (RHash {[field := FormatInt n]}, None)]> ks, Ok n)
      | Some (RHash h, d) =>
          match (match h !! field with None => Some 0 | Some s => ParseInt s end) with
          | Some z =>
              if (- two63 <=? z + n) && (z + n <? two63)
              then (<[key := (RHash (<[field := FormatInt (z + n)]> h), d)]> ks, Ok (z + n)) else (ks, Err NotInteger)
          | None => (ks, Err NotInteger)
          end
      | Some _ => (ks, Err WrongType)
      end
  | RPush key value =>
      match ks !! key with
      | None => (<[key := (RList [value], None)]> ks, Ok 1)
      | Some (RList l, d) => (<[key := (RList (l ++ [value]), d)]> ks, Ok (Z.of_nat (length l) + 1))
      | Some _ => (ks, Err WrongType)
      end
  | LRange key start =>
      (ks, match ks !! key with None => Ok [] | Some (RList l, _) => Ok (drop start l) | Some _ => Err WrongType end)
  end.

(** The commands of a transaction, with the first error. *)
Fixpoint run_all (now : time) (ks : keyspace) (cs : list (command unit)) : keyspace * result redis_err unit :=
  match cs with
  | [] => (ks, Ok tt)
  | c :: cs =>
      let '(ks, r) := run_command now ks c in
      let '(ks, r') := run_all now ks cs in (ks, match r with Err e => Err e | Ok _ => r' end)
  end.
Fixpoint run_script {A} (now : time) (ks : keyspace) (s : script A) : keyspace * result redis_err A :=
  match s with
  | Return a => (ks, Ok a)
  | Throw e => (ks, Err e)
  | Call c k => match run_command now ks c with (ks, Ok x) => run_script now ks (k x) | (ks, Err e) => (ks, Err e) end
  end.
Definition run_request {A} (now : time) (ks : keyspace) (q : request A) : keyspace * result redis_err A :=
  match q in request A return keyspace * result redis_err A with
  | One c => run_command now ks c
  | TxPipeline cs => run_all now ks cs
  | Eval s => run_script now ks s
  end.

(** The server at a time of its clock. *)
Class Redis := {
  rdb : Type;
  keys : rdb → keyspace;
  send {A} : rdb → time → request A → rdb * result redis_err A;
  send_runs {A} (w : rdb) (now : time) (q : request A) :
    (keys (send w now q).1, (send w now q).2) = run_request now (live now (keys w)) q
}.
(** In memory. *)
Definition memory_redis : Redis.
Proof. by refine {| rdb := keyspace; keys ks := ks; send A ks now q := run_request now (live now ks) q |}; intros; destruct run_request. Defined.

(** ** Calls *)

Module RedisEnv.
Record t := mk { backend : fault; clock : time }.
End RedisEnv.

(** What the keys of a package begin with: its [NewRedis]. *)
Definition named (default_ prefix : string) : string := if prefix == "" then default_ else prefix.
Definition NewCodes : string → string := named "pheme:otp".
Definition NewMailbox : string → string := named "pheme:call".
Definition NewKeys : string → string := named "idem:".

Section Calls.
Context {RD : Redis} {R : Type}.
Abbreviation handler := (prog rdb RedisEnv.t R).

Definition redis_op {A} (q : request A) (w : rdb) (env : RedisEnv.t) : rdb * result (failure redis_err) A :=
  let '(w', r) := send w (RedisEnv.clock env) q in
  match RedisEnv.backend env with
  | Works => (w', lift r)
  | NotDone => (w, Err Unavailable)
  | AnswerLost => (w', Err Unavailable)
  end.
Definition redis {A} (q : request A) (k : result (failure redis_err) A → handler) : handler := Act (redis_op q) k.
(** Errors other than the one a method looks for. *)
Definition failed {E X A} (f : A → X) (r : result (failure redis_err) A) : result (failure E) X :=
  match r with Ok a => Ok (f a) | Err _ => Err Unavailable end.

(** *** Pending codes *)

Section Codes.
Variable prefix : string.
Abbreviation code_answer X := (result (failure otp_err) X).

Definition signupKey (email : string) : string := String.append prefix (String.append ":signup:" email).
Definition resetKey (email : string) : string := String.append prefix (String.append ":reset:" email).
Definition cdKey (key : string) : string := String.append prefix (String.append ":cd:" key).

Definition put_hash (key : string) (fields : list (string * string)) (ttl : Z) (k : code_answer unit → handler) : handler :=
  do! r := redis (TxPipeline [Del key; HSet key fields; Expire key ttl]) in k (failed id r).
Definition signup_fields (s : Signup.t) : list (string * string) :=
  [("email", Signup.Email s); ("passwordHash", Signup.PasswordHash s); ("codeHash", Signup.CodeHash s);
   ("attempts", FormatInt (Signup.Attempts s)); ("inviteId", Signup.InviteID s)].
Definition PutSignup (s : Signup.t) (ttl : Z) (k : code_answer unit → handler) : handler :=
  put_hash (signupKey (Signup.Email s)) (signup_fields s) ttl k.

(** What a field decodes to; a text that is no number is 0, and the server keeps none out
    of range. *)
Definition text (h : gmap string string) (field : string) : string := default "" (h !! field).
Definition number (h : gmap string string) (field : string) : Z := default 0 (ParseInt (text h field)).
Definition get_hash {X} (key : string) (of_hash : gmap string string → X) (k : code_answer X → handler) : handler :=
  do! r := redis (One (HGetAll key)) in
  k (match r with Err _ => Err Unavailable | Ok h => if bool_decide (h = ∅) then Err (Known OtpNotFound) else Ok (of_hash h) end).
Definition signup_of (h : gmap string string) : Signup.t :=
  Signup.mk (text h "email") (text h "passwordHash") (text h "codeHash") (number h "attempts") (text h "inviteId").
Definition GetSignup (email : string) (k : code_answer Signup.t → handler) : handler := get_hash (signupKey email) signup_of k.

Definition incr_attempts (key : string) (k : code_answer Z → handler) : handler :=
  do! r := redis (One (Exists key)) in
  match r with
  | Err _ => k (Err Unavailable)
  | Ok n =>
      if n =? 0 then k (Err (Known OtpNotFound))
      else do! r := redis (One (HIncrBy key "attempts" 1)) in k (failed id r)
  end.
Definition IncrSignupAttempts (email : string) (k : code_answer Z → handler) : handler := incr_attempts (signupKey email) k.
Definition DelSignup (email : string) (k : code_answer unit → handler) : handler :=
  do! r := redis (One (Del (signupKey email))) in k (failed id r).

Definition reset_fields (rst : Reset_.t) : list (string * string) :=
  [("email", Reset_.Email rst); ("userId", Reset_.UserID rst); ("codeHash", Reset_.CodeHash rst);
   ("attempts", FormatInt (Reset_.Attempts rst))].
Definition PutReset (rst : Reset_.t) (ttl : Z) (k : code_answer unit → handler) : handler :=
  put_hash (resetKey (Reset_.Email rst)) (reset_fields rst) ttl k.
Definition reset_of (h : gmap string string) : Reset_.t :=
  Reset_.mk (text h "email") (text h "userId") (text h "codeHash") (number h "attempts").
Definition GetReset (email : string) (k : code_answer Reset_.t → handler) : handler := get_hash (resetKey email) reset_of k.
Definition IncrResetAttempts (email : string) (k : code_answer Z → handler) : handler := incr_attempts (resetKey email) k.
Definition DelReset (email : string) (k : code_answer unit → handler) : handler :=
  do! r := redis (One (Del (resetKey email))) in k (failed id r).
Definition CooldownOK (key : string) (ttl : Z) (k : code_answer bool → handler) : handler :=
  do! r := redis (One (SetNX (cdKey key) "1" ttl)) in k (failed id r).
End Codes.

(** *** The call mailbox *)

Section Mailbox.
Variable prefix : string.
Abbreviation mail_answer X := (result (failure redis_err) X).

Definition call_key (callID suffix : string) : string :=
  String.append prefix (String.append ":" (String.append callID suffix)).
Definition signalsKey (callID : string) : string := call_key callID ":sig".
Definition winnerKey (callID : string) : string := call_key callID ":win".

Definition appendSignal (key value : string) (ttl : Z) : script Z :=
  Call (RPush key value) (fun seq => Call (Expire key ttl) (fun _ => Return seq)).
Definition Append (callID : string) (ciphertext : bytes) (k : mail_answer Signal.t → handler) : handler :=
  do! r := redis (Eval (appendSignal (signalsKey callID) ciphertext TTL)) in
  k (failed (fun seq => Signal.mk seq ciphertext) r).
Fixpoint numbered (seq : Z) (blobs : list string) : list Signal.t :=
  match blobs with [] => [] | b :: blobs => Signal.mk (seq + 1) b :: numbered (seq + 1) blobs end.
Definition Since (callID : string) (seq : Z) (k : mail_answer (list Signal.t) → handler) : handler :=
  let seq := if seq <? 0 then 0 else seq in
  do! r := redis (One (LRange (signalsKey callID) (Z.to_nat seq))) in k (failed (numbered seq) r).
Definition Claim (callID deviceID : string) (k : mail_answer (string * bool) → handler) : handler :=
  do! r := redis (One (SetNX (winnerKey callID) deviceID TTL)) in
  match r with
  | Err _ => k (Err Unavailable)
  | Ok true => k (Ok (deviceID, true))
  | Ok false =>
      do! r := redis (One (Get (winnerKey callID))) in
      k (match r with
         | Ok winner => Ok (winner, winner == deviceID)
         | Err (Known Nil) => Ok ("", false)
         | Err _ => Err Unavailable
         end)
  end.
End Mailbox.

(** *** Idempotency keys *)

Definition Seen (prefix key : string) (window : Z) (k : result (failure redis_err) bool → handler) : handler :=
  do! r := redis (One (SetNX (String.append prefix key) "1" window)) in k (failed negb r).

(** *** Rate limits

    Numbers are texts in the server, which its scripts read and write without loss. *)
Section Limit.
Context (tonumber : string → option float64) (tostring : float64 → string).

(** The least integer above. *)
Definition math_ceil (x : float64) : Z := - ((- QArith_base.Qnum x) / Zpos (QArith_base.Qden x)).
Definition fmax (x y : float64) : float64 := if flt x y then y else x.
Definition redisTokenBucket (key : string) (rate capacity now requested : float64) : script Z :=
  Call (HMGet key ["tokens"; "ts"]) (fun data =>
  let field i := match data !! i with Some (Some s) => tonumber s | _ => None end in
  match (match field 0%nat, field 1%nat with
         | Some tokens, Some ts => Some (tokens, ts)
         | Some _, None => None
         | None, _ => Some (capacity, now)
         end) with
  | None => Throw NotInteger
  | Some (tokens, ts) =>
  let delta := fmax (of_int 0) (fsub now ts) in
  let tokens := fmin capacity (fadd tokens (fmul delta rate)) in
  let allowed := negb (flt tokens requested) in
  let tokens := if allowed then fsub tokens requested else tokens in
  Call (HSet key [("tokens", tostring tokens); ("ts", tostring now)]) (fun _ =>
  Call (Expire key ((math_ceil (fdiv capacity rate) + 1) * Second)) (fun _ => Return (if allowed then 1 else 0)))
  end).

(** [float64(time.Now().UnixNano()) / 1e9]; a failure allows the request. *)
Definition Allow (prefix key : string) (rate capacity : float64) (k : bool → handler) : handler :=
  Act (fun w env => (w, RedisEnv.clock env)) (fun now =>
  let now := fdiv (of_int (UnixNano now)) (of_int 1000000000) in
  do! r := redis (Eval (redisTokenBucket (String.append prefix (String.append ":" key)) rate capacity now (of_int 1))) in
  k (match r with Ok res => res =? 1 | Err _ => true end)).
End Limit.
End Calls.

(** ** The pending codes as the in-memory store keeps them *)

Inductive code_call : Type :=
| CallPutSignup (s : Signup.t) (ttl : Z) | CallGetSignup (email : string) | CallIncrSignup (email : string) | CallDelSignup (email : string)
| CallPutReset (r : Reset_.t) (ttl : Z) | CallGetReset (email : string) | CallIncrReset (email : string) | CallDelReset (email : string).
Inductive code_reply : Type := Stored | TheSignup (s : Signup.t) | TheReset (r : Reset_.t) | Tries (n : Z) | Missing | Failed.
Definition reply {X} (f : X → code_reply) (r : result (failure otp_err) X) : code_reply :=
  match r with Ok x => f x | Err (Known OtpNotFound) => Missing | Err Unavailable => Failed end.
Definition plain {X} (f : X → code_reply) (r : result otp_err X) : code_reply := match r with Ok x => f x | Err OtpNotFound => Missing end.

Definition memory_call (m : OtpMemory.t) (now : time) (c : code_call) : OtpMemory.t * code_reply :=
  match c with
  | CallPutSignup s ttl => (OtpMemory.PutSignup m now s ttl, Stored)
  | CallGetSignup e => let '(m, r) := OtpMemory.GetSignup m now e in (m, plain TheSignup r)
  | CallIncrSignup e => let '(m, r) := OtpMemory.IncrSignupAttempts m now e in (m, plain Tries r)
  | CallDelSignup e => (OtpMemory.DelSignup m e, Stored)
  | CallPutReset r ttl => (OtpMemory.PutReset m now r ttl, Stored)
  | CallGetReset e => let '(m, r) := OtpMemory.GetReset m now e in (m, plain TheReset r)
  | CallIncrReset e => let '(m, r) := OtpMemory.IncrResetAttempts m now e in (m, plain Tries r)
  | CallDelReset e => (OtpMemory.DelReset m e, Stored)
  end.
Definition redis_call {RD : Redis} (prefix : string) (c : code_call) : prog rdb RedisEnv.t code_reply :=
  let stored := reply (fun _ : unit => Stored) in
  match c with
  | CallPutSignup s ttl => PutSignup prefix s ttl (fun r => Done (stored r))
  | CallGetSignup e => GetSignup prefix e (fun r => Done (reply TheSignup r))
  | CallIncrSignup e => IncrSignupAttempts prefix e (fun r => Done (reply Tries r))
  | CallDelSignup e => DelSignup prefix e (fun r => Done (stored r))
  | CallPutReset rst ttl => PutReset prefix rst ttl (fun r => Done (stored r))
  | CallGetReset e => GetReset prefix e (fun r => Done (reply TheReset r))
  | CallIncrReset e => IncrResetAttempts prefix e (fun r => Done (reply Tries r))
  | CallDelReset e => DelReset prefix e (fun r => Done (stored r))
  end.

(** Calls one after the other, each at its times: that of the first request to
    Redis, and that of a second. In memory a call is one step, at the first. *)
Module TimedCall.
Record t := mk { first : time; second : time; call : code_call }.
End TimedCall.

Fixpoint memory_replies (m : OtpMemory.t) (calls : list TimedCall.t) : list code_reply :=
  match calls with
  | [] => []
  | c :: calls => let '(m, a) := memory_call m (TimedCall.first c) (TimedCall.call c) in a :: memory_replies m calls
  end.
Fixpoint redis_replies {RD : Redis} (prefix : string) (w : rdb) (calls : list TimedCall.t) : list code_reply :=
  match calls with
  | [] => []
  | c :: calls =>
      let '(w, a) := run (redis_call prefix (TimedCall.call c)) w [RedisEnv.mk Works (TimedCall.first c)]
                       (RedisEnv.mk Works (TimedCall.second c)) in
      a :: redis_replies prefix w calls
  end.

(** A wrong answer is counted in two requests: the code it is counted on expires
    between them. *)
Definition lapses (m : OtpMemory.t) (c : TimedCall.t) : bool :=
  match TimedCall.call c with
  | CallIncrSignup e =>
      match OtpMemory.live_signup m (TimedCall.first c) e with
      | Some s => signupEntry.expires s <? TimedCall.second c
      | None => false
      end
  | CallIncrReset e =>
      match OtpMemory.live_reset m (TimedCall.first c) e with
      | Some r => resetEntry.expires r <? TimedCall.second c
      | None => false
      end
  | _ => false
  end.
Fixpoint some_lapse (m : OtpMemory.t) (calls : list TimedCall.t) : bool :=
  match calls with
  | [] => false
  | c :: calls => lapses m c || some_lapse (memory_call m (TimedCall.first c) (TimedCall.call c)).1 calls
  end.

(** An entry is new when it is stored, for some whole seconds. *)
Definition proper (c : code_call) : Prop :=
  match c with
  | CallPutSignup s ttl => Signup.Attempts s = 0 ∧ 0 < ttl ∧ ttl mod Second = 0
  | CallPutReset r ttl => Reset_.Attempts r = 0 ∧ 0 < ttl ∧ ttl mod Second = 0
  | _ => True
  end.

(** *** Lemmas: keys and times *)

Definition still_there (now : time) (o : option (redis_value * option time)) : option (redis_value * option time) :=
  match o with Some (v, Some d) => if now <=? d then o else None | _ => o end.
Lemma lookup_live now (ks : keyspace) key : live now ks !! key = still_there now (ks !! key).
Proof.
  unfold live. destruct (ks !! key) as [[v d]|] eqn:E; [|apply map_lookup_filter_None; by left].
  assert (Hv : still_there now (Some (v, d)) = if (match d with Some deadline => now <=? deadline | None => true end) then Some (v, d) else None)
    by (by destruct d).
  rewrite Hv. destruct (match d with Some deadline => now <=? deadline | None => true end) eqn:Hd.
  - by apply map_lookup_filter_Some.
  - apply map_lookup_filter_None. right. intros x Hx. rewrite E in Hx. injection Hx as <-. cbn. by destruct d as [d|]; [intros ?; congruence|].
Qed.
Lemma live_live now now' (ks : keyspace) : now ≤ now' → live now' (live now ks) = live now' ks.
Proof.
  intros Hn. apply map_eq. intros key. rewrite !lookup_live. destruct (ks !! key) as [[v [d|]]|]; [|done..]. cbn.
  destruct (Z.leb_spec now d); [done|]. by rewrite (proj2 (Z.leb_gt _ _)) by lia.
Qed.

Lemma append_inv_l p s t : String.append p s = String.append p t → s = t.
Proof. induction p as [|c p IH]; cbn; [done|]. intros [= H]. by apply IH. Qed.
Lemma signupKey_inj prefix e e' : signupKey prefix e = signupKey prefix e' → e = e'.
Proof. intros H%append_inv_l. by apply (append_inv_l ":signup:"). Qed.
Lemma resetKey_inj prefix e e' : resetKey prefix e = resetKey prefix e' → e = e'.
Proof. intros H%append_inv_l. by apply (append_inv_l ":reset:"). Qed.
Lemma signup_reset prefix e e' : signupKey prefix e ≠ resetKey prefix e'.
Proof. by intros H%append_inv_l. Qed.

Lemma whole_seconds_id ttl : 0 < ttl → ttl mod Second = 0 → whole_seconds ttl = ttl.
Proof.
  intros Hp Hm. unfold whole_seconds. pose proof (Z.div_mod ttl Second ltac:(done)) as Hd.
  rewrite Z.quot_div_nonneg by (unfold Second; lia).
  destruct (Z.ltb_spec ttl Second); [|rewrite andb_false_r; lia].
  rewrite Z.mod_small in Hm by lia. lia.
Qed.

(** *** Lemmas: calls that reach a backend that works *)

#[local] Arguments live : simpl never.

Section Calls_lemmas.
Context {RD : Redis} {R : Type}.

Lemma run_redis {A} (q : request A) (k : result (failure redis_err) A → prog rdb RedisEnv.t R) w now envs last :
  match envs with e :: _ => e | [] => last end = RedisEnv.mk Works now →
  ∃ w', keys w' = (run_request now (live now (keys w)) q).1 ∧
        run (redis q k) w envs last = run (k (lift (run_request now (live now (keys w)) q).2)) w' (tail envs) last.
Proof.
  intros He. exists (send w now q).1. rewrite <-(send_runs w now q). split; [done|].
  unfold redis, redis_op. cbn [run]. rewrite He. cbn [RedisEnv.clock RedisEnv.backend]. by destruct (send w now q).
Qed.
End Calls_lemmas.
Ltac request_at q k w now envs last Hw :=
  let w' := fresh "w'" in let Hr := fresh in
  destruct (run_redis q k w now envs last eq_refl) as (w' & Hw & Hr); rewrite Hr; clear Hr;
  cbn [run_request run_all run_command tail] in Hw |- *.
Ltac request Hw :=
  match goal with
  | |- context [run (redis ?q ?k) ?w (RedisEnv.mk Works ?now :: ?envs) ?last] =>
      request_at q k w now (RedisEnv.mk Works now :: envs) last Hw
  | |- context [run (redis ?q ?k) ?w [] (RedisEnv.mk Works ?now)] =>
      request_at q k w now (@nil RedisEnv.t) (RedisEnv.mk Works now) Hw
  end.

(** A kind of entry: its fields, and the wrong answers counted on it. *)
Section Hashes.
Context {RD : Redis} {R : Type}.
Context {X : Type} (fields : X → list (string * string)) (of_hash : gmap string string → X) (attempts : X → Z) (bump : X → Z → X).
Abbreviation hash x := (list_to_map (rev (fields x)) : gmap string string).
Hypothesis of_hash_fields : ∀ x, - two63 < attempts x < two63 → of_hash (hash x) = x.
Hypothesis hash_attempts : ∀ x, hash x !! "attempts" = Some (FormatInt (attempts x)).
Hypothesis hash_bump : ∀ x, <["attempts" := FormatInt (attempts x + 1)]> (hash x) = hash (bump x (attempts x + 1)).

Definition stands (n : Z) (ks : keyspace) (key : string) (o : option (X * time)) : Prop :=
  match o with
  | Some (x, d) => ks !! key = Some (RHash (hash x), Some d) ∧ 0 ≤ attempts x ≤ n
  | None => ks !! key = None
  end.

Lemma put_hash_works key x ttl (k : result (failure otp_err) unit → prog rdb RedisEnv.t R) w now last : 0 < ttl → ttl mod Second = 0 →
  ∃ w', keys w' = <[key := (RHash (hash x), Some (now + ttl))]> (live now (keys w)) ∧
        run (put_hash key (fields x) ttl k) w [RedisEnv.mk Works now] last = run (k (Ok tt)) w' [] last.
Proof.
  intros Hp Hm. unfold put_hash. request Hw.
  rewrite lookup_delete_eq, whole_seconds_id, (proj2 (Z.leb_gt _ _)) in * by done. cbn [fst snd lift failed] in *.
  eexists. split; [|done]. by rewrite Hw, alter_insert_eq, insert_delete_eq.
Qed.

Lemma get_hash_works key o n (k : result (failure otp_err) X → prog rdb RedisEnv.t R) w now last : n < two63 → stands n (live now (keys w)) key o →
  ∃ w', keys w' = live now (keys w) ∧
        run (get_hash key of_hash k) w [RedisEnv.mk Works now] last =
        run (k (match o with Some (x, _) => Ok x | None => Err (Known OtpNotFound) end)) w' [] last.
Proof.
  intros Hn Ho. unfold get_hash. request Hw. exists w'. split; [done|].
  destruct o as [[x d]|]; [destruct Ho as [Hk Ha]|cbn in Ho; rename Ho into Hk]; rewrite Hk; cbn [lift snd]; [|by rewrite bool_decide_true].
  rewrite bool_decide_false, of_hash_fields by (unfold two63 in *; lia || (intros E; pose proof (hash_attempts x) as H; by rewrite E, lookup_empty in H)).
  done.
Qed.

Lemma incr_works key o n (k : result (failure otp_err) Z → prog rdb RedisEnv.t R) w now later : n + 1 < two63 → now ≤ later →
  (∀ x d, o = Some (x, d) → later ≤ d) → stands n (live now (keys w)) key o →
  ∃ w', keys w' = match o with
                  | Some (x, d) => <[key := (RHash (hash (bump x (attempts x + 1))), Some d)]> (live later (keys w))
                  | None => live now (keys w)
                  end ∧
        run (incr_attempts key k) w [RedisEnv.mk Works now] (RedisEnv.mk Works later) =
        run (k (match o with Some (x, _) => Ok (attempts x + 1) | None => Err (Known OtpNotFound) end)) w' [] (RedisEnv.mk Works later).
Proof.
  intros Hn Hnow Hd Ho. unfold incr_attempts. request Hw. cbn [fst snd lift] in *.
  destruct o as [[x d]|]; [destruct Ho as [Hk Ha]|cbn in Ho; rewrite bool_decide_false by (by rewrite Ho; intros [? [=]]); by exists w'].
  specialize (Hd x d eq_refl).
  assert (live later (keys w) !! key = live now (keys w) !! key) as Hl.
  { rewrite <-(live_live now later (keys w)), lookup_live by done. rewrite Hk. cbn. by rewrite (proj2 (Z.leb_le _ _)). }
  rewrite bool_decide_true by (by rewrite Hk). cbn [Z.eqb]. request Hw'. rewrite Hw, live_live, Hl, Hk in Hw' |- * by done. cbn in Hw' |- *.
  rewrite hash_attempts, ParseInt_FormatInt in * by (unfold two63 in *; lia).
  rewrite (proj2 (Z.leb_le _ _)), (proj2 (Z.ltb_lt _ _)) in * by (unfold two63 in *; lia). cbn [andb fst snd lift failed] in *.
  eexists. split; [|done]. by rewrite Hw', hash_bump.
Qed.
End Hashes.

(** ** The in-memory store and this one

    In [stands], a hash under [key] is the entry [o] of the in-memory store: what it
    holds, the wrong answers counted (at most [n]), and when it expires. *)
Section Codes_lemmas.
Context {RD : Redis} (prefix : string).

Definition signup_at (m : OtpMemory.t) (now : time) (email : string) : option (Signup.t * time) :=
  (fun e => (signupEntry.signup e, signupEntry.expires e)) <$> OtpMemory.live_signup m now email.
Definition reset_at (m : OtpMemory.t) (now : time) (email : string) : option (Reset_.t * time) :=
  (fun e => (resetEntry.reset e, resetEntry.expires e)) <$> OtpMemory.live_reset m now email.
Record sim (m : OtpMemory.t) (ks : keyspace) (now : time) (n : Z) : Prop := {
  sim_signup email : stands signup_fields Signup.Attempts n (live now ks) (signupKey prefix email) (signup_at m now email);
  sim_reset email : stands reset_fields Reset_.Attempts n (live now ks) (resetKey prefix email) (reset_at m now email)
}.

(** Time passes, and more answers may be counted. *)
Definition unexpired {X} (now : time) (o : option (X * time)) : option (X * time) :=
  match o with Some (x, d) => if now <=? d then Some (x, d) else None | None => None end.
Lemma stands_later {X} (fields : X → list (string * string)) attempts n n' ks key (o : option (X * time)) now now' :
  n ≤ n' → now ≤ now' →
  stands fields attempts n (live now ks) key o → stands fields attempts n' (live now' ks) key (unexpired now' o).
Proof.
  intros Hn Hnow. rewrite <-(live_live now now' ks Hnow). unfold unexpired. destruct o as [[x d]|]; cbn.
  - intros [Hk Ha]. destruct (now' <=? d) eqn:Hd; cbn; rewrite lookup_live, Hk; cbn; rewrite Hd; [|done]. split; [done|lia].
  - intros Hk. by rewrite lookup_live, Hk.
Qed.
Lemma signup_at_unexpired m now now' email : now ≤ now' → signup_at m now' email = unexpired now' (signup_at m now email).
Proof.
  intros Hn. unfold signup_at, OtpMemory.live_signup, After. destruct (OtpMemory.signups m !! email) as [[s d]|]; [|done].
  cbn. destruct (Z.ltb_spec d now), (Z.ltb_spec d now'); cbn; [done|lia| |].
  - by rewrite (proj2 (Z.leb_gt _ _)).
  - by rewrite (proj2 (Z.leb_le _ _)).
Qed.
Lemma reset_at_unexpired m now now' email : now ≤ now' → reset_at m now' email = unexpired now' (reset_at m now email).
Proof.
  intros Hn. unfold reset_at, OtpMemory.live_reset, After. destruct (OtpMemory.resets m !! email) as [[s d]|]; [|done].
  cbn. destruct (Z.ltb_spec d now), (Z.ltb_spec d now'); cbn; [done|lia| |].
  - by rewrite (proj2 (Z.leb_gt _ _)).
  - by rewrite (proj2 (Z.leb_le _ _)).
Qed.
Lemma sim_later m ks now now' n n' : n ≤ n' → now ≤ now' → sim m ks now n → sim m ks now' n'.
Proof.
  intros Hn Hnow [Hs Hr]. split; intros email.
  - rewrite (signup_at_unexpired m now) by done. by eapply stands_later.
  - rewrite (reset_at_unexpired m now) by done. by eapply stands_later.
Qed.
Lemma sim_live m ks now n : sim m (live now ks) now n ↔ sim m ks now n.
Proof. split; intros [Hs Hr]; split; intros email; specialize (Hs email); specialize (Hr email); by rewrite live_live in *. Qed.

(** One key changes, for one email. *)
Lemma stands_key {X} (fields : X → list (string * string)) attempts n ks ks' key (o : option (X * time)) :
  ks' !! key = ks !! key → stands fields attempts n ks key o → stands fields attempts n ks' key o.
Proof. intros Hk. unfold stands. destruct o as [[x d]|]; by rewrite Hk. Qed.

Lemma sim_signup_update m m' ks ks' now n email :
  sim m ks now n → (∀ key, key ≠ signupKey prefix email → live now ks' !! key = live now ks !! key) →
  OtpMemory.resets m' = OtpMemory.resets m →
  (∀ e, e ≠ email → OtpMemory.signups m' !! e = OtpMemory.signups m !! e) →
  stands signup_fields Signup.Attempts n (live now ks') (signupKey prefix email) (signup_at m' now email) →
  sim m' ks' now n.
Proof.
  intros [Hs Hr] Hks Hm Hm' He. split; intros e.
  - destruct (decide (e = email)) as [->|Hne]; [done|].
    eapply stands_key; [by apply Hks; intros ?%signupKey_inj|].
    unfold signup_at, OtpMemory.live_signup. rewrite Hm' by done. apply Hs.
  - eapply stands_key; [by apply Hks; intros ?%eq_sym%signup_reset|].
    unfold reset_at, OtpMemory.live_reset. rewrite Hm. apply Hr.
Qed.
Lemma sim_reset_update m m' ks ks' now n email :
  sim m ks now n → (∀ key, key ≠ resetKey prefix email → live now ks' !! key = live now ks !! key) →
  OtpMemory.signups m' = OtpMemory.signups m →
  (∀ e, e ≠ email → OtpMemory.resets m' !! e = OtpMemory.resets m !! e) →
  stands reset_fields Reset_.Attempts n (live now ks') (resetKey prefix email) (reset_at m' now email) →
  sim m' ks' now n.
Proof.
  intros [Hs Hr] Hks Hm Hm' He. split; intros e.
  - eapply stands_key; [by apply Hks, signup_reset|].
    unfold signup_at, OtpMemory.live_signup. rewrite Hm. apply Hs.
  - destruct (decide (e = email)) as [->|Hne]; [done|].
    eapply stands_key; [by apply Hks; intros ?%resetKey_inj|].
    unfold reset_at, OtpMemory.live_reset. rewrite Hm' by done. apply Hr.
Qed.

(** The two kinds. *)
Lemma signup_of_fields s : - two63 < Signup.Attempts s < two63 → signup_of (list_to_map (rev (signup_fields s))) = s.
Proof.
  intros Ha. destruct s as [e p c a i]. unfold signup_of, number, text. cbn in *.
  by simplify_map_eq; rewrite ParseInt_FormatInt.
Qed.
Lemma reset_of_fields r : - two63 < Reset_.Attempts r < two63 → reset_of (list_to_map (rev (reset_fields r))) = r.
Proof.
  intros Ha. destruct r as [e u c a]. unfold reset_of, number, text. cbn in *.
  by simplify_map_eq; rewrite ParseInt_FormatInt.
Qed.
Lemma signup_attempts s : (list_to_map (rev (signup_fields s)) : gmap string string) !! "attempts" = Some (FormatInt (Signup.Attempts s)).
Proof. cbn. by simplify_map_eq. Qed.
Lemma reset_attempts r : (list_to_map (rev (reset_fields r)) : gmap string string) !! "attempts" = Some (FormatInt (Reset_.Attempts r)).
Proof. cbn. by simplify_map_eq. Qed.
Lemma signup_bump s : <["attempts" := FormatInt (Signup.Attempts s + 1)]> (list_to_map (rev (signup_fields s)) : gmap string string) =
  list_to_map (rev (signup_fields (s <| Signup.Attempts := Signup.Attempts s + 1 |>))).
Proof. cbn. rewrite (insert_insert_ne _ "attempts" "inviteId") by done. by rewrite insert_insert_eq. Qed.
Lemma reset_bump r : <["attempts" := FormatInt (Reset_.Attempts r + 1)]> (list_to_map (rev (reset_fields r)) : gmap string string) =
  list_to_map (rev (reset_fields (r <| Reset_.Attempts := Reset_.Attempts r + 1 |>))).
Proof. cbn. by rewrite insert_insert_eq. Qed.

Lemma live_insert now (ks : keyspace) key v d : now ≤ d → live now (<[key := (v, Some d)]> (live now ks)) = <[key := (v, Some d)]> (live now ks).
Proof.
  intros Hd. apply map_eq. intros k. rewrite lookup_live. destruct (decide (k = key)) as [->|Hne].
  - rewrite lookup_insert_eq. cbn. by rewrite (proj2 (Z.leb_le _ _)).
  - rewrite lookup_insert_ne by done. by rewrite <-lookup_live, live_live.
Qed.
Lemma live_delete now (ks : keyspace) key : live now (delete key (live now ks)) = delete key (live now ks).
Proof.
  apply map_eq. intros k. rewrite lookup_live. destruct (decide (k = key)) as [->|Hne]; [by rewrite lookup_delete_eq|].
  rewrite lookup_delete_ne by done. by rewrite <-lookup_live, live_live.
Qed.
Lemma live_signup_at m now email : OtpMemory.live_signup m now email = (fun p => signupEntry.mk p.1 p.2) <$> signup_at m now email.
Proof. unfold signup_at. by destruct OtpMemory.live_signup as [[]|]. Qed.
Lemma live_reset_at m now email : OtpMemory.live_reset m now email = (fun p => resetEntry.mk p.1 p.2) <$> reset_at m now email.
Proof. unfold reset_at. by destruct OtpMemory.live_reset as [[]|]. Qed.
Lemma signup_at_not_expired m now email s d : signup_at m now email = Some (s, d) → now ≤ d.
Proof.
  unfold signup_at, OtpMemory.live_signup, After. destruct (OtpMemory.signups m !! email) as [[? ?]|]; [|done].
  cbn. destruct (Z.ltb_spec expires now); cbn; [done|]. intros [= _ <-]. done.
Qed.
Lemma reset_at_not_expired m now email s d : reset_at m now email = Some (s, d) → now ≤ d.
Proof.
  unfold reset_at, OtpMemory.live_reset, After. destruct (OtpMemory.resets m !! email) as [[? ?]|]; [|done].
  cbn. destruct (Z.ltb_spec expires now); cbn; [done|]. intros [= _ <-]. done.
Qed.

(** *** Each call keeps the stores in step *)

(** What a call on Redis does; [at_] is when its last request is over. *)
Definition answers (c : code_call) (m : OtpMemory.t) (w : rdb) (now later at_ : time) (n : Z) : Prop :=
  ∃ w', run (redis_call prefix c) w [RedisEnv.mk Works now] (RedisEnv.mk Works later) = (w', (memory_call m now c).2) ∧
        sim (memory_call m now c).1 (keys w') at_ n.

Lemma put_signup_step m w now later n s ttl : 0 ≤ n → proper (CallPutSignup s ttl) →
  sim m (keys w) now n → answers (CallPutSignup s ttl) m w now later now n.
Proof.
  intros Hn (Ha & Hp & Hm) HS. unfold answers. cbn [memory_call redis_call fst snd]. unfold PutSignup.
  edestruct (put_hash_works (R := code_reply) signup_fields (signupKey prefix (Signup.Email s)) s ttl) as (w' & Hk & ->); [done..|]. eexists. split; [done|].
  apply (sim_signup_update m _ (keys w) _ _ _ (Signup.Email s)); rewrite ?Hk, ?live_insert by lia; cbn; [done| |done| |].
  - intros key Hne. by rewrite lookup_insert_ne.
  - intros e He. by rewrite lookup_insert_ne.
  - unfold signup_at. rewrite live_signup_PutSignup. unfold After. rewrite (proj2 (Z.ltb_ge _ _)) by lia. cbn.
    rewrite lookup_insert_eq. split; [done|lia].
Qed.
Lemma put_reset_step m w now later n r ttl : 0 ≤ n → proper (CallPutReset r ttl) →
  sim m (keys w) now n → answers (CallPutReset r ttl) m w now later now n.
Proof.
  intros Hn (Ha & Hp & Hm) HS. unfold answers. cbn [memory_call redis_call fst snd]. unfold PutReset.
  edestruct (put_hash_works (R := code_reply) reset_fields (resetKey prefix (Reset_.Email r)) r ttl) as (w' & Hk & ->); [done..|]. eexists. split; [done|].
  apply (sim_reset_update m _ (keys w) _ _ _ (Reset_.Email r)); rewrite ?Hk, ?live_insert by lia; cbn; [done| |done| |].
  - intros key Hne. by rewrite lookup_insert_ne.
  - intros e He. by rewrite lookup_insert_ne.
  - unfold reset_at, OtpMemory.live_reset. cbn. rewrite lookup_insert_eq. unfold After. cbn. rewrite (proj2 (Z.ltb_ge _ _)) by lia. cbn.
    rewrite lookup_insert_eq. split; [done|lia].
Qed.

Lemma delete_signup_sim m ks now n email : sim m ks now n →
  sim (m <| OtpMemory.signups := delete email (OtpMemory.signups m) |>) (delete (signupKey prefix email) (live now ks)) now n.
Proof.
  intros HS. apply (sim_signup_update m _ ks _ _ _ email); rewrite ?live_delete; cbn; [done| |done| |].
  - intros key Hne. by rewrite lookup_delete_ne.
  - intros e He. by rewrite lookup_delete_ne.
  - unfold signup_at, OtpMemory.live_signup. cbn. rewrite lookup_delete_eq. cbn. by rewrite lookup_delete_eq.
Qed.
Lemma delete_reset_sim m ks now n email : sim m ks now n →
  sim (m <| OtpMemory.resets := delete email (OtpMemory.resets m) |>) (delete (resetKey prefix email) (live now ks)) now n.
Proof.
  intros HS. apply (sim_reset_update m _ ks _ _ _ email); rewrite ?live_delete; cbn; [done| |done| |].
  - intros key Hne. by rewrite lookup_delete_ne.
  - intros e He. by rewrite lookup_delete_ne.
  - unfold reset_at, OtpMemory.live_reset. cbn. rewrite lookup_delete_eq. cbn. by rewrite lookup_delete_eq.
Qed.
(** Forgetting an entry that has expired changes nothing. *)
Lemma missing_signup_sim m ks now n email : sim m ks now n → signup_at m now email = None →
  sim (m <| OtpMemory.signups := delete email (OtpMemory.signups m) |>) (live now ks) now n.
Proof.
  intros HS Hm. pose proof (sim_signup _ _ _ _ HS email) as Hk. rewrite Hm in Hk. cbn in Hk.
  rewrite <-(delete_id (live now ks) (signupKey prefix email)) by done. by apply delete_signup_sim.
Qed.
Lemma missing_reset_sim m ks now n email : sim m ks now n → reset_at m now email = None →
  sim (m <| OtpMemory.resets := delete email (OtpMemory.resets m) |>) (live now ks) now n.
Proof.
  intros HS Hm. pose proof (sim_reset _ _ _ _ HS email) as Hk. rewrite Hm in Hk. cbn in Hk.
  rewrite <-(delete_id (live now ks) (resetKey prefix email)) by done. by apply delete_reset_sim.
Qed.

Lemma get_signup_step m w now later n email : n < two63 → sim m (keys w) now n → answers (CallGetSignup email) m w now later now n.
Proof.
  intros Hn HS. unfold answers. cbn [memory_call redis_call]. unfold GetSignup, OtpMemory.GetSignup. rewrite live_signup_at.
  edestruct (get_hash_works (R := code_reply) signup_fields signup_of) as (w' & Hk & ->);
    [exact signup_of_fields|exact signup_attempts|exact Hn|exact (sim_signup _ _ _ _ HS email)|].
  exists w'. rewrite Hk. destruct (signup_at m now email) as [[s d]|] eqn:E; (split; [done|]); [by apply sim_live|].
  by apply missing_signup_sim.
Qed.
Lemma get_reset_step m w now later n email : n < two63 → sim m (keys w) now n → answers (CallGetReset email) m w now later now n.
Proof.
  intros Hn HS. unfold answers. cbn [memory_call redis_call]. unfold GetReset, OtpMemory.GetReset. rewrite live_reset_at.
  edestruct (get_hash_works (R := code_reply) reset_fields reset_of) as (w' & Hk & ->);
    [exact reset_of_fields|exact reset_attempts|exact Hn|exact (sim_reset _ _ _ _ HS email)|].
  exists w'. rewrite Hk. destruct (reset_at m now email) as [[s d]|] eqn:E; (split; [done|]); [by apply sim_live|].
  by apply missing_reset_sim.
Qed.

(** A wrong answer is counted on a code that is still there at the end. *)
Lemma sim_signup_count m ks now later n email s d : now ≤ later → later ≤ d → 0 ≤ n →
  sim m ks now n → signup_at m now email = Some (s, d) →
  sim (m <| OtpMemory.signups := <[email := signupEntry.mk (s <| Signup.Attempts := Signup.Attempts s + 1 |>) d]> (OtpMemory.signups m) |>)
    (<[signupKey prefix email := (RHash (list_to_map (rev (signup_fields (s <| Signup.Attempts := Signup.Attempts s + 1 |>)))), Some d)]> (live later ks))
    later (n + 1).
Proof.
  intros Hl Hd H0 HS E. pose proof (sim_signup _ _ _ _ HS email) as He. rewrite E in He. destruct He as [_ Ha].
  apply (sim_signup_update m _ ks _ _ _ email); rewrite ?live_insert by done; cbn; [by eapply sim_later; [..|exact HS]; lia| |done| |].
  - intros key Hne. by rewrite lookup_insert_ne.
  - intros e He. by rewrite lookup_insert_ne.
  - unfold signup_at, OtpMemory.live_signup. cbn. rewrite lookup_insert_eq. unfold After. cbn.
    rewrite (proj2 (Z.ltb_ge _ _)) by done. cbn. rewrite lookup_insert_eq. split; [done|lia].
Qed.
Lemma sim_reset_count m ks now later n email r d : now ≤ later → later ≤ d → 0 ≤ n →
  sim m ks now n → reset_at m now email = Some (r, d) →
  sim (m <| OtpMemory.resets := <[email := resetEntry.mk (r <| Reset_.Attempts := Reset_.Attempts r + 1 |>) d]> (OtpMemory.resets m) |>)
    (<[resetKey prefix email := (RHash (list_to_map (rev (reset_fields (r <| Reset_.Attempts := Reset_.Attempts r + 1 |>)))), Some d)]> (live later ks))
    later (n + 1).
Proof.
  intros Hl Hd H0 HS E. pose proof (sim_reset _ _ _ _ HS email) as He. rewrite E in He. destruct He as [_ Ha].
  apply (sim_reset_update m _ ks _ _ _ email); rewrite ?live_insert by done; cbn; [by eapply sim_later; [..|exact HS]; lia| |done| |].
  - intros key Hne. by rewrite lookup_insert_ne.
  - intros e He. by rewrite lookup_insert_ne.
  - unfold reset_at, OtpMemory.live_reset. cbn. rewrite lookup_insert_eq. unfold After. cbn.
    rewrite (proj2 (Z.ltb_ge _ _)) by done. cbn. rewrite lookup_insert_eq. split; [done|lia].
Qed.

Lemma incr_signup_step m w now later n email : 0 ≤ n → n + 1 < two63 → now ≤ later →
  lapses m (TimedCall.mk now later (CallIncrSignup email)) = false →
  sim m (keys w) now n → answers (CallIncrSignup email) m w now later later (n + 1).
Proof.
  intros H0 Hn Hl Hp HS. unfold answers. cbn [memory_call redis_call]. unfold IncrSignupAttempts, OtpMemory.IncrSignupAttempts.
  unfold lapses in Hp. cbn [TimedCall.call TimedCall.first TimedCall.second] in Hp. rewrite live_signup_at in Hp |- *.
  pose proof (sim_signup _ _ _ _ HS email) as He.
  edestruct (incr_works (R := code_reply) signup_fields Signup.Attempts (fun s a => s <| Signup.Attempts := a |>)) as (w' & Hk & ->);
    [exact signup_attempts|exact signup_bump|exact Hn|exact Hl| |exact He|].
  { intros s d E. rewrite E in Hp. by apply Z.ltb_ge in Hp. }
  exists w'. rewrite Hk. destruct (signup_at m now email) as [[s d]|] eqn:E; cbn [fmap option_fmap option_map fst snd signupEntry.signup signupEntry.expires run reply plain].
  - destruct He as [_ Ha]. rewrite wrap64_id by (unfold two63 in *; lia). split; [done|].
    apply Z.ltb_ge in Hp. by apply (sim_signup_count m (keys w) now).
  - split; [done|]. eapply sim_later; [..|by apply missing_signup_sim]; lia.
Qed.
Lemma incr_reset_step m w now later n email : 0 ≤ n → n + 1 < two63 → now ≤ later →
  lapses m (TimedCall.mk now later (CallIncrReset email)) = false →
  sim m (keys w) now n → answers (CallIncrReset email) m w now later later (n + 1).
Proof.
  intros H0 Hn Hl Hp HS. unfold answers. cbn [memory_call redis_call]. unfold IncrResetAttempts, OtpMemory.IncrResetAttempts.
  unfold lapses in Hp. cbn [TimedCall.call TimedCall.first TimedCall.second] in Hp. rewrite live_reset_at in Hp |- *.
  pose proof (sim_reset _ _ _ _ HS email) as He.
  edestruct (incr_works (R := code_reply) reset_fields Reset_.Attempts (fun s a => s <| Reset_.Attempts := a |>)) as (w' & Hk & ->);
    [exact reset_attempts|exact reset_bump|exact Hn|exact Hl| |exact He|].
  { intros s d E. rewrite E in Hp. by apply Z.ltb_ge in Hp. }
  exists w'. rewrite Hk. destruct (reset_at m now email) as [[s d]|] eqn:E; cbn [fmap option_fmap option_map fst snd resetEntry.reset resetEntry.expires run reply plain].
  - destruct He as [_ Ha]. rewrite wrap64_id by (unfold two63 in *; lia). split; [done|].
    apply Z.ltb_ge in Hp. by apply (sim_reset_count m (keys w) now).
  - split; [done|]. eapply sim_later; [..|by apply missing_reset_sim]; lia.
Qed.

(** A call of one request is over with it. *)
Lemma answers_later c m w now later n n' : now ≤ later → n ≤ n' → answers c m w now later now n → answers c m w now later later n'.
Proof. intros Hl Hn (w' & Hr & HS). exists w'. split; [done|]. by eapply sim_later. Qed.

Lemma call_step m w n (c : TimedCall.t) : 0 ≤ n → n + 1 < two63 → TimedCall.first c ≤ TimedCall.second c →
  proper (TimedCall.call c) → lapses m c = false → sim m (keys w) (TimedCall.first c) n →
  answers (TimedCall.call c) m w (TimedCall.first c) (TimedCall.second c) (TimedCall.second c) (n + 1).
Proof.
  destruct c as [now later c]. cbn [TimedCall.first TimedCall.second TimedCall.call]. intros H0 Hn Hl Hc Hp HS.
  destruct c; try (by apply incr_signup_step); try (by apply incr_reset_step);
    (apply (answers_later _ _ _ _ _ n); [done|lia|]).
  - by apply put_signup_step.
  - apply get_signup_step; [lia|done].
  - unfold answers. cbn [memory_call redis_call]. unfold DelSignup. request Hw. exists w'. split; [done|]. rewrite Hw. by apply delete_signup_sim.
  - by apply put_reset_step.
  - apply get_reset_step; [lia|done].
  - unfold answers. cbn [memory_call redis_call]. unfold DelReset. request Hw. exists w'. split; [done|]. rewrite Hw. by apply delete_reset_sim.
Qed.
End Codes_lemmas.

(** *** Theorems *)

(** Times that do not go back. *)
Fixpoint in_order (now : time) (calls : list TimedCall.t) : Prop :=
  match calls with
  | [] => True
  | c :: calls =>
      now ≤ TimedCall.first c ∧ TimedCall.first c ≤ TimedCall.second c ∧ proper (TimedCall.call c) ∧
      in_order (TimedCall.second c) calls
  end.

Lemma replies_agree {RD : Redis} prefix calls : ∀ m w now n,
  0 ≤ n → n + Z.of_nat (length calls) < two63 → in_order now calls → some_lapse m calls = false → sim prefix m (keys w) now n →
  redis_replies prefix w calls = memory_replies m calls.
Proof.
  induction calls as [|c calls IH]; intros m w now n H0 Hn Ho Hp HS; [done|].
  destruct Ho as (Ht & Htu & Hc & Ho). cbn [some_lapse] in Hp. apply orb_false_iff in Hp as [Hp Hps].
  cbn [length] in Hn. cbn [redis_replies memory_replies].
  destruct (call_step prefix m w n c) as (w' & -> & HS'); [lia|lia|done..|by eapply sim_later; [..|exact HS]; lia|].
  destruct (memory_call m (TimedCall.first c) (TimedCall.call c)) as [m' a]. cbn in *. f_equal.
  by eapply (IH m' w' (TimedCall.second c) (n + 1)); [lia|lia|..].
Qed.
Lemma sim_empty prefix now n : sim prefix OtpMemory.NewMemory ∅ now n.
Proof.
  split; intros email; [unfold signup_at, OtpMemory.live_signup|unfold reset_at, OtpMemory.live_reset];
    cbn [OtpMemory.signups OtpMemory.resets OtpMemory.NewMemory]; rewrite lookup_empty; cbn; by rewrite lookup_live, lookup_empty.
Qed.

(** C18. Whatever calls an instance makes, one after the other at times that do not go
    back, the codes over a Redis that answers and starts empty reply as the in-memory
    store does: the same pending signups and resets, the same counts of wrong answers,
    and expired ones missing alike. Codes are stored for whole seconds, with no wrong
    answer yet; and since a wrong answer is counted in two requests, each at its own
    time, no code that one is counted on expires between the two
    ([expiry_between_requests] is what comes of that). *)
Theorem redis_codes {RD : Redis} (prefix : string) (w : rdb) (now : time) (calls : list TimedCall.t) :
  keys w = ∅ → in_order now calls → some_lapse OtpMemory.NewMemory calls = false → Z.of_nat (length calls) < two63 →
  redis_replies prefix w calls = memory_replies OtpMemory.NewMemory calls.
Proof.
  intros Hw Ho Hp Hl. eapply (replies_agree prefix calls _ w now 0); [done|done|done|done|]. rewrite Hw. apply sim_empty.
Qed.

(** *** One device answers a call *)

(** A pool whose threads decide something once: [Undecided], and then [Decided] for
    good. *)
Section Decisions.
Context {W Env R D : Type} (ok : Env → Prop) (Undecided : W → Prop) (Decided : D → W → Prop) (Post : D → R → Prop).

Fixpoint deciding (p : prog W Env R) : Prop :=
  (∀ d, yields ok (Decided d) (Post d) p) ∧
  match p with
  | Threads.Done _ => True
  | Act op k => ∀ w env, ok env → Undecided w →
      (Undecided (op w env).1 ∧ deciding (k (op w env).2)) ∨
      (∃ d, Decided d (op w env).1 ∧ yields ok (Decided d) (Post d) (k (op w env).2))
  end.

Lemma deciding_yields d p : deciding p → yields ok (Decided d) (Post d) p.
Proof. by destruct p; intros [H _]. Qed.

Lemma deciding_schedule (d0 : D) turns : ∀ w ps,
  Forall (fun t => ok t.2) turns → Undecided w → Forall deciding ps →
  ∃ d, Forall (yields ok (Decided d) (Post d)) (schedule w ps turns).2.
Proof.
  induction turns as [|[i env] turns IH]; intros w ps Ht Hw Hps; cbn [schedule].
  - exists d0. eapply Forall_impl; [exact Hps|]. intros p. apply deciding_yields.
  - apply Forall_cons in Ht as [Henv Ht].
    destruct (ps !! i) as [[r|A op k]|] eqn:Hi; [by apply IH| |by apply IH].
    destruct (proj1 (Forall_lookup _ _) Hps _ _ Hi) as [_ Hk].
    destruct (Hk w env Henv Hw) as [[Hw' Hk']|(d & Hw' & Hk')]; destruct (op w env) as [w' a]; cbn in *.
    + apply IH; [done..|]. by apply Forall_insert.
    + exists d. apply yields_schedule; [done..|]. apply Forall_insert; [|done].
      eapply Forall_impl; [exact Hps|]. intros p. apply deciding_yields.
Qed.
End Decisions.

Section Answering.
Context {RD : Redis} (prefix callID : string) (t0 : time).
Abbreviation answer := (string * string * result (failure redis_err) (string * bool))%type.

(** A device that answers a call, and what it is told. *)
Definition answering (c : string * string) : prog rdb RedisEnv.t answer :=
  Claim prefix c.1 c.2 (fun r => Threads.Done (c, r)).
(** Within [TTL] of one another. *)
Definition ringing (env : RedisEnv.t) : Prop := t0 ≤ RedisEnv.clock env ≤ t0 + TTL.
Definition unclaimed (w : rdb) : Prop := live t0 (keys w) !! winnerKey prefix callID = None.
Definition claimed_by (d : string) (w : rdb) : Prop :=
  ∃ e : time, keys w !! winnerKey prefix callID = Some (RString d, Some e) ∧ t0 + TTL ≤ e.
(** Who is told anything of the call is told the same device, and whether it is that one. *)
Definition told (d : string) (a : answer) : Prop :=
  a.1.1 = callID → match a.2 with Ok (winner, won) => winner = d ∧ won = (winner == a.1.2) | Err _ => True end.

Lemma winnerKey_inj c c' : winnerKey prefix c = winnerKey prefix c' → c = c'.
Proof.
  intros H%append_inv_l%append_inv_l. pose proof (f_equal String.length H) as Hl. rewrite !length_append in Hl.
  by apply append_inj_same_length in H as [? _]; [|lia].
Qed.

(** What a request may come to. *)
Lemma redis_op_cases {A} (q : request A) w env w' r : redis_op q w env = (w', r) →
  (keys w' = keys w ∧ r = Err Unavailable) ∨
  (keys w' = (run_request (RedisEnv.clock env) (live (RedisEnv.clock env) (keys w)) q).1 ∧
   (r = lift (run_request (RedisEnv.clock env) (live (RedisEnv.clock env) (keys w)) q).2 ∨ r = Err Unavailable)).
Proof.
  unfold redis_op. pose proof (send_runs w (RedisEnv.clock env) q) as Hq.
  destruct (send w (RedisEnv.clock env) q) as [w2 r2]. cbn in Hq. rewrite <-Hq.
  destruct (RedisEnv.backend env); intros [= <- <-]; auto.
Qed.

(** Time does not bring the key, and keeps it while the call rings. *)
Lemma unclaimed_live w t : unclaimed w → t0 ≤ t → live t (keys w) !! winnerKey prefix callID = None.
Proof. intros Hu Ht. rewrite <-(live_live t0 t (keys w)) by done. by rewrite lookup_live, Hu. Qed.
Lemma claimed_live d w t : claimed_by d w → t ≤ t0 + TTL →
  ∃ e : time, live t (keys w) !! winnerKey prefix callID = Some (RString d, Some e) ∧ t0 + TTL ≤ e.
Proof.
  intros (e & Hk & He) Ht. exists e. split; [|done]. rewrite lookup_live, Hk. cbn. by rewrite (proj2 (Z.leb_le _ _)) by lia.
Qed.
Lemma still_unclaimed w : keys w !! winnerKey prefix callID = None → unclaimed w.
Proof. intros H. unfold unclaimed. by rewrite lookup_live, H. Qed.

(** The command that asks, and the one that tells. *)
Lemma setnx_other key value ttl t (ks : keyspace) : key ≠ winnerKey prefix callID →
  (run_command t ks (SetNX key value ttl)).1 !! winnerKey prefix callID = ks !! winnerKey prefix callID.
Proof. intros Hne. cbn. destruct (ks !! key); cbn; [done|]. by rewrite lookup_insert_ne. Qed.

Lemma telling_yields d c :
  yields ringing (claimed_by d) (told d) (redis (One (Get (winnerKey prefix c.1))) (fun r => Threads.Done (c, match r with
         | Ok winner => Ok (winner, winner == c.2)
         | Err (Known Nil) => Ok ("", false)
         | Err _ => Err Unavailable
         end))).
Proof.
  intros w env [Ht1 Ht2] Hw. destruct (redis_op _ w env) as [w' r] eqn:E. cbn [fst snd].
  destruct (redis_op_cases _ _ _ _ _ E) as [[Hk ->]|[Hk Hr]]; [by split; [unfold claimed_by; rewrite Hk|]|].
  cbn in Hk, Hr. destruct (claimed_live _ _ _ Hw Ht2) as (e & He & Hle). split; [exists e; by rewrite Hk|].
  intros Hc. cbn in Hc |- *. rewrite Hc, He in Hr. by destruct Hr as [->| ->].
Qed.
Lemma answering_yields d c : yields ringing (claimed_by d) (told d) (answering c).
Proof.
  intros w env [Ht1 Ht2] Hw. destruct (redis_op _ w env) as [w' r] eqn:E. cbn [fst snd].
  destruct (redis_op_cases _ _ _ _ _ E) as [[Hk ->]|[Hk Hr]]; [by split; [unfold claimed_by; rewrite Hk|]|].
  destruct (claimed_live _ _ _ Hw Ht2) as (e & He & Hle). cbn [run_request] in Hk, Hr.
  destruct (decide (c.1 = callID)) as [Hc|Hc].
  - rewrite Hc in Hk, Hr. cbn in Hk, Hr. rewrite He in Hk, Hr. split; [exists e; by rewrite Hk|].
    destruct Hr as [->| ->]; [apply telling_yields|done].
  - split.
    + exists e. rewrite Hk, setnx_other by (intros ?%winnerKey_inj; by apply Hc). done.
    + destruct r as [[]|]; [|apply telling_yields|]; intros ?; done.
Qed.

Lemma telling_deciding c : c.1 ≠ callID → deciding ringing unclaimed claimed_by told
  (redis (One (Get (winnerKey prefix c.1))) (fun r => Threads.Done (c, match r with
         | Ok winner => Ok (winner, winner == c.2)
         | Err (Known Nil) => Ok ("", false)
         | Err _ => Err Unavailable
         end))).
Proof.
  intros Hc. split; [intros d; apply telling_yields|]. intros w env [Ht1 Ht2] Hw. left.
  destruct (redis_op _ w env) as [w' r] eqn:E. cbn [fst snd]. split; [|by split; [intros d ?|]].
  destruct (redis_op_cases _ _ _ _ _ E) as [[Hk _]|[Hk _]]; [by unfold unclaimed; rewrite Hk|].
  cbn in Hk. apply still_unclaimed. by rewrite Hk, unclaimed_live.
Qed.
Lemma answering_deciding c : deciding ringing unclaimed claimed_by told (answering c).
Proof.
  split; [intros d; apply answering_yields|]. intros w env [Ht1 Ht2] Hw. destruct (redis_op _ w env) as [w' r] eqn:E. cbn [fst snd].
  destruct (redis_op_cases _ _ _ _ _ E) as [[Hk ->]|[Hk Hr]]; [left; split; [by unfold unclaimed; rewrite Hk|done]|].
  pose proof (unclaimed_live _ _ Hw Ht1) as Hl. cbn [run_request] in Hk, Hr.
  destruct (decide (c.1 = callID)) as [Hc|Hc].
  - rewrite Hc in Hk, Hr. cbn in Hk, Hr. rewrite Hl in Hk, Hr. right. exists c.2. split.
    + eexists. rewrite Hk. cbn. rewrite lookup_insert_eq. split; [done|]. replace (whole_millis TTL) with TTL by (by vm_compute). lia.
    + destruct Hr as [->| ->]; intros _; cbn; [|done]. by rewrite bool_decide_true.
  - left. assert (Hkey : keys w' !! winnerKey prefix callID = None)
      by (by rewrite Hk, setnx_other by (intros ?%winnerKey_inj; by apply Hc)).
    split; [by apply still_unclaimed|].
    destruct r as [[]|]; [by split; [intros d ?|]|by apply telling_deciding|by split; [intros d ?|]].
Qed.
End Answering.

(** C19. However the answers of any number of devices interleave, on any instances, and
    whichever requests to Redis fail or lose their reply: everyone who is told who
    answered a call is told the same device, and that it won if it is that device; while
    the requests come within the time a call rings, of a call that nobody has answered. *)
Theorem redis_one_answer {RD : Redis} (prefix callID : string) (t0 : time) (w : rdb) (devices : list (string * string))
    (turns : list (nat * RedisEnv.t)) :
  unclaimed prefix callID t0 w → Forall (fun t => ringing t0 t.2) turns →
  ∃ device, ∀ i deviceID winner won,
    (schedule w (answering prefix <$> devices) turns).2 !! i = Some (Threads.Done (callID, deviceID, Ok (winner, won))) →
    winner = device ∧ won = (device == deviceID).
Proof.
  intros Hu Ht. destruct (deciding_schedule (ringing t0) (unclaimed prefix callID t0) (claimed_by prefix callID t0) (told callID) ""
    turns w (answering prefix <$> devices) Ht Hu) as (d & Hd).
  - apply Forall_fmap, Forall_true. intros c. apply answering_deciding.
  - exists d. intros i deviceID winner won Hi. by destruct (proj1 (Forall_lookup _ _) Hd _ _ Hi) as [-> ->].
Qed.

(** ** Witnesses and examples *)

#[local] Existing Instance memory_redis.

Definition sample_signup : Signup.t := Signup.mk "a@b.c" "p" "h" 0 "".
Lemma redis_codes_witness :
  let calls := [TimedCall.mk 1 1 (CallPutSignup sample_signup Minute); TimedCall.mk 2 2 (CallGetSignup "a@b.c");
                TimedCall.mk 3 Second (CallIncrSignup "a@b.c"); TimedCall.mk Second Second (CallGetSignup "a@b.c");
                TimedCall.mk (Minute + 2) (Minute + 3) (CallIncrSignup "a@b.c")] in
  redis_replies "pheme:otp" (∅ : rdb) calls =
    [Stored; TheSignup sample_signup; Tries 1; TheSignup (Signup.mk "a@b.c" "p" "h" 1 ""); Missing] ∧
  redis_replies "pheme:otp" (∅ : rdb) calls = memory_replies OtpMemory.NewMemory calls.
Proof.
  split; [vm_compute; reflexivity|].
  apply (redis_codes "pheme:otp" (∅ : rdb) 0); [reflexivity| |vm_compute; reflexivity|vm_compute; reflexivity].
  cbn. repeat split; cbn; unfold Minute, Second; lia.
Defined.

(** A code that expires between the two requests of a count comes back with no
    fields but the count, and with no expiry; in memory it is gone. *)
Example expiry_between_requests :
  let calls := [TimedCall.mk 1 1 (CallPutSignup sample_signup Minute);
                TimedCall.mk Minute (Minute + 2) (CallIncrSignup "a@b.c");
                TimedCall.mk (100000 * Hour) (100000 * Hour) (CallGetSignup "a@b.c")] in
  redis_replies "p" (∅ : rdb) calls = [Stored; Tries 1; TheSignup (Signup.mk "" "" "" 1 "")] ∧
  memory_replies OtpMemory.NewMemory calls = [Stored; Tries 1; Missing].
Proof. vm_compute. done. Qed.

(** Two devices answer at once: one wins, and both are told so. *)
Definition two_answers : list (nat * RedisEnv.t) :=
  [(0%nat, RedisEnv.mk Works 10); (1%nat, RedisEnv.mk Works 11); (1%nat, RedisEnv.mk Works 12)].
Lemma redis_one_answer_witness :
  (schedule (∅ : rdb) (answering "pheme:call" <$> [("c", "x"); ("c", "y")]) two_answers).2 !! 1%nat =
    Some (Threads.Done ("c", "y", Ok ("x", false))) ∧
  ∃ device, ∀ i deviceID winner won,
    (schedule (∅ : rdb) (answering "pheme:call" <$> [("c", "x"); ("c", "y")]) two_answers).2 !! i = Some (Threads.Done ("c", deviceID, Ok (winner, won))) →
    winner = device ∧ won = (device == deviceID).
Proof.
  split; [vm_compute; reflexivity|].
  apply (redis_one_answer "pheme:call" "c" 10); [vm_compute; reflexivity|].
  repeat constructor; vm_compute; discriminate.
Defined.

(** A wrong answer is counted in two requests. A signup that completes between them
    comes back with no fields but the count, and with no expiry. *)
Definition counted_late : rdb :=
  let w := (run (redis_call "p" (CallPutSignup (Signup.mk "a@b.c" "p" "h" 0 "") Minute)) (∅ : rdb) [] (RedisEnv.mk Works 1)).1 in
  (schedule w [redis_call "p" (CallIncrSignup "a@b.c"); redis_call "p" (CallDelSignup "a@b.c")]
     [(0%nat, RedisEnv.mk Works 2); (1%nat, RedisEnv.mk Works 3); (0%nat, RedisEnv.mk Works 4)]).1.
Example wrong_answer_revives :
  (run (redis_call "p" (CallGetSignup "a@b.c")) counted_late [] (RedisEnv.mk Works (100000 * Hour))).2 =
  TheSignup (Signup.mk "" "" "" 1 "").
Proof. vm_compute. reflexivity. Qed.

(** A signal renews a call's expiry here. *)
Definition ring (t : time) : prog rdb RedisEnv.t (result (failure redis_err) (list Signal.t)) :=
  Append "p" "c" "s" (fun _ => Threads.Done (Ok [])).
Example signals_renew :
  let w := (run (ring 0) (run (ring 0) (∅ : rdb) [] (RedisEnv.mk Works 0)).1 [] (RedisEnv.mk Works Minute)).1 in
  (run (Since "p" "c" 1 Threads.Done) w [] (RedisEnv.mk Works (2 * Minute + Second))).2 = Ok [Signal.mk 2 "s"].
Proof. vm_compute. reflexivity. Qed.

(** The bucket keeps the clock of the instance that asked last, which may be behind: of
    two instances whose clocks are a minute apart, asked in turn within a second, each
    ask of the first refills a bucket of ten that takes more than a minute to refill. *)
Definition in_turn (n : nat) : list bool :=
  let ask t := Allow (fun s => of_int <$> ParseInt s) (fun q => FormatInt (Qround.Qfloor q)) "rl" "k" (of_int 1) (of_int 10) Threads.Done in
  (fix go n (w : rdb) := match n with
   | O => []
   | S n =>
       let '(w, a) := run (ask tt) w [RedisEnv.mk Works (unixTime (1700000060))] (RedisEnv.mk Works (unixTime 1700000000)) in
       let '(w, b) := run (ask tt) w [] (RedisEnv.mk Works (unixTime 1700000000)) in a :: b :: go n w
   end) n ∅.
Example skewed_clocks_refill : in_turn 20 = repeat true 40.
Proof. vm_compute. reflexivity. Qed.
