(* ===== verification/Coordinator.v ===== *)
(** * The coordinator's tool, and the hosts that follow it

    [api/cmd/nodelist/main.go]: the roster of the network and the commands that edit and
    sign it; [Sign] of [api/internal/nodelist/nodelist.go] and [LoadFile] of [store.go].
    The working directory is two files; failures to read and write them are left out. *)

From S2P Require Import Prelude.
From S2P Require Import GoStrings.
From S2P Require Import Strconv.
From S2P Require Import Domain.
From S2P Require Import Crypto.
From S2P Require Import Nodelist.
From S2P Require Import Ident.
From S2P Require Import Federation.
From S2P Require Import Bootstrap.

(** ** Data *)

Module roster.
Record t := mk { Serial : Z; Nodes : list Node.t }.
Definition zero : t := mk 0 [].
End roster.

(** [coordinator.key] and [roster.json]. *)
Module Files.
Record t := mk { keyFile : option string; rosterFile : option string }.
#[global] Instance eta : Eta t := fun r => mk (keyFile r) (rosterFile r).
End Files.

(** [json.Marshal] of a list, whose keys [encodeKey] writes, called back from
    [Node.MarshalJSON], of the document, and of the roster. *)
Class ListMarshal := {
  marshal_list : NodeList.t → (bytes → string) → option bytes;
  marshal_doc : bytes → string → option string;
  marshal_roster : roster.t → (bytes → string) → string;
  unmarshal_roster : string → (string → option bytes) → option roster.t
}.

(** Why a command gives up. *)
Inductive death : Type :=
| Usage | KeyExists | NoKey | CorruptKey | BadHostKey | BadRoster | NotInRoster | BadDays | SignFailed (e : node_err).

(** ** Operations *)

Definition newline : string := String "010"%char EmptyString.

Section Tool.
Context {U : Unicode} {J : ListJSON} {M : ListMarshal} {E : Ed25519}.

Definition encodeKey (b : bytes) : string := base64url b.

(** [nodelist.Sign] *)
Definition Sign (l : NodeList.t) (coord : bytes) : result node_err string :=
  let? _ := validate l in
  match marshal_list l encodeKey with
  | None => Err ErrMalformed
  | Some payload =>
      match marshal_doc payload (encodeKey (ed_sign coord payload)) with
      | None => Err ErrMalformed
      | Some doc => Ok doc
      end
  end.

Definition loadKey (f : Files.t) : result death bytes :=
  match Files.keyFile f with
  | None => Err NoKey
  | Some b =>
      match base64url_decode (TrimSpace b) with
      | Some seed => if slen seed =? SeedSize then Ok seed else Err CorruptKey
      | None => Err CorruptKey
      end
  end.
Definition loadRoster (f : Files.t) : result death roster.t :=
  match Files.rosterFile f with
  | None => Ok roster.zero
  | Some b => match unmarshal_roster b decodeKey with None => Err BadRoster | Some r => Ok r end
  end.
Definition saveRoster (f : Files.t) (r : roster.t) : Files.t :=
  f <| Files.rosterFile := Some (String.append (marshal_roster r encodeKey) newline) |>.

(** What a command leaves and prints. *)
Definition outcome : Type := Files.t * result death string.

(** [seed] is what the random source gives. *)
Definition cmdInit (f : Files.t) (seed : bytes) : outcome :=
  match Files.keyFile f with
  | Some _ => (f, Err KeyExists)
  | None =>
      (f <| Files.keyFile := Some (String.append (base64url seed) newline) |>,
       Ok (String.append "wrote coordinator.key (keep it secret)" (String.append newline
            (String.append "coordinator public key (give this to every host):" (String.append newline
              (String.append "  " (base64url (ed_public seed))))))))
  end.
Definition cmdPubkey (f : Files.t) : outcome :=
  match loadKey f with Err e => (f, Err e) | Ok key => (f, Ok (base64url (ed_public key))) end.

(** The loop over the roster: a host that is there gets its new key, and its new alias
    when one is given. *)
Fixpoint rotate (domain : string) (key : bytes) (alias : option string) (nodes : list Node.t) : option (list Node.t) :=
  match nodes with
  | [] => None
  | n :: rest =>
      if EqualFold (Node.Domain n) domain
      then Some (Node.mk (Node.Domain n) key (default (Node.Alias n) alias) :: rest)
      else (fun rest => n :: rest) <$> rotate domain key alias rest
  end.
Definition add_host (f : Files.t) (domain key : string) (alias : option string) : outcome :=
  let domain := fold_name domain in
  match base64url_decode (TrimRight (TrimSpace key) "=") with
  | None => (f, Err BadHostKey)
  | Some key =>
      if slen key != PublicKeySize then (f, Err BadHostKey)
      else
        let alias := fold_name <$> alias in
        match loadRoster f with
        | Err e => (f, Err e)
        | Ok r =>
            match rotate domain key alias (roster.Nodes r) with
            | Some nodes => (saveRoster f (roster.mk (roster.Serial r) nodes), Ok (String.append "updated " (String.append domain " (key rotated)")))
            | None =>
                let alias := default "" alias in
                (saveRoster f (roster.mk (roster.Serial r) (roster.Nodes r ++ [Node.mk domain key alias])),
                 Ok (String.append "added " (String.append domain
                      (if alias != "" then String.append " (alias " (String.append alias ")") else ""))))
            end
        end
  end.
Definition cmdAdd (f : Files.t) (args : list string) : outcome :=
  match args with
  | [domain; key] => add_host f domain key None
  | [domain; key; alias] => add_host f domain key (Some alias)
  | _ => (f, Err Usage)
  end.

Definition cmdRemove (f : Files.t) (args : list string) : outcome :=
  match args with
  | [domain] =>
      let domain := fold_name domain in
      match loadRoster f with
      | Err e => (f, Err e)
      | Ok r =>
          let found := existsb (fun n => EqualFold (Node.Domain n) domain) (roster.Nodes r) in
          let kept := filter (fun n => Is_true (negb (EqualFold (Node.Domain n) domain))) (roster.Nodes r) in
          if negb found then (f, Err NotInRoster)
          else (saveRoster f (roster.mk (roster.Serial r) kept),
                Ok (String.append "removed " (String.append domain " — it drops out of the network on the next signed list")))
      end
  | _ => (f, Err Usage)
  end.

(** The loop over the arguments; what is no [--days] with a number after it is passed
    over. *)
Fixpoint days_of (days : Z) (args : list string) : option Z :=
  match args with
  | [] => Some days
  | a :: rest =>
      match (if a == "--days" then rest else []) with
      | [] => days_of days rest
      | n :: _ =>
          match ParseInt n, rest with
          | Some n, _ :: rest => if n <=? 0 then None else days_of n rest
          | _, _ => None
          end
      end
  end.
(** [now.AddDate(0, 0, days)], in UTC. *)
Definition AddDays (now : time) (days : Z) : time := now + days * (24 * Hour).

Definition cmdSign (f : Files.t) (args : list string) (now : time) : outcome :=
  match days_of 30 args with
  | None => (f, Err BadDays)
  | Some days =>
      match loadKey f with
      | Err e => (f, Err e)
      | Ok key =>
          match loadRoster f with
          | Err e => (f, Err e)
          | Ok r =>
              let r := roster.mk (uint64 (roster.Serial r + 1)) (roster.Nodes r) in
              let f := saveRoster f r in
              let l := NodeList.mk (roster.Serial r) now (AddDays now days) (roster.Nodes r) in
              match Sign l key with Err e => (f, Err (SignFailed e)) | Ok signed => (f, Ok signed) end
          end
      end
  end.

(** [main], with what the random source gives and what the clock reads. *)
Definition tool (f : Files.t) (args : list string) (seed : bytes) (now : time) : outcome :=
  match args with
  | [] => (f, Err Usage)
  | cmd :: args =>
      if cmd == "init" then cmdInit f seed
      else if cmd == "pubkey" then cmdPubkey f
      else if cmd == "add" then cmdAdd f args
      else if cmd == "remove" then cmdRemove f args
      else if cmd == "sign" then cmdSign f args now
      else (f, Err Usage)
  end.

(** [Store.LoadFile] of a file that can be read. *)
Definition LoadFile (s : NodeStore.t) (contents : string) (now : time) : option (NodeStore.t * result node_err unit) :=
  NodeStore.Replace s contents now.
End Tool.

(** ** What a host makes of a signed list *)

(** As [encoding/json] is documented: what it writes it reads back, for text in ASCII, keys
    that their callbacks read back, serials of 64 bits, and times of the years 0 to 9999,
    which it can write. *)
Definition plain_names (nodes : list Node.t) : Prop :=
  Forall (fun n => all_bytes is_ascii (Node.Domain n) = true ∧ all_bytes is_ascii (Node.Alias n) = true) nodes.
Definition reads_back (enc : bytes → string) (dec : string → option bytes) : Prop := ∀ k, dec (enc k) = Some k.
(** The first instant of the year 10000. *)
Definition year10000 : time := 315537897600 * Second.
Class ListMarshalLaws {J : ListJSON} {M : ListMarshal} : Prop := {
  list_marshalled l enc : 0 ≤ NodeList.Issued l < year10000 → 0 ≤ NodeList.Expires l < year10000 → is_Some (marshal_list l enc);
  list_read_back l enc dec payload : reads_back enc dec → plain_names (NodeList.Nodes l) → 0 ≤ NodeList.Serial l < two64 →
    marshal_list l enc = Some payload → unmarshal_list payload dec = Some l;
  doc_read_back l enc payload sig : marshal_list l enc = Some payload → all_bytes is_ascii sig = true →
    ∃ doc, marshal_doc payload sig = Some doc ∧ unmarshal_doc doc = Some (payload, sig);
  roster_read_back r enc dec : reads_back enc dec → plain_names (roster.Nodes r) → 0 ≤ roster.Serial r < two64 →
    unmarshal_roster (String.append (marshal_roster r enc) newline) dec = Some r
}.

Section Lemmas.
Context {U : Unicode} {J : ListJSON} {M : ListMarshal} {E : Ed25519} {ML : ListMarshalLaws}.

Lemma keys_read_back : reads_back encodeKey decodeKey.
Proof. intros k. unfold decodeKey, encodeKey. by rewrite TrimRight_base64url, base64url_roundtrip. Qed.

Lemma alphabet_ascii c : b64_alphabet c = true → is_ascii c = true.
Proof. destruct c as [[] [] [] [] [] [] [] []]; vm_compute; done. Qed.
Lemma encodeKey_ascii b : all_bytes is_ascii (encodeKey b) = true.
Proof. eapply all_bytes_impl, base64url_alphabet. apply alphabet_ascii. Qed.

(** A signed document verifies to its list. *)
Lemma Sign_VerifyAt l key doc now : plain_names (NodeList.Nodes l) → 0 ≤ NodeList.Serial l < two64 →
  Sign l key = Ok doc →
  VerifyAt doc (ed_public key) now =
    Some (if After now (NodeList.Expires l) then Err ErrExpired else if Before now (NodeList.Issued l) then Err ErrNotYet else Ok l) ∧
  sound_list l.
Proof.
  intros Hp Hs. unfold Sign. destruct (validate l) as [[]|e] eqn:Hv; cbn [result_bind]; [|done].
  destruct (marshal_list l encodeKey) as [payload|] eqn:Hl; [|done].
  destruct (doc_read_back l encodeKey payload (encodeKey (ed_sign key payload)) Hl (encodeKey_ascii _)) as (d & -> & Hd).
  intros [= <-]. split; [|by apply validate_sound]. unfold VerifyAt. rewrite Hd, keys_read_back.
  unfold ed25519_Verify. rewrite ed_public_size, Z.eqb_refl, ed_verify_sign.
  rewrite (list_read_back l encodeKey decodeKey payload keys_read_back Hp Hs Hl), Hv. done.
Qed.

(** A sound list of dates that can be written is signed. *)
Lemma Sign_succeeds l key : validate l = Ok tt → 0 ≤ NodeList.Issued l < year10000 → 0 ≤ NodeList.Expires l < year10000 →
  is_ok (Sign l key).
Proof.
  intros Hv Hi He. unfold Sign. rewrite Hv. cbn [result_bind]. destruct (list_marshalled l encodeKey Hi He) as [payload Hp]. rewrite Hp.
  by destruct (doc_read_back l encodeKey payload (encodeKey (ed_sign key payload)) Hp (encodeKey_ascii _)) as (d & -> & _).
Qed.

(** *** Names *)

Lemma skip_space_ascii s : all_bytes is_ascii s = true → ∃ s', skip_space s = (s', false) ∧ all_bytes is_ascii s' = true.
Proof.
  induction s as [|c s IH]; [by exists ""|]. cbn [all_bytes skip_space]. intros [Hc Hs]%andb_true_iff. rewrite Hc. cbn [negb].
  destruct (is_space c); [by apply IH|]. exists (String c s). cbn [all_bytes]. by rewrite Hc, Hs.
Qed.
Lemma TrimSpace_ascii s : all_bytes is_ascii s = true → all_bytes is_ascii (TrimSpace s) = true.
Proof.
  intros Hs. unfold TrimSpace. destruct (skip_space_ascii s Hs) as (s1 & -> & H1).
  destruct (skip_space_ascii (rev_string s1)) as (s2 & -> & H2); by rewrite all_bytes_rev.
Qed.
Lemma lower_ascii s : all_bytes is_ascii s = true → all_bytes is_ascii (map_bytes lower_byte s) = true.
Proof.
  induction s as [|c s IH]; [done|]. cbn [all_bytes map_bytes]. intros [Hc Hs]%andb_true_iff. by rewrite lower_byte_ascii, IH.
Qed.
Lemma ToLower_ascii s : all_bytes is_ascii s = true → ToLower s = map_bytes lower_byte s.
Proof. intros Hs. unfold ToLower. by rewrite Hs. Qed.
Lemma fold_name_ascii s : all_bytes is_ascii s = true → all_bytes is_ascii (fold_name s) = true.
Proof. intros Hs%TrimSpace_ascii. unfold fold_name. rewrite ToLower_ascii by done. by apply lower_ascii. Qed.
Lemma fold_name_lower s : all_bytes is_ascii s = true → ToLower (fold_name s) = fold_name s.
Proof. intros Hs. unfold fold_name. by apply ToLower_idem, TrimSpace_ascii. Qed.

Lemma EqualFold_ascii s t : all_bytes is_ascii s = true → all_bytes is_ascii t = true →
  EqualFold s t = (ToLower s == ToLower t).
Proof.
  intros Hs Ht. rewrite !ToLower_ascii by done. revert t Ht. induction s as [|c s IH]; intros [|d t] Ht; try done.
  cbn [all_bytes] in Hs, Ht. apply andb_true_iff in Hs as [Hc Hs], Ht as [Hd Ht].
  cbn [EqualFold map_bytes]. rewrite Hc, Hd. cbn [negb orb].
  destruct (bool_decide_reflect (lower_byte c = lower_byte d)) as [He|Hne].
  - rewrite IH by done. rewrite He. apply bool_decide_ext. split; [by intros ->|by intros [= ->]].
  - symmetry. apply bool_decide_eq_false. by intros [= ? _].
Qed.

(** *** The working directory *)

(** What the files hold. *)
Record tended (f : Files.t) (key : bytes) (r : roster.t) : Prop := {
  td_key : loadKey f = Ok key;
  td_roster : loadRoster f = Ok r;
  td_plain : plain_names (roster.Nodes r);
  td_serial : 0 ≤ roster.Serial r < two64
}.

Lemma saved_tended f key r r' : tended f key r → plain_names (roster.Nodes r') → 0 ≤ roster.Serial r' < two64 →
  tended (saveRoster f r') key r'.
Proof.
  intros [Hk _ _ _] Hp Hs. split; [exact Hk| |done|done].
  unfold loadRoster, saveRoster. cbn. by rewrite (roster_read_back r' _ _ keys_read_back Hp Hs).
Qed.

Lemma rotate_plain domain key alias nodes nodes' : plain_names nodes → (∀ a, alias = Some a → all_bytes is_ascii a = true) →
  rotate domain key alias nodes = Some nodes' → plain_names nodes'.
Proof.
  intros Hp Ha. revert nodes'. induction nodes as [|n nodes IH]; intros nodes'; [done|]. apply Forall_cons in Hp as [[Hd Hal] Hp]. cbn [rotate].
  destruct (EqualFold (Node.Domain n) domain).
  - intros [= <-]. constructor; [|done]. cbn. split; [done|]. destruct alias as [a|]; cbn; auto.
  - intros (rest & Hr & ->)%fmap_Some. constructor; [done|]. by apply IH.
Qed.

Lemma add_host_tended f key r domain hostkey alias : tended f key r →
  all_bytes is_ascii domain = true → (∀ a, alias = Some a → all_bytes is_ascii a = true) →
  ∃ r', tended (add_host f domain hostkey alias).1 key r' ∧ roster.Serial r' = roster.Serial r.
Proof.
  intros HT Hd Ha. unfold add_host. destruct (base64url_decode _) as [k|]; [|by exists r].
  destruct (slen k != PublicKeySize); [by exists r|]. rewrite (td_roster _ _ _ HT).
  assert (Ha' : ∀ a, fold_name <$> alias = Some a → all_bytes is_ascii a = true)
    by (intros a (b & -> & ->)%fmap_Some; apply fold_name_ascii; auto).
  destruct (rotate _ k _ (roster.Nodes r)) as [nodes|] eqn:Hr; cbn [fst]; eexists; (split; [eapply saved_tended; [done| |exact (td_serial _ _ _ HT)]|done]); cbn.
  - by eapply rotate_plain; [exact (td_plain _ _ _ HT)| |exact Hr].
  - apply Forall_app. split; [exact (td_plain _ _ _ HT)|]. repeat constructor; cbn; [by apply fold_name_ascii|].
    destruct (fold_name <$> alias) as [a|]; cbn; auto.
Qed.

Lemma cmdAdd_tended f key r args : tended f key r → Forall (fun a => all_bytes is_ascii a = true) args →
  ∃ r', tended (cmdAdd f args).1 key r' ∧ roster.Serial r' = roster.Serial r.
Proof.
  intros HT Ha. unfold cmdAdd. destruct args as [|d [|k [|a [|]]]]; try by exists r.
  - apply add_host_tended; [done| |done]. by apply Forall_cons in Ha as [? _].
  - rewrite !Forall_cons in Ha. destruct Ha as (? & _ & ? & _). apply add_host_tended; [done|done|]. by intros ? [= <-].
Qed.
Lemma cmdRemove_tended f key r args : tended f key r →
  ∃ r', tended (cmdRemove f args).1 key r' ∧ roster.Serial r' = roster.Serial r.
Proof.
  intros HT. unfold cmdRemove. destruct args as [|d [|]]; [by exists r| |by exists r]. rewrite (td_roster _ _ _ HT).
  destruct (existsb _ _); cbn [negb fst]; [|by exists r].
  eexists. split; [eapply saved_tended; [done| |exact (td_serial _ _ _ HT)]|done].
  apply Forall_forall. intros n [_ Hn]%list_elem_of_filter. by apply (proj1 (Forall_forall _ _) (td_plain _ _ _ HT)).
Qed.
Lemma cmdInit_tended f key r seed : tended f key r → tended (cmdInit f seed).1 key r.
Proof.
  intros HT. unfold cmdInit. destruct (Files.keyFile f) eqn:Hk; [done|]. pose proof (td_key _ _ _ HT) as H. unfold loadKey in H. by rewrite Hk in H.
Qed.

(** The list that [sign] makes. *)
Definition listing (r : roster.t) (now : time) (days : Z) : NodeList.t :=
  NodeList.mk (roster.Serial r + 1) now (AddDays now days) (roster.Nodes r).
Lemma cmdSign_tended f key r args now : tended f key r → roster.Serial r + 1 < two64 →
  ∃ r', tended (cmdSign f args now).1 key r' ∧ roster.Serial r ≤ roster.Serial r' ≤ roster.Serial r + 1 ∧
    ∀ doc, (cmdSign f args now).2 = Ok doc →
      roster.Serial r' = roster.Serial r + 1 ∧ roster.Nodes r' = roster.Nodes r ∧
      ∃ days, days_of 30 args = Some days ∧ Sign (listing r now days) key = Ok doc.
Proof.
  intros HT Hs. pose proof (td_serial _ _ _ HT) as Hs0. unfold cmdSign.
  destruct (days_of 30 args) as [days|] eqn:Hd; [|exists r; split; [done|]; split; [lia|done]].
  rewrite (td_key _ _ _ HT), (td_roster _ _ _ HT). cbn [roster.Serial roster.Nodes]. rewrite uint64_id by lia.
  set (r' := roster.mk (roster.Serial r + 1) (roster.Nodes r)). exists r'.
  assert (HT' : tended (saveRoster f r') key r') by (eapply saved_tended; [done|exact (td_plain _ _ _ HT)|cbn; lia]).
  fold (listing r now days). destruct (Sign (listing r now days) key) as [doc|e] eqn:Hsg; cbn [fst snd].
  - split; [done|]. split; [cbn; lia|]. intros d [= <-]. split; [done|]. split; [done|]. by exists days.
  - split; [done|]. split; [cbn; lia|done].
Qed.

(** ** A history of the network

    The commands given, each with what it draws and when: the files they leave and the
    documents that [sign] has printed. *)
Definition command : Type := list string * bytes * time.
Definition printed (args : list string) (r : result death string) : list string :=
  match args, r with cmd :: _, Ok doc => if cmd == "sign" then [doc] else [] | _, _ => [] end.
Fixpoint session (f : Files.t) (cs : list command) : Files.t * list string :=
  match cs with
  | [] => (f, [])
  | (args, seed, now) :: cs =>
      let '(f, r) := tool f args seed now in
      let '(f, docs) := session f cs in (f, printed args r ++ docs)
  end.
Definition typed (c : command) : Prop := Forall (fun a => all_bytes is_ascii a = true) c.1.1.

(** What a document verifies to at any time has a serial between the two. *)
Definition between (key : bytes) (lo hi : Z) (doc : string) : Prop :=
  ∀ t l, VerifyAt doc (ed_public key) t = Some (Ok l) → lo < NodeList.Serial l ≤ hi.

Lemma listing_between r now days key doc : plain_names (roster.Nodes r) → 0 ≤ roster.Serial r → roster.Serial r + 1 < two64 →
  Sign (listing r now days) key = Ok doc → between key (roster.Serial r) (roster.Serial r + 1) doc.
Proof.
  intros Hp H0 H1 Hs t l. destruct (Sign_VerifyAt (listing r now days) key doc t Hp ltac:(cbn; lia) Hs) as [-> _].
  destruct (After t _); [done|]. destruct (Before t _); [done|]. intros [= <-]. cbn. lia.
Qed.

Lemma tool_tended f key r args seed now : tended f key r → roster.Serial r + 1 < two64 → typed (args, seed, now) →
  ∃ r', tended (tool f args seed now).1 key r' ∧ roster.Serial r ≤ roster.Serial r' ≤ roster.Serial r + 1 ∧
    Forall (between key (roster.Serial r) (roster.Serial r')) (printed args (tool f args seed now).2).
Proof.
  intros HT Hs Ha. unfold typed in Ha. cbn [fst snd] in Ha. destruct args as [|cmd args]; [exists r; cbn; split; [done|split; [lia|done]]|].
  apply Forall_cons in Ha as [_ Ha]. unfold tool, printed.
  destruct (bool_decide_reflect (cmd = "sign")) as [->|Hne].
  - rewrite !bool_decide_false by done.
    destruct (cmdSign_tended f key r args now HT Hs) as (r' & HT' & Hle & Hdoc). exists r'. split; [done|]. split; [done|].
    destruct (cmdSign f args now).2 as [doc|]; [|done]. destruct (Hdoc doc eq_refl) as (-> & _ & days & _ & Hsg).
    constructor; [|done]. by eapply listing_between; [exact (td_plain _ _ _ HT)|apply (td_serial _ _ _ HT)|..].
  - assert (Hone : ∀ o : outcome, (∃ r', tended o.1 key r' ∧ roster.Serial r' = roster.Serial r) →
      ∃ r', tended o.1 key r' ∧ roster.Serial r ≤ roster.Serial r' ≤ roster.Serial r + 1 ∧
        Forall (between key (roster.Serial r) (roster.Serial r')) (match o.2 with Ok _ => [] | Err _ => [] end)).
    { intros o (r' & HT' & Hr). exists r'. split; [done|]. split; [lia|]. by destruct o.2. }
    destruct (cmd == "init"); [|destruct (cmd == "pubkey"); [|destruct (cmd == "add"); [|destruct (cmd == "remove")]]]; apply Hone.
    + exists r. split; [by apply cmdInit_tended|done].
    + unfold cmdPubkey. destruct (loadKey f); by exists r.
    + by apply cmdAdd_tended.
    + by apply cmdRemove_tended.
    + by exists r.
Qed.

Lemma session_tended cs : ∀ f key r, tended f key r → roster.Serial r + Z.of_nat (length cs) < two64 → Forall typed cs →
  ∃ r', tended (session f cs).1 key r' ∧ roster.Serial r ≤ roster.Serial r' ≤ roster.Serial r + Z.of_nat (length cs) ∧
    Forall (between key (roster.Serial r) (roster.Serial r')) (session f cs).2.
Proof.
  induction cs as [|[[args seed] now] cs IH]; intros f key r HT Hs Ha; [exists r; cbn; split; [done|split; [lia|done]]|].
  apply Forall_cons in Ha as [Hc Ha]. cbn [length] in Hs. rewrite Nat2Z.inj_succ in Hs.
  destruct (tool_tended f key r args seed now HT ltac:(lia) Hc) as (r1 & HT1 & Hle1 & Hd1). cbn [session].
  destruct (tool f args seed now) as [f1 res] eqn:Et. cbn [fst snd] in *.
  destruct (IH f1 key r1 HT1 ltac:(lia) Ha) as (r2 & HT2 & Hle2 & Hd2). destruct (session f1 cs) as [f2 docs]. cbn [fst snd length] in *.
  exists r2. split; [done|]. split; [rewrite Nat2Z.inj_succ; lia|]. apply Forall_app. split.
  - eapply Forall_impl; [exact Hd1|]. intros doc Hb t l Hv. specialize (Hb t l Hv). lia.
  - eapply Forall_impl; [exact Hd2|]. intros doc Hb t l Hv. specialize (Hb t l Hv). lia.
Qed.

(** *** A host that is fed documents *)

(** What verifies under the coordinator's key is what its tool has printed. *)
Definition unforged (key : bytes) (docs : list string) (fed : list (string * time)) : Prop :=
  ∀ doc t l, (doc, t) ∈ fed → VerifyAt doc (ed_public key) t = Some (Ok l) → doc ∈ docs.

(** A host fed the last document holds its list. *)
Lemma last_held r now days key docs doc fed s t :
  plain_names (roster.Nodes r) → 0 ≤ roster.Serial r → roster.Serial r + 1 < two64 →
  Sign (listing r now days) key = Ok doc →
  Forall (between key (-1) (roster.Serial r)) docs → unforged key (docs ++ [doc]) fed →
  replace_all (NodeStore.NewStore (ed_public key)) fed = Some s →
  (doc, t) ∈ fed → now ≤ t ≤ AddDays now days →
  NodeStore.held s = listing r now days ∧ NodeStore.loaded s = true.
Proof.
  intros Hp H0 H1 Hsg Hdocs Hun Hrun Hin Ht.
  assert (HV : ∀ t l, VerifyAt doc (ed_public key) t = Some (Ok l) → l = listing r now days).
  { intros t' l Hv. destruct (Sign_VerifyAt (listing r now days) key doc t' Hp ltac:(cbn; lia) Hsg) as [H _]. rewrite H in Hv.
    destruct (After t' _); [done|]. destruct (Before t' _); [done|]. by injection Hv. }
  assert (Hok : VerifyAt doc (ed_public key) t = Some (Ok (listing r now days))).
  { destruct (Sign_VerifyAt (listing r now days) key doc t Hp ltac:(cbn; lia) Hsg) as [-> _]. cbn [NodeList.Expires NodeList.Issued listing].
    unfold After, Before. by rewrite !(proj2 (Z.ltb_ge _ _)) by lia. }
  destruct (replace_all_spec _ _ _ Hrun) as (_ & _ & Hheld & Hmax).
  destruct (Hmax (listing r now days)) as [Hser Hld]; [by exists doc, t|]. split; [|done].
  destruct Hheld as [[_ Hn]|[_ (d & t' & Hin' & Hv)]]; [cbn in Hn; congruence|]. cbn in Hv.
  apply (Hun _ _ _ Hin') in Hv as Hd. apply elem_of_app in Hd as [Hd|Hd]; [|apply list_elem_of_singleton in Hd as ->; by apply HV in Hv].
  pose proof (proj1 (Forall_forall _ _) Hdocs d Hd t' _ Hv). unfold NodeStore.Serial in Hser. cbn in Hser. lia.
Qed.

Lemma session_app cs1 cs2 f :
  session f (cs1 ++ cs2) =
  ((session (session f cs1).1 cs2).1, (session f cs1).2 ++ (session (session f cs1).1 cs2).2).
Proof.
  revert f. induction cs1 as [|[[args seed] now] cs1 IH]; intros f; cbn [app session]; [by cbn [fst snd app]; destruct (session f cs2)|].
  destruct (tool f args seed now) as [f1 res]. rewrite IH. destruct (session f1 cs1) as [f2 docs]. cbn [fst snd].
  destruct (session f2 cs2) as [f3 docs']. cbn [fst snd]. by rewrite app_assoc.
Qed.

(** A directory as [init] leaves it. *)
Definition fresh_directory (key : bytes) : Files.t := Files.mk (Some (String.append (base64url key) newline)) None.
Lemma base64url_printable b : all_bytes printable (base64url b) = true.
Proof. eapply all_bytes_impl, base64url_alphabet. intros [[] [] [] [] [] [] [] []]; vm_compute; done. Qed.
Lemma fresh_tended key : slen key = SeedSize → tended (fresh_directory key) key roster.zero.
Proof.
  intros Hk. split; [|done|by constructor|done].
  unfold loadKey, fresh_directory. cbn [Files.keyFile].
  change (String.append (base64url key) newline) with (String.append "" (String.append (base64url key) newline)).
  rewrite TrimSpace_blanks by (done || apply base64url_printable).
  by rewrite base64url_roundtrip, Hk.
Qed.

(** The keys of a roster as hosts look them up, and what [add] and [remove] do to them. *)
Definition listed (r : roster.t) (domain : string) : option bytes := lookup_node (fold_name domain) (roster.Nodes r).

Lemma lookup_same d nodes : plain_names nodes → all_bytes is_ascii d = true → ToLower d = d →
  lookup_node d (filter (fun n => Is_true (negb (EqualFold (Node.Domain n) d))) nodes) = None.
Proof.
  intros Hp Hd Hl. induction nodes as [|n nodes IH]; [done|]. apply Forall_cons in Hp as [[Hn _] Hp].
  rewrite filter_cons. destruct (decide _) as [Hk|Hk]; [|by apply IH]. cbn [lookup_node].
  rewrite EqualFold_ascii, Hl in Hk by done. destruct (ToLower (Node.Domain n) == d); [done|]. by apply IH.
Qed.

Lemma rotate_lookup d key alias nodes nodes' : plain_names nodes → all_bytes is_ascii d = true → ToLower d = d →
  rotate d key alias nodes = Some nodes' → lookup_node d nodes' = Some key.
Proof.
  intros Hp Hd Hl. revert nodes'. induction nodes as [|n nodes IH]; intros nodes'; [done|]. apply Forall_cons in Hp as [[Hn _] Hp].
  cbn [rotate]. rewrite EqualFold_ascii, Hl by done. destruct (bool_decide_reflect (ToLower (Node.Domain n) = d)) as [He|Hne].
  - intros [= <-]. cbn [lookup_node Node.Domain Node.PublicKey]. by rewrite bool_decide_true.
  - intros (rest & Hr & ->)%fmap_Some. cbn [lookup_node]. rewrite bool_decide_false by done. by apply IH.
Qed.
Lemma rotate_None d key alias nodes k : plain_names nodes → all_bytes is_ascii d = true → ToLower d = d →
  rotate d key alias nodes = None → lookup_node d (nodes ++ [Node.mk d key k]) = Some key.
Proof.
  intros Hp Hd Hl. induction nodes as [|n nodes IH]; intros Hr.
  - cbn [app lookup_node Node.Domain]. by rewrite Hl, bool_decide_true.
  - apply Forall_cons in Hp as [[Hn _] Hp]. cbn [rotate] in Hr. rewrite EqualFold_ascii, Hl in Hr by done.
    cbn [app lookup_node]. destruct (ToLower (Node.Domain n) == d); [done|]. apply IH; [done|].
    by destruct (rotate d key alias nodes).
Qed.

Inductive edit : Type := Add (domain hostkey : string) (alias : option string) | Remove (domain : string).
Definition edit_args (e : edit) : list string :=
  match e with
  | Add domain hostkey alias => "add" :: domain :: hostkey :: match alias with Some a => [a] | None => [] end
  | Remove domain => ["remove"; domain]
  end.
(** The host that an edit is about, and what is known of it after. *)
Definition edit_domain (e : edit) : string := match e with Add domain _ _ | Remove domain => domain end.
Definition edit_key (e : edit) : option bytes :=
  match e with Add _ hostkey _ => base64url_decode (TrimRight (TrimSpace hostkey) "=") | Remove _ => None end.

Lemma saved_roster f r r' : plain_names (roster.Nodes r') → 0 ≤ roster.Serial r' < two64 →
  loadRoster (saveRoster f r') = Ok r → r = r'.
Proof.
  intros Hp Hs. unfold loadRoster, saveRoster. cbn. rewrite (roster_read_back r' _ _ keys_read_back Hp Hs). by intros [= <-].
Qed.
Lemma edit_listed f key r e seed now f' out r' : tended f key r → typed (edit_args e, seed, now) →
  tool f (edit_args e) seed now = (f', Ok out) → loadRoster f' = Ok r' →
  ∀ d, fold_name d = fold_name (edit_domain e) → listed r' d = edit_key e.
Proof.
  intros HT Ha Hrun Hr' d Hd. unfold listed. rewrite Hd. clear d Hd.
  assert (Hasc : all_bytes is_ascii (edit_domain e) = true ∧ ∀ d k a, e = Add d k (Some a) → all_bytes is_ascii a = true).
  { unfold typed in Ha. cbn [fst] in Ha. destruct e as [d k [a|]|d]; cbn in Ha; rewrite !Forall_cons in Ha; split; try tauto; intros ? ? ? [=]; subst; tauto. }
  destruct Hasc as [Hdom Hal]. pose proof (fold_name_ascii _ Hdom) as Hf. pose proof (fold_name_lower _ Hdom) as Hl.
  pose proof (td_plain _ _ _ HT) as Hp. pose proof (td_serial _ _ _ HT) as Hs.
  destruct e as [domain hostkey alias|domain]; cbn [edit_domain edit_key] in *.
  - assert (Ht : add_host f domain hostkey alias = (f', Ok out)) by (by destruct alias). clear Hrun. revert Ht. unfold add_host.
    destruct (base64url_decode _) as [k|]; [|done]. destruct (slen k != PublicKeySize); [done|]. rewrite (td_roster _ _ _ HT).
    assert (Ha' : ∀ a, fold_name <$> alias = Some a → all_bytes is_ascii a = true)
      by (intros a (b & -> & ->)%fmap_Some; eapply fold_name_ascii, Hal; done).
    destruct (rotate _ k _ (roster.Nodes r)) as [nodes|] eqn:Hr; intros [= <- _]; apply saved_roster in Hr' as ->; cbn [roster.Nodes roster.Serial];
      [by eapply rotate_lookup|by eapply rotate_plain|done|by eapply rotate_None| |done].
    apply Forall_app. split; [done|]. repeat constructor; cbn; [done|]. destruct (fold_name <$> alias) as [a|]; cbn; auto.
  - assert (Ht : cmdRemove f [domain] = (f', Ok out)) by done. clear Hrun. revert Ht. unfold cmdRemove. rewrite (td_roster _ _ _ HT).
    destruct (existsb _ _); cbn [negb]; [|done]. intros [= <- _]. apply saved_roster in Hr' as ->; cbn [roster.Nodes roster.Serial]; [by apply lookup_same| |done].
    apply Forall_forall. intros n [_ Hn]%list_elem_of_filter. by apply (proj1 (Forall_forall _ _) Hp).
Qed.
End Lemmas.

(** C34. An edit of the roster reaches every host. The coordinator makes its key and gives
    its tool any commands, written in ASCII ([typed]; it signs no domain that is not), then admits a host (or changes its key) or removes one, and
    signs. A host that trusts its key and is fed what it likes, in any order and as often
    as it likes, of which only documents of the tool verify, the last one among it in the
    time it is valid, answers for the host edited, however its name is written, with the
    key given or, when it was removed, with none: at any time until the list expires. *)
Theorem edits_reach_hosts {U : Unicode} {J : ListJSON} {M : ListMarshal} {E : Ed25519} {ML : ListMarshalLaws}
    (key : bytes) (cs : list command) (e : edit) (args : list string) (drawn drawn' : bytes) (at_ now : time)
    (f f' : Files.t) (out doc : string) (days : Z) (fed : list (string * time)) (s : NodeStore.t) (t : time) :
  slen key = SeedSize → Forall typed cs → typed (edit_args e, drawn, at_) → Z.of_nat (length cs) + 2 < two64 →
  tool (session (fresh_directory key) cs).1 (edit_args e) drawn at_ = (f, Ok out) →
  days_of 30 args = Some days → tool f ("sign" :: args) drawn' now = (f', Ok doc) →
  unforged key ((session (fresh_directory key) cs).2 ++ [doc]) fed →
  replace_all (NodeStore.NewStore (ed_public key)) fed = Some s →
  (doc, t) ∈ fed → now ≤ t ≤ AddDays now days →
  ∀ domain t', fold_name domain = fold_name (edit_domain e) → t' ≤ AddDays now days →
    NodeStore.KeyFor s domain t' = Ok (edit_key e).
Proof.
  intros Hk Hcs He Hlen Hedit Hdays Hsign Hun Hrun Hin Ht domain t' Hdom Ht'.
  destruct (session_tended cs _ key _ (fresh_tended key Hk) ltac:(cbn; lia) Hcs) as (r0 & HT0 & Hle0 & Hdocs). cbn [roster.Serial roster.zero] in *.
  destruct (tool_tended _ key r0 _ drawn at_ HT0 ltac:(lia) He) as (r & HT & Hle & _). rewrite Hedit in HT. cbn [fst] in HT.
  pose proof (edit_listed _ key r0 e drawn at_ f out r HT0 He Hedit (td_roster _ _ _ HT) domain Hdom) as Hlisted.
  destruct (cmdSign_tended f key r args now HT ltac:(lia)) as (r' & _ & _ & Hdoc).
  change (tool f ("sign" :: args) drawn' now) with (cmdSign f args now) in Hsign. rewrite Hsign in Hdoc.
  destruct (Hdoc doc eq_refl) as (_ & _ & days' & Hdays' & Hsg). rewrite Hdays in Hdays'. injection Hdays' as <-.
  pose proof (td_serial _ _ _ HT) as Hs0.
  destruct (last_held r now days key (session (fresh_directory key) cs).2 doc fed s t) as [Hheld Hld]; try done; [exact (td_plain _ _ _ HT)|lia|lia| |].
  { eapply Forall_impl; [exact Hdocs|]. intros d Hb t1 l Hv. specialize (Hb t1 l Hv). lia. }
  unfold NodeStore.KeyFor. rewrite Hld, Hheld. cbn [negb NodeList.Expires listing]. unfold After. rewrite (proj2 (Z.ltb_ge _ _)) by lia.
  f_equal. exact Hlisted.
Qed.

(** ** Witnesses *)

(** A codec that marks every byte of a field with 1 and the end of a field with 0. *)
Fixpoint toy_field (s rest : string) : string :=
  match s with EmptyString => String "0" rest | String c s => String "1" (String c (toy_field s rest)) end.
Definition toy_fields (fields : list string) (rest : string) : string := foldr toy_field rest fields.
Fixpoint toy_read (acc s : string) : list string :=
  match s with
  | String "0" rest => rev_string acc :: toy_read "" rest
  | String "1" (String c rest) => toy_read (String c acc) rest
  | _ => []
  end.
Fixpoint toy_positive (p : positive) : string :=
  match p with xH => "" | xO p => String "0" (toy_positive p) | xI p => String "1" (toy_positive p) end.
Fixpoint toy_read_positive (s : string) : positive :=
  match s with String "0" s => xO (toy_read_positive s) | String _ s => xI (toy_read_positive s) | EmptyString => xH end.
Definition toy_int (z : Z) : string :=
  match z with Z0 => "z" | Zpos p => String "p" (toy_positive p) | Zneg p => String "n" (toy_positive p) end.
Definition toy_read_int (s : string) : Z :=
  match s with String "p" s => Zpos (toy_read_positive s) | String "n" s => Zneg (toy_read_positive s) | _ => 0 end.
Definition toy_nodes (enc : bytes → string) (nodes : list Node.t) : list string :=
  n ← nodes; [Node.Domain n; enc (Node.PublicKey n); Node.Alias n].
Fixpoint toy_read_nodes (dec : string → option bytes) (fields : list string) : option (list Node.t) :=
  match fields with
  | domain :: key :: alias :: fields =>
      match dec key, toy_read_nodes dec fields with
      | Some key, Some nodes => Some (Node.mk domain key alias :: nodes)
      | _, _ => None
      end
  | _ => Some []
  end.

Definition toy_json : ListJSON := {|
  unmarshal_doc doc := match toy_read "" doc with [payload; sig] => Some (payload, sig) | _ => None end;
  unmarshal_list payload dec :=
    match toy_read "" payload with
    | serial :: issued :: expires :: fields =>
        NodeList.mk (toy_read_int serial) (toy_read_int issued) (toy_read_int expires) <$> toy_read_nodes dec fields
    | _ => None
    end
|}.
Definition toy_marshal : ListMarshal := {|
  marshal_list l enc := Some (toy_fields (toy_int (NodeList.Serial l) :: toy_int (NodeList.Issued l) :: toy_int (NodeList.Expires l) ::
                                          toy_nodes enc (NodeList.Nodes l)) "");
  marshal_doc payload sig := Some (toy_fields [payload; sig] "");
  marshal_roster r enc := toy_fields (toy_int (roster.Serial r) :: toy_nodes enc (roster.Nodes r)) "";
  unmarshal_roster s dec :=
    match toy_read "" s with serial :: fields => roster.mk (toy_read_int serial) <$> toy_read_nodes dec fields | [] => None end
|}.

Lemma toy_read_field s rest : ∀ acc, toy_read acc (toy_field s rest) = String.append (rev_string acc) s :: toy_read "" rest.
Proof.
  induction s as [|c s IH]; intros acc; cbn [toy_field toy_read]; [by rewrite append_nil_r|].
  rewrite IH. cbn [rev_string]. by rewrite append_assoc.
Qed.
Lemma toy_read_fields fields rest : toy_read "" (toy_fields fields rest) = fields ++ toy_read "" rest.
Proof. induction fields as [|s fields IH]; [done|]. cbn [toy_fields foldr]. rewrite toy_read_field. cbn [app]. by rewrite <-IH. Qed.
Lemma toy_read_toy_positive p : toy_read_positive (toy_positive p) = p.
Proof. induction p as [p IH|p IH|]; cbn; by rewrite ?IH. Qed.
Lemma toy_read_toy_int z : toy_read_int (toy_int z) = z.
Proof. destruct z; cbn; by rewrite ?toy_read_toy_positive. Qed.
Lemma toy_read_toy_nodes enc dec nodes : reads_back enc dec → toy_read_nodes dec (toy_nodes enc nodes) = Some nodes.
Proof.
  intros Hr. induction nodes as [|[domain key alias] nodes IH]; [done|].
  change (toy_nodes enc (Node.mk domain key alias :: nodes)) with (domain :: enc key :: alias :: toy_nodes enc nodes).
  cbn [toy_read_nodes]. by rewrite Hr, IH.
Qed.
Lemma toy_marshal_laws : ListMarshalLaws (J := toy_json) (M := toy_marshal).
Proof.
  split; cbn [marshal_list marshal_doc marshal_roster unmarshal_roster unmarshal_doc unmarshal_list toy_json toy_marshal].
  - done.
  - intros [serial issued expires nodes] enc dec payload Hr _ _ Hp. apply (inj Some) in Hp as <-. rewrite toy_read_fields. cbn [app NodeList.Serial NodeList.Issued NodeList.Expires NodeList.Nodes].
    by rewrite app_nil_r, toy_read_toy_nodes, !toy_read_toy_int.
  - intros l enc payload sig _ _. exists (toy_fields [payload; sig] ""). split; [done|]. by rewrite (toy_read_fields [payload; sig]).
  - intros [serial nodes] enc dec Hr _ _. unfold toy_fields. cbn [roster.Serial roster.Nodes].
    assert (H : ∀ fields, String.append (foldr toy_field "" fields) newline = toy_fields fields newline).
    { intros fields. induction fields as [|s fields IH]; [done|]. cbn [foldr toy_fields]. fold (toy_fields fields newline). rewrite <-IH.
      generalize (foldr toy_field "" fields). intros rest. induction s as [|c s IHs]; cbn; by rewrite ?IHs. }
    rewrite (H (_ :: _)), toy_read_fields. cbn. by rewrite app_nil_r, toy_read_toy_nodes, toy_read_toy_int.
Qed.

(** Two hosts are admitted, a list is signed, and the first host is removed. *)
Definition sample_seed : bytes := "0123456789abcdef0123456789abcdef".
Definition host_key (d : string) : string := base64url (toy_public d).
Definition sample_commands : list command :=
  [(["add"; "a.example"; host_key "a.example"], "", 5); (["add"; " B.Example "; host_key "b.example"; "bee"], "", 6); (["sign"], "", 10)].
Definition sample_files : Files.t * list string :=
  session (U := ascii_only) (M := toy_marshal) (E := toy_ed25519) (fresh_directory sample_seed) sample_commands.
Definition sample_removed : Files.t :=
  (tool (U := ascii_only) (M := toy_marshal) (E := toy_ed25519) sample_files.1 ["remove"; "A.EXAMPLE"] "" 20).1.
Definition sample_doc : string :=
  match (tool (U := ascii_only) (M := toy_marshal) (E := toy_ed25519) sample_removed ["sign"; "--days"; "7"] "" 30).2 with
  | Ok doc => doc
  | Err _ => ""
  end.
(** A host that gets the second list, and then the first. *)
Definition sample_fed : list (string * time) := [(sample_doc, 40); (default "" (head sample_files.2), 50)].

Lemma sample_unforged : unforged (U := ascii_only) (J := toy_json) (E := toy_ed25519) sample_seed (sample_files.2 ++ [sample_doc]) sample_fed.
Proof.
  assert (H : sample_fed.*1 ⊆ sample_files.2 ++ [sample_doc]).
  { assert (Hb : forallb (fun d => bool_decide (d ∈ sample_files.2 ++ [sample_doc])) sample_fed.*1 = true) by (vm_compute; reflexivity).
    intros d Hd. rewrite forallb_forall in Hb. apply (bool_decide_eq_true_1 _), Hb. by apply list_elem_of_In. }
  intros doc t l Hin _. apply H. by apply (list_elem_of_fmap_2 fst) in Hin.
Qed.

Lemma edits_reach_hosts_witness :
  ∃ s, replace_all (U := ascii_only) (J := toy_json) (E := toy_ed25519) (NodeStore.NewStore (ed_public (Ed25519 := toy_ed25519) sample_seed)) sample_fed = Some s ∧
    NodeStore.IsPeer (U := ascii_only) s "b.example" 60 = true ∧
    NodeStore.KeyFor (U := ascii_only) s "a.Example" 60 = Ok None.
Proof.
  eexists. match goal with |- ?P ∧ _ => assert (Hs : P) by (vm_compute; reflexivity) end. split; [exact Hs|].
  split; [vm_compute; reflexivity|].
  refine (edits_reach_hosts (U := ascii_only) (J := toy_json) (M := toy_marshal) (E := toy_ed25519) (ML := toy_marshal_laws)
    sample_seed sample_commands (Remove "A.EXAMPLE") ["--days"; "7"] "" "" 20 30 sample_removed _ _ sample_doc 7 sample_fed _ 40
    eq_refl _ _ _ _ eq_refl _ sample_unforged Hs _ _ "a.Example" 60 _ _).
  - repeat constructor.
  - repeat constructor.
  - vm_compute. reflexivity.
  - vm_compute. reflexivity.
  - vm_compute. reflexivity.
  - by left.
  - vm_compute. split; discriminate.
  - vm_compute. reflexivity.
  - vm_compute. discriminate.
Defined.
